(* ===== verification/_CoqProject ===== *)
-Q . S2P
Prelude.v
PyData.v
Float.v
FreeQueue.v
BlockHash.v
BlockHasher.v
BlockPool.v
CacheAllocator.v
Ownership.v
PrefixCache.v
SingleTypeManager.v
HybridCache.v
RetentionMask.v
KVCacheManager.v
KVCacheManagerSpec.v
Residency.v
Scoring.v
Pages.v
OffloadManager.v
StagingPool.v
Controller.v
Selection.v
Orchestrator.v
OrchestratorSpec.v
Config.v
Scheduler.v
SchedulerSpec.v
SystemSpec.v
Worker.v
BatchOrder.v
Builder.v
BuilderFaults.v
EncoderCache.v
EncoderCacheSpec.v
EncoderSchedule.v
Heap.v
RequestQueue.v
WorkerLoad.v
StopConditions.v
RequestScheduler.v
RequestUpdate.v
SchedulerInterfaces.v
RequestSchedulerSpec.v
RequestUpdateSpec.v
SchedulerInstances.v
RequestSchedulerProps.v
AsyncScheduler.v
EngineLoop.v
EngineLoopProps.v
EncoderRunner.v
