(* ===== verification/Prelude.v ===== *)
(** * A verification of the KV-cache offloading runtime

    The repository is vLLM 0.29 with a package, [offload_package], that moves
    cold KV-cache pages of running requests to CPU memory and brings them back
    into a reserved staging area of the GPU cache when sparse attention selects
    them.  This library models the package and the part of vLLM it plugs into:
    the block pool, the prefix cache and the KV-cache manager of
    [vllm/v1/core].  Paths below are relative to src/ (offload_package/...) and
    to src/vllm-0.29.0/ (vllm/...).

    ** The program

    The scheduler process owns the GPU pages.  [KVCacheManager] admits tokens of
    a request ([allocate_slots]): it looks for a cached prefix through a
    coordinator, which holds one manager per group of attention layers; the
    managers keep the block tables and take pages from one shared [BlockPool],
    whose free pages are a linked queue in eviction order and whose cached pages
    are indexed by chained block hashes.

    The offload scheduler connector watches every scheduling step, tells the
    orchestrator which blocks each request has, and on a trigger picks the
    coldest blocks through a scorer.  The offload manager copies them to CPU
    slots; the batch is stamped with a store event.  The worker connector
    records a CUDA event per store and reports it when it has completed on the
    device; once every worker has reported it, the scheduler connector replaces the
    GPU pages in the request's table by the null block and frees them.  During
    decoding the staging pool copies CPU blocks that the sparse selection needs
    into pages reserved at the tail of the GPU cache, and the selection adapter
    rewrites the page indices the attention kernel reads.  The metadata builder of
    the Skylight attention backend drives this once per step, after the runner has
    put the decode rows of the batch first.

    Around the pages, the request scheduler keeps its waiting requests in two
    queues, gives each step's tokens to running and waiting requests, preempts
    running ones when pages run out, and decides which multi-modal inputs are
    encoded, against a cache of encoder outputs that it counts and the model runner
    holds.  The engine loop takes requests and aborts, runs the model on each
    step's plan, appends the sampled tokens and ends the requests that are done.

    ** The files

    Shared:
    - Prelude.v: exceptions, the state-and-exception monad [M] with its
      notations and weakest-precondition lemmas, automation.
    - PyData.v: insertion-ordered dicts, Python indexing, slices and ranges,
      stable argsort.
    - Float.v: binary64 and float32 rounding as integer arithmetic.

    vLLM's cache:
    - FreeQueue.v: [FreeKVCacheBlockQueue] (kv_cache_utils.py) as pointer maps.
    - BlockHash.v: group-tagged keys, [BlockHashToBlockMap] (block_pool.py).
    - BlockHasher.v: request hashes and their extra keys (kv_cache_utils.py,
      request.py); the hash function is a parameter.
    - BlockPool.v: [BlockPool] (block_pool.py).
    - Ownership.v: occurrences of a page in block tables against reference counts.
    - PrefixCache.v: registering full and partial blocks (block_pool.py), the
      searches of the attention types (single_type_kv_cache_manager.py).
    - SingleTypeManager.v: the managers of full, RSWA, sliding-window and
      chunked-local attention (single_type_kv_cache_manager.py).
    - HybridCache.v: the lookup over groups of different types
      (kv_cache_coordinator.py), against the interface [PrefixSearch].
    - RetentionMask.v: which sliding-window blocks stay cached.
    - KVCacheManager.v, KVCacheManagerSpec.v: the coordinator's operations,
      [get_computed_blocks] and [allocate_slots] (kv_cache_manager.py), and
      what they guarantee.

    The offload package:
    - CacheAllocator.v: [reserve_staging_tail] (cache_allocator.py).
    - Residency.v: where each block is (staging/residency.py).
    - Scoring.v: the scorers behind [BlockScorer] (scoring/), with the laws the
      clients rely on in [LawfulScorer].
    - Pages.v: the layouts of a page and of its CPU copy.
    - OffloadManager.v: CPU slots, scoring, the store paths (offload/manager.py).
    - StagingPool.v: staging slots and the load path (staging/pool.py).
    - Controller.v: when an offload is due (controller.py).
    - Selection.v: sparse selections and page indices (selection/adapter.py).
    - Orchestrator.v, OrchestratorSpec.v: integration/manager.py.
    - Config.v: configuration and construction (config.py, shared/types.py,
      integration/vllm_bridge.py, integration/connector.py).
    - Scheduler.v, SchedulerSpec.v: integration/scheduler_connector.py, metadata.py.
    - Worker.v: event tracking of integration/worker_connector.py.
    - WorkerLoad.v: its load path, and the facade's [build_connector_meta]
      (integration/connector.py).
    - SystemSpec.v: scheduler, orchestrator and pages together.

    The attention backend (skylight/src/skylight/backend.py over
    vllm/v1/attention/backends/):
    - BatchOrder.v: the order of the rows of a batch (utils.py).
    - Builder.v, BuilderFaults.v: [SkylightSparseMetadataBuilder] on top of
      FlashInfer's page indices (flashinfer.py), and two runs it gets wrong.

    Request scheduling (vllm/v1/core):
    - EncoderCache.v, EncoderCacheSpec.v: the encoder cache managers
      (encoder_cache_manager.py), placeholders (vllm/multimodal/), and the
      scheduler's use of them (sched/scheduler.py).
    - EncoderSchedule.v: what a step with multi-modal inputs can rely on, and the
      runner's copy of the cache (vllm/v1/worker/gpu_model_runner.py).
    - Heap.v, RequestQueue.v: Python's heapq, and the request queues
      (sched/request_queue.py).
    - RequestScheduler.v: [Scheduler.schedule] (sched/scheduler.py), over the
      interfaces [KVCache], [EncoderManager] and [RequestQueue].
    - SchedulerInterfaces.v: the laws [KVLaws] and [EncoderLaws] a step relies on.
    - RequestSchedulerSpec.v: the loops of a step against these laws.
    - SchedulerInstances.v: the KV-cache manager and the encoder cache keep them.
    - RequestSchedulerProps.v: what a step guarantees, and concrete runs.
    - StopConditions.v: [check_stop] and repeated patterns (sched/utils.py).
    - RequestUpdate.v: the rest of sched/scheduler.py that changes requests
      ([add_request], [finish_requests], [update_from_output],
      [update_draft_token_ids]) and [EngineCore.step] (vllm/v1/engine/core.py).
    - RequestUpdateSpec.v: these against the laws, with the invariant [sync_ok]
      of synchronous scheduling.
    - AsyncScheduler.v: the overrides of sched/async_scheduler.py, and the counters of
      one request when steps and outputs interleave.
    - EngineLoop.v, EngineLoopProps.v: sequences of new requests, aborts, pauses and
      steps, and what they guarantee.
    - EncoderRunner.v: encoding and gathering in the model runner
      (vllm/v1/worker/gpu_model_runner.py), driven by the plans of the scheduler.

    Each definition keeps the source's name, is a whole handler, and threads the
    object's fields explicitly.  Objects that the code shares (the pool, the
    residency table, the scorer, the CPU cache) exist once in the state.  Block
    objects are named by their ids.  Exceptions are the values [Raise e], and the
    state at the moment of the exception is kept.

    ** What the theorems show

    Pages are neither lost nor shared.  The free queue is a list
    ([queue_refines_list]), holds exactly the unreferenced blocks in every
    reachable state ([free_queue_lists_unreferenced], with the order of
    [free_blocks_order]); [get_new_blocks] hands out
    unreferenced blocks or raises and changes nothing ([get_new_blocks_safe]);
    reference counts are the occurrences in tables, pending copies and handed-out
    blocks ([kv_no_leak]); [allocate_slots] either takes exactly what it counted
    or leaves the pages alone ([allocate_slots_all_or_nothing]); pages outside
    every attention window are the only ones dropped
    ([skipped_blocks_outside_window]); the staging tail is never allocated
    ([staging_tail_never_allocated], [staging_area_is_reserved_tail]).

    The prefix cache serves a request its own prefix.  Equal block hashes mean
    equal tokens and extra keys ([block_hash_identifies_prefix], for a collision-free
    hash, if hashing resumes only after all multi-modal inputs but the last) and
    are the same whenever they are computed ([block_hashes_incremental]); cached blocks own their key
    ([get_cached_block_owned]); the searches return the longest hit their
    attention type can use ([full_hit_correct], [window_hit_correct],
    [hybrid_hit_correct]); registered prefixes are found
    ([cached_prefix_found]), also under sparse retention without EAGLE
    ([retained_blocks_serve_boundaries]).

    Offloading preserves data and books.  As long as the block tables that vLLM
    reports do not shrink, CPU slots are never leaked, in any sequence of
    orchestrator calls ([no_slot_leaks]) and in the whole system, where each CPU
    block of a batch in flight has one holder ([offload_system_safe]); an offload pass moves the
    coldest blocks and undoes itself when the copy fails
    ([offload_fraction_correct]); staged pages hold the offloaded data
    ([ensure_resident_correct], [offload_stage_roundtrip]); a page is freed only
    when its table entry is still the block that was stored and all workers have
    finished ([store_completion_safe], [event_waits_for_all_workers],
    [worker_reports_each_event_once], [flush_loses_no_batch],
    [trigger_offloads_sole_owned]); the indices given to the kernel name the
    right pages ([patched_indices_correct]), in the whole step of the builder
    ([build_hides_recycled_pages], for the decode rows that [decode_rows_first]
    puts first); the worker's own fetch does nothing beyond the preparation
    ([start_load_only_prepares]).

    Steps get their inputs.  The tokens of a step find their encoder outputs
    ([encoder_inputs_available]), the counters and indexes of the encoder cache
    agree ([encoder_cache_consistent]), it evicts in order
    ([can_allocate_evicts_oldest]), the runner holds what the manager counts
    ([runner_cache_mirrors_manager]) and finds what it gathers
    ([gather_finds_cached_items]), as long as no request is preempted in the pass
    that scheduled it ([preempted_item_never_encoded]), and an item that is
    allowed fits ([encoder_budget_fits_items]).  Both request queues implement a list served in
    their order ([request_queue_refines_list], [select_queue_serves_least]).

    A scheduling step that may start ([may_step]: a sensible configuration and a
    settled state) returns, within its budgets and limits
    ([schedule_within_limits]); it loses no request and keeps the books of pages
    and encoder outputs ([schedule_keeps_requests]); it preempts the requests the
    policy names, and puts them back at the head of the queue ([preemption_order]).
    In the configurations of [engine_ok], the engine loop around it never fails
    ([engine_never_fails]): any sequence of legal events leaves the state a next step needs, with well-formed requests
    ([engine_requests_well_formed]).  It accounts for every token
    and request ([engine_accounts_for_tokens]), keeps the sampled tokens up to the
    first stop ([tokens_kept_until_stop]), and releases what aborted requests hold
    ([finish_requests_releases]); the repetition check finds exactly the repeated
    blocks ([check_sequence_repetition_correct]).  With asynchronous scheduling the
    placeholders of a request are the tokens its outputs under way can bring
    ([async_counters_consistent]).
    All this holds for every manager and queue that keeps the laws, and
    SchedulerInstances.v shows that the modelled ones do (the KV-cache manager with
    prefix caching switched off).

    Some theorems record where the code departs from its documentation or its
    purpose: [prefill_row_keeps_recycled_page], [preempted_item_never_encoded] and,
    without a number, [lora_name_collides_with_salt],
    [guard_ignores_staged_blocks], [encoder_decoder_overcounts_slots],
    [load_events_never_reported], [staged_block_evicted_by_own_batch],
    [shrinking_table_leaks_slot], [cpu_pool_one_block_short],
    [resumed_hash_drops_mm_input], [eagle_window_trims_twice],
    [auto_staging_fails_on_small_pools], [lru_clock_saturates],
    [zero_fraction_offloads_one], [random_over_budget],
    [initialize_ignores_scorer_type], [lora_limit_exceeded],
    [padded_decode_cut_off].

    ** Fuel and bounds

    Most loops are structural.  Fuel bounds the others: the queue walk, where one
    unit per block is enough ([queue_refines_list]); the hashing loop, which gets
    one unit per token ([block_hashes_incremental] gives its result); the
    fixed point of the hybrid lookup, which [hybrid_hit_correct] shows to return
    with any fuel above the maximal length; the swaps of a batch reordering, one
    unit per moved row ([decode_rows_first] shows that it returns); and the
    bisections and heap walks, which halve a range or walk a branch and get the
    length of the list ([encoder_inputs_available], [request_queue_refines_list]).
    The loops of a scheduling step get one unit per running request, per possible
    victim and per waiting request, and [schedule_within_limits] shows that this is
    enough.
    Page and slot numbers are unbounded integers, as in Python; the packed group
    id of a key keeps its four bytes, and the LRU clock its float32 rounding.

    ** Not modelled

    The GPU kernels of the attention backends and what plans them (FlashInfer's
    wrappers, cascade attention, the ring slots of the product quantiser), the
    sparse scorer and the adapters that install it (scoring/sparse_scorer.py,
    integration/*_backend.py, *_adapter.py, scoring/cuda_norms.py,
    offload/triton_score.py): tensor programs; the norms and selections they
    produce are arguments.  CUDA transfers are values that may fail.  Mamba,
    circular-buffer, cross-attention and sink managers, context parallelism, KV
    events, metrics and logging.  The copies of the offload manager are synchronous values, so
    the wait for their CUDA event is left out.  Of the request scheduler: streaming
    sessions, loads from the connector, the loop of the asynchronous engine with its batch
    queue (of which AsyncScheduler.v has one request's counters), routed experts, log
    probabilities and statistics.  The model runner and the grammars
    are arguments: [legal_run] says what an answer of the runner looks like.  The
    properties of a single scheduling step are stated for any state with [may_step],
    which the synchronous loop establishes ([engine_never_fails]); the offload
    package's own theorems quantify over the sequences of calls that reach it. *)

From stdpp Require Import base gmap sets list strings sorting.
From Stdlib Require Import ZArith Lia.

#[global] Set Default Goal Selector "!".
Open Scope Z_scope.

(** ** Python exceptions and results *)

(** The exception classes the modelled code raises or lets through.
    [CudaError] stands for whatever a torch/CUDA call raises. *)
Inductive exn :=
  | ValueError
  | RuntimeError
  | KeyError
  | IndexError
  | TypeError
  | AssertionError
  | OverflowError
  | CudaError.

#[global] Instance exn_eq_dec : EqDecision exn.
Proof. solve_decision. Defined.

Inductive result (A : Type) :=
  | Ok (a : A)
  | Raise (e : exn).
Arguments Ok {A} a.
Arguments Raise {A} e.

Definition result_bind {A B} (r : result A) (k : A → result B) : result B :=
  match r with Ok a => k a | Raise e => Raise e end.

Definition is_ok {A} (r : result A) : bool :=
  match r with Ok _ => true | Raise _ => false end.

(** ** The state-and-exception monad

    A Python method mutates objects and may raise; what it mutated before the
    raise stays mutated.  So the state is returned on both outcomes. *)
Definition M (S A : Type) : Type := S → result A * S.

Section Monad.
Context {S : Type}.

Definition ret {A} (a : A) : M S A := λ s, (Ok a, s).
Definition raise {A} (e : exn) : M S A := λ s, (Raise e, s).
Definition bind {A B} (m : M S A) (k : A → M S B) : M S B := λ s,
  match m s with
  | (Ok a, s') => k a s'
  | (Raise e, s') => (Raise e, s')
  end.
Definition gets {A} (f : S → A) : M S A := λ s, (Ok (f s), s).
Definition modify (f : S → S) : M S unit := λ s, (Ok tt, f s).
Definition lift {A} (r : result A) : M S A := λ s, (r, s).
Definition catch {A} (m : M S A) (h : exn → M S A) : M S A := λ s,
  match m s with
  | (Ok a, s') => (Ok a, s')
  | (Raise e, s') => h e s'
  end.
(** [ensure b e]: [if not b: raise e]. *)
Definition ensure (b : bool) (e : exn) : M S unit :=
  if b then ret tt else raise e.

(** [for x in l: f x] *)
Fixpoint mfor {A} (l : list A) (f : A → M S unit) : M S unit :=
  match l with
  | [] => ret tt
  | x :: l' => bind (f x) (λ _, mfor l' f)
  end.

(** [[f x for x in l]] with an effectful [f]. *)
Fixpoint mmap {A B} (f : A → M S B) (l : list A) : M S (list B) :=
  match l with
  | [] => ret []
  | x :: l' => bind (f x) (λ y, bind (mmap f l') (λ ys, ret (y :: ys)))
  end.
End Monad.

(** Run a method of a sub-object: [get]/[set] select it inside the state. *)
Definition zoom {S T A} (get : S → T) (set : T → S → S) (m : M T A) : M S A :=
  λ s, let '(r, t) := m (get s) in (r, set t s).

Declare Scope py_scope.
Delimit Scope py_scope with py.
Notation "'let!' x ':=' m 'in' k" := (bind m (λ x, k))
  (at level 10, x binder, m at level 100, k at level 200)
  : py_scope.
Notation "m '>>' k" := (bind m (λ _, k))
  (at level 100, k at level 200, right associativity) : py_scope.
Notation "'when' b 'do' m" := (if b then m else ret tt)
  (at level 99, b at level 90, m at level 99) : py_scope.
Open Scope py_scope.

(** *** Weakest preconditions

    [wp m Q E s]: run [m] from [s]; a normal return satisfies [Q], a raise
    satisfies [E]. *)
Definition wp {S A} (m : M S A) (Q : A → S → Prop) (E : exn → S → Prop)
    (s : S) : Prop :=
  match m s with
  | (Ok a, s') => Q a s'
  | (Raise e, s') => E e s'
  end.

Section WP.
Context {S : Type}.
Implicit Types s : S.

Lemma wp_ret {A} (a : A) Q E s : Q a s → wp (ret a) Q E s.
Proof. done. Qed.
Lemma wp_raise {A} e (Q : A → S → Prop) E s : E e s → wp (raise e) Q E s.
Proof. done. Qed.
Lemma wp_bind {A B} (m : M S A) (k : A → M S B) Q E s :
  wp m (λ a, wp (k a) Q E) E s → wp (bind m k) Q E s.
Proof. unfold wp, bind. by destruct (m s) as [[a|e] s']. Qed.
Lemma wp_bind_inv {A B} (m : M S A) (k : A → M S B) Q E s :
  wp (bind m k) Q E s → wp m (λ a, wp (k a) Q E) E s.
Proof. unfold wp, bind. by destruct (m s) as [[a|e] s']. Qed.
Lemma wp_gets {A} (f : S → A) Q E s : Q (f s) s → wp (gets f) Q E s.
Proof. done. Qed.
Lemma wp_modify f Q E s : Q tt (f s) → wp (modify f) Q E s.
Proof. done. Qed.
Lemma wp_lift {A} (r : result A) Q E s :
  match r with Ok a => Q a s | Raise e => E e s end → wp (lift r) Q E s.
Proof. by destruct r. Qed.
Lemma wp_catch {A} (m : M S A) h Q E s :
  wp m Q (λ e, wp (h e) Q E) s → wp (catch m h) Q E s.
Proof. unfold wp, catch. by destruct (m s) as [[a|e] s']. Qed.
Lemma wp_ensure b e Q E s :
  (b = true → Q tt s) → (b = false → E e s) → wp (ensure b e) Q E s.
Proof. destruct b; cbv; auto. Qed.
Lemma wp_mono {A} (m : M S A) (Q Q' : A → S → Prop) (E E' : exn → S → Prop) s :
  wp m Q E s → (∀ a s', Q a s' → Q' a s') → (∀ e s', E e s' → E' e s') →
  wp m Q' E' s.
Proof. unfold wp. destruct (m s) as [[a|e] s']; auto. Qed.

(** The loop rule: the invariant sees the items already processed. *)
Lemma wp_mfor {A} (I : list A → S → Prop) (E : exn → S → Prop) (l : list A) f s :
  I [] s →
  (∀ pre x suf s', l = pre ++ x :: suf → I pre s' →
     wp (f x) (λ _, I (pre ++ [x])) E s') →
  wp (mfor l f) (λ _, I l) E s.
Proof.
  intros HI Hstep.
  cut (∀ pre suf s', l = pre ++ suf → I pre s' →
         wp (mfor suf f) (λ _, I l) E s').
  { intros Hcut. by apply (Hcut [] l s). }
  intros pre suf. revert pre.
  induction suf as [|x suf IH]; intros pre s' -> HIp.
  - rewrite app_nil_r. by apply wp_ret.
  - apply wp_bind. eapply wp_mono; [by eapply Hstep| |done].
    intros [] s'' HI''. specialize (IH (pre ++ [x]) s'').
    rewrite <-(assoc app) in IH. by apply IH.
Qed.

(** The loop rule for an invariant that does not look at the items. *)
Lemma wp_mfor_inv {A} (I : S → Prop) (E : exn → S → Prop) (l : list A) f s :
  I s →
  (∀ x s', x ∈ l → I s' → wp (f x) (λ _, I) E s') →
  wp (mfor l f) (λ _, I) E s.
Proof.
  intros HI Hstep. apply (wp_mfor (λ _, I)); [done|].
  intros pre x suf s' -> HI'. apply Hstep; [set_solver|done].
Qed.

Lemma wp_zoom {T A} (get : S → T) (set : T → S → S) (m : M T A) Q E s :
  wp m (λ a t, Q a (set t s)) (λ e t, E e (set t s)) (get s) →
  wp (zoom get set m) Q E s.
Proof. unfold wp, zoom. by destruct (m (get s)) as [[a|e] t]. Qed.

Lemma wp_run_ok {A} (m : M S A) Q E s a s' :
  wp m Q E s → m s = (Ok a, s') → Q a s'.
Proof. unfold wp. intros H Hm. by rewrite Hm in H. Qed.
Lemma wp_run_raise {A} (m : M S A) Q E s e s' :
  wp m Q E s → m s = (Raise e, s') → E e s'.
Proof. unfold wp. intros H Hm. by rewrite Hm in H. Qed.
Lemma run_wp {A} (m : M S A) Q E s :
  (∀ a s', m s = (Ok a, s') → Q a s') →
  (∀ e s', m s = (Raise e, s') → E e s') → wp m Q E s.
Proof. unfold wp. destruct (m s) as [[a|e] s'] eqn:?; eauto. Qed.
End WP.

(** Sequencing known runs. *)
Lemma bind_ok {S A B} (m : M S A) (k : A → M S B) s a s' :
  m s = (Ok a, s') → bind m k s = k a s'.
Proof. unfold bind. by intros ->. Qed.
Lemma bind_raise {S A B} (m : M S A) (k : A → M S B) s e s' :
  m s = (Raise e, s') → bind m k s = (Raise e, s').
Proof. unfold bind. by intros ->. Qed.
Lemma ensure_true {S} b e (s : S) : b = true → ensure b e s = (Ok tt, s).
Proof. by intros ->. Qed.
Lemma ensure_false {S} b e (s : S) : b = false → ensure b e s = (Raise e, s).
Proof. by intros ->. Qed.
Lemma zoom_ok {S T A} (get : S → T) (set : T → S → S) (m : M T A) s a t :
  m (get s) = (Ok a, t) → zoom get set m s = (Ok a, set t s).
Proof. unfold zoom. by intros ->. Qed.
Lemma zoom_raise {S T A} (get : S → T) (set : T → S → S) (m : M T A) s e t :
  m (get s) = (Raise e, t) → zoom get set m s = (Raise e, set t s).
Proof. unfold zoom. by intros ->. Qed.
Lemma mfor_cons {S A} x (l : list A) (f : A → M S unit) s s' :
  f x s = (Ok tt, s') → mfor (x :: l) f s = mfor l f s'.
Proof. simpl. unfold bind. by intros ->. Qed.
Lemma gets_run {S A} (f : S → A) s : gets f s = (Ok (f s), s).
Proof. done. Qed.
Lemma modify_run {S} (f : S → S) s : modify f s = (Ok tt, f s).
Proof. done. Qed.

(** Run the first statement of a goal [bind m k s = ...]. *)
Ltac run_step :=
  first
    [ erewrite bind_ok by (apply gets_run)
    | erewrite bind_ok by (apply modify_run)
    | erewrite bind_ok by eassumption
    | erewrite bind_ok by (apply zoom_ok; eassumption)
    | erewrite bind_ok by (apply ensure_true; first [eassumption|lia])
    | erewrite bind_raise by (apply ensure_false; first [eassumption|lia]) ];
  cbn beta.

(** One symbolic-execution step on a [wp] goal. *)
Ltac wp_step :=
  lazymatch goal with
  | |- wp (bind _ _) _ _ _ => apply wp_bind
  | |- wp (ret _) _ _ _ => apply wp_ret
  | |- wp (raise _) _ _ _ => apply wp_raise
  | |- wp (gets _) _ _ _ => apply wp_gets
  | |- wp (modify _) _ _ _ => apply wp_modify
  | |- wp (lift _) _ _ _ => apply wp_lift
  | |- wp (catch _ _) _ _ _ => apply wp_catch
  | |- wp (ensure _ _) _ _ _ => apply wp_ensure; intros ?
  | |- wp (zoom _ _ _) _ _ _ => apply wp_zoom
  | |- wp (if ?b then _ else _) _ _ _ => destruct b eqn:?
  end; cbn beta iota.
Ltac wp_steps := repeat wp_step.

(** *** Invariants of a method

    [stable I m]: whatever the outcome of [m], it preserves [I]. *)
Definition stable {S A} (I : S → Prop) (m : M S A) : Prop := ∀ s, I s → I (m s).2.

Section Stable.
Context {S : Type} (I : S → Prop).

Lemma stable_ret {A} (a : A) : stable I (ret a).
Proof. by intros s. Qed.
Lemma stable_raise {A} e : stable I (@raise S A e).
Proof. by intros s. Qed.
Lemma stable_gets {A} (f : S → A) : stable I (gets f).
Proof. by intros s. Qed.
Lemma stable_lift {A} (r : result A) : stable I (lift r).
Proof. by intros s. Qed.
Lemma stable_ensure b e : stable I (ensure b e).
Proof. by destruct b; intros s. Qed.
Lemma stable_modify f : (∀ s, I s → I (f s)) → stable I (modify f).
Proof. intros H s Hs. by apply H. Qed.
Lemma stable_bind {A B} (m : M S A) (k : A → M S B) :
  stable I m → (∀ a, stable I (k a)) → stable I (bind m k).
Proof.
  intros Hm Hk s Hs. unfold bind. specialize (Hm s Hs). destruct (m s) as [[a|e] s']; [by apply Hk|done].
Qed.
Lemma stable_catch {A} (m : M S A) h :
  stable I m → (∀ e, stable I (h e)) → stable I (catch m h).
Proof.
  intros Hm Hh s Hs. unfold catch. specialize (Hm s Hs). destruct (m s) as [[a|e] s']; [done|by apply Hh].
Qed.
Lemma stable_mfor {A} (l : list A) f : (∀ x, x ∈ l → stable I (f x)) → stable I (mfor l f).
Proof.
  induction l as [|x l IH]; intros Hf; [apply stable_ret|].
  apply stable_bind; [apply Hf; left|intros _; apply IH; intros y Hy; apply Hf; by right].
Qed.
Lemma stable_mmap {A B} (f : A → M S B) (l : list A) :
  (∀ x, stable I (f x)) → stable I (mmap f l).
Proof.
  intros Hf. induction l as [|x l IH]; [apply stable_ret|].
  apply stable_bind; [done|intros y]. apply stable_bind; [done|intros ys; apply stable_ret].
Qed.
Lemma stable_zoom {T A} (get : S → T) (set : T → S → S) (m : M T A) (J : S → T → Prop) :
  (∀ s, I s → J s (get s)) → (∀ s, stable (J s) m) → (∀ s t, I s → J s t → I (set t s)) →
  stable I (zoom get set m).
Proof.
  intros H1 Hm H2 s Hs. unfold zoom. specialize (Hm s (get s) (H1 s Hs)).
  destruct (m (get s)) as [r t]. by apply H2.
Qed.
(** A method of a sub-object the invariant does not look at. *)
Lemma stable_zoom_frame {T A} (get : S → T) (set : T → S → S) (m : M T A) :
  (∀ s t, I s → I (set t s)) → stable I (zoom get set m).
Proof. intros H s Hs. unfold zoom. destruct (m (get s)) as [r t]. by apply H. Qed.
End Stable.

Create HintDb stable discriminated.
#[export] Hint Resolve stable_ret stable_raise stable_gets stable_lift stable_ensure : stable.

(** Structural steps of a [stable] goal; [side] closes what updates leave. *)
Ltac stable_step side :=
  lazymatch goal with
  | |- stable _ (bind _ _) => apply stable_bind; [|intros ?]
  | |- stable _ (catch _ _) => apply stable_catch; [|intros ?]
  | |- stable _ (mfor _ _) => apply stable_mfor; intros ? ?
  | |- stable _ (mmap _ _) => apply stable_mmap; intros ?
  | |- stable _ (modify _) => apply stable_modify; intros ? ?; side
  | |- stable _ (zoom _ _ _) => apply stable_zoom_frame; intros ? ? ?; side
  | |- stable _ (match ?x with _ => _ end) => destruct x
  | |- stable _ _ => solve [eauto with stable]
  end; cbn beta iota.
