(* ===== verification/PyData.v ===== *)
(** * Python containers

    The containers of the Python source whose ordering or error behaviour the
    modelled code depends on: insertion-ordered dicts ([dict], [OrderedDict]),
    list indexing with Python's negative indices and [IndexError], [range],
    order-preserving de-duplication ([dict.fromkeys]) and the stable ascending
    [torch.argsort].  Dicts that are only read by key are stdpp [gmap]s. *)

From S2P Require Import Prelude.
From stdpp Require Import base gmap sets list strings sorting.
From Stdlib Require Import ZArith Lia.
Open Scope Z_scope.

Create HintDb dict discriminated.

(** ** Insertion-ordered dicts *)
Section Dict.
Context {K V : Type} `{EqDecision K}.
Implicit Types (d : list (K * V)) (k : K) (v : V).

(** [d.get(k)] *)
Fixpoint dget k d : option V :=
  match d with
  | [] => None
  | (k', v) :: d' => if decide (k = k') then Some v else dget k d'
  end.

(** [d[k] = v]: an existing key keeps its position, a new one goes last. *)
Fixpoint dset k v d : list (K * V) :=
  match d with
  | [] => [(k, v)]
  | (k', v') :: d' =>
      if decide (k = k') then (k, v) :: d' else (k', v') :: dset k v d'
  end.

(** [d.pop(k, None)] (the remaining dict). *)
Fixpoint dpop k d : list (K * V) :=
  match d with
  | [] => []
  | (k', v') :: d' => if decide (k = k') then d' else (k', v') :: dpop k d'
  end.

(** [OrderedDict.move_to_end(k)]; raises [KeyError] on an absent key. *)
Definition dmove_to_end k d : result (list (K * V)) :=
  match dget k d with
  | Some v => Ok (dpop k d ++ [(k, v)])
  | None => Raise KeyError
  end.

Definition dkeys d : list K := d.*1.
Definition dvalues d : list V := d.*2.

(** A dict holds each key once. *)
Definition dict_ok d : Prop := NoDup (dkeys d).

Lemma dget_dset_eq k v d : dget k (dset k v d) = Some v.
Proof. induction d as [|[k' v'] d IH]; simpl; repeat (case_decide; simpl); done. Qed.

Lemma dget_dset_ne k k' v d : k ≠ k' → dget k' (dset k v d) = dget k' d.
Proof.
  intros Hne. induction d as [|[k'' v''] d IH]; simpl.
  - by rewrite decide_False.
  - repeat (case_decide; simplify_eq/=); done.
Qed.

Lemma dget_dset k k' v d :
  dget k' (dset k v d) = if decide (k = k') then Some v else dget k' d.
Proof. case_decide; subst; [apply dget_dset_eq|by apply dget_dset_ne]. Qed.

Lemma dget_None k d : dget k d = None ↔ k ∉ dkeys d.
Proof.
  induction d as [|[k' v'] d IH]; simpl; [set_solver|].
  case_decide; subst; rewrite ?elem_of_cons; naive_solver.
Qed.

Lemma dget_Some_key k v d : dget k d = Some v → k ∈ dkeys d.
Proof. intros H. destruct (decide (k ∈ dkeys d)) as [|Hn]; [done|].
  apply dget_None in Hn. congruence. Qed.

Lemma dget_is_Some k d : is_Some (dget k d) ↔ k ∈ dkeys d.
Proof.
  split; [intros [v ?]; by eapply dget_Some_key|].
  intros Hin. destruct (dget k d) eqn:E; [done|]. by apply dget_None in E.
Qed.

Lemma dget_elem_of k v d : dict_ok d → (k, v) ∈ d ↔ dget k d = Some v.
Proof.
  unfold dict_ok, dkeys. induction d as [|[k' v'] d IH]; csimpl; [set_solver|].
  rewrite NoDup_cons, elem_of_cons. intros [Hk' Hd]. case_decide; subst.
  - split; [intros [?|Hin]|]; [congruence| |naive_solver].
    destruct Hk'. apply list_elem_of_fmap. by exists (k', v).
  - rewrite <-IH by done. naive_solver.
Qed.

Lemma dget_elem_of_1 k v d : dget k d = Some v → (k, v) ∈ d.
Proof.
  induction d as [|[k' v'] d IH]; simpl; [done|].
  case_decide; intros; simplify_eq; set_solver.
Qed.

Lemma dkeys_dset k v d :
  dkeys (dset k v d) = if decide (k ∈ dkeys d) then dkeys d else dkeys d ++ [k].
Proof.
  unfold dkeys. induction d as [|[k' v'] d IH]; csimpl; [done|].
  destruct (decide (k = k')) as [->|Hne]; csimpl.
  - rewrite decide_True by set_solver. done.
  - rewrite IH. destruct (decide (k ∈ d.*1)).
    + by rewrite decide_True by set_solver.
    + by rewrite decide_False by set_solver.
Qed.

Lemma dict_ok_dset k v d : dict_ok d → dict_ok (dset k v d).
Proof.
  unfold dict_ok. rewrite dkeys_dset. case_decide; [done|].
  intros. apply NoDup_app. split_and!; [done|set_solver|apply NoDup_singleton].
Qed.

Lemma dpop_sublist k d : dpop k d `sublist_of` d.
Proof.
  induction d as [|[k' v'] d IH]; simpl; [done|].
  case_decide; [by apply sublist_cons|by apply sublist_skip].
Qed.

Lemma dkeys_dpop_sublist k d : dkeys (dpop k d) `sublist_of` dkeys d.
Proof.
  unfold dkeys. induction d as [|[k' v'] d IH]; csimpl; [done|].
  case_decide; csimpl; [by apply sublist_cons|by apply sublist_skip].
Qed.

Lemma dict_ok_dpop k d : dict_ok d → dict_ok (dpop k d).
Proof. intros Hd. eapply sublist_NoDup; [done|apply dkeys_dpop_sublist]. Qed.

Lemma dget_dpop_ne k k' d : k ≠ k' → dget k' (dpop k d) = dget k' d.
Proof.
  intros Hne. induction d as [|[k'' v''] d IH]; simpl; [done|].
  repeat (case_decide; simplify_eq/=); done.
Qed.

Lemma dget_dpop_eq k d : dict_ok d → dget k (dpop k d) = None.
Proof.
  unfold dict_ok, dkeys. induction d as [|[k' v'] d IH]; csimpl; [done|].
  rewrite NoDup_cons. intros [Hk Hd]. case_decide; subst; simpl.
  - by apply dget_None.
  - rewrite decide_False by done. by apply IH.
Qed.

Lemma dget_dpop k k' d : dict_ok d →
  dget k' (dpop k d) = if decide (k = k') then None else dget k' d.
Proof.
  intros Hd. case_decide; subst; [by apply dget_dpop_eq|by apply dget_dpop_ne].
Qed.

Lemma dpop_absent k d : dget k d = None → dpop k d = d.
Proof.
  induction d as [|[k' v'] d IH]; simpl; [done|]. case_decide; [done|].
  intros. by rewrite IH.
Qed.

(** A present key splits the dict at its entry. *)
Lemma dget_split k v d : dget k d = Some v →
  ∃ d1 d2, d = d1 ++ (k, v) :: d2 ∧ dpop k d = d1 ++ d2 ∧
           (∀ w, dset k w d = d1 ++ (k, w) :: d2) ∧ k ∉ dkeys d1.
Proof.
  induction d as [|[k' v'] d IH]; simpl; [done|]. case_decide; intros; simplify_eq.
  - exists [], d. set_solver.
  - destruct IH as (d1 & d2 & -> & Hp & Hs & Hk); [done|].
    exists ((k', v') :: d1), d2. rewrite Hp. split_and!; try done.
    + intros w. by rewrite Hs.
    + unfold dkeys in *. csimpl. set_solver.
Qed.

Lemma dset_absent k v d : dget k d = None → dset k v d = d ++ [(k, v)].
Proof.
  induction d as [|[k' v'] d IH]; simpl; [done|]. case_decide; [done|].
  intros. by rewrite IH.
Qed.

Lemma dpop_Permutation k v d : dget k d = Some v → d ≡ₚ (k, v) :: dpop k d.
Proof.
  intros (d1 & d2 & -> & -> & _)%dget_split. by rewrite Permutation_middle.
Qed.

Lemma dmove_to_end_Permutation k d d' :
  dmove_to_end k d = Ok d' → d' ≡ₚ d.
Proof.
  unfold dmove_to_end. destruct (dget k d) as [v|] eqn:E; [|done].
  intros. simplify_eq. etrans; [|symmetry; by apply dpop_Permutation].
  by rewrite Permutation_app_comm.
Qed.

Lemma dict_ok_perm d d' : d ≡ₚ d' → dict_ok d → dict_ok d'.
Proof. unfold dict_ok, dkeys. by intros ->. Qed.

Lemma dget_perm d d' k : d ≡ₚ d' → dict_ok d → dget k d = dget k d'.
Proof.
  intros Hp Hd. pose proof (dict_ok_perm _ _ Hp Hd) as Hd'.
  apply option_eq. intros v. rewrite <-!dget_elem_of by done. by rewrite Hp.
Qed.

(** *** Counting entries *)
Fixpoint dcount (P : V → bool) d : Z :=
  match d with
  | [] => 0
  | (_, v) :: d' => (if P v then 1 else 0) + dcount P d'
  end.

Definition ocount (P : V → bool) (o : option V) : Z :=
  match o with Some v => if P v then 1 else 0 | None => 0 end.

Lemma dcount_app P d d' : dcount P (d ++ d') = dcount P d + dcount P d'.
Proof. induction d as [|[k v] d IH]; simpl; [done|]. rewrite IH. lia. Qed.

Lemma dcount_dset P k v d :
  dcount P (dset k v d) = dcount P d - ocount P (dget k d) + (if P v then 1 else 0).
Proof.
  destruct (dget k d) as [w|] eqn:E.
  - apply dget_split in E as (d1 & d2 & -> & _ & -> & _).
    rewrite !dcount_app. simpl. lia.
  - rewrite dset_absent, dcount_app by done. simpl. lia.
Qed.

Lemma dcount_dpop P k d : dcount P (dpop k d) = dcount P d - ocount P (dget k d).
Proof.
  destruct (dget k d) as [w|] eqn:E.
  - apply dget_split in E as (d1 & d2 & -> & -> & _).
    rewrite !dcount_app. simpl. lia.
  - rewrite dpop_absent by done. simpl. lia.
Qed.

Lemma dcount_nonneg P d : 0 ≤ dcount P d.
Proof. induction d as [|[k v] d IH]; simpl; [done|]. case_match; lia. Qed.

Lemma dcount_zero P d :
  dcount P d = 0 ↔ ∀ k v, (k, v) ∈ d → P v = false.
Proof.
  induction d as [|[k v] d IH]; simpl; [set_solver|].
  pose proof (dcount_nonneg P d). split.
  - intros H0 k' v' [[= -> ->]|Hin]%elem_of_cons; [destruct (P v); [lia|done]|].
    eapply IH; [|done]. destruct (P v); lia.
  - intros Hall. rewrite (Hall k v) by set_solver.
    rewrite (proj2 IH); [done|]. intros k' v' Hin. apply (Hall k' v'). set_solver.
Qed.
End Dict.

#[export] Hint Resolve dict_ok_dset dict_ok_dpop : dict.
#[export] Hint Rewrite @dget_dset_eq : dict.

(** ** Lists *)

Definition zlen {A} (l : list A) : Z := Z.of_nat (length l).

(** [l[i]]: negative indices count from the end, out of range raises. *)
Definition py_index {A} (l : list A) (i : Z) : result A :=
  let j := if i <? 0 then i + zlen l else i in
  if j <? 0 then Raise IndexError
  else match l !! Z.to_nat j with Some a => Ok a | None => Raise IndexError end.

(** [l[i] = x] *)
Definition py_set_index {A} (l : list A) (i : Z) (x : A) : result (list A) :=
  let j := if i <? 0 then i + zlen l else i in
  if (j <? 0) || (zlen l <=? j) then Raise IndexError
  else Ok (<[Z.to_nat j := x]> l).

Lemma py_set_index_Ok {A} (l : list A) i x l' :
  py_set_index l i x = Ok l' → ∃ j, (j < length l)%nat ∧ l' = <[j := x]> l.
Proof.
  unfold py_set_index, zlen. set (j := if i <? 0 then _ else _).
  destruct ((j <? 0) || _) eqn:E; [done|]. intros [= <-]. apply orb_false_iff in E as [? ?].
  exists (Z.to_nat j). split; [lia|done].
Qed.

(** [l[:n]] for an arbitrary Python int [n]. *)
Definition py_take {A} (l : list A) (n : Z) : list A :=
  let n' := if n <? 0 then Z.max 0 (n + zlen l) else n in
  take (Z.to_nat n') l.

(** [l.pop()]: the last element and the rest. *)
Definition py_pop {A} (l : list A) : option (A * list A) :=
  match rev l with
  | [] => None
  | x :: r => Some (x, rev r)
  end.

(** [list(range(a, b))] *)
Definition zrange (a b : Z) : list Z := (λ i, a + Z.of_nat i) <$> seq 0 (Z.to_nat (b - a)).

(** [list(range(n - 1, -1, -1))] *)
Definition zrange_down (n : Z) : list Z := rev (zrange 0 n).

(** [list(dict.fromkeys(l))]: first occurrences, in order. *)
Fixpoint dedup_from {A} `{EqDecision A} (seen l : list A) : list A :=
  match l with
  | [] => []
  | x :: l' =>
      if decide (x ∈ seen) then dedup_from seen l'
      else x :: dedup_from (x :: seen) l'
  end.
Definition dedup {A} `{EqDecision A} (l : list A) : list A := dedup_from [] l.

Section ListFacts.
Context {A : Type}.
Implicit Types l : list A.

Lemma py_pop_Some l x r : py_pop l = Some (x, r) ↔ l = r ++ [x].
Proof.
  unfold py_pop. split.
  - destruct (rev l) as [|y r'] eqn:E; [done|]. intros; simplify_eq.
    by rewrite <-(rev_involutive l), E.
  - intros ->. rewrite rev_app_distr. simpl. by rewrite rev_involutive.
Qed.

Lemma py_pop_None l : py_pop l = None ↔ l = [].
Proof.
  unfold py_pop. split; [|by intros ->].
  destruct (rev l) eqn:E; [|done]. intros _.
  by rewrite <-(rev_involutive l), E.
Qed.

Lemma py_index_Ok l i x :
  0 ≤ i → py_index l i = Ok x ↔ l !! Z.to_nat i = Some x.
Proof.
  intros Hi. unfold py_index. destruct (i <? 0) eqn:E; [lia|].
  rewrite E. destruct (l !! Z.to_nat i); naive_solver.
Qed.

Lemma py_index_elem l i x : py_index l i = Ok x → x ∈ l.
Proof.
  unfold py_index. case_match; [done|]. destruct (l !! _) as [y|] eqn:E; [|done].
  intros [= <-]. by eapply list_elem_of_lookup_2.
Qed.

Lemma zlen_app l l' : zlen (l ++ l') = zlen l + zlen l'.
Proof. unfold zlen. rewrite length_app. lia. Qed.
Lemma zlen_cons x l : zlen (x :: l) = 1 + zlen l.
Proof. unfold zlen. simpl. lia. Qed.
Lemma zlen_nonneg l : 0 ≤ zlen l.
Proof. unfold zlen. lia. Qed.
Lemma zlen_zero l : zlen l = 0 ↔ l = [].
Proof. unfold zlen. destruct l; simpl; split; try done; lia. Qed.

Lemma py_take_nonneg l n : 0 ≤ n → py_take l n = take (Z.to_nat n) l.
Proof. intros. unfold py_take. destruct (n <? 0) eqn:E; [lia|done]. Qed.
End ListFacts.

Lemma zrange_length a b : zlen (zrange a b) = Z.max 0 (b - a).
Proof. unfold zlen, zrange. rewrite length_fmap, length_seq. lia. Qed.

Lemma elem_of_zrange a b x : x ∈ zrange a b ↔ a ≤ x < b.
Proof.
  unfold zrange. rewrite list_elem_of_fmap. setoid_rewrite elem_of_seq. split.
  - intros (i & -> & Hi). lia.
  - intros Hx. exists (Z.to_nat (x - a)). lia.
Qed.

Lemma NoDup_zrange a b : NoDup (zrange a b).
Proof.
  unfold zrange. apply (NoDup_fmap_2_strong); [|apply NoDup_seq].
  intros x y _ _ ?. lia.
Qed.

Lemma zrange_snoc a b : a ≤ b → zrange a (b + 1) = zrange a b ++ [b].
Proof.
  intros. unfold zrange.
  replace (Z.to_nat (b + 1 - a)) with (S (Z.to_nat (b - a))) by lia.
  rewrite seq_S, fmap_app. simpl. do 2 f_equal. lia.
Qed.

Lemma zrange_cons a b : a < b → zrange a b = a :: zrange (a + 1) b.
Proof.
  intros Hab. unfold zrange. replace (Z.to_nat (b - a)) with (S (Z.to_nat (b - (a + 1)))) by lia.
  cbn [seq fmap list_fmap]. f_equal; [lia|]. rewrite <-fmap_S_seq, <-list_fmap_compose.
  apply list_fmap_ext. intros i x _. cbn. lia.
Qed.

Lemma zrange_lookup a b (i : nat) : Z.of_nat i < b - a → zrange a b !! i = Some (a + Z.of_nat i).
Proof. intros. unfold zrange. rewrite list_lookup_fmap, lookup_seq_lt by lia. done. Qed.

Lemma zrange_empty a b : b ≤ a → zrange a b = [].
Proof. intros. unfold zrange. by replace (Z.to_nat (b - a)) with 0%nat by lia. Qed.

Lemma zrange_sorted a b : StronglySorted Z.lt (zrange a b).
Proof.
  destruct (decide (a ≤ b)) as [Hab|]; [|rewrite zrange_empty by lia; constructor].
  remember (Z.to_nat (b - a)) as k eqn:Hk. revert a Hab Hk. induction k as [|k IH]; intros a Hab Hk.
  - rewrite zrange_empty by lia. constructor.
  - rewrite zrange_cons by lia. constructor; [apply IH; lia|]. apply Forall_forall. intros x Hx%elem_of_zrange. lia.
Qed.

(** Dropping an element by filtering. *)
Lemma filter_id {A} (P : A → Prop) `{∀ x, Decision (P x)} (l : list A) :
  (∀ x, x ∈ l → P x) → filter P l = l.
Proof.
  induction l as [|x l IH]; intros Hl; [done|].
  rewrite filter_cons_True by (apply Hl; set_solver). f_equal. apply IH. set_solver.
Qed.

Lemma filter_iff_in {A} (P Q : A → Prop) `{∀ x, Decision (P x)} `{∀ x, Decision (Q x)} (l : list A) :
  (∀ x, x ∈ l → P x ↔ Q x) → filter P l = filter Q l.
Proof.
  induction l as [|x l IH]; intros Hl; [done|]. rewrite !filter_cons.
  rewrite (decide_ext (P x) (Q x)) by (apply Hl; set_solver).
  rewrite IH by (intros; apply Hl; set_solver). done.
Qed.

Lemma filter_ne_split {A} `{EqDecision A} (b : A) (l1 l2 : list A) :
  NoDup (l1 ++ b :: l2) → filter (λ x, x ≠ b) (l1 ++ b :: l2) = l1 ++ l2.
Proof.
  rewrite NoDup_app, NoDup_cons. intros (_ & Hl1 & Hb & _).
  rewrite filter_app, filter_cons_False by auto.
  rewrite !filter_id; [done|set_solver|set_solver].
Qed.

Section Dedup.
Context {A : Type} `{EqDecision A}.
Implicit Types l seen : list A.

Lemma elem_of_dedup_from seen l x :
  x ∈ dedup_from seen l ↔ x ∈ l ∧ x ∉ seen.
Proof.
  revert seen. induction l as [|y l IH]; intros seen; simpl; [set_solver|].
  case_decide.
  - rewrite IH. set_solver.
  - rewrite elem_of_cons, IH. destruct (decide (x = y)); set_solver.
Qed.

Lemma elem_of_dedup l x : x ∈ dedup l ↔ x ∈ l.
Proof. unfold dedup. rewrite elem_of_dedup_from. set_solver. Qed.

Lemma NoDup_dedup_from seen l : NoDup (dedup_from seen l).
Proof.
  revert seen. induction l as [|y l IH]; intros seen; simpl; [constructor|].
  case_decide; [done|]. constructor; [|done].
  rewrite elem_of_dedup_from. set_solver.
Qed.

Lemma NoDup_dedup l : NoDup (dedup l).
Proof. apply NoDup_dedup_from. Qed.

Lemma dedup_from_id seen l :
  NoDup l → (∀ x, x ∈ l → x ∉ seen) → dedup_from seen l = l.
Proof.
  revert seen. induction l as [|y l IH]; intros seen; simpl; [done|].
  rewrite NoDup_cons. intros [Hy Hl] Hs. rewrite decide_False by set_solver.
  f_equal. apply IH; set_solver.
Qed.

Lemma dedup_id l : NoDup l → dedup l = l.
Proof. intros. apply dedup_from_id; set_solver. Qed.
End Dedup.

Lemma StronglySorted_lookup_lt {A} (R : A → A → Prop) l p q x y :
  StronglySorted R l → l !! p = Some x → l !! q = Some y → (p < q)%nat → R x y.
Proof.
  intros Hl. revert p q. induction Hl as [|z l Hl IH Hz]; intros p q Hp Hq Hpq.
  - by rewrite lookup_nil in Hp.
  - destruct q as [|q]; [lia|]. simpl in Hq. destruct p as [|p]; simplify_eq/=.
    + rewrite Forall_forall in Hz. apply Hz. by eapply list_elem_of_lookup_2.
    + eapply IH; [done|done|lia].
Qed.

(** ** [torch.argsort(scores, stable=True)] and [torch.argmin] *)
Section Argsort.
Context {A : Type} (leb : A → A → bool).

Definition keyed := (A * nat)%type.

Fixpoint insert_sorted (x : keyed) (l : list keyed) : list keyed :=
  match l with
  | [] => [x]
  | y :: l' => if leb x.1 y.1 then x :: y :: l' else y :: insert_sorted x l'
  end.

Definition sort_keyed (l : list keyed) : list keyed := foldr insert_sorted [] l.

Definition number_from (n : nat) (scores : list A) : list keyed :=
  zip scores (seq n (length scores)).

Definition argsort (scores : list A) : list nat :=
  (sort_keyed (number_from 0 scores)).*2.

(** [torch.argmin]: the first position of a minimal score. *)
Fixpoint argmin_from (best : A) (besti i : nat) (scores : list A) : nat :=
  match scores with
  | [] => besti
  | s :: scores' =>
      if leb best s then argmin_from best besti (S i) scores'
      else argmin_from s i (S i) scores'
  end.
Definition argmin (scores : list A) : option nat :=
  match scores with
  | [] => None
  | s :: scores' => Some (argmin_from s 0 1 scores')
  end.

Lemma insert_sorted_Permutation x l : insert_sorted x l ≡ₚ x :: l.
Proof.
  induction l as [|y l IH]; simpl; [done|]. case_match; [done|].
  rewrite IH. apply Permutation_swap.
Qed.
Lemma sort_keyed_Permutation l : sort_keyed l ≡ₚ l.
Proof.
  induction l as [|x l IH]; simpl; [done|].
  by rewrite insert_sorted_Permutation, IH.
Qed.

Lemma number_from_snd n l : (number_from n l).*2 = seq n (length l).
Proof. unfold number_from. rewrite snd_zip; [done|]. by rewrite length_seq. Qed.
Lemma number_from_length n l : length (number_from n l) = length l.
Proof. unfold number_from. rewrite length_zip_with, length_seq. lia. Qed.
Lemma elem_of_number_from n l a i :
  (a, i) ∈ number_from n l → (n ≤ i)%nat ∧ l !! (i - n)%nat = Some a.
Proof.
  revert n. induction l as [|b l IH]; intros n; simpl; [set_solver|].
  intros [?|Hin]%elem_of_cons; simplify_eq.
  - by rewrite Nat.sub_diag.
  - apply IH in Hin as [Hle Hl]. split; [lia|].
    by replace (i - n)%nat with (S (i - S n)) by lia.
Qed.

Lemma argsort_Permutation scores : argsort scores ≡ₚ seq 0 (length scores).
Proof.
  unfold argsort. rewrite <-(number_from_snd 0 scores).
  by rewrite sort_keyed_Permutation.
Qed.
Lemma argsort_length scores : length (argsort scores) = length scores.
Proof. rewrite argsort_Permutation. apply length_seq. Qed.
Lemma argsort_NoDup scores : NoDup (argsort scores).
Proof. rewrite argsort_Permutation. apply NoDup_seq. Qed.

Context (leb_total : ∀ x y, leb x y = true ∨ leb y x = true).
Context (leb_trans : ∀ x y z, leb x y = true → leb y z = true → leb x z = true).

(** Strictly smaller, or tied and earlier. *)
Definition key_before (x y : keyed) : Prop :=
  leb x.1 y.1 = true ∧ (leb y.1 x.1 = true → (x.2 < y.2)%nat).

Lemma insert_sorted_sorted x l :
  StronglySorted key_before l → Forall (λ y, (x.2 < y.2)%nat) l →
  StronglySorted key_before (insert_sorted x l).
Proof.
  induction 1 as [|y l Hl IH Hy]; simpl; intros Hx; [repeat constructor|].
  apply Forall_cons in Hx as [Hxy Hx]. destruct (leb x.1 y.1) eqn:E.
  - constructor; [by constructor|]. constructor; [by split|].
    rewrite Forall_forall in Hy, Hx |- *. intros z Hz.
    split; [eapply leb_trans; [done|by apply Hy]|by intros; apply Hx].
  - constructor; [by apply IH|].
    rewrite (insert_sorted_Permutation x l). constructor; [|done].
    destruct (leb_total x.1 y.1); [congruence|]. split; [done|congruence].
Qed.

Lemma sort_number_sorted n scores :
  StronglySorted key_before (sort_keyed (number_from n scores)).
Proof.
  revert n. induction scores as [|s scores IH]; intros n; simpl; [constructor|].
  apply insert_sorted_sorted; [apply IH|].
  rewrite (sort_keyed_Permutation _). apply Forall_forall. intros [a i] Hin.
  apply (elem_of_number_from (S n)) in Hin as [? _]. simpl. lia.
Qed.

(** The order [argsort] returns: for two positions, the earlier one has the
    smaller score, or an equal score and the smaller original index. *)
Lemma argsort_ordered scores p q i j a b :
  argsort scores !! p = Some i → argsort scores !! q = Some j → (p < q)%nat →
  scores !! i = Some a → scores !! j = Some b →
  leb a b = true ∧ (leb b a = true → (i < j)%nat).
Proof.
  unfold argsort. rewrite !list_lookup_fmap.
  intros Hp Hq Hpq Ha Hb.
  apply fmap_Some in Hp as ([a' i'] & Ep & ->).
  apply fmap_Some in Hq as ([b' j'] & Eq & ->). simpl in *.
  assert (∀ r c k, sort_keyed (number_from 0 scores) !! r = Some (c, k) →
            scores !! k = Some c) as Hin.
  { intros r c k Hr. apply list_elem_of_lookup_2 in Hr.
    rewrite sort_keyed_Permutation in Hr.
    apply elem_of_number_from in Hr as [_ Hr]. by rewrite Nat.sub_0_r in Hr. }
  apply Hin in Ep as Ea. apply Hin in Eq as Eb. simplify_eq.
  eapply (StronglySorted_lookup_lt key_before _ p q (a, i') (b, j')); try done.
  apply sort_number_sorted.
Qed.

Lemma argmin_from_spec best besti i scores l :
  l = take i l ++ scores → (i ≤ length l)%nat →
  l !! besti = Some best → (besti < i)%nat →
  (∀ k a, (k < i)%nat → l !! k = Some a → leb best a = true) →
  ∃ m, l !! argmin_from best besti i scores = Some m ∧
       ∀ a, a ∈ l → leb m a = true.
Proof.
  revert best besti i. induction scores as [|s scores IH];
    intros best besti i Hl Hi Hb Hlt Hmin; simpl.
  - exists best. split; [done|]. intros a [k Hk]%list_elem_of_lookup.
    eapply Hmin; [|done]. rewrite app_nil_r in Hl.
    apply lookup_lt_Some in Hk. rewrite Hl, length_take in Hk. lia.
  - assert (l !! i = Some s) as Hs.
    { rewrite Hl, lookup_app_r; rewrite length_take; [|lia].
      by replace (i - i `min` length l)%nat with 0%nat by lia. }
    assert (l = take (S i) l ++ scores) as Hl'.
    { rewrite (take_S_r l i s Hs), <-(assoc app). done. }
    pose proof (lookup_lt_Some _ _ _ Hs).
    destruct (leb best s) eqn:E.
    + apply IH; try done; [lia|]. intros k a Hk Hka.
      destruct (decide (k = i)) as [->|]; [by simplify_eq|].
      eapply Hmin; [|done]. lia.
    + apply IH; try done; [lia|]. intros k a Hk Hka.
      destruct (leb_total best s) as [?|Hsb]; [congruence|].
      destruct (decide (k = i)) as [->|].
      * assert (a = s) as -> by congruence. by destruct (leb_total s s).
      * eapply leb_trans; [done|]. eapply Hmin; [|done]. lia.
Qed.

Lemma argmin_spec scores i :
  argmin scores = Some i →
  ∃ m, scores !! i = Some m ∧ ∀ a, a ∈ scores → leb m a = true.
Proof.
  destruct scores as [|s scores]; simpl; [done|]. intros. simplify_eq.
  eapply (argmin_from_spec s 0 1 scores (s :: scores)); simpl; try done; try lia.
  intros [|k] a Hk Ha; [|lia]. injection Ha as <-. by destruct (leb_total s s).
Qed.
End Argsort.
