(* ===== verification/Float.v ===== *)
(** * Python floats and float32 rounding

    A finite binary64 value is an integer multiple of 2^-1074, so it is
    represented here by that integer: [f64 = Z] in units of 2^-1074.  Every
    arithmetic operation is the exact integer operation followed by
    round-to-nearest-even to 53 significant bits ([rnd]); conversion to
    [torch.float32] rounds to 24 bits.  The representation is exact, subnormals
    included; overflow to infinity and NaN do not arise for the values of this
    program (counts, fractions, ratios of norms) and are not represented.
    [score] adds the [-inf] the scorers return for unknown blocks. *)

From S2P Require Import Prelude.
From stdpp Require Import base list.
From Stdlib Require Import ZArith Lia.
Open Scope Z_scope.

(** ** Rounding *)

(** The integer nearest to [z / 2^k], ties to even. *)
Definition rne (k z : Z) : Z :=
  let q := z / 2 ^ k in
  match 2 * (z mod 2 ^ k) ?= 2 ^ k with
  | Lt => q
  | Gt => q + 1
  | Eq => if Z.even q then q else q + 1
  end.

(** Position of the last kept bit of a non-negative [z] given in units of
    2^-extra of the result's unit. *)
Definition last_bit (prec extra z : Z) : Z := Z.max extra (Z.log2 z - (prec - 1)).

Definition rnd_pos (prec extra z : Z) : Z :=
  let k := last_bit prec extra z in rne k z * 2 ^ (k - extra).

Definition rnd (prec extra z : Z) : Z := Z.sgn z * rnd_pos prec extra (Z.abs z).

(** ** binary64 *)
Notation f64 := Z (only parsing).
Definition f64_one : f64 := 2 ^ 1074.
Definition f64_half : f64 := 2 ^ 1073.
Definition f64_of_int (n : Z) : f64 := rnd 53 0 (n * 2 ^ 1074).
(** The double [m * 2^-e], for literals. *)
Definition f64_lit (m e : Z) : f64 := m * 2 ^ (1074 - e).
Definition fadd (a b : f64) : f64 := rnd 53 0 (a + b).
Definition fsub (a b : f64) : f64 := rnd 53 0 (a - b).
Definition fmul (a b : f64) : f64 := rnd 53 1074 (a * b).
(** Division by a positive double: the exact quotient is truncated three bits
    below the unit with a sticky last bit, then rounded. *)
Definition fdiv (a b : f64) : f64 :=
  let n := Z.abs a * 2 ^ 1076 in
  let sticky := if n mod b =? 0 then 0 else 1 in
  Z.sgn a * rnd 53 3 (2 * (n / b) + sticky).
(** [int(x)]: truncation. *)
Definition f64_to_int (a : f64) : Z := Z.quot a (2 ^ 1074).

(** ** float32 *)
Definition to_f32 (a : f64) : f64 := rnd 24 925 a * 2 ^ 925.

(** ** Scores: finite, or the [-inf] of an unknown block *)
Inductive score := NegInf | Fin (x : f64).

#[global] Instance score_eq_dec : EqDecision score.
Proof. solve_decision. Defined.

Definition score_leb (a b : score) : bool :=
  match a, b with
  | NegInf, _ => true
  | Fin _, NegInf => false
  | Fin x, Fin y => x <=? y
  end.

Lemma score_leb_total a b : score_leb a b = true ∨ score_leb b a = true.
Proof. destruct a, b; simpl; auto. rewrite !Z.leb_le. lia. Qed.
Lemma score_leb_trans a b c :
  score_leb a b = true → score_leb b c = true → score_leb a c = true.
Proof. destruct a, b, c; simpl; try done. rewrite !Z.leb_le. lia. Qed.

(** ** Facts about rounding *)

Lemma pow2_pos k : 0 ≤ k → 0 < 2 ^ k.
Proof. intros. apply Z.pow_pos_nonneg; lia. Qed.

Lemma rne_bounds k z : 0 ≤ k → z / 2 ^ k ≤ rne k z ≤ z / 2 ^ k + 1.
Proof. intros. unfold rne. repeat case_match; lia. Qed.

Lemma rne_mono k x y : 0 ≤ k → x ≤ y → rne k x ≤ rne k y.
Proof.
  intros Hk Hxy. pose proof (pow2_pos k Hk) as Hp.
  pose proof (Z.div_le_mono x y _ Hp Hxy).
  destruct (decide (x / 2 ^ k = y / 2 ^ k)) as [Heq|].
  - pose proof (Z.div_mod x (2 ^ k) ltac:(lia)).
    pose proof (Z.div_mod y (2 ^ k) ltac:(lia)).
    unfold rne. rewrite Heq in *.
    destruct (Z.compare_spec (2 * (x mod 2 ^ k)) (2 ^ k)),
      (Z.compare_spec (2 * (y mod 2 ^ k)) (2 ^ k)); try (case_match; lia); lia.
  - pose proof (rne_bounds k x Hk). pose proof (rne_bounds k y Hk). lia.
Qed.

Lemma rne_exact k m : 0 ≤ k → rne k (m * 2 ^ k) = m.
Proof.
  intros Hk. pose proof (pow2_pos k Hk). unfold rne.
  rewrite Z.div_mul, Z_mod_mult by lia.
  destruct (Z.compare_spec (2 * 0) (2 ^ k)); lia.
Qed.

(** Rounding does not cross a value with no bits below the last kept one. *)
Lemma rne_le_grid k x b e :
  0 ≤ k ≤ e → x ≤ b * 2 ^ e → rne k x * 2 ^ k ≤ b * 2 ^ e.
Proof.
  intros Hk Hx. pose proof (pow2_pos k ltac:(lia)).
  replace (2 ^ e) with (2 ^ (e - k) * 2 ^ k) in *
    by (rewrite <-Z.pow_add_r by lia; f_equal; lia).
  rewrite Z.mul_assoc in *. apply Z.mul_le_mono_nonneg_r; [lia|].
  rewrite <-(rne_exact k (b * 2 ^ (e - k))) by lia. apply rne_mono; lia.
Qed.
Lemma rne_ge_grid k x b e :
  0 ≤ k ≤ e → b * 2 ^ e ≤ x → b * 2 ^ e ≤ rne k x * 2 ^ k.
Proof.
  intros Hk Hx. pose proof (pow2_pos k ltac:(lia)).
  replace (2 ^ e) with (2 ^ (e - k) * 2 ^ k) in *
    by (rewrite <-Z.pow_add_r by lia; f_equal; lia).
  rewrite Z.mul_assoc in *. apply Z.mul_le_mono_nonneg_r; [lia|].
  rewrite <-(rne_exact k (b * 2 ^ (e - k))) by lia. apply rne_mono; lia.
Qed.

Section Rnd.
Context (prec extra : Z) (Hprec : 1 ≤ prec) (Hextra : 0 ≤ extra).

Lemma last_bit_ge z : extra ≤ last_bit prec extra z.
Proof. unfold last_bit. lia. Qed.

Lemma last_bit_mono x y : x ≤ y → last_bit prec extra x ≤ last_bit prec extra y.
Proof. intros H%Z.log2_le_mono. unfold last_bit. lia. Qed.

(** [rnd_pos] in the unscaled unit. *)
Lemma rnd_pos_scaled z :
  rnd_pos prec extra z * 2 ^ extra =
  rne (last_bit prec extra z) z * 2 ^ last_bit prec extra z.
Proof.
  pose proof (last_bit_ge z). unfold rnd_pos.
  rewrite <-Z.mul_assoc, <-Z.pow_add_r by lia. do 2 f_equal. lia.
Qed.

Lemma rnd_pos_mono x y :
  0 ≤ x → x ≤ y → rnd_pos prec extra x ≤ rnd_pos prec extra y.
Proof.
  intros Hx Hxy. apply (Z.mul_le_mono_pos_r _ _ (2 ^ extra)); [by apply pow2_pos|].
  rewrite !rnd_pos_scaled.
  pose proof (last_bit_mono x y Hxy). pose proof (last_bit_ge x).
  set (kx := last_bit prec extra x) in *. set (ky := last_bit prec extra y) in *.
  destruct (decide (kx = ky)) as [->|Hk].
  { apply Z.mul_le_mono_nonneg_r; [apply Z.lt_le_incl, pow2_pos; lia|].
    apply rne_mono; lia. }
  assert (ky = Z.log2 y - (prec - 1)) by (unfold kx, ky, last_bit in *; lia).
  assert (Z.log2 x < Z.log2 y) as Hlog by (unfold kx, ky, last_bit in *; lia).
  assert (0 < y) as Hy.
  { destruct (decide (0 < y)); [done|]. replace y with x in Hlog by lia. lia. }
  pose proof (Z.log2_spec y Hy) as [Hlo _].
  apply Z.log2_lt_cancel in Hlog as Hxy'.
  assert (x ≤ 2 ^ Z.log2 y).
  { destruct (decide (0 < x)); [|pose proof (pow2_pos _ (Z.log2_nonneg y)); lia].
    pose proof (Z.log2_spec x ltac:(lia)) as [_ Hhi].
    assert (2 ^ Z.succ (Z.log2 x) ≤ 2 ^ Z.log2 y)
      by (apply Z.pow_le_mono_r; lia). lia. }
  transitivity (1 * 2 ^ Z.log2 y).
  - apply rne_le_grid; lia.
  - apply rne_ge_grid; lia.
Qed.

(** A value with at most [prec] significant bits is kept exactly. *)
Lemma rnd_pos_exact m e :
  0 ≤ m < 2 ^ prec → extra ≤ e →
  rnd_pos prec extra (m * 2 ^ e) = m * 2 ^ (e - extra).
Proof.
  intros Hm He. apply (Z.mul_reg_r _ _ (2 ^ extra));
    [pose proof (pow2_pos extra Hextra); lia|].
  rewrite rnd_pos_scaled, <-Z.mul_assoc, <-Z.pow_add_r by lia.
  replace (e - extra + extra) with e by lia.
  assert (last_bit prec extra (m * 2 ^ e) ≤ e) as Hl.
  { unfold last_bit. destruct (decide (m = 0)) as [->|].
    { simpl. lia. }
    rewrite Z.log2_mul_pow2 by lia.
    assert (Z.log2 m < prec) by (apply Z.log2_lt_pow2; lia). lia. }
  pose proof (last_bit_ge (m * 2 ^ e)).
  apply Z.le_antisymm; [apply rne_le_grid|apply rne_ge_grid]; lia.
Qed.

Lemma rnd_pos_0 : rnd_pos prec extra 0 = 0.
Proof.
  pose proof (last_bit_ge 0). unfold rnd_pos.
  replace (rne (last_bit prec extra 0) 0) with 0; [done|].
  symmetry. apply (rne_exact (last_bit prec extra 0) 0). lia.
Qed.

Lemma rnd_pos_nonneg z : 0 ≤ z → 0 ≤ rnd_pos prec extra z.
Proof.
  intros Hz. pose proof (rnd_pos_mono 0 z ltac:(lia) Hz) as H.
  by rewrite rnd_pos_0 in H.
Qed.

Lemma rnd_nonneg z : 0 ≤ z → rnd prec extra z = rnd_pos prec extra z.
Proof.
  intros Hz. unfold rnd. rewrite Z.abs_eq by done.
  destruct (decide (z = 0)) as [->|].
  - by rewrite rnd_pos_0.
  - rewrite Z.sgn_pos by lia. lia.
Qed.

Lemma rnd_opp z : rnd prec extra (- z) = - rnd prec extra z.
Proof. unfold rnd. rewrite Z.sgn_opp, Z.abs_opp. lia. Qed.

Lemma rnd_mono x y : x ≤ y → rnd prec extra x ≤ rnd prec extra y.
Proof.
  intros Hxy. destruct (decide (0 ≤ x)).
  { rewrite !rnd_nonneg by lia. by apply rnd_pos_mono. }
  replace x with (- - x) in * by lia. rewrite (rnd_opp (- x)), (rnd_nonneg (- x)) by lia.
  pose proof (rnd_pos_nonneg (- x) ltac:(lia)).
  destruct (decide (0 ≤ y)).
  { rewrite rnd_nonneg by lia. pose proof (rnd_pos_nonneg y). lia. }
  replace y with (- - y) in * by lia. rewrite (rnd_opp (- y)), (rnd_nonneg (- y)) by lia.
  pose proof (rnd_pos_mono (- y) (- x)). lia.
Qed.

Lemma rnd_exact m e :
  Z.abs m < 2 ^ prec → extra ≤ e → rnd prec extra (m * 2 ^ e) = m * 2 ^ (e - extra).
Proof.
  intros Hm He. destruct (decide (0 ≤ m)).
  - pose proof (pow2_pos e ltac:(lia)).
    rewrite rnd_nonneg by nia. apply rnd_pos_exact; lia.
  - replace (m * 2 ^ e) with (- ((- m) * 2 ^ e)) by lia.
    pose proof (pow2_pos e ltac:(lia)).
    rewrite rnd_opp, rnd_nonneg, rnd_pos_exact by nia. lia.
Qed.

Lemma rnd_0 : rnd prec extra 0 = 0.
Proof. unfold rnd. simpl. done. Qed.
End Rnd.

(** Scaling the input and the unit together changes nothing. *)
Lemma rne_shift k s x : 0 ≤ k → 0 ≤ s → rne (k + s) (x * 2 ^ s) = rne k x.
Proof.
  intros Hk Hs. pose proof (pow2_pos k Hk). pose proof (pow2_pos s Hs).
  unfold rne. rewrite Z.pow_add_r by lia.
  rewrite Z.div_mul_cancel_r, Z.mul_mod_distr_r by lia.
  replace (2 * (x mod 2 ^ k * 2 ^ s)) with (2 * (x mod 2 ^ k) * 2 ^ s) by lia.
  by rewrite <-(Zmult_compare_compat_r _ _ (2 ^ s)) by lia.
Qed.

Lemma rnd_shift prec extra s x :
  0 ≤ extra → 0 ≤ s → rnd prec (extra + s) (x * 2 ^ s) = rnd prec extra x.
Proof.
  intros He Hs. pose proof (pow2_pos s Hs) as Hp. unfold rnd.
  assert (Z.sgn (x * 2 ^ s) = Z.sgn x) as ->.
  { rewrite Z.sgn_mul, (Z.sgn_pos (2 ^ s)) by lia. lia. }
  rewrite Z.abs_mul, (Z.abs_eq (2 ^ s)) by lia.
  destruct (decide (x = 0)) as [->|Hx]; [done|]. f_equal. unfold rnd_pos.
  assert (last_bit prec (extra + s) (Z.abs x * 2 ^ s) = last_bit prec extra (Z.abs x) + s) as ->.
  { unfold last_bit. rewrite Z.log2_mul_pow2 by lia. lia. }
  rewrite rne_shift by (unfold last_bit; lia). do 2 f_equal. lia.
Qed.

(** A value binary64 can hold. *)
Definition f64_repr (x : f64) : Prop := rnd 53 0 x = x.

Lemma fmul_one_l x : f64_repr x → fmul f64_one x = x.
Proof.
  intros Hx. unfold fmul, f64_one. rewrite Z.mul_comm.
  change 1074 with (0 + 1074) at 1. by rewrite rnd_shift.
Qed.
Lemma fmul_0_l x : fmul 0 x = 0.
Proof. done. Qed.
Lemma fadd_0_r x : f64_repr x → fadd x 0 = x.
Proof. intros Hx. unfold fadd. by rewrite Z.add_0_r. Qed.
Lemma fadd_0_l x : f64_repr x → fadd 0 x = x.
Proof. done. Qed.

(** Integers below 2^24 pass through float64 and float32 unchanged. *)
Lemma f64_of_int_exact n : Z.abs n < 2 ^ 53 → f64_of_int n = n * 2 ^ 1074.
Proof. intros Hn. unfold f64_of_int. rewrite rnd_exact by lia. done. Qed.
Lemma to_f32_int n : Z.abs n < 2 ^ 24 → to_f32 (n * 2 ^ 1074) = n * 2 ^ 1074.
Proof.
  intros Hn. unfold to_f32. rewrite rnd_exact by lia.
  rewrite <-Z.mul_assoc, <-Z.pow_add_r by lia. done.
Qed.
