(* ===== verification/FreeQueue.v ===== *)
(** * FreeKVCacheBlockQueue: the linked list of free blocks

    Models the class of that name in vllm/v1/core/kv_cache_utils.py: the
    [prev_free_block]/[next_free_block] attributes of the block objects, with a
    fake head and a fake tail.  An object is named by its block id; the two fake
    blocks (both have [block_id = -1] in the source, told apart by identity) are
    [HEAD] and [TAIL].  An absent key of [fq_prev]/[fq_next] is an attribute
    that is [None].

    [queue_rep q l] says the pointers of [q] spell the list [l]; the section
    [Refinement] proves that every operation acts on the pointers as the
    corresponding list operation acts on [l]. *)

From S2P Require Import Prelude PyData.
From stdpp Require Import base gmap sets list.
From Stdlib Require Import ZArith Lia.
Open Scope Z_scope.

Definition HEAD : Z := -1.
Definition TAIL : Z := -2.

Record fq := FQ {
  fq_prev : gmap Z Z;          (** [prev_free_block] of every object *)
  fq_next : gmap Z Z;          (** [next_free_block] of every object *)
  num_free_blocks : Z;
}.

Definition assign (n : Z) (o : option Z) (m : gmap Z Z) : gmap Z Z :=
  match o with Some x => <[n:=x]> m | None => delete n m end.
Definition set_prev (n : Z) (o : option Z) (q : fq) : fq :=
  FQ (assign n o (fq_prev q)) (fq_next q) (num_free_blocks q).
Definition set_next (n : Z) (o : option Z) (q : fq) : fq :=
  FQ (fq_prev q) (assign n o (fq_next q)) (num_free_blocks q).
Definition add_num_free (d : Z) (q : fq) : fq :=
  FQ (fq_prev q) (fq_next q) (num_free_blocks q + d).

(** The constructor's loop over consecutive blocks. *)
Fixpoint link_consecutive (before : option Z) (l : list Z) (q : fq) : fq :=
  match l with
  | [] => q
  | b :: l' =>
      let q := match before with Some a => set_prev b (Some a) q | None => q end in
      let q := match l' with c :: _ => set_next b (Some c) q | [] => q end in
      link_consecutive (Some b) l' q
  end.

Definition fq_init (blocks : list Z) : fq :=
  let q := link_consecutive None blocks (FQ ∅ ∅ (zlen blocks)) in
  match blocks, last blocks with
  | b :: _, Some z =>
      let q := set_next HEAD (Some b) q in
      let q := set_prev b (Some HEAD) q in
      let q := set_prev TAIL (Some z) q in
      set_next z (Some TAIL) q
  | _, _ =>
      let q := set_next HEAD (Some TAIL) q in
      set_prev TAIL (Some HEAD) q
  end.

Definition popleft : M fq Z :=
  let! first := gets (λ q, fq_next q !! HEAD) in
  match first with
  | None => (let! n := gets num_free_blocks in
             ensure (n =? 0) AssertionError >> raise ValueError)
  | Some first =>
      if first =? TAIL then
        (let! n := gets num_free_blocks in
         ensure (n =? 0) AssertionError >> raise ValueError)
      else
        let! nx := gets (λ q, fq_next q !! first) in
        match nx with
        | None => raise RuntimeError
        | Some nx =>
            modify (set_next HEAD (Some nx)) >>
            modify (set_prev nx (Some HEAD)) >>
            modify (set_prev first None) >>
            modify (set_next first None) >>
            modify (add_num_free (-1)) >>
            ret first
        end
  end.

(** The loop of [popleft_n]: walks [n] blocks, unlinking each. *)
Fixpoint popleft_loop (n : nat) (curr : option Z) (acc : list Z)
    : M fq (list Z * option Z) :=
  match n with
  | O => ret (acc, curr)
  | S n' =>
      match curr with
      | None => raise AssertionError
      | Some b =>
          let! nx := gets (λ q, fq_next q !! b) in
          modify (set_prev b None) >>
          modify (set_next b None) >>
          popleft_loop n' nx (acc ++ [b])
      end
  end.

Definition popleft_n (n : Z) : M fq (list Z) :=
  if n =? 0 then ret []
  else
    let! num := gets num_free_blocks in
    ensure (n <=? num) AssertionError >>
    modify (add_num_free (- n)) >>
    let! first := gets (λ q, fq_next q !! HEAD) in
    let! r := popleft_loop (Z.to_nat n) first [] in
    match r.2 with
    | Some curr =>
        modify (set_next HEAD (Some curr)) >>
        modify (set_prev curr (Some HEAD))
    | None => ret tt
    end >>
    ret r.1.

Definition remove (b : Z) : M fq unit :=
  let! p := gets (λ q, fq_prev q !! b) in
  let! n := gets (λ q, fq_next q !! b) in
  match p, n with
  | Some p, Some n =>
      modify (set_next p (Some n)) >>
      modify (set_prev n (Some p)) >>
      modify (set_prev b None) >>
      modify (set_next b None) >>
      modify (add_num_free (-1))
  | _, _ => raise RuntimeError
  end.

Definition append (b : Z) : M fq unit :=
  let! last := gets (λ q, fq_prev q !! TAIL) in
  match last with
  | None => raise RuntimeError
  | Some last =>
      modify (set_next last (Some b)) >>
      modify (set_prev b (Some last)) >>
      modify (set_next b (Some TAIL)) >>
      modify (set_prev TAIL (Some b)) >>
      modify (add_num_free 1)
  end.

(** The loop both bulk insertions share: link each block after the previous
    one, returning the last. *)
Fixpoint link_after (prev : Z) (blocks : list Z) : M fq Z :=
  match blocks with
  | [] => ret prev
  | b :: blocks' =>
      modify (set_prev b (Some prev)) >>
      modify (set_next prev (Some b)) >>
      link_after b blocks'
  end.

Definition prepend_n (blocks : list Z) : M fq unit :=
  if bool_decide (blocks = []) then ret tt
  else
    let! first := gets (λ q, fq_next q !! HEAD) in
    match first with
    | None => raise AssertionError
    | Some first =>
        let! prev := link_after HEAD blocks in
        modify (set_next prev (Some first)) >>
        modify (set_prev first (Some prev)) >>
        modify (add_num_free (zlen blocks))
    end.

Definition append_n (blocks : list Z) : M fq unit :=
  if bool_decide (blocks = []) then ret tt
  else
    let! last := gets (λ q, fq_prev q !! TAIL) in
    match last with
    | None => raise AssertionError
    | Some last =>
        let! last := link_after last blocks in
        modify (set_next last (Some TAIL)) >>
        modify (set_prev TAIL (Some last)) >>
        modify (add_num_free (zlen blocks))
    end.

(** The traversal of [get_all_free_blocks]; [fuel] bounds the loop. *)
Fixpoint walk (fuel : nat) (q : fq) (curr : Z) (acc : list Z) : option (list Z) :=
  match fuel with
  | O => None
  | S fuel' =>
      match fq_next q !! curr with
      | None => Some acc
      | Some nx => walk fuel' q nx (acc ++ [curr])
      end
  end.
Definition get_all_free_blocks (fuel : nat) (q : fq) : result (option (list Z)) :=
  match fq_next q !! HEAD with
  | None => Raise RuntimeError
  | Some first => Ok (walk fuel q first [])
  end.

(** ** Chains: successor maps of a path *)
Fixpoint chain (p : list Z) : gmap Z Z :=
  match p with
  | a :: ((b :: _) as p') => <[a:=b]> (chain p')
  | _ => ∅
  end.

Definition path (l : list Z) : list Z := HEAD :: l ++ [TAIL].

(** The pointers of [q] spell the list [l] of real blocks. *)
Definition queue_rep (q : fq) (l : list Z) : Prop :=
  NoDup l ∧ (∀ b, b ∈ l → 0 ≤ b) ∧
  fq_next q = chain (path l) ∧
  fq_prev q = chain (reverse (path l)) ∧
  num_free_blocks q = zlen l.

Section Chain.
Implicit Types (p : list Z) (a b n : Z).

Lemma chain_cons a b p : chain (a :: b :: p) = <[a:=b]> (chain (b :: p)).
Proof. done. Qed.

Lemma chain_nil : chain [] = ∅.
Proof. done. Qed.
Lemma chain_one a : chain [a] = ∅.
Proof. done. Qed.

(** The keys of a chain are all its nodes but the last. *)
Lemma chain_dom p b n : is_Some (chain (p ++ [b]) !! n) ↔ n ∈ p.
Proof.
  induction p as [|a p IH]; csimpl.
  - rewrite lookup_empty. split; [by intros []|set_solver].
  - rewrite elem_of_cons, <-IH. destruct (p ++ [b]) as [|c p'] eqn:E.
    { by destruct p. }
    rewrite lookup_insert. case_decide; subst; naive_solver.
Qed.

Lemma chain_dom_None p b n : chain (p ++ [b]) !! n = None ↔ n ∉ p.
Proof. rewrite eq_None_not_Some, chain_dom. done. Qed.

Lemma chain_cut p b p' :
  NoDup (p ++ b :: p') → chain (p ++ b :: p') = chain (p ++ [b]) ∪ chain (b :: p').
Proof.
  induction p as [|a p IH]; csimpl; [by rewrite (left_id_L ∅ (∪))|].
  rewrite NoDup_cons. intros [Ha Hp]. rewrite IH by done.
  by destruct p as [|c p]; csimpl; rewrite insert_union_l.
Qed.

Lemma chain_snoc p a b : a ∉ p → chain (p ++ [a; b]) = <[a:=b]> (chain (p ++ [a])).
Proof.
  induction p as [|c p IH]; csimpl; [done|]. intros [Hc Hp]%not_elem_of_cons.
  rewrite IH by done. by destruct p as [|d p]; csimpl; rewrite insert_insert_ne.
Qed.

#[local] Arguments chain : simpl never.

(** Deleting a list of keys. *)
Definition delete_all (xs : list Z) (m : gmap Z Z) : gmap Z Z :=
  foldl (λ m x, delete x m) m xs.

Lemma lookup_delete_all xs m n :
  delete_all xs m !! n = if decide (n ∈ xs) then None else m !! n.
Proof.
  revert m. induction xs as [|x xs IH]; intros m; csimpl; [done|].
  rewrite IH. destruct (decide (n ∈ xs)).
  - by rewrite decide_True by set_solver.
  - destruct (decide (n = x)) as [->|].
    + by rewrite lookup_delete_eq, decide_True by set_solver.
    + by rewrite lookup_delete_ne, decide_False by set_solver.
Qed.

Lemma chain_not_in p n : n ∉ p → chain p !! n = None.
Proof.
  destruct p as [|b p _] using rev_ind; [done|].
  intros. apply chain_dom_None. set_solver.
Qed.

Lemma NoDup_splice p a xs q : NoDup (p ++ a :: xs ++ q) → NoDup (p ++ a :: q).
Proof.
  intros Hnd. eapply sublist_NoDup; [exact Hnd|]. apply sublist_app; [done|].
  apply sublist_skip. by apply sublist_inserts_l.
Qed.

(** The lookups of a path with a marked segment, by region. *)
Lemma chain_segment p a xs b p' n :
  NoDup (p ++ a :: xs ++ b :: p') →
  chain (p ++ a :: xs ++ b :: p') !! n =
    if decide (n ∈ a :: xs) then chain (a :: xs ++ [b]) !! n
    else if decide (n ∈ p) then chain (p ++ [a]) !! n else chain (b :: p') !! n.
Proof.
  intros Hnd. rewrite chain_cut by done.
  apply NoDup_app in Hnd as (_ & Hdisj & Hnd).
  pose proof (chain_cut (a :: xs) b p' Hnd) as Hc. csimpl in Hc. rewrite Hc.
  rewrite !lookup_union. case_decide as Hin.
  - assert (n ∉ p) by (intros Hn; apply (Hdisj n Hn); set_solver).
    rewrite (proj2 (chain_dom_None p a n)), (left_id_L None (∪)) by done.
    apply (chain_dom _ b) in Hin as [m Hm]. csimpl in Hm. rewrite Hm.
    by destruct (chain (b :: p') !! n).
  - pose proof (proj2 (chain_dom_None (a :: xs) b n) Hin) as Hn. csimpl in Hn.
    rewrite Hn, (left_id_L None (∪)). case_decide as Hp.
    + apply (chain_dom p a) in Hp as [m ->]. by destruct (chain (b :: p') !! n).
    + by rewrite (proj2 (chain_dom_None p a n)), (left_id_L None (∪)).
Qed.

(** Splicing a segment in between two neighbours. *)
Lemma chain_splice_in p a xs b p' :
  NoDup (p ++ a :: xs ++ b :: p') →
  chain (a :: xs ++ [b]) ∪ chain (p ++ a :: b :: p') = chain (p ++ a :: xs ++ b :: p').
Proof.
  intros Hnd. apply map_eq. intros n. rewrite chain_segment by done.
  rewrite lookup_union. case_decide as Hin.
  - apply (chain_dom _ b) in Hin as [m Hm]. csimpl in Hm. rewrite Hm.
    by destruct (chain (p ++ _) !! n).
  - pose proof (proj2 (chain_dom_None (a :: xs) b n) Hin) as Hn. csimpl in Hn.
    rewrite Hn, (left_id_L None (∪)).
    rewrite (chain_segment p a [] b p') by (by eapply NoDup_splice).
    by rewrite decide_False by set_solver.
Qed.

(** Splicing a segment out. *)
Lemma chain_splice_out p a xs b p' :
  NoDup (p ++ a :: xs ++ b :: p') →
  <[a:=b]> (delete_all xs (chain (p ++ a :: xs ++ b :: p'))) = chain (p ++ a :: b :: p').
Proof.
  intros Hnd. apply map_eq. intros n.
  rewrite (chain_segment p a [] b p') by (by eapply NoDup_splice).
  rewrite lookup_insert, lookup_delete_all, chain_segment by done.
  destruct (decide (a = n)) as [->|Hna].
  { rewrite decide_True by set_solver. csimpl. by rewrite chain_cons, lookup_insert_eq. }
  rewrite (decide_False (P := n ∈ [a])) by set_solver.
  destruct (decide (n ∈ xs)) as [Hin|Hin].
  - apply NoDup_app in Hnd as (_ & Hdisj & Hnd).
    rewrite decide_False by (intros Hn; apply (Hdisj n Hn); set_solver).
    symmetry. apply chain_not_in. rewrite NoDup_cons, NoDup_app in Hnd.
    intros Hn. naive_solver.
  - by rewrite decide_False by set_solver.
Qed.
End Chain.

#[global] Arguments chain : simpl never.

(** ** Splitting a path around a segment *)
Section Split.
Implicit Types (l xs : list Z).

(** [around l1 l2 p a b p']: the node [a] before and the node [b] after the
    segment that sits between [l1] and [l2]. *)
Definition around (l1 l2 p : list Z) (a b : Z) (p' : list Z) : Prop :=
  HEAD :: l1 = p ++ [a] ∧ l2 ++ [TAIL] = b :: p'.

Lemma around_exists l1 l2 : ∃ p a b p', around l1 l2 p a b p'.
Proof.
  destruct (exists_last (l := HEAD :: l1)) as (p & a & Ha); [done|].
  destruct (l2 ++ [TAIL]) as [|b p'] eqn:E; [by destruct l2|].
  by exists p, a, b, p'.
Qed.

Lemma around_path l1 xs l2 p a b p' : around l1 l2 p a b p' →
  path (l1 ++ xs ++ l2) = p ++ a :: xs ++ b :: p'.
Proof.
  intros [H1 H2]. unfold path. rewrite <-!(assoc app), H2.
  rewrite app_comm_cons, H1, <-(assoc app). done.
Qed.

Lemma around_reverse l1 xs l2 p a b p' : around l1 l2 p a b p' →
  reverse (path (l1 ++ xs ++ l2)) = reverse p' ++ b :: reverse xs ++ a :: reverse p.
Proof.
  intros Har. rewrite (around_path _ _ _ _ _ _ _ Har).
  rewrite reverse_app, reverse_cons, reverse_app, reverse_cons.
  by rewrite <-!(assoc app).
Qed.

Lemma around_before l1 l2 p a b p' : around l1 l2 p a b p' →
  a = default HEAD (last l1).
Proof.
  intros [H1 _]. destruct l1 as [|z l1 _] using rev_ind; simpl.
  - destruct p as [|? [|]]; simplify_eq/=; done.
  - rewrite last_snoc. simpl. rewrite app_comm_cons in H1.
    by apply app_inj_tail in H1 as [_ ->].
Qed.
Lemma around_after l1 l2 p a b p' : around l1 l2 p a b p' →
  b = default TAIL (head l2).
Proof. intros [_ H2]. by destruct l2; simplify_eq/=. Qed.
End Split.

Definition real_ids (l : list Z) : Prop := NoDup l ∧ ∀ b, b ∈ l → 0 ≤ b.

Lemma reverse_path l : reverse (path l) = TAIL :: reverse l ++ [HEAD].
Proof. unfold path. by rewrite reverse_cons, reverse_snoc. Qed.

Lemma NoDup_path l : real_ids l → NoDup (path l).
Proof.
  intros [Hnd Hpos]. unfold path. constructor.
  - intros [Hin|?%list_elem_of_singleton]%elem_of_app; [|done].
    apply Hpos in Hin. unfold HEAD in Hin. lia.
  - apply NoDup_app. split_and!; [done| |apply NoDup_singleton].
    intros x Hx ?%list_elem_of_singleton. subst.
    apply Hpos in Hx. unfold TAIL in Hx. lia.
Qed.

Lemma queue_rep_ids q l : queue_rep q l → real_ids l.
Proof. by intros (? & ? & _). Qed.

Lemma queue_rep_num q l : queue_rep q l → num_free_blocks q = zlen l.
Proof. intros H. apply H. Qed.

Lemma real_ids_sublist l l' : l' `sublist_of` l → real_ids l → real_ids l'.
Proof.
  intros Hs [Hnd Hp]. split; [by eapply sublist_NoDup|].
  intros b Hb. apply Hp. by eapply sublist_subseteq.
Qed.

Lemma NoDup_reverse (l : list Z) : NoDup (reverse l) ↔ NoDup l.
Proof. by rewrite (reverse_Permutation l). Qed.

(** ** The two shapes every operation reduces to *)
Section Splice.
Context (l1 xs l2 : list Z) (p : list Z) (a b : Z) (p' : list Z).
Context (Har : around l1 l2 p a b p').

Lemma rep_splice_out q n :
  queue_rep q (l1 ++ xs ++ l2) → n = num_free_blocks q - zlen xs →
  queue_rep (FQ (<[b:=a]> (delete_all xs (fq_prev q)))
                (<[a:=b]> (delete_all xs (fq_next q))) n) (l1 ++ l2).
Proof.
  intros Hrep ->. pose proof (queue_rep_ids _ _ Hrep) as Hids.
  destruct Hrep as (Hnd & Hpos & Hn & Hp & Hnum).
  assert (real_ids (l1 ++ l2)) as [Hnd' Hpos'].
  { eapply real_ids_sublist; [|done]. apply sublist_app; [done|].
    by apply sublist_inserts_l. }
  split_and!; try done; simpl.
  - rewrite Hn, (around_path _ _ _ _ _ _ _ Har), chain_splice_out.
    + pose proof (around_path l1 [] l2 _ _ _ _ Har) as E. csimpl in E. by rewrite E.
    + rewrite <-(around_path _ _ _ _ _ _ _ Har). by apply NoDup_path.
  - replace (delete_all xs (fq_prev q)) with (delete_all (reverse xs) (fq_prev q)).
    + rewrite Hp, (around_reverse _ _ _ _ _ _ _ Har), chain_splice_out.
      * pose proof (around_reverse l1 [] l2 _ _ _ _ Har) as E. csimpl in E. by rewrite E.
      * rewrite <-(around_reverse _ _ _ _ _ _ _ Har), NoDup_reverse.
        by apply NoDup_path.
    + apply map_eq. intros n. rewrite !lookup_delete_all.
      apply decide_ext, elem_of_reverse.
  - rewrite Hnum, !zlen_app. lia.
Qed.

Lemma rep_splice_in q n :
  queue_rep q (l1 ++ l2) → real_ids (l1 ++ xs ++ l2) →
  n = num_free_blocks q + zlen xs →
  queue_rep (FQ (chain (b :: reverse xs ++ [a]) ∪ fq_prev q)
                (chain (a :: xs ++ [b]) ∪ fq_next q) n) (l1 ++ xs ++ l2).
Proof.
  intros (Hnd & Hpos & Hn & Hp & Hnum) Hids ->.
  destruct (Hids) as [Hnd' Hpos']. split_and!; try done; simpl.
  - pose proof (around_path l1 [] l2 _ _ _ _ Har) as E. csimpl in E.
    rewrite Hn, E, (around_path _ _ _ _ _ _ _ Har). apply chain_splice_in.
    rewrite <-(around_path _ _ _ _ _ _ _ Har). by apply NoDup_path.
  - pose proof (around_reverse l1 [] l2 _ _ _ _ Har) as E. csimpl in E.
    rewrite Hp, E, (around_reverse _ _ _ _ _ _ _ Har). apply chain_splice_in.
    rewrite <-(around_reverse _ _ _ _ _ _ _ Har), NoDup_reverse. by apply NoDup_path.
  - rewrite Hnum, !zlen_app. lia.
Qed.

(** What the pointers around the segment read. *)
Lemma rep_read_after q : queue_rep q (l1 ++ xs ++ l2) →
  fq_next q !! a = Some (default b (head xs)).
Proof.
  intros Hrep. pose proof (NoDup_path _ (queue_rep_ids _ _ Hrep)) as Hnd.
  destruct Hrep as (_ & _ & -> & _).
  rewrite (around_path _ _ _ _ _ _ _ Har) in Hnd |- *.
  rewrite chain_segment by done. rewrite decide_True by set_solver.
  by destruct xs; csimpl; rewrite chain_cons, lookup_insert_eq.
Qed.
Lemma rep_read_before q : queue_rep q (l1 ++ xs ++ l2) →
  fq_prev q !! b = Some (default a (last xs)).
Proof.
  intros Hrep. pose proof (NoDup_path _ (queue_rep_ids _ _ Hrep)) as Hnd.
  destruct Hrep as (_ & _ & _ & -> & _).
  rewrite <-NoDup_reverse in Hnd.
  rewrite (around_reverse _ _ _ _ _ _ _ Har) in Hnd |- *.
  rewrite chain_segment by done. rewrite decide_True by set_solver.
  destruct xs as [|z zs _] using rev_ind; csimpl;
    rewrite ?reverse_snoc, ?last_snoc; csimpl; by rewrite chain_cons, lookup_insert_eq.
Qed.
End Splice.

(** ** Refinement: pointer operations act as list operations *)
Section Refinement.
Implicit Types (q : fq) (l xs : list Z).

Lemma fq_next_read l1 b l2 q :
  queue_rep q (l1 ++ b :: l2) → fq_next q !! b = Some (default TAIL (head l2)).
Proof.
  intros Hrep. destruct (around_exists (l1 ++ [b]) l2) as (p & a & b' & p' & Har).
  pose proof (around_before _ _ _ _ _ _ Har) as ->.
  pose proof (around_after _ _ _ _ _ _ Har) as ->.
  rewrite last_snoc in Har.
  eapply (rep_read_after _ [] _ _ _ _ _ Har q). csimpl. by rewrite <-(assoc app).
Qed.
Lemma fq_prev_read l1 b l2 q :
  queue_rep q (l1 ++ b :: l2) → fq_prev q !! b = Some (default HEAD (last l1)).
Proof.
  intros Hrep. destruct (around_exists l1 (b :: l2)) as (p & a & b' & p' & Har).
  pose proof (around_before _ _ _ _ _ _ Har) as ->.
  pose proof (around_after _ _ _ _ _ _ Har) as ->.
  by eapply (rep_read_before _ [] _ _ _ _ _ Har q).
Qed.
Lemma fq_head_read l q :
  queue_rep q l → fq_next q !! HEAD = Some (default TAIL (head l)).
Proof.
  intros Hrep. destruct (around_exists [] l) as (p & a & b' & p' & Har).
  pose proof (around_before _ _ _ _ _ _ Har) as ->.
  pose proof (around_after _ _ _ _ _ _ Har) as ->.
  by eapply (rep_read_after _ [] _ _ _ _ _ Har q).
Qed.
Lemma fq_tail_read l q :
  queue_rep q l → fq_prev q !! TAIL = Some (default HEAD (last l)).
Proof.
  intros Hrep. destruct (around_exists l []) as (p & a & b' & p' & Har).
  pose proof (around_before _ _ _ _ _ _ Har) as ->.
  pose proof (around_after _ _ _ _ _ _ Har) as ->.
  eapply (rep_read_before _ [] _ _ _ _ _ Har q). by rewrite !app_nil_r.
Qed.

(** A block outside the list has both pointers [None]. *)
Lemma fq_absent_read l b q :
  queue_rep q l → 0 ≤ b → b ∉ l → fq_prev q !! b = None ∧ fq_next q !! b = None.
Proof.
  intros (_ & _ & Hn & Hp & _) Hb Hnot. rewrite Hn, Hp.
  assert (b ∉ path l).
  { unfold path, HEAD, TAIL. rewrite elem_of_cons, elem_of_app, list_elem_of_singleton.
    intros [?|[?|?]]; [lia|done|lia]. }
  split; apply chain_not_in; [by rewrite elem_of_reverse|done].
Qed.

Lemma real_block_not_fake l b : real_ids l → b ∈ l → b ≠ HEAD ∧ b ≠ TAIL.
Proof. intros [_ Hp] Hin. apply Hp in Hin. unfold HEAD, TAIL. lia. Qed.

(** [remove] unlinks exactly that block... *)
Lemma remove_rep l1 b l2 q :
  queue_rep q (l1 ++ b :: l2) →
  ∃ q', remove b q = (Ok tt, q') ∧ queue_rep q' (l1 ++ l2).
Proof.
  intros Hrep. pose proof (fq_next_read _ _ _ _ Hrep) as Hn.
  pose proof (fq_prev_read _ _ _ _ Hrep) as Hp.
  pose proof (queue_rep_ids _ _ Hrep) as Hids.
  destruct (around_exists l1 l2) as (p & a & c & p' & Har).
  pose proof (around_before _ _ _ _ _ _ Har) as Ha.
  pose proof (around_after _ _ _ _ _ _ Har) as Hc.
  assert (NoDup (p ++ a :: [b] ++ c :: p')) as Hnd.
  { rewrite <-(around_path _ [b] _ _ _ _ _ Har). by apply NoDup_path. }
  apply NoDup_app in Hnd as (_ & _ & Hnd). csimpl in Hnd.
  rewrite !NoDup_cons in Hnd.
  eexists. split.
  - unfold remove, bind, gets. rewrite Hn, Hp. reflexivity.
  - rewrite <-Ha, <-Hc.
    pose proof (rep_splice_out l1 [b] l2 _ _ _ _ Har q _ Hrep eq_refl) as Hres.
    unfold set_prev, set_next, add_num_free, assign. simpl in *.
    rewrite !delete_insert_ne by set_solver. exact Hres.
Qed.

(** ... and raises on a block that is not in the list. *)
Lemma remove_absent l b q :
  queue_rep q l → 0 ≤ b → b ∉ l → remove b q = (Raise RuntimeError, q).
Proof.
  intros Hrep Hb Hnot. destruct (fq_absent_read _ _ _ Hrep Hb Hnot) as [Hp Hn].
  unfold remove, bind, gets. by rewrite Hp.
Qed.

Lemma popleft_rep b l q :
  queue_rep q (b :: l) → ∃ q', popleft q = (Ok b, q') ∧ queue_rep q' l.
Proof.
  intros Hrep. pose proof (queue_rep_ids _ _ Hrep) as Hids.
  destruct (real_block_not_fake _ b Hids) as [_ HT]; [set_solver|].
  destruct (remove_rep [] b l q Hrep) as (q' & Hrem & Hrep').
  exists q'. split; [|done]. revert Hrem.
  unfold popleft, remove, bind, gets.
  rewrite (fq_head_read _ _ Hrep), (fq_next_read [] _ _ _ Hrep),
    (fq_prev_read [] _ _ _ Hrep). simpl.
  rewrite (proj2 (Z.eqb_neq b TAIL)) by done. unfold modify, ret. simpl.
  rewrite (fq_next_read [] _ _ _ Hrep). congruence.
Qed.

Lemma popleft_empty q : queue_rep q [] → popleft q = (Raise ValueError, q).
Proof.
  intros Hrep. unfold popleft, bind, gets. rewrite (fq_head_read _ _ Hrep). simpl.
  destruct Hrep as (_ & _ & _ & _ & ->). done.
Qed.

(** The state after the loop of [popleft_n]: the popped blocks have no
    pointers, every other pointer is untouched. *)
Lemma popleft_loop_run xs l acc q :
  NoDup xs →
  (∀ l1 b l2, xs = l1 ++ b :: l2 →
     fq_next q !! b = Some (default TAIL (head (l2 ++ l)))) →
  popleft_loop (length xs) (Some (default TAIL (head (xs ++ l)))) acc q =
    (Ok (acc ++ xs, Some (default TAIL (head l))),
     FQ (delete_all xs (fq_prev q)) (delete_all xs (fq_next q)) (num_free_blocks q)).
Proof.
  revert acc q. induction xs as [|x xs IH]; intros acc q Hnd Hread.
  - rewrite app_nil_r. by destruct q.
  - apply NoDup_cons in Hnd as [Hx Hnd].
    csimpl. unfold bind, gets, modify. rewrite (Hread [] x xs eq_refl).
    rewrite (IH (acc ++ [x])); [by rewrite <-(assoc app)|done|].
    intros l1 b l2 ->. simpl. rewrite lookup_delete_ne by set_solver.
    apply (Hread (x :: l1) b l2). done.
Qed.

Lemma popleft_n_rep xs l q :
  queue_rep q (xs ++ l) →
  ∃ q', popleft_n (zlen xs) q = (Ok xs, q') ∧ queue_rep q' l.
Proof.
  intros Hrep. unfold popleft_n. destruct (zlen xs =? 0) eqn:E.
  { apply Z.eqb_eq, zlen_zero in E as ->. by exists q. }
  destruct (around_exists [] l) as (p & a & c & p' & Har).
  pose proof (around_before _ _ _ _ _ _ Har) as Ha.
  pose proof (around_after _ _ _ _ _ _ Har) as Hc.
  pose proof (rep_splice_out [] xs l _ _ _ _ Har q _ Hrep eq_refl) as Hres.
  rewrite Ha, Hc in Hres. simpl in Hres.
  pose proof Hrep as (Hnd & _ & _ & _ & Hnum).
  eexists. split; [|exact Hres].
  unfold bind at 1, gets at 1. cbn beta iota.
  unfold bind at 1, ensure. rewrite Hnum, (proj2 (Z.leb_le _ _)) by
    (rewrite zlen_app; pose proof (zlen_nonneg l); lia).
  unfold bind, gets, modify, ret. simpl. rewrite (fq_head_read _ _ Hrep).
  unfold zlen at 1. rewrite Nat2Z.id.
  rewrite popleft_loop_run.
  - unfold set_prev, set_next. simpl. f_equal. f_equal. lia.
  - by apply NoDup_app in Hnd as [? _].
  - intros l1 b l2 ->. rewrite <-(assoc app) in Hrep. csimpl in Hrep.
    simpl. by rewrite (fq_next_read l1 b (l2 ++ l)).
Qed.

Lemma popleft_n_short n l q :
  queue_rep q l → zlen l < n → popleft_n n q = (Raise AssertionError, q).
Proof.
  intros (_ & _ & _ & _ & Hnum) Hn. unfold popleft_n.
  pose proof (zlen_nonneg l). rewrite (proj2 (Z.eqb_neq n 0)) by lia.
  unfold bind, gets, ensure. rewrite Hnum. by rewrite (proj2 (Z.leb_gt _ _)) by lia.
Qed.

(** The shared loop of [prepend_n] and [append_n]. *)
Lemma link_after_run a xs q :
  NoDup (a :: xs) →
  link_after a xs q =
    (Ok (default a (last xs)),
     FQ (chain (reverse (a :: xs)) ∪ fq_prev q) (chain (a :: xs) ∪ fq_next q)
        (num_free_blocks q)).
Proof.
  revert a q. induction xs as [|x xs IH]; intros a q Hnd.
  - unfold chain; simpl. rewrite !(left_id_L ∅ (∪)). by destruct q.
  - pose proof Hnd as [Ha Hnd']%NoDup_cons.
    csimpl. unfold bind, modify. rewrite IH by done. simpl. f_equal.
    { f_equal. rewrite last_cons. by destruct (last xs). }
    assert (NoDup (reverse (x :: xs))) as Hr by by rewrite NoDup_reverse.
    rewrite reverse_cons in Hr. f_equal.
    + rewrite !reverse_cons, <-(assoc app). csimpl.
      rewrite chain_snoc by (apply NoDup_app in Hr; set_solver).
      rewrite <-insert_union_l. symmetry. apply insert_union_r. apply chain_dom_None.
      apply NoDup_app in Hr. set_solver.
    + rewrite chain_cons, <-insert_union_l. symmetry. apply insert_union_r.
      apply chain_not_in. set_solver.
Qed.

(** Closing the loop: after linking [xs] behind [a], the last of them is
    joined to [c]; together these are the edges of the spliced segment. *)
Lemma link_close a xs c q :
  NoDup (a :: xs ++ [c]) → xs ≠ [] →
  set_prev c (Some (default a (last xs))) (set_next (default a (last xs)) (Some c)
    (FQ (chain (reverse (a :: xs)) ∪ fq_prev q) (chain (a :: xs) ∪ fq_next q)
        (num_free_blocks q))) =
  FQ (chain (c :: reverse xs ++ [a]) ∪ fq_prev q) (chain (a :: xs ++ [c]) ∪ fq_next q)
     (num_free_blocks q).
Proof.
  intros Hnd Hne. destruct xs as [|z xs _] using rev_ind; [done|].
  rewrite last_snoc. unfold set_prev, set_next. simpl. f_equal.
  - rewrite reverse_cons, reverse_snoc. csimpl.
    by rewrite chain_cons, insert_union_l.
  - rewrite insert_union_l. f_equal. rewrite <-(assoc app).
    rewrite !app_comm_cons. symmetry. apply chain_snoc.
    rewrite <-(assoc app), app_comm_cons in Hnd. csimpl in Hnd.
    apply (NoDup_app (a :: xs)) in Hnd as (_ & Hdis & _).
    intros Hin. apply (Hdis _ Hin). set_solver.
Qed.

Lemma NoDup_around l1 xs l2 p a c p' :
  around l1 l2 p a c p' → real_ids (l1 ++ xs ++ l2) → NoDup (a :: xs ++ [c]).
Proof.
  intros Har Hids. pose proof (NoDup_path _ Hids) as Hnd.
  rewrite (around_path _ _ _ _ _ _ _ Har) in Hnd.
  apply NoDup_app in Hnd as (_ & _ & Hnd). eapply sublist_NoDup; [exact Hnd|].
  apply sublist_skip, sublist_app; [done|]. apply sublist_skip, sublist_nil_l.
Qed.

Lemma append_n_rep xs l q :
  queue_rep q l → real_ids (l ++ xs) →
  ∃ q', append_n xs q = (Ok tt, q') ∧ queue_rep q' (l ++ xs).
Proof.
  intros Hrep Hids. unfold append_n. case_bool_decide as Hnil.
  { subst. exists q. by rewrite app_nil_r. }
  destruct (around_exists l []) as (p & a & c & p' & Har).
  pose proof (around_before _ _ _ _ _ _ Har) as Ha.
  pose proof (around_after _ _ _ _ _ _ Har) as Hc. simpl in Hc. subst c.
  rewrite <-(app_nil_r l) in Hrep.
  replace (l ++ xs) with (l ++ xs ++ []) in * by by rewrite app_nil_r.
  pose proof (NoDup_around _ _ _ _ _ _ _ Har Hids) as Hnd.
  eexists. split; [|by apply (rep_splice_in l xs [] _ _ _ _ Har q)].
  unfold bind, gets. rewrite (fq_tail_read _ _ Hrep), app_nil_r, <-Ha.
  rewrite link_after_run by by apply (NoDup_app (a :: xs) [TAIL]).
  unfold modify. rewrite link_close by done. done.
Qed.

Lemma prepend_n_rep xs l q :
  queue_rep q l → real_ids (xs ++ l) →
  ∃ q', prepend_n xs q = (Ok tt, q') ∧ queue_rep q' (xs ++ l).
Proof.
  intros Hrep Hids. unfold prepend_n. case_bool_decide as Hnil.
  { subst. by exists q. }
  destruct (around_exists [] l) as (p & a & c & p' & Har).
  pose proof (around_before _ _ _ _ _ _ Har) as Ha. simpl in Ha. subst a.
  pose proof (around_after _ _ _ _ _ _ Har) as Hc.
  pose proof (NoDup_around [] _ _ _ _ _ _ Har Hids) as Hnd.
  eexists. split; [|by apply (rep_splice_in [] xs l _ _ _ _ Har q)].
  unfold bind, gets. rewrite (fq_head_read _ _ Hrep), <-Hc.
  rewrite link_after_run by by apply (NoDup_app (HEAD :: xs) [c]).
  unfold modify. rewrite link_close by done. done.
Qed.

(** [append] is [append_n] of one block. *)
Lemma append_rep b l q :
  queue_rep q l → real_ids (l ++ [b]) →
  ∃ q', append b q = (Ok tt, q') ∧ queue_rep q' (l ++ [b]).
Proof.
  intros Hrep Hids. destruct (append_n_rep [b] l q Hrep Hids) as (q' & Hrun & Hrep').
  exists q'. split; [|done]. revert Hrun. unfold append, append_n, bind, gets.
  rewrite bool_decide_eq_false_2 by done.
  rewrite (fq_tail_read _ _ Hrep). unfold modify. intros [= <-]. reflexivity.
Qed.

(** The traversal visits exactly the list, with any fuel above its length. *)
Lemma walk_rep l1 l2 acc fuel q :
  queue_rep q (l1 ++ l2) → (length l2 < fuel)%nat →
  walk fuel q (default TAIL (head l2)) acc = Some (acc ++ l2).
Proof.
  revert l1 acc fuel. induction l2 as [|b l2 IH]; intros l1 acc fuel Hrep Hf;
    (destruct fuel as [|fuel]; [simpl in Hf; lia|]); simpl.
  - destruct (Hrep) as (_ & _ & -> & _). rewrite app_nil_r in *.
    change (path l1) with ((HEAD :: l1) ++ [TAIL]).
    rewrite (proj2 (chain_dom_None (HEAD :: l1) TAIL TAIL)); [by rewrite app_nil_r|].
    intros [?|Hin]%elem_of_cons; [done|].
    destruct Hrep as (_ & Hp & _). apply Hp in Hin. unfold TAIL in Hin. lia.
  - rewrite (fq_next_read _ _ _ _ Hrep). rewrite (IH (l1 ++ [b])).
    + by rewrite <-(assoc app).
    + by rewrite <-(assoc app).
    + simpl in Hf. lia.
Qed.

(** The constructor's loop builds the chain of the blocks in both directions. *)
Lemma link_consecutive_next before l q :
  NoDup l → fq_next (link_consecutive before l q) = chain l ∪ fq_next q.
Proof.
  revert before q. induction l as [|b l IH]; intros before q Hnd; simpl.
  { by rewrite chain_nil, (left_id_L ∅ (∪)). }
  pose proof Hnd as [Hb Hnd']%NoDup_cons. rewrite IH by done.
  destruct l as [|c l], before; simpl; try done.
  all: rewrite chain_cons, <-insert_union_l; symmetry; apply insert_union_r.
  all: by apply chain_not_in.
Qed.
Lemma link_consecutive_prev before l q :
  NoDup (option_list before ++ l) →
  fq_prev (link_consecutive before l q) =
    chain (reverse (option_list before ++ l)) ∪ fq_prev q.
Proof.
  revert before q. induction l as [|b l IH]; intros before q Hnd; simpl.
  { rewrite app_nil_r. by destruct before; simpl option_list;
      rewrite ?reverse_singleton, ?reverse_nil, ?chain_nil, ?chain_one, (left_id_L ∅ (∪)). }
  assert (NoDup (b :: l)) as Hnd' by (by apply NoDup_app in Hnd as (_ & _ & ?)).
  rewrite (IH (Some b)) by done. simpl. destruct before as [a|]; simpl.
  - rewrite !reverse_cons, <-(assoc app). csimpl.
    assert (b ∉ reverse l) by (rewrite elem_of_reverse; by apply NoDup_cons in Hnd' as []).
    rewrite chain_snoc, <-insert_union_l by done.
    replace (fq_prev _) with (<[b:=a]> (fq_prev q)) by by destruct l.
    symmetry. apply insert_union_r. by apply chain_dom_None.
  - by destruct l.
Qed.
Lemma link_consecutive_num before l q :
  num_free_blocks (link_consecutive before l q) = num_free_blocks q.
Proof.
  revert before q. induction l as [|b l IH]; intros before q; simpl; [done|].
  rewrite IH. by destruct l, before.
Qed.

Lemma fq_init_rep l : real_ids l → queue_rep (fq_init l) l.
Proof.
  intros Hids. pose proof Hids as [Hnd Hpos].
  pose proof (link_consecutive_next None l (FQ ∅ ∅ (zlen l)) Hnd) as Hn.
  pose proof (link_consecutive_prev None l (FQ ∅ ∅ (zlen l)) Hnd) as Hp.
  pose proof (link_consecutive_num None l (FQ ∅ ∅ (zlen l))) as Hnum.
  unfold fq_init. destruct (link_consecutive _ _ _) as [pm nm num]. simpl in *.
  rewrite !(right_id_L ∅ (∪)) in *. subst.
  destruct l as [|b l]; [done|]. destruct (last (b :: l)) as [z|] eqn:Hl;
    [|by apply last_None in Hl].
  apply last_Some in Hl as [l' Hl].
  destruct (real_block_not_fake _ z Hids) as [HzH _]; [rewrite Hl; set_solver|].
  assert (z ∉ l') as Hz.
  { intros Hin. rewrite Hl in Hnd. apply NoDup_app in Hnd as (_ & Hd & _).
    apply (Hd _ Hin). set_solver. }
  assert (b ∉ reverse l) as Hb
    by (rewrite elem_of_reverse; by apply NoDup_cons in Hnd as []).
  assert (reverse (b :: l) = z :: reverse l') as Hrev by by rewrite Hl, reverse_snoc.
  split_and!; try done; simpl.
  - unfold path. csimpl. rewrite chain_cons, insert_insert_ne by done. f_equal.
    rewrite app_comm_cons, Hl, <-(assoc app). csimpl. by rewrite chain_snoc.
  - rewrite reverse_path, Hrev. csimpl.
    rewrite chain_cons. f_equal. rewrite app_comm_cons, <-Hrev.
    rewrite !reverse_cons, <-(assoc app). csimpl. by rewrite chain_snoc.
Qed.

Lemma get_all_free_blocks_rep l fuel q :
  queue_rep q l → (length l < fuel)%nat →
  get_all_free_blocks fuel q = Ok (Some l).
Proof.
  intros Hrep Hf. unfold get_all_free_blocks. rewrite (fq_head_read _ _ Hrep).
  by rewrite (walk_rep [] l).
Qed.
End Refinement.

(** ** Refinement to a list

    The calls on the queue, as run on the pointers and as run on the list of
    the queue's blocks. *)
Inductive qop :=
  | OpPopleft
  | OpPopleftN (n : Z)
  | OpRemove (b : Z)
  | OpAppend (b : Z)
  | OpPrependN (bs : list Z)
  | OpAppendN (bs : list Z).

(** Run a call on the pointers; the blocks it returns. *)
Definition run_qop (o : qop) : M fq (list Z) :=
  match o with
  | OpPopleft => let! b := popleft in ret [b]
  | OpPopleftN n => popleft_n n
  | OpRemove b => remove b >> ret []
  | OpAppend b => append b >> ret []
  | OpPrependN bs => prepend_n bs >> ret []
  | OpAppendN bs => append_n bs >> ret []
  end.

(** The same call on the list. *)
Definition spec_qop (o : qop) : M (list Z) (list Z) := λ l,
  match o with
  | OpPopleft =>
      match l with b :: l' => (Ok [b], l') | [] => (Raise ValueError, l) end
  | OpPopleftN n =>
      if zlen l <? n then (Raise AssertionError, l)
      else (Ok (take (Z.to_nat n) l), drop (Z.to_nat n) l)
  | OpRemove b =>
      if decide (b ∈ l) then (Ok [], filter (λ x, x ≠ b) l) else (Raise RuntimeError, l)
  | OpAppend b => (Ok [], l ++ [b])
  | OpPrependN bs => (Ok [], bs ++ l)
  | OpAppendN bs => (Ok [], l ++ bs)
  end.

(** The callers' side: counts and ids are not negative, and blocks are put into
    the queue only while they are not in it. *)
Definition qop_ok (l : list Z) (o : qop) : Prop :=
  match o with
  | OpPopleft => True
  | OpPopleftN n => 0 ≤ n
  | OpRemove b => 0 ≤ b
  | OpAppend b => real_ids (l ++ [b])
  | OpPrependN bs => real_ids (bs ++ l)
  | OpAppendN bs => real_ids (l ++ bs)
  end.

(** A sequence of calls: their results in order.  A call that raises leaves its
    state to the next one, as a caller that catches the exception would. *)
Fixpoint run_calls {S} (run : qop → M S (list Z)) (ops : list qop) (s : S)
    : list (result (list Z)) * S :=
  match ops with
  | [] => ([], s)
  | o :: ops' =>
      let '(r, s1) := run o s in
      let '(rs, s2) := run_calls run ops' s1 in (r :: rs, s2)
  end.

Fixpoint calls_ok (l : list Z) (ops : list qop) : Prop :=
  match ops with
  | [] => True
  | o :: ops' => qop_ok l o ∧ calls_ok (spec_qop o l).2 ops'
  end.

Lemma run_qop_refines o q l :
  queue_rep q l → qop_ok l o →
  ∃ q', run_qop o q = ((spec_qop o l).1, q') ∧ queue_rep q' (spec_qop o l).2.
Proof.
  intros Hq Hok. destruct o as [|n|b|b|bs|bs]; simpl in *.
  - unfold bind. destruct l as [|b l].
    + rewrite (popleft_empty _ Hq). by exists q.
    + destruct (popleft_rep _ _ _ Hq) as (q' & -> & Hq'). by exists q'.
  - destruct (zlen l <? n) eqn:E.
    + exists q. split; [apply (popleft_n_short n l); [done|lia]|done].
    + rewrite <-(take_drop (Z.to_nat n) l) in Hq.
      destruct (popleft_n_rep _ _ _ Hq) as (q' & Hrun & Hq').
      assert (zlen (take (Z.to_nat n) l) = n) as Ht
        by (unfold zlen in *; rewrite length_take; lia).
      rewrite Ht in Hrun. by exists q'.
  - unfold bind. case_decide as Hb.
    + apply list_elem_of_split in Hb as (l1 & l2 & ->).
      destruct (remove_rep _ _ _ _ Hq) as (q' & -> & Hq'). exists q'. split; [done|].
      simpl. rewrite filter_ne_split; [done|]. by apply queue_rep_ids in Hq as [? _].
    + rewrite (remove_absent l) by done. by exists q.
  - unfold bind. destruct (append_rep b l q Hq Hok) as (q' & -> & Hq'). by exists q'.
  - unfold bind. destruct (prepend_n_rep bs l q Hq Hok) as (q' & -> & Hq'). by exists q'.
  - unfold bind. destruct (append_n_rep bs l q Hq Hok) as (q' & -> & Hq'). by exists q'.
Qed.

(** C29: the doubly linked free queue refines a plain list: for every initial
    content and every sequence of admissible calls, the pointer code returns
    (or raises) exactly what the list operations do, and its pointers always
    spell the list. *)
Theorem queue_refines_list l ops :
  real_ids l → calls_ok l ops →
  ∃ q, run_calls run_qop ops (fq_init l) = ((run_calls spec_qop ops l).1, q) ∧
       queue_rep q (run_calls spec_qop ops l).2.
Proof.
  intros Hids. assert (queue_rep (fq_init l) l) as Hq by by apply fq_init_rep.
  clear Hids. revert Hq. generalize (fq_init l) as q. revert l.
  induction ops as [|o ops IH]; intros l q Hq Hok; simpl; [by exists q|].
  destruct Hok as [Ho Hops]. destruct (run_qop_refines o q l Hq Ho) as (q1 & -> & Hq1).
  destruct (spec_qop o l) as [r l1]. simpl in *.
  destruct (IH l1 q1 Hq1 Hops) as (q2 & -> & Hq2). exists q2.
  by destruct (run_calls spec_qop ops l1).
Qed.

Definition demo_ops : list qop :=
  [OpPopleft; OpRemove 2; OpRemove 2; OpPopleftN 5; OpAppendN [0; 7]; OpPrependN [2]; OpPopleftN 3].

Lemma queue_refines_list_witness :
  calls_ok [0; 1; 2; 3] demo_ops ∧
  ∃ q, run_calls run_qop demo_ops (fq_init [0; 1; 2; 3]) =
         ((run_calls spec_qop demo_ops [0; 1; 2; 3]).1, q) ∧
       queue_rep q [0; 7].
Proof.
  assert (∀ l, bool_decide (NoDup l) && forallb (λ b, 0 <=? b) l = true → real_ids l) as Hdec.
  { intros l [H1%bool_decide_eq_true H2]%andb_prop. split; [done|].
    rewrite forallb_forall in H2. intros b Hb%list_elem_of_In. apply H2 in Hb. lia. }
  assert (calls_ok [0; 1; 2; 3] demo_ops) as Hok.
  { repeat split; simpl; try lia; try (apply Hdec; vm_compute; reflexivity). }
  split; [exact Hok|].
  exact (queue_refines_list [0; 1; 2; 3] demo_ops (Hdec [0; 1; 2; 3] eq_refl) Hok).
Defined.
