(* ===== verification/BlockHash.v ===== *)
(** * Block-hash keys and the prefix-cache map

    From vllm/v1/core/kv_cache_utils.py, the packing of a block hash and a KV
    cache group id into one key; from vllm/v1/core/block_pool.py, the class
    [BlockHashToBlockMap], whose values are one block or a dict of blocks.
    Block objects are named by their block id. *)

From S2P Require Import Prelude PyData.
From stdpp Require Import base gmap sets list.
From Stdlib Require Import ZArith Lia.
Open Scope Z_scope.

(** ** Keys *)

(** Python [bytes]: a list of integers in [0, 256). *)
Notation bytes := (list Z).
Definition is_bytes (b : bytes) : Prop := Forall (λ x, 0 ≤ x < 256) b.

(** [n.to_bytes(4, "big", signed=False)] *)
Definition to_bytes4 (n : Z) : result bytes :=
  if (0 <=? n) && (n <? 2 ^ 32) then
    Ok [Z.land (Z.shiftr n 24) 255; Z.land (Z.shiftr n 16) 255;
        Z.land (Z.shiftr n 8) 255; Z.land n 255]
  else Raise OverflowError.

(** [int.from_bytes(b, "big", signed=False)] *)
Definition from_bytes (b : bytes) : Z := foldl (λ acc x, Z.shiftl acc 8 + x) 0 b.

Definition make_block_hash_with_group_id (block_hash : bytes) (group_id : Z)
    : result bytes :=
  result_bind (to_bytes4 group_id) (λ g, Ok (block_hash ++ g)).

(** [key[:-4]] and [key[-4:]] *)
Definition get_block_hash (key : bytes) : bytes := take (length key - 4) key.
Definition get_group_id (key : bytes) : Z := from_bytes (drop (length key - 4) key).

Lemma to_bytes4_length n g : to_bytes4 n = Ok g → length g = 4%nat.
Proof. unfold to_bytes4. case_match; intros; by simplify_eq. Qed.

Lemma land_255 n : Z.land n 255 = n mod 256.
Proof. change 255 with (Z.ones 8). by rewrite Z.land_ones. Qed.

Lemma from_to_bytes4 n g : to_bytes4 n = Ok g → from_bytes g = n.
Proof.
  unfold to_bytes4. destruct (_ && _) eqn:E; [|done]. intros; simplify_eq.
  apply andb_prop in E as [H1%Z.leb_le H2%Z.ltb_lt].
  unfold from_bytes. simpl. rewrite !land_255, !Z.shiftr_div_pow2, !Z.shiftl_mul_pow2 by lia.
  change (2 ^ 24) with (256 * (256 * 256)). change (2 ^ 16) with (256 * 256).
  change (2 ^ 8) with 256. change (2 ^ 32) with (256 * (256 * (256 * 256))) in H2.
  rewrite <-!Z.div_div by lia.
  assert (n / 256 / 256 / 256 / 256 = 0).
  { rewrite !Z.div_div by lia. apply Z.div_small. lia. }
  pose proof (Z.div_mod n 256 ltac:(lia)).
  pose proof (Z.div_mod (n / 256) 256 ltac:(lia)).
  pose proof (Z.div_mod (n / 256 / 256) 256 ltac:(lia)).
  pose proof (Z.div_mod (n / 256 / 256 / 256) 256 ltac:(lia)).
  lia.
Qed.

Lemma make_key_split h n key :
  make_block_hash_with_group_id h n = Ok key →
  get_block_hash key = h ∧ get_group_id key = n.
Proof.
  unfold make_block_hash_with_group_id, result_bind, get_block_hash, get_group_id.
  destruct (to_bytes4 n) as [g|] eqn:E; [|done]. intros; simplify_eq.
  apply to_bytes4_length in E as Hl. rewrite length_app, Hl, Nat.add_sub.
  rewrite take_app_length, drop_app_length. by apply from_to_bytes4 in E.
Qed.

(** ** BlockHashToBlockMap *)

(** [KVCacheBlock | dict[int, KVCacheBlock]]; a dict maps each id to the block
    of that id, so its insertion-ordered list of ids is all of it. *)
Inductive cache_entry :=
  | One (b : Z)
  | Many (ids : list Z).

Definition entry_ids (e : cache_entry) : list Z :=
  match e with One b => [b] | Many ids => ids end.

Notation hash_cache := (gmap (list Z) cache_entry).

(** [ids[b] = block] in a dict keyed by id. *)
Definition add_id (b : Z) (ids : list Z) : list Z :=
  if decide (b ∈ ids) then ids else ids ++ [b].

Definition hc_get_one_block (c : hash_cache) (key : bytes) : option Z :=
  match c !! key with
  | Some (One b) => Some b
  | Some (Many ids) => head ids
  | None => None
  end.

Definition hc_contain (c : hash_cache) (key : bytes) (b : Z) : bool :=
  match c !! key with
  | Some (One b') => b' =? b
  | Some (Many ids) => bool_decide (b ∈ ids)
  | None => false
  end.

Definition hc_insert (c : hash_cache) (key : bytes) (b : Z) : hash_cache :=
  match c !! key with
  | None => <[key := One b]> c
  | Some (One b') => <[key := Many (add_id b [b'])]> c
  | Some (Many ids) => <[key := Many (add_id b ids)]> c
  end.

(** Returns the popped block (if any) and the cache afterwards. *)
Definition hc_pop (c : hash_cache) (key : bytes) (b : Z) : option Z * hash_cache :=
  match c !! key with
  | None => (None, c)
  | Some (One b') => if b' =? b then (Some b', delete key c) else (None, c)
  | Some (Many ids) =>
      let rest := filter (λ x, x ≠ b) ids in
      (if decide (b ∈ ids) then Some b else None,
       if decide (rest = []) then delete key c else <[key := Many rest]> c)
  end.

(** ** The map as a multimap from keys to block ids *)
Definition cached_ids (c : hash_cache) (key : bytes) : list Z :=
  match c !! key with Some e => entry_ids e | None => [] end.

(** No key maps to an empty dict, and a dict holds each id once. *)
Definition cache_ok (c : hash_cache) : Prop :=
  ∀ key e, c !! key = Some e → entry_ids e ≠ [] ∧ NoDup (entry_ids e).

Section CacheFacts.
Implicit Types (c : hash_cache) (key : bytes) (b : Z).

Lemma cached_ids_insert c key b key' :
  cached_ids (hc_insert c key b) key' =
    if decide (key = key') then add_id b (cached_ids c key) else cached_ids c key'.
Proof.
  unfold cached_ids, hc_insert. case_decide; subst.
  - destruct (c !! key') as [[b'|ids]|] eqn:E; rewrite lookup_insert_eq; done.
  - by destruct (c !! key) as [[b'|ids]|] eqn:E; rewrite lookup_insert_ne.
Qed.

Lemma cached_ids_pop c key b key' :
  cached_ids (hc_pop c key b).2 key' =
    if decide (key = key') then filter (λ x, x ≠ b) (cached_ids c key)
    else cached_ids c key'.
Proof.
  unfold cached_ids, hc_pop. destruct (c !! key) as [[b'|ids]|] eqn:E; simpl.
  - rewrite filter_cons, filter_nil.
    destruct (b' =? b) eqn:Eb; simpl; case_decide as Hk; subst.
    + rewrite lookup_delete_eq. rewrite decide_False by (apply Z.eqb_eq in Eb; lia). done.
    + by rewrite lookup_delete_ne.
    + rewrite E. simpl. by rewrite decide_True by (apply Z.eqb_neq in Eb; lia).
    + done.
  - destruct (decide (filter _ ids = [])) as [Hf|Hf]; case_decide as Hk; subst.
    + by rewrite lookup_delete_eq, Hf.
    + by rewrite lookup_delete_ne.
    + by rewrite lookup_insert_eq.
    + by rewrite lookup_insert_ne.
  - case_decide as Hk; subst; [by rewrite E|done].
Qed.

Lemma hc_pop_result c key b :
  (hc_pop c key b).1 = if decide (b ∈ cached_ids c key) then Some b else None.
Proof.
  unfold hc_pop, cached_ids. destruct (c !! key) as [[b'|ids]|] eqn:E; simpl.
  - destruct (b' =? b) eqn:Eb; simpl.
    + apply Z.eqb_eq in Eb as ->. by rewrite decide_True by set_solver.
    + apply Z.eqb_neq in Eb. by rewrite decide_False by set_solver.
  - done.
  - done.
Qed.

Lemma hc_contain_spec c key b :
  hc_contain c key b = bool_decide (b ∈ cached_ids c key).
Proof.
  unfold hc_contain, cached_ids. destruct (c !! key) as [[b'|ids]|]; simpl.
  - apply eq_true_iff_eq. rewrite Z.eqb_eq, bool_decide_eq_true.
    rewrite list_elem_of_singleton. naive_solver.
  - done.
  - done.
Qed.

Lemma hc_get_one_spec c key :
  hc_get_one_block c key = head (cached_ids c key).
Proof. unfold hc_get_one_block, cached_ids. by destruct (c !! key) as [[]|]. Qed.

Lemma elem_of_add_id b b' ids : b' ∈ add_id b ids ↔ b' = b ∨ b' ∈ ids.
Proof. unfold add_id. case_decide; set_solver. Qed.

Lemma cache_ok_insert c key b : cache_ok c → cache_ok (hc_insert c key b).
Proof.
  intros Hc key' e He. destruct (decide (key = key')) as [<-|Hne].
  - assert (entry_ids e = add_id b (cached_ids c key)) as ->.
    { pose proof (cached_ids_insert c key b key) as H.
      unfold cached_ids at 1 in H. rewrite He in H. by rewrite decide_True in H. }
    assert (NoDup (cached_ids c key)).
    { unfold cached_ids. destruct (c !! key) eqn:E; [by eapply Hc|constructor]. }
    unfold add_id. case_decide as Hin.
    + split; [by intros Hn; rewrite Hn in Hin; set_solver|done].
    + split; [by destruct (cached_ids c key)|]. apply NoDup_app.
      split_and!; [done|set_solver|apply NoDup_singleton].
  - apply (Hc key'). unfold hc_insert in He.
    destruct (c !! key) as [[b'|ids]|]; by rewrite lookup_insert_ne in He.
Qed.

Lemma cache_ok_pop c key b : cache_ok c → cache_ok (hc_pop c key b).2.
Proof.
  intros Hc key' e. unfold hc_pop. destruct (c !! key) as [[b'|ids]|] eqn:E; simpl.
  - destruct (b' =? b); simpl; [|by apply Hc].
    intros [_ He]%lookup_delete_Some. by eapply Hc.
  - case_decide as Hf.
    + intros [_ He]%lookup_delete_Some. by eapply Hc.
    + intros [[<- <-]|[_ He]]%lookup_insert_Some; [|by eapply Hc].
      simpl. split; [done|]. apply NoDup_filter. by apply (Hc _ _ E).
  - apply Hc.
Qed.
End CacheFacts.
