(* ===== verification/BlockHasher.v ===== *)
(** * Block hashes of a request

    Models the prefix-chain hashing of vllm/v1/core/kv_cache_utils.py
    ([hash_block_tokens], the extra keys, [get_request_block_hasher],
    [BlockHashListWithBlockSize], [resolve_block_hashes]) and the two places of
    vllm/v1/request.py that extend a request's hashes.  The hash function is a
    parameter; that it is collision free is a named hypothesis of the theorems
    that need it. *)

From S2P Require Import Prelude PyData BlockHash.
From stdpp Require Import base gmap sets list strings sorting.
From Stdlib Require Import ZArith Lia.
Open Scope Z_scope.

(** ** Requests *)

(** [MultiModalFeatureSpec]: its identifier and [mm_position]. *)
Record mm_feature := Feature {
  identifier : string;
  mm_offset : Z;
  mm_length : Z;
}.

Record Request := Req {
  req_id : string;
  all_token_ids : list Z;
  num_prompt_tokens : Z;
  mm_features : list mm_feature;
  (** [lora_request.lora_name], if there is a LoRA request *)
  lora_name : option string;
  cache_salt : option string;
  (** the digest of the prompt embeddings of a token range, if there are
      embeddings; [_prompt_embeds_per_block_hashes] memoises it *)
  embeds_digest : option (Z → Z → bytes);
  block_hashes : list bytes;
}.

Definition num_tokens (r : Request) : Z := zlen (all_token_ids r).

Definition with_hashes (hs : list bytes) (r : Request) : Request :=
  Req (req_id r) (all_token_ids r) (num_prompt_tokens r) (mm_features r) (lora_name r)
    (cache_salt r) (embeds_digest r) hs.
Definition with_tokens (ts : list Z) (r : Request) : Request :=
  Req (req_id r) ts (num_prompt_tokens r) (mm_features r) (lora_name r)
    (cache_salt r) (embeds_digest r) (block_hashes r).

(** ** Extra keys

    The keys of a block are a tuple of Python values: LoRA name and cache salt
    are plain strings, a multi-modal key is a pair, an embedding digest is
    bytes. *)
Inductive extra_key :=
  | KStr (s : string)
  | KMm (id : string) (offset : Z)
  | KBytes (b : bytes).

#[global] Instance extra_key_eq_dec : EqDecision extra_key.
Proof. solve_decision. Defined.
#[global] Instance extra_key_countable : Countable extra_key.
Proof.
  refine (inj_countable'
    (λ k, match k with KStr s => inl (inl s) | KMm i o => inl (inr (i, o)) | KBytes b => inr b end)
    (λ x, match x with inl (inl s) => KStr s | inl (inr (i, o)) => KMm i o | inr b => KBytes b end) _).
  by intros [].
Defined.

(** The loop over the features from the current index on: the keys and how many
    features were passed. *)
Fixpoint mm_loop (feats : list mm_feature) (start_token_idx end_token_idx : Z) : list extra_key * Z :=
  match feats with
  | [] => ([], 0)
  | f :: feats' =>
      if mm_offset f <? end_token_idx then
        if mm_offset f + mm_length f <=? start_token_idx then
          let '(ks, n) := mm_loop feats' start_token_idx end_token_idx in (ks, n + 1)
        else
          let k := KMm (identifier f) (mm_offset f - start_token_idx) in
          if mm_offset f + mm_length f <=? end_token_idx then
            let '(ks, n) := mm_loop feats' start_token_idx end_token_idx in (k :: ks, n + 1)
          else ([k], 0)
      else ([], 0)
  end.

Definition _gen_mm_extra_hash_keys (r : Request) (start_token_idx end_token_idx start_mm_idx : Z)
    : result (list extra_key * Z) :=
  match last (mm_features r) with
  | None => Ok ([], start_mm_idx)
  | Some last_pos =>
      if mm_offset last_pos + mm_length last_pos <=? start_token_idx then Ok ([], start_mm_idx)
      else if (start_mm_idx <? 0) && negb (- start_mm_idx <=? zlen (mm_features r))
      then Raise AssertionError
      else
        let idx := if start_mm_idx <? 0 then zlen (mm_features r) + start_mm_idx else start_mm_idx in
        let '(ks, n) := mm_loop (drop (Z.to_nat idx) (mm_features r)) start_token_idx end_token_idx in
        Ok (ks, idx + n)
  end.

Definition _gen_lora_extra_hash_keys (r : Request) : list extra_key :=
  match lora_name r with Some n => [KStr n] | None => [] end.

Definition _gen_prompt_embeds_extra_hash_keys (r : Request) (start_token_idx end_token_idx : Z)
    : list extra_key :=
  match embeds_digest r with Some d => [KBytes (d start_token_idx end_token_idx)] | None => [] end.

(** [if start_token_idx == 0 and request.cache_salt] *)
Definition cache_salt_keys (r : Request) (start_token_idx : Z) : list extra_key :=
  match cache_salt r with
  | Some s => if (start_token_idx =? 0) && negb (bool_decide (s = ""%string)) then [KStr s] else []
  | None => []
  end.

Definition generate_block_hash_extra_keys (r : Request) (start_token_idx end_token_idx start_mm_idx : Z)
    : result (option (list extra_key) * Z) :=
  result_bind (_gen_mm_extra_hash_keys r start_token_idx end_token_idx start_mm_idx) (λ mm,
    let ks := _gen_lora_extra_hash_keys r ++ mm.1 ++ cache_salt_keys r start_token_idx
              ++ _gen_prompt_embeds_extra_hash_keys r start_token_idx end_token_idx in
    Ok (if bool_decide (ks = []) then None else Some ks, mm.2)).

(** ** Hashing *)
Section Hashing.
(** The hash function on (parent hash, tokens, extra keys), and [NONE_HASH]. *)
Context (hash_function : bytes * list Z * option (list extra_key) → bytes) (NONE_HASH : bytes).

(** [if not parent_block_hash]: no parent, or empty bytes. *)
Definition hash_block_tokens (parent_block_hash : option bytes) (curr_block_token_ids : list Z)
    (extra_keys : option (list extra_key)) : bytes :=
  let parent := match parent_block_hash with Some (x :: h) => x :: h | _ => NONE_HASH end in
  hash_function (parent, curr_block_token_ids, extra_keys).

(** [all_token_ids[a:b]] for [0 <= a <= b]. *)
Definition token_slice (r : Request) (a b : Z) : list Z :=
  take (Z.to_nat (b - a)) (drop (Z.to_nat a) (all_token_ids r)).

(** The [while True] loop.  [None]: out of fuel. *)
Fixpoint hash_loop (fuel : nat) (r : Request) (hash_block_size start_token_idx curr_mm_idx : Z)
    (prev : option bytes) : option (result (list bytes)) :=
  match fuel with
  | O => None
  | S fuel' =>
      let end_token_idx := start_token_idx + hash_block_size in
      if num_tokens r <? end_token_idx then Some (Ok [])
      else
        match generate_block_hash_extra_keys r start_token_idx end_token_idx curr_mm_idx with
        | Raise e => Some (Raise e)
        | Ok (ks, mm) =>
            let h := hash_block_tokens prev (token_slice r start_token_idx end_token_idx) ks in
            option_map (λ x, result_bind x (λ hs, Ok (h :: hs)))
              (hash_loop fuel' r hash_block_size end_token_idx mm (Some h))
        end
  end.

(** One round per token and one more is enough fuel. *)
Definition request_block_hasher (hash_block_size : Z) (r : Request) : option (result (list bytes)) :=
  let start_token_idx := zlen (block_hashes r) * hash_block_size in
  if num_tokens r <? start_token_idx + hash_block_size then Some (Ok [])
  else hash_loop (S (length (all_token_ids r))) r hash_block_size start_token_idx
         (if 0 <? start_token_idx then -1 else 0) (last (block_hashes r)).

(** [Request.update_block_hashes] and [append_output_token_ids]. *)
Definition update_block_hashes (hash_block_size : Z) (r : Request) : option (result Request) :=
  option_map (λ x, result_bind x (λ hs, Ok (with_hashes (block_hashes r ++ hs) r)))
    (request_block_hasher hash_block_size r).

Definition append_output_token_ids (hash_block_size : Z) (token_ids : list Z) (r : Request)
    : option (result Request) :=
  update_block_hashes hash_block_size (with_tokens (all_token_ids r ++ token_ids) r).
End Hashing.

(** ** Coarser views *)

(** [BlockHashList]: the hashes themselves, or a view with a scale factor. *)
Inductive hash_list :=
  | Raw (hs : list bytes)
  | View (hs : list bytes) (scale : Z).

Definition make_view (hs : list bytes) (hash_block_size target_block_size : Z) : result hash_list :=
  if target_block_size mod hash_block_size =? 0
  then Ok (View hs (target_block_size / hash_block_size)) else Raise AssertionError.

Definition hl_len (l : hash_list) : Z :=
  match l with Raw hs => zlen hs | View hs k => zlen hs / k end.

Definition hl_get (l : hash_list) (i : Z) : result bytes :=
  match l with
  | Raw hs => py_index hs i
  | View hs k => py_index hs ((i + 1) * k - 1)
  end.

Definition resolve_block_hashes (l : hash_list) (hash_block_size block_size : Z)
    (supports_fine_grained : bool) (alignment_tokens : option Z) : result hash_list :=
  if block_size =? hash_block_size then Ok l
  else match l with
       | View hs k =>
           if k =? block_size / hash_block_size then Ok l else Raise AssertionError
       | Raw hs =>
           if supports_fine_grained && match alignment_tokens with
                                       | Some a => (a <? block_size) && (block_size mod a =? 0)
                                       | None => false
                                       end
           then Ok l else make_view hs hash_block_size block_size
       end.

(** ** What the keys of a block are *)

Definition mm_end (f : mm_feature) : Z := mm_offset f + mm_length f.

(** The features are sorted and do not overlap, as the code assumes. *)
Definition mm_ok (feats : list mm_feature) : Prop :=
  StronglySorted (λ f g, mm_end f ≤ mm_offset g) feats ∧ Forall (λ f, 0 ≤ mm_length f) feats.

Lemma mm_ok_cons f feats :
  mm_ok (f :: feats) → mm_ok feats ∧ 0 ≤ mm_length f ∧ ∀ g, g ∈ feats → mm_end f ≤ mm_offset g.
Proof.
  intros [Hs Hl]. apply Forall_cons in Hl as [? ?]. inversion Hs as [|? ? ? Hall]; subst.
  split; [by split|]. split; [done|]. by apply Forall_forall.
Qed.

(** The keys of the features that meet the token range. *)
Definition mm_keys (feats : list mm_feature) (s e : Z) : list extra_key :=
  (λ f, KMm (identifier f) (mm_offset f - s)) <$> filter (λ f, mm_offset f < e ∧ s < mm_end f) feats.

Lemma mm_keys_cons f feats s e :
  mm_keys (f :: feats) s e =
  (if decide (mm_offset f < e ∧ s < mm_end f) then [KMm (identifier f) (mm_offset f - s)] else [])
  ++ mm_keys feats s e.
Proof. unfold mm_keys. rewrite filter_cons. by case_decide. Qed.

Lemma mm_keys_none feats s e :
  (∀ f, f ∈ feats → e ≤ mm_offset f ∨ mm_end f ≤ s) → mm_keys feats s e = [].
Proof.
  induction feats as [|f feats IH]; intros Hf; [done|]. rewrite mm_keys_cons, IH by set_solver.
  rewrite decide_False; [done|]. destruct (Hf f); [set_solver|lia|lia].
Qed.

Lemma mm_loop_spec feats s e :
  mm_ok feats → s ≤ e →
  (mm_loop feats s e).1 = mm_keys feats s e ∧ 0 ≤ (mm_loop feats s e).2 ∧
  ∀ f, f ∈ take (Z.to_nat (mm_loop feats s e).2) feats → mm_end f ≤ e.
Proof.
  intros Hok Hse. induction feats as [|f feats IH]; [by split_and!; [|done|set_solver]|].
  apply mm_ok_cons in Hok as (Hok & Hl & Hlt). destruct (IH Hok) as (Hk & Hn & Ht). clear IH.
  rewrite mm_keys_cons. cbn [mm_loop]. fold (mm_end f).
  destruct (mm_loop feats s e) as [ks n]. cbn in Hk, Hn, Ht. subst ks.
  assert (∀ g, g ∈ f :: feats → g ∈ take (Z.to_nat n) feats ∨ g = f ∨ g ∈ feats) by set_solver.
  assert (Z.to_nat (n + 1) = S (Z.to_nat n)) as Hsn by lia.
  unfold mm_end in *.
  destruct (mm_offset f <? e) eqn:E1; [destruct (mm_offset f + mm_length f <=? s) eqn:E2;
    [|destruct (mm_offset f + mm_length f <=? e) eqn:E3]|]; cbn; rewrite ?Hsn.
  - rewrite decide_False by lia. split_and!; [done|lia|].
    intros g [->|Hg]%elem_of_cons; [lia|by apply Ht].
  - rewrite decide_True by lia. split_and!; [done|lia|].
    intros g [->|Hg]%elem_of_cons; [lia|by apply Ht].
  - rewrite decide_True by lia. rewrite mm_keys_none; [by split_and!; [|lia|set_solver]|].
    intros g Hg. left. specialize (Hlt g Hg). lia.
  - rewrite decide_False by lia. rewrite mm_keys_none; [by split_and!; [|lia|set_solver]|].
    intros g Hg. left. specialize (Hlt g Hg). lia.
Qed.

(** The index the code carries between blocks: the features before it are over. *)
Definition mm_index (feats : list mm_feature) (i : Z) : Z := if i <? 0 then zlen feats + i else i.
Definition mm_passed (feats : list mm_feature) (s i : Z) : Prop :=
  feats = [] ∨ (0 ≤ mm_index feats i ∧ ∀ f, f ∈ take (Z.to_nat (mm_index feats i)) feats → mm_end f ≤ s).

Lemma mm_keys_drop feats n s e :
  (∀ f, f ∈ take n feats → mm_end f ≤ s) → mm_keys (drop n feats) s e = mm_keys feats s e.
Proof.
  intros Hf. rewrite <-(take_drop n feats) at 2. unfold mm_keys. rewrite filter_app, fmap_app.
  fold (mm_keys (take n feats) s e). rewrite mm_keys_none; [done|]. intros f ?. right. auto.
Qed.

Lemma mm_last_end feats g f :
  mm_ok feats → last feats = Some g → f ∈ feats → mm_end f ≤ mm_end g.
Proof.
  intros Hok. induction feats as [|x feats IH]; [done|].
  apply mm_ok_cons in Hok as (Hok & Hl & Hlt). rewrite last_cons.
  destruct (last feats) as [y|] eqn:Hy; intros [= ->] [->|Hf]%elem_of_cons; eauto; try done.
  - assert (g ∈ feats) as Hg by by apply last_Some_elem_of. specialize (Hlt g Hg).
    destruct Hok as [_ Hlen]. rewrite Forall_forall in Hlen. specialize (Hlen g Hg).
    unfold mm_end in *. lia.
  - by apply last_None in Hy as ->; set_solver.
Qed.

Lemma gen_mm_spec r s e i :
  mm_ok (mm_features r) → s ≤ e → mm_passed (mm_features r) s i →
  ∃ i', _gen_mm_extra_hash_keys r s e i = Ok (mm_keys (mm_features r) s e, i') ∧
        mm_passed (mm_features r) e i'.
Proof.
  intros Hok Hse Hp. unfold _gen_mm_extra_hash_keys.
  destruct (last (mm_features r)) as [g|] eqn:Hg; last first.
  { apply last_None in Hg. exists i. rewrite Hg. split; [done|by left]. }
  assert (mm_features r ≠ []) as Hne by (intros E; by rewrite E in Hg).
  destruct Hp as [?|[Hi Hpre]]; [done|].
  destruct (mm_offset g + mm_length g <=? s) eqn:E.
  { exists i. rewrite mm_keys_none.
    - split; [done|]. right. split; [done|]. intros f Hf. specialize (Hpre f Hf). lia.
    - intros f Hf. right. pose proof (mm_last_end _ g f Hok Hg Hf). unfold mm_end in *. lia. }
  assert (((i <? 0) && negb (- i <=? zlen (mm_features r))) = false) as ->.
  { unfold mm_index in Hi. destruct (i <? 0) eqn:Ei; cbn; [|done].
    apply negb_false_iff, Z.leb_le. lia. }
  fold (mm_index (mm_features r) i). set (k := mm_index (mm_features r) i) in *.
  assert (mm_ok (drop (Z.to_nat k) (mm_features r))) as Hok'.
  { destruct Hok as [Hs Hl]. split; [|by apply Forall_drop].
    rewrite <-(take_drop (Z.to_nat k) (mm_features r)) in Hs. by apply StronglySorted_app in Hs as (_ & _ & ?). }
  destruct (mm_loop_spec _ s e Hok' Hse) as (Hk & Hn & Ht).
  destruct (mm_loop _ s e) as [ks n]. cbn in *. subst ks. exists (k + n).
  split; [by rewrite mm_keys_drop|]. right.
  unfold mm_index. replace (k + n <? 0) with false by lia. split; [lia|].
  rewrite Z2Nat.inj_add by lia. intros f Hf.
  rewrite <-(take_drop (Z.to_nat k) (take _ _)), take_take, elem_of_app in Hf.
  rewrite Nat.min_l in Hf by lia. destruct Hf as [Hf|Hf]; [specialize (Hpre f Hf); lia|].
  apply Ht. rewrite take_drop_commute, Nat.add_comm. by rewrite Nat.add_comm.
Qed.

(** The extra keys of the tokens in [s, e). *)
Definition block_keys (r : Request) (s e : Z) : option (list extra_key) :=
  let ks := _gen_lora_extra_hash_keys r ++ mm_keys (mm_features r) s e ++ cache_salt_keys r s
            ++ _gen_prompt_embeds_extra_hash_keys r s e in
  if bool_decide (ks = []) then None else Some ks.

Lemma gen_keys_spec r s e i :
  mm_ok (mm_features r) → s ≤ e → mm_passed (mm_features r) s i →
  ∃ i', generate_block_hash_extra_keys r s e i = Ok (block_keys r s e, i') ∧
        mm_passed (mm_features r) e i'.
Proof.
  intros Hok Hse Hp. destruct (gen_mm_spec r s e i Hok Hse Hp) as (i' & Hg & Hp').
  exists i'. unfold generate_block_hash_extra_keys. by rewrite Hg.
Qed.

(** ** The hash of each block *)
Section Chain.
Context (hash_function : bytes * list Z * option (list extra_key) → bytes) (NONE_HASH : bytes).
Context (hbs : Z).
Hypothesis hbs_pos : 0 < hbs.
Implicit Types r : Request.

(** Block [i] hashes its tokens and keys onto the hash of block [i - 1]. *)
Definition block_content r (i : nat) : list Z * option (list extra_key) :=
  (token_slice r (Z.of_nat i * hbs) (Z.of_nat i * hbs + hbs),
   block_keys r (Z.of_nat i * hbs) (Z.of_nat i * hbs + hbs)).

Fixpoint hash_at r (i : nat) : bytes :=
  hash_block_tokens hash_function NONE_HASH
    (match i with O => None | S j => Some (hash_at r j) end)
    (block_content r i).1 (block_content r i).2.

Definition parent_of r (i : nat) : option bytes := match i with O => None | S j => Some (hash_at r j) end.

Lemma hash_at_unfold r i :
  hash_at r i = hash_block_tokens hash_function NONE_HASH (parent_of r i)
                  (block_content r i).1 (block_content r i).2.
Proof. by destruct i. Qed.

(** The full blocks of the request. *)
Definition num_full r : nat := Z.to_nat (num_tokens r / hbs).

Lemma num_full_spec r i : (i < num_full r)%nat ↔ Z.of_nat i * hbs + hbs ≤ num_tokens r.
Proof.
  unfold num_full. pose proof (zlen_nonneg (all_token_ids r)) as Hn. fold (num_tokens r) in Hn.
  assert (0 ≤ num_tokens r / hbs) by (by apply Z.div_pos).
  rewrite <-(Nat2Z.id i) at 1. rewrite <-Z2Nat.inj_lt by lia.
  rewrite <-Z.le_succ_l.
  split.
  - intros Hi. pose proof (Z.mul_div_le (num_tokens r) hbs). nia.
  - intros Hi. apply Z.div_le_lower_bound; [done|]. lia.
Qed.

Lemma hash_loop_spec fuel r i mm :
  mm_ok (mm_features r) → mm_passed (mm_features r) (Z.of_nat i * hbs) mm →
  (num_full r - i < fuel)%nat →
  hash_loop hash_function NONE_HASH fuel r hbs (Z.of_nat i * hbs) mm (parent_of r i) =
  Some (Ok (hash_at r <$> seq i (num_full r - i))).
Proof.
  intros Hok. revert i mm. induction fuel as [|fuel IH]; intros i mm Hp Hf; [lia|].
  cbn [hash_loop]. pose proof (num_full_spec r i) as Hi.
  destruct (num_tokens r <? Z.of_nat i * hbs + hbs) eqn:E.
  { replace (num_full r - i)%nat with 0%nat by lia. done. }
  destruct (gen_keys_spec r (Z.of_nat i * hbs) (Z.of_nat i * hbs + hbs) mm Hok) as (mm' & -> & Hp'); [lia|done|].
  change (hash_block_tokens _ _ _ _ _) with
    (hash_block_tokens hash_function NONE_HASH (parent_of r i) (block_content r i).1 (block_content r i).2).
  rewrite <-hash_at_unfold.
  assert (i < num_full r)%nat as Hlt by (apply Hi; lia).
  replace (Z.of_nat i * hbs + hbs) with (Z.of_nat (S i) * hbs) in * by lia.
  change (Some (hash_at r i)) with (parent_of r (S i)).
  rewrite (IH (S i) mm' Hp') by lia. cbn.
  replace (num_full r - i)%nat with (S (num_full r - S i)) by lia. done.
Qed.

(** Resuming after [k] blocks: the code then looks at the last feature only. *)
Lemma hasher_spec r (k : nat) :
  mm_ok (mm_features r) → (k ≤ num_full r)%nat →
  block_hashes r = hash_at r <$> seq 0 k →
  (∀ f, (0 < k)%nat → f ∈ take (length (mm_features r) - 1) (mm_features r) → mm_end f ≤ Z.of_nat k * hbs) →
  request_block_hasher hash_function NONE_HASH hbs r = Some (Ok (hash_at r <$> seq k (num_full r - k))).
Proof.
  intros Hok Hk Hb Hmm. unfold request_block_hasher. rewrite Hb.
  assert (zlen (hash_at r <$> seq 0 k) = Z.of_nat k) as ->
    by (unfold zlen; by rewrite length_fmap, length_seq).
  pose proof (num_full_spec r k).
  destruct (num_tokens r <? Z.of_nat k * hbs + hbs) eqn:E.
  { replace (num_full r - k)%nat with 0%nat by lia. done. }
  assert (last (hash_at r <$> seq 0 k) = parent_of r k) as ->.
  { destruct k as [|k]; [done|]. rewrite seq_S, fmap_app. cbn. by rewrite last_snoc. }
  apply hash_loop_spec; [done| |].
  - destruct k as [|k].
    + right. rewrite Z.mul_0_l. change (mm_index _ _) with 0. split; [lia|set_solver].
    + rewrite (proj2 (Z.ltb_lt 0 (Z.of_nat (S k) * hbs))) by (apply Z.mul_pos_pos; lia). destruct (mm_features r) as [|f fs] eqn:Ef; [by left|right].
      unfold mm_index. cbn [Z.ltb Z.compare]. unfold zlen. cbn [length]. split; [lia|].
      replace (Z.to_nat _) with (length (f :: fs) - 1)%nat by (cbn; lia).
      intros g Hg. apply Hmm; [lia|done].
  - unfold num_full, num_tokens, zlen.
    assert (Z.of_nat (length (all_token_ids r)) / hbs ≤ Z.of_nat (length (all_token_ids r)));
      [apply Z.div_le_upper_bound; nia|lia].
Qed.

(** Appending tokens does not change the hashes of the blocks that were full. *)
Lemma hash_at_append r ts i :
  (i < num_full r)%nat → hash_at (with_tokens (all_token_ids r ++ ts) r) i = hash_at r i.
Proof.
  set (r' := with_tokens _ r). intros Hi.
  assert (∀ j, (j < num_full r)%nat → block_content r' j = block_content r j) as Hc.
  { intros j Hj%num_full_spec. unfold block_content. f_equal. unfold token_slice, r'. cbn.
    unfold num_tokens, zlen in Hj. rewrite drop_app_le, take_app_le; [done|rewrite length_drop; lia|lia]. }
  induction i as [|i IH]; rewrite !(hash_at_unfold _ _), Hc by done; [done|].
  cbn [parent_of]. rewrite IH by lia. done.
Qed.
End Chain.

(** ** The properties *)

(** What is assumed of the hash function: no collisions, and neither the seed
    hash nor empty bytes among its values. *)
Definition collision_free (hash_function : bytes * list Z * option (list extra_key) → bytes)
    (NONE_HASH : bytes) : Prop :=
  (∀ x y, hash_function x = hash_function y → x = y) ∧
  (∀ x, hash_function x ≠ NONE_HASH ∧ hash_function x ≠ []).

Lemma update_fresh H N hbs r :
  0 < hbs → mm_ok (mm_features r) → block_hashes r = [] →
  update_block_hashes H N hbs r = Some (Ok (with_hashes (hash_at H N hbs r <$> seq 0 (num_full hbs r)) r)).
Proof.
  intros Hp Hok Hb. unfold update_block_hashes.
  rewrite (hasher_spec H N hbs Hp r 0) by (try done; lia). cbn. by rewrite Hb, Nat.sub_0_r.
Qed.

Lemma hash_block_inj H N p p' ts ts' ks ks' :
  collision_free H N →
  hash_block_tokens H N p ts ks = hash_block_tokens H N p' ts' ks' →
  (∀ h, p = Some h → ∃ x, h = H x) → (∀ h, p' = Some h → ∃ x, h = H x) →
  p = p' ∧ ts = ts' ∧ ks = ks'.
Proof.
  intros [Hinj Hne] Heq0 Hp Hp'. apply Hinj in Heq0 as [= Heq -> ->]. split; [|done].
  destruct p as [[|x h]|], p' as [[|x' h']|]; try done.
  all: try (destruct (Hp [] eq_refl) as [y Hy]; by destruct (Hne y)).
  all: try (destruct (Hp' [] eq_refl) as [y Hy]; by destruct (Hne y)).
  - by rewrite Heq.
  - destruct (Hp _ eq_refl) as [y Hy]. rewrite Hy in Heq. by destruct (Hne y).
  - destruct (Hp' _ eq_refl) as [y Hy]. rewrite Hy in Heq. by destruct (Hne y).
Qed.

Lemma hash_at_inj H N hbs r r' i j :
  collision_free H N → hash_at H N hbs r i = hash_at H N hbs r' j →
  i = j ∧ ∀ k, (k ≤ i)%nat → block_content hbs r k = block_content hbs r' k.
Proof.
  intros Hcf. revert j. induction i as [|i IH]; intros j; rewrite !hash_at_unfold; intros Heq;
    apply (hash_block_inj H N) in Heq as (Hp & Ht & Hk); try done;
    try (intros h Hh; destruct j; [done|injection Hh as <-; rewrite hash_at_unfold; by eexists]).
  - destruct j; [|done]. split; [done|]. intros k Hk0. replace k with 0%nat by lia.
    by apply injective_projections.
  - destruct j as [|j]; [done|]. injection Hp as Hp. apply IH in Hp as [-> Hall]. split; [done|].
    intros k Hk0. destruct (decide (k = S j)) as [->|]; [by apply injective_projections|].
    apply Hall. lia.
  - intros h Hh. injection Hh as <-. rewrite hash_at_unfold. by eexists.
Qed.

(** The first [i] blocks spell the tokens they cover. *)
Lemma block_tokens_prefix hbs r i :
  0 < hbs → (i ≤ num_full hbs r)%nat →
  mjoin ((λ k, (block_content hbs r k).1) <$> seq 0 i) = take (Z.to_nat (Z.of_nat i * hbs)) (all_token_ids r).
Proof.
  intros Hp. induction i as [|i IH]; intros Hi; [done|].
  rewrite seq_S, fmap_app, join_app, IH by lia. cbn. rewrite app_nil_r. unfold token_slice.
  replace (Z.to_nat (Z.of_nat i * hbs + hbs - Z.of_nat i * hbs)) with (Z.to_nat hbs) by lia.
  replace (Z.to_nat (Z.of_nat (S i) * hbs)) with (Z.to_nat (Z.of_nat i * hbs) + Z.to_nat hbs)%nat by lia.
  by rewrite take_take_drop.
Qed.

(** Requests as the engine keeps them: hashed when they are created, and again
    whenever tokens are appended.  When hashing resumes, the multi-modal inputs
    but the last must have ended ([resumed_hash_drops_mm_input] shows why). *)
Inductive hashed (H : bytes * list Z * option (list extra_key) → bytes) (N : bytes) (hbs : Z) : Request → Prop :=
  | hashed_new r r' :
      mm_ok (mm_features r) → block_hashes r = [] → update_block_hashes H N hbs r = Some (Ok r') → hashed H N hbs r'
  | hashed_append r ts r' :
      hashed H N hbs r →
      (∀ f, block_hashes r ≠ [] → f ∈ take (length (mm_features r) - 1) (mm_features r) →
         mm_end f ≤ zlen (block_hashes r) * hbs) →
      append_output_token_ids H N hbs ts r = Some (Ok r') → hashed H N hbs r'.

Lemma num_full_append hbs r ts :
  0 < hbs → (num_full hbs r ≤ num_full hbs (with_tokens (all_token_ids r ++ ts) r))%nat.
Proof.
  intros Hp. unfold num_full, num_tokens. cbn. rewrite zlen_app. pose proof (zlen_nonneg ts).
  pose proof (zlen_nonneg (all_token_ids r)).
  apply Z2Nat.inj_le; [by apply Z.div_pos|apply Z.div_pos; lia|]. apply Z.div_le_mono; lia.
Qed.

Lemma with_hashes_spec H N hbs hs r :
  hs = hash_at H N hbs r <$> seq 0 (num_full hbs r) →
  block_hashes (with_hashes hs r) = hash_at H N hbs (with_hashes hs r) <$> seq 0 (num_full hbs (with_hashes hs r)).
Proof.
  intros E. cbn. rewrite E at 1. apply list_fmap_ext. intros _ x _. induction x as [|x IHx]; [done|].
  cbn [hash_at]. by rewrite IHx.
Qed.

(** However a request was hashed, its hashes are those of its full blocks. *)
Lemma hashed_spec H N hbs r :
  0 < hbs → hashed H N hbs r →
  mm_ok (mm_features r) ∧ block_hashes r = hash_at H N hbs r <$> seq 0 (num_full hbs r).
Proof.
  intros Hp. induction 1 as [r r' Hok Hb Hrun|r ts r' _ [Hok IH] Hmm Hrun].
  - rewrite update_fresh in Hrun by done. injection Hrun as <-. split; [done|]. by apply with_hashes_spec.
  - pose proof (num_full_append hbs r ts Hp) as Hle. set (q := with_tokens _ r) in *.
    assert (zlen (block_hashes r) = Z.of_nat (num_full hbs r)) as Hz.
    { rewrite IH. unfold zlen. by rewrite length_fmap, length_seq. }
    assert (block_hashes q = hash_at H N hbs q <$> seq 0 (num_full hbs r)) as Hq.
    { cbn. rewrite IH. apply list_fmap_ext. intros i x [-> Hx]%lookup_seq. symmetry. by apply hash_at_append. }
    unfold append_output_token_ids, update_block_hashes in Hrun. fold q in Hrun.
    rewrite (hasher_spec H N hbs Hp q (num_full hbs r)) in Hrun; [|done|exact Hle|exact Hq|].
    2: { intros f Hk Hf. rewrite <-Hz. apply Hmm; [|exact Hf]. intros Hn.
         rewrite Hn in Hz. unfold zlen in Hz. cbn [length] in Hz. lia. }
    injection Hrun as <-. split; [done|]. apply with_hashes_spec.
    change (block_hashes q) with (block_hashes r) in *. rewrite Hq. rewrite <-fmap_app. f_equal.
    replace (num_full hbs q) with (num_full hbs r + (num_full hbs q - num_full hbs r))%nat at 2 by lia.
    by rewrite seq_app.
Qed.

(** An entry of a coarser view is the hash of the block that ends where it ends. *)
Lemma view_lookup hs hbs bs v i h :
  0 < hbs → 0 < bs → 0 ≤ i → resolve_block_hashes (Raw hs) hbs bs false None = Ok v → hl_get v i = Ok h →
  ∃ n : nat, hs !! n = Some h ∧ Z.of_nat (S n) * hbs = (i + 1) * bs.
Proof.
  intros Hp Hbs Hi Hv Hh.
  unfold resolve_block_hashes in Hv. cbn [andb] in Hv. destruct (bs =? hbs) eqn:E.
  - apply Z.eqb_eq in E as ->. injection Hv as <-. exists (Z.to_nat i). split; [by apply py_index_Ok|]. lia.
  - unfold make_view in Hv. destruct (bs mod hbs =? 0) eqn:Em; [|done]. injection Hv as <-. apply Z.eqb_eq in Em.
    pose proof (Z.div_mod bs hbs ltac:(lia)) as Hd. cbn [hl_get] in Hh. set (k := bs / hbs) in *.
    assert (1 ≤ k) by nia. exists (Z.to_nat ((i + 1) * k - 1)). split; [apply py_index_Ok; [nia|done]|]. nia.
Qed.

(** C20: a block hash identifies the whole prefix.  Assume a hash function without
    collisions, and requests with well-ordered multi-modal inputs that were
    hashed when they were created and again whenever tokens were appended, where
    hashing only ever resumed after all of their multi-modal inputs but the last
    had ended ([resumed_hash_drops_mm_input] shows that this is needed).  If two
    such requests have an equal hash, each in its own list of hashes or in the
    coarser view of it for a group with larger blocks, then the two blocks end at
    the same token, and the requests agree on all tokens up to there and on the
    extra keys of every block before it. *)
Theorem block_hash_identifies_prefix H N hbs r s bs bs' v v' i j h :
  collision_free H N → 0 < hbs → hashed H N hbs r → hashed H N hbs s → 0 < bs → 0 < bs' →
  resolve_block_hashes (Raw (block_hashes r)) hbs bs false None = Ok v →
  resolve_block_hashes (Raw (block_hashes s)) hbs bs' false None = Ok v' →
  0 ≤ i → 0 ≤ j → hl_get v i = Ok h → hl_get v' j = Ok h →
  (i + 1) * bs = (j + 1) * bs' ∧
  take (Z.to_nat ((i + 1) * bs)) (all_token_ids r) = take (Z.to_nat ((i + 1) * bs)) (all_token_ids s) ∧
  ∀ k : nat, Z.of_nat k * hbs < (i + 1) * bs →
    block_keys r (Z.of_nat k * hbs) (Z.of_nat k * hbs + hbs) = block_keys s (Z.of_nat k * hbs) (Z.of_nat k * hbs + hbs).
Proof.
  intros Hcf Hp Hr Hs Hbs Hbs' Hv Hv' Hi Hj Hh Hh'.
  apply (view_lookup _ _ _ _ _ _ Hp Hbs Hi Hv) in Hh as (m & Hm & Hmi).
  apply (view_lookup _ _ _ _ _ _ Hp Hbs' Hj Hv') in Hh' as (n & Hn & Hnj).
  rewrite (proj2 (hashed_spec H N hbs r Hp Hr)) in Hm. rewrite (proj2 (hashed_spec H N hbs s Hp Hs)) in Hn.
  apply list_lookup_fmap_Some_1 in Hm as (x & -> & [-> Hx]%lookup_seq).
  apply list_lookup_fmap_Some_1 in Hn as (y & Heq & [-> Hy]%lookup_seq). cbn in *.
  apply (hash_at_inj H N) in Heq as [-> Hall]; [|done]. rewrite <-Hmi, <-Hnj. split; [done|]. split.
  - change (Z.of_nat (S n)) with (Z.of_nat (S (0 + n))). rewrite <-!block_tokens_prefix by (done || lia).
    f_equal. apply list_fmap_ext. intros k z [-> Hz]%lookup_seq. by rewrite Hall by lia.
  - intros k Hk. assert (k ≤ n)%nat as Hkn by nia. by injection (Hall k Hkn) as _ ?.
Qed.

(** C24: hashing as tokens arrive is hashing at once: a request whose hashes are
    extended after tokens were appended ends with the same hashes as a fresh
    request with all the tokens.  Neither raises and both loops end.  With
    several multi-modal inputs this needs all of them but the last to end before
    the block where hashing resumes. *)
Theorem block_hashes_incremental H N hbs r ts :
  0 < hbs → mm_ok (mm_features r) → block_hashes r = [] →
  (∀ f, f ∈ take (length (mm_features r) - 1) (mm_features r) → mm_end f ≤ num_tokens r / hbs * hbs) →
  ∃ r1 r2, update_block_hashes H N hbs r = Some (Ok r1) ∧
    append_output_token_ids H N hbs ts r1 = Some (Ok r2) ∧
    update_block_hashes H N hbs (with_tokens (all_token_ids r ++ ts) r) = Some (Ok r2).
Proof.
  intros Hp Hok Hb Hmm. set (r' := with_tokens (all_token_ids r ++ ts) r).
  pose proof (num_full_append hbs r ts Hp : (num_full hbs r ≤ num_full hbs r')%nat) as Hle.
  rewrite !update_fresh by done. do 2 eexists. split; [done|]. split; [|done].
  unfold append_output_token_ids, update_block_hashes.
  set (q := with_tokens _ _).
  assert (∀ i, hash_at H N hbs q i = hash_at H N hbs r' i) as Hq.
  { intros i. induction i as [|i IH]; [done|]. cbn [hash_at]. by rewrite IH. }
  rewrite (hasher_spec H N hbs Hp q (num_full hbs r)); [|done|exact Hle| |].
  - cbn. do 2 f_equal. unfold with_hashes, with_tokens. cbn. f_equal.
    replace (num_full hbs r') with (num_full hbs r + (num_full hbs q - num_full hbs r))%nat
      by (change (num_full hbs q) with (num_full hbs r'); lia).
    rewrite seq_app, fmap_app. f_equal; apply list_fmap_ext; try done; intros i x [-> Hx]%lookup_seq.
    symmetry. by apply hash_at_append.
  - cbn. apply list_fmap_ext. intros i x [-> Hx]%lookup_seq.
    rewrite Hq. symmetry. by apply hash_at_append.
  - intros f Hk Hf. etrans; [by apply Hmm|]. unfold num_full in *. lia.
Qed.

(** The keys do not tell a LoRA name from a cache salt: whatever the hash
    function, a request of the LoRA adapter named like another request's salt
    gets that request's first block hash when the tokens agree, so the prefix
    cache serves one with the other's block. *)
Theorem lora_name_collides_with_salt H N name ts :
  length ts = 2%nat → name ≠ ""%string →
  update_block_hashes H N 2 (Req "a" ts 2 [] (Some name) None None []) =
    Some (Ok (Req "a" ts 2 [] (Some name) None None [H (N, ts, Some [KStr name])])) ∧
  update_block_hashes H N 2 (Req "b" ts 2 [] None (Some name) None []) =
    Some (Ok (Req "b" ts 2 [] None (Some name) None [H (N, ts, Some [KStr name])])).
Proof.
  intros Hl Hn. destruct ts as [|t1 [|t2 [|]]]; try done.
  unfold update_block_hashes, request_block_hasher. cbn.
  unfold generate_block_hash_extra_keys, cache_salt_keys. cbn.
  by rewrite (bool_decide_eq_false_2 _ Hn).
Qed.

(** When hashing resumes at a block that holds two multi-modal inputs, the
    first of them is left out of the keys: whatever the hash function, two
    requests that differ only in that input end with the same hashes. *)
Theorem resumed_hash_drops_mm_input H N a b c :
  let req x := Req "r" [0; 0; 0; 0; 0; 0] 6 [Feature x 4 1; Feature c 5 1] None None None [] in
  let run x := match update_block_hashes H N 4 (req x) with
               | Some (Ok r) => option_map (λ s, result_bind s (λ r', Ok (block_hashes r')))
                                  (append_output_token_ids H N 4 [7; 8] r)
               | _ => None
               end in
  run a = run b ∧ ∃ hs, run a = Some (Ok hs) ∧ length hs = 2%nat.
Proof. split; [done|]. by eexists. Qed.

(** *** Witnesses *)
Definition demo_hash (x : bytes * list Z * option (list extra_key)) : bytes := [Z.pos (encode x)].

Lemma demo_hash_collision_free : collision_free demo_hash [0].
Proof.
  split; [|done]. intros x y [= E]. by apply (inj encode) in E.
Qed.

Definition demo_req (ts : list Z) : Request := Req "r" ts 3 [Feature "img" 1 2] None None None [].

Lemma demo_req_mm ts : mm_ok (mm_features (demo_req ts)).
Proof. split; repeat constructor; done. Qed.

(** One request hashed at once and one that grew by a token, the first through
    the view of a group with blocks of four tokens. *)
Lemma block_hash_identifies_prefix_witness :
  ∃ r1 r2 h, update_block_hashes demo_hash [0] 2 (demo_req [5; 0; 0; 6; 9]) = Some (Ok r1) ∧
    hashed demo_hash [0] 2 r2 ∧ all_token_ids r2 = [5; 0; 0; 6; 8] ∧
    hl_get (View (block_hashes r1) 2) 0 = Ok h ∧ hl_get (Raw (block_hashes r2)) 1 = Ok h ∧
    take 4 [5; 0; 0; 6; 9] = take 4 [5; 0; 0; 6; 8].
Proof.
  set (r0 := with_hashes (hash_at demo_hash [0] 2 (demo_req [5; 0; 0]) <$> seq 0 1) (demo_req [5; 0; 0])).
  set (r1 := with_hashes (hash_at demo_hash [0] 2 (demo_req [5; 0; 0; 6; 9]) <$> seq 0 2) (demo_req [5; 0; 0; 6; 9])).
  set (r2 := with_hashes (hash_at demo_hash [0] 2 (demo_req [5; 0; 0; 6; 8]) <$> seq 0 2) (demo_req [5; 0; 0; 6; 8])).
  set (h := hash_at demo_hash [0] 2 (demo_req [5; 0; 0; 6; 9]) 1).
  assert (H1 : hashed demo_hash [0] 2 r1) by (apply (hashed_new _ _ _ (demo_req [5; 0; 0; 6; 9])); [apply demo_req_mm|reflexivity|reflexivity]).
  assert (H0 : hashed demo_hash [0] 2 r0) by (apply (hashed_new _ _ _ (demo_req [5; 0; 0])); [apply demo_req_mm|reflexivity|reflexivity]).
  assert (H2 : hashed demo_hash [0] 2 r2).
  { apply (hashed_append _ _ _ r0 [6; 8]); [exact H0| |reflexivity]. intros f _ Hf. cbn in Hf. set_solver. }
  exists r1, r2, h. split; [reflexivity|]. split; [exact H2|]. split; [reflexivity|].
  split; [reflexivity|]. split; [reflexivity|].
  exact (proj1 (proj2 (block_hash_identifies_prefix demo_hash [0] 2 r1 r2 4 2 (View (block_hashes r1) 2)
    (Raw (block_hashes r2)) 0 1 h demo_hash_collision_free eq_refl H1 H2 eq_refl eq_refl eq_refl eq_refl
    ltac:(lia) ltac:(lia) eq_refl eq_refl))).
Defined.

Lemma block_hashes_incremental_witness :
  ∃ r1 r2, update_block_hashes demo_hash [0] 2 (demo_req [5; 0; 0]) = Some (Ok r1) ∧
    append_output_token_ids demo_hash [0] 2 [6; 9] r1 = Some (Ok r2) ∧
    update_block_hashes demo_hash [0] 2 (demo_req [5; 0; 0; 6; 9]) = Some (Ok r2).
Proof.
  apply (block_hashes_incremental demo_hash [0] 2 (demo_req [5; 0; 0]) [6; 9]);
    [lia|apply demo_req_mm|reflexivity|]. intros f Hf. cbn in Hf. set_solver.
Defined.

Lemma lora_name_collides_with_salt_witness :
  update_block_hashes demo_hash [0] 2 (Req "a" [1; 2] 2 [] (Some "x"%string) None None []) =
    Some (Ok (Req "a" [1; 2] 2 [] (Some "x"%string) None None
                [demo_hash ([0], [1; 2], Some [KStr "x"])])).
Proof. by apply (lora_name_collides_with_salt demo_hash [0] "x" [1; 2]). Defined.
