(* ===== verification/BlockPool.v ===== *)
(** * BlockPool: the allocator of KV-cache pages

    Models [BlockPool] of vllm/v1/core/block_pool.py (and [KVCacheBlock] of
    kv_cache_utils.py): the block objects, the free queue of FreeQueue.v, the
    prefix cache of BlockHash.v and the secondary hashes per block.  Block
    objects are named by their id, so [blocks] maps an id to the object's
    fields; the pointer fields live in the queue.  KV-cache events and the
    metrics collector are observers with no effect on this state and are left
    out (the offload connector creates its pools with both disabled). *)

From S2P Require Import Prelude PyData FreeQueue BlockHash.
From stdpp Require Import base gmap sets list.
From Stdlib Require Import ZArith Lia.
Open Scope Z_scope.

Record block := Block {
  ref_cnt : Z;
  block_hash : option bytes;
  block_hash_num_tokens : option Z;
  is_null : bool;
}.

Record pool := Pool {
  num_gpu_blocks : Z;
  enable_caching : bool;
  hash_block_size : Z;
  blocks : gmap Z block;
  free_block_queue : fq;
  cached_block_hash_to_block : hash_cache;
  cached_block_hashes_by_block : gmap Z (gset bytes);
}.

Definition fresh_block : block := Block 0 None None false.

(** Field updates. *)
Definition set_ref_cnt (f : Z → Z) (k : block) : block :=
  Block (f (ref_cnt k)) (block_hash k) (block_hash_num_tokens k) (is_null k).
Definition set_hash_fields (h : option bytes) (n : option Z) (k : block) : block :=
  Block (ref_cnt k) h n (is_null k).
Definition set_is_null (k : block) : block :=
  Block (ref_cnt k) (block_hash k) (block_hash_num_tokens k) true.

Definition with_blocks (f : gmap Z block → gmap Z block) (p : pool) : pool :=
  Pool (num_gpu_blocks p) (enable_caching p) (hash_block_size p) (f (blocks p))
    (free_block_queue p) (cached_block_hash_to_block p) (cached_block_hashes_by_block p).
Definition with_queue (q : fq) (p : pool) : pool :=
  Pool (num_gpu_blocks p) (enable_caching p) (hash_block_size p) (blocks p)
    q (cached_block_hash_to_block p) (cached_block_hashes_by_block p).
Definition with_cache (c : hash_cache) (p : pool) : pool :=
  Pool (num_gpu_blocks p) (enable_caching p) (hash_block_size p) (blocks p)
    (free_block_queue p) c (cached_block_hashes_by_block p).
Definition with_by_block (m : gmap Z (gset bytes)) (p : pool) : pool :=
  Pool (num_gpu_blocks p) (enable_caching p) (hash_block_size p) (blocks p)
    (free_block_queue p) (cached_block_hash_to_block p) m.

(** The fields of a block object the caller holds. *)
Definition blk (p : pool) (b : Z) : block := default fresh_block (blocks p !! b).
Definition upd_blk (b : Z) (f : block → block) : pool → pool := with_blocks (alter f b).
Definition by_block (p : pool) (b : Z) : gset bytes :=
  default ∅ (cached_block_hashes_by_block p !! b).

(** [self.blocks[i]]: the id of the block at a Python index. *)
Definition block_at (p : pool) (i : Z) : result Z :=
  let j := if i <? 0 then i + num_gpu_blocks p else i in
  if (0 <=? j) && (j <? num_gpu_blocks p) then Ok j else Raise IndexError.

Definition on_queue {A} (m : M fq A) : M pool A := zoom free_block_queue with_queue m.

Definition pool_init (n : Z) (caching : bool) (hbs : Z) : result pool :=
  if 0 <? n then
    let q := fq_init (zrange 0 n) in
    match popleft q with
    | (Ok b, q') =>
        Ok (Pool n caching hbs
              (alter set_is_null b (list_to_map ((λ i, (i, fresh_block)) <$> zrange 0 n)))
              q' ∅ ∅)
    | (Raise e, _) => Raise e
    end
  else Raise AssertionError.

Definition get_num_free_blocks (p : pool) : Z := num_free_blocks (free_block_queue p).

(** ** Prefix-cache bookkeeping *)

(** One round of the loop of [_remove_cached_block_hashes]. *)
Fixpoint pop_hashes (b : Z) (hs : list bytes) (c : hash_cache) : list bytes * hash_cache :=
  match hs with
  | [] => ([], c)
  | h :: hs' =>
      let '(r, c') := hc_pop c h b in
      let '(removed, c'') := pop_hashes b hs' c' in
      (match r with Some _ => h :: removed | None => removed end, c'')
  end.

Definition _remove_cached_block_hashes (b : Z) : M pool (list bytes) :=
  let! k := gets (λ p, blk p b) in
  let! extra := gets (λ p, by_block p b) in
  let hs := option_list (block_hash k) ++ elements extra in
  modify (λ p, with_by_block (delete b (cached_block_hashes_by_block p)) p) >>
  if bool_decide (hs = []) then ret []
  else
    let! r := gets (λ p, pop_hashes b hs (cached_block_hash_to_block p)) in
    modify (with_cache r.2) >>
    modify (upd_blk b (set_hash_fields None None)) >>
    ret r.1.

Definition _maybe_evict_cached_block (b : Z) : M pool bool :=
  let! evicted := _remove_cached_block_hashes b in
  ret (negb (bool_decide (evicted = []))).

Definition _insert_block_hash (key : bytes) (b : Z) (num_tokens : option Z)
    : M pool unit :=
  let! k := gets (λ p, blk p b) in
  if bool_decide (block_hash k = Some key) then ret tt
  else
    let! c := gets cached_block_hash_to_block in
    if hc_contain c key b then ret tt
    else
      (if bool_decide (block_hash k = None) then
         ensure (bool_decide (block_hash_num_tokens k = None)) AssertionError >>
         modify (upd_blk b (set_hash_fields (Some key) num_tokens))
       else
         modify (λ p, with_by_block
           (<[b := {[key]} ∪ by_block p b]> (cached_block_hashes_by_block p)) p)) >>
      modify (λ p, with_cache (hc_insert (cached_block_hash_to_block p) key b) p).

Definition move_block_hashes (src dst : Z) : M pool unit :=
  let! d := gets (λ p, blk p dst) in
  let! has := gets (λ p, bool_decide (is_Some (cached_block_hashes_by_block p !! dst))) in
  ensure (bool_decide (block_hash d = None)) AssertionError >>
  ensure (negb has) AssertionError >>
  let! s := gets (λ p, blk p src) in
  let num_tokens := block_hash_num_tokens s in
  let! hs := _remove_cached_block_hashes src in
  mfor hs (λ h, _insert_block_hash h dst num_tokens).

(** ** Allocation, reference counts, freeing *)

(** The body of the loops of [get_new_blocks]. *)
Definition new_block (caching : bool) (b : Z) : M pool unit :=
  (when caching do (_maybe_evict_cached_block b >> ret tt)) >>
  let! k := gets (λ p, blk p b) in
  ensure (ref_cnt k =? 0) AssertionError >>
  modify (upd_blk b (set_ref_cnt (λ r, r + 1))).

Definition get_new_blocks (n : Z) : M pool (list Z) :=
  let! free := gets get_num_free_blocks in
  ensure (n <=? free) ValueError >>
  let! r := on_queue (popleft_n n) in
  let! caching := gets enable_caching in
  mfor r (new_block caching) >>
  ret r.

(** The body of the loop of [touch]. *)
Definition touch_block (b : Z) : M pool unit :=
  let! k := gets (λ p, blk p b) in
  (when ((ref_cnt k =? 0) && negb (is_null k)) do on_queue (FreeQueue.remove b)) >>
  modify (upd_blk b (set_ref_cnt (λ r, r + 1))).

Definition touch (bs : list Z) : M pool unit := mfor bs touch_block.

Definition is_block_writable (p : pool) (b : Z) : bool :=
  negb (is_null (blk p b)) && (ref_cnt (blk p b) =? 1)
  && bool_decide (block_hash (blk p b) = None).

(** The loop of [free_blocks]: drop a reference from each block, splitting the
    blocks that became free into evict-first and evict-last. *)
Fixpoint free_loop (bs first last : list Z) : M pool (list Z * list Z) :=
  match bs with
  | [] => ret (first, last)
  | b :: bs' =>
      modify (upd_blk b (set_ref_cnt (λ r, r - 1))) >>
      let! k := gets (λ p, blk p b) in
      let! caching := gets enable_caching in
      if (ref_cnt k =? 0) && negb (is_null k) then
        if bool_decide (block_hash k = None) || negb caching
        then free_loop bs' (first ++ [b]) last
        else free_loop bs' first (last ++ [b])
      else free_loop bs' first last
  end.

Definition free_blocks (ordered : list Z) : M pool unit :=
  let! r := free_loop ordered [] [] in
  on_queue (prepend_n r.1) >>
  on_queue (append_n r.2).

Definition evict_blocks (ids : list Z) : M pool unit :=
  mfor ids (λ i,
    let! n := gets num_gpu_blocks in
    ensure (i <? n) AssertionError >>
    let! p := gets (λ p, p) in
    let! b := lift (block_at p i) in
    _maybe_evict_cached_block b >> ret tt).

Definition reset_prefix_cache : M pool bool :=
  let! used := gets (λ p, num_gpu_blocks p - get_num_free_blocks p) in
  if negb (used =? 1) then ret false
  else
    modify (with_cache ∅) >>
    modify (with_by_block ∅) >>
    modify (with_blocks (fmap (set_hash_fields None None))) >>
    ret true.

(** The loop over the groups. *)
Fixpoint cached_of_groups (block_hash : bytes) (p : pool) (gs acc : list Z) : result (option (list Z)) :=
  match gs with
  | [] => Ok (Some acc)
  | g :: gs' =>
      result_bind (make_block_hash_with_group_id block_hash g) (λ key,
        match hc_get_one_block (cached_block_hash_to_block p) key with
        | None => Ok None
        | Some b => cached_of_groups block_hash p gs' (acc ++ [b])
        end)
  end.

Definition get_cached_block (block_hash : bytes) (groups : list Z) (p : pool)
    : result (option (list Z)) := cached_of_groups block_hash p groups [].

(** ** Views of the state *)

(** Reference counts and null marks. *)
Definition refs (p : pool) : gmap Z (Z * bool) :=
  (λ k, (ref_cnt k, is_null k)) <$> blocks p.
(** Primary hashes. *)
Definition hashes (p : pool) : gmap Z (option bytes) := block_hash <$> blocks p.

(** [refs_ok n m free]: in a pool of [n] blocks with reference counts [m],
    [free] lists exactly the blocks with no references; block 0 is the null
    block and is never free. *)
Record refs_ok (n : Z) (m : gmap Z (Z * bool)) (free : list Z) : Prop := {
  ro_pos : 0 < n;
  ro_dom : ∀ b, is_Some (m !! b) ↔ 0 ≤ b < n;
  ro_nodup : NoDup free;
  ro_free : ∀ b, b ∈ free ↔ m !! b = Some (0, false);
  ro_ref : ∀ b r, m !! b = Some (r, false) → 0 ≤ r;
  ro_null : ∀ b r nul, m !! b = Some (r, nul) → nul = true ↔ b = 0;
}.

(** Every entry of the prefix cache is owned by the block it names. *)
Definition owns (p : pool) (b : Z) (key : bytes) : Prop :=
  hashes p !! b = Some (Some key) ∨ (is_Some (hashes p !! b) ∧ key ∈ by_block p b).
Definition cache_inv (p : pool) : Prop :=
  cache_ok (cached_block_hash_to_block p) ∧
  ∀ key b, b ∈ cached_ids (cached_block_hash_to_block p) key → owns p b key.

Definition pool_inv (p : pool) (free : list Z) : Prop :=
  queue_rep (free_block_queue p) free ∧
  refs_ok (num_gpu_blocks p) (refs p) free ∧
  cache_inv p.

(** [same_alloc p p']: the hash bookkeeping changed at most. *)
Definition same_alloc (p p' : pool) : Prop :=
  num_gpu_blocks p' = num_gpu_blocks p ∧ free_block_queue p' = free_block_queue p ∧
  refs p' = refs p ∧ enable_caching p' = enable_caching p.
(** [same_hash p p']: the reference counts and the queue changed at most. *)
Definition same_hash (p p' : pool) : Prop :=
  hashes p' = hashes p ∧
  cached_block_hash_to_block p' = cached_block_hash_to_block p ∧
  cached_block_hashes_by_block p' = cached_block_hashes_by_block p.

#[global] Instance same_alloc_po : PreOrder same_alloc.
Proof. split; [by intros p; unfold same_alloc, same_hash|]. intros p p' p'' (?&?&?&?) (?&?&?&?).
  unfold same_alloc. split_and!; congruence. Qed.
#[global] Instance same_hash_po : PreOrder same_hash.
Proof. split; [by intros p; unfold same_alloc, same_hash|]. intros p p' p'' (?&?&?) (?&?&?).
  unfold same_hash. split_and!; congruence. Qed.

Lemma cache_inv_same_hash p p' : same_hash p p' → cache_inv p → cache_inv p'.
Proof.
  intros (Hh & Hc & Hb) [Hok Hown]. unfold cache_inv, owns, by_block. rewrite Hh, Hc, Hb.
  done.
Qed.

Lemma alter_fmap_refs f g b (m : gmap Z block) :
  (∀ k, (ref_cnt (f k), is_null (f k)) = g (ref_cnt k, is_null k)) →
  (λ k, (ref_cnt k, is_null k)) <$> alter f b m =
  alter g b ((λ k, (ref_cnt k, is_null k)) <$> m).
Proof.
  intros Hfg. apply map_eq. intros i. rewrite !lookup_fmap, !lookup_alter, !lookup_fmap.
  case_decide; subst; [|done]. destruct (m !! i); simpl; [|done]. by rewrite Hfg.
Qed.

Definition bump (d : Z) (x : Z * bool) : Z * bool := (x.1 + d, x.2).

Lemma refs_set_ref b d p :
  refs (upd_blk b (set_ref_cnt (λ r, r + d)) p) = alter (bump d) b (refs p).
Proof. by apply alter_fmap_refs. Qed.
Lemma refs_set_hash b h n p : refs (upd_blk b (set_hash_fields h n) p) = refs p.
Proof.
  unfold refs, upd_blk. simpl. rewrite (alter_fmap_refs _ id) by done.
  apply map_eq. intros i. rewrite lookup_alter.
  case_decide; subst; [|done]. by destruct (_ !! i).
Qed.
Lemma hashes_set_ref b f p : hashes (upd_blk b (set_ref_cnt f) p) = hashes p.
Proof.
  unfold hashes, upd_blk. simpl. apply map_eq. intros i.
  rewrite !lookup_fmap, lookup_alter. case_decide; subst; [|done].
  by destruct (_ !! i).
Qed.
Lemma hashes_set_hash b h n p :
  hashes (upd_blk b (set_hash_fields h n) p) = alter (λ _, h) b (hashes p).
Proof.
  unfold hashes, upd_blk. simpl. apply map_eq. intros i.
  rewrite !lookup_fmap, !lookup_alter, !lookup_fmap. case_decide; subst; [|done].
  by destruct (_ !! i).
Qed.

Lemma blk_refs p b r nul :
  refs p !! b = Some (r, nul) → ref_cnt (blk p b) = r ∧ is_null (blk p b) = nul.
Proof.
  unfold refs, blk. rewrite lookup_fmap. destruct (blocks p !! b); simpl; [|done].
  by intros [= <- <-].
Qed.
Lemma blk_hash p b h : hashes p !! b = Some h → block_hash (blk p b) = h.
Proof.
  unfold hashes, blk. rewrite lookup_fmap. destruct (blocks p !! b); simpl; [|done].
  by intros [= <-].
Qed.
Lemma hashes_dom p b : is_Some (hashes p !! b) ↔ is_Some (refs p !! b).
Proof. unfold hashes, refs. by rewrite !lookup_fmap, !fmap_is_Some. Qed.

(** ** Reference-count steps on [refs_ok] *)
Section RefSteps.
Context (n : Z) (m : gmap Z (Z * bool)) (free : list Z) (Hok : refs_ok n m free).

Lemma refs_ok_perm free' : free ≡ₚ free' → refs_ok n m free'.
Proof.
  intros Hp. destruct Hok. split; try done.
  - by rewrite <-Hp.
  - intros b. by rewrite <-Hp.
Qed.

Lemma refs_ok_free_dom b : b ∈ free → 0 < b < n.
Proof.
  intros Hb%(ro_free _ _ _ Hok).
  assert (0 ≤ b < n) by (apply (ro_dom _ _ _ Hok); by eexists).
  assert (b ≠ 0); [|lia]. intros ->. by apply (ro_null _ _ _ Hok) in Hb as [_ ?%(eq_sym)].
Qed.

Lemma refs_ok_real_ids : real_ids free.
Proof. split; [apply Hok|]. intros b Hb%refs_ok_free_dom. lia. Qed.

Lemma bump_dom b d i : is_Some (alter (bump d) b m !! i) ↔ is_Some (m !! i).
Proof. rewrite lookup_alter. case_decide; [by rewrite fmap_is_Some; subst|done]. Qed.

Lemma bump_lookup b d i r nul :
  alter (bump d) b m !! i = Some (r, nul) ↔
  m !! i = Some ((if decide (b = i) then r - d else r), nul).
Proof.
  rewrite lookup_alter. case_decide; subst; [|done].
  destruct (m !! i) as [[r' nul']|]; simpl; [|done]. unfold bump. simpl.
  split; intros; simplify_eq; repeat f_equal; lia.
Qed.

(** Taking a reference: a free block leaves the free list. *)
Lemma refs_ok_take b :
  is_Some (m !! b) → refs_ok n (alter (bump 1) b m) (filter (λ x, x ≠ b) free).
Proof.
  intros Hb. pose proof Hok as [Hn Hd Hnd Hf Hr Hnull]. split; [done|..].
  - intros i. by rewrite bump_dom.
  - by apply NoDup_filter.
  - intros i. rewrite list_elem_of_filter, bump_lookup, Hf.
    destruct (decide (b = i)) as [->|].
    + split; [by intros []|]. intros ?%Hr. lia.
    + naive_solver.
  - intros i r H%bump_lookup. case_decide; apply Hr in H; lia.
  - intros i r nul H%bump_lookup. by eapply Hnull.
Qed.

(** Dropping the last reference of a real block. *)
Lemma refs_ok_drop_last b :
  m !! b = Some (1, false) → refs_ok n (alter (bump (-1)) b m) (free ++ [b]).
Proof.
  intros Hb. pose proof Hok as [Hn Hd Hnd Hf Hr Hnull]. split; [done|..].
  - intros i. by rewrite bump_dom.
  - apply NoDup_app. split_and!; [done| |apply NoDup_singleton].
    intros x Hx%Hf ?%list_elem_of_singleton. subst. congruence.
  - intros i. rewrite elem_of_app, list_elem_of_singleton, bump_lookup, Hf.
    destruct (decide (b = i)) as [->|]; [|naive_solver]. rewrite Hb. naive_solver.
  - intros i r H%bump_lookup. case_decide; subst; [|by apply Hr in H].
    rewrite Hb in H. simplify_eq. lia.
  - intros i r nul H%bump_lookup. by eapply Hnull.
Qed.

(** Dropping another reference, or one of the null block. *)
Lemma refs_ok_drop_more b r nul :
  m !! b = Some (r, nul) → nul = true ∨ 1 < r →
  refs_ok n (alter (bump (-1)) b m) free.
Proof.
  intros Hb Hc. pose proof Hok as [Hn Hd Hnd Hf Hr Hnull]. split; [done|..].
  - intros i. by rewrite bump_dom.
  - done.
  - intros i. rewrite bump_lookup, Hf. case_decide; subst; [|done].
    rewrite Hb. split; intros; simplify_eq; destruct Hc; simplify_eq; lia.
  - intros i r' H%bump_lookup. case_decide; subst; [|by apply Hr in H].
    rewrite Hb in H. simplify_eq. destruct Hc; [done|lia].
  - intros i r' nul' H%bump_lookup. by eapply Hnull.
Qed.
End RefSteps.

(** ** Hash bookkeeping *)

Lemma pop_hashes_spec b hs c key x :
  x ∈ cached_ids (pop_hashes b hs c).2 key ↔
  x ∈ cached_ids c key ∧ (x = b → key ∉ hs).
Proof.
  revert c. induction hs as [|h hs IH]; intros c; simpl; [set_solver|].
  destruct (hc_pop c h b) as [r c'] eqn:E.
  destruct (pop_hashes b hs c') as [removed c''] eqn:E'. simpl.
  specialize (IH c'). rewrite E' in IH. simpl in IH. rewrite IH.
  pose proof (cached_ids_pop c h b key) as Hp. rewrite E in Hp. simpl in Hp.
  rewrite Hp. destruct (decide (h = key)) as [<-|Hne].
  - rewrite list_elem_of_filter, elem_of_cons. destruct (decide (x = b)); tauto.
  - rewrite not_elem_of_cons. split; intros [? Hn]; split; [done| |done|];
      intros Hx; specialize (Hn Hx); intuition.
Qed.

Lemma pop_hashes_ok b hs c : cache_ok c → cache_ok (pop_hashes b hs c).2.
Proof.
  revert c. induction hs as [|h hs IH]; intros c Hc; simpl; [done|].
  pose proof (cache_ok_pop c h b Hc) as Hc'.
  destruct (hc_pop c h b) as [r c']. simpl in Hc'. specialize (IH c' Hc').
  by destruct (pop_hashes b hs c').
Qed.

(** What [_remove_cached_block_hashes] leaves: the block owns no hash and no
    key reaches it; every other block and key is as before. *)
Record unhashed (b : Z) (p p' : pool) : Prop := {
  uh_alloc : same_alloc p p';
  uh_hashes : hashes p' = alter (λ _, None) b (hashes p);
  uh_by_block : cached_block_hashes_by_block p' = delete b (cached_block_hashes_by_block p);
  uh_ok : cache_ok (cached_block_hash_to_block p) → cache_ok (cached_block_hash_to_block p');
  uh_ids : ∀ key x,
    x ∈ cached_ids (cached_block_hash_to_block p') key ↔
    x ∈ cached_ids (cached_block_hash_to_block p) key ∧ (x = b → ¬ owns p b key);
}.

Lemma remove_hashes_run b p :
  is_Some (refs p !! b) →
  ∃ hs p', _remove_cached_block_hashes b p = (Ok hs, p') ∧ unhashed b p p'.
Proof.
  intros Hb. assert (∃ h, hashes p !! b = Some h) as [h Hh] by by apply hashes_dom.
  pose proof (blk_hash _ _ _ Hh) as Hk.
  assert (∀ key, owns p b key ↔ key ∈ option_list h ++ elements (by_block p b)) as Hown.
  { intros key. unfold owns. rewrite Hh, elem_of_app, elem_of_elements.
    destruct h as [h|]; simpl; [rewrite list_elem_of_singleton|rewrite elem_of_nil].
    - split; [intros [[= <-]|[_ ?]]; auto|intros [->|?]; [by left|right; by split]].
    - split; [intros [?|[_ ?]]; [done|by right]|intros [[]|?]; right; by split]. }
  unfold _remove_cached_block_hashes, bind, gets, modify. rewrite Hk.
  case_bool_decide as Hnil; (do 2 eexists; split; [reflexivity|]).
  - assert (h = None) as -> by by destruct h. split; simpl; try done.
    + apply map_eq. intros i. rewrite lookup_alter. case_decide; subst; [|done].
      by rewrite Hh.
    + intros key x. setoid_rewrite Hown. rewrite Hnil. set_solver.
  - split; simpl.
    + unfold same_alloc; simpl. split_and!; try done. exact (refs_set_hash b None None p).
    + exact (hashes_set_hash b None None p).
    + done.
    + apply pop_hashes_ok.
    + intros key x. rewrite pop_hashes_spec. by setoid_rewrite Hown.
Qed.

Lemma unhashed_cache_inv b p p' :
  unhashed b p p' → cache_inv p →
  cache_inv p' ∧ ∀ key, b ∉ cached_ids (cached_block_hash_to_block p') key.
Proof.
  intros [_ Hh Hbb Hok Hids] [Hc Hown].
  assert (∀ key, b ∉ cached_ids (cached_block_hash_to_block p') key) as Hgone.
  { intros key [Hin Hno]%Hids. by apply Hno; [|apply Hown]. }
  split; [|done]. split; [by apply Hok|]. intros key x Hx.
  assert (x ≠ b) by (intros ->; by eapply Hgone).
  apply Hids in Hx as [Hx _]. apply Hown in Hx. unfold owns, by_block in *.
  rewrite Hh, Hbb, lookup_alter_ne, lookup_delete_ne by done. done.
Qed.

(** [_insert_block_hash] keeps the ownership of every entry. *)
Lemma insert_hash_run key b nt p :
  is_Some (refs p !! b) → cache_inv p →
  (block_hash (blk p b) = None → block_hash_num_tokens (blk p b) = None) →
  ∃ p', _insert_block_hash key b nt p = (Ok tt, p') ∧ same_alloc p p' ∧ cache_inv p' ∧
        (owns p' b key) ∧ (∀ x, x ≠ b → hashes p' !! x = hashes p !! x).
Proof.
  intros Hb [Hok Hown] Hnt.
  assert (∃ h, hashes p !! b = Some h) as [h Hh] by by apply hashes_dom.
  pose proof (blk_hash _ _ _ Hh) as Hk.
  unfold _insert_block_hash, bind, gets, modify, ret. rewrite Hk.
  case_bool_decide as Heq.
  { exists p. do 2 (split; [done|]). split; [by split|]. split; [left; congruence|done]. }
  rewrite hc_contain_spec. case_bool_decide as Hin.
  { exists p. do 2 (split; [done|]). split; [by split|]. split; [by apply Hown|done]. }
  case_bool_decide as Hnone.
  - rewrite Hnone in Hh, Hk. unfold ensure. rewrite bool_decide_eq_true_2 by (by apply Hnt).
    eexists; split; [reflexivity|]. simpl.
    assert (hashes (with_cache (hc_insert (cached_block_hash_to_block p) key b)
              (upd_blk b (set_hash_fields (Some key) nt) p)) =
            alter (λ _, Some key) b (hashes p)) as Hh' by apply hashes_set_hash.
    split_and!.
    + unfold same_alloc; simpl. split_and!; try done. exact (refs_set_hash b _ nt p).
    + split; [by apply cache_ok_insert|]. simpl. intros key' x.
      rewrite cached_ids_insert. unfold owns. rewrite Hh', lookup_alter.
      unfold by_block; simpl.
      destruct (decide (key = key')) as [<-|Hne]; [rewrite elem_of_add_id|].
      * intros [->|Hx]; [left; by rewrite decide_True, Hh|].
        case_decide; subst; [by rewrite Hh; left|]. by apply Hown in Hx.
      * intros Hx%Hown. unfold owns, by_block in Hx. case_decide; subst; [|done].
        rewrite Hh in *. right. destruct Hx as [?|[_ ?]]; [done|]. by split.
    + left. by rewrite Hh', lookup_alter_eq, Hh.
    + intros x Hx. by rewrite Hh', lookup_alter_ne.
  - eexists; split; [reflexivity|]. split_and!; [done| | |done].
    + split; [by apply cache_ok_insert|]. simpl. intros key' x.
      rewrite cached_ids_insert. unfold owns, by_block; simpl. rewrite lookup_insert.
      match goal with |- context [hashes ?p'] => change (hashes p') with (hashes p) end.
      destruct (decide (key = key')) as [<-|Hne]; [rewrite elem_of_add_id|].
      * intros [->|Hx]; [right; rewrite decide_True, Hh by done; simpl; set_solver|].
        case_decide; subst; [done|]. by apply Hown in Hx.
      * intros Hx%Hown. unfold owns, by_block in Hx. case_decide; subst; [|done].
        destruct Hx as [?|[? Hx]]; [by left|right]. split; [done|]. simpl. set_solver.
    + right. split; [by exists h|]. unfold by_block; simpl.
      rewrite lookup_insert_eq. simpl. set_solver.
Qed.

(** ** Allocation *)

(** What handing out the blocks [xs] does: each has one reference and no key
    of the prefix cache reaches it; every other block is as before. *)
Record allocated (xs : list Z) (p p' : pool) : Prop := {
  al_num : num_gpu_blocks p' = num_gpu_blocks p;
  al_caching : enable_caching p' = enable_caching p;
  al_refs : ∀ b, refs p' !! b = if decide (b ∈ xs) then Some (1, false) else refs p !! b;
  al_hash : ∀ b, b ∉ xs → hashes p' !! b = hashes p !! b;
  al_ids : ∀ key x, x ∉ xs →
    x ∈ cached_ids (cached_block_hash_to_block p') key ↔
    x ∈ cached_ids (cached_block_hash_to_block p) key;
  al_gone : enable_caching p = true → ∀ b key, b ∈ xs →
    b ∉ cached_ids (cached_block_hash_to_block p') key;
}.

Lemma allocated_nil p : allocated [] p p.
Proof. split; set_solver. Qed.

Lemma allocated_cons b xs p p' p'' :
  allocated [b] p p' → allocated xs p' p'' → allocated (b :: xs) p p''.
Proof.
  intros [Hn Hc Hr Hh Hi Hg] [Hn' Hc' Hr' Hh' Hi' Hg']. split; try congruence.
  - intros x. rewrite Hr', Hr. destruct (decide (x ∈ xs)).
    + by rewrite decide_True by set_solver.
    + by rewrite (decide_ext (x ∈ [b]) (x ∈ b :: xs)) by set_solver.
  - intros x Hx. rewrite Hh', Hh by set_solver. done.
  - intros key x Hx. rewrite Hi', Hi by set_solver. done.
  - intros Hcache x key Hx. destruct (decide (x ∈ xs)); [apply Hg'; congruence|].
    rewrite Hi' by done. apply Hg; [done|set_solver].
Qed.

Lemma new_block_run b l p :
  refs_ok (num_gpu_blocks p) (refs p) (b :: l) → cache_inv p →
  ∃ p', new_block (enable_caching p) b p = (Ok tt, p') ∧
        free_block_queue p' = free_block_queue p ∧
        refs_ok (num_gpu_blocks p') (refs p') l ∧ cache_inv p' ∧ allocated [b] p p'.
Proof.
  intros Hr Hc.
  assert (refs p !! b = Some (0, false)) as Hb by (apply (ro_free _ _ _ Hr); set_solver).
  assert (∃ p1, (when enable_caching p do (_maybe_evict_cached_block b >> ret tt)) p
                = (Ok tt, p1) ∧ same_alloc p p1 ∧ cache_inv p1 ∧
                (∀ x, x ≠ b → hashes p1 !! x = hashes p !! x) ∧
                (∀ key x, x ≠ b → x ∈ cached_ids (cached_block_hash_to_block p1) key ↔
                                  x ∈ cached_ids (cached_block_hash_to_block p) key) ∧
                (enable_caching p = true → ∀ key,
                   b ∉ cached_ids (cached_block_hash_to_block p1) key))
    as (p1 & Hrun & (Hn & Hq & Hrefs & Hcc) & Hc1 & Hh1 & Hi1 & Hg1).
  { destruct (enable_caching p); [|by exists p].
    destruct (remove_hashes_run b p) as (hs & p1 & Hrun & Hu); [by eexists|].
    unfold _maybe_evict_cached_block, bind. rewrite Hrun. simpl. exists p1.
    pose proof (unhashed_cache_inv b p p1 Hu Hc) as [Hc1 Hg1]. destruct Hu as [Ha Hh _ _ Hi].
    do 3 (split; [done|]). split_and!.
    - intros x Hx. by rewrite Hh, lookup_alter_ne.
    - intros key x Hx. rewrite Hi. naive_solver.
    - done. }
  rewrite <-Hrefs in Hb. destruct (blk_refs _ _ _ _ Hb) as [Hk _].
  unfold new_block. repeat run_step.
  eexists; split; [reflexivity|]. split; [exact Hq|].
  assert (∀ p2, p2 = upd_blk b (set_ref_cnt (λ r, r + 1)) p1 →
            refs p2 = alter (bump 1) b (refs p1) ∧ hashes p2 = hashes p1) as Hview.
  { intros p2 ->. split; [apply refs_set_ref|apply hashes_set_ref]. }
  destruct (Hview _ eq_refl) as [Hr2 Hh2]. rewrite Hr2. split_and!.
  - simpl. rewrite Hn, Hrefs. replace l with (filter (λ x, x ≠ b) (b :: l)).
    + apply refs_ok_take; [done|]. rewrite <-Hrefs. by eexists.
    + apply (filter_ne_split b [] l), (ro_nodup _ _ _ Hr).
  - by apply (cache_inv_same_hash p1).
  - split; simpl; try done.
    + intros x. rewrite Hr2, lookup_alter. case_decide; subst.
      * rewrite decide_True by set_solver. by rewrite Hb.
      * rewrite decide_False by set_solver. by rewrite Hrefs.
    + intros x Hx. rewrite Hh2. apply Hh1. set_solver.
    + intros key x Hx. apply Hi1. set_solver.
    + intros Hcache x key ->%list_elem_of_singleton. by apply Hg1.
Qed.

Lemma new_blocks_run xs l p :
  refs_ok (num_gpu_blocks p) (refs p) (xs ++ l) → cache_inv p →
  ∃ p', mfor xs (new_block (enable_caching p)) p = (Ok tt, p') ∧
        free_block_queue p' = free_block_queue p ∧
        refs_ok (num_gpu_blocks p') (refs p') l ∧ cache_inv p' ∧ allocated xs p p'.
Proof.
  revert p. induction xs as [|b xs IH]; intros p Hr Hc.
  { exists p. do 4 (split; [done|]). apply allocated_nil. }
  destruct (new_block_run b (xs ++ l) p Hr Hc) as (p1 & Hrun & Hq & Hr1 & Hc1 & Ha1).
  rewrite (mfor_cons _ _ _ _ _ Hrun). rewrite <-(al_caching _ _ _ Ha1).
  destruct (IH p1 Hr1 Hc1) as (p2 & -> & Hq2 & Hr2 & Hc2 & Ha2).
  exists p2. split; [done|]. split; [congruence|]. do 2 (split; [done|]).
  by eapply allocated_cons.
Qed.

(** [get_new_blocks] takes from the front of the free list. *)
Lemma get_new_blocks_run xs l p :
  pool_inv p (xs ++ l) →
  ∃ p', get_new_blocks (zlen xs) p = (Ok xs, p') ∧ pool_inv p' l ∧ allocated xs p p'.
Proof.
  intros (Hq & Hr & Hc). destruct (popleft_n_rep xs l _ Hq) as (q' & Hpop & Hq').
  assert ((zlen xs <=? get_num_free_blocks p) = true) as Hle.
  { unfold get_num_free_blocks. rewrite (queue_rep_num _ _ Hq), zlen_app.
    pose proof (zlen_nonneg l). lia. }
  destruct (new_blocks_run xs l (with_queue q' p) Hr Hc) as (p' & Hrun & Hqp & Hr' & Hc' & Ha).
  unfold get_new_blocks, on_queue. repeat run_step.
  exists p'. split; [done|]. split; [|by destruct Ha; split].
  split; [by rewrite Hqp|done].
Qed.

Lemma get_new_blocks_short n l p :
  pool_inv p l → zlen l < n → get_new_blocks n p = (Raise ValueError, p).
Proof.
  intros (Hq & _) Hn. unfold get_new_blocks. run_step.
  unfold get_num_free_blocks. rewrite (queue_rep_num _ _ Hq). by run_step.
Qed.

(** ** Taking further references *)

Lemma pool_inv_set_ref p p1 b d l l1 :
  pool_inv p l → same_hash p p1 → queue_rep (free_block_queue p1) l1 →
  num_gpu_blocks p1 = num_gpu_blocks p → refs p1 = refs p →
  refs_ok (num_gpu_blocks p) (alter (bump d) b (refs p)) l1 →
  pool_inv (upd_blk b (set_ref_cnt (λ r, r + d)) p1) l1.
Proof.
  intros (_ & _ & Hc) Hs Hq Hn Hr Hok. split; [done|]. split.
  - rewrite refs_set_ref, Hr. simpl. by rewrite Hn.
  - eapply cache_inv_same_hash; [|done]. etrans; [done|].
    split; [apply hashes_set_ref|done].
Qed.

Lemma touch_block_run b l p :
  pool_inv p l → is_Some (refs p !! b) →
  ∃ p', touch_block b p = (Ok tt, p') ∧ pool_inv p' (filter (λ x, x ≠ b) l) ∧
        refs p' = alter (bump 1) b (refs p) ∧ same_hash p p' ∧
        num_gpu_blocks p' = num_gpu_blocks p ∧ enable_caching p' = enable_caching p.
Proof.
  intros Hinv [[r nul] Hb]. pose proof Hinv as (Hq & Hr & Hc).
  destruct (blk_refs _ _ _ _ Hb) as [Hrc Hnul].
  assert (∃ q', (when ((r =? 0) && negb nul) do on_queue (FreeQueue.remove b)) p
                = (Ok tt, with_queue q' p) ∧ queue_rep q' (filter (λ x, x ≠ b) l))
    as (q' & Hrun & Hq').
  { destruct ((r =? 0) && negb nul) eqn:E.
    - apply andb_prop in E as [->%Z.eqb_eq ->%negb_true_iff].
      apply (ro_free _ _ _ Hr) in Hb as (l1 & l2 & ->)%list_elem_of_split.
      destruct (remove_rep _ _ _ _ Hq) as (q' & Hrem & Hq').
      exists q'. split; [by apply zoom_ok|].
      rewrite filter_ne_split by apply (ro_nodup _ _ _ Hr). done.
    - exists (free_block_queue p). split; [by destruct p|]. rewrite filter_id; [done|].
      intros x Hx ->. apply (ro_free _ _ _ Hr) in Hx. rewrite Hb in Hx. by injection Hx as -> ->. }
  unfold touch_block. run_step. rewrite Hrc, Hnul. run_step.
  eexists; split; [reflexivity|].
  split; [|split; [exact (refs_set_ref b 1 p)|]; split; [|done]].
  - eapply pool_inv_set_ref; [done|done|done|done|done|].
    apply refs_ok_take; [done|]. by eexists.
  - split; [exact (hashes_set_ref b _ p)|done].
Qed.

Lemma touch_run bs l p :
  pool_inv p l → (∀ b, b ∈ bs → is_Some (refs p !! b)) →
  ∃ p', touch bs p = (Ok tt, p') ∧ pool_inv p' (filter (λ x, x ∉ bs) l) ∧
        same_hash p p' ∧ refs p' = foldl (λ m b, alter (bump 1) b m) (refs p) bs ∧
        num_gpu_blocks p' = num_gpu_blocks p ∧ enable_caching p' = enable_caching p.
Proof.
  unfold touch. revert l p. induction bs as [|b bs IH]; intros l p Hinv Hbs.
  { exists p. rewrite filter_id by set_solver. done. }
  destruct (touch_block_run b l p) as (p1 & Hrun & Hinv1 & Hr1 & Hs1 & Hn1 & Hc1);
    [done|set_solver|].
  rewrite (mfor_cons _ _ _ _ _ Hrun).
  destruct (IH (filter (λ x, x ≠ b) l) p1) as (p2 & Hrun2 & Hinv2 & Hs2 & Hr2 & Hn2 & Hc2);
    [done| |].
  { intros x Hx. rewrite Hr1, bump_dom. apply Hbs. set_solver. }
  exists p2. split; [done|]. split; [|split_and!; [by etrans|by rewrite Hr2, Hr1|congruence|congruence]].
  rewrite list_filter_filter in Hinv2.
  erewrite list_filter_iff; [done|]. set_solver.
Qed.

(** ** Dropping references *)

(** How often [b] occurs in [bs]. *)
Definition occ (b : Z) (bs : list Z) : Z := zlen (filter (λ x, x = b) bs).

(** The caller holds the references it drops. *)
Definition releasable (m : gmap Z (Z * bool)) (bs : list Z) : Prop :=
  ∀ b, b ∈ bs → ∃ r nul, m !! b = Some (r, nul) ∧ (nul = true ∨ occ b bs ≤ r).

Definition drop_refs (bs : list Z) (m : gmap Z (Z * bool)) : gmap Z (Z * bool) :=
  foldl (λ m b, alter (bump (-1)) b m) m bs.

(** Freed blocks the queue hands out first: those no cache key reaches. *)
Definition evict_first (p : pool) (b : Z) : Prop :=
  hashes p !! b = Some None ∨ enable_caching p = false.

Lemma occ_cons b x bs : occ b (x :: bs) = (if decide (x = b) then 1 else 0) + occ b bs.
Proof. unfold occ. rewrite filter_cons. case_decide; [rewrite zlen_cons|]; lia. Qed.

Lemma releasable_tail m b bs :
  releasable m (b :: bs) → releasable (alter (bump (-1)) b m) bs.
Proof.
  intros H x Hx. destruct (H x) as (r & nul & Hm & Hc); [set_solver|].
  rewrite occ_cons in Hc. exists (if decide (b = x) then r - 1 else r), nul.
  rewrite bump_lookup. split.
  - rewrite Hm. case_decide; repeat f_equal; lia.
  - destruct Hc as [->|Hc]; [by left|right]. case_decide; subst; lia.
Qed.

Lemma releasable_head m b bs :
  releasable m (b :: bs) → ∃ r nul, m !! b = Some (r, nul) ∧ (nul = true ∨ 1 ≤ r).
Proof.
  intros H. destruct (H b) as (r & nul & Hm & Hc); [set_solver|].
  exists r, nul. split; [done|]. rewrite occ_cons, decide_True in Hc by done.
  destruct Hc as [->|Hc]; [by left|right]. pose proof (zlen_nonneg (filter (λ x, x = b) bs)).
  unfold occ in Hc. lia.
Qed.

(** One reference dropped: [b] joins [first], [last] or neither. *)
Lemma drop_ref_ok n m b bs first free last :
  refs_ok n m (first ++ free ++ last) → releasable m (b :: bs) →
  let m' := alter (bump (-1)) b m in
  ∃ r nul, m' !! b = Some (r, nul) ∧
    if (r =? 0) && negb nul
    then refs_ok n m' ((first ++ [b]) ++ free ++ last) ∧
         refs_ok n m' (first ++ free ++ last ++ [b])
    else refs_ok n m' (first ++ free ++ last).
Proof.
  intros Hok (r & nul & Hm & Hc)%releasable_head m'. exists (r - 1), nul. subst m'.
  split. { apply bump_lookup. rewrite decide_True by done. rewrite Hm. repeat f_equal; lia. }
  destruct ((r - 1 =? 0) && negb nul) eqn:E.
  - apply andb_prop in E as [Hr%Z.eqb_eq ->%negb_true_iff].
    assert (r = 1) as -> by lia. pose proof (refs_ok_drop_last _ _ _ Hok b Hm) as Hok'.
    split; (eapply refs_ok_perm; [exact Hok'|]); rewrite <-!(assoc app); [|done].
    f_equiv. rewrite (assoc app free last [b]). by rewrite (Permutation_app_comm _ [b]).
  - eapply refs_ok_drop_more; [done|done|]. destruct nul; [by left|right].
    destruct Hc as [?|Hc]; [done|]. rewrite andb_true_r in E. apply Z.eqb_neq in E. lia.
Qed.

(** What the loop of [free_blocks] does besides growing its two lists by
    [fs] and [ls]. *)
Definition dropped (fs ls bs : list Z) (p p' : pool) : Prop :=
  num_gpu_blocks p' = num_gpu_blocks p ∧ enable_caching p' = enable_caching p ∧
  free_block_queue p' = free_block_queue p ∧ same_hash p p' ∧
  refs p' = drop_refs bs (refs p) ∧
  Forall (evict_first p) fs ∧ Forall (λ b, ¬ evict_first p b) ls.

Lemma dropped_step fs ls b bs p p' :
  dropped fs ls bs (upd_blk b (set_ref_cnt (λ r, r - 1)) p) p' →
  dropped fs ls (b :: bs) p p'.
Proof.
  intros (Hn & Hc & Hq & (Hh & Hs) & Hr & Hf & Hl).
  pose proof (hashes_set_ref b (λ r, r - 1) p) as Hh1.
  unfold evict_first in Hf, Hl. rewrite Hh1 in Hf, Hl. split_and!; try done.
  - split; [by rewrite Hh, Hh1|done].
  - rewrite Hr. unfold drop_refs. simpl. f_equal. exact (refs_set_ref b (-1) p).
Qed.

Lemma free_loop_run bs first free last p :
  refs_ok (num_gpu_blocks p) (refs p) (first ++ free ++ last) →
  releasable (refs p) bs →
  ∃ fs ls p',
    free_loop bs first last p = (Ok (first ++ fs, last ++ ls), p') ∧
    refs_ok (num_gpu_blocks p) (refs p') ((first ++ fs) ++ free ++ (last ++ ls)) ∧
    dropped fs ls bs p p'.
Proof.
  revert first last p. induction bs as [|b bs IH]; intros first last p Hr Hrel.
  { exists [], [], p. rewrite !app_nil_r. do 2 (split; [done|]). by split_and!. }
  destruct (drop_ref_ok _ _ _ _ _ _ _ Hr Hrel) as (r & nul & Hb & Hcase).
  pose proof (releasable_tail _ _ _ Hrel) as Hrel'.
  set (p1 := upd_blk b (set_ref_cnt (λ r, r - 1)) p).
  assert (refs p1 = alter (bump (-1)) b (refs p)) as Hr1 by exact (refs_set_ref b (-1) p).
  rewrite <-Hr1 in *. destruct (blk_refs _ _ _ _ Hb) as [Hrc Hnul].
  assert (∃ h, hashes p1 !! b = Some h) as [h Hh] by (apply hashes_dom; by eexists).
  pose proof (blk_hash _ _ _ Hh) as Hbh.
  assert (hashes p !! b = Some h) as Hh0
    by (rewrite <-Hh; symmetry; f_equal; exact (hashes_set_ref b _ p)).
  simpl free_loop. do 3 run_step. fold p1. rewrite Hrc, Hnul, Hbh.
  destruct ((r =? 0) && negb nul).
  - destruct Hcase as [Hc1 Hc2]. case_match eqn:E.
    + destruct (IH _ _ p1 Hc1 Hrel') as (fs & ls & p' & -> & Hok & Hd%dropped_step).
      exists (b :: fs), ls, p'. rewrite <-(assoc app first [b] fs) in Hok |- *.
      do 2 (split; [done|]). unfold dropped in *. rewrite Forall_cons.
      assert (evict_first p b); [|tauto].
      apply orb_prop in E as [->%bool_decide_eq_true|E%negb_true_iff]; [by left|by right].
    + destruct (IH _ _ p1 Hc2 Hrel') as (fs & ls & p' & -> & Hok & Hd%dropped_step).
      exists fs, (b :: ls), p'. rewrite <-(assoc app last [b] ls) in Hok |- *.
      do 2 (split; [done|]). unfold dropped in *. rewrite Forall_cons.
      assert (¬ evict_first p b); [|tauto].
      apply orb_false_elim in E as [Hh'%bool_decide_eq_false E%negb_false_iff].
      unfold evict_first. rewrite Hh0. intros [?|?]; [congruence|].
      change (enable_caching p1) with (enable_caching p) in E. congruence.
  - destruct (IH _ _ p1 Hcase Hrel') as (fs & ls & p' & -> & Hok & Hd%dropped_step).
    by exists fs, ls, p'.
Qed.

(** [free_blocks]: the blocks that lost their last reference enter the queue,
    those without a reusable hash at the front, the others at the back. *)
Lemma free_blocks_run bs free p :
  pool_inv p free → releasable (refs p) bs →
  ∃ fs ls p',
    free_blocks bs p = (Ok tt, p') ∧ pool_inv p' (fs ++ free ++ ls) ∧
    num_gpu_blocks p' = num_gpu_blocks p ∧ enable_caching p' = enable_caching p ∧
    same_hash p p' ∧ refs p' = drop_refs bs (refs p) ∧
    Forall (evict_first p) fs ∧ Forall (λ b, ¬ evict_first p b) ls.
Proof.
  intros (Hq & Hr & Hc) Hrel.
  destruct (free_loop_run bs [] free [] p) as
    (fs & ls & p1 & Hrun & Hok & Hn & Hca & Hqe & Hs & Hrf & Hfs & Hls);
    [by rewrite app_nil_r|done|]. simpl in *.
  pose proof (refs_ok_real_ids _ _ _ Hok) as Hids.
  assert (real_ids (fs ++ free)) as Hids1.
  { eapply real_ids_sublist; [|done]. rewrite (assoc app). by apply sublist_inserts_r. }
  rewrite <-Hqe in Hq.
  destruct (prepend_n_rep fs free _ Hq Hids1) as (q1 & Hpre & Hq1).
  destruct (append_n_rep ls (fs ++ free) q1 Hq1) as (q2 & Happ & Hq2);
    [by rewrite <-(assoc app)|].
  exists fs, ls, (with_queue q2 (with_queue q1 p1)).
  unfold free_blocks, on_queue. do 2 run_step. erewrite zoom_ok by exact Happ.
  split; [done|]. split; [|done].
  split; [by rewrite <-(assoc app) in Hq2|]. simpl. rewrite Hn. split; [done|].
  by eapply cache_inv_same_hash.
Qed.

(** ** Eviction, hash moves and resets *)

Lemma pool_inv_same_alloc p p' l :
  pool_inv p l → same_alloc p p' → cache_inv p' → pool_inv p' l.
Proof. intros (Hq & Hr & _) (Hn & Hq' & Hr' & _) Hc. unfold pool_inv. by rewrite Hn, Hq', Hr'. Qed.

(** [keeps p l]: the hash bookkeeping changed at most, and consistently. *)
Definition keeps (p : pool) (l : list Z) (p' : pool) : Prop :=
  pool_inv p' l ∧ same_alloc p p'.

Lemma keeps_refl p l : pool_inv p l → keeps p l p.
Proof. by split. Qed.
Lemma keeps_trans p l p1 p2 : keeps p l p1 → keeps p1 l p2 → keeps p l p2.
Proof. intros [_ ?] [? ?]. split; [done|by etrans]. Qed.

Lemma remove_hashes_keeps b p l :
  pool_inv p l → is_Some (refs p !! b) →
  ∃ hs p', _remove_cached_block_hashes b p = (Ok hs, p') ∧ keeps p l p' ∧
           ∀ key, b ∉ cached_ids (cached_block_hash_to_block p') key.
Proof.
  intros Hinv Hb. destruct (remove_hashes_run b p Hb) as (hs & p' & Hrun & Hu).
  destruct (unhashed_cache_inv b p p' Hu) as [Hc Hg]; [apply Hinv|].
  destruct Hu as [Ha _ _ _ _]. exists hs, p'. split; [done|].
  split; [|done]. split; [by eapply pool_inv_same_alloc|done].
Qed.

Lemma insert_hash_keeps key b nt p l :
  pool_inv p l → is_Some (refs p !! b) →
  wp (_insert_block_hash key b nt) (λ _, keeps p l) (λ _, keeps p l) p.
Proof.
  intros Hinv Hb. pose proof Hinv as (_ & _ & Hc).
  pose proof (keeps_refl _ _ Hinv) as Hp.
  destruct (decide (block_hash (blk p b) = None → block_hash_num_tokens (blk p b) = None))
    as [Hnt|Hnt].
  - destruct (insert_hash_run key b nt p Hb Hc Hnt) as (p' & Hrun & Ha & Hc' & _).
    unfold wp. rewrite Hrun. split; [by eapply pool_inv_same_alloc|done].
  - unfold _insert_block_hash. wp_steps; try done.
    + rewrite bool_decide_eq_true in *. tauto.
    + rewrite bool_decide_eq_false in *. tauto.
Qed.

Lemma move_block_hashes_keeps src dst p l :
  pool_inv p l → is_Some (refs p !! src) → is_Some (refs p !! dst) →
  wp (move_block_hashes src dst) (λ _, keeps p l) (λ _, keeps p l) p.
Proof.
  intros Hinv Hs Hd. pose proof (keeps_refl _ _ Hinv) as Hp.
  unfold move_block_hashes. do 6 wp_step; [|done]. do 2 wp_step; [|done]. do 3 wp_step.
  destruct (remove_hashes_keeps src p l Hinv Hs) as (hs & p1 & Hrun & Hk & _).
  unfold wp at 1. rewrite Hrun. apply wp_mfor_inv; [done|].
  intros h p2 _ Hk2. eapply wp_mono; [eapply insert_hash_keeps; [apply Hk2|]| |].
  - destruct Hk2 as [_ (_ & _ & -> & _)]. done.
  - intros ? p3. by apply keeps_trans.
  - intros ? p3. by apply keeps_trans.
Qed.

Lemma block_at_dom p l i b : pool_inv p l → block_at p i = Ok b → is_Some (refs p !! b).
Proof.
  intros (_ & Hr & _). unfold block_at. case_match eqn:E; [|done]. intros [= <-].
  apply (ro_dom _ _ _ Hr). apply andb_prop in E as [?%Z.leb_le ?%Z.ltb_lt]. done.
Qed.

(** [evict_blocks] unhashes every listed block; an id beyond the pool raises. *)
Lemma evict_blocks_keeps ids p l :
  pool_inv p l → wp (evict_blocks ids) (λ _, keeps p l) (λ _, keeps p l) p.
Proof.
  intros Hinv. apply wp_mfor_inv; [by apply keeps_refl|]. intros i p1 _ Hk. do 4 wp_step; [|done].
  do 4 wp_step. destruct (block_at p1 i) as [b|] eqn:Hb; [|done].
  destruct (remove_hashes_keeps b p1 l) as (hs & p2 & Hrun & Hk2 & _);
    [apply Hk|by eapply block_at_dom, Hb; apply Hk|].
  wp_step. unfold _maybe_evict_cached_block. wp_step. unfold wp at 1. rewrite Hrun.
  do 2 wp_step. by eapply keeps_trans.
Qed.

(** On ids of the pool it succeeds and no cache key reaches them any more. *)
Lemma evict_blocks_run ids p l :
  pool_inv p l → Forall (λ i, 0 ≤ i < num_gpu_blocks p) ids →
  ∃ p', evict_blocks ids p = (Ok tt, p') ∧ keeps p l p' ∧
    ∀ key x, x ∈ cached_ids (cached_block_hash_to_block p') key ↔
             x ∈ cached_ids (cached_block_hash_to_block p) key ∧ x ∉ ids.
Proof.
  intros Hinv Hids. revert p Hinv Hids. induction ids as [|i ids IH]; intros p Hinv Hids.
  { exists p. split; [done|]. split; [by apply keeps_refl|]. set_solver. }
  apply Forall_cons in Hids as [Hi Hids]. pose proof Hinv as (_ & Hr & Hc).
  assert (is_Some (refs p !! i)) as Hsome by by apply (ro_dom _ _ _ Hr).
  destruct (remove_hashes_run i p Hsome) as (hs & p1 & Hrun & Hu).
  destruct (unhashed_cache_inv i p p1 Hu Hc) as [Hc1 _].
  assert (keeps p l p1) as Hk1.
  { split; [eapply pool_inv_same_alloc; [done|apply Hu|done]|apply Hu]. }
  destruct (IH p1) as (p2 & Hrun2 & Hk2 & Hids2); [apply Hk1| |].
  { destruct Hk1 as [_ (-> & _)]. done. }
  exists p2. split; [|split; [by eapply keeps_trans|]].
  - unfold evict_blocks. erewrite mfor_cons; [exact Hrun2|]. do 2 run_step. run_step.
    erewrite bind_ok.
    2: { unfold lift, block_at. destruct (i <? 0) eqn:E; [lia|].
         rewrite (proj2 (andb_true_iff _ _)); [done|]. split; [apply Z.leb_le|apply Z.ltb_lt]; lia. }
    cbn beta. unfold _maybe_evict_cached_block. unfold bind at 1 2. by rewrite Hrun.
  - intros key x. rewrite Hids2, (uh_ids _ _ _ Hu), not_elem_of_cons. split; [|naive_solver].
    intros [[Hx Hne] Hx2]. split; [done|]. split; [|done]. intros ->. apply Hne; [done|]. by apply Hc.
Qed.

Lemma cache_inv_empty p :
  cached_block_hash_to_block p = ∅ → cache_inv p.
Proof.
  intros Hc. unfold cache_inv, cached_ids, cache_ok. rewrite Hc. split.
  - intros key e. by rewrite lookup_empty.
  - intros key b. rewrite lookup_empty. set_solver.
Qed.

(** [reset_prefix_cache] succeeds exactly when only the null block is in use. *)
Lemma reset_prefix_cache_run p l :
  pool_inv p l →
  ∃ p', reset_prefix_cache p = (Ok (bool_decide (num_gpu_blocks p - zlen l = 1)), p') ∧
        keeps p l p' ∧
        (num_gpu_blocks p - zlen l = 1 → cached_block_hash_to_block p' = ∅ ∧
           ∀ b h, hashes p' !! b = Some h → h = None).
Proof.
  intros Hinv. pose proof Hinv as (Hq & Hr & Hc). unfold reset_prefix_cache. run_step.
  unfold get_num_free_blocks. rewrite (queue_rep_num _ _ Hq).
  destruct (num_gpu_blocks p - zlen l =? 1) eqn:E; simpl.
  - apply Z.eqb_eq in E. rewrite bool_decide_eq_true_2 by done. repeat run_step.
    eexists; split; [reflexivity|].
    match goal with |- keeps _ _ ?q ∧ _ => assert (same_alloc p q) as Ha end.
    { unfold same_alloc. split_and!; try done. unfold refs. simpl.
      rewrite <-map_fmap_compose. done. }
    split; [split; [eapply pool_inv_same_alloc; [done..|by apply cache_inv_empty]|done]|].
    intros _. split; [done|]. intros b h. unfold hashes. simpl.
    rewrite !lookup_fmap. destruct (blocks p !! b); simpl; naive_solver.
  - apply Z.eqb_neq in E. rewrite bool_decide_eq_false_2 by done.
    exists p. split; [done|]. split; [by apply keeps_refl|done].
Qed.

Lemma refs_list_to_map (l : list Z) b (f : Z → block) :
  (list_to_map ((λ i, (i, f i)) <$> l) : gmap Z block) !! b =
  if decide (b ∈ l) then Some (f b) else None.
Proof.
  induction l as [|x l IH]; csimpl; [by rewrite lookup_empty|].
  rewrite lookup_insert, IH. destruct (decide (x = b)) as [->|].
  - by rewrite decide_True by set_solver.
  - by rewrite (decide_ext (b ∈ l) (b ∈ x :: l)) by set_solver.
Qed.

(** [BlockPool.__init__]: all blocks but the null block 0 are free, in order. *)
Lemma pool_init_run n caching hbs :
  0 < n →
  ∃ p, pool_init n caching hbs = Ok p ∧ pool_inv p (zrange 1 n) ∧
       num_gpu_blocks p = n ∧ enable_caching p = caching ∧
       ∀ b, 0 ≤ b < n → refs p !! b = Some (0, bool_decide (b = 0)).
Proof.
  intros Hn. unfold pool_init. destruct (0 <? n) eqn:E; [|lia].
  assert (zrange 0 n = 0 :: zrange 1 n) as Hz.
  { unfold zrange. replace (Z.to_nat (n - 0)) with (S (Z.to_nat (n - 1))) by lia.
    simpl. f_equal. rewrite <-fmap_S_seq, <-list_fmap_compose.
    apply list_fmap_ext. intros i x _. simpl. lia. }
  assert (queue_rep (fq_init (zrange 0 n)) (zrange 0 n)) as Hq.
  { apply fq_init_rep. split; [apply NoDup_zrange|]. intros b ?%elem_of_zrange. lia. }
  rewrite Hz in Hq at 2. destruct (popleft_rep _ _ _ Hq) as (q' & -> & Hq').
  eexists; split; [reflexivity|]. set (p := Pool _ _ _ _ _ _ _).
  assert (∀ b, refs p !! b =
            if decide (0 ≤ b < n) then Some (0, bool_decide (b = 0)) else None) as Href.
  { intros b. unfold refs, p. simpl.
    rewrite lookup_fmap, lookup_alter, !refs_list_to_map.
    assert (∀ x, x ∈ zrange 0 n ↔ 0 ≤ x < n) as Hdom by (intros; apply elem_of_zrange).
    destruct (decide (0 ≤ b < n)) as [Hb|Hb].
    - rewrite (decide_True (P:=b ∈ _)) by by apply Hdom.
      destruct (decide (0 = b)) as [<-|]; simpl; [by rewrite decide_True by by apply Hdom|].
      by rewrite bool_decide_eq_false_2 by done.
    - rewrite (decide_False (P:=b ∈ _)) by by rewrite Hdom.
      destruct (decide (0 = b)) as [<-|]; simpl; [lia|done]. }
  split_and!; [|done|done|by intros b Hb; rewrite Href, decide_True].
  split; [done|]. split; [|by apply cache_inv_empty]. split; try done.
  - intros b. rewrite Href. case_decide; split; [done|by eexists|by intros []|done].
  - apply NoDup_zrange.
  - intros b. rewrite Href, elem_of_zrange. case_decide; [|split; [lia|done]].
    case_bool_decide; split; intros; simplify_eq; try done; lia.
  - intros b r. rewrite Href. case_decide; [|done]. intros; simplify_eq. lia.
  - intros b r nul. rewrite Href. case_decide; [|done]. intros; simplify_eq.
    by rewrite bool_decide_eq_true.
Qed.

(** ** Reachable pools

    The calls a scheduler makes on its pool, with the discipline it follows:
    a caller names blocks of the pool and drops only references it holds. *)
Inductive pool_call (p p' : pool) : Prop :=
  | call_new n r : 0 ≤ n → get_new_blocks n p = (r, p') → pool_call p p'
  | call_touch bs r : (∀ b, b ∈ bs → is_Some (refs p !! b)) →
      touch bs p = (r, p') → pool_call p p'
  | call_free bs r : releasable (refs p) bs → free_blocks bs p = (r, p') → pool_call p p'
  | call_evict ids r : evict_blocks ids p = (r, p') → pool_call p p'
  | call_reset r : reset_prefix_cache p = (r, p') → pool_call p p'
  | call_insert key b nt r : is_Some (refs p !! b) →
      _insert_block_hash key b nt p = (r, p') → pool_call p p'
  | call_move src dst r : is_Some (refs p !! src) → is_Some (refs p !! dst) →
      move_block_hashes src dst p = (r, p') → pool_call p p'.

Inductive pool_reachable (n : Z) (caching : bool) : pool → Prop :=
  | reach_init hbs p : pool_init n caching hbs = Ok p → pool_reachable n caching p
  | reach_call p p' : pool_reachable n caching p → pool_call p p' → pool_reachable n caching p'.

Lemma wp_keeps_run {A} (m : M pool A) p l r p' :
  wp m (λ _, keeps p l) (λ _, keeps p l) p → m p = (r, p') → keeps p l p'.
Proof. unfold wp. intros H Hm. rewrite Hm in H. by destruct r. Qed.

Lemma pool_call_inv p p' l :
  pool_inv p l → pool_call p p' →
  (∃ l', pool_inv p' l') ∧ num_gpu_blocks p' = num_gpu_blocks p ∧
  enable_caching p' = enable_caching p.
Proof.
  intros Hinv Hcall.
  assert (∀ q, keeps p l q → (∃ l', pool_inv q l') ∧
            num_gpu_blocks q = num_gpu_blocks p ∧ enable_caching q = enable_caching p)
    as Hkeep by (intros q [? (?&?&?&?)]; eauto).
  destruct Hcall as [n r Hn Hrun|bs r Hbs Hrun|bs r Hbs Hrun|ids r Hrun|r Hrun
                    |key b nt r Hb Hrun|src dst r Hs Hd Hrun].
  - destruct (decide (n ≤ zlen l)) as [Hle|Hle].
    + rewrite <-(take_drop (Z.to_nat n) l) in Hinv.
      destruct (get_new_blocks_run _ _ _ Hinv) as (q & Hq & Hi & Ha).
      assert (zlen (take (Z.to_nat n) l) = n) as Ht
        by (unfold zlen in *; rewrite length_take; lia).
      rewrite Ht, Hrun in Hq. simplify_eq. split; [eauto|]. split; apply Ha.
    + rewrite (get_new_blocks_short n l p) in Hrun by (done || lia). simplify_eq. eauto.
  - destruct (touch_run bs l p Hinv Hbs) as (q & Hq & Hi & _ & _ & Hn & Hc).
    rewrite Hrun in Hq. simplify_eq. eauto.
  - destruct (free_blocks_run bs l p Hinv Hbs) as (fs & ls & q & Hq & Hi & Hn & Hc & _).
    rewrite Hrun in Hq. simplify_eq. eauto.
  - by eapply Hkeep, wp_keeps_run, Hrun; apply evict_blocks_keeps.
  - destruct (reset_prefix_cache_run p l Hinv) as (q & Hq & Hk & _).
    rewrite Hrun in Hq. simplify_eq. eauto.
  - by eapply Hkeep, wp_keeps_run, Hrun; apply insert_hash_keeps.
  - by eapply Hkeep, wp_keeps_run, Hrun; apply move_block_hashes_keeps.
Qed.

Lemma pool_reachable_inv n caching p :
  pool_reachable n caching p →
  (∃ l, pool_inv p l) ∧ num_gpu_blocks p = n ∧ enable_caching p = caching.
Proof.
  induction 1 as [hbs p Hp|p p' _ IH Hcall].
  - destruct (decide (0 < n)) as [Hn|Hn].
    + destruct (pool_init_run n caching hbs Hn) as (q & Hq & ? & ? & ? & _).
      rewrite Hp in Hq. simplify_eq. eauto.
    + unfold pool_init in Hp. destruct (0 <? n) eqn:E; [lia|done].
  - destruct IH as ((l & Hl) & Hn & Hc).
    destruct (pool_call_inv p p' l Hl Hcall) as (Hl' & Hn' & Hc').
    split; [done|]. by rewrite Hn', Hc'.
Qed.

(** ** The properties *)

(** On every reachable pool, [get_new_blocks n] either returns [n] distinct
    blocks that nobody referenced, each now with exactly one reference and (with
    caching on) unreachable through the prefix cache, leaving every other
    reference count alone; or, when fewer than [n] blocks are free, it raises
    [ValueError] and changes nothing.  No other exception is possible. *)
Theorem get_new_blocks_safe size caching p n :
  pool_reachable size caching p → 0 ≤ n →
  if n <=? get_num_free_blocks p then
    ∃ xs p', get_new_blocks n p = (Ok xs, p') ∧ zlen xs = n ∧ NoDup xs ∧
      get_num_free_blocks p' = get_num_free_blocks p - n ∧
      (∀ b, b ∈ xs → refs p !! b = Some (0, false)) ∧
      (∀ b, refs p' !! b = if decide (b ∈ xs) then Some (1, false) else refs p !! b) ∧
      (caching = true → ∀ b key, b ∈ xs →
         b ∉ cached_ids (cached_block_hash_to_block p') key)
  else get_new_blocks n p = (Raise ValueError, p).
Proof.
  intros ((l & Hinv) & _ & Hc)%pool_reachable_inv Hn.
  pose proof Hinv as (Hq & Hr & _). unfold get_num_free_blocks at 1.
  rewrite (queue_rep_num _ _ Hq). destruct (n <=? zlen l) eqn:E.
  - rewrite <-(take_drop (Z.to_nat n) l) in Hinv.
    destruct (get_new_blocks_run _ _ _ Hinv) as (p' & Hrun & (Hq' & _) & Ha).
    assert (zlen (take (Z.to_nat n) l) = n) as Ht
      by (unfold zlen in *; rewrite length_take; lia).
    rewrite Ht in Hrun. do 2 eexists. split; [exact Hrun|]. split; [done|].
    unfold get_num_free_blocks. rewrite (queue_rep_num _ _ Hq), (queue_rep_num _ _ Hq').
    split_and!.
    + eapply sublist_NoDup; [apply (ro_nodup _ _ _ Hr)|apply sublist_take].
    + unfold zlen in *. rewrite length_drop. lia.
    + intros b Hb. apply (ro_free _ _ _ Hr). by eapply elem_of_take in Hb as (? & ?%list_elem_of_lookup_2 & _).
    + apply Ha.
    + rewrite <-Hc. apply Ha.
  - apply (get_new_blocks_short n l); [done|lia].
Qed.

(** C30: on every reachable pool the pointer walk of the free queue terminates
    within the number of blocks and lists, without repetition, exactly the
    non-null blocks with reference count 0, as many as [num_free_blocks] says;
    the null block 0 is never among them. *)
Theorem free_queue_lists_unreferenced size caching p fuel :
  pool_reachable size caching p → size < Z.of_nat fuel →
  ∃ l, get_all_free_blocks fuel (free_block_queue p) = Ok (Some l) ∧ NoDup l ∧
       zlen l = get_num_free_blocks p ∧ 0 ∉ l ∧
       ∀ b, b ∈ l ↔ 0 < b < size ∧ ref_cnt (blk p b) = 0.
Proof.
  intros ((l & Hq & Hr & _) & Hn & _)%pool_reachable_inv Hf. exists l.
  assert (∀ b, b ∈ l → 0 < b < size) as Hdom
    by (rewrite <-Hn; intros; by eapply refs_ok_free_dom).
  assert (zlen l ≤ size).
  { rewrite <-(Z.sub_0_r size), <-(Z.max_r 0 (size - 0)), <-zrange_length
      by (pose proof (ro_pos _ _ _ Hr); lia).
    unfold zlen. apply inj_le, submseteq_length, NoDup_submseteq; [apply Hr|].
    intros b ?%Hdom. apply elem_of_zrange. lia. }
  split_and!.
  - apply get_all_free_blocks_rep; [done|]. unfold zlen in *. lia.
  - apply Hr.
  - symmetry. by apply queue_rep_num.
  - intros ?%Hdom. lia.
  - intros b. split.
    + intros Hb. split; [by apply Hdom|]. apply (ro_free _ _ _ Hr) in Hb.
      by apply blk_refs in Hb as [? _].
    + intros [Hb Hz]. apply (ro_free _ _ _ Hr).
      assert (is_Some (refs p !! b)) as [[r nul] Hrb] by (apply (ro_dom _ _ _ Hr); lia).
      pose proof (blk_refs _ _ _ _ Hrb) as [Hr0 _].
      destruct nul; [|by rewrite Hrb; repeat f_equal; congruence].
      apply (ro_null _ _ _ Hr) in Hrb as [Hnull _]. specialize (Hnull eq_refl). lia.
Qed.

(** Releasing references that are held never raises; every block that loses
    its last reference enters the free queue, the ones without a cached hash in
    front of all blocks that were already free (handed out next) and the ones
    the prefix cache can still serve behind them (handed out last); cached
    contents and hashes stay as they are. *)
Theorem free_blocks_order size caching p bs :
  pool_reachable size caching p → releasable (refs p) bs →
  ∃ l fs ls p', free_blocks bs p = (Ok tt, p') ∧
    queue_rep (free_block_queue p) l ∧
    queue_rep (free_block_queue p') (fs ++ l ++ ls) ∧
    Forall (evict_first p) fs ∧ Forall (λ b, ¬ evict_first p b) ls ∧
    refs p' = drop_refs bs (refs p) ∧ same_hash p p'.
Proof.
  intros ((l & Hinv) & _ & _)%pool_reachable_inv Hrel.
  destruct (free_blocks_run bs l p Hinv Hrel)
    as (fs & ls & p' & Hrun & (Hq' & _) & _ & _ & Hs & Hrr & Hf & Hl).
  exists l, fs, ls, p'. split; [done|]. split; [apply Hinv|done].
Qed.

(** A prefix-cache hit is sound on every reachable pool: the blocks
    [get_cached_block] returns (one per group) carry that very hash and group
    id, as their primary or one of their secondary hashes. *)
Theorem get_cached_block_owned size caching p h groups bs :
  pool_reachable size caching p →
  get_cached_block h groups p = Ok (Some bs) →
  Forall2 (λ g b, ∃ key, make_block_hash_with_group_id h g = Ok key ∧ owns p b key)
    groups bs.
Proof.
  intros ((l & _ & _ & Hok & Hown) & _ & _)%pool_reachable_inv. unfold get_cached_block.
  assert (∀ acc gs, cached_of_groups h p gs acc = Ok (Some bs) → ∃ bs', bs = acc ++ bs' ∧
     Forall2 (λ g b, ∃ key, make_block_hash_with_group_id h g = Ok key ∧ owns p b key) gs bs')
    as Hgo; [|by intros (bs' & -> & ?)%Hgo].
  intros acc gs. revert acc. induction gs as [|g gs IH]; intros acc.
  - intros [= <-]. exists []. by rewrite app_nil_r.
  - cbn [cached_of_groups]. unfold result_bind. destruct (make_block_hash_with_group_id h g) as [key|] eqn:Ek; [|done].
    rewrite hc_get_one_spec.
    destruct (cached_ids (cached_block_hash_to_block p) key) as [|b ids] eqn:Eb; [done|].
    simpl. intros (bs' & -> & Hall)%IH. exists (b :: bs'). rewrite <-(assoc app).
    split; [done|]. constructor; [|done]. exists key. split; [done|].
    apply Hown. rewrite Eb. set_solver.
Qed.

(** *** Witnesses: a pool of four blocks, one hashed and one allocated. *)
Definition demo_key : bytes := [7; 0; 0; 0; 0].
Definition demo_pool0 : pool :=
  match pool_init 4 true 16 with
  | Ok p => p
  | Raise _ => Pool 0 false 0 ∅ (fq_init []) ∅ ∅
  end.
Definition demo_pool1 : pool := (get_new_blocks 1 demo_pool0).2.
Definition demo_pool2 : pool := (_insert_block_hash demo_key 1 None demo_pool1).2.

Lemma demo_pool2_reachable : pool_reachable 4 true demo_pool2.
Proof.
  eapply reach_call; [eapply reach_call; [apply (reach_init _ _ 16); by vm_compute|]|].
  - eapply (call_new _ _ 1); [done|]. unfold demo_pool1. apply surjective_pairing.
  - eapply (call_insert _ _ demo_key 1 None); [by vm_compute; eexists|].
    exact (surjective_pairing (_insert_block_hash demo_key 1 None demo_pool1)).
Qed.

Lemma get_new_blocks_safe_witness :
  pool_reachable 4 true demo_pool2 ∧
  (∃ xs p', get_new_blocks 2 demo_pool2 = (Ok xs, p') ∧ zlen xs = 2 ∧ NoDup xs) ∧
  get_new_blocks 3 demo_pool2 = (Raise ValueError, demo_pool2).
Proof.
  split; [exact demo_pool2_reachable|]. split.
  - destruct (get_new_blocks_safe 4 true demo_pool2 2 demo_pool2_reachable ltac:(lia))
      as (xs & p' & H1 & H2 & H3 & _). exists xs, p'. exact (conj H1 (conj H2 H3)).
  - exact (get_new_blocks_safe 4 true demo_pool2 3 demo_pool2_reachable ltac:(lia)).
Defined.

Lemma free_queue_lists_unreferenced_witness :
  ∃ l, get_all_free_blocks 5 (free_block_queue demo_pool2) = Ok (Some l) ∧ NoDup l ∧
       zlen l = get_num_free_blocks demo_pool2 ∧ 0 ∉ l ∧
       ∀ b, b ∈ l ↔ 0 < b < 4 ∧ ref_cnt (blk demo_pool2 b) = 0.
Proof.
  apply (free_queue_lists_unreferenced 4 true demo_pool2 5); [exact demo_pool2_reachable|lia].
Defined.

Lemma free_blocks_order_witness :
  releasable (refs demo_pool2) [1] ∧
  ∃ l fs ls p', free_blocks [1] demo_pool2 = (Ok tt, p') ∧
    queue_rep (free_block_queue demo_pool2) l ∧
    queue_rep (free_block_queue p') (fs ++ l ++ ls) ∧
    Forall (evict_first demo_pool2) fs ∧ Forall (λ b, ¬ evict_first demo_pool2 b) ls ∧
    refs p' = drop_refs [1] (refs demo_pool2) ∧ same_hash demo_pool2 p'.
Proof.
  assert (releasable (refs demo_pool2) [1]) as Hrel.
  { intros b ->%list_elem_of_singleton. exists 1, false.
    split; [by vm_compute|right; by vm_compute]. }
  split; [exact Hrel|].
  apply (free_blocks_order 4 true demo_pool2 [1]); [exact demo_pool2_reachable|exact Hrel].
Defined.

Lemma get_cached_block_owned_witness :
  get_cached_block [7] [0] demo_pool2 = Ok (Some [1]) ∧
  Forall2 (λ g b, ∃ key, make_block_hash_with_group_id [7] g = Ok key ∧
                         owns demo_pool2 b key) [0] [1].
Proof.
  assert (get_cached_block [7] [0] demo_pool2 = Ok (Some [1])) as Hhit by by vm_compute.
  split; [exact Hhit|].
  exact (get_cached_block_owned 4 true demo_pool2 [7] [0] [1] demo_pool2_reachable Hhit).
Defined.
