(* ===== verification/CacheAllocator.v ===== *)
(** * Reserving the staging tail

    Models [reserve_staging_tail] of offload_package/cache_allocator.py: the last
    [num_slots] pages of the scheduler's pool are touched once at startup, so
    the allocator never hands them to a request. *)

From S2P Require Import Prelude PyData FreeQueue BlockHash BlockPool.
From stdpp Require Import base gmap sets list.
From Stdlib Require Import ZArith Lia.
Open Scope Z_scope.

(** The checks on one block of the tail. *)
Definition check_tail_block (b : Z) : M pool unit :=
  let! k := gets (λ p, blk p b) in
  ensure (negb (is_null k)) ValueError >>
  ensure (ref_cnt k =? 0) RuntimeError.

Definition reserve_staging_tail (num_slots : Z) : M pool (list Z) :=
  if num_slots <=? 0 then ret []
  else
    let! n := gets num_gpu_blocks in
    ensure (negb (n <=? num_slots)) ValueError >>
    let reserved_ids := zrange (n - num_slots) n in
    let! p := gets (λ p, p) in
    let! reserved_blocks := mmap (λ i, lift (block_at p i)) reserved_ids in
    mfor reserved_blocks check_tail_block >>
    touch reserved_blocks >>
    ret reserved_ids.

(** ** Facts *)
Lemma mmap_block_at p ids (s : pool) :
  Forall (λ i, 0 ≤ i < num_gpu_blocks p) ids →
  mmap (λ i, lift (block_at p i)) ids s = (Ok ids, s).
Proof.
  induction 1 as [|i ids Hi _ IH]; [done|]. cbn [mmap].
  erewrite bind_ok.
  2: { unfold lift, block_at. destruct (i <? 0) eqn:E; [lia|].
       rewrite (proj2 (andb_true_iff _ _)); [done|]. split; [apply Z.leb_le|apply Z.ltb_lt]; lia. }
  cbn beta. by erewrite bind_ok by exact IH.
Qed.

Lemma check_tail_run ids p :
  (∀ b, b ∈ ids → refs p !! b = Some (0, false)) → mfor ids check_tail_block p = (Ok tt, p).
Proof.
  induction ids as [|b ids IH]; intros Hids; [done|].
  destruct (blk_refs p b 0 false) as [Hr Hn]; [apply Hids; set_solver|].
  rewrite (mfor_cons _ _ _ _ p); [apply IH; set_solver|].
  unfold check_tail_block. run_step. rewrite Hn. cbn [negb]. unfold ensure at 1. run_step || idtac.
  unfold bind, ret. by rewrite Hr.
Qed.

Lemma check_tail_used ids p b r :
  b ∈ ids → (∀ x, x ∈ ids → ∃ r, refs p !! x = Some (r, false)) → refs p !! b = Some (r, false) →
  r ≠ 0 → mfor ids check_tail_block p = (Raise RuntimeError, p).
Proof.
  intros Hb Hids Hr Hne. induction ids as [|x ids IH]; [set_solver|].
  destruct (Hids x) as [rx Hx]; [set_solver|]. destruct (blk_refs p x rx false Hx) as [Hrx Hnx].
  assert (check_tail_block x p = if rx =? 0 then (Ok tt, p) else (Raise RuntimeError, p)) as Hc.
  { unfold check_tail_block. run_step. rewrite Hnx, Hrx. unfold bind. simpl. by destruct (rx =? 0). }
  cbn [mfor]. destruct (rx =? 0) eqn:E.
  - erewrite bind_ok by exact Hc. apply IH; [|set_solver]. apply elem_of_cons in Hb as [->|]; [|done].
    simplify_eq. lia.
  - by erewrite bind_raise by exact Hc.
Qed.

Lemma foldl_bump d bs (m : gmap Z (Z * bool)) b :
  foldl (λ m b, alter (bump d) b m) m bs !! b = (λ x, (x.1 + d * occ b bs, x.2)) <$> m !! b.
Proof.
  revert m. induction bs as [|x bs IH]; intros m; simpl.
  - unfold occ. simpl. destruct (m !! b) as [[r nul]|]; simpl; [|done].
    by rewrite Z.mul_0_r, Z.add_0_r.
  - rewrite IH, lookup_alter, occ_cons.
    destruct (decide (x = b)) as [->|]; [|done].
    destruct (m !! b) as [[r nul]|]; simpl; [|done]. do 2 f_equal. lia.
Qed.

Lemma occ_nonneg b bs : 0 ≤ occ b bs.
Proof. apply zlen_nonneg. Qed.

Lemma occ_not_in b bs : b ∉ bs → occ b bs = 0.
Proof.
  intros Hb. unfold occ. apply zlen_zero. induction bs as [|x bs IH]; [done|].
  apply not_elem_of_cons in Hb as [Hx Hb]. rewrite filter_cons, decide_False by congruence. auto.
Qed.

Lemma occ_NoDup b bs : NoDup bs → b ∈ bs → occ b bs = 1.
Proof.
  induction 1 as [|x bs Hx Hnd IH]; [set_solver|]. intros [->|Hb]%elem_of_cons; rewrite occ_cons.
  - by rewrite decide_True, occ_not_in by done.
  - rewrite decide_False by (by intros ->). by rewrite IH.
Qed.

(** The calls requests make: any pool call, but reserved pages are never freed
    (no request ever held them). *)
Inductive request_call (ids : list Z) (p p' : pool) : Prop :=
  | rq_new n r : 0 ≤ n → get_new_blocks n p = (r, p') → request_call ids p p'
  | rq_touch bs r : (∀ b, b ∈ bs → is_Some (refs p !! b)) →
      touch bs p = (r, p') → request_call ids p p'
  | rq_free bs r : releasable (refs p) bs → (∀ b, b ∈ bs → b ∉ ids) →
      free_blocks bs p = (r, p') → request_call ids p p'
  | rq_evict bs r : evict_blocks bs p = (r, p') → request_call ids p p'
  | rq_reset r : reset_prefix_cache p = (r, p') → request_call ids p p'
  | rq_insert key b nt r : is_Some (refs p !! b) →
      _insert_block_hash key b nt p = (r, p') → request_call ids p p'
  | rq_move src dst r : is_Some (refs p !! src) → is_Some (refs p !! dst) →
      move_block_hashes src dst p = (r, p') → request_call ids p p'.

Inductive request_calls (ids : list Z) (p : pool) : pool → Prop :=
  | rqs_refl : request_calls ids p p
  | rqs_call p1 p2 : request_calls ids p p1 → request_call ids p1 p2 → request_calls ids p p2.

Lemma request_call_pool ids p p' : request_call ids p p' → pool_call p p'.
Proof.
  intros [n r ? Hr|bs r ? Hr|bs r ? _ Hr|bs r Hr|r Hr|key b nt r ? Hr|src dst r ? ? Hr].
  - by apply (call_new _ _ n r).
  - by apply (call_touch _ _ bs r).
  - by apply (call_free _ _ bs r).
  - by apply (call_evict _ _ bs r).
  - by apply (call_reset _ _ r).
  - by apply (call_insert _ _ key b nt r).
  - by apply (call_move _ _ src dst r).
Qed.

(** The block is held by someone. *)
Definition pinned (p : pool) (b : Z) : Prop := ∃ r, refs p !! b = Some (r, false) ∧ 1 ≤ r.

Lemma pinned_not_free p l b : pool_inv p l → pinned p b → b ∉ l.
Proof.
  intros (_ & Hr & _) (r & Hb & Hr1) Hin. apply (ro_free _ _ _ Hr) in Hin. simplify_eq. lia.
Qed.

Lemma request_call_pinned ids p p' l b :
  pool_inv p l → request_call ids p p' → b ∈ ids → pinned p b → pinned p' b.
Proof.
  intros Hinv Hcall Hb Hpin. pose proof (pinned_not_free _ _ _ Hinv Hpin) as Hnf.
  destruct Hpin as (r & Hr & Hr1).
  assert (∀ q, keeps p l q → pinned q b) as Hkeep.
  { intros q [_ (_ & _ & E & _)]. exists r. by rewrite E. }
  destruct Hcall as [n r' Hn Hrun|bs r' Hbs Hrun|bs r' Hbs Hd Hrun|es r' Hrun|r' Hrun
                    |key x nt r' Hx Hrun|src dst r' Hs Hd Hrun].
  - destruct (decide (n ≤ zlen l)) as [Hle|Hle].
    + rewrite <-(take_drop (Z.to_nat n) l) in Hinv.
      destruct (get_new_blocks_run _ _ _ Hinv) as (q & Hq & Hi & Ha).
      assert (zlen (take (Z.to_nat n) l) = n) as Ht by (unfold zlen in *; rewrite length_take; lia).
      rewrite Ht, Hrun in Hq. simplify_eq. exists r. rewrite (al_refs _ _ _ Ha), decide_False; [done|].
      intros Hin. apply Hnf. rewrite <-(take_drop (Z.to_nat n) l). set_solver.
    + rewrite (get_new_blocks_short n l p) in Hrun by (done || lia). simplify_eq. by exists r.
  - destruct (touch_run bs l p Hinv Hbs) as (q & Hq & _ & _ & Href & _).
    rewrite Hrun in Hq. simplify_eq. exists (r + 1 * occ b bs). rewrite Href, foldl_bump, Hr.
    pose proof (occ_nonneg b bs). split; [done|lia].
  - destruct (free_blocks_run bs l p Hinv Hbs) as (fs & ls & q & Hq & _ & _ & _ & _ & Href & _).
    rewrite Hrun in Hq. simplify_eq. exists r. rewrite Href. unfold drop_refs. rewrite foldl_bump, Hr.
    rewrite occ_not_in by (intros ?; by apply (Hd b)). simpl. split; [|done]. do 2 f_equal. lia.
  - by eapply Hkeep, wp_keeps_run, Hrun; apply evict_blocks_keeps.
  - destruct (reset_prefix_cache_run p l Hinv) as (q & Hq & Hk & _).
    rewrite Hrun in Hq. simplify_eq. eauto.
  - by eapply Hkeep, wp_keeps_run, Hrun; apply insert_hash_keeps.
  - by eapply Hkeep, wp_keeps_run, Hrun; apply move_block_hashes_keeps.
Qed.

Lemma request_calls_pinned ids p p' l :
  pool_inv p l → request_calls ids p p' → (∀ b, b ∈ ids → pinned p b) →
  (∃ l', pool_inv p' l') ∧ ∀ b, b ∈ ids → pinned p' b.
Proof.
  intros Hinv Hcalls Hpin. induction Hcalls as [|p1 p2 _ IH Hcall]; [eauto|].
  destruct IH as [(l1 & Hl1) Hp1]. split.
  - by destruct (pool_call_inv p1 p2 l1 Hl1 (request_call_pool _ _ _ Hcall)) as [? _].
  - intros b Hb. by eapply request_call_pinned; eauto.
Qed.

(** What reserving does, on a pool whose tail is unused. *)
Lemma reserve_tail_run p l k :
  pool_inv p l → 0 < k < num_gpu_blocks p →
  (∀ b, num_gpu_blocks p - k ≤ b < num_gpu_blocks p → refs p !! b = Some (0, false)) →
  let ids := zrange (num_gpu_blocks p - k) (num_gpu_blocks p) in
  ∃ p', reserve_staging_tail k p = (Ok ids, p') ∧ pool_inv p' (filter (λ x, x ∉ ids) l) ∧
    (∀ b, refs p' !! b = if decide (b ∈ ids) then Some (1, false) else refs p !! b) ∧
    same_hash p p' ∧ num_gpu_blocks p' = num_gpu_blocks p.
Proof.
  intros Hinv Hk Htail ids.
  assert (∀ b, b ∈ ids → refs p !! b = Some (0, false)) as Hids
    by (intros b Hb%elem_of_zrange; by apply Htail).
  destruct (touch_run ids l p Hinv) as (p' & Hrun & Hi & Hsh & Href & Hn & _).
  { intros b Hb. rewrite Hids by done. by eexists. }
  exists p'. unfold reserve_staging_tail. replace (k <=? 0) with false by lia. run_step.
  replace (num_gpu_blocks p <=? k) with false by lia. cbn [negb]. do 2 run_step. fold ids.
  erewrite bind_ok.
  2: { apply mmap_block_at, Forall_forall. intros b Hb%elem_of_zrange. lia. }
  erewrite bind_ok by (by apply check_tail_run). erewrite bind_ok by exact Hrun.
  split; [done|]. split; [done|]. split; [|done].
  intros b. rewrite Href, foldl_bump. case_decide as Hb.
  - rewrite Hids, occ_NoDup by (done || apply NoDup_zrange). done.
  - rewrite occ_not_in by done. destruct (refs p !! b) as [[r nul]|]; simpl; [|done].
    do 2 f_equal. lia.
Qed.

(** ** The properties *)

(** C31: after reserving the tail of a fresh pool, no sequence of calls that
    frees only what was allocated ever hands out a reserved page: every later
    [get_new_blocks] returns pages below [num_gpu_blocks - num_slots], so the
    staging area is exclusive to the staging pool for good. *)
Theorem staging_tail_never_allocated size caching hbs p0 k p1 ids p2 n xs p3 :
  pool_init size caching hbs = Ok p0 → 0 < k →
  reserve_staging_tail k p0 = (Ok ids, p1) → request_calls ids p1 p2 → 0 ≤ n →
  get_new_blocks n p2 = (Ok xs, p3) →
  ids = zrange (size - k) size ∧ ∀ b, b ∈ xs → 0 < b < size - k.
Proof.
  intros Hinit Hk Hres Hcalls Hn Hnew.
  assert (0 < size) as Hs by (unfold pool_init in Hinit; destruct (0 <? size) eqn:E; [lia|done]).
  destruct (pool_init_run size caching hbs Hs) as (q & Hq & Hinv & Hnum & _ & Hr0).
  rewrite Hinit in Hq. injection Hq as <-.
  destruct (decide (k < size)) as [Hks|Hks].
  2: { exfalso. unfold reserve_staging_tail in Hres. replace (k <=? 0) with false in Hres by lia.
       unfold bind at 1 in Hres. unfold gets in Hres. rewrite Hnum in Hres.
       replace (size <=? k) with true in Hres by lia. done. }
  destruct (reserve_tail_run p0 (zrange 1 size) k Hinv) as (p1' & Hrun & Hi1 & Href & _ & Hn1); [lia| |].
  { intros b Hb. rewrite Hnum in Hb. rewrite Hr0 by lia. by rewrite bool_decide_eq_false_2 by lia. }
  rewrite Hrun, Hnum in Hres. injection Hres as <- ->. rewrite Hnum in Hi1, Href.
  split; [done|].
  destruct (request_calls_pinned _ p1 p2 _ Hi1 Hcalls) as [(l2 & Hl2) Hpin].
  { intros b Hb. exists 1. rewrite Href, decide_True by done. done. }
  assert (num_gpu_blocks p2 = size) as Hn2.
  { assert (num_gpu_blocks p1 = size) as Hn1' by congruence. clear -Hcalls Hi1 Hn1'.
    induction Hcalls as [|a b Hc IH Hcall]; [done|].
    assert (∃ l, pool_inv a l) as [la Hla].
    { clear -Hc Hi1. induction Hc as [|a b _ [l IH] Hcall]; [eauto|].
      by destruct (pool_call_inv a b l IH (request_call_pool _ _ _ Hcall)). }
    destruct (pool_call_inv a b la Hla (request_call_pool _ _ _ Hcall)) as (_ & E & _). congruence. }
  intros b Hb. destruct (decide (n ≤ zlen l2)) as [Hle|Hle].
  2: { rewrite (get_new_blocks_short n l2 p2) in Hnew by (done || lia). done. }
  pose proof Hl2 as Hl2'. rewrite <-(take_drop (Z.to_nat n) l2) in Hl2'.
  destruct (get_new_blocks_run _ _ _ Hl2') as (q & Hq & _).
  assert (zlen (take (Z.to_nat n) l2) = n) as Ht by (unfold zlen in *; rewrite length_take; lia).
  rewrite Ht, Hnew in Hq. injection Hq as Hxs _.
  assert (b ∈ l2) as Hbl by (rewrite <-(take_drop (Z.to_nat n) l2), <-Hxs; set_solver).
  pose proof (refs_ok_free_dom _ _ _ (proj1 (proj2 Hl2)) b Hbl) as Hdom. rewrite Hn2 in Hdom.
  split; [lia|]. destruct (decide (b < size - k)) as [|Hge]; [done|]. exfalso.
  eapply (pinned_not_free p2 l2 b); [done| |done]. apply Hpin, elem_of_zrange. lia.
Qed.

(** [reserve_staging_tail] refuses what would not be exclusive and then
    changes nothing: as many slots as the pool has pages (or more) is a
    [ValueError], a tail page that is already in use a [RuntimeError]; a
    nonpositive count reserves nothing. *)
Theorem reserve_staging_tail_refuses size caching p k :
  pool_reachable size caching p →
  (k ≤ 0 → reserve_staging_tail k p = (Ok [], p)) ∧
  (0 < k → size ≤ k → reserve_staging_tail k p = (Raise ValueError, p)) ∧
  (0 < k < size → (∃ b, size - k ≤ b < size ∧ ref_cnt (blk p b) ≠ 0) →
     reserve_staging_tail k p = (Raise RuntimeError, p)).
Proof.
  intros ((l & Hinv) & Hn & _)%pool_reachable_inv. unfold reserve_staging_tail. split_and!.
  - intros Hk. by replace (k <=? 0) with true by lia.
  - intros Hk Hs. replace (k <=? 0) with false by lia. run_step. rewrite Hn.
    by replace (size <=? k) with true by lia.
  - intros Hk (b & Hb & Hused). replace (k <=? 0) with false by lia. run_step. rewrite Hn.
    replace (size <=? k) with false by lia. cbn [negb]. do 2 run_step.
    erewrite bind_ok.
    2: { apply mmap_block_at, Forall_forall. intros x Hx%elem_of_zrange. lia. }
    cbn beta. pose proof Hinv as (_ & Hr & _). rewrite Hn in Hr.
    assert (∀ x, x ∈ zrange (size - k) size → ∃ r, refs p !! x = Some (r, false)) as Hx.
    { intros x Hx%elem_of_zrange. destruct (proj2 (ro_dom _ _ _ Hr x)) as [[r nul] Hxr]; [lia|].
      destruct nul; [|by exists r]. pose proof (proj1 (ro_null _ _ _ Hr x r true Hxr) eq_refl). lia. }
    destruct (Hx b) as [r Hrb]; [by apply elem_of_zrange|].
    destruct (blk_refs p b r false Hrb) as [Hrc _].
    erewrite bind_raise; [done|]. eapply check_tail_used; [by apply elem_of_zrange|done|done|congruence].
Qed.

(** *** Witnesses: a pool of four pages, the last one reserved. *)
Definition demo_tail : pool := (reserve_staging_tail 1 demo_pool0).2.

Lemma staging_tail_never_allocated_witness :
  reserve_staging_tail 1 demo_pool0 = (Ok [3], demo_tail) ∧
  ∀ b, b ∈ [1; 2] → 0 < b < 4 - 1.
Proof.
  assert (reserve_staging_tail 1 demo_pool0 = (Ok [3], demo_tail)) as Hr by by vm_compute.
  split; [exact Hr|].
  destruct (staging_tail_never_allocated 4 true 16 demo_pool0 1 demo_tail [3] demo_tail 2 [1; 2]
    (get_new_blocks 2 demo_tail).2) as [_ Hb];
    [by vm_compute|lia|exact Hr|constructor|lia|by vm_compute|exact Hb].
Defined.

Lemma reserve_staging_tail_refuses_witness :
  reserve_staging_tail 4 demo_pool2 = (Raise ValueError, demo_pool2) ∧
  reserve_staging_tail 3 demo_pool2 = (Raise RuntimeError, demo_pool2).
Proof.
  destruct (reserve_staging_tail_refuses 4 true demo_pool2 4 demo_pool2_reachable) as (_ & H1 & _).
  destruct (reserve_staging_tail_refuses 4 true demo_pool2 3 demo_pool2_reachable) as (_ & _ & H2).
  split; [apply H1; lia|]. apply H2; [lia|]. exists 1. split; [lia|by vm_compute].
Defined.
