(* ===== verification/Ownership.v ===== *)
(** * Who holds the references of a pool

    Counting how often a page occurs in the block tables of the requests, and
    relating these counts to the reference counts of the pool.  Shared by the
    KV-cache managers, which fill the tables, and by the offload scheduler,
    which replaces entries of the tables by the null block. *)

From S2P Require Import Prelude PyData FreeQueue BlockHash BlockPool CacheAllocator.
From stdpp Require Import base gmap sets list strings.
From Stdlib Require Import ZArith Lia.
Open Scope Z_scope.

(** The id of [BlockPool.null_block]. *)
Definition null_block : Z := 0.

(** ** Counting table entries *)

(** How often page [b] appears in the request tables. *)
Definition total_occ (b : Z) (m : gmap string (list Z)) : Z :=
  map_fold (λ _ l acc, occ b l + acc) 0 m.

Lemma total_occ_lookup b m k l :
  m !! k = Some l → total_occ b m = occ b l + total_occ b (delete k m).
Proof.
  intros Hk. unfold total_occ.
  rewrite (map_fold_delete_L (λ _ l acc, occ b l + acc) 0 k l m); [done| |done].
  intros; lia.
Qed.

Lemma total_occ_insert b m k l l' :
  m !! k = Some l → total_occ b (<[k := l']> m) = total_occ b m - occ b l + occ b l'.
Proof.
  intros Hk. rewrite (total_occ_lookup b m k l Hk).
  rewrite (total_occ_lookup b (<[k := l']> m) k l') by apply lookup_insert_eq.
  rewrite delete_insert_eq. lia.
Qed.

Lemma total_occ_nonneg b m : 0 ≤ total_occ b m.
Proof.
  unfold total_occ. apply (map_fold_weak_ind (λ r _, 0 ≤ r)); [lia|].
  intros k l ? r _ Hr. pose proof (occ_nonneg b l). lia.
Qed.

Lemma occ_app b l l' : occ b (l ++ l') = occ b l + occ b l'.
Proof. unfold occ. by rewrite filter_app, zlen_app. Qed.

Lemma occ_set b l i x y :
  l !! i = Some x →
  occ b (<[i := y]> l) = occ b l - (if decide (x = b) then 1 else 0) + (if decide (y = b) then 1 else 0).
Proof.
  intros Hi. rewrite insert_take_drop by (by eapply lookup_lt_Some).
  rewrite <-(take_drop_middle l i x Hi) at 3. rewrite !occ_app, !occ_cons. lia.
Qed.

Lemma total_occ_set b m k l' :
  total_occ b (<[k := l']> m) = total_occ b m - occ b (default [] (m !! k)) + occ b l'.
Proof.
  destruct (m !! k) as [l|] eqn:E; [by apply total_occ_insert|]. cbn.
  rewrite (total_occ_lookup b (<[k := l']> m) k l') by apply lookup_insert_eq.
  rewrite delete_insert_id by done. change (occ b []) with 0. lia.
Qed.

Lemma total_occ_delete b m k : total_occ b (delete k m) = total_occ b m - occ b (default [] (m !! k)).
Proof.
  destruct (m !! k) as [l|] eqn:E; [rewrite (total_occ_lookup b m k l E); cbn; lia|].
  rewrite delete_id by done. cbn. change (occ b []) with 0. lia.
Qed.

Lemma occ_pos b l : b ∈ l → 0 < occ b l.
Proof.
  induction l as [|x l IH]; [by intros ?%elem_of_nil|]. rewrite occ_cons. pose proof (occ_nonneg b l).
  intros [->|Hb]%elem_of_cons; [rewrite decide_True by done; lia|]. specialize (IH Hb). case_decide; lia.
Qed.

Lemma occ_le_total b m k : occ b (default [] (m !! k)) ≤ total_occ b m.
Proof. pose proof (total_occ_delete b m k). pose proof (total_occ_nonneg b (delete k m)). lia. Qed.

(** ** Tables and pools *)

(** The pages of [tables] exist in the pool. *)
Definition valid_tables (m : gmap string (list Z)) (p : pool) : Prop :=
  ∀ k l b, m !! k = Some l → b ∈ l → 0 ≤ b < num_gpu_blocks p.

(** Every page that a request's table names is referenced at least as often. *)
Definition held (m : gmap string (list Z)) (p : pool) : Prop :=
  ∀ b r nul, b ≠ null_block → refs p !! b = Some (r, nul) → total_occ b m ≤ r.

(** ** Dropping references in parts *)
Lemma drop_refs_lookup bs m b :
  drop_refs bs m !! b = (λ x, (x.1 - occ b bs, x.2)) <$> m !! b.
Proof.
  unfold drop_refs. rewrite foldl_bump. destruct (m !! b) as [[r nul]|]; [|done]. cbn.
  by replace (r + -1 * occ b bs) with (r - occ b bs) by lia.
Qed.

Lemma occ_perm b bs bs' : bs ≡ₚ bs' → occ b bs = occ b bs'.
Proof. intros Hp. unfold occ, zlen. by rewrite Hp. Qed.

Lemma releasable_perm m bs bs' : bs ≡ₚ bs' → releasable m bs → releasable m bs'.
Proof.
  intros Hp Hr b Hb. destruct (Hr b) as (r & nul & Hm & Ho); [by rewrite Hp|].
  exists r, nul. by rewrite <-(occ_perm b bs bs' Hp).
Qed.

Lemma releasable_app m xs ys :
  releasable m (xs ++ ys) → releasable m xs ∧ releasable (drop_refs xs m) ys.
Proof.
  intros Hr. split; intros b Hb; (destruct (Hr b) as (r & nul & Hm & Ho); [set_solver|]);
    rewrite occ_app in Ho; pose proof (occ_nonneg b xs); pose proof (occ_nonneg b ys).
  - exists r, nul. split; [done|]. destruct Ho; [by left|right; lia].
  - exists (r - occ b xs), nul. rewrite drop_refs_lookup, Hm. split; [done|].
    destruct Ho; [by left|right; lia].
Qed.

Lemma releasable_dom p l bs :
  pool_inv p l → releasable (refs p) bs → Forall (λ i, 0 ≤ i < num_gpu_blocks p) bs.
Proof.
  intros (_ & Hr & _) Hrel. apply Forall_forall. intros b Hb.
  destruct (Hrel b Hb) as (r & nul & Hm & _). apply (ro_dom _ _ _ Hr). by eexists.
Qed.

Lemma block_at_valid p i : 0 ≤ i < num_gpu_blocks p → block_at p i = Ok i.
Proof.
  intros Hi. unfold block_at. replace (i <? 0) with false by lia.
  rewrite (proj2 (andb_true_iff _ _)); [done|]. split; [apply Z.leb_le|apply Z.ltb_lt]; lia.
Qed.


(** ** Accounts

    [counted cnt p l]: the pool is consistent with free list [l], and [cnt]
    says how many references each real page has.  Every call that moves
    references moves the account by the same amount, so a component that knows
    which references it holds can read its own share off the pool. *)
Record counted (cnt : Z → Z) (p : pool) (l : list Z) : Prop := {
  ct_inv : pool_inv p l;
  ct_nonneg : ∀ b, 0 ≤ cnt b;
  ct_valid : ∀ b, 0 < cnt b → 0 ≤ b < num_gpu_blocks p;
  ct_refs : ∀ b r nul, b ≠ null_block → refs p !! b = Some (r, nul) → r = cnt b;
}.

Lemma counted_ext cnt cnt' p l : (∀ b, cnt b = cnt' b) → counted cnt p l → counted cnt' p l.
Proof.
  intros He [Hi Hn Hv Hr]. split; [done|..].
  - intros b. rewrite <-He. apply Hn.
  - intros b. rewrite <-He. apply Hv.
  - intros b r nul Hb Hl. rewrite <-He. by eapply Hr.
Qed.

(** Nobody accounts for the null block. *)
Lemma counted_null cnt cnt' p l :
  (∀ b, b ≠ null_block → cnt b = cnt' b) → 0 ≤ cnt' null_block → counted cnt p l → counted cnt' p l.
Proof.
  intros He H0 [Hi Hn Hv Hr].
  assert (∀ b, cnt' b = if decide (b = null_block) then cnt' null_block else cnt b) as Hc.
  { intros b. case_decide as E; [by rewrite E|by rewrite He]. }
  split; [done|..].
  - intros b. rewrite Hc. case_decide; [done|apply Hn].
  - intros b. rewrite Hc. case_decide as E; [|apply Hv]. intros _. rewrite E. unfold null_block.
    destruct Hi as (_ & Hok & _). pose proof (ro_pos _ _ _ Hok). lia.
  - intros b r nul Hb Hl. rewrite <-He by done. by eapply Hr.
Qed.

Section Accounts.
Context (cnt : Z → Z) (p : pool) (l : list Z) (Hct : counted cnt p l).

Lemma counted_refs_ok : refs_ok (num_gpu_blocks p) (refs p) l.
Proof. apply Hct. Qed.

(** A free page is in nobody's account. *)
Lemma counted_free b : b ∈ l → cnt b = 0 ∧ 0 < b < num_gpu_blocks p.
Proof.
  intros Hb. pose proof (refs_ok_free_dom _ _ _ counted_refs_ok b Hb) as Hd. split; [|done].
  apply (ro_free _ _ _ counted_refs_ok) in Hb. symmetry.
  eapply (ct_refs _ _ _ Hct b); [unfold null_block; lia|done].
Qed.

(** A page in nobody's account is free. *)
Lemma counted_zero_free b : 0 < b < num_gpu_blocks p → cnt b = 0 → b ∈ l.
Proof.
  intros Hb Hc. apply (ro_free _ _ _ counted_refs_ok).
  destruct (proj2 (ro_dom _ _ _ counted_refs_ok b) ltac:(lia)) as [[r nul] Hr].
  rewrite Hr. rewrite (ct_refs _ _ _ Hct b r nul) by (done || (unfold null_block; lia)).
  rewrite Hc. destruct nul; [|done].
  assert (b = 0) by (by apply (ro_null _ _ _ counted_refs_ok b r true)). lia.
Qed.

Lemma counted_keeps p' : keeps p l p' → counted cnt p' l.
Proof.
  intros [Hi (Hn & _ & Hr & _)]. split; [done|apply Hct|..].
  - rewrite Hn. apply Hct.
  - intros b r nul Hb. rewrite Hr. by apply Hct.
Qed.

Lemma counted_touch bs :
  (∀ b, b ∈ bs → 0 ≤ b < num_gpu_blocks p) →
  ∃ p', touch bs p = (Ok tt, p') ∧ counted (λ b, cnt b + occ b bs) p' (filter (λ x, x ∉ bs) l) ∧
        num_gpu_blocks p' = num_gpu_blocks p ∧ enable_caching p' = enable_caching p ∧ same_hash p p'.
Proof.
  intros Hv. destruct (touch_run bs l p (ct_inv _ _ _ Hct)) as (p' & Hrun & Hi & Hs & Hr & Hn & Hc).
  { intros b Hb%Hv. by apply (ro_dom _ _ _ counted_refs_ok). }
  exists p'. split; [done|]. split; [|done]. split; [done|..].
  - intros b. pose proof (ct_nonneg _ _ _ Hct b). pose proof (occ_nonneg b bs). lia.
  - intros b Hb. rewrite Hn. destruct (decide (b ∈ bs)) as [|Hnin]; [auto|].
    rewrite occ_not_in in Hb by done. apply (ct_valid _ _ _ Hct). lia.
  - intros b r nul Hb. rewrite Hr, foldl_bump. destruct (refs p !! b) as [[r0 nul0]|] eqn:E; [|done].
    cbn. intros [= <- <-]. rewrite (ct_refs _ _ _ Hct b r0 nul0) by done. lia.
Qed.

Lemma counted_free_blocks bs :
  (∀ b, b ∈ bs → 0 ≤ b < num_gpu_blocks p) → (∀ b, occ b bs ≤ cnt b) →
  ∃ fs ls p', free_blocks bs p = (Ok tt, p') ∧
    counted (λ b, cnt b - occ b bs) p' (fs ++ l ++ ls) ∧
    num_gpu_blocks p' = num_gpu_blocks p ∧ enable_caching p' = enable_caching p ∧ same_hash p p'.
Proof.
  intros Hv Hle. assert (releasable (refs p) bs) as Hrel.
  { intros b Hb. destruct (proj2 (ro_dom _ _ _ counted_refs_ok b) (Hv b Hb)) as [[r nul] Hr].
    exists r, nul. split; [done|]. destruct (decide (b = null_block)) as [->|Hne].
    - left. by apply (ro_null _ _ _ counted_refs_ok _ _ _ Hr).
    - right. rewrite (ct_refs _ _ _ Hct b r nul Hne Hr). auto. }
  destruct (free_blocks_run bs l p (ct_inv _ _ _ Hct) Hrel)
    as (fs & ls & p' & Hrun & Hi & Hn & Hc & Hs & Hr & _).
  exists fs, ls, p'. split; [done|]. split; [|done]. split; [done|..].
  - intros b. specialize (Hle b). lia.
  - intros b Hb. rewrite Hn. apply (ct_valid _ _ _ Hct). pose proof (occ_nonneg b bs). lia.
  - intros b r nul Hb. rewrite Hr, drop_refs_lookup.
    destruct (refs p !! b) as [[r0 nul0]|] eqn:E; [|done].
    cbn. intros [= <- <-]. by rewrite (ct_refs _ _ _ Hct b r0 nul0).
Qed.

(** One more reference on a page that is already held. *)
Lemma counted_bump b :
  0 < cnt b → b ≠ null_block →
  counted (λ x, cnt x + occ x [b]) (upd_blk b (set_ref_cnt (λ r, r + 1)) p) l.
Proof.
  intros Hb Hne. pose proof (ct_valid _ _ _ Hct b Hb) as Hv.
  destruct (counted_touch [b]) as (p' & Hrun & Hc & _); [by intros x ->%list_elem_of_singleton|].
  unfold touch, mfor, touch_block in Hrun.
  destruct (proj2 (ro_dom _ _ _ counted_refs_ok b) Hv) as [[r nul] Hr].
  destruct (blk_refs _ _ _ _ Hr) as [Hrc Hnul].
  pose proof (ct_refs _ _ _ Hct b r nul Hne Hr) as Hrb.
  revert Hrun. unfold bind, gets, modify, ret. rewrite Hrc.
  rewrite (proj2 (Z.eqb_neq r 0)) by lia. cbn. intros [= <-].
  assert (filter (λ x, x ∉ [b]) l = l) as Hf.
  { apply filter_id. intros x Hx ->%list_elem_of_singleton. destruct (counted_free b Hx). lia. }
  by rewrite Hf in Hc.
Qed.
End Accounts.

Lemma occ_cons_ge b x bs : occ b bs ≤ occ b (x :: bs).
Proof. rewrite occ_cons. case_decide; lia. Qed.

Lemma counted_new cnt p xs l :
  counted cnt p (xs ++ l) →
  ∃ p', get_new_blocks (zlen xs) p = (Ok xs, p') ∧ counted (λ b, cnt b + occ b xs) p' l ∧
        allocated xs p p'.
Proof.
  intros Hct. destruct (get_new_blocks_run xs l p (ct_inv _ _ _ Hct)) as (p' & Hrun & Hi & Ha).
  exists p'. split; [done|]. split; [|done].
  assert (NoDup xs) as Hnd.
  { pose proof (ro_nodup _ _ _ (counted_refs_ok _ _ _ Hct)) as Hn. by apply NoDup_app in Hn as (? & _). }
  split; [done|..].
  - intros b. pose proof (ct_nonneg _ _ _ Hct b). pose proof (occ_nonneg b xs). lia.
  - intros b Hb. rewrite (al_num _ _ _ Ha). destruct (decide (b ∈ xs)) as [Hin|Hnin].
    + destruct (counted_free _ _ _ Hct b) as [_ ?]; [set_solver|lia].
    + rewrite occ_not_in in Hb by done. apply (ct_valid _ _ _ Hct). lia.
  - intros b r nul Hb. rewrite (al_refs _ _ _ Ha). case_decide as Hin.
    + intros [= <- <-]. destruct (counted_free _ _ _ Hct b) as [-> _]; [set_solver|].
      rewrite occ_NoDup by done. lia.
    + intros Hr. rewrite occ_not_in by done. rewrite (ct_refs _ _ _ Hct b r nul) by done. lia.
Qed.
