(* ===== verification/PrefixCache.v ===== *)
(** * Filling and searching the prefix cache

    Models [BlockPool.cache_full_blocks] and [cache_partial_block] of
    vllm/v1/core/block_pool.py, and the prefix-cache searches
    ([find_longest_cache_hit]) of the full-attention, sliding-window and
    chunked-local managers of vllm/v1/core/single_type_kv_cache_manager.py.
    KV-cache events are observers and are left out. *)

From S2P Require Import Prelude PyData FreeQueue BlockHash BlockHasher BlockPool CacheAllocator Ownership.
From stdpp Require Import base gmap sets list strings.
From Stdlib Require Import ZArith Lia.
Open Scope Z_scope.

Definition cdiv (a b : Z) : Z := - (a / - b).

Lemma cdiv_unique x b q : 0 < b → (q - 1) * b < x ≤ q * b → cdiv x b = q.
Proof.
  intros Hb Hx. unfold cdiv. rewrite <-(Z.div_unique_neg x (- b) (- q) (x - q * b)); lia.
Qed.

(** The hashes of a [BlockHashList], as iterated over. *)
Definition hl_list (l : hash_list) : list bytes :=
  match l with
  | Raw hs => hs
  | View hs k => omap (λ i, hs !! Z.to_nat ((i + 1) * k - 1)) (zrange 0 (zlen hs / k))
  end.

(** ** Filling *)

(** One new full block: its index, id and mask bit. *)
Definition cache_full_block (new_block_hashes : list bytes) (num_cached_blocks block_size group_id : Z)
    (mask : option (list bool)) (i b : Z) : M pool unit :=
  let! k := gets (λ p, blk p b) in
  let! keep := lift (match mask with None => Ok true | Some bits => py_index bits i end) in
  if is_null k || negb keep then ret tt
  else
    let! h := lift (py_index new_block_hashes i) in
    let num_hash_tokens := (num_cached_blocks + i + 1) * block_size in
    let! key := lift (make_block_hash_with_group_id h group_id) in
    (match block_hash k with
     | None => ret tt
     | Some _ =>
         ensure (match block_hash_num_tokens k with Some n => n <? num_hash_tokens | None => false end)
           AssertionError >>
         _remove_cached_block_hashes b >> ret tt
     end) >>
    _insert_block_hash key b (Some num_hash_tokens).

Fixpoint cache_full_loop (new_block_hashes : list bytes) (num_cached_blocks block_size group_id : Z)
    (mask : option (list bool)) (i : Z) (bs : list Z) : M pool unit :=
  match bs with
  | [] => ret tt
  | b :: bs' =>
      cache_full_block new_block_hashes num_cached_blocks block_size group_id mask i b >>
      cache_full_loop new_block_hashes num_cached_blocks block_size group_id mask (i + 1) bs'
  end.

Definition cache_full_blocks (r : Request) (bs : list Z)
    (num_cached_blocks num_full_blocks block_size group_id : Z) (mask : option (list bool)) : M pool unit :=
  if num_full_blocks <=? num_cached_blocks then ret tt
  else
    let new_full_blocks := take (Z.to_nat (num_full_blocks - num_cached_blocks))
                             (drop (Z.to_nat num_cached_blocks) bs) in
    ensure (match mask with None => true | Some bits => (length bits =? length new_full_blocks)%nat end)
      AssertionError >>
    let! hbs := gets hash_block_size in
    let! hl := lift (resolve_block_hashes (Raw (block_hashes r)) hbs block_size false None) in
    cache_full_loop (drop (Z.to_nat num_cached_blocks) (hl_list hl)) num_cached_blocks block_size group_id
      mask 0 new_full_blocks.

(** [_get_partial_block_hash] *)
Definition _get_partial_block_hash (r : Request) (num_tok : Z) : M pool bytes :=
  let! hbs := gets hash_block_size in
  ensure (num_tok mod hbs =? 0) AssertionError >>
  let num_hash_blocks := num_tok / hbs in
  ensure ((0 <? num_hash_blocks) && (num_hash_blocks <=? zlen (block_hashes r))) AssertionError >>
  lift (py_index (block_hashes r) (num_hash_blocks - 1)).

Definition cache_partial_block (r : Request) (b num_tok group_id block_size : Z) : M pool (option bytes) :=
  let! k := gets (λ p, blk p b) in
  if is_null k then ret None
  else
    let! hbs := gets hash_block_size in
    ensure (hbs <? block_size) AssertionError >>
    ensure (block_size mod hbs =? 0) AssertionError >>
    ensure (negb (num_tok mod block_size =? 0)) AssertionError >>
    let! h := _get_partial_block_hash r num_tok in
    let n := num_tok / hbs * hbs in
    let! key := lift (make_block_hash_with_group_id h group_id) in
    let! already := gets (λ p, bool_decide (block_hash k = Some key)
                               || hc_contain (cached_block_hash_to_block p) key b) in
    (if negb already && match block_hash k, block_hash_num_tokens k with
                        | Some _, Some m => m <? n
                        | _, _ => false
                        end
     then _remove_cached_block_hashes b >> ret tt else ret tt) >>
    _insert_block_hash key b (Some n) >>
    ret (Some key).

(** ** Searching *)

(** [for computed, cached in zip(computed_blocks, cached_block)] *)
Definition append_hit (computed : list (list Z)) (cached : list Z) : list (list Z) :=
  zip_with (λ c b, c ++ [b]) computed cached.

(** [len(computed_blocks[0])] *)
Definition hit_count (computed : list (list Z)) : result Z :=
  match computed with [] => Raise IndexError | c :: _ => Ok (zlen c) end.

(** The longest run of cached blocks from the start. *)
Fixpoint hit_run (p : pool) (groups : list Z) (hs : list bytes) (computed : list (list Z))
    : result (list (list Z)) :=
  match hs with
  | [] => Ok computed
  | h :: hs' =>
      result_bind (get_cached_block h groups p) (λ cached,
        match cached with
        | None | Some [] => Ok computed
        | Some bs => hit_run p groups hs' (append_hit computed bs)
        end)
  end.

(** Phase 2: probe the boundaries [idxs] (high to low) of the first partial block. *)
Fixpoint probe_tail (p : pool) (groups : list Z) (hl : hash_list) (idxs : list Z)
    : result (option (Z * list Z)) :=
  match idxs with
  | [] => Ok None
  | i :: idxs' =>
      result_bind (hl_get hl i) (λ h,
      result_bind (get_cached_block h groups p) (λ cached,
        match cached with
        | None | Some [] => probe_tail p groups hl idxs'
        | Some bs => Ok (Some (i, bs))
        end))
  end.

(** [list(range(a, b, -1))] *)
Definition range_down (a b : Z) : list Z := rev (zrange (b + 1) (a + 1)).

(** [FullAttentionManager.find_longest_cache_hit]; [block_size] is the group's
    block size, already multiplied by the context-parallel world size. *)
Definition find_longest_full (p : pool) (hl0 : hash_list) (max_length : Z) (groups : list Z)
    (block_size : Z) (drop_eagle_block : bool) (alignment_tokens : Z) : result (list (list Z) * Z) :=
  result_bind (resolve_block_hashes hl0 (hash_block_size p) block_size true (Some alignment_tokens)) (λ hl,
  let fine_grained := (alignment_tokens <? block_size) && (block_size mod alignment_tokens =? 0) in
  result_bind (if fine_grained then
                 match hl with
                 | Raw hs => make_view hs alignment_tokens block_size
                 | View _ _ => Raise AssertionError
                 end
               else Ok hl) (λ full,
  if max_length / block_size <? 0 then Raise ValueError
  else
  result_bind (hit_run p groups (take (Z.to_nat (max_length / block_size)) (hl_list full))
                 (replicate (length groups) [])) (λ computed,
  result_bind (hit_count computed) (λ n,
  result_bind (if fine_grained then
                 let scale_factor := block_size / alignment_tokens in
                 let first_partial_idx := n * scale_factor in
                 let max_partial_idx := Z.min (Z.min (first_partial_idx + scale_factor - 1)
                                                 (max_length / alignment_tokens)) (hl_len hl) in
                 result_bind (probe_tail p groups hl
                                (range_down (max_partial_idx - 1) (first_partial_idx - 1))) (λ o,
                 match o with
                 | None => Ok (computed, n * block_size)
                 | Some (i, bs) => Ok (append_hit computed bs, (i + 1) * alignment_tokens)
                 end)
               else Ok (computed, n * block_size)) (λ r,
  let hit1 := if drop_eagle_block && (0 <? r.2) then r.2 - Z.min alignment_tokens block_size else r.2 in
  let hit_length := hit1 - hit1 mod alignment_tokens in
  Ok ((λ c, py_take c (cdiv hit_length block_size)) <$> r.1, hit_length)))))).

(** *** Sliding window *)
Definition _contiguous_blocks_for_hit (window_size block_size : Z) (use_eagle : bool) : Z :=
  cdiv (window_size - 1) block_size + (if use_eagle then 1 else 0).

(** [for computed, cached in zip(...): computed[i] = cached] *)
Definition set_hit (i : Z) (computed : list (list Z)) (cached : list Z) : list (list Z) :=
  zip_with (λ c b, <[Z.to_nat i := b]> c) computed cached.

(** The scan from right to left: the computed blocks, the length of the current
    run, and whether a long enough run was found. *)
Fixpoint window_scan (p : pool) (groups : list Z) (hl : hash_list) (block_size alignment_tokens need : Z)
    (drop_eagle_block : bool) (idxs : list Z) (computed : list (list Z)) (run : Z)
    : result (list (list Z) * Z * bool) :=
  match idxs with
  | [] => Ok (computed, run, false)
  | i :: idxs' =>
      let next := window_scan p groups hl block_size alignment_tokens need drop_eagle_block idxs' in
      result_bind (hl_get hl i) (λ h,
      result_bind (get_cached_block h groups p) (λ cached,
        match cached with
        | None | Some [] => next computed 0
        | Some bs =>
            if (run =? 0) && negb (block_size =? alignment_tokens)
               && negb (((if drop_eagle_block then i else i + 1) * block_size) mod alignment_tokens =? 0)
            then next computed run
            else
              let computed' := set_hit i computed bs in
              if need <=? run + 1
              then Ok ((λ c, py_take c (i + (run + 1))) <$> computed', run + 1, true)
              else next computed' (run + 1)
        end))
  end.

(** [while len * block_size % alignment_tokens != 0: pop()] *)
Fixpoint aligned_count (block_size alignment_tokens : Z) (n : nat) : nat :=
  match n with
  | O => O
  | S n' => if (Z.of_nat (S n') * block_size) mod alignment_tokens =? 0 then S n'
            else aligned_count block_size alignment_tokens n'
  end.

Definition pop_unaligned (block_size alignment_tokens : Z) (computed : list (list Z)) : list (list Z) :=
  if block_size =? alignment_tokens then computed
  else match computed with
       | [] => []
       | c :: _ => take (aligned_count block_size alignment_tokens (length c)) <$> computed
       end.

Definition find_longest_window (p : pool) (hl0 : hash_list) (max_length : Z) (groups : list Z)
    (block_size sliding_window : Z) (drop_eagle_block : bool) (alignment_tokens : Z)
    : result (list (list Z) * Z) :=
  if negb (alignment_tokens mod block_size =? 0) then Raise AssertionError
  else
  result_bind (resolve_block_hashes hl0 (hash_block_size p) block_size false (Some alignment_tokens)) (λ hl,
  let need := _contiguous_blocks_for_hit sliding_window block_size drop_eagle_block in
  let max_num_blocks := max_length / block_size in
  result_bind (window_scan p groups hl block_size alignment_tokens need drop_eagle_block
                 (zrange_down max_num_blocks)
                 (replicate (length groups) (replicate (Z.to_nat max_num_blocks) null_block)) 0) (λ r,
  let '(computed, run, found) := r in
  let computed1 := if found then computed
                   else pop_unaligned block_size alignment_tokens ((λ c, py_take c run) <$> computed) in
  result_bind (hit_count computed1) (λ n,
  let computed2 := if drop_eagle_block && (0 <? n)
                   then pop_unaligned block_size alignment_tokens
                          ((λ c, take (length c - 1) c) <$> computed1)
                   else computed1 in
  result_bind (hit_count computed2) (λ n2, Ok (computed2, n2 * block_size))))).

(** *** Chunked local attention *)

(** The run of cached blocks at the indices [idxs]. *)
Fixpoint hit_run_at (p : pool) (groups : list Z) (hl : hash_list) (idxs : list Z)
    (computed : list (list Z)) : result (list (list Z)) :=
  match idxs with
  | [] => Ok computed
  | i :: idxs' =>
      result_bind (hl_get hl i) (λ h,
      result_bind (get_cached_block h groups p) (λ cached,
        match cached with
        | None | Some [] => Ok computed
        | Some bs => hit_run_at p groups hl idxs' (append_hit computed bs)
        end))
  end.

Definition find_longest_chunked (p : pool) (hl0 : hash_list) (max_length : Z) (groups : list Z)
    (block_size attention_chunk_size : Z) (drop_eagle_block : bool) (alignment_tokens : Z)
    : result (list (list Z) * Z) :=
  if drop_eagle_block then Raise AssertionError
  else if negb (block_size =? alignment_tokens) then Raise AssertionError
  else
  result_bind (resolve_block_hashes hl0 (hash_block_size p) block_size false (Some alignment_tokens)) (λ hl,
  let max_num_blocks := max_length / block_size in
  let start_idx := if 0 <? max_length
                   then max_length / attention_chunk_size * attention_chunk_size else 0 in
  let start_block := start_idx / block_size in
  result_bind (hit_run_at p groups hl (zrange start_block max_num_blocks)
                 (replicate (length groups) (replicate (Z.to_nat start_block) null_block))) (λ computed,
  result_bind (hit_count computed) (λ n, Ok (computed, n * block_size)))).

(** ** What a lookup finds *)

(** The blocks that cache hash [h], one per group. *)
Definition cached (p : pool) (groups : list Z) (h : bytes) : option (list Z) :=
  mapM (λ g, match make_block_hash_with_group_id h g with
             | Ok key => hc_get_one_block (cached_block_hash_to_block p) key
             | Raise _ => None
             end) groups.

(** Group ids fit the four bytes they are packed into. *)
Definition group_ids_ok (groups : list Z) : Prop := Forall (λ g, 0 ≤ g < 2 ^ 32) groups.

Lemma make_key_ok h g : 0 ≤ g < 2 ^ 32 → ∃ key, make_block_hash_with_group_id h g = Ok key.
Proof.
  intros Hg. unfold make_block_hash_with_group_id, to_bytes4.
  rewrite (proj2 (andb_true_iff _ _)); [by eexists|]. split; [apply Z.leb_le|apply Z.ltb_lt]; lia.
Qed.

Lemma get_cached_spec p groups h :
  group_ids_ok groups → get_cached_block h groups p = Ok (cached p groups h).
Proof.
  intros Hg. unfold get_cached_block, cached.
  cut (∀ acc, cached_of_groups h p groups acc
              = Ok ((λ bs, acc ++ bs) <$> mapM (λ g, match make_block_hash_with_group_id h g with
                   | Ok key => hc_get_one_block (cached_block_hash_to_block p) key
                   | Raise _ => None end) groups)).
  { intros ->. by destruct (mapM _ _). }
  induction Hg as [|g gs Hg Hgs IH]; intros acc; cbn [cached_of_groups mapM].
  { cbn. by rewrite app_nil_r. }
  destruct (make_key_ok h g Hg) as [key Hk]. rewrite Hk. cbn [result_bind].
  destruct (hc_get_one_block _ key) as [b|]; cbn; [|done].
  rewrite IH. destruct (mapM _ gs); cbn; [|done]. by rewrite <-(assoc app).
Qed.

Lemma cached_owned p groups h bs :
  cache_inv p → cached p groups h = Some bs →
  Forall2 (λ g b, ∃ key, make_block_hash_with_group_id h g = Ok key ∧ owns p b key) groups bs.
Proof.
  intros [Hok Hown]. unfold cached. rewrite mapM_Some. intros Hf.
  eapply Forall2_impl; [exact Hf|]. intros g b. cbn.
  destruct (make_block_hash_with_group_id h g) as [key|]; [|done]. rewrite hc_get_one_spec.
  intros Hb. exists key. split; [done|]. apply Hown.
  destruct (cached_ids _ key); [done|]. injection Hb as <-. set_solver.
Qed.

(** The request's hash that covers exactly its first [e] tokens. *)
Definition hash_upto (hs : list bytes) (hbs e : Z) : option bytes :=
  if 0 <? e then hs !! Z.to_nat (e / hbs - 1) else None.

(** Page [b] caches the request's first [e] tokens for group [g]. *)
Definition caches (p : pool) (hs : list bytes) (g e b : Z) : Prop :=
  ∃ h key, hash_upto hs (hash_block_size p) e = Some h ∧
           make_block_hash_with_group_id h g = Ok key ∧ owns p b key.

Lemma hl_list_view hs k (i : nat) :
  0 < k → hl_list (View hs k) !! i = hs !! Z.to_nat ((Z.of_nat i + 1) * k - 1).
Proof.
  intros Hk. cbn [hl_list].
  assert (∀ n, Z.of_nat n ≤ zlen hs / k →
    omap (λ i, hs !! Z.to_nat ((i + 1) * k - 1)) (zrange 0 (Z.of_nat n)) !! i =
    if decide (i < n)%nat then hs !! Z.to_nat ((Z.of_nat i + 1) * k - 1) else None) as Hn.
  { induction n as [|n IH]; intros Hle; [done|].
    assert (Z.of_nat n ≤ zlen hs / k) as Hle' by lia. specialize (IH Hle').
    rewrite Nat2Z.inj_succ, <-Z.add_1_r, zrange_snoc, omap_app by lia.
    assert (is_Some (hs !! Z.to_nat ((Z.of_nat n + 1) * k - 1))) as [h Hh].
    { apply lookup_lt_is_Some. unfold zlen in Hle.
      assert ((Z.of_nat n + 1) * k ≤ Z.of_nat (length hs)); [|lia].
      apply (Z.mul_le_mono_nonneg_r _ _ k) in Hle; [|lia].
      pose proof (Z.mul_div_le (Z.of_nat (length hs)) k ltac:(lia)). lia. }
    assert (∀ m, (m ≤ n)%nat →
      length (omap (λ i, hs !! Z.to_nat ((i + 1) * k - 1)) (zrange 0 (Z.of_nat m))) = m) as Hlen.
    { clear -Hle Hk. induction m as [|m IHm]; intros Hm; [done|].
      rewrite Nat2Z.inj_succ, <-Z.add_1_r, zrange_snoc, omap_app, length_app, IHm by lia.
      cbn. destruct (hs !! Z.to_nat ((Z.of_nat m + 1) * k - 1)) eqn:E; cbn; [lia|].
      apply lookup_ge_None in E. unfold zlen in Hle.
      apply (Z.mul_le_mono_nonneg_r _ _ k) in Hle; [|lia].
      pose proof (Z.mul_div_le (Z.of_nat (length hs)) k ltac:(lia)). nia. }
    cbn. rewrite Hh. destruct (decide (i < n)%nat) as [Hi|Hi].
    - rewrite decide_True, lookup_app_l by (rewrite ?Hlen; lia). exact IH.
    - rewrite lookup_app_r, Hlen by (rewrite ?Hlen; lia).
      destruct (decide (i = n)) as [->|]; [by rewrite Nat.sub_diag, decide_True by lia|].
      rewrite decide_False by lia. apply lookup_ge_None. cbn. lia. }
  assert (0 ≤ zlen hs / k) as Hpos by (apply Z.div_pos; [apply zlen_nonneg|lia]).
  specialize (Hn (Z.to_nat (zlen hs / k)) ltac:(lia)). rewrite Z2Nat.id in Hn by done.
  rewrite Hn. case_decide as Hi; [done|]. symmetry. apply lookup_ge_None.
  assert (zlen hs < (zlen hs / k + 1) * k); [|unfold zlen in *; nia].
  pose proof (Z.mod_pos_bound (zlen hs) k Hk). pose proof (Z.div_mod (zlen hs) k ltac:(lia)). lia.
Qed.

(** ** The run of cached blocks *)
Section Runs.
Context (p : pool) (groups : list Z) (Hids : group_ids_ok groups) (Hne : groups ≠ []).

(** The rows found, one block per group. *)
Fixpoint rows_of (hs : list bytes) : list (list Z) :=
  match hs with
  | [] => []
  | h :: hs' => match cached p groups h with Some bs => bs :: rows_of hs' | None => [] end
  end.

Lemma cached_length h bs : cached p groups h = Some bs → length bs = length groups.
Proof. unfold cached. by intros ->%mapM_Some%Forall2_length. Qed.

Lemma hit_run_spec hs computed :
  hit_run p groups hs computed = Ok (foldl append_hit computed (rows_of hs)).
Proof.
  revert computed. induction hs as [|h hs IH]; intros computed; cbn; [done|].
  rewrite get_cached_spec by done. cbn. destruct (cached p groups h) as [[|b bs]|] eqn:E; cbn.
  - apply cached_length in E. by destruct groups.
  - apply IH.
  - done.
Qed.

Lemma rows_of_lookup hs i bs :
  rows_of hs !! i = Some bs → ∃ h, hs !! i = Some h ∧ cached p groups h = Some bs.
Proof.
  revert i. induction hs as [|h hs IH]; intros [|i]; cbn; try done;
    destruct (cached p groups h) eqn:E; cbn; try done.
  - intros [= <-]. by exists h.
  - apply IH.
Qed.

Lemma rows_of_longest hs m :
  (∀ i, (i < m)%nat → ∃ h, hs !! i = Some h ∧ is_Some (cached p groups h)) →
  (m ≤ length (rows_of hs))%nat.
Proof.
  revert m. induction hs as [|h hs IH]; intros [|m] Hm; [lia| |lia|].
  - destruct (Hm O ltac:(lia)) as (? & ? & _). done.
  - destruct (Hm O ltac:(lia)) as (? & [= <-] & [bs Hc]). cbn. rewrite Hc. cbn.
    apply le_n_S, IH. intros i Hi. by apply (Hm (S i)); lia.
Qed.

Lemma rows_of_length hs : (length (rows_of hs) ≤ length hs)%nat.
Proof. induction hs as [|h hs IH]; cbn; [lia|]. destruct (cached p groups h); cbn; lia. Qed.

Lemma rows_width hs : Forall (λ r, length r = length groups) (rows_of hs).
Proof.
  apply Forall_lookup. intros i r (h & _ & Hc)%rows_of_lookup. by eapply cached_length.
Qed.
End Runs.

(** Appending the rows, seen column by column. *)
Lemma append_rows computed rows j :
  Forall (λ r, length r = length computed) rows →
  foldl append_hit computed rows !! j = (λ c, c ++ ((λ r, r !!! j) <$> rows)) <$> computed !! j.
Proof.
  revert computed. induction rows as [|r rows IH]; intros computed Hf.
  { cbn. destruct (computed !! j); cbn; [by rewrite app_nil_r|done]. }
  inversion_clear Hf as [|? ? Hr Hrs]. cbn. rewrite IH; unfold append_hit.
  - rewrite lookup_zip_with. destruct (computed !! j) as [c|] eqn:E; cbn; [|done].
    apply lookup_lt_Some in E. rewrite <-Hr in E.
    destruct (lookup_lt_is_Some_2 r j E) as [b Hb]. rewrite Hb. cbn.
    rewrite (list_lookup_total_correct r j b Hb). by rewrite <-(assoc app).
  - eapply Forall_impl; [exact Hrs|]. cbn. intros x ->. rewrite length_zip_with. lia.
Qed.

(** [append_rows] where the run starts: every column is the same list. *)
Lemma columns_of (n : nat) (start : list Z) rows :
  Forall (λ r, length r = n) rows →
  foldl append_hit (replicate n start) rows
  = (λ j, start ++ ((λ r, r !!! j) <$> rows)) <$> seq 0 n.
Proof.
  intros Hf. apply list_eq. intros j. rewrite append_rows by (by rewrite length_replicate).
  rewrite list_lookup_fmap. destruct (decide (j < n)%nat).
  - by rewrite lookup_replicate_2, lookup_seq_lt by lia.
  - rewrite lookup_seq_ge, (lookup_ge_None_2 (replicate n start)) by (rewrite ?length_replicate; lia). done.
Qed.

(** Probing the interior boundaries finds the highest one that is cached. *)
Lemma probe_tail_spec p groups hs lo (n : nat) :
  group_ids_ok groups → groups ≠ [] → 0 ≤ lo → lo + Z.of_nat n ≤ zlen hs →
  let at_ i := hs !! Z.to_nat i ≫= cached p groups in
  match probe_tail p groups (Raw hs) (rev (zrange lo (lo + Z.of_nat n))) with
  | Ok None => ∀ i, lo ≤ i < lo + Z.of_nat n → at_ i = None
  | Ok (Some (i, bs)) => lo ≤ i < lo + Z.of_nat n ∧ at_ i = Some bs ∧
                         ∀ k, i < k < lo + Z.of_nat n → at_ k = None
  | Raise _ => False
  end.
Proof.
  intros Hids Hne Hlo Hn at_. induction n as [|n IH].
  { rewrite zrange_empty by lia. cbn. lia. }
  rewrite Nat2Z.inj_succ, <-Z.add_1_r, Z.add_assoc, zrange_snoc, rev_app_distr by lia.
  set (m := lo + Z.of_nat n) in *. cbn -[at_].
  destruct (lookup_lt_is_Some_2 hs (Z.to_nat m)) as [h Hh]; [unfold zlen in Hn; lia|].
  rewrite (proj2 (py_index_Ok hs m h ltac:(lia)) Hh).
  cbn -[at_]. rewrite get_cached_spec by done. cbn -[at_].
  assert (at_ m = cached p groups h) as Hat by (unfold at_; by rewrite Hh).
  destruct (cached p groups h) as [[|b bs]|] eqn:E.
  - apply cached_length in E. by destruct groups.
  - rewrite Hat. split; [lia|]. split; [done|]. intros k Hk. lia.
  - specialize (IH ltac:(lia)). destruct (probe_tail _ _ _ _) as [[[i bs]|]|]; [| |done].
    + destruct IH as (? & ? & Hk). split; [lia|]. split; [done|]. intros k Hk'.
      destruct (decide (k = m)) as [->|]; [done|]. apply Hk. lia.
    + intros i Hi. destruct (decide (i = m)) as [->|]; [done|]. apply IH. lia.
Qed.

(** ** Full attention *)
Section FullHit.
Context (p : pool) (hs : list bytes) (max_length : Z) (groups : list Z) (bs a : Z).
Context (Hids : group_ids_ok groups) (Hne : groups ≠ []).
Context (Hcache : cache_inv p) (Hmax : 0 ≤ max_length).
Notation hbs := (hash_block_size p).
(** The two modes the coordinator uses: hits aligned to whole blocks, or to the
    hash boundaries inside a block. *)
Definition hit_mode : Prop :=
  0 < hbs ∧ 0 < bs ∧ bs mod hbs = 0 ∧ 0 < a ∧ (a mod bs = 0 ∨ a = hbs).
Context (Hmode : hit_mode).

(** The first [e] tokens can be served from the cache. *)
Definition coverable (e : Z) : Prop :=
  e mod a = 0 ∧ 0 ≤ e ≤ max_length ∧
  (∀ i, 0 ≤ i < e / bs → is_Some (hash_upto hs hbs ((i + 1) * bs) ≫= cached p groups)) ∧
  (e mod bs ≠ 0 → is_Some (hash_upto hs hbs e ≫= cached p groups)).

Definition fine : bool := (a <? bs) && (bs mod a =? 0).

Lemma fine_cases : (fine = true ∧ a = hbs ∧ a < bs) ∨ (fine = false ∧ a mod bs = 0).
Proof.
  unfold fine. destruct Hmode as (H1 & H2 & H3 & H4 & H5).
  destruct (decide (a mod bs = 0)) as [E|E].
  - right. split; [|done]. assert (bs ≤ a); [|by replace (a <? bs) with false by lia].
    apply Z.mod_divide in E; [|lia]. by apply Z.divide_pos_le.
  - left. destruct H5 as [?| ->]; [done|]. rewrite H3.
    assert (hbs < bs); [|by replace (hbs <? bs) with true by lia].
    apply Z.mod_divide in H3 as H3'; [|lia]. apply Z.divide_pos_le in H3'; [|lia].
    destruct (decide (hbs = bs)) as [<-|]; [|lia]. by rewrite Z.mod_same in E by lia.
Qed.

(** The list of the whole blocks' hashes. *)
Lemma full_list :
  ∃ hl full, resolve_block_hashes (Raw hs) hbs bs true (Some a) = Ok hl ∧
    (if fine then match hl with Raw hs => make_view hs a bs | View _ _ => Raise AssertionError end
     else Ok hl) = Ok full ∧ (fine = true → hl = Raw hs) ∧
    ∀ i : nat, hl_list full !! i = hash_upto hs hbs ((Z.of_nat i + 1) * bs).
Proof.
  pose proof Hmode as (H1 & H2 & H3 & H4 & _).
  assert (∀ i : nat, hash_upto hs hbs ((Z.of_nat i + 1) * bs)
                     = hs !! Z.to_nat ((Z.of_nat i + 1) * (bs / hbs) - 1)) as Hup.
  { intros i. unfold hash_upto. rewrite (proj2 (Z.ltb_lt 0 _)) by nia.
    apply Z.mod_divide in H3 as [k ->]; [|lia].
    by rewrite Z.mul_assoc, !Z.div_mul by lia. }
  assert (0 < bs / hbs) as Hpos.
  { apply Z.mod_divide in H3 as [k ->]; [|lia]. rewrite Z.div_mul by lia. nia. }
  assert (make_view hs hbs bs = Ok (View hs (bs / hbs))) as Hview
    by (unfold make_view; by rewrite H3).
  assert (∀ i : nat, hl_list (View hs (bs / hbs)) !! i = hash_upto hs hbs ((Z.of_nat i + 1) * bs)) as HV
    by (intros i; rewrite Hup; by apply hl_list_view).
  unfold resolve_block_hashes. destruct (bs =? hbs) eqn:E.
  - apply Z.eqb_eq in E. destruct fine_cases as [(-> & -> & ?)|(-> & _)]; [lia|].
    do 2 eexists. do 3 (split; [done|]). intros i. rewrite Hup, <-E, Z.div_same by lia.
    cbn. f_equal. lia.
  - cbn [andb]. fold fine. destruct fine_cases as [(Hf & Ha & ?)|(Hf & _)]; rewrite Hf.
    + rewrite Ha. exists (Raw hs), (View hs (bs / hbs)). by rewrite Hview.
    + rewrite Hview. exists (View hs (bs / hbs)), (View hs (bs / hbs)). by do 3 (split; [done|]).
Qed.

(** What the rows [R] found, covering [h0] tokens, have to satisfy. *)
Definition rows_serve (R : list (list Z)) (h0 : Z) : Prop :=
  0 ≤ h0 ≤ max_length ∧ (Z.min a bs | h0) ∧ zlen R = cdiv h0 bs ∧
  (∀ (i : nat) r, R !! i = Some r →
     hash_upto hs hbs (Z.min ((Z.of_nat i + 1) * bs) h0) ≫= cached p groups = Some r).

Lemma rows_serve_whole R :
  zlen R * bs ≤ max_length →
  (∀ (i : nat) r, R !! i = Some r →
     hash_upto hs hbs ((Z.of_nat i + 1) * bs) ≫= cached p groups = Some r) →
  rows_serve R (zlen R * bs).
Proof.
  intros Hlen HR. pose proof Hmode as (_ & H2 & H3 & H4 & _). pose proof (zlen_nonneg R).
  split; [nia|]. split; [apply Z.divide_mul_r|split; [symmetry; apply cdiv_unique; lia|]].
  - destruct fine_cases as [(_ & -> & ?)|(_ & Ha)].
    + rewrite Z.min_l by lia. apply Z.mod_divide; [lia|done].
    + apply Z.mod_divide, Z.divide_pos_le in Ha; [|lia|lia]. rewrite Z.min_r by lia. done.
  - intros i r Hi. rewrite Z.min_l; [by apply HR|]. apply lookup_lt_Some in Hi. unfold zlen. nia.
Qed.

Lemma fine_tail R :
  a = hbs → a < bs → zlen R * bs ≤ max_length →
  (∀ (i : nat) r, R !! i = Some r →
     hash_upto hs hbs ((Z.of_nat i + 1) * bs) ≫= cached p groups = Some r) →
  (∀ e, coverable e → e / bs ≤ zlen R) →
  let computed := foldl append_hit (replicate (length groups) []) R in
  let lo := zlen R * (bs / a) in
  let hi := Z.min (Z.min (lo + bs / a - 1) (max_length / a)) (zlen hs) in
  ∃ R' h0,
    result_bind (probe_tail p groups (Raw hs) (range_down (hi - 1) (lo - 1))) (λ o,
      match o with
      | None => Ok (computed, zlen R * bs)
      | Some (i, r) => Ok (append_hit computed r, (i + 1) * a)
      end) = Ok (foldl append_hit (replicate (length groups) []) R', h0) ∧
    rows_serve R' h0 ∧ (∀ e, coverable e → e ≤ h0).
Proof.
  intros Ha Hab Hlen HR Hlong computed lo hi. pose proof Hmode as (H1 & H2 & H3 & H4 & _).
  pose proof (zlen_nonneg R) as Hn.
  assert (∃ k, bs = k * a ∧ bs / a = k ∧ 1 < k) as (k & Hk & Hdiv & Hk1).
  { rewrite <-Ha in H3. apply Z.mod_divide in H3 as [k ->]; [|lia]. exists k.
    rewrite Z.div_mul by lia. split_and!; [done|done|nia]. }
  assert (∀ i, 0 ≤ i → hash_upto hs hbs ((i + 1) * a) = hs !! Z.to_nat i) as Hup.
  { intros i Hi. unfold hash_upto. rewrite (proj2 (Z.ltb_lt 0 _)) by nia.
    rewrite <-Ha, Z.div_mul by lia. f_equal. lia. }
  assert (∀ e, coverable e → e ≤ zlen R * bs ∨
    (e mod bs ≠ 0 ∧ ∃ i, e = (i + 1) * a ∧ lo ≤ i < hi)) as Hcov.
  { intros e Hc. pose proof (Hlong e Hc) as Hl. destruct Hc as (Hea & He & _ & Ht).
    destruct (decide (e ≤ zlen R * bs)) as [|Hgt]; [by left|right].
    pose proof (Z.div_mod e bs ltac:(lia)). pose proof (Z.mod_pos_bound e bs H2).
    assert (e mod bs ≠ 0) as Hm by nia. split; [done|].
    apply Z.mod_divide in Hea as [q Hq]; [|lia]. exists (q - 1). split; [lia|].
    assert (e / bs = zlen R) as Hd by nia.
    destruct (Ht Hm) as [r Hr]. rewrite Hq in Hr. replace q with (q - 1 + 1) in Hr by lia.
    rewrite Hup in Hr by nia.
    destruct (hs !! Z.to_nat (q - 1)) as [h|] eqn:Eh; [|done]. apply lookup_lt_Some in Eh.
    assert (q ≤ max_length / a) by (apply Z.div_le_lower_bound; lia).
    unfold hi, lo, zlen in *. rewrite Hdiv. nia. }
  assert (range_down (hi - 1) (lo - 1) = rev (zrange lo (lo + Z.of_nat (Z.to_nat (hi - lo))))) as ->.
  { unfold range_down. rewrite !Z.sub_add. destruct (decide (lo ≤ hi)).
    - do 2 f_equal. lia.
    - rewrite !zrange_empty by lia. done. }
  assert (0 ≤ lo) as Hlo by (unfold lo; rewrite Hdiv; nia).
  destruct (decide (hi ≤ lo)) as [Hempty|Hpos].
  { replace (Z.to_nat (hi - lo)) with 0%nat by lia. rewrite zrange_empty by lia. cbn.
    exists R, (zlen R * bs). split; [done|]. split; [by apply rows_serve_whole|].
    intros e [|(_ & i & _ & ?)]%Hcov; lia. }
  pose proof (probe_tail_spec p groups hs lo (Z.to_nat (hi - lo)) Hids Hne Hlo ltac:(lia)) as Hp.
  cbv zeta in Hp. replace (lo + Z.of_nat (Z.to_nat (hi - lo))) with hi in * by lia.
  destruct (probe_tail _ _ _ _) as [[[i r]|]|]; [| |done]; cbn.
  - destruct Hp as (Hi & Hat & Habove). exists (R ++ [r]), ((i + 1) * a).
    rewrite foldl_app. split; [done|].
    assert (zlen R * bs < (i + 1) * a < zlen R * bs + bs) as Hrange by (unfold hi, lo in *; nia).
    assert ((i + 1) * a ≤ max_length).
    { assert (i + 1 ≤ max_length / a) as Hle by lia.
      pose proof (Z.mul_div_le max_length a ltac:(lia)). nia. }
    split; [split_and!; [lia|lia|rewrite Z.min_l by lia; by eexists|..]|].
    + rewrite zlen_app. symmetry. apply cdiv_unique; [lia|]. change (zlen [r]) with 1. lia.
    + intros j r' [Hj|[Hge [Hz <-]%list_lookup_singleton_Some]]%lookup_app_Some.
      * apply lookup_lt_Some in Hj as Hl. rewrite Z.min_l; [by apply HR|]. unfold zlen in *. nia.
      * assert (Z.of_nat j = zlen R) as -> by (unfold zlen; lia).
        rewrite Z.min_r by lia. by rewrite Hup by lia.
    + intros e Hc. destruct (Hcov e Hc) as [|(Hm & i' & -> & Hi')]; [lia|].
      destruct Hc as (_ & _ & _ & Ht). destruct (Ht Hm) as [r' Hr'].
      rewrite Hup in Hr' by lia.
      assert (i' ≤ i); [|nia]. destruct (decide (i < i')) as [Hlt|]; [|lia].
      rewrite Habove in Hr' by lia. done.
  - exists R, (zlen R * bs). split; [done|]. split; [by apply rows_serve_whole|].
    intros e Hc. destruct (Hcov e Hc) as [|(Hm & i' & -> & Hi')]; [lia|].
    destruct Hc as (_ & _ & _ & Ht). destruct (Ht Hm) as [r' Hr'].
    rewrite Hup, Hp in Hr' by lia. done.
Qed.

(** Phases 1 and 2: whole blocks from the start, then the interior boundaries. *)
Lemma full_phases eagle :
  ∃ R h0,
    find_longest_full p (Raw hs) max_length groups bs eagle a =
      Ok (let h1 := if eagle && (0 <? h0) then h0 - Z.min a bs else h0 in
          let hit := h1 - h1 mod a in
          ((λ c, py_take c (cdiv hit bs)) <$> foldl append_hit (replicate (length groups) []) R, hit)) ∧
    rows_serve R h0 ∧ (∀ e, coverable e → e ≤ h0).
Proof.
  pose proof Hmode as (H1 & H2 & H3 & H4 & _).
  destruct full_list as (hl & full & Hres & Hfull & Hraw & HF).
  set (R0 := rows_of p groups (take (Z.to_nat (max_length / bs)) (hl_list full))).
  assert (0 ≤ max_length / bs) as Hm by (apply Z.div_pos; lia).
  assert (zlen R0 * bs ≤ max_length) as Hlen0.
  { pose proof (rows_of_length p groups (take (Z.to_nat (max_length / bs)) (hl_list full))) as Hl.
    fold R0 in Hl. rewrite length_take in Hl. unfold zlen.
    pose proof (Z.mul_div_le max_length bs ltac:(lia)). nia. }
  assert (∀ (i : nat) r, R0 !! i = Some r →
    hash_upto hs hbs ((Z.of_nat i + 1) * bs) ≫= cached p groups = Some r) as HR0.
  { intros i r (h & [Hh _]%lookup_take_Some & Hc)%rows_of_lookup. rewrite HF in Hh. by rewrite Hh. }
  assert (∀ e, coverable e → e / bs ≤ zlen R0) as Hlong.
  { intros e (_ & [He0 Hem] & Hc & _). unfold zlen. assert (0 ≤ e / bs) by (apply Z.div_pos; lia).
    cut (Z.to_nat (e / bs) ≤ length R0)%nat; [lia|]. apply rows_of_longest. intros i Hi.
    destruct (Hc (Z.of_nat i) ltac:(lia)) as [r Hr].
    destruct (hash_upto hs hbs ((Z.of_nat i + 1) * bs)) as [h|] eqn:E; [|done].
    exists h. split; [|by eexists]. apply lookup_take_Some. rewrite HF. split; [done|].
    pose proof (Z.div_le_mono e max_length bs ltac:(lia) Hem). lia. }
  set (cols0 := foldl append_hit (replicate (length groups) []) R0).
  assert (hit_count cols0 = Ok (zlen R0)) as Hcount.
  { unfold cols0. rewrite columns_of by apply rows_width. destruct groups; [done|].
    cbn. unfold zlen. by rewrite length_fmap. }
  unfold find_longest_full. rewrite Hres. cbn [result_bind]. fold fine.
  rewrite Hfull. cbn [result_bind]. rewrite (proj2 (Z.ltb_ge _ _)) by lia.
  rewrite hit_run_spec by done. fold R0 cols0. cbn [result_bind].
  rewrite Hcount. cbn [result_bind].
  destruct fine_cases as [(Hf & Ha & Hab)|(Hf & Ha)]; rewrite Hf.
  - rewrite (Hraw Hf). cbn [hl_len].
    destruct (fine_tail R0 Ha Hab Hlen0 HR0 Hlong) as (R & h0 & Hrun & HR & Hc).
    fold cols0 in Hrun. rewrite Hrun. cbn [result_bind fst snd]. by exists R, h0.
  - cbn [result_bind fst snd]. exists R0, (zlen R0 * bs). split; [done|].
    split; [by apply rows_serve_whole|]. intros e Hc. specialize (Hlong e Hc).
    destruct Hc as (He & _). apply Z.mod_divide in He; [|lia]. apply Z.mod_divide in Ha; [|lia].
    destruct (Z.divide_trans _ _ _ Ha He) as [q ->]. rewrite Z.div_mul in Hlong by lia. nia.
Qed.
End FullHit.

(** ** Registering full blocks *)

(** A block with no primary hash. *)
Definition unhashed_block (p : pool) (b : Z) : Prop :=
  blocks p !! b ≠ None ∧ is_null (blk p b) = false ∧
  block_hash (blk p b) = None ∧ block_hash_num_tokens (blk p b) = None.

(** More keys reach more blocks, and only the blocks [bs] changed. *)
Record registered (bs : list Z) (p p' : pool) : Prop := {
  rg_alloc : same_alloc p p';
  rg_cache : cache_inv p';
  rg_hbs : hash_block_size p' = hash_block_size p;
  rg_blk : ∀ x, x ∉ bs → blocks p' !! x = blocks p !! x;
  rg_ids : ∀ key x, x ∈ cached_ids (cached_block_hash_to_block p) key →
                    x ∈ cached_ids (cached_block_hash_to_block p') key;
}.

Lemma registered_nil p : cache_inv p → registered [] p p.
Proof. by split. Qed.

Lemma registered_cons b bs p p1 p2 :
  registered [b] p p1 → registered bs p1 p2 → registered (b :: bs) p p2.
Proof.
  intros [Ha Hc Hh Hb Hi] [Ha' Hc' Hh' Hb' Hi']. split; [by etrans|done|congruence| |auto].
  intros x Hx. rewrite Hb', Hb by set_solver. done.
Qed.

Lemma insert_unhashed key b nt p :
  cache_inv p → unhashed_block p b →
  ∃ p', _insert_block_hash key b nt p = (Ok tt, p') ∧ registered [b] p p' ∧
        b ∈ cached_ids (cached_block_hash_to_block p') key.
Proof.
  intros Hc (Hb & Hnul & Hh & Hn).
  assert (is_Some (refs p !! b)) as Hr.
  { unfold refs. rewrite lookup_fmap, fmap_is_Some. by destruct (blocks p !! b); [eexists|]. }
  destruct (insert_hash_run key b nt p Hr Hc (λ _, Hn)) as (p' & Hrun & Ha & Hc' & _).
  exists p'. split; [done|]. revert Hrun.
  unfold _insert_block_hash, bind, gets, modify, ret. rewrite Hh, (bool_decide_eq_false_2 (None = Some key)) by done.
  rewrite hc_contain_spec. case_bool_decide as Hin.
  { intros [= <-]. by split. }
  rewrite Hn. cbn. intros [= <-]. split.
  - split; [done|done|done| |].
    + intros x Hx. cbn. apply lookup_alter_ne. set_solver.
    + intros key' x Hx. cbn. rewrite cached_ids_insert. case_decide; [subst|done].
      apply elem_of_add_id. by right.
  - cbn. rewrite cached_ids_insert, decide_True by done. apply elem_of_add_id. by left.
Qed.

Lemma cache_full_loop_run hs' num_cached bs g (i : nat) blocks0 p :
  cache_inv p → 0 ≤ g < 2 ^ 32 → NoDup blocks0 → Forall (unhashed_block p) blocks0 →
  (i + length blocks0 ≤ length hs')%nat →
  ∃ p', cache_full_loop hs' num_cached bs g None (Z.of_nat i) blocks0 p = (Ok tt, p') ∧
        registered blocks0 p p' ∧
        ∀ (k : nat) h key, (k < length blocks0)%nat → hs' !! (i + k)%nat = Some h →
          make_block_hash_with_group_id h g = Ok key →
          cached_ids (cached_block_hash_to_block p') key ≠ [].
Proof.
  intros Hc Hg. revert i p Hc. induction blocks0 as [|b bs' IH]; intros i p Hc Hnd Hun Hlen.
  { exists p. split; [done|]. split; [by apply registered_nil|]. cbn. lia. }
  inversion_clear Hnd as [|? ? Hnin Hnd']. inversion_clear Hun as [|? ? Hb Hun'].
  cbn [length] in Hlen.
  destruct (lookup_lt_is_Some_2 hs' i ltac:(lia)) as [h Hh].
  destruct (make_key_ok h g Hg) as [key Hkey].
  destruct (insert_unhashed key b (Some ((num_cached + Z.of_nat i + 1) * bs)) p Hc Hb)
    as (p1 & Hrun & Hreg & Hin).
  assert (cache_full_block hs' num_cached bs g None (Z.of_nat i) b p = (Ok tt, p1)) as Hblock.
  { destruct Hb as (_ & Hnul & Hnone & _). unfold cache_full_block, bind, gets, lift.
    rewrite Hnul. cbn. rewrite (proj2 (py_index_Ok hs' (Z.of_nat i) h ltac:(lia))).
    - rewrite Hkey, Hnone. exact Hrun.
    - by rewrite Nat2Z.id. }
  destruct (IH (S i) p1) as (p2 & Hrun2 & Hreg2 & Hids2); [apply Hreg|done| |lia|].
  { rewrite Forall_forall in Hun' |- *. intros x Hx. specialize (Hun' x Hx).
    assert (x ≠ b) by congruence. unfold unhashed_block, blk in *.
    rewrite (rg_blk _ _ _ Hreg) by set_solver. done. }
  exists p2. cbn [cache_full_loop]. rewrite (bind_ok _ _ _ _ _ Hblock).
  replace (Z.of_nat i + 1) with (Z.of_nat (S i)) by lia.
  split; [done|]. split; [by eapply registered_cons|].
  intros [|k] h' key' Hk Hh' Hkey' Hnil.
  - rewrite Nat.add_0_r, Hh in Hh'. simplify_eq. rewrite Hkey in Hkey'. simplify_eq.
    apply (rg_ids _ _ _ Hreg2) in Hin. rewrite Hnil in Hin. set_solver.
  - revert Hnil. apply (Hids2 k h'); [cbn in Hk; lia| |done]. by rewrite Nat.add_succ_comm.
Qed.

(** Whatever the outcome, filling the cache leaves the allocation state alone. *)
Lemma remove_hashes_wp b p l :
  pool_inv p l → is_Some (refs p !! b) →
  wp (_remove_cached_block_hashes b) (λ _, keeps p l) (λ _, keeps p l) p.
Proof.
  intros Hi Hb. destruct (remove_hashes_keeps b p l Hi Hb) as (hs & p' & Hrun & Hk & _).
  unfold wp. by rewrite Hrun.
Qed.

Lemma insert_after_keeps key b nt p l p1 :
  is_Some (refs p !! b) → keeps p l p1 →
  wp (_insert_block_hash key b nt) (λ _, keeps p l) (λ _, keeps p l) p1.
Proof.
  intros Hb Hk. eapply wp_mono; [apply (insert_hash_keeps key b nt p1 l)| |].
  - apply Hk.
  - destruct Hk as [_ (_ & _ & -> & _)]. done.
  - intros ? p2 Hk2. by eapply keeps_trans.
  - intros ? p2 Hk2. by eapply keeps_trans.
Qed.

Lemma cache_full_block_keeps hs' n bs g mask i b p l :
  pool_inv p l → is_Some (refs p !! b) →
  wp (cache_full_block hs' n bs g mask i b) (λ _, keeps p l) (λ _, keeps p l) p.
Proof.
  intros Hi Hb. pose proof (keeps_refl _ _ Hi) as Hp. unfold cache_full_block.
  do 4 wp_step. destruct (match mask with None => _ | Some _ => _ end) as [keep|]; [|done].
  wp_step; [done|]. do 2 wp_step. destruct (py_index hs' i) as [h|]; [|done].
  do 2 wp_step. destruct (make_block_hash_with_group_id h g) as [key|]; [|done].
  wp_step. destruct (block_hash (blk p b)); [|by apply insert_after_keeps].
  do 2 wp_step; [|done]. wp_step. eapply wp_mono; [by apply (remove_hashes_wp b p l)| |done].
  intros ? p1 Hk. wp_step. by apply insert_after_keeps.
Qed.

Lemma cache_full_loop_keeps hs' n bs g mask i bl p l :
  pool_inv p l → (∀ b, b ∈ bl → is_Some (refs p !! b)) →
  wp (cache_full_loop hs' n bs g mask i bl) (λ _, keeps p l) (λ _, keeps p l) p.
Proof.
  revert i p. induction bl as [|b bl IH]; intros i p Hi Hb.
  { apply wp_ret. by apply keeps_refl. }
  cbn [cache_full_loop]. wp_step. eapply wp_mono; [apply cache_full_block_keeps; [done|set_solver]| |done].
  intros ? p1 Hk. eapply wp_mono; [apply IH; [apply Hk|]| |].
  - intros x Hx. destruct Hk as [_ (_ & _ & -> & _)]. set_solver.
  - intros ? p2 Hk2. exact (keeps_trans _ _ _ _ Hk Hk2).
  - intros ? p2 Hk2. exact (keeps_trans _ _ _ _ Hk Hk2).
Qed.

Lemma cache_full_blocks_keeps r bl m n bs g mask p l :
  pool_inv p l → (∀ b, b ∈ bl → is_Some (refs p !! b)) →
  wp (cache_full_blocks r bl m n bs g mask) (λ _, keeps p l) (λ _, keeps p l) p.
Proof.
  intros Hi Hb. pose proof (keeps_refl _ _ Hi) as Hp. unfold cache_full_blocks.
  wp_step; [done|]. do 2 wp_step; [|done]. do 4 wp_step.
  destruct (resolve_block_hashes _ _ _ _ _); [|done].
  apply cache_full_loop_keeps; [done|]. intros b Hin. apply Hb.
  eapply elem_of_sublist; [exact Hin|]. etrans; [apply sublist_take|apply sublist_drop].
Qed.

Lemma cache_partial_block_keeps r b n g bs p l :
  pool_inv p l → is_Some (refs p !! b) →
  wp (cache_partial_block r b n g bs) (λ _, keeps p l) (λ _, keeps p l) p.
Proof.
  intros Hi Hb. pose proof (keeps_refl _ _ Hi) as Hp. unfold cache_partial_block, _get_partial_block_hash.
  repeat first [done | wp_step]. destruct (py_index _ _) as [h|]; [|done].
  do 2 wp_step. destruct (make_block_hash_with_group_id h g) as [key|]; [|done].
  assert (∀ p1, keeps p l p1 → wp (_insert_block_hash key b
      (Some (n / hash_block_size p * hash_block_size p)) >> ret (Some key))
      (λ _, keeps p l) (λ _, keeps p l) p1) as Hins.
  { intros p1 Hk. wp_step. eapply wp_mono; [by apply insert_after_keeps| |done].
    intros ? p2 Hk2. by wp_step. }
  do 3 wp_step. wp_step.
  - wp_step. eapply wp_mono; [by apply (remove_hashes_wp b p l)| |done]. intros ? p1 Hk. wp_step.
    by apply Hins.
  - wp_step. by apply Hins.
Qed.

(** A key is found in one group when some block is registered under it. *)
Lemma cached_single p g h key :
  make_block_hash_with_group_id h g = Ok key →
  is_Some (cached p [g] h) ↔ cached_ids (cached_block_hash_to_block p) key ≠ [].
Proof.
  intros Hk. unfold cached. cbn. rewrite Hk, hc_get_one_spec.
  destruct (cached_ids _ key); cbn; [split; [by intros []|done]|]. split; [done|by eexists].
Qed.

Lemma cached_mono p p' bs g h :
  0 ≤ g < 2 ^ 32 → registered bs p p' → is_Some (cached p [g] h) → is_Some (cached p' [g] h).
Proof.
  intros Hg Hr. destruct (make_key_ok h g Hg) as [key Hk]. rewrite !(cached_single _ _ _ key Hk).
  destruct (cached_ids (cached_block_hash_to_block p) key) as [|x ids] eqn:E; [done|].
  intros _ Hnil. pose proof (rg_ids _ _ _ Hr key x) as Hi. rewrite E, Hnil in Hi. set_solver.
Qed.

(** The hash list [cache_full_blocks] slices, whole block by whole block. *)
Lemma cached_hash_list hs hbs bs :
  0 < hbs → 0 < bs → bs mod hbs = 0 →
  ∃ hl, resolve_block_hashes (Raw hs) hbs bs false None = Ok hl ∧
    ∀ i : nat, hl_list hl !! i = hash_upto hs hbs ((Z.of_nat i + 1) * bs).
Proof.
  intros Hh Hb Hd.
  assert (hit_mode (Pool 1 true hbs ∅ (fq_init []) ∅ ∅) bs bs) as Hmode.
  { unfold hit_mode. cbn. rewrite Z.mod_same by lia. auto 10. }
  destruct (full_list (Pool 1 true hbs ∅ (fq_init []) ∅ ∅) hs bs bs Hmode)
    as (hl & full & Hres & Hfull & _ & HF). cbn [hash_block_size] in *.
  assert (fine bs bs = false) as Hf by (unfold fine; by rewrite Z.ltb_irrefl).
  rewrite Hf in Hfull. injection Hfull as <-. exists hl. split; [|done].
  rewrite <-Hres. unfold resolve_block_hashes. destruct (bs =? hbs); [done|]. cbn.
  by rewrite Z.ltb_irrefl.
Qed.

(** Registering the blocks [m..n) extends what the cache can serve. *)
Lemma cache_full_blocks_run r bl (m n : nat) bs g p :
  cache_inv p → 0 ≤ g < 2 ^ 32 → 0 < hash_block_size p → 0 < bs → bs mod hash_block_size p = 0 →
  (m < n ≤ length bl)%nat → NoDup (take (n - m) (drop m bl)) →
  Forall (unhashed_block p) (take (n - m) (drop m bl)) →
  is_Some (hash_upto (block_hashes r) (hash_block_size p) (Z.of_nat n * bs)) →
  ∃ p', cache_full_blocks r bl (Z.of_nat m) (Z.of_nat n) bs g None p = (Ok tt, p') ∧
        registered (take (n - m) (drop m bl)) p p' ∧
        ∀ i : nat, (m ≤ i < n)%nat →
          is_Some (hash_upto (block_hashes r) (hash_block_size p) ((Z.of_nat i + 1) * bs)
                   ≫= cached p' [g]).
Proof.
  intros Hc Hg Hh Hb Hd Hmn Hnd Hun [h Hn].
  destruct (cached_hash_list (block_hashes r) (hash_block_size p) bs Hh Hb Hd) as (hl & Hres & HF).
  assert (n ≤ length (hl_list hl))%nat as Hlen.
  { assert (is_Some (hl_list hl !! (n - 1)%nat)) as ?%lookup_lt_is_Some; [|lia].
    rewrite HF. exists h. rewrite <-Hn. do 2 f_equal. lia. }
  set (new := take (n - m) (drop m bl)) in *.
  assert (length new = n - m)%nat as Hnew by (unfold new; rewrite length_take, length_drop; lia).
  destruct (cache_full_loop_run (drop m (hl_list hl)) (Z.of_nat m) bs g 0 new p Hc Hg Hnd Hun)
    as (p' & Hrun & Hreg & Hids); [rewrite length_drop; lia|].
  exists p'. split; [|split; [done|]].
  - unfold cache_full_blocks. rewrite (proj2 (Z.leb_gt _ _)) by lia.
    replace (Z.to_nat (Z.of_nat n - Z.of_nat m)) with (n - m)%nat by lia.
    rewrite Nat2Z.id. fold new. unfold bind, gets, lift, ensure, ret. by rewrite Hres.
  - intros i Hi. destruct (lookup_lt_is_Some_2 (hl_list hl) i ltac:(lia)) as [h' Hh'].
    rewrite HF in Hh'. rewrite Hh'. cbn. destruct (make_key_ok h' g Hg) as [key Hk].
    apply (cached_single _ _ _ key Hk). apply (Hids (i - m)%nat h'); [lia| |done].
    rewrite lookup_drop, HF, <-Hh'. do 2 f_equal. lia.
Qed.

(** ** Sliding window: the scan from the right *)
Section Window.
Context (p : pool) (hl : hash_list) (groups : list Z) (bs a need : Z) (eagle : bool) (N : nat).
Context (Hids : group_ids_ok groups) (Hne : groups ≠ []).
Context (Hget : ∀ i : nat, (i < N)%nat → ∃ h, hl_get hl (Z.of_nat i) = Ok h).

(** The blocks that cache the [k]-th block of the request. *)
Definition block_row (k : nat) : option (list Z) :=
  match hl_get hl (Z.of_nat k) with Ok h => cached p groups h | Raise _ => None end.

(** A hit may end with block [t]. *)
Definition hit_end_ok (t : nat) : bool :=
  (bs =? a) || (((if eagle then Z.of_nat t else Z.of_nat t + 1) * bs) mod a =? 0).

Definition needed : nat := Z.to_nat (Z.max 1 need).

(** The columns hold the cached blocks at [lo .. lo + r). *)
Definition cols_hold (computed : list (list Z)) (lo r : nat) : Prop :=
  length computed = length groups ∧
  ∀ j c, computed !! j = Some c → length c = N ∧
    ∀ k, (lo ≤ k < lo + r)%nat → ∃ row b, block_row k = Some row ∧ row !! j = Some b ∧ c !! k = Some b.

(** Some block of the window ending at [t] is missing (the window reaches down
    to [lo] at most). *)
Definition window_missing (lo t : nat) : Prop :=
  ∃ k, (lo ≤ k ≤ t)%nat ∧ (t < k + needed)%nat ∧ block_row k = None.

(** The blocks [lo ..) have been scanned, the current run has length [r]. *)
Definition scanned (lo r : nat) (computed : list (list Z)) : Prop :=
  (lo + r ≤ N)%nat ∧ (r < needed)%nat ∧ cols_hold computed lo r ∧
  (r ≠ 0%nat → hit_end_ok (lo + r - 1) = true) ∧
  ∀ t, (lo + r ≤ t < N)%nat → hit_end_ok t = true → window_missing lo t.

Lemma set_hit_holds computed lo r row :
  cols_hold computed (S lo) r → (lo < N)%nat → block_row lo = Some row →
  length row = length groups → cols_hold (set_hit (Z.of_nat lo) computed row) lo (S r).
Proof.
  intros [Hl Hc] Hlo Hrow Hlr. unfold set_hit. rewrite Nat2Z.id. split.
  { rewrite length_zip_with, Hl, Hlr. lia. }
  intros j c Hj. apply lookup_zip_with_Some in Hj as (c0 & b & -> & Hc0 & Hb).
  destruct (Hc j c0 Hc0) as [HN Hk]. split; [by rewrite length_insert|].
  intros k Hkr. destruct (decide (k = lo)) as [->|Hne'].
  - exists row, b. split; [done|]. split; [done|]. apply list_lookup_insert_eq. lia.
  - destruct (Hk k ltac:(lia)) as (row' & b' & H1 & H2 & H3). exists row', b'.
    rewrite list_lookup_insert_ne by done. done.
Qed.

Lemma cols_hold_zero computed lo lo' r : cols_hold computed lo r → cols_hold computed lo' 0.
Proof. intros [Hl Hc]. split; [done|]. intros j c Hj. split; [by eapply Hc|]. lia. Qed.

Lemma window_missing_mono lo t : window_missing (S lo) t → window_missing lo t.
Proof. intros (k & ? & ? & ?). exists k. split; [lia|done]. Qed.

(** What the scan returns. *)
Definition scan_found (computed : list (list Z)) : Prop :=
  ∃ (lo t : nat) cols, (lo ≤ t < N)%nat ∧ (t + 1 = lo + needed)%nat ∧ cols_hold cols lo needed ∧
    computed = take (S t) <$> cols ∧ hit_end_ok t = true ∧
    ∀ t', (t < t' < N)%nat → hit_end_ok t' = true → window_missing 0 t'.

Lemma window_scan_spec (lo r : nat) computed :
  (lo ≤ N)%nat → scanned lo r computed →
  match window_scan p groups hl bs a need eagle (zrange_down (Z.of_nat lo)) computed (Z.of_nat r) with
  | Ok (computed', _, true) => scan_found computed'
  | Ok (computed', run, false) => ∃ r' : nat, run = Z.of_nat r' ∧ scanned 0 r' computed'
  | Raise _ => False
  end.
Proof.
  revert r computed. induction lo as [|lo IH]; intros r computed Hlo Hs.
  { cbn. by exists r. }
  unfold zrange_down in *.
  rewrite Nat2Z.inj_succ, <-Z.add_1_r, zrange_snoc, rev_app_distr by lia. cbn [rev app window_scan].
  destruct (Hget lo ltac:(lia)) as [h Hh]. rewrite Hh. cbn [result_bind].
  rewrite get_cached_spec by done. cbn [result_bind].
  assert (block_row lo = cached p groups h) as Hrow by (unfold block_row; by rewrite Hh).
  destruct Hs as (Hb & Hr & Hc & Hend & Hmiss).
  destruct (cached p groups h) as [[|b row]|] eqn:E.
  - apply cached_length in E. by destruct groups.
  - destruct ((Z.of_nat r =? 0) && negb (bs =? a) &&
       negb (((if eagle then Z.of_nat lo else Z.of_nat lo + 1) * bs) mod a =? 0)) eqn:Eskip.
    + apply IH; [lia|]. apply andb_prop in Eskip as [[Hr0 H1]%andb_prop H2].
      assert (r = 0%nat) as -> by lia. apply negb_true_iff in H1, H2.
      split; [lia|]. split; [done|]. split; [by eapply cols_hold_zero|]. split; [done|].
      intros t Ht Hok. destruct (decide (t = lo)) as [->|].
      * unfold hit_end_ok in Hok. by rewrite H1, H2 in Hok.
      * apply window_missing_mono, Hmiss; [lia|done].
    + assert (hit_end_ok (lo + r) = true) as Hok.
      { destruct r as [|r]; [|replace (lo + S r)%nat with (S lo + S r - 1)%nat by lia; by apply Hend].
        rewrite Nat.add_0_r. cbn in Eskip. unfold hit_end_ok.
        destruct (bs =? a); [done|]. cbn in Eskip |- *. by apply negb_false_iff in Eskip. }
      pose proof (set_hit_holds computed lo r (b :: row) Hc ltac:(lia) Hrow
                    (cached_length p groups h _ E)) as Hset.
      destruct (need <=? Z.of_nat r + 1) eqn:En.
      * assert (S r = needed) as Hn by (unfold needed in *; lia). rewrite Hn in Hset.
        exists lo, (lo + r)%nat, (set_hit (Z.of_nat lo) computed (b :: row)).
        split; [lia|]. split; [lia|]. split; [done|]. split.
        { apply list_fmap_ext. intros _ c _. rewrite py_take_nonneg by lia. f_equal. lia. }
        split; [done|]. intros t' Ht' Hok'.
        destruct (Hmiss t' ltac:(lia) Hok') as (k & ? & ? & ?). exists k. split; [lia|done].
      * replace (Z.of_nat r + 1) with (Z.of_nat (S r)) by lia. apply IH; [lia|].
        split; [lia|]. split; [unfold needed in *; lia|]. split; [done|].
        split; [intros _; by replace (lo + S r - 1)%nat with (lo + r)%nat by lia|].
        intros t Ht Hok'. apply window_missing_mono, Hmiss; [lia|done].
  - apply (IH 0%nat); [lia|]. split; [lia|]. split; [lia|]. split; [by eapply cols_hold_zero|].
    split; [done|]. intros t Ht Hok. destruct (decide (t < S lo + r)%nat).
    + exists lo. split; [lia|]. split; [lia|done].
    + apply window_missing_mono, Hmiss; [lia|done].
Qed.
End Window.

(** ** Trimming to the alignment *)
Lemma aligned_count_spec bs a n :
  (aligned_count bs a n ≤ n)%nat ∧ (Z.of_nat (aligned_count bs a n) * bs) mod a = 0 ∧
  ((Z.of_nat n * bs) mod a = 0 → aligned_count bs a n = n).
Proof.
  induction n as [|n IH]; [by cbn|]. cbn [aligned_count].
  destruct ((Z.of_nat (S n) * bs) mod a =? 0) eqn:E.
  - apply Z.eqb_eq in E. done.
  - apply Z.eqb_neq in E. destruct IH as (? & ? & _). split; [lia|]. done.
Qed.

Section Trim.
Context (cols : list (list Z)) (N : nat) (Hne : cols ≠ []).
Context (HN : ∀ c, c ∈ cols → length c = N).

Lemma hit_count_take m : (m ≤ N)%nat → hit_count (take m <$> cols) = Ok (Z.of_nat m).
Proof.
  intros Hm. destruct cols as [|c cols']; [done|]. cbn. unfold zlen.
  rewrite length_take, (HN c) by set_solver. by rewrite Nat.min_l.
Qed.

Lemma pop_unaligned_take bs a m :
  0 < bs → (m ≤ N)%nat →
  ∃ m', pop_unaligned bs a (take m <$> cols) = take m' <$> cols ∧ (m' ≤ m)%nat ∧
        (Z.of_nat m' * bs) mod a = 0 ∧ ((Z.of_nat m * bs) mod a = 0 → m' = m).
Proof.
  intros Hbs Hm. unfold pop_unaligned. destruct (bs =? a) eqn:E.
  { apply Z.eqb_eq in E as <-. exists m. by rewrite Z.mod_mul by lia. }
  destruct (aligned_count_spec bs a m) as (H1 & H2 & H3). exists (aligned_count bs a m).
  split; [|done]. destruct cols as [|c cols']; [done|]. cbn [fmap list_fmap].
  assert (length (take m c) = m) as Hl.
  { rewrite length_take, (HN c) by set_solver. lia. }
  rewrite Hl. f_equal; [rewrite take_take; f_equal; lia|].
  transitivity (take (aligned_count bs a m) <$> (take m <$> cols')); [done|].
  rewrite <-list_fmap_compose. apply list_fmap_ext. intros _ c' _. cbn. rewrite take_take. f_equal. lia.
Qed.

Lemma drop_last_take m :
  (m ≤ N)%nat → (λ c, take (length c - 1) c) <$> (take m <$> cols) = take (m - 1) <$> cols.
Proof.
  intros Hm. rewrite <-list_fmap_compose. apply list_fmap_ext. intros i c Hc. cbn.
  rewrite length_take, (HN c), take_take by (by eapply list_elem_of_lookup_2). f_equal. lia.
Qed.
End Trim.

Lemma cdiv_le x b k : 0 < b → x ≤ k * b ↔ cdiv x b ≤ k.
Proof.
  intros Hb. assert (cdiv x b = (x + b - 1) / b) as ->.
  { apply cdiv_unique; [done|]. pose proof (Z.div_mod (x + b - 1) b ltac:(lia)).
    pose proof (Z.mod_pos_bound (x + b - 1) b Hb). nia. }
  pose proof (Z.div_mod (x + b - 1) b ltac:(lia)). pose proof (Z.mod_pos_bound (x + b - 1) b Hb). nia.
Qed.

(** The resolved list of a sliding-window or chunked group. *)
Lemma coarse_list hs hbs bs a :
  0 < hbs → 0 < bs → bs mod hbs = 0 →
  ∃ hl, resolve_block_hashes (Raw hs) hbs bs false (Some a) = Ok hl ∧
    ∀ i : nat, match hl_get hl (Z.of_nat i) with Ok h => Some h | Raise _ => None end
               = hash_upto hs hbs ((Z.of_nat i + 1) * bs).
Proof.
  intros Hh Hb Hd.
  assert (∀ (i : nat) k, 0 < k → bs = k * hbs →
    match py_index hs ((Z.of_nat i + 1) * k - 1) with Ok h => Some h | Raise _ => None end
    = hash_upto hs hbs ((Z.of_nat i + 1) * bs)) as Hk.
  { intros i k Hk Hbk. unfold hash_upto. rewrite (proj2 (Z.ltb_lt 0 _)) by nia.
    rewrite Hbk, Z.mul_assoc, Z.div_mul by lia. unfold py_index.
    assert ((Z.of_nat i + 1) * k - 1 <? 0 = false) as Hge by (apply Z.ltb_ge; clear -Hk; nia).
    rewrite Hge. cbn. rewrite Hge. by destruct (hs !! _). }
  unfold resolve_block_hashes. destruct (bs =? hbs) eqn:E.
  - apply Z.eqb_eq in E. exists (Raw hs). split; [done|]. intros i.
    rewrite <-(Hk i 1) by lia. cbn [hl_get].
    by replace ((Z.of_nat i + 1) * 1 - 1) with (Z.of_nat i) by lia.
  - cbn [andb]. unfold make_view. rewrite Hd. cbn. eexists. split; [done|]. intros i.
    apply Z.mod_divide in Hd as [k ->]; [|lia]. rewrite Z.div_mul by lia. cbn. apply Hk; nia.
Qed.

Section WindowHit.
Context (p : pool) (hs : list bytes) (max_length : Z) (groups : list Z) (bs a : Z).
Notation hbs := (hash_block_size p).
Definition window_mode : Prop :=
  0 < hbs ∧ 0 < bs ∧ bs mod hbs = 0 ∧ 0 < a ∧ a mod bs = 0 ∧
  (** the request's hashes reach [max_length] *)
  max_length / bs * bs ≤ zlen hs * hbs.
Context (Hmode : window_mode).
Notation N := (Z.to_nat (max_length / bs)).

Lemma window_coarse :
  ∃ hl, resolve_block_hashes (Raw hs) hbs bs false (Some a) = Ok hl ∧
    (∀ i : nat, (i < N)%nat → ∃ h, hl_get hl (Z.of_nat i) = Ok h) ∧
    ∀ i : nat, block_row p hl groups i
               = hash_upto hs hbs ((Z.of_nat i + 1) * bs) ≫= cached p groups.
Proof.
  destruct Hmode as (H1 & H2 & H3 & H4 & H5 & H6).
  destruct (coarse_list hs hbs bs a H1 H2 H3) as (hl & Hres & HF). exists hl. split; [done|]. split.
  - intros i Hi. specialize (HF i). unfold hash_upto in HF.
    destruct (hl_get hl (Z.of_nat i)) as [h|] eqn:Eh; [by exists h|].
    rewrite (proj2 (Z.ltb_lt 0 _)) in HF by nia.
    symmetry in HF. apply lookup_ge_None in HF.
    assert ((Z.of_nat i + 1) * bs ≤ zlen hs * hbs) as Hle by nia.
    apply Z.mod_divide in H3 as [k Hk]; [|lia].
    rewrite Hk, Z.mul_assoc in Hle, HF. rewrite Z.div_mul in HF by lia.
    assert ((Z.of_nat i + 1) * k ≤ zlen hs) by nia.
    assert (0 < (Z.of_nat i + 1) * k) by nia. unfold zlen in *. lia.
  - intros i. unfold block_row. rewrite <-HF. by destruct (hl_get hl (Z.of_nat i)).
Qed.

Context (w : Z) (Hw : 1 < w).
Lemma needed_eq e : needed (_contiguous_blocks_for_hit w bs e)
                  = (Z.to_nat (cdiv (w - 1) bs) + (if e then 1 else 0))%nat.
Proof.
  destruct Hmode as (_ & H2 & _). unfold needed, _contiguous_blocks_for_hit.
  assert (1 ≤ cdiv (w - 1) bs).
  { destruct (decide (cdiv (w - 1) bs ≤ 0)) as [Hle|]; [|lia].
    apply (cdiv_le (w - 1) bs 0 H2) in Hle. lia. }
  destruct e; lia.
Qed.

Context (eagle : bool) (Hids : group_ids_ok groups) (Hne : groups ≠ []) (Hmax : 0 ≤ max_length).

(** The hit: [m] blocks, the last ones of which the columns hold. *)
Definition window_hit (hl : hash_list) (m : nat) (cols : list (list Z)) : Prop :=
  (m ≤ N)%nat ∧ (Z.of_nat m * bs) mod a = 0 ∧
  (∃ lo r, cols_hold p hl groups N cols lo r ∧ (m ≤ lo + r)%nat ∧
           (lo = 0%nat ∨ (lo + Z.to_nat (cdiv (w - 1) bs) ≤ m)%nat)) ∧
  (eagle = false → ∀ t, (m ≤ t < N)%nat → ((Z.of_nat t + 1) * bs) mod a = 0 →
     window_missing p hl groups (_contiguous_blocks_for_hit w bs eagle) 0 t).

Lemma cols_hold_cols hl cols lo r :
  cols_hold p hl groups N cols lo r →
  length cols = length groups ∧ cols ≠ [] ∧ ∀ c, c ∈ cols → length c = N.
Proof.
  intros [Hl Hc]. split; [done|]. split; [intros ->; by destruct groups|].
  intros c [j Hj]%list_elem_of_lookup. by eapply Hc.
Qed.

Lemma hit_end_aligned (t : nat) :
  hit_end_ok bs a eagle t = true ↔ (Z.of_nat (if eagle then t else S t) * bs) mod a = 0.
Proof.
  destruct Hmode as (_ & H2 & _). unfold hit_end_ok. rewrite orb_true_iff, !Z.eqb_eq.
  destruct eagle; rewrite ?Nat2Z.inj_succ, <-?Z.add_1_r; (split; [|by right]);
    (intros [<-|?]; [by apply Z.mod_mul; lia|done]).
Qed.

(** The last lines: the EAGLE pop and the second alignment. *)
Lemma window_finish cols m1 :
  cols ≠ [] → (∀ c, c ∈ cols → length c = N) → (m1 ≤ N)%nat →
  (eagle = false → (Z.of_nat m1 * bs) mod a = 0) →
  ∃ m, result_bind (hit_count (take m1 <$> cols)) (λ n,
         let computed2 := if eagle && (0 <? n)
                          then pop_unaligned bs a ((λ c, take (length c - 1) c) <$> (take m1 <$> cols))
                          else take m1 <$> cols in
         result_bind (hit_count computed2) (λ n2, Ok (computed2, n2 * bs)))
       = Ok (take m <$> cols, Z.of_nat m * bs) ∧
       (m ≤ m1)%nat ∧ (Z.of_nat m * bs) mod a = 0 ∧
       (eagle = false → m = m1) ∧
       (eagle = true → (Z.of_nat (m1 - 1) * bs) mod a = 0 → m = (m1 - 1)%nat).
Proof.
  intros Hc HN Hm1 Hal. pose proof Hmode as (_ & H2 & _).
  rewrite (hit_count_take) with (N := N) by done. cbn [result_bind].
  destruct (eagle && (0 <? Z.of_nat m1)) eqn:E.
  - apply andb_prop in E as [-> Hpos].
    rewrite (drop_last_take) with (N := N) by done.
    destruct (pop_unaligned_take cols N Hc HN bs a (m1 - 1) H2 ltac:(lia)) as (m & -> & Hle & Hm & Heq).
    exists m. rewrite (hit_count_take) with (N := N) by (done || lia). cbn [result_bind].
    split; [done|]. split; [lia|]. split; [done|]. split; [done|]. auto.
  - exists m1. rewrite (hit_count_take) with (N := N) by done. cbn [result_bind].
    split; [done|]. split; [lia|]. apply andb_false_iff in E as [->|E].
    + by split_and!; [apply Hal|..].
    + assert (m1 = 0%nat) as -> by lia. by split_and!.
Qed.

Lemma find_longest_window_run :
  ∃ hl m cols,
    resolve_block_hashes (Raw hs) hbs bs false (Some a) = Ok hl ∧
    find_longest_window p (Raw hs) max_length groups bs w eagle a
      = Ok (take m <$> cols, Z.of_nat m * bs) ∧ window_hit hl m cols.
Proof.
  pose proof Hmode as (_ & H2 & _ & H4 & H5 & _).
  destruct window_coarse as (hl & Hres & Hget & _). exists hl.
  assert (0 ≤ max_length / bs) as Hm by (apply Z.div_pos; lia).
  pose proof (window_scan_spec p hl groups bs a (_contiguous_blocks_for_hit w bs eagle) eagle N
    Hids Hne Hget N 0 (replicate (length groups) (replicate N null_block)) ltac:(lia)) as Hscan.
  unfold find_longest_window. rewrite H5. cbn [negb Z.eqb].
  rewrite Hres. cbn [result_bind]. rewrite Z2Nat.id in Hscan by done.
  assert (scanned p hl groups bs a (_contiguous_blocks_for_hit w bs eagle) eagle N N 0
            (replicate (length groups) (replicate N null_block))) as Hinit.
  { split; [lia|]. split; [rewrite needed_eq; unfold needed in *|].
    { assert (1 ≤ cdiv (w - 1) bs); [|destruct eagle; lia].
      destruct (decide (cdiv (w - 1) bs ≤ 0)) as [Hle|]; [|lia].
      apply (cdiv_le (w - 1) bs 0 H2) in Hle. lia. }
    split; [|split; [done|lia]]. split; [apply length_replicate|].
    intros j c [-> _]%lookup_replicate. split; [apply length_replicate|lia]. }
  specialize (Hscan Hinit). clear Hinit.
  destruct (window_scan _ _ _ _ _ _ _ _ _ _) as [[[computed run] []]|]; [| |done]; cbn [result_bind].
  - destruct Hscan as (lo & t & cols & Ht & Hneed & Hhold & -> & Hend & Hmiss).
    destruct (cols_hold_cols hl cols _ _ Hhold) as (Hl & Hc & HN). apply hit_end_aligned in Hend.
    rewrite needed_eq in Hneed.
    destruct (window_finish cols (S t) Hc HN) as (m & Hrun & Hle & Hal & Hf & Ht'); [lia| |].
    { intros He. rewrite He in Hend. done. }
    exists m, cols. split; [done|]. split; [exact Hrun|]. split; [lia|]. split; [done|]. split.
    + exists lo, (needed (_contiguous_blocks_for_hit w bs eagle)). rewrite needed_eq in Hhold |- *.
      split; [done|]. destruct eagle.
      * rewrite Ht' by (rewrite ?Nat.sub_1_r; done). split; [lia|right; lia].
      * rewrite Hf by done. split; [lia|right; lia].
    + intros He t0 Ht0 Hal0. apply Hmiss; [rewrite (Hf He) in Ht0; lia|].
      apply hit_end_aligned. rewrite He, Nat2Z.inj_succ, <-Z.add_1_r. done.
  - destruct Hscan as (r & -> & Hr & _ & Hhold & Hend & Hmiss).
    destruct (cols_hold_cols hl computed _ _ Hhold) as (Hl & Hc & HN).
    rewrite (list_fmap_ext (λ c, py_take c (Z.of_nat r)) (take r)).
    2:{ intros i c _. rewrite py_take_nonneg by lia. by rewrite Nat2Z.id. }
    destruct (pop_unaligned_take computed N Hc HN bs a r H2 ltac:(lia)) as (m1 & -> & Hle1 & Hal1 & Heq1).
    destruct (window_finish computed m1 Hc HN ltac:(lia) (λ _, Hal1)) as (m & Hrun & Hle & Hal & Hf & _).
    exists m, computed. split; [done|]. split; [exact Hrun|]. split; [lia|]. split; [done|]. split.
    + exists 0%nat, r. split; [done|]. split; [lia|by left].
    + intros He t Ht Hat. apply Hmiss.
      * split; [|lia]. rewrite (Hf He), Heq1 in Ht; [lia|]. destruct r as [|r]; [done|].
        specialize (Hend ltac:(done)). apply hit_end_aligned in Hend. rewrite He in Hend.
        by replace (S (0 + S r - 1)) with (S r) in Hend by lia.
      * apply hit_end_aligned. rewrite He, Nat2Z.inj_succ, <-Z.add_1_r. done.
Qed.
End WindowHit.

(** ** Chunked local attention: the run from the current chunk *)
Section ChunkedHit.
Context (p : pool) (hs : list bytes) (max_length : Z) (groups : list Z) (bs chunk : Z).
Context (Hids : group_ids_ok groups) (Hne : groups ≠ []) (Hmax : 0 ≤ max_length) (Hchunk : 0 < chunk).
Context (Hmode : window_mode p hs max_length bs bs).
Notation hbs := (hash_block_size p).

(** The rows found at the block indices [a .. a + n). *)
Fixpoint rows_at (hl : hash_list) (a n : nat) : list (list Z) :=
  match n with
  | O => []
  | S n' => match block_row p hl groups a with
            | Some r => r :: rows_at hl (S a) n'
            | None => []
            end
  end.

Lemma rows_at_lookup hl a n i r :
  rows_at hl a n !! i = Some r → block_row p hl groups (a + i) = Some r ∧ (i < n)%nat.
Proof.
  revert a i. induction n as [|n IH]; intros a i; cbn; [done|].
  destruct (block_row p hl groups a) as [r0|] eqn:E; [|done]. destruct i as [|i]; cbn.
  - intros [= <-]. rewrite Nat.add_0_r. split; [done|lia].
  - intros [Hr Hi]%IH. rewrite Nat.add_succ_r. split; [done|lia].
Qed.

(** The rows stop at the end of the range or at the first miss. *)
Lemma rows_at_stop hl a n :
  length (rows_at hl a n) = n ∨ block_row p hl groups (a + length (rows_at hl a n)) = None.
Proof.
  revert a. induction n as [|n IH]; intros a; [by left|]. cbn.
  destruct (block_row p hl groups a) eqn:E; cbn; [|right; by rewrite Nat.add_0_r].
  rewrite Nat.add_succ_r. destruct (IH (S a)) as [->|?]; [by left|by right].
Qed.

Lemma hit_run_at_spec hl (a n : nat) computed :
  (∀ i : nat, (i < a + n)%nat → ∃ h, hl_get hl (Z.of_nat i) = Ok h) →
  hit_run_at p groups hl (zrange (Z.of_nat a) (Z.of_nat (a + n))) computed
    = Ok (foldl append_hit computed (rows_at hl a n)).
Proof.
  revert a computed. induction n as [|n IH]; intros a computed Hget.
  { rewrite zrange_empty by lia. done. }
  rewrite zrange_cons by lia. cbn [hit_run_at rows_at].
  destruct (Hget a ltac:(lia)) as [h Hh]. rewrite Hh. cbn [result_bind].
  rewrite get_cached_spec by done. cbn [result_bind].
  unfold block_row. rewrite Hh. destruct (cached p groups h) as [[|b row]|] eqn:E; [|cbn [foldl]|done].
  - apply cached_length in E. by destruct groups.
  - replace (Z.of_nat a + 1) with (Z.of_nat (S a)) by lia.
    replace (a + S n)%nat with (S a + n)%nat by lia. apply IH. intros i Hi. apply Hget. lia.
Qed.

Lemma find_longest_chunked_run :
  ∃ hl (start : nat) rows,
    resolve_block_hashes (Raw hs) hbs bs false (Some bs) = Ok hl ∧
    find_longest_chunked p (Raw hs) max_length groups bs chunk false bs =
      Ok (foldl append_hit (replicate (length groups) (replicate start null_block)) rows,
          (Z.of_nat start + zlen rows) * bs) ∧
    Z.of_nat start = max_length / chunk * chunk / bs ∧
    Z.of_nat start + zlen rows ≤ max_length / bs ∧
    (∀ i r, rows !! i = Some r → block_row p hl groups (start + i) = Some r) ∧
    (Z.of_nat start + zlen rows = max_length / bs ∨ block_row p hl groups (start + length rows) = None).
Proof.
  pose proof Hmode as (_ & H2 & _). destruct (window_coarse p hs max_length groups bs bs Hmode) as (hl & Hres & Hget & _).
  assert (0 ≤ max_length / chunk) by (apply Z.div_pos; lia).
  set (start := Z.to_nat (max_length / chunk * chunk / bs)).
  assert (Z.of_nat start = max_length / chunk * chunk / bs) as Hst
    by (unfold start; rewrite Z2Nat.id; [done|]; apply Z.div_pos; nia).
  assert (max_length / chunk * chunk / bs ≤ max_length / bs) as Hle.
  { apply Z.div_le_mono; [lia|]. pose proof (Z.mul_div_le max_length chunk Hchunk). lia. }
  set (n := (Z.to_nat (max_length / bs) - start)%nat).
  exists hl, start, (rows_at hl start n). split; [done|].
  assert (length (rows_at hl start n) ≤ n)%nat as Hlen.
  { destruct (decide (length (rows_at hl start n) ≤ n)%nat) as [|Hgt]; [done|].
    destruct (lookup_lt_is_Some_2 (rows_at hl start n) n ltac:(lia)) as [r Hr].
    apply rows_at_lookup in Hr as [_ ?]. lia. }
  split; [|split; [done|split; [|split]]].
  - unfold find_longest_chunked. rewrite Z.eqb_refl. cbn [negb]. rewrite Hres. cbn [result_bind].
    assert ((if 0 <? max_length then max_length / chunk * chunk else 0) = max_length / chunk * chunk) as ->.
    { destruct (0 <? max_length) eqn:E; [done|]. assert (max_length = 0) as -> by lia. done. }
    rewrite <-Hst.
    replace (max_length / bs) with (Z.of_nat (start + n)) by (unfold n; lia).
    rewrite hit_run_at_spec by (intros i Hi; apply Hget; unfold n in Hi; lia). cbn [result_bind].
    rewrite Nat2Z.id, columns_of.
    2:{ apply Forall_lookup. intros i r [Hr _]%rows_at_lookup. unfold block_row in Hr.
        destruct (hl_get hl _); [|done]. by eapply cached_length. }
    destruct groups as [|g gs]; [done|]. cbn [length seq fmap list_fmap hit_count result_bind].
    do 2 f_equal. rewrite zlen_app. unfold zlen. by rewrite length_replicate, length_fmap.
  - unfold zlen, n in *. lia.
  - intros i r [Hr _]%rows_at_lookup. done.
  - destruct (rows_at_stop hl start n) as [Hr|?]; [left|by right]. unfold zlen. rewrite Hr. unfold n. lia.
Qed.
End ChunkedHit.

(** ** The properties *)

Lemma reachable_cache size caching p : pool_reachable size caching p → cache_inv p.
Proof. intros ((l & _ & _ & Hc) & _)%pool_reachable_inv. exact Hc. Qed.

Lemma cached_caches p hs groups g e r j b :
  cache_inv p → hash_upto hs (hash_block_size p) e ≫= cached p groups = Some r →
  groups !! j = Some g → r !! j = Some b → caches p hs g e b.
Proof.
  intros Hc Hr Hg Hb. destruct (hash_upto _ _ _) as [h|] eqn:Eh; [|done].
  pose proof (cached_owned p groups h r Hc Hr) as HF.
  destruct (Forall2_lookup_lr _ _ _ _ _ _ HF Hg Hb) as (key & Hk & Ho). by exists h, key.
Qed.

Lemma full_hit_run p hs max_length groups bs a eagle :
  cache_inv p → hit_mode p bs a → 0 ≤ max_length →
  group_ids_ok groups → groups ≠ [] →
  ∃ computed hit,
    find_longest_full p (Raw hs) max_length groups bs eagle a = Ok (computed, hit) ∧
    hit mod a = 0 ∧ 0 ≤ hit ≤ max_length ∧ length computed = length groups ∧
    (∀ j g c, groups !! j = Some g → computed !! j = Some c →
       zlen c = cdiv hit bs ∧
       ∀ (i : nat) b, c !! i = Some b →
         ∃ e, Z.min ((Z.of_nat i + 1) * bs) hit ≤ e ≤ (Z.of_nat i + 1) * bs ∧ caches p hs g e b) ∧
    (eagle = false → ∀ e, coverable p hs max_length groups bs a e → e ≤ hit).
Proof.
  intros Hreach Hmode Hmax Hids Hne. pose proof Hmode as (H1 & H2 & H3 & H4 & _).
  destruct (full_phases p hs max_length groups bs a Hids Hne Hmax Hmode eagle)
    as (R & h0 & Hrun & (Hh0 & Hdiv & HRl & HR) & Hcov).
  set (h1 := if eagle && (0 <? h0) then h0 - Z.min a bs else h0) in *. cbv zeta in Hrun.
  set (hit := h1 - h1 mod a) in *.
  assert (0 ≤ h1 ≤ h0) as Hh1.
  { unfold h1. destruct (eagle && (0 <? h0)) eqn:E; [|lia].
    apply andb_prop in E as [_ E%Z.ltb_lt]. apply Z.divide_pos_le in Hdiv; lia. }
  pose proof (Z.mod_pos_bound h1 a H4) as Hm. pose proof (Z.div_mod h1 a ltac:(lia)) as Hdm.
  assert (hit = h1 / a * a) as Hhit by (unfold hit; lia).
  assert (0 ≤ hit) by (rewrite Hhit; pose proof (Z.div_pos h1 a); nia).
  assert (Forall (λ r, length r = length groups) R) as Hwid.
  { apply Forall_lookup. intros i r Hr%HR. destruct (hash_upto _ _ _); [|done].
    by eapply cached_length. }
  rewrite columns_of in Hrun by done. cbn [app] in Hrun.
  eexists _, hit. split; [exact Hrun|]. split; [rewrite Hhit; by apply Z.mod_mul; lia|].
  split; [lia|]. split; [by rewrite !length_fmap, length_seq|]. split.
  - intros j g c Hg Hc. rewrite !list_lookup_fmap, lookup_seq_lt in Hc by (by eapply lookup_lt_Some).
    cbn in Hc. injection Hc as <-.
    assert (0 ≤ cdiv hit bs ≤ cdiv h0 bs) as Hcd.
    { split; [destruct (decide (0 ≤ cdiv hit bs)); [done|]|].
      - assert (cdiv hit bs ≤ -1) as Hneg%cdiv_le by lia; [lia|lia].
      - apply cdiv_le; [lia|]. assert (h0 ≤ cdiv h0 bs * bs); [|lia]. by apply cdiv_le. }
    rewrite py_take_nonneg by lia. split.
    + unfold zlen in *. rewrite length_take, length_fmap. lia.
    + intros i b [Hb Hi]%lookup_take_Some.
      apply list_lookup_fmap_Some in Hb as (r & -> & Hr).
      assert (r !! j = Some (r !!! j)) as Hb.
      { apply list_lookup_lookup_total_lt. rewrite Forall_lookup in Hwid.
        rewrite (Hwid i r Hr). by eapply lookup_lt_Some. }
      exists (Z.min ((Z.of_nat i + 1) * bs) h0). split; [lia|].
      eapply cached_caches; [done|by apply HR|done|done].
  - intros -> e Hc. pose proof (Hcov e Hc). destruct Hc as (He & _).
    apply Z.mod_divide in He as [q ->]; [|lia]. cbn in h1. subst h1. rewrite Hhit.
    assert (q ≤ h0 / a); [|nia]. apply Z.div_le_lower_bound; lia.
Qed.

(** C21: the prefix-cache search of the full-attention groups never fails and is
    exact.  Its hit length is a multiple of the alignment and at most
    [max_length]; for every group it returns the blocks of that length, and
    each of them caches the request's own prefix up to the end of the block (or
    up to the hit, in the last, partial block).  Without EAGLE no longer aligned
    prefix is coverable: any [e] whose whole blocks are all cached, and whose
    interior boundary is cached when [e] ends inside a block, is at most the
    hit length.  This covers block-aligned and fine-grained lookups. *)
Theorem full_hit_correct size caching p hs max_length groups bs a eagle :
  pool_reachable size caching p → hit_mode p bs a → 0 ≤ max_length →
  group_ids_ok groups → groups ≠ [] →
  ∃ computed hit,
    find_longest_full p (Raw hs) max_length groups bs eagle a = Ok (computed, hit) ∧
    hit mod a = 0 ∧ 0 ≤ hit ≤ max_length ∧ length computed = length groups ∧
    (∀ j g c, groups !! j = Some g → computed !! j = Some c →
       zlen c = cdiv hit bs ∧
       ∀ (i : nat) b, c !! i = Some b →
         ∃ e, Z.min ((Z.of_nat i + 1) * bs) hit ≤ e ≤ (Z.of_nat i + 1) * bs ∧ caches p hs g e b) ∧
    (eagle = false → ∀ e, coverable p hs max_length groups bs a e → e ≤ hit).
Proof. intros Hreach%reachable_cache. by apply full_hit_run. Qed.

Lemma window_hit_run p hs max_length groups bs a w eagle :
  cache_inv p → window_mode p hs max_length bs a → 0 ≤ max_length → 1 < w →
  group_ids_ok groups → groups ≠ [] →
  ∃ computed n,
    find_longest_window p (Raw hs) max_length groups bs w eagle a = Ok (computed, n * bs) ∧
    (n * bs) mod a = 0 ∧ 0 ≤ n * bs ≤ max_length ∧ length computed = length groups ∧
    (∀ j g c, groups !! j = Some g → computed !! j = Some c →
       zlen c = n ∧
       ∀ (i : nat) b, c !! i = Some b → n * bs - (w - 1) < (Z.of_nat i + 1) * bs →
         caches p hs g ((Z.of_nat i + 1) * bs) b) ∧
    (eagle = false → ∀ e, e mod a = 0 → 0 ≤ e ≤ max_length →
       (∀ i, 0 ≤ i < e / bs → e - (w - 1) < (i + 1) * bs →
          is_Some (hash_upto hs (hash_block_size p) ((i + 1) * bs) ≫= cached p groups)) →
       e ≤ n * bs).
Proof.
  intros Hreach Hmode Hmax Hw Hids Hne. pose proof Hmode as (H1 & H2 & H3 & H4 & H5 & _).
  destruct (find_longest_window_run p hs max_length groups bs a Hmode w Hw eagle Hids Hne Hmax)
    as (hl & m & cols & Hres & Hrun & HmN & Hal & (lo & r & Hhold & Hmr & Hlo) & Hmiss).
  destruct (window_coarse p hs max_length groups bs a Hmode) as (hl' & Hres' & _ & Hrow).
  rewrite Hres in Hres'. injection Hres' as <-.
  pose proof (Z.mul_div_le max_length bs H2) as Hfl.
  assert (0 ≤ max_length / bs) by (apply Z.div_pos; lia).
  exists (take m <$> cols), (Z.of_nat m). split; [done|]. split; [done|]. split; [nia|].
  split; [rewrite length_fmap; apply Hhold|]. split.
  - intros j g c Hg Hc. apply list_lookup_fmap_Some in Hc as (c0 & -> & Hc0).
    destruct Hhold as [_ Hhold]. destruct (Hhold j c0 Hc0) as [HN Hk]. split.
    { unfold zlen. rewrite length_take, HN. lia. }
    intros i b [Hb Hi]%lookup_take_Some Hwin.
    assert (lo ≤ i)%nat as Hloi.
    { destruct Hlo as [->|Hlo]; [lia|].
      assert (¬ w - 1 ≤ (Z.of_nat m - Z.of_nat i - 1) * bs) as Hn by lia.
      rewrite cdiv_le in Hn by done. lia. }
    destruct (Hk i ltac:(lia)) as (row & b' & Hr & Hb' & Hci). rewrite Hci in Hb. injection Hb as ->.
    rewrite Hrow in Hr. by eapply cached_caches.
  - intros He e Hea Hemax Hcov. destruct (decide (e ≤ Z.of_nat m * bs)) as [|Hgt]; [done|exfalso].
    apply Z.mod_divide in H5; [|lia]. apply Z.mod_divide in Hea as Hea'; [|lia].
    destruct (Z.divide_trans _ _ _ H5 Hea') as [q ->]. rewrite Z.div_mul in Hcov by lia.
    assert (Z.of_nat m < q) by nia. assert (q ≤ max_length / bs) by (apply Z.div_le_lower_bound; lia).
    destruct (Hmiss He (Z.to_nat (q - 1))) as (k & Hk & Hk' & Hnone).
    { lia. }
    { by replace (Z.of_nat (Z.to_nat (q - 1)) + 1) with q by lia. }
    rewrite (needed_eq p hs max_length bs a Hmode w Hw eagle), He in Hk'.
    destruct (Hcov (Z.of_nat k) ltac:(lia)) as [row Hr]; [|rewrite <-Hrow, Hnone in Hr; done].
    assert (¬ w - 1 ≤ (q - Z.of_nat k - 1) * bs); [|lia]. rewrite cdiv_le by done. lia.
Qed.

Lemma chunked_hit_run p hs max_length groups bs chunk :
  cache_inv p → window_mode p hs max_length bs bs → 0 ≤ max_length → 0 < chunk → chunk mod bs = 0 →
  group_ids_ok groups → groups ≠ [] →
  ∃ computed n,
    find_longest_chunked p (Raw hs) max_length groups bs chunk false bs = Ok (computed, n * bs) ∧
    0 ≤ n * bs ≤ max_length ∧ length computed = length groups ∧
    (∀ j g c, groups !! j = Some g → computed !! j = Some c →
       zlen c = n ∧
       ∀ (i : nat) b, c !! i = Some b → n * bs / chunk * chunk < (Z.of_nat i + 1) * bs →
         caches p hs g ((Z.of_nat i + 1) * bs) b) ∧
    (∀ q, 0 ≤ q * bs ≤ max_length →
       (∀ i, 0 ≤ i < q → q * bs / chunk * chunk < (i + 1) * bs →
          is_Some (hash_upto hs (hash_block_size p) ((i + 1) * bs) ≫= cached p groups)) →
       q ≤ n).
Proof.
  intros Hc Hmode Hmax Hchunk Hdiv Hids Hne. pose proof Hmode as (H1 & H2 & H3 & H4 & H5 & _).
  destruct (find_longest_chunked_run p hs max_length groups bs chunk Hids Hne Hmax Hchunk Hmode)
    as (hl & start & rows & Hres & Hrun & Hst & Hle & Hrows & Hstop).
  destruct (window_coarse p hs max_length groups bs bs Hmode) as (hl' & Hres' & _ & Hrow).
  rewrite Hres in Hres'. injection Hres' as <-.
  apply Z.mod_divide in Hdiv as [k ->]; [|lia].
  pose proof (Z.mul_div_le max_length bs H2) as Hfl.
  set (M := max_length / (k * bs)) in *. assert (Z.of_nat start = M * k) as Hst'.
  { rewrite Hst, Z.mul_assoc. by apply Z.div_mul; lia. }
  assert (Hw : Forall (λ r, length r = length groups) rows).
  { apply Forall_lookup. intros i r Hr%Hrows. unfold block_row in Hr.
    destruct (hl_get hl _); [|done]. by eapply cached_length. }
  assert (HM : ∀ q, Z.of_nat start ≤ q → q * bs ≤ max_length → q * bs / (k * bs) = M).
  { intros q Hq1 Hq2. rewrite Z.div_mul_cancel_r by nia. unfold M in *.
    symmetry. apply (Z.div_unique _ _ _ (q - M * k)); [left; split; [lia|]|lia].
    pose proof (Z.mul_succ_div_gt max_length (k * bs) ltac:(lia)). nia. }
  set (n := Z.of_nat start + zlen rows) in *.
  assert (0 ≤ zlen rows) by (unfold zlen; lia).
  assert (Hn : n * bs ≤ max_length) by nia.
  exists (foldl append_hit (replicate (length groups) (replicate start null_block)) rows), n.
  split; [done|]. split; [nia|]. rewrite columns_of by done.
  split; [by rewrite length_fmap, length_seq|]. split.
  - intros j g c Hg Hcj. apply list_lookup_fmap_Some in Hcj as (j' & -> & [-> Hj]%lookup_seq).
    split. { unfold n. rewrite zlen_app. unfold zlen. by rewrite length_replicate, length_fmap. }
    intros i b Hb Hi. rewrite HM in Hi by lia.
    assert (start ≤ i)%nat by (assert (Z.of_nat start < Z.of_nat i + 1) by nia; lia).
    rewrite lookup_app_r, length_replicate in Hb by (by rewrite length_replicate).
    apply list_lookup_fmap_Some in Hb as (r & -> & Hr).
    pose proof (Hrows _ _ Hr) as Hbr. rewrite Hrow in Hbr.
    replace (start + (i - start))%nat with i in Hbr by lia.
    rewrite Forall_lookup in Hw. specialize (Hw _ _ Hr).
    apply lookup_lt_Some in Hg as Hlt. rewrite <-Hw in Hlt.
    destruct (lookup_lt_is_Some_2 r j Hlt) as [b Hb]. cbn in *.
    rewrite (list_lookup_total_correct _ _ _ Hb). by eapply cached_caches.
  - intros q Hq Hcov. destruct (decide (q ≤ n)) as [|Hgt]; [done|exfalso].
    assert (q ≤ max_length / bs) by (apply Z.div_le_lower_bound; lia).
    destruct Hstop as [Hstop|Hstop]; [lia|]. rewrite Hrow in Hstop.
    replace (Z.of_nat (start + length rows)) with n in Hstop by (unfold n, zlen; lia).
    destruct (Hcov n) as [x Hx]; [lia| |by rewrite Hx in Hstop].
    rewrite HM by lia. nia.
Qed.

(** The prefix-cache search of the sliding-window groups never fails.  Its
    hit of [n] blocks is aligned and within [max_length], and every block that
    meets the window of the next token (the [w - 1] tokens before the hit) is a
    block that caches the request's own prefix, in every group; earlier
    blocks may be the null block.  Without EAGLE no longer aligned prefix has
    its window cached. *)
Theorem window_hit_correct size caching p hs max_length groups bs a w eagle :
  pool_reachable size caching p → window_mode p hs max_length bs a → 0 ≤ max_length → 1 < w →
  group_ids_ok groups → groups ≠ [] →
  ∃ computed n,
    find_longest_window p (Raw hs) max_length groups bs w eagle a = Ok (computed, n * bs) ∧
    (n * bs) mod a = 0 ∧ 0 ≤ n * bs ≤ max_length ∧ length computed = length groups ∧
    (∀ j g c, groups !! j = Some g → computed !! j = Some c →
       zlen c = n ∧
       ∀ (i : nat) b, c !! i = Some b → n * bs - (w - 1) < (Z.of_nat i + 1) * bs →
         caches p hs g ((Z.of_nat i + 1) * bs) b) ∧
    (eagle = false → ∀ e, e mod a = 0 → 0 ≤ e ≤ max_length →
       (∀ i, 0 ≤ i < e / bs → e - (w - 1) < (i + 1) * bs →
          is_Some (hash_upto hs (hash_block_size p) ((i + 1) * bs) ≫= cached p groups)) →
       e ≤ n * bs).
Proof. intros Hreach%reachable_cache. by apply window_hit_run. Qed.

(** C23: registering and searching agree.  When the first [m] blocks of a
    request are already served by the cache, [cache_full_blocks] on its next
    blocks (real, distinct, not yet hashed) up to block [n] succeeds, leaves
    the allocation state alone, and the search then finds at least these [n]
    blocks; in particular a search limited to them is a full hit. *)
Theorem cached_prefix_found size caching p r bl (m n : nat) bs g max_length :
  pool_reachable size caching p → 0 ≤ g < 2 ^ 32 →
  hit_mode p bs bs → (m < n ≤ length bl)%nat →
  NoDup (take (n - m) (drop m bl)) → Forall (unhashed_block p) (take (n - m) (drop m bl)) →
  is_Some (hash_upto (block_hashes r) (hash_block_size p) (Z.of_nat n * bs)) →
  coverable p (block_hashes r) max_length [g] bs bs (Z.of_nat m * bs) →
  Z.of_nat n * bs ≤ max_length →
  ∃ p' computed hit,
    cache_full_blocks r bl (Z.of_nat m) (Z.of_nat n) bs g None p = (Ok tt, p') ∧ same_alloc p p' ∧
    find_longest_full p' (Raw (block_hashes r)) max_length [g] bs false bs = Ok (computed, hit) ∧
    Z.of_nat n * bs ≤ hit.
Proof.
  intros Hreach%reachable_cache Hg Hmode Hmn Hnd Hun Hn Hcov Hmax.
  pose proof Hmode as (H1 & H2 & H3 & _ & _).
  destruct (cache_full_blocks_run r bl m n bs g p Hreach Hg H1 H2 H3 Hmn Hnd Hun Hn)
    as (p' & Hrun & Hreg & Hnew).
  assert (hit_mode p' bs bs) as Hmode' by (unfold hit_mode; by rewrite (rg_hbs _ _ _ Hreg)).
  assert (group_ids_ok [g]) as Hids by (by constructor).
  destruct (full_phases p' (block_hashes r) max_length [g] bs bs Hids ltac:(done) ltac:(lia) Hmode' false)
    as (R & h0 & Hfind & _ & Hall).
  exists p'. do 2 eexists. split; [done|]. split; [apply Hreg|]. split; [exact Hfind|]. cbn.
  assert (coverable p' (block_hashes r) max_length [g] bs bs (Z.of_nat n * bs)) as Hc.
  { split; [by apply Z.mod_mul; lia|]. split; [lia|]. rewrite Z.mod_mul, Z.div_mul by lia.
    split; [|done]. intros i Hi. rewrite (rg_hbs _ _ _ Hreg).
    destruct (decide (i < Z.of_nat m)).
    - destruct Hcov as (_ & _ & Hold & _). rewrite Z.div_mul in Hold by lia.
      specialize (Hold i ltac:(lia)). destruct (hash_upto _ _ ((i + 1) * bs)); [|by destruct Hold].
      by eapply cached_mono.
    - specialize (Hnew (Z.to_nat i) ltac:(lia)). by rewrite Z2Nat.id in Hnew by lia. }
  apply Hall in Hc.
  pose proof (Z.mod_pos_bound h0 bs H2). pose proof (Z.div_mod h0 bs ltac:(lia)).
  assert (Z.of_nat n ≤ h0 / bs); [|nia]. apply Z.div_le_lower_bound; lia.
Qed.

(** *** A pool with a cached prefix *)
Definition prefix_hashes : list bytes := [[1]; [2]; [3]; [4]; [5]].
Definition prefix_req : Request := Req "r" [] 0 [] None None None prefix_hashes.
Definition prefix_pool : pool :=
  match pool_init 8 true 1 with
  | Ok p => p
  | Raise _ => Pool 0 false 0 ∅ (fq_init []) ∅ ∅
  end.
Definition prefix_pool0 : pool := (get_new_blocks 5 prefix_pool).2.
(** Five blocks of one token registered at once, in group 0. *)
Definition prefix_pool5 : pool := (cache_full_blocks prefix_req [1; 2; 3; 4; 5] 0 5 1 0 None prefix_pool0).2.
(** Two of them registered one by one. *)
Definition prefix_pool1 : pool := (_insert_block_hash [1; 0; 0; 0; 0] 1 (Some 1) prefix_pool0).2.
Definition prefix_pool2 : pool := (_insert_block_hash [2; 0; 0; 0; 0] 2 (Some 2) prefix_pool1).2.

(** A sliding-window hit shorter than the window loses an extra alignment
    unit under EAGLE.  With blocks of one token, an alignment of two and the
    same five cached blocks, a window of 4 gives a hit of 4 tokens (five
    matched, the last dropped), but a window of 11 gives only 2: the matched
    run is first trimmed to the alignment, then the EAGLE block is dropped and
    the run is trimmed again. *)
Theorem eagle_window_trims_twice :
  find_longest_window prefix_pool5 (Raw prefix_hashes) 5 [0] 1 4 true 2 = Ok ([[0; 2; 3; 4]], 4) ∧
  find_longest_window prefix_pool5 (Raw prefix_hashes) 5 [0] 1 11 true 2 = Ok ([[1; 2]], 2) ∧
  find_longest_window prefix_pool5 (Raw prefix_hashes) 5 [0] 1 11 false 2 = Ok ([[1; 2; 3; 4]], 4).
Proof. by vm_compute. Qed.

Lemma prefix_pool0_reachable : pool_reachable 8 true prefix_pool0.
Proof.
  apply (reach_call _ _ prefix_pool); [apply (reach_init _ _ 1); by vm_compute|].
  apply (call_new _ _ 5 (get_new_blocks 5 prefix_pool).1); [done|].
  unfold prefix_pool0. apply surjective_pairing.
Qed.
Lemma prefix_insert_reachable key b nt p :
  pool_reachable 8 true p → is_Some (refs p !! b) →
  pool_reachable 8 true (_insert_block_hash key b nt p).2.
Proof.
  intros Hp Hb. apply (reach_call _ _ p); [done|].
  apply (call_insert _ _ key b nt (_insert_block_hash key b nt p).1); [done|].
  apply surjective_pairing.
Qed.
Lemma prefix_pool2_reachable : pool_reachable 8 true prefix_pool2.
Proof.
  unfold prefix_pool2. apply prefix_insert_reachable; [|by vm_compute; eexists].
  unfold prefix_pool1. apply prefix_insert_reachable; [|by vm_compute; eexists].
  exact prefix_pool0_reachable.
Qed.

Lemma full_hit_correct_witness :
  hit_mode prefix_pool2 1 1 ∧
  ∃ computed hit,
    find_longest_full prefix_pool2 (Raw prefix_hashes) 5 [0] 1 false 1 = Ok (computed, hit) ∧
    hit mod 1 = 0 ∧ 0 ≤ hit ≤ 5.
Proof.
  assert (hit_mode prefix_pool2 1 1) as Hm by (split_and!; [done|done|done|done|by left]).
  split; [exact Hm|].
  destruct (full_hit_correct 8 true prefix_pool2 prefix_hashes 5 [0] 1 1 false prefix_pool2_reachable Hm)
    as (c & hit & H1 & H2 & H3 & _); [lia|by repeat constructor|done|].
  exists c, hit. exact (conj H1 (conj H2 H3)).
Defined.

Lemma window_hit_correct_witness :
  window_mode prefix_pool2 prefix_hashes 5 1 1 ∧
  ∃ computed n,
    find_longest_window prefix_pool2 (Raw prefix_hashes) 5 [0] 1 3 false 1 = Ok (computed, n * 1) ∧
    (n * 1) mod 1 = 0 ∧ 0 ≤ n * 1 ≤ 5.
Proof.
  assert (window_mode prefix_pool2 prefix_hashes 5 1 1) as Hm by (by split_and!; vm_compute).
  split; [exact Hm|].
  destruct (window_hit_correct 8 true prefix_pool2 prefix_hashes 5 [0] 1 1 3 false prefix_pool2_reachable Hm)
    as (c & n & H1 & H2 & H3 & _); [lia|lia|by repeat constructor|done|].
  exists c, n. exact (conj H1 (conj H2 H3)).
Defined.

Lemma cached_prefix_found_witness :
  ∃ p' computed hit,
    cache_full_blocks prefix_req [1; 2; 3] 0 3 1 0 None prefix_pool0 = (Ok tt, p') ∧
    same_alloc prefix_pool0 p' ∧
    find_longest_full p' (Raw prefix_hashes) 4 [0] 1 false 1 = Ok (computed, hit) ∧ 3 * 1 ≤ hit.
Proof.
  apply (cached_prefix_found 8 true prefix_pool0 prefix_req [1; 2; 3] 0 3 1 0 4).
  - exact prefix_pool0_reachable.
  - lia.
  - split_and!; [done|done|done|done|by left].
  - cbn. lia.
  - by apply NoDup_cons; split; [set_solver|apply NoDup_cons; split; [set_solver|apply NoDup_singleton]].
  - change (Forall (unhashed_block prefix_pool0) [1; 2; 3]).
    rewrite Forall_forall. intros b Hb. assert (b = 1 ∨ b = 2 ∨ b = 3) as [->|[->| ->]] by set_solver;
      unfold unhashed_block; by vm_compute.
  - by eexists.
  - split; [done|]. split; [lia|]. split; [|done].
    intros i Hi. change (0 ≤ i < 0) in Hi. lia.
  - lia.
Defined.
