(* ===== verification/SingleTypeManager.v ===== *)
(** * The block tables of one KV-cache group

    Models [SingleTypeKVCacheManager] and its subclasses
    [FullAttentionManager], [RSWAManager], [SlidingWindowManager] and
    [ChunkedLocalAttentionManager] of
    vllm/v1/core/single_type_kv_cache_manager.py: which pages each request
    holds in the group, how many a request still needs, and how pages are
    taken from, registered in and given back to the shared [BlockPool].

    The state is the pool together with the manager ([st]); block objects are
    named by their ids.  [req_to_blocks] is a defaultdict: reading an absent
    request inserts the empty list ([table]). *)

From S2P Require Import Prelude PyData FreeQueue BlockHash BlockHasher BlockPool CacheAllocator Ownership PrefixCache.
From stdpp Require Import base gmap sets list strings.
From Stdlib Require Import ZArith Lia.
Open Scope Z_scope.

(** The subclasses, with the fields of their specs. *)
Inductive attention_kind :=
  | FullAttention
  | RSWA (rswa_window : Z)
  | SlidingWindow (sliding_window extra_retained_tokens : Z)
  | ChunkedLocal (attention_chunk_size : Z).

(** What [__init__] fixes. *)
Record mconf := MConf {
  kind : attention_kind;
  block_size : Z;
  m_enable_caching : bool;
  kv_cache_group_id : Z;
  cache_hit_alignment_tokens : Z;
  use_eagle : bool;
  _record_new_block_ids : bool;
  _max_admission_blocks_per_request : option Z;
}.

Record manager := Manager {
  conf : mconf;
  new_block_ids : list Z;
  req_to_blocks : gmap string (list Z);
  num_cached_block : gmap string Z;
  _partial_hit_reqs : gmap string (Z * Z);
  _pending_cow_copies : list (Z * Z);
}.

(** What the managers read of a request of the scheduler. *)
Record SRequest := SReq {
  request : Request;
  shared_prefix_boundary : Z;
  num_computed_tokens : Z;
  num_in_flight_tokens : Z;
  (** [status in (WAITING, PREEMPTED)] *)
  waiting_or_preempted : bool;
}.

Definition st : Type := pool * manager.

Definition with_new_ids (f : list Z → list Z) (m : manager) : manager :=
  Manager (conf m) (f (new_block_ids m)) (req_to_blocks m) (num_cached_block m)
    (_partial_hit_reqs m) (_pending_cow_copies m).
Definition with_tables (f : gmap string (list Z) → gmap string (list Z)) (m : manager) : manager :=
  Manager (conf m) (new_block_ids m) (f (req_to_blocks m)) (num_cached_block m)
    (_partial_hit_reqs m) (_pending_cow_copies m).
Definition with_cached (f : gmap string Z → gmap string Z) (m : manager) : manager :=
  Manager (conf m) (new_block_ids m) (req_to_blocks m) (f (num_cached_block m))
    (_partial_hit_reqs m) (_pending_cow_copies m).
Definition with_partial (f : gmap string (Z * Z) → gmap string (Z * Z)) (m : manager) : manager :=
  Manager (conf m) (new_block_ids m) (req_to_blocks m) (num_cached_block m)
    (f (_partial_hit_reqs m)) (_pending_cow_copies m).
Definition with_cow (f : list (Z * Z) → list (Z * Z)) (m : manager) : manager :=
  Manager (conf m) (new_block_ids m) (req_to_blocks m) (num_cached_block m)
    (_partial_hit_reqs m) (f (_pending_cow_copies m)).

Definition on_pool {A} (m : M pool A) : M st A := zoom fst (λ p s, (p, s.2)) m.
Definition upd (f : manager → manager) : M st unit := modify (λ s, (s.1, f s.2)).

(** [self.req_to_blocks[request_id]] *)
Definition table (rid : string) : M st (list Z) :=
  let! t := gets (λ s : st, req_to_blocks s.2 !! rid) in
  match t with
  | Some l => ret l
  | None => upd (with_tables (insert rid [])) >> ret []
  end.
Definition set_table (rid : string) (l : list Z) : M st unit := upd (with_tables (insert rid l)).

(** ** Windows *)
Definition get_num_skipped_tokens (c : mconf) (num_computed_tokens : Z) : Z :=
  match kind c with
  | FullAttention | RSWA _ => 0
  | SlidingWindow sliding_window extra_retained_tokens =>
      Z.max 0 (num_computed_tokens - sliding_window + 1 - extra_retained_tokens)
  | ChunkedLocal attention_chunk_size =>
      num_computed_tokens / attention_chunk_size * attention_chunk_size
  end.

Definition _get_num_evictable_blocks (p : pool) (bs : list Z) : Z :=
  zlen (filter (λ b, ref_cnt (blk p b) = 0 ∧ is_null (blk p b) = false) bs).

Definition _has_partial_local_hit (c : mconf) (new_computed_blocks : list Z)
    (num_local_computed_tokens : Z) : bool :=
  (0 <? zlen new_computed_blocks) && negb (num_local_computed_tokens mod block_size c =? 0).

(** ** How many blocks a request still needs *)
Definition get_num_blocks_to_allocate (s : st) (rid : string) (num_tokens : Z)
    (new_computed_blocks : list Z) (total_computed_tokens num_local_computed_tokens : Z)
    (apply_admission_cap : bool) : result Z :=
  let c := conf s.2 in
  let required0 := cdiv num_tokens (block_size c) in
  let num_required_blocks :=
    match _max_admission_blocks_per_request c with
    | Some cap => if apply_admission_cap then Z.min required0 cap else required0
    | None => required0
    end in
  let num_req_blocks := zlen (default [] (req_to_blocks s.2 !! rid)) in
  if bool_decide (is_Some (num_cached_block s.2 !! rid)) then
    if negb (zlen new_computed_blocks =? 0) then Raise AssertionError
    else Ok (Z.max (num_required_blocks - num_req_blocks) 0)
  else
    let num_skipped_tokens := get_num_skipped_tokens c total_computed_tokens in
    let num_local_computed_blocks := zlen new_computed_blocks + num_req_blocks in
    let num_skipped_blocks := num_skipped_tokens / block_size c in
    let num_new_blocks :=
      Z.max (num_required_blocks - Z.max num_skipped_blocks num_local_computed_blocks) 0 in
    let num_skipped_new_computed_blocks := Z.max 0 (num_skipped_blocks - num_req_blocks) in
    let num_evictable_blocks := _get_num_evictable_blocks s.1
      (drop (Z.to_nat num_skipped_new_computed_blocks) new_computed_blocks) in
    let num_new_blocks' :=
      if _has_partial_local_hit c new_computed_blocks num_local_computed_tokens
      then num_new_blocks + 1 else num_new_blocks in
    Ok (num_new_blocks' + num_evictable_blocks).

(** ** Allocation *)
Definition add_local_computed_blocks (rid : string) (new_computed_blocks : list Z)
    (num_local_computed_tokens num_external_computed_tokens : Z) : M st unit :=
  let! c := gets (λ s : st, conf s.2) in
  let! req_blocks := table rid in
  ensure (zlen req_blocks =? 0) AssertionError >>
  let num_skipped_tokens :=
    get_num_skipped_tokens c (num_local_computed_tokens + num_external_computed_tokens) in
  let num_skipped_blocks := num_skipped_tokens / block_size c in
  let new_computed := if 0 <? num_skipped_blocks
                      then drop (Z.to_nat num_skipped_blocks) new_computed_blocks
                      else new_computed_blocks in
  (if m_enable_caching c then on_pool (touch new_computed)
   else ensure (bool_decide (new_computed = [])) AssertionError) >>
  let req_blocks' := req_blocks ++ replicate (Z.to_nat num_skipped_blocks) null_block ++ new_computed in
  set_table rid req_blocks' >>
  upd (with_cached (insert rid (zlen req_blocks'))) >>
  if _has_partial_local_hit c new_computed num_local_computed_tokens then
    let block_idx := num_local_computed_tokens / block_size c in
    let! tail := lift (py_index new_computed (-1)) in
    upd (with_partial (insert rid (block_idx, tail))) >>
    upd (with_cached (insert rid block_idx))
  else ret tt.

Definition record_ids (ids : list Z) : M st unit :=
  let! c := gets (λ s : st, conf s.2) in
  when _record_new_block_ids c do upd (with_new_ids (λ l, l ++ ids)).

Definition allocate_external_computed_blocks (rid : string)
    (num_local_computed_tokens num_external_computed_tokens : Z) : M st unit :=
  let! c := gets (λ s : st, conf s.2) in
  let num_total_computed_tokens := num_local_computed_tokens + num_external_computed_tokens in
  let num_skipped_tokens := get_num_skipped_tokens c num_total_computed_tokens in
  let external := if 0 <? num_skipped_tokens
                  then Z.min (num_total_computed_tokens - num_skipped_tokens)
                         num_external_computed_tokens
                  else num_external_computed_tokens in
  if external <=? 0 then ret tt
  else
    let! req_blocks := table rid in
    let num_new_blocks := Z.max 0 (cdiv num_total_computed_tokens (block_size c) - zlen req_blocks) in
    let! allocated_blocks := on_pool (get_new_blocks num_new_blocks) in
    set_table rid (req_blocks ++ allocated_blocks) >>
    record_ids allocated_blocks >>
    ret tt.

Definition _apply_cow (rid : string) (block_idx source_block cow_block : Z) : M st unit :=
  let! req_blocks := table rid in
  ensure (block_idx <? zlen req_blocks) AssertionError >>
  let! b := lift (py_index req_blocks block_idx) in
  ensure (b =? source_block) AssertionError >>
  let! k := gets (λ s : st, blk s.1 source_block) in
  ensure (negb (is_null k) && (0 <? ref_cnt k)) AssertionError >>
  let! l := lift (py_set_index req_blocks block_idx cow_block) in
  set_table rid l >>
  upd (with_cow (λ ps, ps ++ [(source_block, cow_block)])) >>
  on_pool (modify (upd_blk cow_block (set_ref_cnt (λ r, r + 1)))).

(** The partial-hit redirect at the start of [allocate_new_blocks]. *)
Definition cow_redirect (rid : string) : M st (list Z) :=
  let! o := gets (λ s : st, _partial_hit_reqs s.2 !! rid) in
  match o with
  | None => ret []
  | Some (block_idx, source_block) =>
      upd (with_partial (delete rid)) >>
      let! bs := on_pool (get_new_blocks 1) in
      let! cow_block := lift (py_index bs 0) in
      _apply_cow rid block_idx source_block cow_block >>
      upd (with_new_ids (λ l, l ++ [cow_block])) >>
      ret [cow_block]
  end.

Definition allocate_new_blocks (rid : string) (num_tokens : Z) : M st (list Z) :=
  let! cow_blocks := cow_redirect rid in
  let! c := gets (λ s : st, conf s.2) in
  let! req_blocks := table rid in
  let num_new_blocks := cdiv num_tokens (block_size c) - zlen req_blocks in
  if num_new_blocks <=? 0 then ret cow_blocks
  else
    let! new_blocks := on_pool (get_new_blocks num_new_blocks) in
    set_table rid (req_blocks ++ new_blocks) >>
    record_ids new_blocks >>
    ret (cow_blocks ++ new_blocks).

Definition take_new_block_ids : M st (list Z) :=
  let! ids := gets (λ s : st, new_block_ids s.2) in
  upd (with_new_ids (λ _, [])) >> ret ids.

Definition take_pending_cow_copies : M st (list (Z * Z)) :=
  let! ps := gets (λ s : st, _pending_cow_copies s.2) in
  upd (with_cow (λ _, [])) >> ret ps.

(** ** Registering blocks in the prefix cache *)

(** [for j in range(lo, hi): mask[j - start_block] = True] *)
Definition set_mask (start_block lo hi : Z) (mask : list bool) : list bool :=
  foldl (λ m j, <[Z.to_nat (j - start_block) := true]> m) mask (zrange lo hi).

(** [reachable_block_mask] of the sliding window. *)
Definition window_block_mask (sliding_window block_size0 start_block end_block alignment_tokens : Z)
    (use_eagle0 : bool) (retention_interval : option Z) (reachable_boundaries : list Z)
    : result (option (list bool)) :=
  if negb (alignment_tokens mod block_size0 =? 0) then Raise AssertionError
  else
    let need := _contiguous_blocks_for_hit sliding_window block_size0 use_eagle0 in
    let shift := if use_eagle0 then 1 else 0 in
    let segment_tokens := match retention_interval with
                          | None => Some alignment_tokens
                          | Some ri => if ri =? 0 then None else Some ri
                          end in
    let per_segment := match segment_tokens with Some t => Some (t / block_size0) | None => None end in
    let tails (mask : list bool) :=
      match retention_interval with
      | None => mask
      | Some _ => foldl (λ m boundary_tokens,
          let end_ := boundary_tokens / alignment_tokens * alignment_tokens / block_size0 + shift in
          set_mask start_block (Z.max start_block (end_ - need)) (Z.min end_block end_) m)
          mask reachable_boundaries
      end in
    match per_segment with
    | Some ps =>
        if ps <=? need then Ok None
        else Ok (Some (tails ((λ i, (shift <=? i) && (ps - need <=? (i - shift) mod ps))
                                <$> zrange start_block end_block)))
    | None => Ok (Some (tails (replicate (Z.to_nat (end_block - start_block)) false)))
    end.

Definition reachable_block_mask (c : mconf) (start_block end_block : Z)
    (retention_interval : option Z) (reachable_boundaries : list Z) : result (option (list bool)) :=
  match kind c with
  | SlidingWindow sliding_window _ =>
      window_block_mask sliding_window (block_size c) start_block end_block
        (cache_hit_alignment_tokens c) (use_eagle c) retention_interval reachable_boundaries
  | _ => Ok None
  end.

(** [SingleTypeKVCacheManager.cache_blocks] *)
Definition cache_blocks_base (r : SRequest) (num_tokens : Z) (retention_interval : option Z) : M st unit :=
  let rid := req_id (request r) in
  let! c := gets (λ s : st, conf s.2) in
  let! num_cached_blocks := gets (λ s : st, default 0 (num_cached_block s.2 !! rid)) in
  let num_full_blocks := num_tokens / block_size c in
  if num_full_blocks <=? num_cached_blocks then ret tt
  else
    let reachable_boundaries := (num_prompt_tokens (request r) - 1) ::
      (if shared_prefix_boundary r =? 0 then [] else [shared_prefix_boundary r]) in
    let! block_mask := lift (reachable_block_mask c num_cached_blocks num_full_blocks
                               retention_interval reachable_boundaries) in
    let! bs := table rid in
    on_pool (cache_full_blocks (request r) bs num_cached_blocks num_full_blocks (block_size c)
               (kv_cache_group_id c) block_mask) >>
    upd (with_cached (insert rid num_full_blocks)).

Definition _cache_partial_tail_block (r : SRequest) (num_tokens : Z) : M st unit :=
  let rid := req_id (request r) in
  let! c := gets (λ s : st, conf s.2) in
  let! hbs := gets (λ s : st, hash_block_size s.1) in
  let boundary_tokens := num_prompt_tokens (request r) / hbs * hbs in
  if (boundary_tokens =? 0) || (num_tokens <? boundary_tokens) then ret tt
  else if boundary_tokens mod block_size c =? 0 then ret tt
  else
    let! bs := table rid in
    let block_idx := boundary_tokens / block_size c in
    if zlen bs <=? block_idx then ret tt
    else
      let! b := lift (py_index bs block_idx) in
      on_pool (cache_partial_block (request r) b boundary_tokens (kv_cache_group_id c) (block_size c)) >>
      ret tt.

Definition cache_blocks (r : SRequest) (num_tokens : Z) (retention_interval : option Z) : M st unit :=
  let! c := gets (λ s : st, conf s.2) in
  cache_blocks_base r num_tokens retention_interval >>
  match kind c with
  | FullAttention | RSWA _ =>
      let! hbs := gets (λ s : st, hash_block_size s.1) in
      if block_size c =? hbs then ret tt else _cache_partial_tail_block r num_tokens
  | _ => ret tt
  end.

(** ** Giving blocks back *)
Definition pop_blocks_for_free (rid : string) : M st (list Z) :=
  let! req_blocks := gets (λ s : st, default [] (req_to_blocks s.2 !! rid)) in
  upd (with_tables (delete rid)) >>
  upd (with_cached (delete rid)) >>
  upd (with_partial (delete rid)) >>
  ret req_blocks.

Definition free (rid : string) : M st unit :=
  let! bs := pop_blocks_for_free rid in
  on_pool (free_blocks (rev bs)).

(** The backward loop: the blocks freed and the table left. *)
Fixpoint null_range (idxs : list Z) (l freed : list Z) : result (list Z * list Z) :=
  match idxs with
  | [] => Ok (l, freed)
  | i :: idxs' =>
      result_bind (py_index l i) (λ b,
        if b =? null_block then Ok (l, freed)
        else result_bind (py_set_index l i null_block) (λ l', null_range idxs' l' (freed ++ [b])))
  end.

Definition _remove_blocks_in_range (rid : string) (first_block last_block : Z) : M st unit :=
  let! o := gets (λ s : st, req_to_blocks s.2 !! rid) in
  match o with
  | None => ret tt
  | Some l =>
      if last_block <=? first_block then ret tt
      else
        let last' := Z.min last_block (zlen l) in
        let! r := lift (null_range (rev (zrange first_block last')) l []) in
        set_table rid r.1 >>
        when negb (bool_decide (r.2 = [])) do on_pool (free_blocks r.2)
  end.

(** [SingleTypeKVCacheManager.remove_skipped_blocks] *)
Definition remove_skipped_base (rid : string) (processed_computed_tokens : Z) : M st unit :=
  let! c := gets (λ s : st, conf s.2) in
  let num_skipped_tokens := get_num_skipped_tokens c processed_computed_tokens in
  if num_skipped_tokens <=? 0 then ret tt
  else
    let! l := table rid in
    let num_skipped_blocks := Z.min (num_skipped_tokens / block_size c) (zlen l) in
    _remove_blocks_in_range rid 0 num_skipped_blocks.

Definition remove_skipped_blocks (rid : string) (processed_computed_tokens : Z)
    (num_prompt_tokens0 : option Z) : M st unit :=
  let! c := gets (λ s : st, conf s.2) in
  match kind c, num_prompt_tokens0 with
  | RSWA rswa_window, Some prompt =>
      let first_gap_block := cdiv prompt (block_size c) in
      let window_start := Z.max prompt (processed_computed_tokens - rswa_window) in
      _remove_blocks_in_range rid first_gap_block (window_start / block_size c)
  | _, _ => remove_skipped_base rid processed_computed_tokens
  end.

(** ** Common prefixes *)
Fixpoint count_common (p : pool) (n : Z) (bs : list Z) : Z :=
  match bs with
  | [] => 0
  | b :: bs' => if ref_cnt (blk p b) =? n then 1 + count_common p n bs' else 0
  end.

Definition get_num_common_prefix_blocks (rid : string) : M st Z :=
  let! c := gets (λ s : st, conf s.2) in
  match kind c with
  | FullAttention | RSWA _ =>
      let! bs := table rid in
      gets (λ s : st, count_common s.1 (Z.of_nat (size (req_to_blocks s.2))) bs)
  | _ => ret 0
  end.

(** ** Accounting

    The references the manager holds: one per table entry, and one per end of
    a pending copy. *)
Definition mrefs (m : manager) (b : Z) : Z :=
  total_occ b (req_to_blocks m) + occ b (_pending_cow_copies m).*1 + occ b (_pending_cow_copies m).*2.

(** A recorded partial hit is the entry of the request's table it names. *)
Definition partial_ok (m : manager) : Prop :=
  ∀ rid i src, _partial_hit_reqs m !! rid = Some (i, src) →
    0 ≤ i ∧ default [] (req_to_blocks m !! rid) !! Z.to_nat i = Some src ∧ src ≠ null_block.

(** [ext]: the references held by others. *)
Record acct (ext : Z → Z) (s : st) (l : list Z) : Prop := {
  ac_counted : counted (λ b, ext b + mrefs s.2 b) s.1 l;
  ac_partial : partial_ok s.2;
}.

(** The table of a request, empty when it has none. *)
Definition tbl (m : manager) (rid : string) : list Z := default [] (req_to_blocks m !! rid).

(** Nothing but the request [rid] and the new-block list changed. *)
Record only_request (rid : string) (m m' : manager) : Prop := {
  or_conf : conf m' = conf m;
  or_tables : ∀ r, r ≠ rid → req_to_blocks m' !! r = req_to_blocks m !! r;
  or_cached : ∀ r, r ≠ rid → num_cached_block m' !! r = num_cached_block m !! r;
  or_partial : ∀ r, r ≠ rid → _partial_hit_reqs m' !! r = _partial_hit_reqs m !! r;
}.

#[global] Instance only_request_po rid : PreOrder (only_request rid).
Proof.
  split; [by split|]. intros m m1 m2 [Hc Ht Hn Hp] [Hc' Ht' Hn' Hp'].
  split; [congruence|..]; intros r Hr; [rewrite Ht', Ht|rewrite Hn', Hn|rewrite Hp', Hp]; done.
Qed.

Lemma mrefs_nonneg m b : 0 ≤ mrefs m b.
Proof.
  unfold mrefs. pose proof (total_occ_nonneg b (req_to_blocks m)).
  pose proof (occ_nonneg b (_pending_cow_copies m).*1).
  pose proof (occ_nonneg b (_pending_cow_copies m).*2). lia.
Qed.

Lemma tbl_le_mrefs m rid b : occ b (tbl m rid) ≤ mrefs m b.
Proof.
  unfold mrefs, tbl. pose proof (occ_le_total b (req_to_blocks m) rid).
  pose proof (occ_nonneg b (_pending_cow_copies m).*1).
  pose proof (occ_nonneg b (_pending_cow_copies m).*2). lia.
Qed.

Lemma mrefs_set m rid t b :
  mrefs (with_tables (insert rid t) m) b = mrefs m b - occ b (tbl m rid) + occ b t.
Proof. unfold mrefs, tbl. cbn. rewrite total_occ_set. lia. Qed.

(** Opening a table makes no difference. *)
Definition open_table (rid : string) (s : st) : st := (s.1, with_tables (insert rid (tbl s.2 rid)) s.2).

Lemma table_run rid s : table rid s = (Ok (tbl s.2 rid), open_table rid s).
Proof.
  unfold table, open_table, tbl, bind, gets. destruct s as [p [c ids ts cs ps cow]].
  cbn [fst snd req_to_blocks]. destruct (ts !! rid) as [t|] eqn:E; [|done].
  unfold with_tables, ret. cbn -[insert]. by rewrite insert_id.
Qed.

Lemma tbl_set m rid t : tbl (with_tables (insert rid t) m) rid = t.
Proof. unfold tbl. cbn. by rewrite lookup_insert_eq. Qed.

Lemma partial_set m rid t :
  partial_ok m → (∀ i src, _partial_hit_reqs m !! rid = Some (i, src) → t !! Z.to_nat i = Some src) →
  partial_ok (with_tables (insert rid t) m).
Proof.
  intros Hp Ht r i src Hr. cbn in *. destruct (Hp r i src Hr) as (? & Hl & ?). split; [done|].
  split; [|done]. rewrite lookup_insert. case_decide as E; [subst; by eapply Ht|done].
Qed.

Lemma only_request_set m rid t : only_request rid m (with_tables (insert rid t) m).
Proof. split; [done| |done|done]. intros r Hr. cbn. by rewrite lookup_insert_ne. Qed.

Section Runs.
Context (ext : Z → Z) (Hext : ∀ b, 0 ≤ ext b).

Lemma acct_open rid s l : acct ext s l → acct ext (open_table rid s) l.
Proof.
  intros [Hc Hp]. split.
  - eapply counted_ext; [|exact Hc]. intros b. cbn. rewrite mrefs_set. lia.
  - apply partial_set; [done|]. intros i src Hr. by apply Hp in Hr as (_ & ? & _).
Qed.

Lemma open_only rid s : only_request rid s.2 (open_table rid s).2.
Proof. apply only_request_set. Qed.
Lemma open_tbl rid s : tbl (open_table rid s).2 rid = tbl s.2 rid.
Proof. apply tbl_set. Qed.

(** What an operation on request [rid] leaves: its table is [t], its other
    fields are as given, the free list is [l]. *)
Record after (rid : string) (s s' : st) (t : list Z) (cached : option Z) (partial : option (Z * Z))
    (l : list Z) : Prop := {
  af_acct : acct ext s' l;
  af_only : only_request rid s.2 s'.2;
  af_tbl : tbl s'.2 rid = t;
  af_cached : num_cached_block s'.2 !! rid = cached;
  af_partial : _partial_hit_reqs s'.2 !! rid = partial;
  af_num : num_gpu_blocks s'.1 = num_gpu_blocks s.1;
}.

Lemma after_start rid s l :
  acct ext s l →
  after rid s s (tbl s.2 rid) (num_cached_block s.2 !! rid) (_partial_hit_reqs s.2 !! rid) l.
Proof. by split. Qed.

Lemma after_open rid s l :
  acct ext s l →
  after rid s (open_table rid s) (tbl s.2 rid) (num_cached_block s.2 !! rid)
    (_partial_hit_reqs s.2 !! rid) l.
Proof. intros Ha. split; [by apply acct_open|apply open_only|apply open_tbl|done|done|done]. Qed.

Lemma after_trans rid s s1 s2 t t' c c' q q' l l' :
  after rid s s1 t c q l → after rid s1 s2 t' c' q' l' → after rid s s2 t' c' q' l'.
Proof. intros [? ? ? ? ? ?] [? ? ? ? ? ?]. split; [done|by etrans|done|done|done|congruence]. Qed.

(** Appending freshly allocated blocks to a table. *)
Lemma extend_run {A} rid s t xs l (k : list Z → M st A) :
  acct ext s (xs ++ l) → tbl s.2 rid = t →
  ∃ s', (let! bs := on_pool (get_new_blocks (zlen xs)) in
         set_table rid (t ++ bs) >> record_ids bs >> k bs) s = k xs s' ∧
        after rid s s' (t ++ xs) (num_cached_block s.2 !! rid) (_partial_hit_reqs s.2 !! rid) l.
Proof.
  intros [Hc Hp] <-. destruct (counted_new _ _ _ _ Hc) as (p' & Hrun & Hc' & Ha).
  set (m1 := with_tables (insert rid (tbl s.2 rid ++ xs)) s.2).
  assert (partial_ok m1) as Hp1.
  { apply partial_set; [done|]. intros i src (_ & Hl & _)%Hp. fold (tbl s.2 rid) in Hl.
    by apply lookup_app_l_Some. }
  assert (∀ b, ext b + mrefs s.2 b + occ b xs = ext b + mrefs m1 b) as Hm.
  { intros b. unfold m1. rewrite mrefs_set, occ_app. lia. }
  apply (counted_ext _ _ _ _ Hm) in Hc'.
  assert (on_pool (get_new_blocks (zlen xs)) s = (Ok xs, (p', s.2))) as Hpool
    by (unfold on_pool; by erewrite zoom_ok).
  rewrite (bind_ok _ _ _ _ _ Hpool). unfold set_table, upd, record_ids, bind, modify, gets. cbn.
  destruct (_record_new_block_ids (conf s.2)); cbn.
  - eexists. split; [reflexivity|]. split; cbn; [| |apply tbl_set|done|done|apply Ha].
    + by split.
    + split; [done| |done|done]. intros r Hr. cbn. by rewrite lookup_insert_ne.
  - eexists. split; [reflexivity|]. split; cbn; [by split|apply only_request_set|apply tbl_set|done|done|apply Ha].
Qed.

Lemma cow_redirect_none rid s : _partial_hit_reqs s.2 !! rid = None → cow_redirect rid s = (Ok [], s).
Proof. intros Hn. unfold cow_redirect, bind, gets. by rewrite Hn. Qed.

(** The table of [rid] with entry [i] redirected to [x], and the copy recorded. *)
Definition redirected (rid : string) (i src x : Z) (m : manager) : manager :=
  with_cow (λ ps, ps ++ [(src, x)])
    (with_tables (insert rid (<[Z.to_nat i := x]> (tbl m rid))) (with_tables (insert rid (tbl m rid)) m)).

Lemma apply_cow_run rid i src x p m :
  0 ≤ i → tbl m rid !! Z.to_nat i = Some src → is_null (blk p src) = false → 0 < ref_cnt (blk p src) →
  _apply_cow rid i src x (p, m) = (Ok tt, (upd_blk x (set_ref_cnt (λ r, r + 1)) p, redirected rid i src x m)).
Proof.
  intros Hi Hl Hnul Hrc. apply lookup_lt_Some in Hl as Hlt. unfold _apply_cow.
  rewrite (bind_ok _ _ _ _ _ (table_run rid (p, m))). unfold open_table. cbn [fst snd].
  rewrite (bind_ok _ _ _ tt _) by (apply ensure_true; unfold zlen; lia).
  rewrite (proj2 (py_index_Ok (tbl m rid) i src Hi) Hl).
  rewrite (bind_ok _ _ _ src (p, with_tables (insert rid (tbl m rid)) m)) by done.
  rewrite (bind_ok _ _ _ tt (p, with_tables (insert rid (tbl m rid)) m)) by (apply ensure_true; lia).
  rewrite (bind_ok _ _ _ _ _ (gets_run _ _)). cbn [fst]. rewrite Hnul.
  rewrite (bind_ok _ _ _ tt (p, with_tables (insert rid (tbl m rid)) m)) by (apply ensure_true; cbn; lia).
  unfold py_set_index. rewrite (proj2 (Z.ltb_ge i 0)) by lia.
  rewrite (proj2 (Z.ltb_ge i 0)), (proj2 (Z.leb_gt _ i)) by (unfold zlen; lia). done.
Qed.

Lemma cow_redirect_run rid s i src x l :
  acct ext s (x :: l) → _partial_hit_reqs s.2 !! rid = Some (i, src) →
  ∃ s', cow_redirect rid s = (Ok [x], s') ∧
        after rid s s' (<[Z.to_nat i := x]> (tbl s.2 rid)) (num_cached_block s.2 !! rid) None l.
Proof.
  intros [Hc Hp] Hpart. destruct (Hp rid i src Hpart) as (Hi & Hl & Hsrc). fold (tbl s.2 rid) in Hl.
  apply lookup_lt_Some in Hl as Hlt.
  destruct (counted_new _ _ [x] l Hc) as (p1 & Hrun & Hc1 & Ha).
  set (m0 := with_partial (delete rid) s.2).
  assert (0 < mrefs s.2 src) as Hpos.
  { pose proof (tbl_le_mrefs s.2 rid src) as Hle.
    assert (1 ≤ occ src (tbl s.2 rid)); [|lia].
    rewrite <-(take_drop_middle _ _ _ Hl), occ_app, occ_cons, decide_True by done.
    pose proof (occ_nonneg src (take (Z.to_nat i) (tbl s.2 rid))).
    pose proof (occ_nonneg src (drop (S (Z.to_nat i)) (tbl s.2 rid))). lia. }
  destruct (counted_free _ _ _ Hc x ltac:(set_solver)) as [Hx0 Hxd].
  assert (x ≠ src) as Hxs.
  { intros ->. specialize (Hext src). lia. }
  set (m2 := redirected rid i src x m0).
  set (p2 := upd_blk x (set_ref_cnt (λ r, r + 1)) p1).
  assert (∀ b, ext b + mrefs s.2 b + occ b [x] + occ b [x] = ext b + mrefs m2 b) as Hm2.
  { intros b. unfold m2, redirected. change (tbl m0 rid) with (tbl s.2 rid). unfold mrefs.
    cbn -[insert tbl]. rewrite !fmap_app. cbn.
    rewrite insert_insert_eq, total_occ_set, (occ_set b _ _ src x Hl), !occ_app.
    fold (tbl s.2 rid). rewrite !occ_cons. change (occ b []) with 0. lia. }
  assert (counted (λ b, ext b + mrefs m2 b) p2 l) as Hc2.
  { eapply counted_ext; [exact Hm2|]. apply (counted_bump _ _ _ Hc1); [|unfold null_block; lia].
    cbn. rewrite occ_cons, decide_True by done. change (occ x []) with 0.
    pose proof (Hext x). pose proof (mrefs_nonneg s.2 x). lia. }
  assert (is_null (blk p1 src) = false ∧ 0 < ref_cnt (blk p1 src)) as [Hnul Hrc].
  { pose proof (Hext src) as He.
    assert (0 ≤ src < num_gpu_blocks s.1) as Hv by (apply (ct_valid _ _ _ Hc); lia).
    destruct (proj2 (ro_dom _ _ _ (counted_refs_ok _ _ _ Hc) src) Hv) as [[r nul] Hr].
    pose proof (ct_refs _ _ _ Hc src r nul Hsrc Hr) as Hrr. cbn in Hrr.
    assert (refs p1 !! src = Some (r, nul)) as Hr1
      by (rewrite (al_refs _ _ _ Ha), decide_False by set_solver; done).
    destruct (blk_refs _ _ _ _ Hr1) as [-> ->]. split; [|lia].
    destruct nul; [|done]. exfalso. apply Hsrc.
    by apply (ro_null _ _ _ (counted_refs_ok _ _ _ Hc) src r true Hr). }
  exists (p2, with_new_ids (λ l, l ++ [x]) m2). split.
  - unfold cow_redirect. rewrite (bind_ok _ _ _ _ _ (gets_run _ _)), Hpart.
    unfold upd at 1. rewrite (bind_ok _ _ _ _ _ (modify_run _ _)). fold m0.
    rewrite (bind_ok _ _ _ [x] (p1, m0)) by (unfold on_pool; by erewrite zoom_ok by exact Hrun).
    rewrite (bind_ok _ _ _ x (p1, m0)) by done.
    rewrite (bind_ok _ _ _ tt (p2, m2)) by (by apply apply_cow_run). done.
  - split; cbn.
    + split; [done|]. intros r j src' Hr. cbn -[insert] in Hr |- *.
      apply lookup_delete_Some in Hr as [Hne Hr]. rewrite !lookup_insert_ne by done.
      by apply (Hp r j src').
    + split; cbn -[insert]; intros; rewrite ?lookup_insert_ne, ?lookup_delete_ne by done; done.
    + unfold tbl. cbn -[insert]. by rewrite lookup_insert_eq.
    + done.
    + by rewrite lookup_delete_eq.
    + apply Ha.
Qed.

(** Taking [n] blocks off the free list. *)
Lemma split_free (l : list Z) n : 0 ≤ n ≤ zlen l → ∃ xs l', l = xs ++ l' ∧ zlen xs = n.
Proof.
  intros Hn. exists (take (Z.to_nat n) l), (drop (Z.to_nat n) l). rewrite take_drop. split; [done|].
  unfold zlen in *. rewrite length_take. lia.
Qed.

(** How many blocks [allocate_new_blocks] takes. *)
Definition cow_need (m : manager) (rid : string) : Z :=
  match _partial_hit_reqs m !! rid with Some _ => 1 | None => 0 end.
Definition new_need (m : manager) (rid : string) (num_tokens : Z) : Z :=
  cow_need m rid + Z.max 0 (cdiv num_tokens (block_size (conf m)) - zlen (tbl m rid)).

Lemma cow_redirect_any rid s l :
  acct ext s l → cow_need s.2 rid ≤ zlen l →
  ∃ cow t s' l', cow_redirect rid s = (Ok cow, s') ∧ l = cow ++ l' ∧ zlen cow = cow_need s.2 rid ∧
    zlen t = zlen (tbl s.2 rid) ∧ after rid s s' t (num_cached_block s.2 !! rid) None l'.
Proof.
  intros Ha Hn. unfold cow_need in *. destruct (_partial_hit_reqs s.2 !! rid) as [[i src]|] eqn:E.
  - destruct l as [|x l]; [unfold zlen in Hn; cbn in Hn; lia|].
    destruct (cow_redirect_run rid s i src x l Ha E) as (s' & Hrun & Haf).
    exists [x], (<[Z.to_nat i := x]> (tbl s.2 rid)), s', l. unfold zlen. by rewrite length_insert.
  - exists [], (tbl s.2 rid), s, l. split; [by apply cow_redirect_none|].
    do 3 (split; [done|]). rewrite <-E. by apply after_start.
Qed.

Lemma allocate_new_run rid s num_tokens l :
  acct ext s l → new_need s.2 rid num_tokens ≤ zlen l →
  ∃ new t s' l', allocate_new_blocks rid num_tokens s = (Ok new, s') ∧ l = new ++ l' ∧
    zlen new = new_need s.2 rid num_tokens ∧
    zlen t = Z.max (zlen (tbl s.2 rid)) (cdiv num_tokens (block_size (conf s.2))) ∧
    after rid s s' t (num_cached_block s.2 !! rid) None l'.
Proof.
  intros Ha Hn. unfold new_need in *.
  assert (0 ≤ cow_need s.2 rid) as Hcow by (unfold cow_need; by destruct (_partial_hit_reqs _ !! _)).
  destruct (cow_redirect_any rid s l Ha ltac:(lia)) as (cow & t & s1 & l1 & Hrun & -> & Hzc & Hzt & Haf).
  rewrite zlen_app in Hn. unfold allocate_new_blocks. rewrite (bind_ok _ _ _ _ _ Hrun).
  rewrite (bind_ok _ _ _ _ _ (gets_run _ _)). rewrite (bind_ok _ _ _ _ _ (table_run rid s1)).
  rewrite (or_conf _ _ _ (af_only _ _ _ _ _ _ _ Haf)), (af_tbl _ _ _ _ _ _ _ Haf).
  pose proof (after_open rid s1 l1 (af_acct _ _ _ _ _ _ _ Haf)) as Hop.
  rewrite (af_tbl _ _ _ _ _ _ _ Haf), (af_cached _ _ _ _ _ _ _ Haf), (af_partial _ _ _ _ _ _ _ Haf) in Hop.
  destruct (cdiv num_tokens (block_size (conf s.2)) - zlen t <=? 0) eqn:E.
  - exists cow, t, (open_table rid s1), l1. do 2 (split; [done|]). split; [lia|]. split; [lia|].
    by eapply after_trans.
  - destruct (split_free l1 (cdiv num_tokens (block_size (conf s.2)) - zlen t)) as (xs & l' & -> & Hxs); [lia|].
    rewrite <-Hxs.
    destruct (extend_run rid (open_table rid s1) t xs l' (λ bs, ret (cow ++ bs))
      (af_acct _ _ _ _ _ _ _ Hop) (af_tbl _ _ _ _ _ _ _ Hop)) as (s2 & Hrun2 & Haf2).
    rewrite (af_cached _ _ _ _ _ _ _ Hop), (af_partial _ _ _ _ _ _ _ Hop) in Haf2.
    exists (cow ++ xs), (t ++ xs), s2, l'. split; [exact Hrun2|]. split; [by rewrite <-(assoc app)|].
    rewrite !zlen_app in *. split; [lia|]. split; [lia|].
    eapply after_trans; [exact Haf|]. by eapply after_trans.
Qed.

(** How many blocks [allocate_external_computed_blocks] takes. *)
Definition ext_need (m : manager) (rid : string) (num_local num_external : Z) : Z :=
  let total := num_local + num_external in
  let skipped := get_num_skipped_tokens (conf m) total in
  let external := if 0 <? skipped then Z.min (total - skipped) num_external else num_external in
  if external <=? 0 then 0 else Z.max 0 (cdiv total (block_size (conf m)) - zlen (tbl m rid)).

Lemma allocate_external_run rid s num_local num_external l :
  acct ext s l → ext_need s.2 rid num_local num_external ≤ zlen l →
  ∃ xs s' l', allocate_external_computed_blocks rid num_local num_external s = (Ok tt, s') ∧
    l = xs ++ l' ∧ zlen xs = ext_need s.2 rid num_local num_external ∧
    after rid s s' (tbl s.2 rid ++ xs) (num_cached_block s.2 !! rid) (_partial_hit_reqs s.2 !! rid) l'.
Proof.
  intros Ha Hn. unfold allocate_external_computed_blocks. rewrite (bind_ok _ _ _ _ _ (gets_run _ _)).
  unfold ext_need in *. cbv zeta in *.
  destruct ((if 0 <? get_num_skipped_tokens (conf s.2) (num_local + num_external) then _ else _) <=? 0).
  { exists [], s, l. rewrite app_nil_r. do 3 (split; [done|]). by apply after_start. }
  rewrite (bind_ok _ _ _ _ _ (table_run rid s)).
  pose proof (after_open rid s l Ha) as Hop.
  destruct (split_free l _ (conj (Z.le_max_l _ _) Hn)) as (xs & l' & -> & Hxs). rewrite <-Hxs.
  destruct (extend_run rid (open_table rid s) (tbl s.2 rid) xs l' (λ _, ret tt)
    (af_acct _ _ _ _ _ _ _ Hop) (af_tbl _ _ _ _ _ _ _ Hop)) as (s2 & Hrun2 & Haf2).
  exists xs, s2, l'. split; [exact Hrun2|]. do 2 (split; [done|]).
  rewrite (af_cached _ _ _ _ _ _ _ Hop), (af_partial _ _ _ _ _ _ _ Hop) in Haf2.
  by eapply after_trans.
Qed.

Lemma elem_of_occ b bs : b ∈ bs → 1 ≤ occ b bs.
Proof.
  intros (l1 & l2 & ->)%list_elem_of_split. rewrite occ_app, occ_cons, decide_True by done.
  pose proof (occ_nonneg b l1). pose proof (occ_nonneg b l2). lia.
Qed.
Lemma occ_replicate_ne b x n : b ≠ x → occ b (replicate n x) = 0.
Proof. intros Hb. apply occ_not_in. intros [-> _]%elem_of_replicate. done. Qed.

(** The part of the hit [add_local_computed_blocks] keeps. *)
Definition num_skipped (c : mconf) (num_computed : Z) : Z := get_num_skipped_tokens c num_computed / block_size c.
Definition kept_hit (c : mconf) (hit : list Z) (num_computed : Z) : list Z :=
  drop (Z.to_nat (num_skipped c num_computed)) hit.

(** A partial hit names its tail block by its position. *)
Definition hit_shape_ok (c : mconf) (hit : list Z) (num_local num_external : Z) : Prop :=
  _has_partial_local_hit c (kept_hit c hit (num_local + num_external)) num_local = true →
  ∃ tail, last (kept_hit c hit (num_local + num_external)) = Some tail ∧ tail ≠ null_block ∧
    num_local / block_size c = Z.max 0 (num_skipped c (num_local + num_external))
                               + zlen (kept_hit c hit (num_local + num_external)) - 1.

Lemma add_local_run rid s hit num_local num_external l :
  let c := conf s.2 in
  let kept := kept_hit c hit (num_local + num_external) in
  let t := replicate (Z.to_nat (num_skipped c (num_local + num_external))) null_block ++ kept in
  let partial := _has_partial_local_hit c kept num_local in
  acct ext s l → tbl s.2 rid = [] → _partial_hit_reqs s.2 !! rid = None →
  (∀ b, b ∈ kept → 0 ≤ b < num_gpu_blocks s.1) → (m_enable_caching c = false → kept = []) →
  hit_shape_ok c hit num_local num_external →
  ∃ s', add_local_computed_blocks rid hit num_local num_external s = (Ok tt, s') ∧
    after rid s s' t (Some (if partial then num_local / block_size c else zlen t))
      (if partial then Some (num_local / block_size c, default 0 (last kept)) else None)
      (filter (λ x, x ∉ kept) l).
Proof.
  intros c kept t partial [Hc Hpo] Ht Hp Hv Hcache Hshape.
  set (m1 := with_tables (insert rid (tbl s.2 rid)) s.2).
  assert (∃ p', (if m_enable_caching c then on_pool (touch kept)
                 else ensure (bool_decide (kept = [])) AssertionError) (s.1, m1) = (Ok tt, (p', m1)) ∧
            counted (λ b, ext b + mrefs s.2 b + occ b kept) p' (filter (λ x, x ∉ kept) l) ∧
            num_gpu_blocks p' = num_gpu_blocks s.1) as (p' & Hrun & Hc' & Hnum).
  { destruct (m_enable_caching c) eqn:Ec.
    - destruct (counted_touch _ _ _ Hc kept Hv) as (p' & Hr & Hc' & Hn & _). exists p'.
      unfold on_pool. by erewrite zoom_ok by exact Hr.
    - rewrite (Hcache eq_refl). exists s.1. split; [done|]. split; [|done].
      rewrite filter_id by set_solver. eapply counted_ext; [|exact Hc]. intros b. cbn.
      change (occ b []) with 0. lia. }
  set (m2 := with_cached (insert rid (zlen t)) (with_tables (insert rid t) m1)).
  assert (∀ b, mrefs m2 b = mrefs s.2 b + occ b t) as Hm2.
  { intros b. change (mrefs m2 b) with (mrefs (with_tables (insert rid t) m1) b).
    rewrite mrefs_set. unfold m1. rewrite mrefs_set, tbl_set, Ht.
    change (occ b []) with 0. lia. }
  assert (counted (λ b, ext b + mrefs m2 b) p' (filter (λ x, x ∉ kept) l)) as Hc2.
  { eapply counted_null; [| |exact Hc']; intros.
    - cbn. rewrite Hm2. unfold t. rewrite occ_app, occ_replicate_ne by done. lia.
    - pose proof (Hext null_block). pose proof (mrefs_nonneg m2 null_block). lia. }
  assert (tbl m2 rid = t) as Ht2 by apply tbl_set.
  assert (partial_ok m2) as Hp2.
  { intros r i src Hr. change (_partial_hit_reqs s.2 !! r = Some (i, src)) in Hr.
    destruct (decide (r = rid)) as [->|Hne]; [by rewrite Hp in Hr|].
    destruct (Hpo r i src Hr) as (? & ? & ?). split; [done|]. split; [|done].
    unfold m2, m1. cbn -[insert]. by rewrite !lookup_insert_ne by done. }
  assert (only_request rid s.2 m2) as Ho2.
  { split; [done|..]; intros r Hr; unfold m2, m1; cbn -[insert]; by rewrite ?lookup_insert_ne by done. }
  assert (add_local_computed_blocks rid hit num_local num_external s =
    (if partial then let! tail := lift (py_index kept (-1)) in
       upd (with_partial (insert rid (num_local / block_size c, tail))) >>
       upd (with_cached (insert rid (num_local / block_size c))) else ret tt) (p', m2)) as Hstep.
  { unfold add_local_computed_blocks. rewrite (bind_ok _ _ _ _ _ (gets_run _ _)).
    rewrite (bind_ok _ _ _ _ _ (table_run rid s)), Ht. fold c. unfold open_table. fold m1.
    rewrite (bind_ok _ _ _ tt (s.1, m1)) by done.
    assert ((if 0 <? get_num_skipped_tokens c (num_local + num_external) / block_size c
             then drop (Z.to_nat (get_num_skipped_tokens c (num_local + num_external) / block_size c)) hit
             else hit) = kept) as ->.
    { unfold kept, kept_hit, num_skipped. destruct (0 <? _) eqn:E; [done|].
      by replace (Z.to_nat (get_num_skipped_tokens c (num_local + num_external) / block_size c)) with 0%nat by lia. }
    rewrite (bind_ok _ _ _ _ _ Hrun). reflexivity. }
  rewrite Hstep. destruct partial eqn:Epart.
  - destruct (Hshape Epart) as (tail & Hlast & Htail & Hidx). fold kept in Hlast, Hidx.
    assert (py_index kept (-1) = Ok tail) as Hpy.
    { rewrite last_lookup in Hlast. apply lookup_lt_Some in Hlast as Hlt.
      unfold py_index. cbn [Z.ltb Z.compare]. rewrite (proj2 (Z.ltb_ge _ _)) by (unfold zlen; lia).
      replace (Z.to_nat (-1 + zlen kept)) with (pred (length kept)) by (unfold zlen; lia).
      by rewrite Hlast. }
    rewrite Hpy, Hlast. cbn [default]. eexists. split; [reflexivity|]. split.
    + split; [exact Hc2|]. intros r i src Hr. cbn -[insert] in Hr |- *.
      destruct (decide (r = rid)) as [->|Hne].
      * rewrite lookup_insert_eq in Hr. injection Hr as <- <-.
        pose proof (zlen_nonneg kept). rewrite last_lookup in Hlast. apply lookup_lt_Some in Hlast as Hlt.
        split; [unfold zlen in *; lia|]. split; [|done].
        change (tbl m2 rid !! Z.to_nat (num_local / block_size c) = Some tail).
        rewrite Ht2. unfold t. rewrite lookup_app_r, length_replicate.
        -- rewrite <-Hlast. f_equal. unfold zlen in *. lia.
        -- rewrite length_replicate. unfold zlen in *. lia.
      * rewrite lookup_insert_ne in Hr by done. by apply Hp2.
    + etrans; [exact Ho2|]. split; [done|done|..]; intros r Hr; cbn -[insert]; by rewrite lookup_insert_ne.
    + exact Ht2.
    + cbn -[insert]. by rewrite lookup_insert_eq.
    + cbn -[insert]. by rewrite lookup_insert_eq.
    + exact Hnum.
  - eexists. split; [reflexivity|]. split; [by split|done|done| |done|done].
    cbn -[insert]. by rewrite lookup_insert_eq.
Qed.

(** ** Nulling a range of a table *)

(** What nulling some entries in [lo .. hi) frees. *)
Record nulled (lo hi : Z) (t t' freed : list Z) : Prop := {
  nu_length : length t' = length t;
  nu_outside : ∀ i : nat, Z.of_nat i < lo ∨ hi ≤ Z.of_nat i → t' !! i = t !! i;
  nu_occ : ∀ b, b ≠ null_block → occ b t' + occ b freed = occ b t;
  nu_real : ∀ b, b ∈ freed → b ∈ t ∧ b ≠ null_block;
}.

Lemma nulled_refl lo hi t : nulled lo hi t t [].
Proof. split; [done|done| |set_solver]. intros b _. change (occ b []) with 0. lia. Qed.

Lemma nulled_step lo hi (i : nat) t t' freed b :
  t !! i = Some b → b ≠ null_block → lo ≤ Z.of_nat i < hi →
  nulled lo hi (<[i := null_block]> t) t' freed → nulled lo hi t t' (b :: freed).
Proof.
  intros Hb Hne Hi [Hl Ho Hc Hr]. split.
  - by rewrite Hl, length_insert.
  - intros j Hj. rewrite Ho by done. apply list_lookup_insert_ne. lia.
  - intros x Hx. specialize (Hc x Hx). rewrite (occ_set x t i b null_block Hb) in Hc.
    rewrite occ_cons. rewrite (decide_False (P := null_block = x)) in Hc by done. lia.
  - intros x [->|Hx]%elem_of_cons; [split; [by eapply list_elem_of_lookup_2|done]|].
    destruct (Hr x Hx) as [Hin Hnx]. split; [|done].
    apply list_elem_of_lookup in Hin as [j Hj]. destruct (decide (j = i)) as [->|].
    + rewrite list_lookup_insert_eq in Hj by (by eapply lookup_lt_Some). congruence.
    + rewrite list_lookup_insert_ne in Hj by done. by eapply list_elem_of_lookup_2.
Qed.

Lemma null_range_run lo hi0 (n : nat) t freed0 :
  0 ≤ lo → lo + Z.of_nat n ≤ hi0 → lo + Z.of_nat n ≤ zlen t →
  ∃ t' freed, null_range (rev (zrange lo (lo + Z.of_nat n))) t freed0 = Ok (t', freed0 ++ freed) ∧
              nulled lo hi0 t t' freed.
Proof.
  intros Hlo. revert t freed0. induction n as [|n IH]; intros t freed0 Hhi Hlen.
  { rewrite zrange_empty by lia. exists t, []. cbn. rewrite app_nil_r. split; [done|apply nulled_refl]. }
  rewrite Nat2Z.inj_succ, <-Z.add_1_r, Z.add_assoc, zrange_snoc, rev_app_distr by lia.
  cbn [rev app null_range]. set (i := lo + Z.of_nat n) in *.
  destruct (lookup_lt_is_Some_2 t (Z.to_nat i)) as [b Hb]; [unfold zlen in Hlen; lia|].
  rewrite (proj2 (py_index_Ok t i b ltac:(lia)) Hb). cbn [result_bind].
  destruct (b =? null_block) eqn:E.
  { exists t, []. rewrite app_nil_r. split; [done|apply nulled_refl]. }
  unfold py_set_index. rewrite (proj2 (Z.ltb_ge i 0)) by lia.
  rewrite (proj2 (Z.ltb_ge i 0)), (proj2 (Z.leb_gt _ i)) by lia. cbn [orb result_bind].
  destruct (IH (<[Z.to_nat i := null_block]> t) (freed0 ++ [b])) as (t' & freed & Hrun & Hn).
  { lia. } { unfold zlen in *. rewrite length_insert. lia. }
  exists t', (b :: freed). rewrite Hrun, <-(assoc app). split; [done|].
  eapply nulled_step; [exact Hb|lia| |done]. lia.
Qed.

Lemma acct_valid rid s l b : acct ext s l → b ∈ tbl s.2 rid → 0 ≤ b < num_gpu_blocks s.1.
Proof.
  intros [Hc _] Hb. apply (ct_valid _ _ _ Hc). pose proof (Hext b). pose proof (tbl_le_mrefs s.2 rid b).
  pose proof (elem_of_occ b _ Hb). lia.
Qed.

Lemma remove_range_run rid s lo hi l :
  acct ext s l → _partial_hit_reqs s.2 !! rid = None → 0 ≤ lo →
  ∃ t' freed s' fs ls, _remove_blocks_in_range rid lo hi s = (Ok tt, s') ∧
    after rid s s' t' (num_cached_block s.2 !! rid) None (fs ++ l ++ ls) ∧
    nulled lo hi (tbl s.2 rid) t' freed.
Proof.
  intros Ha Hp Hlo. unfold _remove_blocks_in_range. rewrite (bind_ok _ _ _ _ _ (gets_run _ _)).
  pose proof (after_start rid s l Ha) as Hst. rewrite Hp in Hst.
  assert (∃ t' freed s' fs ls, (Ok tt, s) = (Ok tt, s') ∧
    after rid s s' t' (num_cached_block s.2 !! rid) None (fs ++ l ++ ls) ∧
    nulled lo hi (tbl s.2 rid) t' freed) as Hskip.
  { exists (tbl s.2 rid), [], s, [], []. rewrite app_nil_r. split; [done|].
    split; [done|apply nulled_refl]. }
  destruct (req_to_blocks s.2 !! rid) as [t|] eqn:Et; [|exact Hskip].
  assert (tbl s.2 rid = t) as Ht by (unfold tbl; by rewrite Et).
  destruct (hi <=? lo) eqn:E; [exact Hskip|]. clear Hskip.
  set (hi' := Z.min hi (zlen t)).
  assert (∃ t' freed, null_range (rev (zrange lo hi')) t [] = Ok (t', freed) ∧ nulled lo hi t t' freed)
    as (t' & freed & Hrun & Hn).
  { destruct (decide (lo ≤ hi')) as [Hle|Hgt].
    - destruct (null_range_run lo hi (Z.to_nat (hi' - lo)) t []) as (t' & freed & Hrun & Hn); [lia..|].
      exists t', freed. by replace (lo + Z.of_nat (Z.to_nat (hi' - lo))) with hi' in Hrun by lia.
    - rewrite zrange_empty by lia. exists t, []. split; [done|apply nulled_refl]. }
  rewrite Hrun. rewrite (bind_ok _ _ _ (t', freed) s) by done. cbn [fst snd].
  set (m1 := with_tables (insert rid t') s.2).
  rewrite (bind_ok _ _ _ tt (s.1, m1)) by done.
  destruct Ha as [Hc Hpo].
  assert (∀ b, b ≠ null_block → ext b + mrefs s.2 b - occ b freed = ext b + mrefs m1 b) as Hm1.
  { intros b Hb. unfold m1. rewrite mrefs_set, Ht. pose proof (nu_occ _ _ _ _ _ Hn b Hb). lia. }
  assert (0 ≤ ext null_block + mrefs m1 null_block) as H0
    by (pose proof (Hext null_block); pose proof (mrefs_nonneg m1 null_block); lia).
  assert (partial_ok m1) as Hp1 by (apply partial_set; [done|]; by rewrite Hp).
  assert (∃ fs ls p', (when negb (bool_decide (freed = [])) do on_pool (free_blocks freed)) (s.1, m1)
            = (Ok tt, (p', m1)) ∧ counted (λ b, ext b + mrefs m1 b) p' (fs ++ l ++ ls) ∧
            num_gpu_blocks p' = num_gpu_blocks s.1) as (fs & ls & p' & Hfree & Hc1 & Hnum).
  { case_bool_decide as Ef; cbn [negb].
    - exists [], [], s.1. rewrite app_nil_r. split; [done|]. split; [|done].
      eapply counted_null; [|done|exact Hc]. intros b Hb. rewrite <-(Hm1 b Hb), Ef.
      change (occ b []) with 0. lia.
    - destruct (counted_free_blocks _ _ _ Hc freed) as (fs & ls & p' & Hfr & Hc1 & Hnum & _).
      + intros b [Hb _]%(nu_real _ _ _ _ _ Hn). apply (acct_valid rid s l); [by split|by rewrite Ht].
      + intros b. pose proof (Hext b). pose proof (mrefs_nonneg s.2 b).
        destruct (decide (b ∈ freed)) as [Hin|Hnin]; [|rewrite occ_not_in by done; lia].
        destruct (nu_real _ _ _ _ _ Hn b Hin) as [_ Hb]. pose proof (nu_occ _ _ _ _ _ Hn b Hb).
        pose proof (tbl_le_mrefs s.2 rid b) as Hle. rewrite Ht in Hle. pose proof (occ_nonneg b t'). lia.
      + exists fs, ls, p'. unfold on_pool. erewrite zoom_ok by exact Hfr. split; [done|].
        split; [|done]. eapply counted_null; [exact Hm1|done|exact Hc1]. }
  exists t', freed, (p', m1), fs, ls. split; [exact Hfree|]. rewrite Ht. split; [|done].
  split; [by split|apply only_request_set|apply tbl_set|done|done|done].
Qed.

(** The entries [remove_skipped_blocks] may null lie in this range. *)
Definition skip_range (c : mconf) (processed : Z) (prompt : option Z) : Z * Z :=
  match kind c, prompt with
  | RSWA w, Some n => (cdiv n (block_size c), Z.max n (processed - w) / block_size c)
  | _, _ => (0, get_num_skipped_tokens c processed / block_size c)
  end.

Lemma nulled_wider lo hi hi' t t' freed : hi ≤ hi' → nulled lo hi t t' freed → nulled lo hi' t t' freed.
Proof. intros Hhi [? Ho ? ?]. split; [done| |done|done]. intros i Hi. apply Ho. lia. Qed.

Lemma remove_skipped_run rid s processed prompt l :
  acct ext s l → _partial_hit_reqs s.2 !! rid = None → 0 < block_size (conf s.2) →
  (∀ n, prompt = Some n → 0 ≤ n) →
  let r := skip_range (conf s.2) processed prompt in
  ∃ t' freed s' fs ls, remove_skipped_blocks rid processed prompt s = (Ok tt, s') ∧
    after rid s s' t' (num_cached_block s.2 !! rid) None (fs ++ l ++ ls) ∧
    nulled r.1 r.2 (tbl s.2 rid) t' freed.
Proof.
  intros Ha Hp Hbs Hpr r. unfold remove_skipped_blocks. rewrite (bind_ok _ _ _ _ _ (gets_run _ _)).
  assert (skip_range (conf s.2) processed prompt
            = (0, get_num_skipped_tokens (conf s.2) processed / block_size (conf s.2)) →
    ∃ t' freed s' fs ls, remove_skipped_base rid processed s = (Ok tt, s') ∧
    after rid s s' t' (num_cached_block s.2 !! rid) None (fs ++ l ++ ls) ∧
    nulled r.1 r.2 (tbl s.2 rid) t' freed) as Hbase.
  { intros Hr. subst r. rewrite Hr. cbn [fst snd]. unfold remove_skipped_base.
    rewrite (bind_ok _ _ _ _ _ (gets_run _ _)).
    destruct (get_num_skipped_tokens (conf s.2) processed <=? 0).
    { exists (tbl s.2 rid), [], s, [], []. rewrite app_nil_r. split; [done|].
      split; [rewrite <-Hp; by apply after_start|apply nulled_refl]. }
    rewrite (bind_ok _ _ _ _ _ (table_run rid s)).
    pose proof (after_open rid s l Ha) as Hop. rewrite Hp in Hop.
    destruct (remove_range_run rid (open_table rid s) 0
      (Z.min (get_num_skipped_tokens (conf s.2) processed / block_size (conf s.2)) (zlen (tbl s.2 rid))) l
      (af_acct _ _ _ _ _ _ _ Hop) (af_partial _ _ _ _ _ _ _ Hop) ltac:(lia))
      as (t' & freed & s' & fs & ls & Hrun & Haf & Hn).
    exists t', freed, s', fs, ls. split; [exact Hrun|]. rewrite open_tbl in Hn.
    rewrite (af_cached _ _ _ _ _ _ _ Hop) in Haf. split; [by eapply after_trans|].
    eapply nulled_wider; [|exact Hn]. lia. }
  destruct (kind (conf s.2)) as [|w|w e|ch] eqn:Ek; [|destruct prompt as [n|]|..];
    try (apply Hbase; unfold skip_range; by rewrite Ek).
  assert (0 ≤ cdiv n (block_size (conf s.2))) as Hlo.
  { destruct (decide (0 ≤ cdiv n (block_size (conf s.2)))) as [|Hneg]; [done|].
    assert (cdiv n (block_size (conf s.2)) ≤ -1) as Hc%cdiv_le by lia; [|done].
    specialize (Hpr n eq_refl). lia. }
  subst r. unfold skip_range. rewrite Ek. cbn [fst snd]. by apply remove_range_run.
Qed.

(** ** Freeing a request *)
Lemma free_run rid s l :
  acct ext s l →
  ∃ s' fs ls, free rid s = (Ok tt, s') ∧ acct ext s' (fs ++ l ++ ls) ∧ only_request rid s.2 s'.2 ∧
    req_to_blocks s'.2 !! rid = None ∧ num_cached_block s'.2 !! rid = None ∧
    _partial_hit_reqs s'.2 !! rid = None ∧ num_gpu_blocks s'.1 = num_gpu_blocks s.1 ∧
    _pending_cow_copies s'.2 = _pending_cow_copies s.2.
Proof.
  intros Ha. pose proof Ha as [Hc Hp].
  set (m1 := with_partial (delete rid) (with_cached (delete rid) (with_tables (delete rid) s.2))).
  assert (∀ b, occ b (rev (tbl s.2 rid)) = occ b (tbl s.2 rid)) as Hrev.
  { intros b. apply occ_perm. symmetry. apply Permutation_rev. }
  destruct (counted_free_blocks _ _ _ Hc (rev (tbl s.2 rid))) as (fs & ls & p' & Hfr & Hc1 & Hnum & _).
  - intros b Hb. rewrite <-Permutation_rev in Hb. by apply (acct_valid rid s l).
  - intros b. rewrite Hrev. pose proof (tbl_le_mrefs s.2 rid b). pose proof (Hext b). lia.
  - exists (p', m1), fs, ls. split.
    { unfold free, pop_blocks_for_free, bind, gets, upd, modify, ret, on_pool. cbn -[delete].
      erewrite zoom_ok by exact Hfr. done. }
    split; [split|].
    + eapply counted_ext; [|exact Hc1]. intros b. cbn beta. rewrite Hrev. unfold mrefs, tbl. cbn -[delete].
      rewrite total_occ_delete. lia.
    + intros r i src Hr. cbn -[delete] in Hr |- *. apply lookup_delete_Some in Hr as [Hne Hr].
      rewrite lookup_delete_ne by done. by apply Hp.
    + split; [split|]; cbn -[delete]; [done|..]; intros; rewrite ?lookup_delete_ne by done; try done.
      by rewrite !lookup_delete_eq.
Qed.

(** ** Registering blocks moves no reference *)
Record registered_only (rid : string) (l : list Z) (s s' : st) : Prop := {
  ro_acct : acct ext s' l;
  ro_only : only_request rid s.2 s'.2;
  ro_tbl : tbl s'.2 rid = tbl s.2 rid;
  ro_partial : _partial_hit_reqs s'.2 !! rid = _partial_hit_reqs s.2 !! rid;
  ro_num : num_gpu_blocks s'.1 = num_gpu_blocks s.1;
}.

Lemma registered_refl rid l s : acct ext s l → registered_only rid l s s.
Proof. by split. Qed.
Lemma registered_open rid l s : acct ext s l → registered_only rid l s (open_table rid s).
Proof. intros Ha. split; [by apply acct_open|apply open_only|apply open_tbl|done|done]. Qed.
Lemma registered_pool rid l s s1 p' :
  registered_only rid l s s1 → keeps s1.1 l p' → registered_only rid l s (p', s1.2).
Proof.
  intros [[Hc Hp] ? ? ? Hn] Hk. split; [|done|done|done|].
  - split; [by eapply counted_keeps|done].
  - cbn. rewrite <-Hn. apply Hk.
Qed.
Lemma registered_cached rid l s s1 n :
  registered_only rid l s s1 → registered_only rid l s (s1.1, with_cached (insert rid n) s1.2).
Proof.
  intros [[Hc Hp] Ho ? ? ?]. split; [by split| |done|done|done].
  etrans; [exact Ho|]. split; [done|done| |done]. intros r Hr. cbn -[insert]. by rewrite lookup_insert_ne.
Qed.

(** A call on the pool that only touches the hash bookkeeping. *)
Lemma on_pool_registered {A} rid l s s1 (m : M pool A) :
  registered_only rid l s s1 →
  wp m (λ _, keeps s1.1 l) (λ _, keeps s1.1 l) s1.1 →
  wp (on_pool m) (λ _, registered_only rid l s) (λ _, registered_only rid l s) s1.
Proof.
  intros Hs Hm. unfold on_pool. apply wp_zoom. eapply wp_mono; [exact Hm|..]; intros ? p' Hk;
    by apply registered_pool.
Qed.

Lemma registered_dom rid l s s1 b :
  registered_only rid l s s1 → b ∈ tbl s.2 rid → is_Some (refs s1.1 !! b).
Proof.
  intros [Ha ? Ht ? ?] Hb. rewrite <-Ht in Hb.
  apply (ro_dom _ _ _ (counted_refs_ok _ _ _ (ac_counted _ _ _ Ha))).
  by eapply acct_valid.
Qed.

Lemma cache_base_run r n ri s l :
  acct ext s l →
  let P := registered_only (req_id (request r)) l s in
  wp (cache_blocks_base r n ri) (λ _, P) (λ _, P) s.
Proof.
  intros Ha P. unfold cache_blocks_base. do 4 wp_step.
  wp_step; [by apply registered_refl|]. do 2 wp_step.
  destruct (reachable_block_mask _ _ _ _ _) as [mask|]; [|by apply registered_refl].
  wp_step. unfold wp at 1. rewrite table_run. wp_step.
  pose proof (registered_open (req_id (request r)) l s Ha) as Hop.
  eapply wp_mono; [eapply on_pool_registered; [exact Hop|]| |done].
  - apply cache_full_blocks_keeps; [apply Hop|]. intros b Hb. by eapply registered_dom.
  - intros ? s1 Hs1. unfold upd. wp_step. by apply registered_cached.
Qed.

Lemma cache_partial_tail_run r n s s1 l :
  let P := registered_only (req_id (request r)) l s in
  P s1 → wp (_cache_partial_tail_block r n) (λ _, P) (λ _, P) s1.
Proof.
  intros P Hs. unfold _cache_partial_tail_block. do 4 wp_step.
  do 2 (wp_step; [done|]). wp_step. unfold wp at 1. rewrite table_run.
  set (rid := req_id (request r)) in *.
  assert (P (open_table rid s1)) as Hop.
  { destruct Hs as [Ha Ho Ht Hp Hn]. split; [by apply acct_open| | |done|done].
    - etrans; [exact Ho|apply open_only].
    - by rewrite open_tbl. }
  wp_step; [done|]. do 2 wp_step.
  destruct (py_index (tbl s1.2 rid) _) as [b|] eqn:Eb; [|done]. wp_step.
  eapply wp_mono; [eapply on_pool_registered; [exact Hop|]| |done].
  - apply cache_partial_block_keeps; [apply Hop|]. eapply registered_dom; [exact Hop|].
    rewrite <-(ro_tbl _ _ _ _ Hs). by eapply py_index_elem.
  - intros ? s2 Hs2. by wp_step.
Qed.

Lemma cache_blocks_run r n ri s l :
  acct ext s l →
  let P := registered_only (req_id (request r)) l s in
  wp (cache_blocks r n ri) (λ _, P) (λ _, P) s.
Proof.
  intros Ha P. unfold cache_blocks. do 3 wp_step.
  eapply wp_mono; [by apply cache_base_run| |done]. intros ? s1 Hs1.
  destruct (kind (conf s.2)); try by wp_step.
  - do 2 wp_step. wp_step; [by wp_step|by apply cache_partial_tail_run].
  - do 2 wp_step. wp_step; [by wp_step|by apply cache_partial_tail_run].
Qed.
End Runs.

(** ** Windows are kept *)

(** The token at position [pos] (the next one to compute) attends to [q], or the
    manager promised to retain it. *)
Definition attends (k : attention_kind) (prompt : option Z) (pos q : Z) : Prop :=
  match k with
  | FullAttention => True
  | RSWA w => match prompt with Some n => q < n ∨ pos - w ≤ q | None => True end
  | SlidingWindow w extra => pos - w - extra < q
  | ChunkedLocal chunk => pos / chunk ≤ q / chunk
  end.

(** Sane parameters. *)
Definition kind_ok (k : attention_kind) : Prop :=
  match k with
  | FullAttention | RSWA _ => True
  | SlidingWindow w extra => 0 < w ∧ 0 ≤ extra
  | ChunkedLocal chunk => 0 < chunk
  end.

Lemma attended_outside (cf : mconf) pos prompt q :
  0 < block_size cf → kind_ok (kind cf) → 0 ≤ pos → 0 ≤ q → attends (kind cf) prompt pos q →
  let r := skip_range cf pos prompt in
  q / block_size cf < r.1 ∨ r.2 ≤ q / block_size cf.
Proof.
  intros Hbs Hk Hpos Hq Hat. unfold skip_range, get_num_skipped_tokens.
  destruct (kind cf) as [|w|w extra|chunk]; cbn in *.
  - right. apply Z.div_pos; lia.
  - destruct prompt as [n|]; cbn; [|right; apply Z.div_pos; lia].
    destruct (decide (q < n)) as [Hlt|Hge]; [left|right].
    + pose proof (Z.mul_div_le q (block_size cf) Hbs).
      destruct (decide (cdiv n (block_size cf) ≤ q / block_size cf)) as [Hc|]; [|lia].
      apply cdiv_le in Hc; [|done]. lia.
    + apply Z.div_le_mono; [lia|]. destruct Hat; lia.
  - right. apply Z.div_le_mono; lia.
  - right. apply Z.div_le_mono; [lia|].
    pose proof (Z.mul_div_le q chunk Hk). nia.
Qed.

(** Removing skipped blocks never takes a block the next token still
    attends to.  For every attention type, [remove_skipped_blocks] succeeds,
    keeps the reference counts exact, and leaves the table entry of every
    position [q] in the window of the next token (or in the retained prompt, for
    R-SWA) as it was; the table keeps its length. *)
Theorem skipped_blocks_outside_window ext rid s pos prompt l :
  (∀ b, 0 ≤ ext b) → acct ext s l → _partial_hit_reqs s.2 !! rid = None →
  0 < block_size (conf s.2) → kind_ok (kind (conf s.2)) → 0 ≤ pos →
  (∀ n, prompt = Some n → 0 ≤ n) →
  ∃ s' l', remove_skipped_blocks rid pos prompt s = (Ok tt, s') ∧ acct ext s' l' ∧
    zlen (tbl s'.2 rid) = zlen (tbl s.2 rid) ∧
    ∀ q, 0 ≤ q → attends (kind (conf s.2)) prompt pos q →
      tbl s'.2 rid !! Z.to_nat (q / block_size (conf s.2))
      = tbl s.2 rid !! Z.to_nat (q / block_size (conf s.2)).
Proof.
  intros Hext Ha Hp Hbs Hk Hpos Hpr.
  destruct (remove_skipped_run ext Hext rid s pos prompt l Ha Hp Hbs Hpr)
    as (t' & freed & s' & fs & ls & Hrun & Haf & Hn).
  exists s', (fs ++ l ++ ls). split; [done|]. split; [apply Haf|].
  rewrite (af_tbl _ _ _ _ _ _ _ _ Haf). split; [unfold zlen; by rewrite (nu_length _ _ _ _ _ Hn)|].
  intros q Hq Hat. apply (nu_outside _ _ _ _ _ Hn).
  assert (0 ≤ q / block_size (conf s.2)) by (apply Z.div_pos; lia).
  rewrite Z2Nat.id by done. by apply attended_outside.
Qed.

(** A manager on a new pool. *)
Lemma acct_init n caching hbs cf p :
  0 < n → pool_init n caching hbs = Ok p → acct (λ _, 0) (p, Manager cf [] ∅ ∅ ∅ []) (zrange 1 n).
Proof.
  intros Hn Hp. destruct (pool_init_run n caching hbs Hn) as (q & Hq & Hi & HN & _ & Hz).
  rewrite Hp in Hq. injection Hq as <-.
  assert (∀ b, mrefs (Manager cf [] ∅ ∅ ∅ []) b = 0) as Hm.
  { intros b. unfold mrefs, total_occ. cbn. by rewrite map_fold_empty. }
  split; [|intros r i src H; cbn in H; by rewrite lookup_empty in H]. split; [exact Hi|..]; intros b; cbn [snd fst].
  - rewrite Hm. done.
  - rewrite Hm. lia.
  - intros r nul Hb Hr. rewrite Hm. assert (0 ≤ b < n) as Hd.
    { destruct Hi as (_ & Hok & _). rewrite <-HN. apply (ro_dom _ _ _ Hok). by eexists. }
    rewrite (Hz b Hd) in Hr. injection Hr as Hr _. lia.
Qed.

(** *** Witness: a sliding window of three tokens over blocks of one. *)
Definition demo_window_conf : mconf := MConf (SlidingWindow 3 0) 1 false 0 1 false false None.
Definition demo_window_pool : pool :=
  match pool_init 8 false 1 with Ok p => p | Raise _ => Pool 0 false 0 ∅ (fq_init []) ∅ ∅ end.
Definition demo_window : st :=
  (allocate_new_blocks "a" 5 (demo_window_pool, Manager demo_window_conf [] ∅ ∅ ∅ [])).2.

Lemma demo_window_acct : ∃ l, acct (λ _, 0) demo_window l.
Proof.
  pose proof (acct_init 8 false 1 demo_window_conf demo_window_pool ltac:(lia) ltac:(by vm_compute)) as Ha.
  destruct (allocate_new_run (λ _, 0) (λ _, Z.le_refl 0) "a" _ 5 _ Ha)
    as (new & t & s' & l' & Hrun & _ & _ & _ & Haf); [by vm_compute|].
  exists l'. unfold demo_window. rewrite Hrun. apply Haf.
Qed.

Lemma skipped_blocks_outside_window_witness :
  ∃ s', remove_skipped_blocks "a" 4 (Some 2) demo_window = (Ok tt, s') ∧ zlen (tbl s'.2 "a") = 5 ∧
    tbl s'.2 "a" !! 2%nat = Some 3 ∧ tbl s'.2 "a" !! 1%nat = Some 0.
Proof.
  destruct demo_window_acct as [l Ha].
  destruct (skipped_blocks_outside_window (λ _, 0) "a" demo_window 4 (Some 2) l) as (s' & l' & Hrun & _ & Hz & Hq).
  - intros b. lia.
  - exact Ha.
  - by vm_compute.
  - by vm_compute.
  - by vm_compute.
  - lia.
  - by intros n [= <-].
  - exists s'. split; [exact Hrun|]. split; [rewrite Hz; by vm_compute|]. split.
    + specialize (Hq 2 ltac:(lia) ltac:(by vm_compute)).
      replace (Z.to_nat (2 / block_size (conf demo_window.2))) with 2%nat in Hq by (by vm_compute).
      rewrite Hq. by vm_compute.
    + assert (s' = (remove_skipped_blocks "a" 4 (Some 2) demo_window).2) as -> by (by rewrite Hrun). by vm_compute.
Defined.
