(* ===== verification/HybridCache.v ===== *)
(** * The prefix-cache lookup of hybrid models

    Models [HybridKVCacheCoordinator.find_longest_cache_hit] of
    vllm/v1/core/kv_cache_coordinator.py: groups of different attention types
    are searched in turn, each with the length the previous one accepted, until
    a whole round changes nothing.  What a round relies on is stated as the
    interface [PrefixSearch], which the searches of PrefixCache.v implement;
    the convergence and optimality of the rounds are proved against it.

    Mamba groups and decode-context parallelism are not modelled. *)

From S2P Require Import Prelude PyData FreeQueue BlockHash BlockHasher BlockPool CacheAllocator Ownership PrefixCache SingleTypeManager.
From stdpp Require Import base gmap sets list strings.
From Stdlib Require Import ZArith Lia.
Open Scope Z_scope.

(** Groups that share one spec. *)
Record spec_group := SpecGroup {
  sg_kind : attention_kind;
  sg_block_size : Z;
  sg_group_ids : list Z;
  sg_use_eagle : bool;
}.

(** [isinstance(spec, FullAttentionSpec)] *)
Definition is_full_spec (k : attention_kind) : bool :=
  match k with FullAttention | RSWA _ => true | _ => false end.

(** [manager_cls.find_longest_cache_hit] *)
Definition find_longest_cache_hit (p : pool) (hs : list bytes) (g : spec_group) (max_length : Z)
    (drop_eagle_block : bool) (alignment_tokens : Z) : result (list (list Z) * Z) :=
  let bs := sg_block_size g in
  match sg_kind g with
  | FullAttention | RSWA _ =>
      find_longest_full p (Raw hs) max_length (sg_group_ids g) bs drop_eagle_block alignment_tokens
  | SlidingWindow w _ =>
      find_longest_window p (Raw hs) max_length (sg_group_ids g) bs w drop_eagle_block alignment_tokens
  | ChunkedLocal chunk =>
      find_longest_chunked p (Raw hs) max_length (sg_group_ids g) bs chunk drop_eagle_block alignment_tokens
  end.

(** The local variables of the loop. *)
Record hybrid_state := Hybrid {
  curr_hit_length : Z;
  longest_hit_length : Z;
  hit_blocks_by_group : gmap Z (list Z);
  hit_length_by_group : gmap Z Z;
  eagle_verified : gset nat;
}.

Definition with_curr (n : Z) (h : hybrid_state) : hybrid_state :=
  Hybrid n (longest_hit_length h) (hit_blocks_by_group h) (hit_length_by_group h) (eagle_verified h).

(** [for group_id, blocks in zip(group_ids, hit_blocks): ...] *)
Fixpoint store_hits (ids : list Z) (cols : list (list Z)) (n : Z) (h : hybrid_state) : hybrid_state :=
  match ids, cols with
  | g :: ids', c :: cols' =>
      store_hits ids' cols' n
        (Hybrid (curr_hit_length h) (longest_hit_length h) (<[g := c]> (hit_blocks_by_group h))
           (<[g := n]> (hit_length_by_group h)) (eagle_verified h))
  | _, _ => h
  end.

Section Hybrid.
Context (p : pool) (hs : list bytes) (enable_partial_hash_hits : bool) (alignment_tokens max_cache_hit_length : Z).

(** The body of the [for] loop over the attention groups. *)
Definition group_step (idx : nat) (g : spec_group) (h : hybrid_state) : result hybrid_state :=
  match sg_group_ids g with
  | [] => Raise IndexError
  | first_group_id :: _ =>
      if is_full_spec (sg_kind g) && bool_decide (is_Some (hit_blocks_by_group h !! first_group_id))
      then Ok (with_curr (Z.min (curr_hit_length h) (default 0 (hit_length_by_group h !! first_group_id))) h)
      else
        let drop_eagle_block := sg_use_eagle g && negb (bool_decide (idx ∈ eagle_verified h)) in
        let eagle_margin := if enable_partial_hash_hits && is_full_spec (sg_kind g)
                               && (hash_block_size p <? sg_block_size g)
                            then hash_block_size p else sg_block_size g in
        let max_length := if drop_eagle_block
                          then Z.min (curr_hit_length h + eagle_margin) max_cache_hit_length
                          else curr_hit_length h in
        result_bind (find_longest_cache_hit p hs g max_length drop_eagle_block alignment_tokens) (λ r,
        let verified := if drop_eagle_block then {[idx]} ∪ eagle_verified h
                        else if r.2 <? curr_hit_length h then ∅ else eagle_verified h in
        let h' := store_hits (sg_group_ids g) r.1 r.2
                    (Hybrid r.2 (longest_hit_length h) (hit_blocks_by_group h) (hit_length_by_group h) verified) in
        Ok (Hybrid r.2 (Z.max (longest_hit_length h') r.2) (hit_blocks_by_group h')
              (hit_length_by_group h') verified))
  end.

Fixpoint sweep (idx : nat) (gs : list spec_group) (h : hybrid_state) : result hybrid_state :=
  match gs with
  | [] => Ok h
  | g :: gs' => result_bind (group_step idx g h) (sweep (S idx) gs')
  end.

(** The [while] loop; [None] is out of fuel. *)
Fixpoint hybrid_loop (fuel : nat) (simple : bool) (gs : list spec_group) (hit_length : Z) (h : hybrid_state)
    : option (result (Z * hybrid_state)) :=
  match fuel with
  | O => None
  | S fuel' =>
      match sweep 0 gs (with_curr hit_length h) with
      | Raise e => Some (Raise e)
      | Ok h' =>
          if hit_length <=? curr_hit_length h' then Some (Ok (hit_length, h'))
          else if simple then Some (Ok (curr_hit_length h', h'))
          else hybrid_loop fuel' simple gs (curr_hit_length h') h'
      end
  end.

(** [1 full attn + 1 other] *)
Definition is_simple_hybrid (gs : list spec_group) : bool :=
  match gs with [g; _] => is_full_spec (sg_kind g) | _ => false end.

(** [for group_id in group.group_ids: ... del blks[num_blocks:]] *)
Fixpoint truncate_ids (ids : list Z) (num_blocks hit_length : Z) (h : hybrid_state) : hybrid_state :=
  match ids with
  | [] => h
  | g :: ids' =>
      truncate_ids ids' num_blocks hit_length
        (match hit_blocks_by_group h !! g with
         | None => h
         | Some c => Hybrid (curr_hit_length h) (longest_hit_length h)
                       (<[g := py_take c num_blocks]> (hit_blocks_by_group h))
                       (<[g := hit_length]> (hit_length_by_group h)) (eagle_verified h)
         end)
  end.

Definition truncate_full (hit_length : Z) (h : hybrid_state) (g : spec_group) : hybrid_state :=
  if is_full_spec (sg_kind g)
  then truncate_ids (sg_group_ids g) (cdiv hit_length (sg_block_size g)) hit_length h
  else h.

Definition hybrid_find (fuel : nat) (num_groups : Z) (gs : list spec_group)
    : option (result (list (list Z) * Z * Z)) :=
  match hybrid_loop fuel (is_simple_hybrid gs) gs max_cache_hit_length (Hybrid 0 0 ∅ ∅ ∅) with
  | None => None
  | Some (Raise e) => Some (Raise e)
  | Some (Ok (hit_length, h)) =>
      let h' := foldl (truncate_full hit_length) h gs in
      Some (Ok ((λ i, default [] (hit_blocks_by_group h' !! i)) <$> zrange 0 num_groups, hit_length,
                longest_hit_length h' - hit_length))
  end.
End Hybrid.

(** ** What a search promises *)

(** The token at position [pos] attends to position [q] (within the prefix). *)
Definition needs (k : attention_kind) (pos q : Z) : Prop :=
  match k with
  | FullAttention | RSWA _ => True
  | SlidingWindow w _ => pos - w < q
  | ChunkedLocal chunk => pos / chunk ≤ q / chunk
  end.

Section Promise.
Context (p : pool) (hs : list bytes) (k : attention_kind) (bs : Z).

(** The end of block [i] within a prefix of [n] tokens. *)
Definition block_end (n : Z) (i : nat) : Z := Z.min ((Z.of_nat i + 1) * bs) n.

(** The column [c] of group [id] serves a hit of [n] tokens: every block the
    next token attends to caches the request's own prefix. *)
Definition served (id n : Z) (c : list Z) : Prop :=
  zlen c = cdiv n bs ∧
  ∀ (i : nat) b, c !! i = Some b → needs k n (block_end n i - 1) →
    ∃ e, block_end n i ≤ e ≤ (Z.of_nat i + 1) * bs ∧ caches p hs id e b.

(** The groups [ids] could serve a hit of [n] tokens. *)
Definition acceptable (ids : list Z) (n : Z) : Prop :=
  ∀ i : nat, Z.of_nat i < cdiv n bs → needs k n (block_end n i - 1) →
    is_Some (hash_upto hs (hash_block_size p) (block_end n i) ≫= cached p ids).
End Promise.

(** A search up to [max_length] returns the longest aligned length the groups
    can serve, with the blocks. *)
Class PrefixSearch (p : pool) (hs : list bytes) (g : spec_group) (a limit : Z) : Prop :=
  prefix_search : ∀ max_length, 0 ≤ max_length ≤ limit →
    ∃ cols n, find_longest_cache_hit p hs g max_length false a = Ok (cols, n) ∧
      0 ≤ n ≤ max_length ∧ n mod a = 0 ∧ length cols = length (sg_group_ids g) ∧
      (∀ j id c, sg_group_ids g !! j = Some id → cols !! j = Some c →
         served p hs (sg_kind g) (sg_block_size g) id n c) ∧
      (∀ e, e mod a = 0 → 0 ≤ e ≤ max_length →
         acceptable p hs (sg_kind g) (sg_block_size g) (sg_group_ids g) e → e ≤ n).

(** ** The searches keep the promise *)

Lemma cdiv_mul q b : 0 < b → cdiv (q * b) b = q.
Proof. intros. apply cdiv_unique; lia. Qed.

Lemma cdiv_rem e b : 0 < b → e mod b ≠ 0 → cdiv e b = e / b + 1.
Proof.
  intros Hb He. pose proof (Z.div_mod e b ltac:(lia)). pose proof (Z.mod_pos_bound e b Hb).
  apply cdiv_unique; nia.
Qed.

Lemma aligned_blocks e a bs : 0 < bs → 0 < a → a mod bs = 0 → e mod a = 0 → ∃ q, e = q * bs.
Proof.
  intros. assert ((bs | e)) as [q ->]; [|by exists q].
  apply (Z.divide_trans _ a); apply Z.mod_divide; done || lia.
Qed.

Lemma block_end_whole bs q (i : nat) : 0 < bs → Z.of_nat i < q → block_end bs (q * bs) i = (Z.of_nat i + 1) * bs.
Proof. intros. unfold block_end. nia. Qed.

Lemma window_mode_le p hs limit max_length bs a :
  max_length ≤ limit → window_mode p hs limit bs a → window_mode p hs max_length bs a.
Proof.
  intros Hle (H1 & H2 & H3 & H4 & H5 & H6). repeat (split; [done|]).
  pose proof (Z.div_le_mono max_length limit bs H2 Hle). nia.
Qed.

Section Searches.
Context (p : pool) (hs : list bytes) (g : spec_group) (a limit : Z).
Context (Hc : cache_inv p) (Hids : group_ids_ok (sg_group_ids g)) (Hne : sg_group_ids g ≠ []).
Notation bs := (sg_block_size g).

Lemma full_search : is_full_spec (sg_kind g) = true → hit_mode p bs a → PrefixSearch p hs g a limit.
Proof.
  intros Hk Hm M HM.
  assert (Hneeds : ∀ n q, needs (sg_kind g) n q) by (intros; destruct (sg_kind g); done).
  destruct (full_hit_run p hs M (sg_group_ids g) bs a false Hc Hm ltac:(lia) Hids Hne)
    as (cols & n & Hrun & Hal & Hn & Hlen & Hs & Hopt).
  exists cols, n. split; [unfold find_longest_cache_hit; by destruct (sg_kind g)|].
  split; [done|]. split; [done|]. split; [done|]. split.
  - intros j id c Hid Hcj. destruct (Hs j id c Hid Hcj) as [Hl Hb]. split; [done|]. intros i b Hi _. by apply Hb.
  - intros e Hea He Hacc. apply Hopt; [done|]. destruct Hm as (H1 & H2 & H3 & H4 & _).
    pose proof (Z.div_mod e bs ltac:(lia)) as Hdm. pose proof (Z.mod_pos_bound e bs H2).
    split; [done|]. split; [done|]. split.
    + intros i Hi. specialize (Hacc (Z.to_nat i)). unfold block_end in Hacc. rewrite Z2Nat.id in Hacc by lia.
      assert ((i + 1) * bs ≤ e) by nia. rewrite Z.min_l in Hacc by done. apply Hacc; [|done].
      destruct (decide (e mod bs = 0)) as [E|E]; [|rewrite cdiv_rem by done; lia].
      replace e with (e / bs * bs) by lia. rewrite cdiv_mul by done. lia.
    + intros Hr. assert (0 ≤ e / bs) by (apply Z.div_pos; lia).
      specialize (Hacc (Z.to_nat (e / bs))). unfold block_end in Hacc.
      rewrite Z2Nat.id, cdiv_rem, Z.min_r in Hacc by (done || nia). apply Hacc; [lia|done].
Qed.

Lemma window_search w o : sg_kind g = SlidingWindow w o → 1 < w → window_mode p hs limit bs a →
  PrefixSearch p hs g a limit.
Proof.
  intros Hk Hw Hm M HM. apply (window_mode_le _ _ _ M) in Hm; [|lia].
  destruct (window_hit_run p hs M (sg_group_ids g) bs a w false Hc Hm ltac:(lia) Hw Hids Hne)
    as (cols & n & Hrun & Hal & Hn & Hlen & Hs & Hopt). destruct Hm as (H1 & H2 & H3 & H4 & H5 & _).
  exists cols, (n * bs). unfold find_longest_cache_hit. rewrite Hk. split; [done|].
  split; [done|]. split; [done|]. split; [done|]. split.
  - intros j id c Hid Hcj. destruct (Hs j id c Hid Hcj) as [Hl Hb]. split; [by rewrite cdiv_mul|].
    intros i b Hi Hnd. apply lookup_lt_Some in Hi as Hlt. unfold zlen in Hl.
    rewrite block_end_whole in * by lia. cbn in Hnd. exists ((Z.of_nat i + 1) * bs). split; [lia|].
    apply Hb; [done|lia].
  - intros e Hea He Hacc. apply Hopt; [done..|]. intros i Hi Hin.
    destruct (aligned_blocks e a bs H2 H4 H5 Hea) as [q ->]. rewrite Z.div_mul in Hi by lia.
    specialize (Hacc (Z.to_nat i)). rewrite cdiv_mul, block_end_whole, Z2Nat.id in Hacc by lia.
    apply Hacc; [lia|]. cbn. lia.
Qed.

Lemma chunked_search chunk : sg_kind g = ChunkedLocal chunk → 0 < chunk → chunk mod bs = 0 → a = bs →
  window_mode p hs limit bs a → PrefixSearch p hs g a limit.
Proof.
  intros Hk Hch Hdiv -> Hm M HM. apply (window_mode_le _ _ _ M) in Hm; [|lia].
  destruct (chunked_hit_run p hs M (sg_group_ids g) bs chunk Hc Hm ltac:(lia) Hch Hdiv Hids Hne)
    as (cols & n & Hrun & Hn & Hlen & Hs & Hopt). destruct Hm as (H1 & H2 & H3 & H4 & H5 & _).
  assert (Hneeds : ∀ m q, needs (ChunkedLocal chunk) m (q - 1) ↔ m / chunk * chunk < q).
  { intros m q. cbn. split; intros Hq.
    - pose proof (Z.mul_div_le (q - 1) chunk Hch). nia.
    - apply Z.div_le_lower_bound; lia. }
  exists cols, (n * bs). unfold find_longest_cache_hit. rewrite Hk. split; [done|].
  split; [done|]. split; [by apply Z.mod_mul; lia|]. split; [done|]. split.
  - intros j id c Hid Hcj. destruct (Hs j id c Hid Hcj) as [Hl Hb]. split; [by rewrite cdiv_mul|].
    intros i b Hi Hnd. apply lookup_lt_Some in Hi as Hlt. unfold zlen in Hl.
    rewrite block_end_whole in * by lia. exists ((Z.of_nat i + 1) * bs). split; [lia|].
    apply Hb; [done|]. by apply Hneeds.
  - intros e Hea He Hacc. apply Z.mod_divide in Hea as [q ->]; [|lia].
    apply Z.mul_le_mono_pos_r; [done|]. apply Hopt; [done|]. intros i Hi Hin.
    specialize (Hacc (Z.to_nat i)). rewrite cdiv_mul, block_end_whole, Z2Nat.id in Hacc by lia.
    apply Hacc; [lia|]. by apply Hneeds.
Qed.
End Searches.

(** ** The rounds *)

Section Frame.
(** [h'] agrees with [h] on the groups outside [ids]. *)
Definition same_outside (ids : list Z) (h h' : hybrid_state) : Prop :=
  ∀ id, id ∉ ids → hit_blocks_by_group h' !! id = hit_blocks_by_group h !! id ∧
                   hit_length_by_group h' !! id = hit_length_by_group h !! id.

Lemma same_outside_trans ids1 ids2 h h1 h2 :
  same_outside ids1 h h1 → same_outside ids2 h1 h2 → same_outside (ids1 ++ ids2) h h2.
Proof.
  intros H1 H2 id [Hn1 Hn2]%not_elem_of_app. destruct (H1 id Hn1), (H2 id Hn2). split; congruence.
Qed.

Lemma store_hits_spec ids cols n h :
  NoDup ids → length cols = length ids →
  let h' := store_hits ids cols n h in
  curr_hit_length h' = curr_hit_length h ∧ longest_hit_length h' = longest_hit_length h ∧
  same_outside ids h h' ∧
  ∀ j id, ids !! j = Some id → hit_blocks_by_group h' !! id = cols !! j ∧ hit_length_by_group h' !! id = Some n.
Proof.
  revert cols h. induction ids as [|i ids IH]; intros [|c cols] h; cbn; try done.
  intros [Hi Hnd]%NoDup_cons [= Hlen].
  specialize (IH cols (Hybrid (curr_hit_length h) (longest_hit_length h) (<[i := c]> (hit_blocks_by_group h))
    (<[i := n]> (hit_length_by_group h)) (eagle_verified h)) Hnd Hlen) as (H1 & H2 & H3 & H4).
  split; [done|]. split; [done|]. split.
  - intros id [Hne Hid]%not_elem_of_cons. destruct (H3 id Hid) as [-> ->]. cbn.
    by rewrite !lookup_insert_ne.
  - intros [|j] id; cbn; [|by apply H4]. intros [= ->]. destruct (H3 id Hi) as [-> ->]. cbn.
    by rewrite !lookup_insert_eq.
Qed.

Lemma truncate_ids_spec ids nb n h :
  NoDup ids →
  let h' := truncate_ids ids nb n h in
  longest_hit_length h' = longest_hit_length h ∧ same_outside ids h h' ∧
  ∀ id c, id ∈ ids → hit_blocks_by_group h !! id = Some c → hit_blocks_by_group h' !! id = Some (py_take c nb).
Proof.
  revert h. induction ids as [|i ids IH]; intros h; cbn; [intros _; split_and!; [done..|]; by intros ? ? ?%elem_of_nil|].
  intros [Hi Hnd]%NoDup_cons. set (h1 := match _ with Some c => _ | None => h end).
  assert (Hl : longest_hit_length h1 = longest_hit_length h) by (unfold h1; by destruct (_ !! i)).
  assert (Hs : same_outside [i] h h1).
  { intros id Hne%not_elem_of_cons. unfold h1. destruct (_ !! i) as [c|]; [|done]. cbn.
    by rewrite !lookup_insert_ne by naive_solver. }
  specialize (IH h1 Hnd) as (H1 & H2 & H3). split; [congruence|].
  split; [by apply (same_outside_trans [i] ids h h1)|].
  intros id c [->|Hid]%elem_of_cons Hc.
  - destruct (H2 i Hi) as [-> _]. unfold h1. rewrite Hc. cbn. by rewrite lookup_insert_eq.
  - apply H3; [done|]. destruct (Hs id) as [-> _]; [|done]. intros E%list_elem_of_singleton. by rewrite E in Hid.
Qed.
End Frame.

Section Rounds.
Context (p : pool) (hs : list bytes) (partial_hits : bool) (a limit e0 : Z).
Context (Ha : 0 < a).

(** Every column of the group serves [n] tokens. *)
Definition stored (h : hybrid_state) (g : spec_group) (n : Z) : Prop :=
  ∀ id, id ∈ sg_group_ids g → hit_length_by_group h !! id = Some n ∧
    ∃ c, hit_blocks_by_group h !! id = Some c ∧ served p hs (sg_kind g) (sg_block_size g) id n c.

Definition kept (h : hybrid_state) (g : spec_group) : Prop :=
  ∃ n, stored h g n ∧ e0 ≤ n ∧ n mod a = 0 ∧ curr_hit_length h ≤ n ≤ longest_hit_length h.

(** A full-attention group is searched once, later rounds reuse its blocks. *)
Definition ready (h : hybrid_state) (g : spec_group) : Prop :=
  is_full_spec (sg_kind g) = true →
  (∀ id, id ∈ sg_group_ids g → hit_blocks_by_group h !! id = None) ∨
  (kept h g ∧ curr_hit_length h mod a = 0).

Definition in_range (h : hybrid_state) : Prop :=
  0 ≤ e0 ≤ curr_hit_length h ∧ curr_hit_length h ≤ limit ∧ 0 ≤ longest_hit_length h ≤ limit.

Definition shrinks (h h' : hybrid_state) : Prop :=
  curr_hit_length h' ≤ curr_hit_length h ∧ longest_hit_length h ≤ longest_hit_length h'.

Lemma stored_frame ids h h' g n :
  same_outside ids h h' → (∀ id, id ∈ sg_group_ids g → id ∉ ids) → stored h g n → stored h' g n.
Proof. intros Hs Hd Hst id Hid. destruct (Hs id (Hd id Hid)) as [-> ->]. by apply Hst. Qed.

Lemma kept_frame ids h h' g :
  same_outside ids h h' → shrinks h h' → (∀ id, id ∈ sg_group_ids g → id ∉ ids) → kept h g → kept h' g.
Proof.
  intros Hs Hm Hd (n & Hst & ? & ? & ?). destruct Hm. exists n.
  split; [by eapply stored_frame|]. split; [done|]. split; [done|lia].
Qed.

Lemma ready_frame ids h h' g :
  same_outside ids h h' → shrinks h h' → curr_hit_length h' mod a = 0 →
  (∀ id, id ∈ sg_group_ids g → id ∉ ids) → ready h g → ready h' g.
Proof.
  intros Hs Hm Hal Hd Hr Hf. destruct (Hr Hf) as [Hn|[Hk _]].
  - left. intros id Hid. destruct (Hs id (Hd id Hid)) as [-> _]. by apply Hn.
  - right. split; [by eapply kept_frame|done].
Qed.

Lemma group_step_run idx g h :
  PrefixSearch p hs g a limit → sg_use_eagle g = false → NoDup (sg_group_ids g) → sg_group_ids g ≠ [] →
  acceptable p hs (sg_kind g) (sg_block_size g) (sg_group_ids g) e0 → e0 mod a = 0 →
  in_range h → ready h g →
  ∃ h', group_step p hs partial_hits a limit idx g h = Ok h' ∧ in_range h' ∧ shrinks h h' ∧
    same_outside (sg_group_ids g) h h' ∧ kept h' g ∧ curr_hit_length h' mod a = 0 ∧
    (is_full_spec (sg_kind g) = false → stored h' g (curr_hit_length h')).
Proof.
  intros Hsearch Heagle Hnd Hne Hacc He0 Hin Hready. unfold group_step. rewrite Heagle. cbn [andb].
  destruct (sg_group_ids g) as [|i0 ids0] eqn:Eids; [done|]. rewrite <-Eids in *.
  assert (Hi0 : i0 ∈ sg_group_ids g) by (rewrite Eids; left). destruct Hin as (Hi1 & Hi2 & Hi3).
  destruct (is_full_spec (sg_kind g) && _) eqn:Eskip.
  - apply andb_prop in Eskip as [Hf Hsome%bool_decide_eq_true].
    destruct (Hready Hf) as [Hnone|[(n & Hst & Hn1 & Hn2 & Hn3) Hal]].
    { rewrite Hnone in Hsome by done. by destruct Hsome. }
    destruct (Hst i0 Hi0) as [Hl _]. rewrite Hl. cbn [default from_option id].
    rewrite Z.min_l by lia. exists (with_curr (curr_hit_length h) h). split; [done|].
    unfold in_range, shrinks. cbn. split; [lia|]. split; [lia|]. split; [done|].
    split; [by exists n|]. split; [done|]. by rewrite Hf.
  - destruct (Hsearch (curr_hit_length h) ltac:(lia)) as (cols & n & Hrun & Hn & Hal & Hlen & Hs & Hopt).
    rewrite Hrun. cbn [result_bind fst snd]. set (v := if n <? _ then _ else _).
    destruct (store_hits_spec (sg_group_ids g) cols n
      (Hybrid n (longest_hit_length h) (hit_blocks_by_group h) (hit_length_by_group h) v) Hnd Hlen)
      as (Hcu & Hlo & Hout & Hin). set (h1 := store_hits _ _ _ _) in *. cbn in Hcu, Hlo.
    set (h2 := Hybrid n _ _ _ _). exists h2. split; [done|].
    assert (Hst : stored h2 g n).
    { intros id Hid. apply list_elem_of_lookup in Hid as [j Hj]. destruct (Hin j id Hj) as [Hb ?].
      split; [done|]. apply lookup_lt_Some in Hj as Hlt. rewrite <-Hlen in Hlt.
      destruct (lookup_lt_is_Some_2 cols j Hlt) as [c Hc]. exists c. cbn. rewrite Hb. split; [done|].
      by eapply Hs. }
    assert (e0 ≤ n) by (apply Hopt; done || lia).
    unfold in_range, shrinks, kept. cbn. rewrite Hlo. split; [lia|]. split; [lia|]. split; [done|].
    split; [exists n; split; [done|lia]|]. split; [done|]. done.
Qed.

Definition all_ids (gs : list spec_group) : list Z := mjoin (sg_group_ids <$> gs).

(** What the rounds need of a group: its search keeps the promise, and the
    candidate [e0] is one it could serve. *)
Record searchable (g : spec_group) : Prop := {
  s_search :: PrefixSearch p hs g a limit;
  s_eagle : sg_use_eagle g = false;
  s_ne : sg_group_ids g ≠ [];
}.
Definition agrees (g : spec_group) : Prop :=
  acceptable p hs (sg_kind g) (sg_block_size g) (sg_group_ids g) e0.

Lemma all_ids_elem gs g id : g ∈ gs → id ∈ sg_group_ids g → id ∈ all_ids gs.
Proof. intros Hg Hid. apply list_elem_of_join. exists (sg_group_ids g). split; [done|by apply list_elem_of_fmap_2]. Qed.

Lemma sweep_run gs idx h :
  Forall searchable gs → Forall agrees gs → e0 mod a = 0 → NoDup (all_ids gs) →
  in_range h → (∀ g, g ∈ gs → ready h g) →
  ∃ h', sweep p hs partial_hits a limit idx gs h = Ok h' ∧ in_range h' ∧ shrinks h h' ∧
    same_outside (all_ids gs) h h' ∧ (∀ g, g ∈ gs → kept h' g) ∧
    (gs ≠ [] → curr_hit_length h' mod a = 0) ∧
    (∀ g, g ∈ gs → is_full_spec (sg_kind g) = false →
       ∃ n, stored h' g n ∧ curr_hit_length h' ≤ n ≤ curr_hit_length h) ∧
    (∀ g, last gs = Some g → is_full_spec (sg_kind g) = false → stored h' g (curr_hit_length h')).
Proof.
  revert idx h. induction gs as [|g gs IH]; intros idx h Hs Hag He0 Hnd Hin Hready.
  { exists h. split_and!; try done; by intros ? ?%elem_of_nil. }
  inversion_clear Hs as [|? ? Hg Hgs]. inversion_clear Hag as [|? ? Hag1 Hags].
  unfold all_ids in Hnd. cbn in Hnd. apply NoDup_app in Hnd as (Hnd1 & Hdis & Hnd2).
  destruct Hg as [Hsearch Heagle Hne].
  destruct (group_step_run idx g h Hsearch Heagle Hnd1 Hne Hag1 He0 Hin (Hready g ltac:(left)))
    as (h1 & Hrun1 & Hin1 & Hsh1 & Hout1 & Hk1 & Hal1 & Hst1).
  assert (Hd1 : ∀ g', g' ∈ gs → ∀ id, id ∈ sg_group_ids g' → id ∉ sg_group_ids g).
  { intros g' Hg' id Hid Hid'. by apply (Hdis id Hid'), (all_ids_elem gs g' id). }
  destruct (IH (S idx) h1 Hgs Hags He0 Hnd2 Hin1) as (h2 & Hrun2 & Hin2 & Hsh2 & Hout2 & Hk2 & Hal2 & Hst2 & Hl2).
  { intros g' Hg'. eapply ready_frame; [exact Hout1|exact Hsh1|exact Hal1|by apply Hd1|]. apply Hready. by right. }
  assert (Hal : curr_hit_length h2 mod a = 0).
  { destruct gs; [|by apply Hal2]. cbn in Hrun2. by injection Hrun2 as <-. }
  destruct Hsh1 as [Hc1 Ho1]. destruct Hsh2 as [Hc2 Ho2].
  exists h2. cbn. rewrite Hrun1. cbn. split; [done|]. split; [done|]. split; [split; lia|].
  split; [by eapply same_outside_trans|]. split.
  { intros g' [->|Hg']%elem_of_cons; [|by apply Hk2].
    eapply kept_frame; [exact Hout2|by split|exact Hdis|done]. }
  split; [done|]. split.
  - intros g' [->|Hg']%elem_of_cons Hf.
    + exists (curr_hit_length h1). split; [|lia]. eapply stored_frame; [exact Hout2|exact Hdis|by apply Hst1].
    + destruct (Hst2 g' Hg' Hf) as (n & ? & ?). exists n. split; [done|lia].
  - intros g' Hlast Hf. destruct gs as [|g2 gs]; [|by apply Hl2].
    cbn in Hrun2. injection Hrun2 as <-. injection Hlast as <-. by apply Hst1.
Qed.

(** The loop's result: full-attention groups hold at least the hit, the others
    exactly the hit. *)
Definition settled (h : hybrid_state) (hit : Z) (g : spec_group) : Prop :=
  ∃ n, stored h g n ∧ hit ≤ n ∧ (is_full_spec (sg_kind g) = false → n = hit).

Lemma hybrid_loop_run fuel gs n h :
  Forall searchable gs → Forall agrees gs → e0 mod a = 0 → NoDup (all_ids gs) → gs ≠ [] →
  in_range (with_curr n h) → (∀ g, g ∈ gs → ready (with_curr n h) g) → (Z.to_nat n < fuel)%nat →
  ∃ hit h', hybrid_loop p hs partial_hits a limit fuel (is_simple_hybrid gs) gs n h = Some (Ok (hit, h')) ∧
    e0 ≤ hit ≤ n ∧ hit mod a = 0 ∧ hit ≤ longest_hit_length h' ≤ limit ∧ Forall (settled h' hit) gs.
Proof.
  intros Hs Hag He0 Hnd Hne. revert n h. induction fuel as [|fuel IH]; intros n h Hin Hready Hfuel; [lia|].
  destruct (sweep_run gs 0 (with_curr n h) Hs Hag He0 Hnd Hin Hready)
    as (h1 & Hrun & Hin1 & [Hc Ho] & Hout & Hk & Hal & Hst & Hlast). specialize (Hal Hne).
  cbn [hybrid_loop]. rewrite Hrun. pose proof Hin1 as (? & ? & ?). cbn [curr_hit_length with_curr] in *.
  assert (∃ g, g ∈ gs) as [g0 Hg0] by (destruct gs as [|g0 ?]; [done|exists g0; left]).
  destruct (Hk g0 Hg0) as (n0 & _ & _ & _ & ?).
  destruct (n <=? curr_hit_length h1) eqn:E1; [|destruct (is_simple_hybrid gs) eqn:E2].
  - assert (curr_hit_length h1 = n) as Heq by lia. rewrite Heq in *. exists n, h1. split; [done|].
    split; [lia|]. split; [done|]. split; [lia|]. apply Forall_forall. intros g Hg.
    destruct (is_full_spec (sg_kind g)) eqn:Ef.
    + destruct (Hk g Hg) as (m & ? & ? & ? & ?). exists m. rewrite Ef. split; [done|]. split; [lia|done].
    + destruct (Hst g Hg Ef) as (m & ? & ?). exists m. split; [done|lia].
  - exists (curr_hit_length h1), h1. split; [done|]. split; [lia|]. split; [done|]. split; [lia|].
    destruct gs as [|g1 [|g2 [|]]]; try done. cbn in E2. repeat constructor.
    + destruct (Hk g1 ltac:(left)) as (m & ? & ? & ? & ?). exists m. rewrite E2. split; [done|]. split; [lia|done].
    + destruct (is_full_spec (sg_kind g2)) eqn:Ef.
      * destruct (Hk g2 ltac:(right; left)) as (m & ? & ? & ? & ?). exists m. rewrite Ef. split; [done|]. split; [lia|done].
      * exists (curr_hit_length h1). split; [by apply Hlast|lia].
  - destruct (IH (curr_hit_length h1) h1) as (hit & h2 & Hrun2 & ? & ? & ? & ?).
    + done.
    + intros g Hg _. right. split; [by apply Hk|done].
    + lia.
    + exists hit, h2. split; [done|]. split; [lia|done].
Qed.
End Rounds.

(** ** The truncation *)

(** Full attention is downward closed: a prefix of the blocks serves a shorter hit. *)
Lemma served_take p hs k bs id n m c :
  is_full_spec k = true → 0 < bs → 0 ≤ m ≤ n → served p hs k bs id n c →
  served p hs k bs id m (py_take c (cdiv m bs)).
Proof.
  intros Hk Hbs Hm [Hlen Hs].
  assert (cdiv m bs ≤ cdiv n bs) as Hle by (apply cdiv_le; [done|]; pose proof (cdiv_le n bs (cdiv n bs) Hbs); lia).
  assert (0 ≤ cdiv m bs) by (assert (¬ cdiv m bs ≤ -1); [rewrite <-cdiv_le by done|]; lia).
  unfold served, py_take. replace (cdiv m bs <? 0) with false by lia. unfold zlen in *. split.
  { rewrite length_take. lia. }
  intros i b [Hb Hi]%lookup_take_Some _. destruct (Hs i b Hb) as (e & He & Hce).
  { by destruct k. }
  exists e. split; [|done]. unfold block_end in *. lia.
Qed.

Section Truncate.
Context (p : pool) (hs : list bytes) (hit : Z) (Hhit : 0 ≤ hit).

Lemma truncate_full_run g h :
  0 < sg_block_size g → NoDup (sg_group_ids g) → settled p hs h hit g →
  let h' := truncate_full hit h g in
  longest_hit_length h' = longest_hit_length h ∧ same_outside (sg_group_ids g) h h' ∧
  ∀ id, id ∈ sg_group_ids g → ∃ c, hit_blocks_by_group h' !! id = Some c ∧
    served p hs (sg_kind g) (sg_block_size g) id hit c.
Proof.
  intros Hbs Hnd (n & Hst & Hle & Heq). unfold truncate_full.
  destruct (is_full_spec (sg_kind g)) eqn:Ef; cbn.
  - destruct (truncate_ids_spec (sg_group_ids g) (cdiv hit (sg_block_size g)) hit h Hnd) as (H1 & H2 & H3).
    split; [done|]. split; [done|]. intros id Hid. destruct (Hst id Hid) as (_ & c & Hc & Hs).
    exists (py_take c (cdiv hit (sg_block_size g))). split; [by apply H3|]. by eapply served_take.
  - rewrite Heq in Hst by done. split; [done|]. split; [done|]. intros id Hid. by apply Hst.
Qed.

Lemma truncate_all gs h :
  Forall (λ g, 0 < sg_block_size g) gs → NoDup (all_ids gs) → Forall (settled p hs h hit) gs →
  let h' := foldl (truncate_full hit) h gs in
  longest_hit_length h' = longest_hit_length h ∧ same_outside (all_ids gs) h h' ∧
  ∀ g id, g ∈ gs → id ∈ sg_group_ids g → ∃ c, hit_blocks_by_group h' !! id = Some c ∧
    served p hs (sg_kind g) (sg_block_size g) id hit c.
Proof.
  revert h. induction gs as [|g gs IH]; intros h Hbs Hnd Hset.
  { split_and!; [done..|]. by intros ? ? ?%elem_of_nil. }
  inversion_clear Hbs. inversion_clear Hset as [|? ? Hg Hgs].
  unfold all_ids in Hnd. cbn in Hnd. apply NoDup_app in Hnd as (Hnd1 & Hdis & Hnd2).
  destruct (truncate_full_run g h) as (Hl1 & Ho1 & Hs1); [done..|].
  destruct (IH (truncate_full hit h g)) as (Hl2 & Ho2 & Hs2); [done..| |].
  { rewrite Forall_forall in Hgs |- *. intros g' Hg'. destruct (Hgs g' Hg') as (n & Hst & ?).
    exists n. split; [|done]. eapply stored_frame; [exact Ho1| |done].
    intros id Hid Hid'. by apply (Hdis id Hid'), (all_ids_elem gs g' id). }
  cbn. split; [congruence|]. split; [by eapply same_outside_trans|].
  intros g' id [->|Hg']%elem_of_cons Hid; [|by apply Hs2].
  destruct (Ho2 id (Hdis id Hid)) as [-> _]. by apply Hs1.
Qed.
End Truncate.

(** ** The properties *)

(** The configurations the coordinator accepts for a group: full attention at
    block or hash granularity, windows and chunks at block granularity. *)
Definition lookup_config (p : pool) (hs : list bytes) (a limit : Z) (g : spec_group) : Prop :=
  group_ids_ok (sg_group_ids g) ∧ sg_group_ids g ≠ [] ∧ sg_use_eagle g = false ∧
  match sg_kind g with
  | FullAttention | RSWA _ => hit_mode p (sg_block_size g) a
  | SlidingWindow w _ => 1 < w ∧ window_mode p hs limit (sg_block_size g) a
  | ChunkedLocal chunk => 0 < chunk ∧ chunk mod sg_block_size g = 0 ∧ a = sg_block_size g ∧
                          window_mode p hs limit (sg_block_size g) a
  end.

Lemma config_searchable p hs a limit g :
  cache_inv p → lookup_config p hs a limit g →
  searchable p hs a limit g ∧ 0 < a ∧ 0 < sg_block_size g.
Proof.
  intros Hc (Hids & Hne & He & Hk). split; [split; [|done..]|].
  - destruct (sg_kind g) eqn:Ek.
    1-2: apply full_search; rewrite ?Ek; done.
    + destruct Hk. by eapply window_search.
    + destruct Hk as (? & ? & ? & ?). by eapply chunked_search.
  - destruct (sg_kind g).
    1-2: by destruct Hk as (? & ? & ? & ? & _).
    + by destruct Hk as (_ & ? & ? & ? & ? & _).
    + by destruct Hk as (_ & _ & _ & ? & ? & ? & ? & _).
Qed.

(** C16: the fixed point over the groups of a hybrid model.  For groups of
    different attention types without EAGLE, the alternation of searches ends
    within [max + 1] rounds, with one aligned hit length: every group holds,
    in each of its columns, blocks that cache the request's own prefix wherever
    the next token attends to it, and no aligned length up to the maximum that
    all groups could serve is longer.  The reported uncached common prefix is
    never negative and stays within the maximum. *)
Theorem hybrid_hit_correct size caching p hs partial_hits a max_length gs num_groups fuel :
  pool_reachable size caching p → 0 ≤ max_length → gs ≠ [] → Forall (lookup_config p hs a max_length) gs →
  NoDup (all_ids gs) → (∀ id, id ∈ all_ids gs → 0 ≤ id < num_groups) → (Z.to_nat max_length < fuel)%nat →
  ∃ cols hit uncached,
    hybrid_find p hs partial_hits a max_length fuel num_groups gs = Some (Ok (cols, hit, uncached)) ∧
    0 ≤ hit ∧ hit mod a = 0 ∧ 0 ≤ uncached ∧ hit + uncached ≤ max_length ∧
    (∀ g id, g ∈ gs → id ∈ sg_group_ids g →
       ∃ c, cols !! Z.to_nat id = Some c ∧ served p hs (sg_kind g) (sg_block_size g) id hit c) ∧
    (∀ e, e mod a = 0 → 0 ≤ e ≤ max_length →
       (∀ g, g ∈ gs → acceptable p hs (sg_kind g) (sg_block_size g) (sg_group_ids g) e) → e ≤ hit).
Proof.
  intros Hreach%reachable_cache Hmax Hne Hconf Hnd Hids Hfuel.
  assert (Hall : ∀ g, g ∈ gs → searchable p hs a max_length g ∧ 0 < a ∧ 0 < sg_block_size g).
  { rewrite Forall_forall in Hconf. intros g Hg. by apply config_searchable, Hconf. }
  assert (Hrun : ∀ e, e mod a = 0 → 0 ≤ e ≤ max_length → Forall (agrees p hs e) gs →
    ∃ hit h', hybrid_loop p hs partial_hits a max_length fuel (is_simple_hybrid gs) gs max_length (Hybrid 0 0 ∅ ∅ ∅)
      = Some (Ok (hit, h')) ∧ e ≤ hit ≤ max_length ∧ hit mod a = 0 ∧ hit ≤ longest_hit_length h' ≤ max_length ∧
      Forall (settled p hs h' hit) gs).
  { intros e He1 He2 Hag. apply hybrid_loop_run; try done.
    - apply Forall_forall. intros g Hg. by apply Hall.
    - intros g Hg _. left. intros id _. apply lookup_empty. }
  destruct (Hrun 0) as (hit & h & Hloop & Hhit & Hal & Hlong & Hset).
  { done. } { lia. }
  { apply Forall_forall. intros g Hg i Hi. destruct (Hall g Hg) as (_ & _ & Hbs). rewrite (cdiv_unique 0 _ 0) in Hi by lia. lia. }
  destruct (truncate_all p hs hit ltac:(lia) gs h) as (Hl & _ & Hserved); [|done..|].
  { apply Forall_forall. intros g Hg. by apply Hall. }
  unfold hybrid_find. rewrite Hloop.
  eexists _, hit, _. split; [done|]. rewrite Hl. split_and!; try done || lia.
  - intros g id Hg Hid. destruct (Hserved g id Hg Hid) as (c & Hc & Hs). exists c. split; [|done].
    pose proof (Hids id (all_ids_elem gs g id Hg Hid)).
    rewrite list_lookup_fmap, zrange_lookup by lia.
    rewrite Z.add_0_l, Z2Nat.id by lia. cbn. by rewrite Hc.
  - intros e He1 He2 Hag. destruct (Hrun e He1 He2) as (hit' & h' & Hloop' & ? & _).
    { apply Forall_forall. exact Hag. }
    rewrite Hloop in Hloop'. injection Hloop' as <- _. lia.
Qed.

(** ** A concrete lookup *)

Definition hybrid_key (h id : Z) : bytes := [h; 0; 0; 0; id].
(** Three full-attention blocks and one block of each of two windows. *)
Definition hybrid_blocks : list (bytes * Z * Z) :=
  [(hybrid_key 1 0, 1, 1); (hybrid_key 2 0, 2, 2); (hybrid_key 3 0, 5, 3);
   (hybrid_key 2 1, 3, 2); (hybrid_key 2 2, 4, 2)].
Definition hybrid_pool : pool :=
  foldl (λ p x, (_insert_block_hash x.1.1 x.1.2 (Some x.2) p).2) prefix_pool0 hybrid_blocks.
Definition hybrid_groups : list spec_group :=
  [SpecGroup FullAttention 1 [0] false; SpecGroup (SlidingWindow 2 0) 1 [1] false;
   SpecGroup (SlidingWindow 2 0) 1 [2] false].

(** The full-attention hit of three tokens shrinks to the windows' two. *)
Example hybrid_find_example :
  hybrid_find hybrid_pool prefix_hashes false 1 4 5 3 hybrid_groups
  = Some (Ok ([[1; 2]; [0; 3]; [0; 4]], 2, 1)).
Proof. by vm_compute. Qed.

Lemma hybrid_pool_reachable : pool_reachable 8 true hybrid_pool.
Proof.
  unfold hybrid_pool, hybrid_blocks. cbn [foldl fst snd].
  repeat (apply prefix_insert_reachable; [|by vm_compute; eexists]). exact prefix_pool0_reachable.
Qed.

Lemma hybrid_hit_correct_witness :
  ∃ cols hit uncached,
    hybrid_find hybrid_pool prefix_hashes false 1 4 5 3 hybrid_groups = Some (Ok (cols, hit, uncached)) ∧
    0 ≤ hit ∧ 0 ≤ uncached ∧ hit + uncached ≤ 4.
Proof.
  destruct (hybrid_hit_correct 8 true hybrid_pool prefix_hashes false 1 4 hybrid_groups 3 5)
    as (cols & hit & u & H1 & H2 & _ & H3 & H4 & _).
  - exact hybrid_pool_reachable.
  - lia.
  - done.
  - repeat constructor; by vm_compute.
  - change (NoDup [0; 1; 2]). repeat (apply NoDup_cons; split; [set_solver|]). apply NoDup_nil_2.
  - change (∀ id, id ∈ [0; 1; 2] → 0 ≤ id < 3). intros id Hid.
    assert (id = 0 ∨ id = 1 ∨ id = 2) by set_solver. lia.
  - vm_compute. lia.
  - exists cols, hit, u. exact (conj H1 (conj H2 (conj H3 H4))).
Defined.
