(* ===== verification/RetentionMask.v ===== *)
(** * Which sliding-window blocks stay in the prefix cache

    The blocks [SlidingWindowManager.reachable_block_mask] (modelled in
    SingleTypeManager.v) keeps: the tails that end at a hit boundary, and no
    others.  Composed with the search of PrefixCache.v: a request that finds
    only the kept blocks still gets its hit at every boundary. *)

From S2P Require Import Prelude PyData FreeQueue BlockHash BlockHasher BlockPool CacheAllocator Ownership PrefixCache SingleTypeManager.
From stdpp Require Import base gmap sets list strings.
From Stdlib Require Import ZArith Lia.
Open Scope Z_scope.

(** Whether block [i] is kept; no mask keeps every block. *)
Definition retained (mask : option (list bool)) (start i : Z) : bool :=
  match mask with
  | None => true
  | Some bits => default false (bits !! Z.to_nat (i - start))
  end.

(** The prefix lengths at which hits are to be kept. *)
Definition hit_boundary (a : Z) (ri : option Z) (bounds : list Z) (e : Z) : Prop :=
  match ri with
  | None => 0 < e ∧ e mod a = 0
  | Some r => (r ≠ 0 ∧ 0 < e ∧ e mod r = 0) ∨ ∃ b, b ∈ bounds ∧ e = b / a * a
  end.

Definition retention_ok (a : Z) (ri : option Z) : Prop :=
  match ri with None => True | Some r => 0 ≤ r ∧ r mod a = 0 end.

(** Block [i] is one of the [need] blocks that end at [e] (one later with EAGLE). *)
Definition in_tail (need shift bs e i : Z) : Prop :=
  e / bs + shift - need ≤ i < e / bs + shift.

Section SetMask.
Context (start stop : Z).

Lemma set_mask_retained lo hi bits i :
  start ≤ lo → hi ≤ stop → zlen bits = stop - start → start ≤ i < stop →
  zlen (set_mask start lo hi bits) = stop - start ∧
  (retained (Some (set_mask start lo hi bits)) start i = true ↔
   lo ≤ i < hi ∨ retained (Some bits) start i = true).
Proof.
  intros Hlo Hhi Hlen Hi. unfold set_mask.
  assert (Hin : ∀ j, j ∈ zrange lo hi → start ≤ j < stop) by (intros j ?%elem_of_zrange; lia).
  assert (Hel : lo ≤ i < hi ↔ i ∈ zrange lo hi) by (by rewrite elem_of_zrange). rewrite Hel. clear Hel Hlo Hhi.
  revert bits Hlen. induction (zrange lo hi) as [|j js IH]; intros bits Hlen.
  { split; [done|]. split; [by right|by intros [?%elem_of_nil|]]. }
  cbn [foldl]. destruct (IH ltac:(intros; apply Hin; by right) (<[Z.to_nat (j - start) := true]> bits)) as [Hl Hr].
  { unfold zlen. by rewrite length_insert. }
  split; [done|]. rewrite Hr, elem_of_cons. cbn. pose proof (Hin j ltac:(left)). unfold zlen in Hlen.
  destruct (decide (i = j)) as [->|Hne].
  - rewrite list_lookup_insert_eq by lia. cbn. naive_solver.
  - rewrite list_lookup_insert_ne by lia. naive_solver.
Qed.

Lemma boundary_tails need shift a bs bounds bits i :
  zlen bits = stop - start → start ≤ i < stop →
  let tail m b := let end_ := b / a * a / bs + shift in
                  set_mask start (Z.max start (end_ - need)) (Z.min stop end_) m in
  retained (Some (foldl tail bits bounds)) start i = true ↔
  (∃ b, b ∈ bounds ∧ in_tail need shift bs (b / a * a) i) ∨ retained (Some bits) start i = true.
Proof.
  intros Hlen Hi tail. revert bits Hlen. induction bounds as [|b bounds IH]; intros bits Hlen; cbn [foldl].
  { split; [by right|]. by intros [(? & ?%elem_of_nil & _)|]. }
  destruct (set_mask_retained (Z.max start (b / a * a / bs + shift - need)) (Z.min stop (b / a * a / bs + shift))
    bits i) as [Hl Hr]; [lia|lia|done|done|].
  rewrite IH by done. unfold tail at 1. rewrite Hr. unfold in_tail. setoid_rewrite elem_of_cons. split.
  - intros [(b' & ? & ?)|[?|?]]; [left; eauto|left; exists b; split; [by left|lia]|by right].
  - intros [(b' & [->|?] & ?)|?]; [right; left; lia|left; eauto|right; by right].
Qed.
End SetMask.

(** The dense tails: the last [need] of every [ps] blocks. *)
Lemma segment_tails ps need shift i :
  0 < need < ps → 0 ≤ shift ≤ 1 → 0 ≤ i →
  (shift <=? i) && (ps - need <=? (i - shift) mod ps) = true ↔
  ∃ k, 0 < k ∧ k * ps + shift - need ≤ i < k * ps + shift.
Proof.
  intros Hn Hsh Hi. pose proof (Z.div_mod (i - shift) ps ltac:(lia)) as Hdm.
  pose proof (Z.mod_pos_bound (i - shift) ps ltac:(lia)) as Hmb.
  rewrite andb_true_iff, !Z.leb_le. split.
  - intros [H1 H2]. exists ((i - shift) / ps + 1). assert (0 ≤ (i - shift) / ps) by (apply Z.div_pos; lia). nia.
  - intros (k & Hk & Hik). assert (shift ≤ i) by nia. split; [done|].
    rewrite <-(Z.mod_unique (i - shift) ps (k - 1) (i - shift - (k - 1) * ps)); [lia|left; lia|lia].
Qed.

Section Exact.
Context (w bs a : Z) (eagle : bool) (ri : option Z) (bounds : list Z) (start stop : Z).
Context (Hbs : 0 < bs) (Ha : 0 < a) (Hab : a mod bs = 0) (Hw : 1 < w).
Context (Hri : retention_ok a ri) (Hss : 0 ≤ start ≤ stop).
Notation need := (_contiguous_blocks_for_hit w bs eagle).
Notation shift := (if eagle then 1 else 0).

Lemma need_pos : 0 < need.
Proof.
  assert (¬ cdiv (w - 1) bs ≤ 0) by (rewrite <-cdiv_le by done; lia).
  unfold _contiguous_blocks_for_hit. destruct eagle; lia.
Qed.

(** The multiples of the segment size, in blocks. *)
Lemma segment_boundary t e : 0 < t → t mod bs = 0 →
  0 < e ∧ e mod t = 0 ↔ ∃ k, 0 < k ∧ e = k * t ∧ e / bs = k * (t / bs).
Proof.
  intros Ht [c ->]%Z.mod_divide; [|lia]. rewrite Z.div_mul by lia. split.
  - intros [He [k ->]%Z.mod_divide]; [|lia]. exists k. split; [nia|]. split; [lia|].
    by rewrite Z.mul_assoc, Z.div_mul by lia.
  - intros (k & Hk & -> & _). split; [nia|]. apply Z.mod_mul. lia.
Qed.

(** The mask keeps the tails of the boundaries, and nothing else. *)
Lemma window_mask_exact :
  ∃ mask, window_block_mask w bs start stop a eagle ri bounds = Ok mask ∧
    ∀ i, start ≤ i < stop →
      ((∃ e, hit_boundary a ri bounds e ∧ in_tail need shift bs e i) → retained mask start i = true) ∧
      (mask ≠ None → retained mask start i = true →
         ∃ e, hit_boundary a ri bounds e ∧ in_tail need shift bs e i).
Proof.
  pose proof need_pos as Hneed. unfold window_block_mask. rewrite Hab. cbn [Z.eqb negb].
  assert (Hseg : ∀ t i, 0 < t → t mod bs = 0 → need < t / bs → start ≤ i < stop →
    (∃ e, (0 < e ∧ e mod t = 0) ∧ in_tail need shift bs e i) ↔
    retained (Some ((λ i, (shift <=? i) && (t / bs - need <=? (i - shift) mod (t / bs)))
                      <$> zrange start stop)) start i = true).
  { intros t i Ht Htb Hlt Hi. cbn. rewrite list_lookup_fmap, zrange_lookup by lia. cbn.
    rewrite Z2Nat.id by lia. replace (start + (i - start)) with i by lia.
    rewrite segment_tails by (destruct eagle; lia). unfold in_tail. split.
    - intros (e & He & Hin). apply segment_boundary in He as (k & Hk & _ & Hq); [|done..].
      exists k. rewrite Hq in Hin. done.
    - intros (k & Hk & Hin). exists (k * t).
      assert (k * t / bs = k * (t / bs)) as Hq.
      { apply Z.mod_divide in Htb as [c ->]; [|lia]. rewrite Z.mul_assoc, !Z.div_mul by lia. lia. }
      rewrite Hq. split; [|done]. split; [nia|apply Z.mod_mul; lia]. }
  assert (Hzl : ∀ f : Z → bool, zlen (f <$> zrange start stop) = stop - start).
  { intros f. unfold zlen. rewrite length_fmap. fold (zlen (zrange start stop)). rewrite zrange_length. lia. }
  destruct ri as [r|].
  - destruct Hri as [Hr Hra]. destruct (Z.eqb_spec r 0) as [->|Hr0].
    + eexists. split; [done|]. intros i Hi.
      rewrite boundary_tails by (unfold zlen; rewrite ?length_replicate; lia). split.
      * intros (e & [[? _]|(b & Hb & ->)] & Hin); [done|]. left. eauto.
      * intros _ [(b & Hb & Hin)|Hf].
        -- exists (b / a * a). split; [|done]. right. eauto.
        -- cbn in Hf. destruct (_ !! _) eqn:E; [|done]. apply lookup_replicate in E as [-> _]. done.
    + assert (r mod bs = 0) as Hrb.
      { apply Z.mod_divide; [lia|]. apply (Z.divide_trans _ a); apply Z.mod_divide; done || lia. }
      destruct (r / bs <=? need) eqn:E.
      { exists None. split; [done|]. intros i Hi. by split. }
      eexists. split; [done|]. intros i Hi. rewrite boundary_tails by done. rewrite <-Hseg by (done || lia). split.
      * intros (e & [(_ & ? & ?)|(b & Hb & ->)] & Hin); [right|left]; eauto.
      * intros _ [(b & Hb & Hin)|(e & [He1 He2] & Hin)].
        -- exists (b / a * a). split; [|done]. right. eauto.
        -- exists e. split; [by left|done].
  - destruct (a / bs <=? need) eqn:E.
    { exists None. split; [done|]. intros i Hi. by split. }
    eexists. split; [done|]. intros i Hi. rewrite <-Hseg by (done || lia). by split.
Qed.
End Exact.

(** ** The properties *)

(** C22: without EAGLE, sparse retention loses no hit at a boundary. Take a
    reachable pool, a sliding window of more than one token, blocks that are whole
    hash blocks, an alignment that is a multiple of the block size and a retention
    interval, if any, that is a multiple of the alignment. Then the mask of a
    request's first [stop] blocks keeps exactly the tails that end at a hit boundary
    (every block, when the tails overlap), and a later request whose hashes reach
    its maximal length and that finds just the kept blocks before a boundary [e],
    within that length and the first [stop] blocks, gets a sliding-window hit of at
    least [e] tokens. With EAGLE the search can find less
    ([eagle_window_trims_twice]). *)
Theorem retained_blocks_serve_boundaries size caching p hs max_length groups bs a w ri bounds stop :
  pool_reachable size caching p → window_mode p hs max_length bs a → 0 ≤ max_length → 1 < w →
  group_ids_ok groups → groups ≠ [] → retention_ok a ri → 0 ≤ stop →
  ∃ mask, window_block_mask w bs 0 stop a false ri bounds = Ok mask ∧
    (∀ i, 0 ≤ i < stop → mask ≠ None → retained mask 0 i = true →
       ∃ e, hit_boundary a ri bounds e ∧ in_tail (_contiguous_blocks_for_hit w bs false) 0 bs e i) ∧
    (∀ e, hit_boundary a ri bounds e → 0 ≤ e ≤ max_length → e / bs ≤ stop →
       (∀ i, 0 ≤ i < e / bs → retained mask 0 i = true →
          is_Some (hash_upto hs (hash_block_size p) ((i + 1) * bs) ≫= cached p groups)) →
       ∃ computed n, find_longest_window p (Raw hs) max_length groups bs w false a = Ok (computed, n * bs) ∧
         e ≤ n * bs).
Proof.
  intros Hreach%reachable_cache Hmode Hmax Hw Hids Hne Hri Hstop.
  pose proof Hmode as (_ & Hbs & _ & Ha & Hab & _).
  destruct (window_mask_exact w bs a false ri bounds 0 stop) as (mask & Hmask & Hex); [done..|lia|].
  exists mask. split; [done|]. split; [intros i Hi; by apply Hex|].
  intros e He Hem Hes Hcov.
  destruct (window_hit_run p hs max_length groups bs a w false Hreach Hmode Hmax Hw Hids Hne)
    as (cols & n & Hrun & _ & _ & _ & _ & Hopt).
  exists cols, n. split; [done|]. assert (e mod a = 0) as Hea.
  { destruct ri as [r|]; [|apply He]. destruct He as [(Hr & _ & Her)|(b & _ & ->)]; [|apply Z.mod_mul; lia].
    apply Z.mod_divide; [lia|]. apply (Z.divide_trans _ r); apply Z.mod_divide; done || lia || apply Hri. }
  apply Hopt; [done..|]. intros i Hi Hwin. apply Hcov; [done|]. apply Hex; [lia|].
  exists e. split; [done|]. unfold in_tail, _contiguous_blocks_for_hit.
  assert (e = e / bs * bs) as Heq.
  { apply Z.mod_divide in Hab as [c ->]; [|lia]. apply Z.mod_divide in Hea as [q ->]; [|lia].
    by rewrite Z.mul_assoc, Z.div_mul by lia. }
  assert (¬ w - 1 ≤ (e / bs - i - 1) * bs) as Hn by lia. rewrite cdiv_le in Hn by done. lia.
Qed.

(** With segments of four one-token blocks and a window of two, blocks 3 and 7
    are kept, and block 5 for the prompt that ends there. *)
Example window_mask_example :
  window_block_mask 2 1 0 8 2 false (Some 4) [6] =
    Ok (Some [false; false; false; true; false; true; false; true]).
Proof. reflexivity. Qed.

Lemma retained_blocks_serve_boundaries_witness :
  window_block_mask 2 1 0 4 2 false (Some 2) [3] = Ok (Some [false; true; false; true]) ∧
  ∃ computed n,
    find_longest_window prefix_pool2 (Raw prefix_hashes) 4 [0] 1 2 false 2 = Ok (computed, n * 1) ∧ 2 ≤ n * 1.
Proof.
  split; [reflexivity|].
  destruct (retained_blocks_serve_boundaries 8 true prefix_pool2 prefix_hashes 4 [0] 1 2 2 (Some 2) [3] 4)
    as (mask & Hmask & _ & Hserve).
  - exact prefix_pool2_reachable.
  - by split_and!; vm_compute.
  - lia.
  - lia.
  - by repeat constructor.
  - done.
  - by split.
  - lia.
  - injection Hmask as <-. apply (Hserve 2); [by left|lia|by vm_compute|].
    intros i Hi Hr. change (0 ≤ i < 2) in Hi. assert (i = 0 ∨ i = 1) as [->| ->] by lia; [done|].
    vm_compute. by eexists.
Defined.
