(* ===== verification/KVCacheManager.v ===== *)
(** * The KV-cache manager of the scheduler

    Models the operations of [KVCacheCoordinator]
    (vllm/v1/core/kv_cache_coordinator.py) over its single-type managers, with the
    override of [cache_blocks] in [HybridKVCacheCoordinator], the
    prefix-cache lookup of [UnitaryKVCacheCoordinator], and [KVCacheManager]
    (vllm/v1/core/kv_cache_manager.py) with [allocate_slots], the call by which
    the scheduler admits tokens of a request.

    [KVCacheBlocks] is its tuple of block lists.  The pre-built empty value,
    which [allocate_slots] tells apart by identity, is [None] in
    [new_computed_blocks]. *)

From S2P Require Import Prelude PyData FreeQueue BlockHash BlockHasher BlockPool CacheAllocator Ownership PrefixCache SingleTypeManager.
From stdpp Require Import base gmap sets list strings.
From Stdlib Require Import ZArith Lia.
Open Scope Z_scope.

(** What [__init__] fixes. *)
Record kvconf := KVConf {
  max_model_len : Z;
  kv_enable_caching : bool;
  watermark_blocks : Z;
  retention_interval : option Z;
  num_reprefillable_tokens : Z;
  (** [0 in self.eagle_group_ids] *)
  eagle_group_0 : bool;
  (** for a [HybridKVCacheCoordinator]: [scheduler_block_size] and
      [enable_partial_hash_hits] *)
  kv_hybrid : option (Z * bool);
}.

(** The pool, shared by the managers, one per KV-cache group. *)
Record kv := KV {
  kv_pool : pool;
  single_type_managers : list manager;
}.

(** [for i, manager in enumerate(self.single_type_managers): ...] *)
Fixpoint for_managers {A} (f : nat → M st A) (i : nat) (p : pool) (ms : list manager)
    : result (list A) * (pool * list manager) :=
  match ms with
  | [] => (Ok [], (p, []))
  | m :: ms' =>
      match f i (p, m) with
      | (Ok a, (p1, m1)) =>
          match for_managers f (S i) p1 ms' with
          | (Ok xs, (p2, ms2)) => (Ok (a :: xs), (p2, m1 :: ms2))
          | (Raise e, (p2, ms2)) => (Raise e, (p2, m1 :: ms2))
          end
      | (Raise e, (p1, m1)) => (Raise e, (p1, m1 :: ms'))
      end
  end.

Definition each {A} (f : nat → M st A) : M kv (list A) := λ s,
  let '(r, (p, ms)) := for_managers f 0 (kv_pool s) (single_type_managers s) in (r, KV p ms).

Definition with_pool (p : pool) (s : kv) : kv := KV p (single_type_managers s).
Definition on_kv_pool {A} (m : M pool A) : M kv A := zoom kv_pool with_pool m.

(** ** KVCacheCoordinator *)

(** [new_computed_blocks[i]] *)
Definition hits_of (hits : list (list Z)) (i : nat) : result (list Z) := py_index hits (Z.of_nat i).

Fixpoint sum_to_allocate (p : pool) (i : nat) (ms : list manager) (rid : string) (num_tokens : Z)
    (hits : list (list Z)) (total_computed num_local : Z) (cap : bool) : result Z :=
  match ms with
  | [] => Ok 0
  | m :: ms' =>
      result_bind (hits_of hits i) (λ hit,
      result_bind (get_num_blocks_to_allocate (p, m) rid num_tokens hit total_computed num_local cap) (λ n,
      result_bind (sum_to_allocate p (S i) ms' rid num_tokens hits total_computed num_local cap) (λ k,
      Ok (n + k))))
  end.

Definition coord_num_to_allocate (s : kv) (rid : string) (num_tokens : Z) (hits : list (list Z))
    (total_computed num_local : Z) (cap : bool) : result Z :=
  sum_to_allocate (kv_pool s) 0 (single_type_managers s) rid num_tokens hits total_computed num_local cap.

Definition allocate_new_computed_blocks (rid : string) (hits : list (list Z))
    (num_local num_external : Z) : M kv unit :=
  let! running := gets (λ s, existsb (λ m, bool_decide (is_Some (num_cached_block m !! rid)))
                                (single_type_managers s)) in
  if (running : bool) then ensure (forallb (λ h : list Z, zlen h =? 0) hits) AssertionError
  else
    each (λ i, let! hit := lift (hits_of hits i) in
               add_local_computed_blocks rid hit num_local num_external) >>
    when 0 <? num_external do
      (each (λ _, allocate_external_computed_blocks rid num_local num_external) >> ret tt).

Definition coord_allocate_new_blocks (rid : string) (num_tokens : Z) : M kv (list (list Z)) :=
  each (λ _, allocate_new_blocks rid num_tokens).

(** [HybridKVCacheCoordinator._align_cacheable] *)
Definition _align_cacheable (scheduler_block_size : Z) (enable_partial_hash_hits : bool) (num_tokens : Z) : Z :=
  if enable_partial_hash_hits then num_tokens else num_tokens / scheduler_block_size * scheduler_block_size.

(** [num_tokens_to_cache] of a manager: in [KVCacheCoordinator.cache_blocks], and in
    the override of the hybrid coordinator, where an EAGLE group caches one block
    past the aligned boundary. *)
Definition num_tokens_to_cache (c : kvconf) (m : mconf) (num_computed : Z) : Z :=
  let num_finalized := Z.max 0 (num_computed - num_reprefillable_tokens c) in
  match kv_hybrid c with
  | None => num_finalized
  | Some (sbs, partial_hits) =>
      let cached_num_computed_tokens := _align_cacheable sbs partial_hits num_computed in
      if use_eagle m && (0 <? cached_num_computed_tokens)
      then Z.min num_finalized (_align_cacheable sbs partial_hits num_finalized + block_size m)
      else cached_num_computed_tokens
  end.

(** [cache_blocks] of both coordinators. *)
Definition coord_cache_blocks (c : kvconf) (r : SRequest) (num_computed : Z) : M kv unit :=
  each (λ _, let! m := gets (λ s : st, conf s.2) in
             cache_blocks r (num_tokens_to_cache c m num_computed) (retention_interval c)) >>
  ret tt.

Definition coord_free (rid : string) : M kv unit := each (λ _, free rid) >> ret tt.

Definition coord_pop_blocks_for_free (rid : string) : M kv (list Z) :=
  let! bs := each (λ _, pop_blocks_for_free rid) in ret (mjoin bs).

Definition coord_remove_skipped_blocks (rid : string) (processed : Z) (prompt : option Z) : M kv unit :=
  each (λ _, remove_skipped_blocks rid processed prompt) >> ret tt.

Definition coord_num_common_prefix_blocks (rid : string) : M kv (list Z) :=
  each (λ _, get_num_common_prefix_blocks rid).

Definition get_blocks (s : kv) (rid : string) : list (list Z) :=
  (λ m, default [] (req_to_blocks m !! rid)) <$> single_type_managers s.

(** [UnitaryKVCacheCoordinator.find_longest_cache_hit] *)
Definition unitary_find_longest_cache_hit (c : kvconf) (s : kv) (hs : list bytes) (max_length : Z)
    : result (list (list Z) * Z) :=
  match single_type_managers s with
  | [] => Raise IndexError
  | m :: _ =>
      let b := block_size (conf m) in
      match kind (conf m) with
      | FullAttention | RSWA _ =>
          find_longest_full (kv_pool s) (Raw hs) max_length [0] b (eagle_group_0 c) b
      | SlidingWindow w _ =>
          find_longest_window (kv_pool s) (Raw hs) max_length [0] b w (eagle_group_0 c) b
      | ChunkedLocal ch =>
          find_longest_chunked (kv_pool s) (Raw hs) max_length [0] b ch (eagle_group_0 c) b
      end
  end.

(** ** KVCacheManager *)

(** [get_computed_blocks], for one KV-cache group. *)
Definition get_computed_blocks (c : kvconf) (s : kv) (r : Request) (skip_reading : bool)
    : result (option (list (list Z)) * Z) :=
  if negb (kv_enable_caching c && negb skip_reading) then Ok (None, 0)
  else
    result_bind (unitary_find_longest_cache_hit c s (block_hashes r) (num_tokens r - 1)) (λ h,
    Ok (if existsb (λ l : list Z, negb (bool_decide (l = []))) h.1 then Some h.1 else None, h.2)).

Definition allocate_slots (c : kvconf) (r : SRequest) (num_new_tokens num_new_computed : Z)
    (new_computed_blocks : option (list (list Z))) (num_lookahead num_external : Z)
    (delay_cache_blocks full_sequence_must_fit : bool) (reserved_blocks : Z) (has_scheduled_reqs : bool)
    : M kv (option (list (list Z))) :=
  let rid := req_id (request r) in
  ensure (negb ((num_new_tokens =? 0) && (num_external =? 0))) ValueError >>
  let! groups := gets (λ s, length (single_type_managers s)) in
  let hits := default (replicate groups []) new_computed_blocks in
  let num_local := num_computed_tokens r + num_new_computed in
  let total_computed := Z.min (num_local + num_external) (max_model_len c) in
  let watermark := if has_scheduled_reqs && waiting_or_preempted r then watermark_blocks c else 0 in
  let! fits := (if full_sequence_must_fit then
                  let full := Z.min (num_tokens (request r)) (max_model_len c) in
                  let! s := gets (λ s : kv, s) in
                  let! n := lift (coord_num_to_allocate s rid full hits total_computed num_local true) in
                  ret (n + watermark <=? get_num_free_blocks (kv_pool s))
                else ret true) in
  if negb fits then ret None
  else
    let main_model := total_computed + num_new_tokens in
    let need_slot := Z.min (main_model + num_lookahead) (max_model_len c) in
    coord_remove_skipped_blocks rid (Z.max 0 (total_computed - num_in_flight_tokens r))
      (Some (num_prompt_tokens (request r))) >>
    let! s := gets (λ s : kv, s) in
    let! n := lift (coord_num_to_allocate s rid need_slot hits (num_local + num_external) num_local false) in
    if negb (n + watermark <=? get_num_free_blocks (kv_pool s) - reserved_blocks) then ret None
    else
      (when bool_decide (new_computed_blocks ≠ None) || (0 <? num_external) do
         allocate_new_computed_blocks rid hits num_local num_external) >>
      let! new_blocks := coord_allocate_new_blocks rid need_slot in
      if negb (kv_enable_caching c) || delay_cache_blocks then ret (Some new_blocks)
      else
        coord_cache_blocks c r (Z.min (total_computed + num_new_tokens) (num_tokens (request r))) >>
        ret (Some new_blocks).

(** [take_new_block_ids] *)
Definition kv_take_new_block_ids : M kv (list Z) :=
  let! ids := each (λ _, take_new_block_ids) in ret (mjoin ids).

(** [take_kv_cache_block_copies]: the copies, and the endpoints whose references
    the caller now holds. *)
Definition take_kv_cache_block_copies : M kv (list (Z * Z) * list Z) :=
  let! ps := each (λ _, take_pending_cow_copies) in
  let copies := mjoin ps in
  ret (copies, mjoin ((λ x : Z * Z, [x.1; x.2]) <$> copies)).

(** ** Accounts over all groups *)
Fixpoint msum (ms : list manager) (b : Z) : Z :=
  match ms with [] => 0 | m :: ms' => mrefs m b + msum ms' b end.

Lemma msum_nonneg ms b : 0 ≤ msum ms b.
Proof. induction ms as [|m ms IH]; cbn; [lia|]. pose proof (mrefs_nonneg m b). lia. Qed.

Record kv_acct (ext : Z → Z) (s : kv) (l : list Z) : Prop := {
  ka_counted : counted (λ b, ext b + msum (single_type_managers s) b) (kv_pool s) l;
  ka_partial : Forall partial_ok (single_type_managers s);
}.

(** A loop over the managers whose body, given [need] free blocks, returns and
    keeps the accounts. *)
Section Loop.
Context {A : Type} (f : nat → M st A) (N : Z) (R : list Z → Prop).
Context (Pre : nat → manager → Prop) (Post : nat → manager → A → manager → Prop) (need : nat → manager → Z).
Context (Hneed : ∀ i m, 0 ≤ need i m).
Context (Hspec : ∀ i ext p m l,
  (∀ b, 0 ≤ ext b) → acct ext (p, m) l → num_gpu_blocks p = N → Pre i m → R l → need i m ≤ zlen l →
  ∃ a p' m' l', f i (p, m) = (Ok a, (p', m')) ∧ acct ext (p', m') l' ∧ num_gpu_blocks p' = N ∧ R l' ∧
    zlen l - need i m ≤ zlen l' ∧ Post i m a m').

Fixpoint need_sum (i : nat) (ms : list manager) : Z :=
  match ms with [] => 0 | m :: ms' => need i m + need_sum (S i) ms' end.

Lemma need_sum_nonneg i ms : 0 ≤ need_sum i ms.
Proof. revert i. induction ms as [|m ms IH]; intros i; cbn; [lia|]. specialize (IH (S i)). specialize (Hneed i m). lia. Qed.

Lemma for_managers_run ms i ext p l :
  (∀ b, 0 ≤ ext b) → counted (λ b, ext b + msum ms b) p l → Forall partial_ok ms →
  num_gpu_blocks p = N → R l → (∀ k m, ms !! k = Some m → Pre (i + k) m) → need_sum i ms ≤ zlen l →
  ∃ xs p' ms' l', for_managers f i p ms = (Ok xs, (p', ms')) ∧
    counted (λ b, ext b + msum ms' b) p' l' ∧ Forall partial_ok ms' ∧ num_gpu_blocks p' = N ∧ R l' ∧
    zlen l - need_sum i ms ≤ zlen l' ∧ length xs = length ms ∧ length ms' = length ms ∧
    ∀ k m, ms !! k = Some m →
      ∃ a m', xs !! k = Some a ∧ ms' !! k = Some m' ∧ Post (i + k) m a m'.
Proof.
  revert i ext p l. induction ms as [|m ms IH]; intros i ext p l Hext Hc Hpo HN HR Hpre Hn.
  { exists [], p, [], l. cbn in *. split_and!; try done. lia. }
  cbn [need_sum] in *. inversion_clear Hpo as [|? ? Hm Hms].
  pose proof (need_sum_nonneg (S i) ms) as Hns.
  destruct (Hspec i (λ b, ext b + msum ms b) p m l) as (a & p1 & m1 & l1 & Hrun & Ha1 & HN1 & HR1 & Hl1 & Hpost).
  { intros b. pose proof (Hext b). pose proof (msum_nonneg ms b). lia. }
  { split; [|done]. eapply counted_ext; [|exact Hc]. intros b. cbn. lia. }
  { done. } { specialize (Hpre 0%nat m eq_refl). by rewrite Nat.add_0_r in Hpre. } { done. } { lia. }
  destruct (IH (S i) (λ b, ext b + mrefs m1 b) p1 l1) as
    (xs & p2 & ms2 & l2 & Hrun2 & Hc2 & Hpo2 & HN2 & HR2 & Hl2 & Hlx & Hlm & Hall).
  { intros b. pose proof (Hext b). pose proof (mrefs_nonneg m1 b). lia. }
  { eapply counted_ext; [|exact (ac_counted _ _ _ Ha1)]. intros b. cbn. lia. }
  { done. } { done. } { done. }
  { intros k m' Hk. specialize (Hpre (S k) m' Hk). by rewrite Nat.add_succ_r in Hpre. } { lia. }
  exists (a :: xs), p2, (m1 :: ms2), l2. cbn [for_managers]. rewrite Hrun, Hrun2. split; [done|]. split.
  { eapply counted_ext; [|exact Hc2]. intros b. cbn. lia. }
  split; [constructor; [apply Ha1|done]|]. do 2 (split; [done|]). split; [lia|].
  split; [cbn; lia|]. split; [cbn; lia|]. intros [|k] m' Hk; cbn in Hk.
  - injection Hk as <-. exists a, m1. rewrite Nat.add_0_r. done.
  - rewrite Nat.add_succ_r. by apply Hall.
Qed.

Lemma each_run ext s l :
  (∀ b, 0 ≤ ext b) → kv_acct ext s l → num_gpu_blocks (kv_pool s) = N → R l →
  (∀ k m, single_type_managers s !! k = Some m → Pre k m) →
  need_sum 0 (single_type_managers s) ≤ zlen l →
  ∃ xs s' l', each f s = (Ok xs, s') ∧ kv_acct ext s' l' ∧ num_gpu_blocks (kv_pool s') = N ∧ R l' ∧
    zlen l - need_sum 0 (single_type_managers s) ≤ zlen l' ∧
    length xs = length (single_type_managers s) ∧
    length (single_type_managers s') = length (single_type_managers s) ∧
    ∀ k m, single_type_managers s !! k = Some m →
      ∃ a m', xs !! k = Some a ∧ single_type_managers s' !! k = Some m' ∧ Post k m a m'.
Proof.
  intros Hext [Hc Hp] HN HR Hpre Hn.
  destruct (for_managers_run (single_type_managers s) 0 ext (kv_pool s) l Hext Hc Hp HN HR Hpre Hn)
    as (xs & p' & ms' & l' & Hrun & Hc' & Hp' & HN' & HR' & Hl' & Hlx & Hlm & Hall).
  exists xs, (KV p' ms'), l'. unfold each. rewrite Hrun. by split_and!.
Qed.
End Loop.

(** A loop whose body keeps the accounts whatever its outcome. *)
Section AnyLoop.
Context {A : Type} (f : nat → M st A) (Post : manager → manager → Prop) `{!Reflexive Post}.
Context (Hspec : ∀ i ext s l, (∀ b, 0 ≤ ext b) → acct ext s l →
  let Q := λ s', acct ext s' l ∧ Post s.2 s'.2 ∧ num_gpu_blocks s'.1 = num_gpu_blocks s.1 in
  wp (f i) (λ _, Q) (λ _, Q) s).

Lemma for_managers_any ms i ext p l :
  (∀ b, 0 ≤ ext b) → counted (λ b, ext b + msum ms b) p l → Forall partial_ok ms →
  ∃ r p' ms', for_managers f i p ms = (r, (p', ms')) ∧ counted (λ b, ext b + msum ms' b) p' l ∧
    Forall partial_ok ms' ∧ num_gpu_blocks p' = num_gpu_blocks p ∧ Forall2 Post ms ms'.
Proof.
  revert i ext p. induction ms as [|m ms IH]; intros i ext p Hext Hc Hpo.
  { by exists (Ok []), p, []. }
  inversion_clear Hpo as [|? ? Hm Hms].
  pose proof (Hspec i (λ b, ext b + msum ms b) (p, m) l) as Hf. cbv zeta in Hf. unfold wp in Hf.
  cbn [for_managers]. destruct (f i (p, m)) as [r [p1 m1]].
  assert (acct (λ b, ext b + msum ms b) (p1, m1) l ∧ Post m m1 ∧ num_gpu_blocks p1 = num_gpu_blocks p)
    as (Ha1 & Hp1 & HN1).
  { cbn [fst snd] in Hf. destruct r; apply Hf.
    1, 3: intros b; pose proof (Hext b); pose proof (msum_nonneg ms b); lia.
    all: split; [|done]; eapply counted_ext; [|exact Hc]; intros b; cbn; lia. }
  clear Hf. destruct r as [a|e].
  - destruct (IH (S i) (λ b, ext b + mrefs m1 b) p1) as (r2 & p2 & ms2 & Hrun2 & Hc2 & Hpo2 & HN2 & HF).
    { intros b. pose proof (Hext b). pose proof (mrefs_nonneg m1 b). lia. }
    { eapply counted_ext; [|exact (ac_counted _ _ _ Ha1)]. intros b. cbn. lia. } { done. }
    rewrite Hrun2. exists (match r2 with Ok xs => Ok (a :: xs) | Raise e => Raise e end), p2, (m1 :: ms2).
    split; [by destruct r2|]. split; [eapply counted_ext; [|exact Hc2]; intros b; cbn; lia|].
    split; [constructor; [apply Ha1|done]|]. split; [congruence|by constructor].
  - exists (Raise e), p1, (m1 :: ms). split; [done|].
    split; [eapply counted_ext; [|exact (ac_counted _ _ _ Ha1)]; intros b; cbn; lia|].
    split; [constructor; [apply Ha1|done]|]. split; [done|]. constructor; [done|].
    reflexivity.
Qed.

Lemma each_any ext s l :
  (∀ b, 0 ≤ ext b) → kv_acct ext s l →
  ∃ r s', each f s = (r, s') ∧ kv_acct ext s' l ∧ num_gpu_blocks (kv_pool s') = num_gpu_blocks (kv_pool s) ∧
    Forall2 Post (single_type_managers s) (single_type_managers s').
Proof.
  intros Hext [Hc Hp].
  destruct (for_managers_any (single_type_managers s) 0 ext (kv_pool s) l Hext Hc Hp)
    as (r & p' & ms' & Hrun & Hc' & Hp' & HN & HF).
  exists r, (KV p' ms'). unfold each. rewrite Hrun. by split_and!.
Qed.
End AnyLoop.
