(* ===== verification/KVCacheManagerSpec.v ===== *)
(** * What the KV-cache manager guarantees

    [allocate_slots] is all-or-nothing: the block count computed up front is
    exactly what the allocation takes, so once the gate is passed nothing can
    fail half-way.  And references are never lost: in every state the scheduler
    can reach, the reference count of a page is the number of table entries,
    pending copies and handed-out blocks that name it. *)

From S2P Require Import Prelude PyData FreeQueue BlockHash BlockHasher BlockPool CacheAllocator Ownership PrefixCache SingleTypeManager KVCacheManager.
From stdpp Require Import base gmap sets list strings.
From Stdlib Require Import ZArith Lia.
Open Scope Z_scope.

(** ** The phases of an allocation, manager by manager *)

(** A request this manager knows nothing of. *)
Definition fresh_in (rid : string) (m : manager) : Prop :=
  tbl m rid = [] ∧ num_cached_block m !! rid = None ∧ _partial_hit_reqs m !! rid = None.

(** A request that goes on: tracked, or with a table beyond the skipped part. *)
Definition continues_in (rid : string) (total_computed : Z) (m : manager) : Prop :=
  _partial_hit_reqs m !! rid = None ∧
  (is_Some (num_cached_block m !! rid) ∨ num_skipped (conf m) total_computed ≤ zlen (tbl m rid)).

(** A prefix-cache hit [allocate_slots] can take. *)
Definition hit_ok (N num_local num_external : Z) (m : manager) (hit : list Z) : Prop :=
  (∀ b, b ∈ hit → 0 ≤ b < N) ∧ (m_enable_caching (conf m) = false → hit = []) ∧
  hit_shape_ok (conf m) hit num_local num_external.

Section Phases.
Context (rid : string) (N num_local num_external : Z) (hits : list (list Z)) (l0 : list Z).
Notation total := (num_local + num_external).

Definition hit_at (i : nat) : list Z := default [] (hits !! i).
Definition kept_at (i : nat) (m : manager) : list Z := kept_hit (conf m) (hit_at i) total.

(** The blocks of the hit that leave the free list. *)
Definition touch_need (i : nat) (m : manager) : Z := zlen (filter (λ b, b ∈ l0) (kept_at i m)).

Lemma filter_length_le (l kept : list Z) :
  NoDup l → (∀ b, b ∈ l → b ∈ l0) →
  zlen l - zlen (filter (λ b, b ∈ l0) kept) ≤ zlen (filter (λ x, x ∉ kept) l).
Proof.
  intros Hnd Hl. unfold zlen.
  assert (length (filter (λ x, x ∈ kept) l) ≤ length (filter (λ b, b ∈ l0) kept))%nat as Hle.
  { apply submseteq_length, NoDup_submseteq; [by apply NoDup_filter|].
    intros x [Hx1 Hx2]%list_elem_of_filter. apply list_elem_of_filter. auto. }
  assert (length l = length (filter (λ x, x ∈ kept) l) + length (filter (λ x, x ∉ kept) l))%nat as Hsum.
  { clear. induction l as [|x l IH]; [done|]. rewrite !filter_cons.
    destruct (decide (x ∈ kept)); [rewrite decide_False by auto|rewrite decide_True by auto]; cbn; lia. }
  lia.
Qed.

Definition touch_pre (i : nat) (m : manager) : Prop :=
  fresh_in rid m ∧ hits !! i = Some (hit_at i) ∧ hit_ok N num_local num_external m (hit_at i).
Definition touch_post (i : nat) (m : manager) (_ : unit) (m' : manager) : Prop :=
  only_request rid m m' ∧
  zlen (tbl m' rid) = Z.max (num_skipped (conf m) total) (zlen (hit_at i)) ∧
  cow_need m' rid = (if _has_partial_local_hit (conf m) (kept_at i m) num_local then 1 else 0).

Lemma touch_phase i ext p m l :
  (∀ b, 0 ≤ ext b) → acct ext (p, m) l → num_gpu_blocks p = N → touch_pre i m →
  (∀ b, b ∈ l → b ∈ l0) → touch_need i m ≤ zlen l →
  ∃ a p' m' l',
    (let! hit := lift (hits_of hits i) in add_local_computed_blocks rid hit num_local num_external) (p, m)
      = (Ok a, (p', m')) ∧
    acct ext (p', m') l' ∧ num_gpu_blocks p' = N ∧ (∀ b, b ∈ l' → b ∈ l0) ∧
    zlen l - touch_need i m ≤ zlen l' ∧ touch_post i m a m'.
Proof.
  intros Hext Ha HN ((Ht & Hc & Hp) & Hhit & Hv & Hcache & Hshape) HR _.
  assert (∀ b, b ∈ kept_at i m → b ∈ hit_at i) as Hkept.
  { intros b Hb. eapply elem_of_sublist; [exact Hb|apply sublist_drop]. }
  destruct (add_local_run ext Hext rid (p, m) (hit_at i) num_local num_external l Ha Ht Hp)
    as ([p' m'] & Hrun & [Hacct Hon Htbl _ Hpart Hnum]).
  { intros b Hb%Hkept. cbn. rewrite HN. auto. }
  { intros Hno. cbn in Hno |- *. rewrite (Hcache Hno). apply drop_nil. }
  { exact Hshape. }
  cbn [fst snd] in *. exists tt, p', m'. eexists. split.
  { unfold hits_of. rewrite (proj2 (py_index_Ok hits (Z.of_nat i) (hit_at i) ltac:(lia)));
      [exact Hrun|by rewrite Nat2Z.id]. }
  split; [exact Hacct|]. split; [congruence|]. split; [intros b [_ Hb]%list_elem_of_filter; auto|].
  split; [|split; [done|split]].
  - apply filter_length_le; [|done].
    apply (ro_nodup _ _ _ (counted_refs_ok _ _ _ (ac_counted _ _ _ Ha))).
  - rewrite Htbl, zlen_app. unfold zlen, kept_hit. rewrite length_replicate, length_drop. lia.
  - unfold cow_need, kept_at. rewrite Hpart. by destruct (_has_partial_local_hit _ _ _).
Qed.

Definition external_post (i : nat) (m : manager) (_ : unit) (m' : manager) : Prop :=
  only_request rid m m' ∧ cow_need m' rid = cow_need m rid ∧
  zlen (tbl m' rid) = zlen (tbl m rid) + ext_need m rid num_local num_external.

Lemma external_phase (i : nat) ext p m l :
  (∀ b, 0 ≤ ext b) → acct ext (p, m) l → num_gpu_blocks p = N → True →
  True → ext_need m rid num_local num_external ≤ zlen l →
  ∃ a p' m' l',
    allocate_external_computed_blocks rid num_local num_external (p, m) = (Ok a, (p', m')) ∧
    acct ext (p', m') l' ∧ num_gpu_blocks p' = N ∧ True ∧
    zlen l - ext_need m rid num_local num_external ≤ zlen l' ∧ external_post i m a m'.
Proof.
  intros Hext Ha HN _ _ Hn.
  destruct (allocate_external_run ext rid (p, m) num_local num_external l Ha Hn)
    as (xs & [p' m'] & l' & Hrun & -> & Hxs & [Hacct Hon Htbl _ Hpart Hnum]). cbn [fst snd] in *.
  exists tt, p', m', l'. split; [done|]. split; [done|]. split; [congruence|]. split; [done|].
  rewrite zlen_app. split; [lia|]. split; [done|]. unfold cow_need. rewrite Hpart, Htbl, zlen_app. lia.
Qed.

Definition new_post (num_tokens : Z) (i : nat) (m : manager) (_ : list Z) (m' : manager) : Prop :=
  only_request rid m m' ∧ cdiv num_tokens (block_size (conf m)) ≤ zlen (tbl m' rid) ∧
  _partial_hit_reqs m' !! rid = None.

Lemma new_phase (i : nat) num_tokens ext p m l :
  (∀ b, 0 ≤ ext b) → acct ext (p, m) l → num_gpu_blocks p = N → True →
  True → new_need m rid num_tokens ≤ zlen l →
  ∃ a p' m' l', allocate_new_blocks rid num_tokens (p, m) = (Ok a, (p', m')) ∧
    acct ext (p', m') l' ∧ num_gpu_blocks p' = N ∧ True ∧
    zlen l - new_need m rid num_tokens ≤ zlen l' ∧ new_post num_tokens i m a m'.
Proof.
  intros Hext Ha HN _ _ Hn.
  destruct (allocate_new_run ext Hext rid (p, m) num_tokens l Ha Hn)
    as (new & t & [p' m'] & l' & Hrun & -> & Hxs & Ht & [Hacct Hon Htbl _ Hpart Hnum]). cbn [fst snd] in *.
  exists new, p', m', l'. split; [done|]. split; [done|]. split; [congruence|]. split; [done|].
  rewrite zlen_app. split; [lia|]. split; [done|]. split; [rewrite Htbl; lia|done].
Qed.

Definition skip_pre (prompt : Z) (i : nat) (m : manager) : Prop :=
  _partial_hit_reqs m !! rid = None ∧ 0 < block_size (conf m) ∧ 0 ≤ prompt.
Definition skip_post (processed prompt : Z) (i : nat) (m : manager) (_ : unit) (m' : manager) : Prop :=
  only_request rid m m' ∧ num_cached_block m' !! rid = num_cached_block m !! rid ∧
  _partial_hit_reqs m' !! rid = None ∧
  ∃ freed, let r := skip_range (conf m) processed (Some prompt) in
           nulled r.1 r.2 (tbl m rid) (tbl m' rid) freed.

Lemma skip_phase (i : nat) processed prompt ext p m l :
  (∀ b, 0 ≤ ext b) → acct ext (p, m) l → num_gpu_blocks p = N →
  skip_pre prompt i m → True → 0 ≤ zlen l →
  ∃ a p' m' l', remove_skipped_blocks rid processed (Some prompt) (p, m) = (Ok a, (p', m')) ∧
    acct ext (p', m') l' ∧ num_gpu_blocks p' = N ∧ True ∧ zlen l - 0 ≤ zlen l' ∧
    skip_post processed prompt i m a m'.
Proof.
  intros Hext Ha HN (Hp & Hbs & Hpr) _ _.
  destruct (remove_skipped_run ext Hext rid (p, m) processed (Some prompt) l Ha Hp Hbs)
    as (t' & freed & [p' m'] & fs & ls & Hrun & [Hacct Hon Htbl Hc Hpart Hnum] & Hn); [by intros n [= <-]|].
  cbn [fst snd] in *. exists tt, p', m'. eexists. split; [done|]. split; [exact Hacct|].
  split; [congruence|]. split; [done|]. split.
  { rewrite !zlen_app. pose proof (zlen_nonneg fs). pose proof (zlen_nonneg ls). lia. }
  split; [done|]. split; [done|]. split; [done|]. exists freed. by rewrite Htbl.
Qed.
End Phases.

(** ** The gate *)
Section Gate.
Context (rid : string) (hits : list (list Z)) (p : pool) (num_tokens total num_local : Z) (cap : bool).

(** The number [get_num_blocks_to_allocate] returns. *)
Definition gate (i : nat) (m : manager) : Z :=
  let c := conf m in
  let required := match _max_admission_blocks_per_request c with
                  | Some k => if cap then Z.min (cdiv num_tokens (block_size c)) k
                              else cdiv num_tokens (block_size c)
                  | None => cdiv num_tokens (block_size c)
                  end in
  match num_cached_block m !! rid with
  | Some _ => Z.max (required - zlen (tbl m rid)) 0
  | None =>
      Z.max (required - Z.max (num_skipped c total) (zlen (hit_at hits i) + zlen (tbl m rid))) 0
      + (if _has_partial_local_hit c (hit_at hits i) num_local then 1 else 0)
      + _get_num_evictable_blocks p
          (drop (Z.to_nat (Z.max 0 (num_skipped c total - zlen (tbl m rid)))) (hit_at hits i))
  end.

Lemma gate_run i m :
  (is_Some (num_cached_block m !! rid) → hit_at hits i = []) →
  get_num_blocks_to_allocate (p, m) rid num_tokens (hit_at hits i) total num_local cap = Ok (gate i m).
Proof.
  intros Hh. unfold get_num_blocks_to_allocate, gate, num_skipped. cbn [fst snd].
  fold (tbl m rid). destruct (num_cached_block m !! rid) as [n|] eqn:E.
  - rewrite bool_decide_eq_true_2 by (by eexists). rewrite (Hh ltac:(by eexists)). done.
  - rewrite bool_decide_eq_false_2 by (by intros []). f_equal.
    destruct (_has_partial_local_hit _ _ _); lia.
Qed.

Lemma sum_to_allocate_run ms i :
  (∀ k m, ms !! k = Some m → hits !! (i + k)%nat = Some (hit_at hits (i + k)) ∧
     (is_Some (num_cached_block m !! rid) → hit_at hits (i + k) = [])) →
  sum_to_allocate p i ms rid num_tokens hits total num_local cap = Ok (need_sum gate i ms).
Proof.
  revert i. induction ms as [|m ms IH]; intros i H; [done|]. cbn [sum_to_allocate need_sum].
  destruct (H 0%nat m eq_refl) as [Hh Ht]. rewrite Nat.add_0_r in Hh, Ht.
  unfold hits_of. rewrite (proj2 (py_index_Ok hits (Z.of_nat i) (hit_at hits i) ltac:(lia)))
    by (by rewrite Nat2Z.id).
  cbn [result_bind]. rewrite gate_run by done. cbn [result_bind]. rewrite IH; [done|].
  intros k m' Hk. specialize (H (S k) m' Hk). by rewrite Nat.add_succ_r in H.
Qed.
End Gate.

(** Comparing sums manager by manager. *)
Lemma need_sum_le (A B C G : nat → manager → Z) ms ms1 ms2 i :
  length ms1 = length ms → length ms2 = length ms →
  (∀ k m m1 m2, ms !! k = Some m → ms1 !! k = Some m1 → ms2 !! k = Some m2 →
     A (i + k)%nat m + B (i + k)%nat m1 + C (i + k)%nat m2 ≤ G (i + k)%nat m) →
  need_sum A i ms + need_sum B i ms1 + need_sum C i ms2 ≤ need_sum G i ms.
Proof.
  revert i ms1 ms2. induction ms as [|m ms IH]; intros i [|m1 ms1] [|m2 ms2] H1 H2 H; try done.
  cbn [need_sum]. pose proof (H 0%nat m m1 m2 eq_refl eq_refl eq_refl) as H0. rewrite Nat.add_0_r in H0.
  assert (need_sum A (S i) ms + need_sum B (S i) ms1 + need_sum C (S i) ms2 ≤ need_sum G (S i) ms); [|lia].
  apply IH; [by injection H1|by injection H2|]. intros k n n1 n2 E0 E1 E2.
  specialize (H (S k) n n1 n2 E0 E1 E2). by rewrite Nat.add_succ_r in H.
Qed.

Lemma need_sum_zero (A : nat → manager → Z) ms i : (∀ i m, A i m = 0) → need_sum A i ms = 0.
Proof. intros HA. revert i. induction ms as [|m ms IH]; intros i; cbn; [done|]. rewrite HA, IH. lia. Qed.

Lemma has_partial_kept c hit n num_local :
  _has_partial_local_hit c (kept_hit c hit n) num_local = true → _has_partial_local_hit c hit num_local = true.
Proof.
  unfold _has_partial_local_hit, kept_hit, zlen. rewrite length_drop.
  intros [H1%Z.ltb_lt H2]%andb_prop. rewrite H2. apply andb_true_intro. split; [|done]. apply Z.ltb_lt. lia.
Qed.

Lemma cdiv_mono x y b : 0 < b → x ≤ y → cdiv x b ≤ cdiv y b.
Proof. intros Hb Hxy. apply cdiv_le; [done|]. assert (y ≤ cdiv y b * b) by (by apply cdiv_le). lia. Qed.

(** ** First allocation of a request *)
Section First.
Context (ext : Z → Z) (Hext : ∀ b, 0 ≤ ext b).
Context (rid : string) (num_local num_external num_tokens : Z) (hits : list (list Z)).
Notation total := (num_local + num_external).

Lemma evictable_free p l kept :
  (∃ cnt, counted cnt p l) → (∀ b, b ∈ kept → 0 ≤ b < num_gpu_blocks p) →
  _get_num_evictable_blocks p kept = zlen (filter (λ b, b ∈ l) kept).
Proof.
  intros [cnt Hc] Hv. unfold _get_num_evictable_blocks. f_equal. apply filter_iff_in. intros b Hb.
  rewrite (ro_free _ _ _ (counted_refs_ok _ _ _ Hc)).
  destruct (proj2 (ro_dom _ _ _ (counted_refs_ok _ _ _ Hc) b) (Hv b Hb)) as [[r nul] Hr].
  destruct (blk_refs _ _ _ _ Hr) as [-> ->]. rewrite Hr. naive_solver.
Qed.

(** For a fresh request the gate splits into the parts of the allocation. *)
Lemma gate_fresh p l i m :
  (∃ cnt, counted cnt p l) → fresh_in rid m →
  hit_ok (num_gpu_blocks p) num_local num_external m (hit_at hits i) →
  gate rid hits p num_tokens total num_local false i m =
    Z.max 0 (cdiv num_tokens (block_size (conf m))
             - Z.max (num_skipped (conf m) total) (zlen (hit_at hits i)))
    + (if _has_partial_local_hit (conf m) (hit_at hits i) num_local then 1 else 0)
    + touch_need num_local num_external hits l i m.
Proof.
  intros Hc (Ht & Hn & _) (Hv & _). unfold gate. rewrite Hn, Ht.
  assert (match _max_admission_blocks_per_request (conf m) with
          | Some k => if false then Z.min (cdiv num_tokens (block_size (conf m))) k
                      else cdiv num_tokens (block_size (conf m))
          | None => cdiv num_tokens (block_size (conf m)) end = cdiv num_tokens (block_size (conf m))) as ->
    by (by destruct (_max_admission_blocks_per_request _)).
  change (zlen (@nil Z)) with 0. rewrite Z.add_0_r, Z.sub_0_r.
  replace (Z.to_nat (Z.max 0 (num_skipped (conf m) total))) with (Z.to_nat (num_skipped (conf m) total)) by lia.
  fold (kept_hit (conf m) (hit_at hits i) total). fold (kept_at num_local num_external hits i m).
  rewrite (evictable_free p l); [unfold touch_need; lia|done|].
  intros b Hb. apply Hv. eapply elem_of_sublist; [exact Hb|apply sublist_drop].
Qed.

(** External blocks and copies stay within their parts of the gate. *)
Lemma external_within i m m1 :
  0 < block_size (conf m) → total ≤ num_tokens → touch_post rid num_local num_external hits i m tt m1 →
  0 ≤ ext_need m1 rid num_local num_external
    ≤ Z.max 0 (cdiv num_tokens (block_size (conf m)) - zlen (tbl m1 rid)).
Proof.
  intros Hbs Htot (Ho1 & _ & _). unfold ext_need. rewrite (or_conf _ _ _ Ho1).
  pose proof (cdiv_mono total num_tokens _ Hbs Htot). destruct (_ <=? 0); lia.
Qed.
Lemma cow_within i m m1 :
  touch_post rid num_local num_external hits i m tt m1 →
  0 ≤ cow_need m1 rid ≤ if _has_partial_local_hit (conf m) (hit_at hits i) num_local then 1 else 0.
Proof.
  intros (_ & _ & ->). destruct (_has_partial_local_hit (conf m) (kept_at _ _ _ _ _) num_local) eqn:E.
  - rewrite (has_partial_kept _ _ _ _ E). lia.
  - destruct (_has_partial_local_hit (conf m) (hit_at hits i) num_local); lia.
Qed.

(** What the three phases take together is what the gate counted. *)
Lemma phases_within_gate p l i m m1 m2 (ran : bool) :
  (∃ cnt, counted cnt p l) → fresh_in rid m → 0 < block_size (conf m) → total ≤ num_tokens →
  hit_ok (num_gpu_blocks p) num_local num_external m (hit_at hits i) →
  touch_post rid num_local num_external hits i m tt m1 →
  touch_need num_local num_external hits l i m
  + (if ran then ext_need m1 rid num_local num_external else 0)
  ≤ gate rid hits p num_tokens total num_local false i m ∧
  ((if ran then external_post rid num_local num_external i m1 tt m2 else m2 = m1) →
   touch_need num_local num_external hits l i m
   + (if ran then ext_need m1 rid num_local num_external else 0) + new_need m2 rid num_tokens
   ≤ gate rid hits p num_tokens total num_local false i m).
Proof.
  intros Hc Hf Hbs Htot Hok Hpost. rewrite (gate_fresh p l) by done.
  pose proof (external_within i m m1 Hbs Htot Hpost) as He. pose proof (cow_within i m m1 Hpost) as Hcw.
  destruct Hpost as (Ho1 & Ht1 & _). split; [destruct ran; lia|]. intros Hran.
  unfold new_need. destruct ran.
  - destruct Hran as (Ho2 & -> & ->). rewrite (or_conf _ _ _ Ho2), (or_conf _ _ _ Ho1). lia.
  - subst m2. rewrite (or_conf _ _ _ Ho1). lia.
Qed.

(** The conditional second loop. *)
Lemma external_loop (ran : bool) s l N :
  kv_acct ext s l → num_gpu_blocks (kv_pool s) = N →
  let need := λ (_ : nat) m, if ran then ext_need m rid num_local num_external else 0 in
  need_sum need 0 (single_type_managers s) ≤ zlen l →
  ∃ s' l', (when ran do (each (λ _, allocate_external_computed_blocks rid num_local num_external) >> ret tt)) s
           = (Ok tt, s') ∧ kv_acct ext s' l' ∧ num_gpu_blocks (kv_pool s') = N ∧
    length (single_type_managers s') = length (single_type_managers s) ∧
    zlen l - need_sum need 0 (single_type_managers s) ≤ zlen l' ∧
    ∀ k m, single_type_managers s !! k = Some m → ∃ m', single_type_managers s' !! k = Some m' ∧
      if ran then external_post rid num_local num_external k m tt m' else m' = m.
Proof.
  intros Ha HN need Hn. destruct ran; cbn in need.
  - destruct (each_run (λ _, allocate_external_computed_blocks rid num_local num_external) N (λ _, True)
      (λ _ _, True) (external_post rid num_local num_external) need) with (ext := ext) (s := s) (l := l)
      as (us & s' & l' & Hrun & Ha' & HN' & _ & Hl' & _ & Hlen & Hall); try done.
    { intros i m. unfold need, ext_need. destruct (_ <=? 0); lia. }
    { intros i e p m l1 He Hac HN1 Hpre HR Hle. by apply external_phase. }
    exists s', l'. rewrite (bind_ok _ _ _ _ _ Hrun). do 5 (split; [done|]).
    intros k m Hk. destruct (Hall k m Hk) as ([] & m' & _ & Hm' & Hpost). by exists m'.
  - exists s, l. rewrite (need_sum_zero need) by done. split_and!; try done; [lia|].
    intros k m Hk. by exists m.
Qed.

Lemma new_loop s l N :
  kv_acct ext s l → num_gpu_blocks (kv_pool s) = N →
  need_sum (λ _ m, new_need m rid num_tokens) 0 (single_type_managers s) ≤ zlen l →
  ∃ new s' l', coord_allocate_new_blocks rid num_tokens s = (Ok new, s') ∧ kv_acct ext s' l' ∧
    num_gpu_blocks (kv_pool s') = N ∧
    length (single_type_managers s') = length (single_type_managers s) ∧
    ∀ k m, single_type_managers s !! k = Some m → ∃ m', single_type_managers s' !! k = Some m' ∧
      only_request rid m m' ∧ cdiv num_tokens (block_size (conf m)) ≤ zlen (tbl m' rid) ∧
      _partial_hit_reqs m' !! rid = None.
Proof.
  intros Ha HN Hn.
  destruct (each_run (λ _, allocate_new_blocks rid num_tokens) N (λ _, True) (λ _ _, True)
    (new_post rid num_tokens) (λ _ m, new_need m rid num_tokens)) with (ext := ext) (s := s) (l := l)
    as (new & s' & l' & Hrun & Ha' & HN' & _ & Hl' & _ & Hlen & Hall); try done.
  { intros i m. unfold new_need, cow_need. destruct (_partial_hit_reqs m !! rid); lia. }
  { intros i e p m l1 He Hac HN1 Hpre HR Hle. by apply new_phase. }
  exists new, s', l'. do 4 (split; [done|]). intros k m Hk.
  destruct (Hall k m Hk) as (a & m' & _ & Hm' & Hpost). by exists m'.
Qed.

Lemma allocate_first_run s l :
  kv_acct ext s l → length hits = length (single_type_managers s) → total ≤ num_tokens →
  (∀ k m, single_type_managers s !! k = Some m → fresh_in rid m ∧ 0 < block_size (conf m) ∧
     hit_ok (num_gpu_blocks (kv_pool s)) num_local num_external m (hit_at hits k)) →
  need_sum (gate rid hits (kv_pool s) num_tokens total num_local false) 0 (single_type_managers s) ≤ zlen l →
  ∃ new s' l', (allocate_new_computed_blocks rid hits num_local num_external >>
                coord_allocate_new_blocks rid num_tokens) s = (Ok new, s') ∧
    kv_acct ext s' l' ∧ num_gpu_blocks (kv_pool s') = num_gpu_blocks (kv_pool s) ∧
    length (single_type_managers s') = length (single_type_managers s) ∧
    ∀ k m, single_type_managers s !! k = Some m →
      ∃ m', single_type_managers s' !! k = Some m' ∧ only_request rid m m' ∧
        cdiv num_tokens (block_size (conf m)) ≤ zlen (tbl m' rid) ∧ _partial_hit_reqs m' !! rid = None.
Proof.
  intros Ha Hlen Htot Hms Hgate. set (N := num_gpu_blocks (kv_pool s)) in *.
  assert (∀ k m, single_type_managers s !! k = Some m → hits !! k = Some (hit_at hits k)) as Hat.
  { intros k m Hk%lookup_lt_Some. rewrite <-Hlen in Hk. destruct (lookup_lt_is_Some_2 hits k Hk) as [h Hh].
    unfold hit_at. by rewrite Hh. }
  assert (∃ cnt, counted cnt (kv_pool s) l) as Hcnt by (eexists; apply Ha).
  assert (need_sum (touch_need num_local num_external hits l) 0 (single_type_managers s) ≤ zlen l) as HnA.
  { etrans; [|exact Hgate].
    pose proof (need_sum_le (touch_need num_local num_external hits l) (λ _ _, 0) (λ _ _, 0)
      (gate rid hits (kv_pool s) num_tokens total num_local false) (single_type_managers s)
      (single_type_managers s) (single_type_managers s) 0 eq_refl eq_refl) as Hle.
    rewrite (need_sum_zero (λ _ _, 0)), !Z.add_0_r in Hle by done. apply Hle.
    intros k m m1 m2 Hk _ _. destruct (Hms k m Hk) as (Hf & _ & Hok).
    rewrite (gate_fresh (kv_pool s) l) by done. destruct (_has_partial_local_hit _ _ _); lia. }
  destruct (each_run (λ i, let! hit := lift (hits_of hits i) in
                           add_local_computed_blocks rid hit num_local num_external)
    N (λ l', ∀ b, b ∈ l' → b ∈ l) (touch_pre rid N num_local num_external hits)
    (touch_post rid num_local num_external hits) (touch_need num_local num_external hits l)
    (λ i m, zlen_nonneg _) (touch_phase rid N num_local num_external hits l) ext s l Hext Ha eq_refl
    (λ b Hb, Hb)) as (us & s1 & l1 & HrunA & Ha1 & HN1 & _ & Hl1 & _ & Hlen1 & Hall1); [|done|].
  { intros k m Hk. destruct (Hms k m Hk) as (? & ? & ?). split; [done|]. split; [by eapply Hat|done]. }
  set (ran := 0 <? num_external).
  set (needB := λ (_ : nat) m, if ran then ext_need m rid num_local num_external else 0).
  assert (∀ k m m1, single_type_managers s !! k = Some m → single_type_managers s1 !! k = Some m1 →
            touch_post rid num_local num_external hits k m tt m1) as Hpost1.
  { intros k m m1 Hk Hk1. destruct (Hall1 k m Hk) as ([] & m' & _ & Hm' & Hp). congruence. }
  assert (need_sum needB 0 (single_type_managers s1) ≤ zlen l1) as HnB.
  { pose proof (need_sum_le (touch_need num_local num_external hits l) needB (λ _ _, 0)
      (gate rid hits (kv_pool s) num_tokens total num_local false) (single_type_managers s)
      (single_type_managers s1) (single_type_managers s) 0 Hlen1 eq_refl) as Hle.
    rewrite (need_sum_zero (λ _ _, 0)), Z.add_0_r in Hle by done.
    enough (need_sum (touch_need num_local num_external hits l) 0 (single_type_managers s) +
            need_sum needB 0 (single_type_managers s1) ≤ zlen l) by lia.
    etrans; [|exact Hgate]. apply Hle. intros k m m1 m2 Hk Hk1 _. destruct (Hms k m Hk) as (? & ? & ?).
    destruct (phases_within_gate (kv_pool s) l k m m1 m1 ran) as [Hw _]; try done; [by eapply Hpost1|].
    cbn -[touch_need gate]. unfold needB. lia. }
  destruct (external_loop ran s1 l1 N Ha1 HN1 HnB) as (s2 & l2 & HrunB & Ha2 & HN2 & Hlen2 & Hl2 & Hall2).
  assert (need_sum (λ _ m, new_need m rid num_tokens) 0 (single_type_managers s2) ≤ zlen l2) as HnC.
  { pose proof (need_sum_le (touch_need num_local num_external hits l) needB
      (λ _ m, new_need m rid num_tokens)
      (gate rid hits (kv_pool s) num_tokens total num_local false) (single_type_managers s)
      (single_type_managers s1) (single_type_managers s2) 0 Hlen1 ltac:(congruence)) as Hle.
    enough (need_sum (touch_need num_local num_external hits l) 0 (single_type_managers s) +
            need_sum needB 0 (single_type_managers s1) +
            need_sum (λ _ m, new_need m rid num_tokens) 0 (single_type_managers s2) ≤ zlen l)
      by (fold needB in Hl2; lia).
    etrans; [|exact Hgate]. apply Hle. intros k m m1 m2 Hk Hk1 Hk2. destruct (Hms k m Hk) as (? & ? & ?).
    destruct (phases_within_gate (kv_pool s) l k m m1 m2 ran) as [_ Hw]; try done; [by eapply Hpost1|].
    apply Hw. destruct (Hall2 k m1 Hk1) as (m2' & Hm2' & Hp2). by rewrite Hk2 in Hm2'; simplify_eq. }
  destruct (new_loop s2 l2 N Ha2 HN2 HnC) as (new & s3 & l3 & HrunC & Ha3 & HN3 & Hlen3 & Hall3).
  exists new, s3, l3. split.
  { rewrite (bind_ok _ _ _ tt s2); [exact HrunC|]. unfold allocate_new_computed_blocks.
    rewrite (bind_ok _ _ _ _ _ (gets_run _ _)). cbv beta.
    assert (existsb (λ m, bool_decide (is_Some (num_cached_block m !! rid))) (single_type_managers s) = false) as ->.
    { apply not_true_iff_false. intros (m & Hm & Hc)%existsb_exists. apply bool_decide_eq_true in Hc as [n Hc].
      apply list_elem_of_In, list_elem_of_lookup in Hm as [k Hk].
      destruct (Hms k m Hk) as ((_ & Hno & _) & _). congruence. }
    rewrite (bind_ok _ _ _ _ _ HrunA). exact HrunB. }
  split; [done|]. split; [done|]. split; [congruence|]. intros k m Hk.
  destruct (Hall1 k m Hk) as ([] & m1 & _ & Hk1 & (Ho1 & _)).
  destruct (Hall2 k m1 Hk1) as (m2 & Hk2 & Hp2).
  assert (only_request rid m1 m2) as Ho2 by (destruct ran; [apply Hp2|by subst]).
  destruct (Hall3 k m2 Hk2) as (m3 & Hk3 & Ho3 & Hle3 & Hpart3).
  exists m3. split; [done|]. split; [by do 2 (etrans; [done|])|].
  rewrite (or_conf _ _ _ Ho2), (or_conf _ _ _ Ho1) in Hle3. done.
Qed.
End First.

(** ** A request that goes on *)
Lemma hit_at_nil_gate rid hits p nt total num_local i m :
  hit_at hits i = [] → continues_in rid total m →
  gate rid hits p nt total num_local false i m = new_need m rid nt.
Proof.
  intros Hh (Hp & Htr). unfold gate, new_need, cow_need. rewrite Hh, Hp.
  assert (match _max_admission_blocks_per_request (conf m) with
          | Some k => if false then Z.min (cdiv nt (block_size (conf m))) k else cdiv nt (block_size (conf m))
          | None => cdiv nt (block_size (conf m)) end = cdiv nt (block_size (conf m))) as ->
    by (by destruct (_max_admission_blocks_per_request _)).
  rewrite drop_nil. change (_get_num_evictable_blocks p []) with 0.
  change (_has_partial_local_hit (conf m) [] num_local) with false. change (zlen (@nil Z)) with 0.
  destruct (num_cached_block m !! rid) as [n|]; [lia|]. destruct Htr as [[? ?]|Htr]; [done|]. lia.
Qed.

Lemma need_sum_ext (A B : nat → manager → Z) ms i :
  (∀ k m, ms !! k = Some m → A (i + k)%nat m = B (i + k)%nat m) → need_sum A i ms = need_sum B i ms.
Proof.
  revert i. induction ms as [|m ms IH]; intros i H; [done|]. cbn.
  pose proof (H 0%nat m eq_refl) as H0. rewrite Nat.add_0_r in H0. rewrite H0, IH; [done|].
  intros k m' Hk. specialize (H (S k) m' Hk). by rewrite Nat.add_succ_r in H.
Qed.

(** Removing the skipped blocks in every group. *)
Lemma skip_each ext rid processed prompt s l :
  (∀ b, 0 ≤ ext b) → kv_acct ext s l →
  (∀ k m, single_type_managers s !! k = Some m → skip_pre rid prompt k m) →
  ∃ s1 l1, coord_remove_skipped_blocks rid processed (Some prompt) s = (Ok tt, s1) ∧
    kv_acct ext s1 l1 ∧ num_gpu_blocks (kv_pool s1) = num_gpu_blocks (kv_pool s) ∧ zlen l ≤ zlen l1 ∧
    length (single_type_managers s1) = length (single_type_managers s) ∧
    ∀ k m, single_type_managers s !! k = Some m →
      ∃ m1, single_type_managers s1 !! k = Some m1 ∧ skip_post rid processed prompt k m tt m1.
Proof.
  intros Hext Ha Hpre.
  destruct (each_run (λ _, remove_skipped_blocks rid processed (Some prompt))
    (num_gpu_blocks (kv_pool s)) (λ _, True) (skip_pre rid prompt) (skip_post rid processed prompt) (λ _ _, 0))
    with (ext := ext) (s := s) (l := l) as (us & s1 & l1 & Hrun & Ha1 & HN1 & _ & Hl1 & _ & Hlen1 & Hall1);
    try done.
  { intros i e p m l1 He Hac HN Hp HR Hle. by apply skip_phase. }
  { rewrite need_sum_zero by done. apply zlen_nonneg. }
  rewrite need_sum_zero in Hl1 by done. exists s1, l1. unfold coord_remove_skipped_blocks.
  rewrite (bind_ok _ _ _ _ _ Hrun). do 3 (split; [done|]). split; [lia|]. split; [done|].
  intros k m Hk. destruct (Hall1 k m Hk) as ([] & m1 & _ & Hk1 & Hp). by exists m1.
Qed.

(** ** allocate_slots *)
Section AllocateSlots.
Context (c : kvconf) (r : SRequest) (num_new num_comp : Z) (new_computed : option (list (list Z))).
Context (num_lookahead num_external : Z) (delay full : bool) (reserved : Z) (sched : bool).

Notation rid := (req_id (request r)).
Notation call := (allocate_slots c r num_new num_comp new_computed num_lookahead num_external delay full reserved sched).

Definition local_tokens : Z := num_computed_tokens r + num_comp.
Definition total_tokens : Z := local_tokens + num_external.
Definition slots_needed : Z :=
  Z.min (Z.min total_tokens (max_model_len c) + num_new + num_lookahead) (max_model_len c).
Definition headroom : Z := if sched && waiting_or_preempted r then watermark_blocks c else 0.
Definition hits_in (s : kv) : list (list Z) := default (replicate (length (single_type_managers s)) []) new_computed.

(** What the scheduler passes: a first allocation, with a prefix-cache hit or
    tokens from a connector, or more slots for a request that goes on. *)
Record call_ok (s : kv) : Prop := {
  co_new : 0 ≤ num_new;
  co_lookahead : 0 ≤ num_lookahead;
  co_some : ¬ (num_new = 0 ∧ num_external = 0);
  co_prompt : 0 ≤ num_prompt_tokens (request r);
  co_reserved : 0 ≤ reserved;
  co_watermark : 0 ≤ watermark_blocks c;
  co_sizes : ∀ k m, single_type_managers s !! k = Some m → 0 < block_size (conf m);
  co_hits : length (hits_in s) = length (single_type_managers s);
  co_kind :
    (new_computed ≠ None ∨ 0 < num_external) ∧ total_tokens ≤ max_model_len c ∧
    (∀ k m, single_type_managers s !! k = Some m → fresh_in rid m ∧
       hit_ok (num_gpu_blocks (kv_pool s)) local_tokens num_external m (hit_at (hits_in s) k)) ∨
    (∀ k m, single_type_managers s !! k = Some m →
       continues_in rid total_tokens m ∧ hit_at (hits_in s) k = []) ∧
    (new_computed = None ∧ num_external ≤ 0 ∨
     ∃ k m, single_type_managers s !! k = Some m ∧ is_Some (num_cached_block m !! rid));
}.

(** Registering the finished blocks, the last step. *)
Definition commit (new : list (list Z)) : M kv (option (list (list Z))) :=
  if negb (kv_enable_caching c) || delay then ret (Some new)
  else coord_cache_blocks c r (Z.min (Z.min total_tokens (max_model_len c) + num_new) (num_tokens (request r))) >>
       ret (Some new).

Definition full_sequence_fits (s : kv) : Prop :=
  full = true →
  ∃ n, coord_num_to_allocate s rid (Z.min (num_tokens (request r)) (max_model_len c)) (hits_in s)
         (Z.min total_tokens (max_model_len c)) local_tokens true = Ok n ∧
       n + headroom ≤ get_num_free_blocks (kv_pool s).

(** The gate sees a list of hits for every manager. *)
Lemma hits_lookup s k m :
  call_ok s → single_type_managers s !! k = Some m →
  hits_in s !! k = Some (hit_at (hits_in s) k) ∧
  (is_Some (num_cached_block m !! rid) → hit_at (hits_in s) k = []).
Proof.
  intros Hok Hk. split.
  - apply lookup_lt_Some in Hk. rewrite <-(co_hits _ Hok) in Hk.
    destruct (lookup_lt_is_Some_2 _ _ Hk) as [h Hh]. unfold hit_at. by rewrite Hh.
  - intros Htr. destruct (co_kind _ Hok) as [(_ & _ & Hall)|(Hall & _)].
    + destruct (Hall k m Hk) as ((_ & Hno & _) & _). rewrite Hno in Htr. by destruct Htr.
    + by destruct (Hall k m Hk).
Qed.

Lemma coord_gate s nt total num_local cap :
  call_ok s →
  coord_num_to_allocate s rid nt (hits_in s) total num_local cap =
    Ok (need_sum (gate rid (hits_in s) (kv_pool s) nt total num_local cap) 0 (single_type_managers s)).
Proof. intros Hok. apply sum_to_allocate_run. intros k m Hk. by apply hits_lookup. Qed.

(** The request is as before once the skipped blocks are gone. *)
Lemma skip_loop ext s l :
  (∀ b, 0 ≤ ext b) → kv_acct ext s l → call_ok s →
  ∃ s1 l1, coord_remove_skipped_blocks rid
             (Z.max 0 (Z.min total_tokens (max_model_len c) - num_in_flight_tokens r))
             (Some (num_prompt_tokens (request r))) s = (Ok tt, s1) ∧
    kv_acct ext s1 l1 ∧ zlen l ≤ zlen l1 ∧ call_ok s1 ∧ hits_in s1 = hits_in s ∧
    num_gpu_blocks (kv_pool s1) = num_gpu_blocks (kv_pool s) ∧
    ∀ k m, single_type_managers s !! k = Some m →
      ∃ m1, single_type_managers s1 !! k = Some m1 ∧ only_request rid m m1 ∧
            zlen (tbl m1 rid) = zlen (tbl m rid) ∧ _partial_hit_reqs m1 !! rid = None.
Proof.
  intros Hext Ha Hok. set (processed := Z.max 0 _). set (prompt := num_prompt_tokens (request r)).
  destruct (skip_each ext rid processed prompt s l Hext Ha) as (s1 & l1 & Hrun & Ha1 & HN1 & Hl1 & Hlen1 & Hall1).
  { intros k m Hk. split; [|split; [by eapply co_sizes|apply Hok]].
    destruct (co_kind _ Hok) as [(_ & _ & Hall)|(Hall & _)]; destruct (Hall k m Hk) as [Hm _]; apply Hm. }
  assert (∀ k m, single_type_managers s !! k = Some m →
      ∃ m1, single_type_managers s1 !! k = Some m1 ∧ only_request rid m m1 ∧
            zlen (tbl m1 rid) = zlen (tbl m rid) ∧ num_cached_block m1 !! rid = num_cached_block m !! rid ∧
            _partial_hit_reqs m1 !! rid = None) as Hfacts.
  { intros k m Hk. destruct (Hall1 k m Hk) as (m1 & Hk1 & (Ho & Hc & Hp & freed & Hn)).
    exists m1. unfold zlen. by rewrite (nu_length _ _ _ _ _ Hn). }
  assert (∀ k m1, single_type_managers s1 !! k = Some m1 → ∃ m, single_type_managers s !! k = Some m ∧
            only_request rid m m1 ∧ zlen (tbl m1 rid) = zlen (tbl m rid) ∧
            num_cached_block m1 !! rid = num_cached_block m !! rid ∧ _partial_hit_reqs m1 !! rid = None) as Hback.
  { intros k m1 Hk1. apply lookup_lt_Some in Hk1 as Hlt. rewrite Hlen1 in Hlt.
    destruct (lookup_lt_is_Some_2 _ _ Hlt) as [m Hk]. destruct (Hfacts k m Hk) as (m1' & Hk1' & Hf).
    rewrite Hk1 in Hk1'. simplify_eq. eauto. }
  assert (hits_in s1 = hits_in s) as Hh by (unfold hits_in; by rewrite Hlen1).
  exists s1, l1. split; [done|]. split; [done|]. split; [lia|]. split; [|split; [done|split; [done|]]].
  - destruct Hok as [? ? ? ? ? ? Hsz Hhl Hkind]. split; try done.
    + intros k m1 Hk1. destruct (Hback k m1 Hk1) as (m & Hk & Ho & _). rewrite (or_conf _ _ _ Ho). by eapply Hsz.
    + by rewrite Hh, Hlen1.
    + rewrite Hh, HN1. destruct Hkind as [(? & ? & Hall)|(Hall & Htr)]; [left|right].
      * do 2 (split; [done|]). intros k m1 Hk1. destruct (Hback k m1 Hk1) as (m & Hk & Ho & Hz & Hc & Hp).
        destruct (Hall k m Hk) as ((Ht & Hn & _) & Hv & Hca & Hsh).
        split; [split_and!; [|congruence|done]|].
        -- apply zlen_zero. rewrite Hz. by apply zlen_zero.
        -- unfold hit_ok, hit_shape_ok. rewrite (or_conf _ _ _ Ho). done.
      * split.
        -- intros k m1 Hk1. destruct (Hback k m1 Hk1) as (m & Hk & Ho & Hz & Hc & Hp).
           destruct (Hall k m Hk) as [(_ & Hcase) Hnil]. split; [|done]. split; [done|].
           by rewrite Hc, Hz, (or_conf _ _ _ Ho).
        -- destruct Htr as [?|(k & m & Hk & Htr)]; [by left|right].
           destruct (Hfacts k m Hk) as (m1 & Hk1 & _ & _ & Hc & _). exists k, m1. by rewrite Hc.
  - intros k m Hk. destruct (Hfacts k m Hk) as (m1 & ? & ? & ? & _ & ?). by exists m1.
Qed.

Lemma slots_cover s :
  call_ok s → total_tokens ≤ max_model_len c → total_tokens ≤ slots_needed.
Proof. intros Hok Ht. unfold slots_needed. pose proof (co_new _ Hok). pose proof (co_lookahead _ Hok). lia. Qed.

(** Past the gate, the allocation cannot fail. *)
Lemma allocate_stage ext s l :
  (∀ b, 0 ≤ ext b) → kv_acct ext s l → call_ok s →
  need_sum (gate rid (hits_in s) (kv_pool s) slots_needed total_tokens local_tokens false) 0
    (single_type_managers s) ≤ zlen l →
  ∃ new s' l',
    ((when bool_decide (new_computed ≠ None) || (0 <? num_external) do
        allocate_new_computed_blocks rid (hits_in s) local_tokens num_external) >>
     coord_allocate_new_blocks rid slots_needed) s = (Ok new, s') ∧ kv_acct ext s' l' ∧
    num_gpu_blocks (kv_pool s') = num_gpu_blocks (kv_pool s) ∧
    ∀ k m, single_type_managers s !! k = Some m →
      ∃ m', single_type_managers s' !! k = Some m' ∧ only_request rid m m' ∧
        cdiv slots_needed (block_size (conf m)) ≤ zlen (tbl m' rid) ∧ _partial_hit_reqs m' !! rid = None.
Proof.
  intros Hext Ha Hok Hgate. destruct (co_kind _ Hok) as [(Hst & Htot & Hall)|(Hall & Htr)].
  - rewrite (proj2 (orb_true_iff _ _))
      by (rewrite bool_decide_eq_true, Z.ltb_lt; exact Hst).
    destruct (allocate_first_run ext Hext rid local_tokens num_external slots_needed (hits_in s) s l)
      as (new & s' & l' & Hrun & Ha' & HN & _ & Hm); [done|by apply co_hits|by eapply slots_cover| |done|].
    { intros k m Hk. destruct (Hall k m Hk) as (? & ?). split; [done|]. split; [by eapply co_sizes|done]. }
    exists new, s', l'. done.
  - assert (need_sum (λ _ m, new_need m rid slots_needed) 0 (single_type_managers s) ≤ zlen l) as Hn.
    { etrans; [|exact Hgate]. apply Z.eq_le_incl, need_sum_ext. intros k m Hk.
      destruct (Hall k m Hk) as [Hc Hnil]. symmetry. by apply hit_at_nil_gate. }
    destruct (new_loop ext Hext rid slots_needed s l _ Ha eq_refl Hn)
      as (new & s' & l' & Hrun & Ha' & HN & _ & Hm).
    exists new, s', l'. split; [|done]. rewrite (bind_ok _ _ _ tt s); [done|].
    destruct (bool_decide (new_computed ≠ None) || (0 <? num_external)) eqn:E; [|done].
    destruct Htr as [[Hnone Hext0]|(k & m & Hk & Htr)].
    { rewrite Hnone in E. rewrite (proj2 (Z.ltb_ge _ _)) in E by lia. done. }
    unfold allocate_new_computed_blocks. rewrite (bind_ok _ _ _ _ _ (gets_run _ _)). cbv beta.
    assert (existsb (λ m, bool_decide (is_Some (num_cached_block m !! rid))) (single_type_managers s) = true) as ->.
    { apply existsb_exists. exists m. split; [|by apply bool_decide_eq_true].
      by apply list_elem_of_In, list_elem_of_lookup_2 with k. }
    apply ensure_true. apply forallb_forall. intros h Hh%list_elem_of_In.
    apply list_elem_of_lookup in Hh as [j Hj]. apply lookup_lt_Some in Hj as Hlt.
    rewrite (co_hits _ Hok) in Hlt. destruct (lookup_lt_is_Some_2 _ _ Hlt) as [m' Hm'].
    destruct (Hall j m' Hm') as [_ Hnil]. unfold hit_at in Hnil. rewrite Hj in Hnil. cbn in Hnil. by subst h.
Qed.

Lemma headroom_nonneg s : call_ok s → 0 ≤ headroom.
Proof. intros Hok. unfold headroom. pose proof (co_watermark _ Hok). by destruct (sched && _). Qed.

(** The run of [allocate_slots] up to the first gate. *)
Lemma allocate_slots_start s :
  call_ok s →
  (¬ full_sequence_fits s → call s = (Ok None, s)) ∧
  (full_sequence_fits s → ∀ s1 n,
     coord_remove_skipped_blocks rid (Z.max 0 (Z.min total_tokens (max_model_len c) - num_in_flight_tokens r))
       (Some (num_prompt_tokens (request r))) s = (Ok tt, s1) →
     coord_num_to_allocate s1 rid slots_needed (hits_in s) total_tokens local_tokens false = Ok n →
     call s = (if n + headroom <=? get_num_free_blocks (kv_pool s1) - reserved
               then ((when bool_decide (new_computed ≠ None) || (0 <? num_external) do
                        allocate_new_computed_blocks rid (hits_in s) local_tokens num_external) >>
                     let! new := coord_allocate_new_blocks rid slots_needed in commit new) s1
               else (Ok None, s1))).
Proof.
  intros Hok. unfold allocate_slots.
  rewrite (bind_ok _ _ _ tt s)
    by (apply ensure_true; pose proof (co_some _ Hok); apply negb_true_iff, andb_false_iff;
        destruct (num_new =? 0) eqn:E1; [|by left]; destruct (num_external =? 0) eqn:E2; [lia|by right]).
  rewrite (bind_ok _ _ _ _ _ (gets_run _ _)). cbv beta zeta. fold (hits_in s).
  fold local_tokens total_tokens. fold slots_needed headroom.
  assert (∀ b : bool, (b = true ↔ full_sequence_fits s) →
    (if full then
       let! s0 := gets (λ s0 : kv, s0) in
       let! n := lift (coord_num_to_allocate s0 rid (Z.min (num_tokens (request r)) (max_model_len c))
                         (hits_in s) (Z.min total_tokens (max_model_len c)) local_tokens true) in
       ret (n + headroom <=? get_num_free_blocks (kv_pool s0))
     else ret true) s = (Ok b, s)) as Hfits.
  { intros b Hb. unfold full_sequence_fits in Hb. destruct full.
    - rewrite (bind_ok _ _ _ _ _ (gets_run _ _)), coord_gate by done. unfold bind, lift, ret.
      do 2 f_equal. apply eq_bool_prop_intro. rewrite !Is_true_true, Z.leb_le, Hb. split.
      + intros Hle _. eexists. split; [by apply coord_gate|done].
      + intros H. destruct (H eq_refl) as (n & Hn & Hle). rewrite coord_gate in Hn by done. by simplify_eq.
    - unfold ret. do 2 f_equal. symmetry. by apply Hb. }
  split.
  - intros Hno. rewrite (bind_ok _ _ _ _ _ (Hfits false ltac:(split; [done|tauto]))). done.
  - intros Hyes s1 n Hskip Hn. rewrite (bind_ok _ _ _ _ _ (Hfits true ltac:(tauto))). cbn [negb].
    rewrite (bind_ok _ _ _ _ _ Hskip), (bind_ok _ _ _ _ _ (gets_run _ _)), Hn.
    rewrite (bind_ok _ _ _ n s1) by done. by destruct (n + headroom <=? _).
Qed.
End AllocateSlots.

(** ** Loops that hand references out *)
Section Give.
Context {A : Type} (f : M st A) (given : A → list Z).
Context (Hspec : ∀ p m, ∃ a m', f (p, m) = (Ok a, (p, m')) ∧
  (∀ b, mrefs m b = mrefs m' b + occ b (given a)) ∧ (partial_ok m → partial_ok m')).

Lemma each_give ext s l :
  kv_acct ext s l →
  ∃ xs s', each (λ _, f) s = (Ok xs, s') ∧ kv_pool s' = kv_pool s ∧
    kv_acct (λ b, ext b + occ b (mjoin (given <$> xs))) s' l.
Proof.
  assert (∀ ms i p, ∃ xs ms', for_managers (λ _, f) i p ms = (Ok xs, (p, ms')) ∧
    (∀ b, msum ms b = msum ms' b + occ b (mjoin (given <$> xs))) ∧
    (Forall partial_ok ms → Forall partial_ok ms')) as Hloop.
  { induction ms as [|m ms IH]; intros i p.
    { exists [], []. by split_and!. }
    destruct (Hspec p m) as (a & m' & Hrun & Ho & Hp). destruct (IH (S i) p) as (xs & ms' & Hrun' & Ho' & Hp').
    exists (a :: xs), (m' :: ms'). cbn [for_managers]. rewrite Hrun, Hrun'. split; [done|]. split.
    - intros b. change (mjoin (given <$> a :: xs)) with (given a ++ mjoin (given <$> xs)).
      cbn [msum]. rewrite occ_app, (Ho b), (Ho' b). lia.
    - intros HF. inversion_clear HF. constructor; auto. }
  intros [Hc Hpo]. destruct (Hloop (single_type_managers s) 0%nat (kv_pool s)) as (xs & ms' & Hrun & Ho & Hp).
  exists xs, (KV (kv_pool s) ms'). unfold each. rewrite Hrun. do 2 (split; [done|]).
  split; [|by apply Hp]. eapply counted_ext; [|exact Hc]. intros b. cbn. rewrite (Ho b). lia.
Qed.
End Give.

Lemma pop_gives rid p m :
  ∃ a m', pop_blocks_for_free rid (p, m) = (Ok a, (p, m')) ∧
    (∀ b, mrefs m b = mrefs m' b + occ b a) ∧ (partial_ok m → partial_ok m').
Proof.
  exists (tbl m rid), (with_partial (delete rid) (with_cached (delete rid) (with_tables (delete rid) m))).
  split; [done|]. split.
  - intros b. unfold mrefs, tbl. cbn -[delete]. rewrite total_occ_delete. lia.
  - intros Hp r i src Hr. cbn -[delete] in Hr |- *. apply lookup_delete_Some in Hr as [Hne Hr].
    rewrite lookup_delete_ne by done. by apply Hp.
Qed.

Definition endpoints (ps : list (Z * Z)) : list Z := mjoin ((λ x : Z * Z, [x.1; x.2]) <$> ps).

Lemma occ_endpoints b ps : occ b (endpoints ps) = occ b ps.*1 + occ b ps.*2.
Proof.
  induction ps as [|[x y] ps IH]; [done|].
  change (endpoints ((x, y) :: ps)) with (x :: y :: endpoints ps).
  change (((x, y) :: ps).*1) with (x :: ps.*1). change (((x, y) :: ps).*2) with (y :: ps.*2).
  rewrite !occ_cons, IH. lia.
Qed.

Lemma endpoints_join pss : endpoints (mjoin pss) = mjoin (endpoints <$> pss).
Proof.
  induction pss as [|ps pss IH]; [done|].
  change (mjoin (endpoints <$> ps :: pss)) with (endpoints ps ++ mjoin (endpoints <$> pss)).
  change (mjoin (ps :: pss)) with (ps ++ mjoin pss). rewrite <-IH. unfold endpoints.
  by rewrite fmap_app, join_app.
Qed.

Lemma take_cow_gives p m :
  ∃ a m', take_pending_cow_copies (p, m) = (Ok a, (p, m')) ∧
    (∀ b, mrefs m b = mrefs m' b + occ b (endpoints a)) ∧ (partial_ok m → partial_ok m').
Proof.
  exists (_pending_cow_copies m), (with_cow (λ _, []) m). split; [done|]. split; [|done].
  intros b. rewrite occ_endpoints. unfold mrefs. cbn. change (occ b []) with 0. lia.
Qed.

Lemma free_loop_kv ext rid s l :
  (∀ b, 0 ≤ ext b) → kv_acct ext s l →
  ∃ s' l', coord_free rid s = (Ok tt, s') ∧ kv_acct ext s' l' ∧ zlen l ≤ zlen l' ∧
    num_gpu_blocks (kv_pool s') = num_gpu_blocks (kv_pool s) ∧
    length (single_type_managers s') = length (single_type_managers s) ∧
    ∀ k m, single_type_managers s !! k = Some m → ∃ m', single_type_managers s' !! k = Some m' ∧
      only_request rid m m' ∧ req_to_blocks m' !! rid = None ∧ _partial_hit_reqs m' !! rid = None.
Proof.
  intros Hext Ha.
  destruct (each_run (λ _, free rid) (num_gpu_blocks (kv_pool s)) (λ _, True) (λ _ _, True)
    (λ _ m (_ : unit) m', only_request rid m m' ∧ req_to_blocks m' !! rid = None ∧ _partial_hit_reqs m' !! rid = None) (λ _ _, 0))
    with (ext := ext) (s := s) (l := l) as (us & s1 & l1 & Hrun & Ha1 & HN1 & _ & Hl1 & _ & Hlen1 & Hall1);
    try done.
  { intros i e p m l1 He Hac HN _ _ _. destruct (free_run e He rid (p, m) l1 Hac)
      as ([p' m'] & fs & ls & Hrun & Hac' & Ho & Ht & _ & Hpt & Hnum & _).
    cbn in *. exists tt, p', m', (fs ++ l1 ++ ls). split; [done|]. split; [done|]. split; [congruence|].
    split; [done|]. rewrite !zlen_app. pose proof (zlen_nonneg fs). pose proof (zlen_nonneg ls).
    split; [lia|done]. }
  { rewrite need_sum_zero by done. apply zlen_nonneg. }
  rewrite need_sum_zero in Hl1 by done.
  exists s1, l1. unfold coord_free. rewrite (bind_ok _ _ _ _ _ Hrun). split; [done|]. split; [done|].
  split; [lia|]. do 2 (split; [done|]). intros k m Hk.
  destruct (Hall1 k m Hk) as (? & m' & _ & Hk' & Hp). by exists m'.
Qed.

(** Registering blocks, whatever the outcome. *)
Lemma cache_loop ext c r n s l res s' :
  (∀ b, 0 ≤ ext b) → kv_acct ext s l → coord_cache_blocks c r n s = (res, s') →
  kv_acct ext s' l ∧ num_gpu_blocks (kv_pool s') = num_gpu_blocks (kv_pool s).
Proof.
  intros Hext Ha. unfold coord_cache_blocks. assert (Reflexive (λ _ _ : manager, True)) as Hrefl by done.
  match goal with |- context [each ?g] => set (f := g) end. unfold bind at 1, ret. destruct (each_any f (λ _ _, True)) with (ext := ext) (s := s) (l := l)
    as (rr & s1 & Hrun & Ha1 & HN1 & _); [|done|done|].
  { intros i e st0 l0 He Hac. unfold f. apply wp_bind, wp_gets.
    eapply wp_mono; [by apply (cache_blocks_run e He)|..]; intros ? ? H;
      exact (conj (ro_acct _ _ _ _ _ H) (conj I (ro_num _ _ _ _ _ H))). }
  rewrite Hrun. destruct rr; by intros [= <- <-].
Qed.

Lemma kv_keeps ext s l p' :
  kv_acct ext s l → keeps (kv_pool s) l p' → kv_acct ext (with_pool p' s) l.
Proof. intros [Hc Hp] Hk. split; [by eapply counted_keeps|done]. Qed.

(** ** Reachable states

    [out] lists the blocks whose references were handed to the scheduler:
    endpoints of copies in progress and blocks of finished requests whose
    release is deferred. *)
Definition new_manager (cf : mconf) : manager := Manager cf [] ∅ ∅ ∅ [].

Inductive kv_step : kv * list Z → kv * list Z → Prop :=
  | step_allocate c r nnew ncomp hits look ext delay full reserved sched s out res s' :
      call_ok c r nnew ncomp hits look ext reserved s →
      allocate_slots c r nnew ncomp hits look ext delay full reserved sched s = (res, s') →
      kv_step (s, out) (s', out)
  | step_free rid s out res s' : coord_free rid s = (res, s') → kv_step (s, out) (s', out)
  | step_cache c r n s out res s' : coord_cache_blocks c r n s = (res, s') → kv_step (s, out) (s', out)
  | step_skip rid processed prompt s out res s' :
      (∀ k m, single_type_managers s !! k = Some m → skip_pre rid prompt k m) →
      coord_remove_skipped_blocks rid processed (Some prompt) s = (res, s') → kv_step (s, out) (s', out)
  | step_copies s out copies given s' :
      take_kv_cache_block_copies s = (Ok (copies, given), s') → kv_step (s, out) (s', out ++ given)
  | step_pop rid s out bs s' :
      coord_pop_blocks_for_free rid s = (Ok bs, s') → kv_step (s, out) (s', out ++ bs)
  | step_release bs s out out' res s' :
      out ≡ₚ bs ++ out' → on_kv_pool (free_blocks bs) s = (res, s') → kv_step (s, out) (s', out')
  | step_evict ids s out res s' : on_kv_pool (evict_blocks ids) s = (res, s') → kv_step (s, out) (s', out)
  | step_reset s out res s' : on_kv_pool reset_prefix_cache s = (res, s') → kv_step (s, out) (s', out).

Inductive kv_reachable (n : Z) (caching : bool) (hbs : Z) (confs : list mconf) : kv * list Z → Prop :=
  | kv_init p : pool_init n caching hbs = Ok p →
      kv_reachable n caching hbs confs (KV p (new_manager <$> confs), [])
  | kv_next x y : kv_reachable n caching hbs confs x → kv_step x y → kv_reachable n caching hbs confs y.

Definition kv_inv (n : Z) (x : kv * list Z) : Prop :=
  num_gpu_blocks (kv_pool x.1) = n ∧ ∃ l, kv_acct (λ b, occ b x.2) x.1 l.

Lemma bind_ok_inv {S A B} (m : M S A) (k : A → M S B) s b s' :
  bind m k s = (Ok b, s') → ∃ a s1, m s = (Ok a, s1) ∧ k a s1 = (Ok b, s').
Proof. unfold bind. destruct (m s) as [[a|e] s1]; [|done]. eauto. Qed.

(** Both outcomes of a call that passed the admission check. *)
Lemma allocate_slots_run c r nnew ncomp hits look external delay full reserved sched ext s l :
  (∀ b, 0 ≤ ext b) → kv_acct ext s l → call_ok c r nnew ncomp hits look external reserved s →
  full_sequence_fits c r ncomp hits external full sched s →
  let rid := req_id (request r) in
  let need := slots_needed c r nnew ncomp look external in
  let call := allocate_slots c r nnew ncomp hits look external delay full reserved sched in
  ∃ s1 l1 n,
    coord_remove_skipped_blocks rid
      (Z.max 0 (Z.min (total_tokens r ncomp external) (max_model_len c) - num_in_flight_tokens r))
      (Some (num_prompt_tokens (request r))) s = (Ok tt, s1) ∧
    kv_acct ext s1 l1 ∧ zlen l ≤ zlen l1 ∧ num_gpu_blocks (kv_pool s1) = num_gpu_blocks (kv_pool s) ∧
    coord_num_to_allocate s1 rid need (hits_in hits s) (total_tokens r ncomp external)
      (local_tokens r ncomp) false = Ok n ∧
    (zlen l1 - reserved < n + headroom c r sched → call s = (Ok None, s1)) ∧
    (n + headroom c r sched ≤ zlen l1 - reserved →
     ∃ new s2 l2, call s = commit c r nnew ncomp external delay new s2 ∧ kv_acct ext s2 l2 ∧
       num_gpu_blocks (kv_pool s2) = num_gpu_blocks (kv_pool s) ∧
       ∀ k m, single_type_managers s !! k = Some m →
         ∃ m', single_type_managers s2 !! k = Some m' ∧ only_request rid m m' ∧
           cdiv need (block_size (conf m)) ≤ zlen (tbl m' rid) ∧ _partial_hit_reqs m' !! rid = None) ∧
    ∀ k m, single_type_managers s !! k = Some m →
      ∃ m1, single_type_managers s1 !! k = Some m1 ∧ only_request rid m m1 ∧
        zlen (tbl m1 rid) = zlen (tbl m rid) ∧ _partial_hit_reqs m1 !! rid = None.
Proof.
  intros Hext Ha Hok Hfit rid need call.
  destruct (skip_loop c r nnew ncomp hits look external reserved ext s l Hext Ha Hok)
    as (s1 & l1 & Hskip & Ha1 & Hl1 & Hok1 & Hh & HN1 & Hms).
  pose proof (coord_gate c r nnew ncomp hits look external reserved s1 need
    (total_tokens r ncomp external) (local_tokens r ncomp) false Hok1) as Hgate.
  rewrite Hh in Hgate. 
  match type of Hgate with _ = Ok ?x => set (n := x) in Hgate end. exists s1, l1, n.
  do 4 (split; [done|]). split; [done|].
  destruct (allocate_slots_start c r nnew ncomp hits look external delay full reserved sched s Hok) as [_ Hyes].
  specialize (Hyes Hfit s1 n Hskip Hgate). fold call in Hyes.
  assert (get_num_free_blocks (kv_pool s1) = zlen l1) as Hfree.
  { destruct Ha1 as [[(Hq & _) _ _ _] _]. apply (queue_rep_num _ _ Hq). }
  rewrite Hfree in Hyes. split; [|split; [|exact Hms]].
  - intros Hlt. rewrite Hyes. by rewrite (proj2 (Z.leb_gt _ _)) by lia.
  - intros Hle. rewrite (proj2 (Z.leb_le _ _)) in Hyes by lia.
    pose proof (headroom_nonneg c r nnew ncomp hits look external reserved sched s Hok) as Hhead.
    pose proof (co_reserved _ _ _ _ _ _ _ _ _ Hok) as Hres.
    destruct (allocate_stage c r nnew ncomp hits look external reserved ext s1 l1 Hext Ha1 Hok1)
      as (new & s2 & l2 & Hrun & Ha2 & HN2 & Hm2).
    { rewrite Hh. fold need. fold n. lia. }
    exists new, s2, l2. rewrite Hh in Hrun. split; [|split; [done|split; [congruence|]]].
    + rewrite Hyes. apply bind_ok_inv in Hrun as ([] & s1' & Hrun1 & Hrun2).
      by rewrite (bind_ok _ _ _ _ _ Hrun1), (bind_ok _ _ _ _ _ Hrun2).
    + intros k m Hk. destruct (Hms k m Hk) as (m1 & Hk1 & Ho1 & _).
      destruct (Hm2 k m1 Hk1) as (m2 & Hk2 & Ho2 & Hle2 & Hp2). exists m2. split; [done|].
      split; [by etrans|]. by rewrite (or_conf _ _ _ Ho1) in Hle2.
Qed.

Lemma full_fits_dec c r nnew ncomp hits look external full reserved sched s :
  call_ok c r nnew ncomp hits look external reserved s →
  full_sequence_fits c r ncomp hits external full sched s ∨
  ¬ full_sequence_fits c r ncomp hits external full sched s.
Proof.
  intros Hok. unfold full_sequence_fits. destruct full; [|by left].
  rewrite (coord_gate c r nnew ncomp hits look external reserved) by done.
  match goal with |- context [Ok ?n = Ok _] =>
    destruct (decide (n + headroom c r sched ≤ get_num_free_blocks (kv_pool s))) end.
  - left. intros _. by eexists.
  - right. intros H. destruct (H eq_refl) as (n' & [= <-] & ?). done.
Qed.

Lemma commit_inv c r nnew ncomp external delay new ext s l res s' :
  (∀ b, 0 ≤ ext b) → kv_acct ext s l → commit c r nnew ncomp external delay new s = (res, s') →
  kv_acct ext s' l.
Proof.
  intros Hext Ha. unfold commit. destruct (negb _ || delay); [by intros [= <- <-]|].
  unfold bind at 1. destruct (coord_cache_blocks c r _ s) as [rr s1] eqn:E.
  apply (cache_loop ext _ _ _ _ l) in E as [E _]; [|done|done]. by destruct rr; intros [= <- <-].
Qed.

Lemma allocate_slots_inv c r nnew ncomp hits look external delay full reserved sched ext s l res s' :
  (∀ b, 0 ≤ ext b) → kv_acct ext s l → call_ok c r nnew ncomp hits look external reserved s →
  allocate_slots c r nnew ncomp hits look external delay full reserved sched s = (res, s') →
  num_gpu_blocks (kv_pool s') = num_gpu_blocks (kv_pool s) ∧ ∃ l', kv_acct ext s' l'.
Proof.
  intros Hext Ha Hok Hrun.
  destruct (full_fits_dec c r nnew ncomp hits look external full reserved sched s Hok) as [Hfit|Hno].
  2:{ destruct (allocate_slots_start c r nnew ncomp hits look external delay full reserved sched s Hok) as [Hn _].
      rewrite (Hn Hno) in Hrun. simplify_eq. eauto. }
  destruct (allocate_slots_run c r nnew ncomp hits look external delay full reserved sched ext s l Hext Ha Hok Hfit)
    as (s1 & l1 & n & _ & Ha1 & _ & HN1 & _ & Hnone & Hsome & _).
  destruct (decide (n + headroom c r sched ≤ zlen l1 - reserved)) as [Hle|Hgt].
  - destruct (Hsome Hle) as (new & s2 & l2 & Hcall & Ha2 & HN2 & _). rewrite Hcall in Hrun.
    pose proof (commit_inv c r nnew ncomp external delay new ext s2 l2 res s' Hext Ha2 Hrun) as Ha3.
    split; [|eauto]. rewrite <-HN2. revert Hrun. unfold commit.
    destruct (negb _ || delay); [by intros [= <- <-]|]. unfold bind at 1.
    destruct (coord_cache_blocks c r _ s2) as [rr s3] eqn:E.
    destruct (cache_loop ext _ _ _ _ l2 _ _ Hext Ha2 E) as [_ HN3].
    by destruct rr; intros [= <- <-].
  - rewrite (Hnone ltac:(lia)) in Hrun. simplify_eq. eauto.
Qed.

Lemma kv_acct_ext ext ext' s l : (∀ b, ext b = ext' b) → kv_acct ext s l → kv_acct ext' s l.
Proof.
  intros He [Hc Hp]. split; [|done]. eapply counted_ext; [|exact Hc]. intros b. cbn. by rewrite He.
Qed.

(** Giving back handed-out references. *)
Lemma kv_release_run s out bs out' l :
  kv_acct (λ b, occ b out) s l → out ≡ₚ bs ++ out' →
  ∃ s' l', on_kv_pool (free_blocks bs) s = (Ok tt, s') ∧ kv_acct (λ b, occ b out') s' l' ∧
    num_gpu_blocks (kv_pool s') = num_gpu_blocks (kv_pool s).
Proof.
  intros [Hc Hp] Hout.
  assert (∀ b, occ b out = occ b bs + occ b out') as Ho by (intros b; by rewrite (occ_perm b _ _ Hout), occ_app).
  destruct (counted_free_blocks _ _ _ Hc bs) as (fs & ls & p' & Hrun & Hc' & HN & _).
  - intros b Hb%elem_of_occ. apply (ct_valid _ _ _ Hc). cbn. rewrite Ho.
    pose proof (occ_nonneg b out'). pose proof (msum_nonneg (single_type_managers s) b). lia.
  - intros b. cbn. rewrite Ho. pose proof (occ_nonneg b out'). pose proof (msum_nonneg (single_type_managers s) b). lia.
  - exists (with_pool p' s), (fs ++ l ++ ls). unfold on_kv_pool. erewrite zoom_ok by exact Hrun.
    split; [done|]. split; [|done]. split; [|done]. eapply counted_ext; [|exact Hc']. intros b. cbn.
    rewrite Ho. lia.
Qed.

(** A pool call that moves no reference. *)
Lemma pool_call_kv {A} (m : M pool A) ext s l res s' :
  kv_acct ext s l → (∀ r p', m (kv_pool s) = (r, p') → keeps (kv_pool s) l p') →
  on_kv_pool m s = (res, s') →
  kv_acct ext s' l ∧ num_gpu_blocks (kv_pool s') = num_gpu_blocks (kv_pool s).
Proof.
  intros Ha Hm. unfold on_kv_pool, zoom. destruct (m (kv_pool s)) as [r p'] eqn:E. intros [= <- <-].
  specialize (Hm r p' eq_refl). split; [by apply kv_keeps|apply Hm].
Qed.

Lemma kv_step_inv n x y : kv_step x y → kv_inv n x → kv_inv n y.
Proof.
  intros Hstep [HN (l & Ha)]. pose proof (λ b, occ_nonneg b x.2) as Hext. unfold kv_inv. revert HN Ha Hext.
  destruct Hstep as [c r nnew ncomp hits look ext delay full reserved sched s out res s' Hok Hrun
    |rid s out res s' Hrun|c r k s out res s' Hrun|rid processed prompt s out res s' Hpre Hrun
    |s out copies given s' Hrun|rid s out bs s' Hrun|bs s out out' res s' Hout Hrun
    |ids s out res s' Hrun|s out res s' Hrun]; cbn [fst snd]; intros HN Ha Hext.
  - destruct (allocate_slots_inv _ _ _ _ _ _ _ _ _ _ _ _ _ _ _ _ Hext Ha Hok Hrun) as [HN' [l' Ha']].
    split; [congruence|by exists l'].
  - destruct (free_loop_kv _ rid s l Hext Ha) as (s1 & l1 & Hrun' & Ha1 & _ & HN1 & _).
    rewrite Hrun in Hrun'. simplify_eq. split; [congruence|by exists l1].
  - destruct (cache_loop _ _ _ _ _ _ _ _ Hext Ha Hrun) as [Ha' HN']. split; [congruence|by exists l].
  - destruct (skip_each _ rid processed prompt s l Hext Ha Hpre) as (s1 & l1 & Hrun' & Ha1 & HN1 & _).
    rewrite Hrun in Hrun'. simplify_eq. split; [congruence|by exists l1].
  - destruct (each_give take_pending_cow_copies endpoints take_cow_gives _ s l Ha) as (xs & s1 & Hrun' & Hp & Ha1).
    unfold take_kv_cache_block_copies in Hrun. rewrite (bind_ok _ _ _ _ _ Hrun') in Hrun.
    cbn in Hrun. injection Hrun as <- <- <-. split; [by rewrite Hp|]. exists l.
    eapply kv_acct_ext; [|exact Ha1]. intros b. cbn beta.
    rewrite occ_app, <-endpoints_join. done.
  - destruct (each_give (pop_blocks_for_free rid) (λ x, x) (pop_gives rid) _ s l Ha) as (xs & s1 & Hrun' & Hp & Ha1).
    unfold coord_pop_blocks_for_free in Hrun. rewrite (bind_ok _ _ _ _ _ Hrun') in Hrun.
    cbn in Hrun. injection Hrun as <- <-. split; [by rewrite Hp|]. exists l.
    eapply kv_acct_ext; [|exact Ha1]. intros b. cbn beta. by rewrite list_fmap_id, occ_app.
  - destruct (kv_release_run s out bs out' l Ha Hout) as (s1 & l1 & Hrun' & Ha1 & HN1).
    rewrite Hrun in Hrun'. simplify_eq. split; [congruence|by exists l1].
  - destruct (pool_call_kv _ _ _ l _ _ Ha (λ r p' H, wp_keeps_run _ _ _ _ _
      (evict_blocks_keeps ids _ l (ct_inv _ _ _ (ka_counted _ _ _ Ha))) H) Hrun) as [Ha' HN'].
    split; [congruence|by exists l].
  - destruct (reset_prefix_cache_run (kv_pool s) l (ct_inv _ _ _ (ka_counted _ _ _ Ha))) as (p' & Hr & Hk & _).
    destruct (pool_call_kv reset_prefix_cache _ s l res s' Ha) as [Ha' HN'];
      [intros r p'' H; rewrite Hr in H; by simplify_eq|done|]. split; [congruence|by exists l].
Qed.

Lemma kv_reachable_inv n caching hbs confs x : kv_reachable n caching hbs confs x → kv_inv n x.
Proof.
  induction 1 as [p Hp|x y _ IH Hstep]; [|by eapply kv_step_inv].
  destruct (decide (0 < n)) as [Hn|Hn].
  2:{ unfold pool_init in Hp. destruct (0 <? n) eqn:E; [lia|done]. }
  destruct (pool_init_run n caching hbs Hn) as (q & Hq & Hinv & HN & _ & Hz). rewrite Hp in Hq. simplify_eq.
  assert (∀ b, msum (new_manager <$> confs) b = 0) as Hm0.
  { intros b. induction confs as [|cf cfs IHc]; [done|]. cbn [fmap list_fmap msum]. rewrite IHc.
    unfold mrefs, total_occ. cbn. rewrite map_fold_empty. done. }
  split; [done|]. exists (zrange 1 (num_gpu_blocks q)). split; cbn.
  - split; [done|..].
    + intros b. rewrite Hm0. done.
    + intros b. rewrite Hm0. change (occ b []) with 0. lia.
    + intros b r nul Hb Hr. rewrite Hm0. change (occ b []) with 0.
      assert (0 ≤ b < num_gpu_blocks q) as Hd.
      { destruct Hinv as (_ & Hok & _). apply (ro_dom _ _ _ Hok). by eexists. }
      rewrite (Hz b Hd) in Hr. injection Hr as Hr _. lia.
  - apply Forall_fmap, Forall_forall. intros cf _ rid i src H. cbn in H. by rewrite lookup_empty in H.
Qed.

Lemma msum_empty ms b :
  (∀ m, m ∈ ms → req_to_blocks m = ∅ ∧ _pending_cow_copies m = []) → msum ms b = 0.
Proof.
  intros H. induction ms as [|m ms IH]; [done|]. cbn [msum]. rewrite IH by set_solver.
  destruct (H m ltac:(set_solver)) as [Ht Hc]. unfold mrefs, total_occ. by rewrite Ht, Hc, map_fold_empty.
Qed.

(** ** The properties *)

(** C5: [allocate_slots] is all-or-nothing.  For a first allocation (with a
    prefix-cache hit or connector tokens) or for a request that goes on, the
    call either returns [None], at the admission check with nothing changed or
    at the second gate with only skipped blocks given back, exactly when fewer
    blocks are free (less the reserve) than counted; or every step of the
    allocation succeeds, the reference counts stay exact, no other request is
    touched and every group's table covers all the tokens, after which only the
    registration of finished blocks ([commit]) is left. *)
Theorem allocate_slots_all_or_nothing c r nnew ncomp hits look external delay full reserved sched ext s l :
  (∀ b, 0 ≤ ext b) → kv_acct ext s l → call_ok c r nnew ncomp hits look external reserved s →
  let rid := req_id (request r) in
  let need := slots_needed c r nnew ncomp look external in
  let call := allocate_slots c r nnew ncomp hits look external delay full reserved sched in
  (¬ full_sequence_fits c r ncomp hits external full sched s → call s = (Ok None, s)) ∧
  (full_sequence_fits c r ncomp hits external full sched s →
   ∃ s1 l1 n,
    coord_remove_skipped_blocks rid
      (Z.max 0 (Z.min (total_tokens r ncomp external) (max_model_len c) - num_in_flight_tokens r))
      (Some (num_prompt_tokens (request r))) s = (Ok tt, s1) ∧
    kv_acct ext s1 l1 ∧ zlen l ≤ zlen l1 ∧
    coord_num_to_allocate s1 rid need (hits_in hits s) (total_tokens r ncomp external)
      (local_tokens r ncomp) false = Ok n ∧
    (zlen l1 - reserved < n + headroom c r sched → call s = (Ok None, s1)) ∧
    (n + headroom c r sched ≤ zlen l1 - reserved →
     ∃ new s2 l2, call s = commit c r nnew ncomp external delay new s2 ∧ kv_acct ext s2 l2 ∧
       ∀ k m, single_type_managers s !! k = Some m →
         ∃ m', single_type_managers s2 !! k = Some m' ∧ only_request rid m m' ∧
           cdiv need (block_size (conf m)) ≤ zlen (tbl m' rid))).
Proof.
  intros Hext Ha Hok rid need call. split.
  - destruct (allocate_slots_start c r nnew ncomp hits look external delay full reserved sched s Hok) as [Hno _].
    exact Hno.
  - intros Hfit.
    destruct (allocate_slots_run c r nnew ncomp hits look external delay full reserved sched ext s l Hext Ha Hok Hfit)
      as (s1 & l1 & n & Hskip & Ha1 & Hl1 & _ & Hn & Hnone & Hsome & _).
    exists s1, l1, n. do 4 (split; [done|]). split; [done|]. intros Hle.
    destruct (Hsome Hle) as (new & s2 & l2 & ? & ? & _ & Hall). exists new, s2, l2. split; [done|]. split; [done|].
    intros k m Hk. destruct (Hall k m Hk) as (m' & ? & ? & ? & _). by exists m'.
Qed.

(** C4: no block is ever leaked or freed twice.  In every state reachable by
    the scheduler's calls (allocations with any outcome, frees, registrations,
    removal of skipped blocks, copies handed out, deferred and immediate
    releases, evictions, resets), the reference count of a real page is exactly
    the number of table entries, pending copies and handed-out blocks naming
    it.  Hence when no request holds a table and nothing is handed out, every
    page but the null page is free again. *)
Theorem kv_no_leak n caching hbs confs s out :
  kv_reachable n caching hbs confs (s, out) →
  (∀ b, 0 < b < n →
     ref_cnt (blk (kv_pool s) b) = msum (single_type_managers s) b + occ b out) ∧
  ((∀ m, m ∈ single_type_managers s → req_to_blocks m = ∅ ∧ _pending_cow_copies m = []) → out = [] →
   get_num_free_blocks (kv_pool s) = n - 1).
Proof.
  intros [HN (l & Hc & _)]%kv_reachable_inv. cbn [fst snd] in *. rewrite <-HN. clear HN. split.
  - intros b Hb. destruct (proj2 (ro_dom _ _ _ (counted_refs_ok _ _ _ Hc) b) ltac:(lia)) as [[r nul] Hr].
    destruct (blk_refs _ _ _ _ Hr) as [-> _].
    rewrite (ct_refs _ _ _ Hc b r nul) by (done || (unfold null_block; lia)). cbn. lia.
  - intros Hms ->.
    assert (l ≡ₚ zrange 1 (num_gpu_blocks (kv_pool s))) as Hp.
    { apply NoDup_Permutation; [apply (ro_nodup _ _ _ (counted_refs_ok _ _ _ Hc))|apply NoDup_zrange|].
      intros b. rewrite elem_of_zrange. split.
      - intros Hb%(counted_free _ _ _ Hc). lia.
      - intros Hb. apply (counted_zero_free _ _ _ Hc); [lia|]. cbn. by rewrite msum_empty. }
    destruct Hc as [(Hq & Hok & _) _ _ _]. unfold get_num_free_blocks. rewrite (queue_rep_num _ _ Hq).
    unfold zlen. rewrite (Permutation_length Hp). fold (zlen (zrange 1 (num_gpu_blocks (kv_pool s)))).
    rewrite zrange_length. pose proof (ro_pos _ _ _ Hok). lia.
Qed.

(** *** Witnesses: eight pages, a full-attention and a sliding-window group. *)
Definition demo_confs : list mconf :=
  [MConf FullAttention 2 true 0 2 false false None;
   MConf (SlidingWindow 3 0) 2 true 1 2 false false (Some 3)].
Definition demo_conf : kvconf := KVConf 16 true 1 None 0 false None.
Definition demo_req0 : SRequest := SReq (Req "a" [5; 6; 7] 3 [] None None None [[1]]) 0 0 0 true.
Definition demo_pool : pool :=
  match pool_init 8 true 2 with Ok p => p | Raise _ => Pool 0 false 0 ∅ (fq_init []) ∅ ∅ end.
Definition demo_kv : kv := KV demo_pool (new_manager <$> demo_confs).
Definition demo_alloc : result (option (list (list Z))) * kv :=
  allocate_slots demo_conf demo_req0 1 0 None 0 2 false true 1 false demo_kv.
Definition demo_freed : result unit * kv := coord_free "a" demo_alloc.2.

Lemma demo_kv_reachable : kv_reachable 8 true 2 demo_confs (demo_kv, []).
Proof. apply kv_init. by vm_compute. Qed.

(** A first allocation: one new token after two from a connector. *)
Lemma demo_call_ok : call_ok demo_conf demo_req0 1 0 None 0 2 1 demo_kv.
Proof.
  split; try (cbn; lia).
  - intros [|[|k]] m; cbn; [by intros [= <-]|by intros [= <-]|done].
  - left. split; [right; lia|]. split; [by vm_compute|]. intros k m Hk.
    assert (fresh_in "a" m) as Hf.
    { destruct k as [|[|k]]; cbn in Hk; simplify_eq; unfold fresh_in, tbl; cbn;
        by rewrite !lookup_empty. }
    split; [exact Hf|].
    assert (hit_at (hits_in None demo_kv) k = []) as ->.
    { unfold hit_at, hits_in. cbn. by destruct k as [|[|[|k]]]. }
    split; [by intros b Hb%elem_of_nil|]. split; [done|]. intros Hno. unfold kept_hit in Hno. by rewrite drop_nil in Hno.
Qed.

Lemma demo_freed_reachable : kv_reachable 8 true 2 demo_confs (demo_freed.2, []).
Proof.
  apply (kv_next _ _ _ _ (demo_alloc.2, [])).
  - apply (kv_next _ _ _ _ (demo_kv, [])); [exact demo_kv_reachable|].
    apply (step_allocate demo_conf demo_req0 1 0 None 0 2 false true 1 false _ _ demo_alloc.1); [exact demo_call_ok|].
    unfold demo_alloc. apply surjective_pairing.
  - apply (step_free "a" _ _ demo_freed.1). unfold demo_freed. apply surjective_pairing.
Qed.

Lemma allocate_slots_all_or_nothing_witness :
  ∃ s1 n, coord_num_to_allocate s1 "a" 3 [[]; []] 2 0 false = Ok n ∧
    (n + 0 ≤ 7 - 1 →
     ∃ new s2, demo_alloc = commit demo_conf demo_req0 1 0 2 false new s2).
Proof.
  destruct (kv_reachable_inv _ _ _ _ _ demo_kv_reachable) as [_ (l & Ha)].
  destruct (allocate_slots_all_or_nothing demo_conf demo_req0 1 0 None 0 2 false true 1 false
    (λ b, occ b []) demo_kv l (λ b, occ_nonneg b []) Ha demo_call_ok) as [_ Hyes].
  destruct Hyes as (s1 & l1 & n & Hskip & _ & Hl & Hn & _ & Hsome).
  { intros _. eexists. split; [by vm_compute|by vm_compute]. }
  exists s1, n. split; [exact Hn|]. intros Hle.
  assert (zlen l = 7) as Hz.
  { destruct Ha as [[(Hq & _) _ _ _] _]. rewrite <-(queue_rep_num _ _ Hq). by vm_compute. }
  destruct (Hsome ltac:(change (headroom demo_conf demo_req0 false) with 0; lia)) as (new & s2 & l2 & Hcall & _).
  exists new, s2. exact Hcall.
Defined.

Lemma kv_no_leak_witness :
  (match demo_alloc.1 with Ok (Some _) => true | _ => false end) = true ∧
  get_num_free_blocks (kv_pool demo_freed.2) = 8 - 1.
Proof.
  split; [by vm_compute|].
  apply (kv_no_leak 8 true 2 demo_confs demo_freed.2 [] demo_freed_reachable); [|done].
  assert (bool_decide (Forall (λ m, req_to_blocks m = ∅ ∧ _pending_cow_copies m = [])
            (single_type_managers demo_freed.2)) = true) as Hb by (by vm_compute).
  apply bool_decide_eq_true in Hb. intros m Hm. rewrite Forall_forall in Hb. exact (Hb m Hm).
Defined.
