(* ===== verification/Residency.v ===== *)
(** * The residency table

    Models offload_package/staging/residency.py: [Residency], [BlockLocation]
    and [ResidencyTable], and [BlockRef] of offload_package/scoring/base.py.
    [_blocks] keeps the dict's insertion order, because [all_gpu_blocks] lists
    it in that order; [_by_request] is only read by key and through [sorted],
    so it is a finite map. *)

From S2P Require Import Prelude PyData.
From stdpp Require Import base gmap sets list strings sorting.
From Stdlib Require Import ZArith Lia.
Open Scope Z_scope.

(** ** Data *)
Record BlockRef := mkRef {
  request_id : string;
  block_idx : Z;
}.

#[global] Instance BlockRef_eq_dec : EqDecision BlockRef.
Proof. solve_decision. Defined.
#[global] Instance BlockRef_countable : Countable BlockRef.
Proof.
  refine (inj_countable' (λ r, (request_id r, block_idx r)) (λ p, mkRef p.1 p.2) _).
  by intros [].
Defined.

Inductive Residency := GPU | CPU | STAGING.
#[global] Instance Residency_eq_dec : EqDecision Residency.
Proof. solve_decision. Defined.

Record BlockLocation := Loc {
  residency : Residency;
  gpu_block_id : option Z;
  cpu_slot : option Z;
  staging_slot : option Z;
  complete : bool;
}.
#[global] Instance BlockLocation_eq_dec : EqDecision BlockLocation.
Proof. solve_decision. Defined.

Record table := Table {
  _blocks : list (BlockRef * BlockLocation);
  _num_cpu : Z;
  _cpu_version : Z;
  _by_request : gmap string (gmap Z BlockRef);
}.

Definition table_init : table := Table [] 0 0 ∅.

Definition with_tblocks (f : list (BlockRef * BlockLocation) → list (BlockRef * BlockLocation))
    (t : table) : table :=
  Table (f (_blocks t)) (_num_cpu t) (_cpu_version t) (_by_request t).
Definition with_by_request (f : gmap string (gmap Z BlockRef) → gmap string (gmap Z BlockRef))
    (t : table) : table :=
  Table (_blocks t) (_num_cpu t) (_cpu_version t) (f (_by_request t)).
(** [self._num_cpu += d; self._cpu_version += 1] *)
Definition cpu_transition (d : Z) (t : table) : table :=
  Table (_blocks t) (_num_cpu t + d) (_cpu_version t + 1) (_by_request t).

Definition is_res (r : Residency) (l : BlockLocation) : bool := bool_decide (residency l = r).
Definition was_res (r : Residency) (o : option BlockLocation) : bool :=
  match o with Some l => is_res r l | None => false end.

(** ** Operations *)

(** [get] *)
Definition loc_of (t : table) (ref : BlockRef) : option BlockLocation := dget ref (_blocks t).

Definition num_cpu_blocks (t : table) : Z := _num_cpu t.
Definition cpu_version (t : table) : Z := _cpu_version t.

Definition mark_gpu (ref : BlockRef) (gpu : Z) (compl : bool) : M table unit :=
  let! old := gets (λ t, loc_of t ref) in
  (when was_res CPU old do modify (cpu_transition (-1))) >>
  modify (with_tblocks (dset ref (Loc GPU (Some gpu) (old ≫= cpu_slot) None compl))) >>
  modify (with_by_request (λ m,
    <[request_id ref := <[block_idx ref := ref]> (default ∅ (m !! request_id ref))]> m)).

Definition mark_complete (ref : BlockRef) : M table unit :=
  let! old := gets (λ t, loc_of t ref) in
  match old with
  | None => raise KeyError
  | Some l => modify (with_tblocks (dset ref
      (Loc (residency l) (gpu_block_id l) (cpu_slot l) (staging_slot l) true)))
  end.

Definition mark_cpu (ref : BlockRef) (slot : Z) : M table unit :=
  let! old := gets (λ t, loc_of t ref) in
  match old with
  | Some (Loc r (Some g) _ _ c) =>
      (when negb (bool_decide (r = CPU)) do modify (cpu_transition 1)) >>
      modify (with_tblocks (dset ref (Loc CPU (Some g) (Some slot) None c)))
  | _ => raise KeyError
  end.

Definition mark_staging (ref : BlockRef) (slot : Z) : M table unit :=
  let! old := gets (λ t, loc_of t ref) in
  match old with
  | Some (Loc r g (Some cs) _ c) =>
      (when bool_decide (r = CPU) do modify (cpu_transition (-1))) >>
      modify (with_tblocks (dset ref (Loc STAGING g (Some cs) (Some slot) c)))
  | _ => raise KeyError
  end.

(** [self._by_request] after removing a known block. *)
Definition drop_index (ref : BlockRef) (m : gmap string (gmap Z BlockRef))
    : gmap string (gmap Z BlockRef) :=
  match m !! request_id ref with
  | None => m
  | Some rb =>
      let rb' := delete (block_idx ref) rb in
      if decide (rb' = ∅) then delete (request_id ref) m else <[request_id ref := rb']> m
  end.

Definition remove_ref (ref : BlockRef) : M table (option BlockLocation) :=
  let! old := gets (λ t, loc_of t ref) in
  modify (with_tblocks (dpop ref)) >>
  match old with
  | None => ret None
  | Some l =>
      modify (with_by_request (drop_index ref)) >>
      (when is_res CPU l do modify (cpu_transition (-1))) >>
      ret (Some l)
  end.

Definition all_gpu_blocks (complete_only : bool) (t : table) : list BlockRef :=
  (filter (λ e, is_res GPU e.2 && (complete e.2 || negb complete_only) = true) (_blocks t)).*1.

Definition refs_for_request (t : table) (req : string) : list BlockRef :=
  match _by_request t !! req with
  | None => []
  | Some rb => omap (λ i, rb !! i) (merge_sort Z.le (elements (dom rb)))
  end.

(** ** The invariant *)

(** What a location of each residency carries. *)
Definition loc_ok (l : BlockLocation) : Prop :=
  is_Some (gpu_block_id l) ∧
  (residency l ≠ GPU → is_Some (cpu_slot l)) ∧
  (residency l = STAGING ↔ is_Some (staging_slot l)).

Record table_ok (t : table) : Prop := {
  to_dict : dict_ok (_blocks t);
  to_num : _num_cpu t = dcount (is_res CPU) (_blocks t);
  to_loc : ∀ ref l, loc_of t ref = Some l → loc_ok l;
  to_index : ∀ r i ref, (_by_request t !! r ≫= λ rb, rb !! i) = Some ref ↔
               ref = mkRef r i ∧ is_Some (loc_of t ref);
  to_nonempty : ∀ r, _by_request t !! r ≠ Some ∅;
}.

(** The refs whose only copy is on the CPU. *)
Definition on_cpu (t : table) (ref : BlockRef) : Prop :=
  ∃ l, loc_of t ref = Some l ∧ residency l = CPU.

(** [moved t t']: one step of the version counter covers every change of the
    CPU set. *)
Definition moved (t t' : table) : Prop :=
  _cpu_version t ≤ _cpu_version t' ∧
  (_cpu_version t' = _cpu_version t → ∀ ref, on_cpu t' ref ↔ on_cpu t ref).

#[global] Instance moved_po : PreOrder moved.
Proof.
  split.
  - intros t. split; [lia|done].
  - intros t1 t2 t3 [H1 H2] [H3 H4]. split; [lia|]. intros He ref.
    rewrite H4, H2; [done|lia|lia].
Qed.

(** ** Replacing a known location *)

(** [t] with the location of [ref] replaced and the counters moved. *)
Definition put (ref : BlockRef) (l : BlockLocation) (d v : Z) (t : table) : table :=
  Table (dset ref l (_blocks t)) (_num_cpu t + d) (_cpu_version t + v) (_by_request t).

Definition cpu_bit (l : BlockLocation) : Z := if is_res CPU l then 1 else 0.

(** The part of [t'] every operation on [ref] leaves as in [t]. *)
Definition only (ref : BlockRef) (o : option BlockLocation) (t t' : table) : Prop :=
  ∀ r, loc_of t' r = if decide (ref = r) then o else loc_of t r.

Section Put.
Context (t : table) (ref : BlockRef) (old l : BlockLocation) (d v : Z).
Context (Hold : loc_of t ref = Some old).

Lemma put_only : only ref (Some l) t (put ref l d v t).
Proof. intros r. unfold loc_of, put. simpl. apply dget_dset. Qed.

Lemma put_dom r : is_Some (loc_of (put ref l d v t) r) ↔ is_Some (loc_of t r).
Proof. rewrite put_only. case_decide; subst; [|done]. rewrite Hold. by split; eexists. Qed.

Lemma put_keys : dkeys (_blocks (put ref l d v t)) = dkeys (_blocks t).
Proof.
  simpl. rewrite dkeys_dset. rewrite decide_True; [done|].
  apply dget_is_Some. by exists old.
Qed.

Lemma put_ok :
  table_ok t → loc_ok l → d = cpu_bit l - cpu_bit old → table_ok (put ref l d v t).
Proof.
  intros [Hd Hn Hl Hi He] Hok Hbits. split.
  - by apply dict_ok_dset.
  - simpl. rewrite dcount_dset. unfold loc_of in Hold. rewrite Hold. simpl.
    unfold cpu_bit in *. rewrite Hn, Hbits. lia.
  - intros r l'. rewrite put_only. case_decide; [|by apply Hl]. by intros [= <-].
  - intros r i r'. rewrite put_dom. apply Hi.
  - apply He.
Qed.

Lemma put_moved :
  0 ≤ v → (cpu_bit l ≠ cpu_bit old → 1 ≤ v) → moved t (put ref l d v t).
Proof.
  intros Hv Hc. split; [simpl; lia|]. simpl. intros He r. unfold on_cpu.
  rewrite put_only. case_decide; subst; [|done]. rewrite Hold.
  assert (cpu_bit l = cpu_bit old) as Hbit by (destruct (decide (cpu_bit l = cpu_bit old)); lia).
  unfold cpu_bit, is_res in Hbit. split; intros (x & [= <-] & Hx); eexists;
    (split; [reflexivity|]); repeat case_bool_decide; congruence.
Qed.
End Put.

(** ** The operations on a table that satisfies the invariant *)

Section Ops.
Context (t : table) (Hok : table_ok t).

Lemma mark_complete_run ref l :
  loc_of t ref = Some l →
  ∃ t', mark_complete ref t = (Ok tt, t') ∧ table_ok t' ∧ moved t t' ∧
        dkeys (_blocks t') = dkeys (_blocks t) ∧
        only ref (Some (Loc (residency l) (gpu_block_id l) (cpu_slot l) (staging_slot l) true)) t t'.
Proof.
  intros Hl. unfold mark_complete. run_step. rewrite Hl.
  exists (put ref (Loc (residency l) (gpu_block_id l) (cpu_slot l) (staging_slot l) true) 0 0 t).
  split. { unfold put, modify, with_tblocks. by rewrite !Z.add_0_r. }
  split_and!; [eapply put_ok; [done|done| |] |eapply put_moved; [done|lia|]| |apply put_only].
  - exact (to_loc _ Hok ref l Hl).
  - unfold cpu_bit, is_res. simpl. lia.
  - done.
  - by eapply put_keys.
Qed.

Lemma mark_cpu_run ref l slot :
  loc_of t ref = Some l →
  ∃ t', mark_cpu ref slot t = (Ok tt, t') ∧ table_ok t' ∧ moved t t' ∧
        dkeys (_blocks t') = dkeys (_blocks t) ∧
        only ref (Some (Loc CPU (gpu_block_id l) (Some slot) None (complete l))) t t'.
Proof.
  intros Hl. destruct (to_loc _ Hok ref l Hl) as ([g Hg] & _).
  set (l' := Loc CPU (gpu_block_id l) (Some slot) None (complete l)).
  set (d := if bool_decide (residency l = CPU) then 0 else 1).
  exists (put ref l' d d t). split_and!.
  - unfold mark_cpu. run_step. rewrite Hl. destruct l as [r g' cs ss c]. simpl in *. subst g' d.
    case_bool_decide; simpl; unfold bind, ret, modify, put, with_tblocks, cpu_transition; simpl;
      by rewrite ?Z.add_0_r.
  - eapply put_ok; [done|done| |unfold cpu_bit, is_res, d; simpl; by case_bool_decide].
    split_and!; simpl; [by eexists|by eexists|]. split; [done|by intros []].
  - eapply put_moved; [done|unfold d; case_bool_decide; lia|].
    unfold cpu_bit, is_res, d; simpl. case_bool_decide; lia.
  - by eapply put_keys.
  - apply put_only.
Qed.

Lemma mark_cpu_unknown ref slot :
  loc_of t ref = None → mark_cpu ref slot t = (Raise KeyError, t).
Proof. intros Hl. unfold mark_cpu. run_step. by rewrite Hl. Qed.

Lemma mark_staging_run ref l cs slot :
  loc_of t ref = Some l → cpu_slot l = Some cs →
  ∃ t', mark_staging ref slot t = (Ok tt, t') ∧ table_ok t' ∧ moved t t' ∧
        dkeys (_blocks t') = dkeys (_blocks t) ∧
        only ref (Some (Loc STAGING (gpu_block_id l) (cpu_slot l) (Some slot) (complete l))) t t'.
Proof.
  intros Hl Hcs. destruct (to_loc _ Hok ref l Hl) as (Hg & _).
  set (l' := Loc STAGING (gpu_block_id l) (cpu_slot l) (Some slot) (complete l)).
  set (d := if bool_decide (residency l = CPU) then 1 else 0).
  exists (put ref l' (-d) d t). split_and!.
  - unfold mark_staging. run_step. rewrite Hl. destruct l as [r g' cs' ss c].
    simpl in *. subst cs' d.
    case_bool_decide; simpl; unfold bind, ret, modify, put, with_tblocks, cpu_transition; simpl;
      by rewrite ?Z.add_0_r.
  - eapply put_ok; [done|done| |unfold cpu_bit, is_res, d; simpl; by case_bool_decide].
    split_and!; simpl; [done|by rewrite Hcs; eexists|]. split; [by eexists|done].
  - eapply put_moved; [done|unfold d; case_bool_decide; lia|].
    unfold cpu_bit, is_res, d; simpl. case_bool_decide; lia.
  - by eapply put_keys.
  - apply put_only.
Qed.
End Ops.

(** ** New and removed entries *)

Lemma index_insert (m : gmap string (gmap Z BlockRef)) ref r i :
  (<[request_id ref := <[block_idx ref := ref]> (default ∅ (m !! request_id ref))]> m !! r
     ≫= λ rb, rb !! i) =
  if decide (ref = mkRef r i) then Some ref else (m !! r ≫= λ rb, rb !! i).
Proof.
  rewrite lookup_insert. destruct ref as [r' i']. simpl.
  destruct (decide (r' = r)) as [->|Hr]; simpl.
  - rewrite lookup_insert. destruct (decide (i' = i)) as [->|Hi].
    + by rewrite decide_True.
    + rewrite decide_False by congruence. by destruct (m !! r).
  - by rewrite decide_False by congruence.
Qed.

Lemma index_drop (m : gmap string (gmap Z BlockRef)) ref r i :
  (drop_index ref m !! r ≫= λ rb, rb !! i) =
  if decide (ref = mkRef r i) then None else (m !! r ≫= λ rb, rb !! i).
Proof.
  unfold drop_index. destruct ref as [r' i']. simpl.
  destruct (m !! r') as [rb|] eqn:Er.
  - assert (delete i' rb !! i = if decide (i' = i) then None else rb !! i) as Hdel
      by (rewrite lookup_delete; done).
    destruct (decide (r' = r)) as [->|Hr].
    + rewrite Er. simpl. rewrite (decide_ext (mkRef r i' = mkRef r i) (i' = i)) by naive_solver.
      destruct (decide (delete i' rb = ∅)) as [Hemp|Hemp];
        [rewrite lookup_delete_eq|rewrite lookup_insert_eq]; simpl.
      * by rewrite <-Hdel, Hemp, lookup_empty.
      * done.
    + rewrite (decide_False (P:=mkRef r' i' = mkRef r i)) by congruence.
      destruct (decide (delete i' rb = ∅)); [by rewrite lookup_delete_ne|by rewrite lookup_insert_ne].
  - case_decide; [|done]. simplify_eq. by rewrite Er.
Qed.

Section Entries.
Context (t : table) (Hok : table_ok t).

Lemma mark_gpu_run ref gpu compl :
  ∃ t', mark_gpu ref gpu compl t = (Ok tt, t') ∧ table_ok t' ∧ moved t t' ∧
        dkeys (_blocks t') =
          (if decide (ref ∈ dkeys (_blocks t)) then dkeys (_blocks t)
           else dkeys (_blocks t) ++ [ref]) ∧
        only ref (Some (Loc GPU (Some gpu) (loc_of t ref ≫= cpu_slot) None compl)) t t'.
Proof.
  pose proof Hok as [Hd Hn Hl Hi He].
  set (l := Loc GPU (Some gpu) (loc_of t ref ≫= cpu_slot) None compl).
  set (d := if was_res CPU (loc_of t ref) then 1 else 0).
  set (t' := Table (dset ref l (_blocks t)) (_num_cpu t - d) (_cpu_version t + d)
               (<[request_id ref := <[block_idx ref := ref]>
                   (default ∅ (_by_request t !! request_id ref))]> (_by_request t))).
  exists t'. assert (only ref (Some l) t t') as Honly by (intros r; apply dget_dset).
  split_and!.
  - unfold mark_gpu. run_step. unfold bind, modify, ret. subst d t'.
    destruct (was_res _ _); simpl; unfold with_tblocks, with_by_request; simpl;
      rewrite ?Z.add_0_r, ?Z.sub_0_r; done.
  - split; [by apply dict_ok_dset| | | |].
    + simpl. rewrite dcount_dset, Hn. subst d. unfold loc_of, was_res, ocount.
      destruct (dget ref (_blocks t)); simpl; lia.
    + intros r l'. rewrite Honly. case_decide; [|by apply Hl]. intros [= <-].
      split_and!; [by eexists|done|]. simpl. split; [done|by intros []].
    + intros r i ref'. rewrite Honly. simpl. rewrite index_insert.
      destruct (decide (ref = mkRef r i)) as [->|Hne]; [|rewrite Hi].
      * split; [intros [= <-]; split; [done|]; rewrite decide_True by done; by eexists
               |intros [-> _]; done].
      * split; intros [-> ?]; (split; [done|]); by rewrite decide_False in *.
    + intros r. simpl. rewrite lookup_insert. case_decide; [|apply He].
      intros [=Hx]. by apply insert_non_empty in Hx.
  - split; [simpl; subst d; case_match; lia|]. simpl. intros Hv r. unfold on_cpu.
    rewrite Honly. case_decide; subst; [|done].
    assert (was_res CPU (loc_of t r) = false) as Hw by (subst d; case_match; [lia|done]).
    split; [by intros (? & [= <-] & ?)|]. intros (x & Hx & Hc). rewrite Hx in Hw.
    simpl in Hw. unfold is_res in Hw. by rewrite bool_decide_eq_false in Hw.
  - apply dkeys_dset.
  - done.
Qed.

Lemma remove_ref_run ref :
  ∃ t', remove_ref ref t = (Ok (loc_of t ref), t') ∧ table_ok t' ∧ moved t t' ∧
        _blocks t' = dpop ref (_blocks t) ∧ only ref None t t'.
Proof.
  pose proof Hok as [Hd Hn Hl Hi He].
  set (d := if was_res CPU (loc_of t ref) then 1 else 0).
  set (t' := Table (dpop ref (_blocks t)) (_num_cpu t - d) (_cpu_version t + d)
     (if loc_of t ref then drop_index ref (_by_request t) else _by_request t)).
  exists t'. assert (only ref None t t') as Honly by (intros r; by apply dget_dpop).
  split_and!.
  - unfold remove_ref. run_step. unfold bind, modify, ret. subst d t'.
    destruct (loc_of t ref) as [l|]; simpl; unfold with_tblocks, with_by_request; simpl.
    + destruct (is_res CPU l); simpl; unfold cpu_transition; simpl;
        rewrite ?Z.add_0_r, ?Z.sub_0_r; done.
    + by rewrite ?Z.add_0_r, ?Z.sub_0_r.
  - split; [by apply dict_ok_dpop| | | |].
    + simpl. rewrite dcount_dpop, Hn. subst d. unfold loc_of, was_res, ocount.
      destruct (dget ref (_blocks t)); simpl; lia.
    + intros r l'. rewrite Honly. case_decide; [done|by apply Hl].
    + intros r i ref'. rewrite Honly. simpl.
      assert ((if loc_of t ref then drop_index ref (_by_request t) else _by_request t) !! r
                ≫= (λ rb, rb !! i)
              = (if decide (ref = mkRef r i) then None
                 else _by_request t !! r ≫= λ rb, rb !! i)) as ->.
      { destruct (loc_of t ref) eqn:El; [apply index_drop|]. case_decide; [|done].
        apply eq_None_not_Some. intros [x [-> Hx]%Hi]. subst. rewrite El in Hx. by destruct Hx. }
      destruct (decide (ref = mkRef r i)) as [->|Hne].
      * split; [done|]. intros [-> Hx]. rewrite decide_True in Hx by done. by destruct Hx.
      * rewrite Hi. split; intros [-> ?]; (split; [done|]); by rewrite decide_False in *.
    + intros r. simpl. destruct (loc_of t ref); [|apply He]. unfold drop_index.
      destruct (_by_request t !! request_id ref); [|apply He].
      case_decide as Hemp; [rewrite lookup_delete|rewrite lookup_insert];
        case_decide; try apply He; [done|]. by intros [=].
  - split; [simpl; subst d; case_match; lia|]. simpl. intros Hv r. unfold on_cpu.
    rewrite Honly. case_decide; subst; [|done].
    assert (was_res CPU (loc_of t r) = false) as Hw by (subst d; case_match; [lia|done]).
    split; [by intros (? & ? & ?)|]. intros (x & Hx & Hc). rewrite Hx in Hw.
    simpl in Hw. unfold is_res in Hw. by rewrite bool_decide_eq_false in Hw.
  - done.
  - done.
Qed.
End Entries.

Lemma table_init_ok : table_ok table_init.
Proof.
  split; try done.
  - constructor.
  - intros r i ref. simpl. rewrite lookup_empty. split; [done|]. intros [_ [? ?]]. done.
Qed.

(** ** Reachable tables: any call with any arguments, raising or not *)
Inductive table_call (t t' : table) : Prop :=
  | call_mark_gpu ref g c r : mark_gpu ref g c t = (r, t') → table_call t t'
  | call_mark_complete ref r : mark_complete ref t = (r, t') → table_call t t'
  | call_mark_cpu ref s r : mark_cpu ref s t = (r, t') → table_call t t'
  | call_mark_staging ref s r : mark_staging ref s t = (r, t') → table_call t t'
  | call_remove ref r : remove_ref ref t = (r, t') → table_call t t'.

(** [calls t t'] : [t'] follows from [t] by a sequence of calls. *)
Definition calls : table → table → Prop := rtc table_call.

Lemma table_call_ok t t' : table_ok t → table_call t t' → table_ok t' ∧ moved t t'.
Proof.
  intros Hok. assert (moved t t) as Hmov by reflexivity. intros [ref g c r H|ref r H|ref s r H|ref s r H|ref r H].
  - destruct (mark_gpu_run t Hok ref g c) as (x & Hx & ? & ? & _). rewrite H in Hx. by simplify_eq.
  - destruct (loc_of t ref) as [l|] eqn:El.
    + destruct (mark_complete_run t Hok ref l El) as (x & Hx & ? & ? & _).
      rewrite H in Hx. by simplify_eq.
    + unfold mark_complete, bind, gets in H. rewrite El in H. injection H as <- <-. by split.
  - destruct (loc_of t ref) as [l|] eqn:El.
    + destruct (mark_cpu_run t Hok ref l s El) as (x & Hx & ? & ? & _).
      rewrite H in Hx. by simplify_eq.
    + rewrite (mark_cpu_unknown t ref s El) in H. injection H as <- <-. by split.
  - destruct (loc_of t ref) as [l|] eqn:El; [destruct (cpu_slot l) as [cs|] eqn:Ec|].
    + destruct (mark_staging_run t Hok ref l cs s El Ec) as (x & Hx & ? & ? & _).
      rewrite H in Hx. by simplify_eq.
    + unfold mark_staging, bind, gets in H. rewrite El in H.
      destruct l as [? ? [?|] ? ?]; [done|]. injection H as <- <-. by split.
    + unfold mark_staging, bind, gets in H. rewrite El in H. injection H as <- <-. by split.
  - destruct (remove_ref_run t Hok ref) as (x & Hx & ? & ? & _). rewrite H in Hx. by simplify_eq.
Qed.

Lemma calls_ok_moved t t' : table_ok t → calls t t' → table_ok t' ∧ moved t t'.
Proof.
  intros Hok. induction 1 as [t|t t1 t' Hc _ IH]; [by split|].
  destruct (table_call_ok t t1 Hok Hc) as [Hok1 Hm]. destruct (IH Hok1) as [? ?].
  split; [done|]. by etrans.
Qed.

(** Sorting the block indices of a request. *)
Lemma all_gpu_blocks_spec t complete_only :
  table_ok t →
  all_gpu_blocks complete_only t `sublist_of` dkeys (_blocks t) ∧
  NoDup (all_gpu_blocks complete_only t) ∧
  ∀ ref, ref ∈ all_gpu_blocks complete_only t ↔
    ∃ l, loc_of t ref = Some l ∧ residency l = GPU ∧ (complete_only = true → complete l = true).
Proof.
  intros Hok. pose proof (to_dict _ Hok) as Hd.
  assert (all_gpu_blocks complete_only t `sublist_of` dkeys (_blocks t)) as Hsub.
  { unfold all_gpu_blocks, dkeys. generalize (_blocks t). clear.
    induction l as [|[k v] l IH]; [done|]. rewrite filter_cons. csimpl.
    case_decide; csimpl; [by apply sublist_skip|by apply sublist_cons]. }
  split; [done|]. split; [by eapply sublist_NoDup|].
  intros ref. unfold all_gpu_blocks, is_res. rewrite list_elem_of_fmap. split.
  - intros ([k v] & -> & [Hf Hin]%list_elem_of_filter). simpl in *. exists v.
    apply andb_prop in Hf as [Hg%bool_decide_eq_true Hc].
    split; [by apply dget_elem_of|]. split; [done|]. intros ->.
    by rewrite orb_false_r in Hc.
  - intros (l & Hl & Hg & Hc). exists (ref, l). split; [done|].
    apply list_elem_of_filter. simpl. rewrite bool_decide_eq_true_2 by done.
    split; [|by apply dget_elem_of]. destruct complete_only; [|by rewrite orb_true_r].
    by rewrite Hc.
Qed.

Lemma refs_for_request_spec t req :
  table_ok t →
  ∃ idx, refs_for_request t req = mkRef req <$> idx ∧ StronglySorted Z.lt idx ∧
         ∀ i, i ∈ idx ↔ is_Some (loc_of t (mkRef req i)).
Proof.
  intros [_ _ _ Hi He]. unfold refs_for_request.
  destruct (_by_request t !! req) as [rb|] eqn:Er.
  - assert (∀ i x, rb !! i = Some x ↔ x = mkRef req i ∧ is_Some (loc_of t x)) as Hrb.
    { intros i x. rewrite <-Hi, Er. done. }
    exists (merge_sort Z.le (elements (dom rb))).
    assert (merge_sort Z.le (elements (dom rb)) ≡ₚ elements (dom rb)) as Hp
      by apply merge_sort_Permutation.
    assert (∀ i, i ∈ merge_sort Z.le (elements (dom rb)) ↔ is_Some (rb !! i)) as Hin
      by (intros i; rewrite Hp, elem_of_elements; apply elem_of_dom).
    split_and!.
    + assert (∀ l : list Z, (∀ i, i ∈ l → is_Some (rb !! i)) → omap (λ i, rb !! i) l = mkRef req <$> l)
        as Homap; [|apply Homap; intros i; apply Hin].
      induction l as [|i l IH]; intros Hl; [done|]. csimpl.
      destruct (Hl i) as [x Hx]; [set_solver|]. rewrite Hx.
      apply Hrb in Hx as [-> _]. f_equal. apply IH. set_solver.
    + assert (StronglySorted Z.le (merge_sort Z.le (elements (dom rb)))) as Hs
        by (apply StronglySorted_merge_sort; [apply _..]).
      assert (NoDup (merge_sort Z.le (elements (dom rb)))) as Hnd
        by (rewrite Hp; apply NoDup_elements).
      revert Hs Hnd. generalize (merge_sort Z.le (elements (dom rb))) as l. clear.
      induction 1 as [|i l Hl IH Hi]; [constructor|]. intros [Hni Hnd]%NoDup_cons.
      constructor; [by apply IH|]. rewrite Forall_forall in Hi |- *. intros j Hj.
      assert (i ≠ j) by (by intros ->). specialize (Hi j Hj). lia.
    + intros i. rewrite Hin. split.
      * intros [x [-> Hx]%Hrb]. done.
      * intros Hx. exists (mkRef req i). by apply Hrb.
  - exists []. split; [done|]. split; [constructor|]. intros i. split; [set_solver|].
    intros Hx. assert ((_by_request t !! req ≫= λ rb, rb !! i) = Some (mkRef req i)) as Hs
      by (by apply Hi). by rewrite Er in Hs.
Qed.

(** After any sequence of calls, the two derived indexes agree with the
    table itself: [num_cpu_blocks] is the number of CPU-only blocks,
    [refs_for_request] lists exactly the known blocks of the request in
    increasing block order, and every location carries the slots its residency
    needs (a CPU or staged block always has a CPU slot, and exactly the staged
    ones have a staging slot). *)
Theorem residency_indexes_agree t req :
  calls table_init t →
  num_cpu_blocks t = dcount (is_res CPU) (_blocks t) ∧
  (∃ idx, refs_for_request t req = mkRef req <$> idx ∧ StronglySorted Z.lt idx ∧
          ∀ i, i ∈ idx ↔ is_Some (loc_of t (mkRef req i))) ∧
  (∀ ref l, loc_of t ref = Some l → loc_ok l).
Proof.
  intros [Hok _]%calls_ok_moved; [|apply table_init_ok].
  split; [by apply to_num|]. split; [by apply refs_for_request_spec|by apply to_loc].
Qed.

(** [cpu_version] detects every change of the CPU set: if it has the same
    value before and after any sequence of calls, exactly the same blocks are
    CPU-only at both ends, so a consumer that compares the counter may skip its
    discovery pass. *)
Theorem cpu_version_detects_changes t t' :
  calls table_init t → calls t t' → cpu_version t' = cpu_version t →
  ∀ ref, on_cpu t' ref ↔ on_cpu t ref.
Proof.
  intros [Hok _]%calls_ok_moved Hc; [|apply table_init_ok].
  by destruct (calls_ok_moved t t' Hok Hc) as [_ [_ ?]].
Qed.

(** [all_gpu_blocks] lists, each once and in the order they were first
    marked, exactly the blocks resident on the GPU (and complete, unless the
    caller asks for incomplete ones too). *)
Theorem all_gpu_blocks_exact t complete_only :
  calls table_init t →
  all_gpu_blocks complete_only t `sublist_of` dkeys (_blocks t) ∧
  NoDup (all_gpu_blocks complete_only t) ∧
  ∀ ref, ref ∈ all_gpu_blocks complete_only t ↔
    ∃ l, loc_of t ref = Some l ∧ residency l = GPU ∧ (complete_only = true → complete l = true).
Proof.
  intros [Hok _]%calls_ok_moved; [|apply table_init_ok]. by apply all_gpu_blocks_spec.
Qed.

(** *** Witnesses *)
Definition demo_ref (i : Z) : BlockRef := mkRef "r" i.
Definition demo_table1 : table := (mark_gpu (demo_ref 1) 7 true table_init).2.
Definition demo_table2 : table := (mark_cpu (demo_ref 1) 3 demo_table1).2.
Definition demo_table3 : table := (mark_gpu (demo_ref 0) 5 false demo_table2).2.

Lemma demo_table2_calls : calls table_init demo_table2.
Proof.
  eapply rtc_l; [|eapply rtc_l; [|apply rtc_refl]].
  - eapply call_mark_gpu, (surjective_pairing (mark_gpu (demo_ref 1) 7 true table_init)).
  - eapply call_mark_cpu, (surjective_pairing (mark_cpu (demo_ref 1) 3 demo_table1)).
Qed.
Lemma demo_table23_calls : calls demo_table2 demo_table3.
Proof.
  apply rtc_once.
  eapply call_mark_gpu, (surjective_pairing (mark_gpu (demo_ref 0) 5 false demo_table2)).
Qed.

Lemma residency_indexes_agree_witness :
  num_cpu_blocks demo_table2 = dcount (is_res CPU) (_blocks demo_table2).
Proof. exact (proj1 (residency_indexes_agree demo_table2 "r" demo_table2_calls)). Defined.

Lemma cpu_version_detects_changes_witness :
  on_cpu demo_table3 (demo_ref 1) ↔ on_cpu demo_table2 (demo_ref 1).
Proof.
  apply (cpu_version_detects_changes demo_table2 demo_table3);
    [exact demo_table2_calls|exact demo_table23_calls|by vm_compute].
Defined.

Lemma all_gpu_blocks_exact_witness : NoDup (all_gpu_blocks true demo_table2).
Proof. exact (proj1 (proj2 (all_gpu_blocks_exact demo_table2 true demo_table2_calls))). Defined.
