(* ===== verification/Scoring.v ===== *)
(** * Block scorers

    Models offload_package/scoring: the abstract class [BlockScorer] (base.py)
    and its three implementations [PagedEvictionScorer] (paged_eviction.py),
    [LRUScorer] (lru_scorer.py) and [RandomScorer] (random_scorer.py).  The
    abstract class is the class [BlockScorer]; what the offload manager and the
    staging pool rely on is the class [LawfulScorer], which the
    implementations discharge.  Score dicts are only read by key and are finite
    maps.  The float32 tensor arithmetic of torch and the generator of Python's
    [random] are parameters. *)

From S2P Require Import Prelude PyData Float Residency.
From stdpp Require Import base gmap sets list strings.
From Stdlib Require Import ZArith Lia.
Open Scope Z_scope.

(** ** Data *)

(** Rows of per-head norms, one row per block. *)
Record BlockKVStats := Stats {
  v_norm : list (list f64);
  k_norm : list (list f64);
  block_ids : list BlockRef;
}.

(** The float32 operations of torch the scorer uses. *)
Record torch_ops := Torch {
  t_add : f64 → f64 → f64;
  t_div : f64 → f64 → f64;
  t_mean : list f64 → f64;
  t_min : list f64 → f64;
  (** [x.float().norm(dim=-1)] of one row of cache elements *)
  t_norm : list Z → f64;
}.

(** ** The abstract class *)
Class BlockScorer (S : Type) := {
  update : BlockKVStats → M S unit;
  scores : list BlockRef → M S (list score);
  select_for_eviction : list BlockRef → Z → M S (list BlockRef);
  forget : list BlockRef → M S unit;
  reset : M S unit;
  (** [getattr(scorer, "note_usage", None)] *)
  note_usage : option (string → list Z → M S unit);
}.

(** What the clients of a scorer rely on.  [scorer_ok]: the scorer was built by
    its constructor; [scored s ref]: [ref] has been registered by [update]. *)
Class LawfulScorer (S : Type) `{BlockScorer S} := {
  scorer_ok : S → Prop;
  scored : S → BlockRef → Prop;
  (** [update] registers the blocks of its statistics. *)
  update_law st s :
    scorer_ok s → length (v_norm st) = length (block_ids st) →
    length (k_norm st) = length (block_ids st) →
    ∃ s', update st s = (Ok tt, s') ∧ scorer_ok s' ∧
      ∀ ref, scored s' ref ↔ scored s ref ∨ ref ∈ block_ids st;
  (** Updating with two batches at once is updating with one after the other. *)
  update_app v1 v2 k1 k2 b1 b2 s :
    length v1 = length b1 → length k1 = length b1 →
    update (Stats (v1 ++ v2) (k1 ++ k2) (b1 ++ b2)) s =
    bind (update (Stats v1 k1 b1)) (λ _, update (Stats v2 k2 b2)) s;
  (** Selecting among scored blocks with a budget in range succeeds and returns
      that many of the given blocks. *)
  select_law ids budget s :
    (∀ ref, ref ∈ ids → scored s ref) → 0 ≤ budget ≤ zlen ids →
    ∃ ev s', select_for_eviction ids budget s = (Ok ev, s') ∧
      zlen ev = zlen ids - budget ∧ (∃ rest, ids ≡ₚ ev ++ rest) ∧
      (scorer_ok s → scorer_ok s') ∧ (∀ ref, scored s' ref ↔ scored s ref);
  (** [scores] answers every block and registers none. *)
  scores_law ids s :
    ∃ sc s', scores ids s = (Ok sc, s') ∧ length sc = length ids ∧
      (scorer_ok s → scorer_ok s') ∧ (∀ ref, scored s' ref ↔ scored s ref);
  forget_law ids s :
    ∃ s', forget ids s = (Ok tt, s') ∧ (scorer_ok s → scorer_ok s') ∧
      ∀ ref, scored s' ref ↔ scored s ref ∧ ref ∉ ids;
  (** Recording usage forgets no block. *)
  note_law f req idxs s :
    note_usage = Some f →
    ∃ s', f req idxs s = (Ok tt, s') ∧ (scorer_ok s → scorer_ok s') ∧
      ∀ ref, scored s ref → scored s' ref;
}.

(** [[block_ids[i] for i in order]] *)
Definition pick (ids : list BlockRef) (order : list nat) : list BlockRef :=
  omap (λ i, ids !! i) order.

(** ** PagedEvictionScorer *)
Record PagedEvictionScorer := Paged {
  decay : f64;
  head_reduction : string;
  eps : f64;
  _scores : gmap BlockRef f64;
}.

Definition with_scores (f : gmap BlockRef f64 → gmap BlockRef f64)
    (s : PagedEvictionScorer) : PagedEvictionScorer :=
  Paged (decay s) (head_reduction s) (eps s) (f (_scores s)).

Definition paged_init (d : f64) (hr : string) (e : f64) : result PagedEvictionScorer :=
  if negb ((0 <=? d) && (d <=? f64_one)) then Raise ValueError
  else if negb (bool_decide (hr = "mean" ∨ hr = "min")%string) then Raise ValueError
  else Ok (Paged d hr e ∅).

Definition compute_block_scores (T : torch_ops) (stats : BlockKVStats)
    (hr : string) (e : f64) : result (list f64) :=
  let ratio := zip_with (λ v k, zip_with (λ x y, t_div T x (t_add T y e)) v k)
                 (v_norm stats) (k_norm stats) in
  if bool_decide (hr = "mean"%string) then Ok (t_mean T <$> ratio)
  else if bool_decide (hr = "min"%string) then Ok (t_min T <$> ratio)
  else Raise ValueError.

(** The new score of a block from the old one and the new observation. *)
Definition blend (d new : f64) (old : option f64) : f64 :=
  match old with
  | None => new
  | Some o => fadd (fmul d new) (fmul (fsub f64_one d) o)
  end.

Definition paged_update (T : torch_ops) (stats : BlockKVStats) : M PagedEvictionScorer unit :=
  let! s := gets (λ s, s) in
  let! new_scores := lift (compute_block_scores T stats (head_reduction s) (eps s)) in
  mfor (zip (block_ids stats) new_scores) (λ e,
    modify (with_scores (λ m, <[e.1 := blend (decay s) e.2 (m !! e.1)]> m))).

Definition paged_score (m : gmap BlockRef f64) (ref : BlockRef) : score :=
  match m !! ref with Some x => Fin (to_f32 x) | None => NegInf end.

Definition paged_scores (ids : list BlockRef) (s : PagedEvictionScorer) : list score :=
  paged_score (_scores s) <$> ids.

Definition paged_select (ids : list BlockRef) (budget : Z)
    (s : PagedEvictionScorer) : result (list BlockRef) :=
  if budget <? 0 then Raise ValueError
  else if zlen ids <=? budget then Ok []
  else if negb (forallb (λ r, bool_decide (is_Some (_scores s !! r))) ids)
  then Raise AssertionError
  else
    let sc := paged_scores ids s in
    let count := zlen ids - budget in
    let order := argsort score_leb sc in
    Ok (pick ids (py_take order count)).

Definition paged_forget (ids : list BlockRef) : M PagedEvictionScorer unit :=
  mfor ids (λ r, modify (with_scores (delete r))).

Definition paged_reset : M PagedEvictionScorer unit := modify (with_scores (λ _, ∅)).

(** ** LRUScorer *)
Record LRUScorer := Lru {
  _last_used : gmap BlockRef Z;
  _clock : Z;
}.

Definition lru_init : LRUScorer := Lru ∅ 0.

Definition lru_note_usage (req : string) (idxs : list Z) : M LRUScorer unit :=
  modify (λ s, Lru (_last_used s) (_clock s + 1)) >>
  mfor idxs (λ i, modify (λ s, Lru (<[mkRef req i := _clock s]> (_last_used s)) (_clock s))).

Definition lru_update (stats : BlockKVStats) : M LRUScorer unit :=
  mfor (block_ids stats) (λ r,
    modify (λ s, if decide (is_Some (_last_used s !! r)) then s
                 else Lru (<[r := 0]> (_last_used s)) (_clock s))).

Definition lru_score (m : gmap BlockRef Z) (ref : BlockRef) : score :=
  Fin (to_f32 (f64_of_int (default 0 (m !! ref)))).

Definition lru_scores (ids : list BlockRef) (s : LRUScorer) : list score :=
  lru_score (_last_used s) <$> ids.

Definition lru_select (ids : list BlockRef) (budget : Z) (s : LRUScorer)
    : result (list BlockRef) :=
  if budget <? 0 then Raise ValueError
  else if zlen ids <=? budget then Ok []
  else if negb (forallb (λ r, bool_decide (is_Some (_last_used s !! r))) ids)
  then Raise AssertionError
  else
    let sc := lru_scores ids s in
    let count := zlen ids - budget in
    let order := argsort score_leb sc in
    Ok (pick ids (py_take order count)).

Definition lru_forget (ids : list BlockRef) : M LRUScorer unit :=
  mfor ids (λ r, modify (λ s, Lru (delete r (_last_used s)) (_clock s))).

Definition lru_reset : M LRUScorer unit := modify (λ s, Lru ∅ (_clock s)).

(** ** RandomScorer *)

(** [random.Random]: its states, the next [random()] and seeding. *)
Record rng_ops (G : Type) := Rng {
  rng_random : G → f64 * G;
  rng_seed : Z → G;
}.
Arguments rng_random {G}.
Arguments rng_seed {G}.

Record RandomScorer (G : Type) := Random {
  _seed : Z;
  _rng : G;
  _rscores : gmap BlockRef f64;
}.
Arguments Random {G}.
Arguments _seed {G}.
Arguments _rng {G}.
Arguments _rscores {G}.

Section RandomOps.
Context {G : Type} (R : rng_ops G).

Definition random_init (seed : Z) : RandomScorer G := Random seed (rng_seed R seed) ∅.

Definition draw : M (RandomScorer G) f64 := λ s,
  let '(x, g) := rng_random R (_rng s) in (Ok x, Random (_seed s) g (_rscores s)).

Definition random_update (stats : BlockKVStats) : M (RandomScorer G) unit :=
  mfor (block_ids stats) (λ r,
    let! x := draw in
    modify (λ s, Random (_seed s) (_rng s) (<[r := x]> (_rscores s)))).

(** [self._scores.get(b, self._rng.random())]: the default is drawn even when
    the block is known. *)
Definition random_get (ref : BlockRef) : M (RandomScorer G) f64 :=
  let! x := draw in
  gets (λ s, default x (_rscores s !! ref)).

Definition random_scores (ids : list BlockRef) : M (RandomScorer G) (list score) :=
  let! xs := mmap random_get ids in
  ret ((λ x, Fin (to_f32 x)) <$> xs).

Definition random_select (ids : list BlockRef) (budget : Z)
    : M (RandomScorer G) (list BlockRef) :=
  let! xs := mmap random_get ids in
  ret (py_take (pick ids (argsort Z.leb xs)) (zlen ids - budget)).

Definition random_forget (ids : list BlockRef) : M (RandomScorer G) unit :=
  mfor ids (λ r, modify (λ s, Random (_seed s) (_rng s) (delete r (_rscores s)))).

Definition random_reset : M (RandomScorer G) unit :=
  modify (λ s, Random (_seed s) (rng_seed R (_seed s)) ∅).
End RandomOps.

(** ** The instances *)
Definition paged_scorer (T : torch_ops) : BlockScorer PagedEvictionScorer := {|
  update := paged_update T;
  scores ids := gets (paged_scores ids);
  select_for_eviction ids b := λ s, (paged_select ids b s, s);
  forget := paged_forget;
  reset := paged_reset;
  note_usage := None;
|}.

Definition lru_scorer : BlockScorer LRUScorer := {|
  update := lru_update;
  scores ids := gets (lru_scores ids);
  select_for_eviction ids b := λ s, (lru_select ids b s, s);
  forget := lru_forget;
  reset := lru_reset;
  note_usage := Some lru_note_usage;
|}.

Definition random_scorer {G} (R : rng_ops G) : BlockScorer (RandomScorer G) := {|
  update := random_update R;
  scores := random_scores R;
  select_for_eviction := random_select R;
  forget := random_forget;
  reset := random_reset R;
  note_usage := None;
|}.

(** ** Selecting the lowest scores *)
Section Select.
Context {A : Type} (leb : A → A → bool).
Context (leb_total : ∀ x y, leb x y = true ∨ leb y x = true).
Context (leb_trans : ∀ x y z, leb x y = true → leb y z = true → leb x z = true).
Implicit Types (ids : list BlockRef) (sc : list A).

Lemma pick_S r ids o : pick (r :: ids) (S <$> o) = pick ids o.
Proof.
  unfold pick. induction o as [|i o IH]; [done|]. csimpl. rewrite IH. done.
Qed.

Lemma pick_seq ids : pick ids (seq 0 (length ids)) = ids.
Proof.
  induction ids as [|r ids IH]; [done|]. simpl. unfold pick. simpl. f_equal.
  rewrite <-fmap_S_seq. fold (pick (r :: ids) (S <$> seq 0 (length ids))).
  by rewrite pick_S.
Qed.

Lemma pick_app ids o o' : pick ids (o ++ o') = pick ids o ++ pick ids o'.
Proof. apply omap_app. Qed.

Lemma pick_argsort ids sc : length sc = length ids → pick ids (argsort leb sc) ≡ₚ ids.
Proof.
  intros Hl. rewrite <-(pick_seq ids) at 2. unfold pick.
  by rewrite argsort_Permutation, Hl.
Qed.

Lemma pick_length ids o : Forall (λ i, (i < length ids)%nat) o → length (pick ids o) = length o.
Proof.
  unfold pick. induction 1 as [|i o Hi _ IH]; [done|]. simpl.
  destruct (lookup_lt_is_Some_2 ids i Hi) as [r ->]. simpl. by f_equal.
Qed.

Lemma argsort_bounded sc : Forall (λ i, (i < length sc)%nat) (argsort leb sc).
Proof. rewrite argsort_Permutation. apply Forall_seq. lia. Qed.

(** The first [k] positions in score order split the blocks. *)
Lemma pick_take ids sc k :
  length sc = length ids → (k ≤ length ids)%nat →
  length (pick ids (take k (argsort leb sc))) = k ∧
  ids ≡ₚ pick ids (take k (argsort leb sc)) ++ pick ids (drop k (argsort leb sc)).
Proof.
  intros Hl Hk. split.
  - rewrite pick_length.
    + rewrite length_take, argsort_length. lia.
    + apply Forall_take. rewrite <-Hl. apply argsort_bounded.
  - rewrite <-pick_app, take_drop. symmetry. by apply pick_argsort.
Qed.

Lemma elem_of_pick ids o r : r ∈ pick ids o ↔ ∃ i, i ∈ o ∧ ids !! i = Some r.
Proof. unfold pick. rewrite list_elem_of_omap. naive_solver. Qed.

(** Every taken block scores at most as high as every block left, and a tie is
    decided by position. *)
Lemma pick_take_lowest ids (f : BlockRef → A) k x y :
  x ∈ pick ids (take k (argsort leb (f <$> ids))) →
  y ∈ pick ids (drop k (argsort leb (f <$> ids))) →
  leb (f x) (f y) = true ∧
  (leb (f y) (f x) = true → ∃ i j, (i < j)%nat ∧ ids !! i = Some x ∧ ids !! j = Some y).
Proof.
  rewrite !elem_of_pick. intros (i & (p & Hp)%list_elem_of_lookup & Hx) (j & (q & Hq)%list_elem_of_lookup & Hy).
  apply lookup_take_Some in Hp as [Hp Hpk]. rewrite lookup_drop in Hq.
  destruct (argsort_ordered leb leb_total leb_trans (f <$> ids) p (k + q) i j (f x) (f y))
    as [Hle Htie]; [done|done|lia|by rewrite list_lookup_fmap, Hx|by rewrite list_lookup_fmap, Hy|].
  split; [done|]. intros Hyx. exists i, j. split; [by apply Htie|done].
Qed.
End Select.

Lemma mfor_modify_run {S A} (f : A → S → S) (l : list A) (s : S) :
  mfor l (λ x, modify (f x)) s = (Ok tt, foldl (λ s x, f x s) s l).
Proof. revert s. induction l as [|x l IH]; intros s; [done|]. apply IH. Qed.

(** Python's [order[:count]] before the lookups, or [[:count]] after them. *)
Lemma pick_take_comm ids o k :
  Forall (λ i, (i < length ids)%nat) o → (k ≤ length o)%nat →
  take k (pick ids o) = pick ids (take k o).
Proof.
  intros Ho Hk. rewrite <-(take_drop k o) at 1. rewrite pick_app.
  rewrite take_app_length'; [done|]. rewrite pick_length by by apply Forall_take.
  rewrite length_take. lia.
Qed.

(** The outcome of both deterministic scorers' [select_for_eviction]: the
    [len - budget] lowest scores, or the branch that applies. *)
Definition select_spec (f : BlockRef → score) (known : BlockRef → Prop)
    (ids : list BlockRef) (budget : Z) (r : result (list BlockRef)) : Prop :=
  (budget < 0 → r = Raise ValueError) ∧
  (zlen ids ≤ budget → 0 ≤ budget → r = Ok []) ∧
  (0 ≤ budget < zlen ids → ¬ Forall known ids → r = Raise AssertionError) ∧
  (0 ≤ budget < zlen ids → Forall known ids →
   ∃ ev rest, r = Ok ev ∧ zlen ev = zlen ids - budget ∧ ids ≡ₚ ev ++ rest ∧
     ∀ x y, x ∈ ev → y ∈ rest → score_leb (f x) (f y) = true ∧
       (score_leb (f y) (f x) = true →
          ∃ i j, (i < j)%nat ∧ ids !! i = Some x ∧ ids !! j = Some y)).

Lemma select_by_score f (known : BlockRef → Prop) `{∀ r, Decision (known r)} ids budget :
  select_spec f known ids budget
    (if budget <? 0 then Raise ValueError
     else if zlen ids <=? budget then Ok []
     else if negb (forallb (λ r, bool_decide (known r)) ids) then Raise AssertionError
     else Ok (pick ids (py_take (argsort score_leb (f <$> ids)) (zlen ids - budget)))).
Proof.
  assert (forallb (λ r, bool_decide (known r)) ids = true ↔ Forall known ids) as Hall.
  { rewrite forallb_forall, Forall_forall. setoid_rewrite list_elem_of_In.
    split; intros Hk x Hx; [by eapply bool_decide_eq_true, Hk|by apply bool_decide_eq_true, Hk]. }
  unfold select_spec. destruct (budget <? 0) eqn:E1; [split_and!; done || lia|].
  destruct (zlen ids <=? budget) eqn:E2; [split_and!; done || lia|].
  split_and!; try lia.
  - intros _ Hn. rewrite <-Hall in Hn. by apply not_true_is_false in Hn as ->.
  - intros Hb ->%Hall. simpl. set (k := Z.to_nat (zlen ids - budget)).
    destruct (pick_take score_leb ids (f <$> ids) k) as [Hlen Hperm];
      [by rewrite length_fmap|unfold zlen in *; lia|].
    exists (pick ids (take k (argsort score_leb (f <$> ids)))),
           (pick ids (drop k (argsort score_leb (f <$> ids)))).
    rewrite py_take_nonneg by lia. split; [done|].
    split; [unfold zlen in *; rewrite Hlen; lia|]. split; [done|].
    intros x y. apply pick_take_lowest; [apply score_leb_total|apply score_leb_trans].
Qed.

Lemma paged_select_spec ids budget s :
  select_spec (paged_score (_scores s)) (λ r, is_Some (_scores s !! r)) ids budget
    (paged_select ids budget s).
Proof. apply (select_by_score _ (λ r, is_Some (_scores s !! r))). Qed.

Lemma lru_select_spec ids budget s :
  select_spec (lru_score (_last_used s)) (λ r, is_Some (_last_used s !! r)) ids budget
    (lru_select ids budget s).
Proof. apply (select_by_score _ (λ r, is_Some (_last_used s !! r))). Qed.

(** The interface's selection law from the exact outcome. *)
Lemma select_spec_law f (known : BlockRef → Prop) ids budget r :
  select_spec f known ids budget r → (∀ ref, ref ∈ ids → known ref) → 0 ≤ budget ≤ zlen ids →
  ∃ ev, r = Ok ev ∧ zlen ev = zlen ids - budget ∧ ∃ rest, ids ≡ₚ ev ++ rest.
Proof.
  intros (_ & Hall & _ & Hsel) Hk Hb. destruct (decide (zlen ids ≤ budget)).
  - exists []. split; [apply Hall; lia|]. split; [unfold zlen in *; simpl; lia|by exists ids].
  - destruct Hsel as (ev & rest & ? & ? & ? & _); [lia|by apply Forall_forall|].
    exists ev. split_and!; [done|done|by exists rest].
Qed.

Lemma lookup_foldl_delete {A} (ids : list BlockRef) (m : gmap BlockRef A) ref :
  is_Some (foldl (λ m r, delete r m) m ids !! ref) ↔ is_Some (m !! ref) ∧ ref ∉ ids.
Proof.
  revert m. induction ids as [|r ids IH]; intros m; simpl; [set_solver|].
  rewrite IH, lookup_delete_is_Some. set_solver.
Qed.

Lemma mfor_app {S A} (l1 l2 : list A) (f : A → M S unit) s :
  mfor (l1 ++ l2) f s = bind (mfor l1 f) (λ _, mfor l2 f) s.
Proof.
  revert s. induction l1 as [|x l1 IH]; intros s; [done|]. simpl. unfold bind at 1 2 3.
  destruct (f x s) as [[a|e] s']; [|done]. apply IH.
Qed.

Lemma zip_with_app_eq {A B C} (f : A → B → C) l1 l2 k1 k2 :
  length l1 = length k1 → zip_with f (l1 ++ l2) (k1 ++ k2) = zip_with f l1 k1 ++ zip_with f l2 k2.
Proof. intros. by apply zip_with_app. Qed.

(** *** PagedEvictionScorer is lawful *)

(** The update once the scores of the batch are known. *)
Definition paged_apply (d : f64) (l : list (BlockRef * f64)) (m : gmap BlockRef f64)
    : gmap BlockRef f64 := foldl (λ m e, <[e.1 := blend d e.2 (m !! e.1)]> m) m l.

Lemma paged_loop_run d l s :
  decay s = d →
  mfor l (λ e, modify (with_scores (λ m, <[e.1 := blend d e.2 (m !! e.1)]> m))) s =
  (Ok tt, with_scores (paged_apply d l) s).
Proof.
  intros Hd. rewrite (mfor_modify_run (λ e, with_scores (λ m, <[e.1 := blend d e.2 (m !! e.1)]> m))).
  f_equal. clear Hd. revert s. induction l as [|e l IH]; intros s; [by destruct s|].
  simpl. rewrite IH. done.
Qed.

Lemma paged_apply_dom d l m ref :
  is_Some (paged_apply d l m !! ref) ↔ is_Some (m !! ref) ∨ ref ∈ l.*1.
Proof.
  revert m. induction l as [|[r x] l IH]; intros m; csimpl; [set_solver|].
  unfold paged_apply in *. simpl. rewrite IH, lookup_insert_is_Some'. simpl. set_solver.
Qed.

Lemma paged_update_run T st s sc :
  compute_block_scores T st (head_reduction s) (eps s) = Ok sc →
  paged_update T st s = (Ok tt, with_scores (paged_apply (decay s) (zip (block_ids st) sc)) s).
Proof.
  intros Hsc. unfold paged_update. run_step. rewrite Hsc.
  erewrite bind_ok by reflexivity. by apply paged_loop_run.
Qed.

Lemma paged_update_raise T st s e :
  compute_block_scores T st (head_reduction s) (eps s) = Raise e →
  paged_update T st s = (Raise e, s).
Proof. intros Hsc. unfold paged_update. run_step. by rewrite Hsc. Qed.

Definition paged_ok (s : PagedEvictionScorer) : Prop :=
  head_reduction s = "mean"%string ∨ head_reduction s = "min"%string.

(** The per-block scores of a batch, when the reduction is known. *)
Lemma compute_block_scores_ok T st s :
  paged_ok s → length (v_norm st) = length (block_ids st) →
  length (k_norm st) = length (block_ids st) →
  ∃ sc, compute_block_scores T st (head_reduction s) (eps s) = Ok sc ∧
        length sc = length (block_ids st).
Proof.
  intros Hok Hv Hk. unfold compute_block_scores.
  destruct Hok as [-> | ->]; simpl; eexists; (split; [reflexivity|]);
    rewrite length_fmap, length_zip_with; lia.
Qed.

Lemma compute_block_scores_app T v1 v2 k1 k2 b1 b2 hr e :
  length v1 = length k1 →
  compute_block_scores T (Stats (v1 ++ v2) (k1 ++ k2) (b1 ++ b2)) hr e =
  result_bind (compute_block_scores T (Stats v1 k1 b1) hr e) (λ s1,
    result_bind (compute_block_scores T (Stats v2 k2 b2) hr e) (λ s2, Ok (s1 ++ s2))).
Proof.
  intros Hl. unfold compute_block_scores. simpl.
  rewrite zip_with_app_eq by done.
  repeat case_bool_decide; simpl; by rewrite ?fmap_app.
Qed.

#[global] Program Instance paged_lawful (T : torch_ops) :
    @LawfulScorer PagedEvictionScorer (paged_scorer T) := {|
  scorer_ok := paged_ok;
  scored s ref := is_Some (_scores s !! ref);
|}.
Next Obligation.
  intros T st s Hok Hv Hk. destruct (compute_block_scores_ok T st s Hok Hv Hk) as (sc & Hsc & Hl).
  simpl. rewrite (paged_update_run T st s sc Hsc). eexists. do 2 (split; [done|]).
  intros ref. simpl. rewrite paged_apply_dom, fst_zip by lia. done.
Qed.
Next Obligation.
  intros T v1 v2 k1 k2 b1 b2 s Hv Hk. simpl.
  pose proof (compute_block_scores_app T v1 v2 k1 k2 b1 b2 (head_reduction s) (eps s)
                ltac:(congruence)) as Happ.
  destruct (compute_block_scores T (Stats v1 k1 b1) (head_reduction s) (eps s)) as [s1|e] eqn:E1;
    simpl in Happ.
  - assert (∃ s2, compute_block_scores T (Stats v2 k2 b2) (head_reduction s) (eps s) = Ok s2)
      as [s2 E2].
    { unfold compute_block_scores in E1 |- *. repeat case_bool_decide; eauto; done. }
    rewrite E2 in Happ. simpl in Happ. rewrite (paged_update_run _ _ _ _ Happ).
    erewrite bind_ok by (apply paged_update_run; exact E1).
    rewrite (paged_update_run T (Stats v2 k2 b2) (with_scores _ s) s2 E2). simpl.
    assert (length s1 = length b1) as Hl1.
    { unfold compute_block_scores in E1. repeat case_bool_decide; simplify_eq;
        rewrite length_fmap, length_zip_with; simpl; lia. }
    rewrite zip_with_app_eq by done. unfold with_scores, paged_apply. simpl.
    by rewrite foldl_app.
  - rewrite (paged_update_raise _ _ _ _ Happ).
    erewrite bind_raise by (apply paged_update_raise; exact E1). done.
Qed.
Next Obligation.
  intros T ids budget s Hs Hb.
  destruct (select_spec_law _ _ _ _ _ (paged_select_spec ids budget s)) as (ev & Hev & ?); [done..|].
  exists ev, s. simpl. rewrite Hev. naive_solver.
Qed.
Next Obligation.
  intros T ids s. exists (paged_scores ids s), s. unfold paged_scores. by rewrite length_fmap.
Qed.
Next Obligation.
  intros T ids s. simpl. unfold paged_forget.
  rewrite (mfor_modify_run (λ r, with_scores (delete r))). eexists. split; [done|].
  assert (∀ ids s, foldl (λ s r, with_scores (delete r) s) s ids =
            with_scores (λ m, foldl (λ m r, delete r m) m ids) s) as ->.
  { intros l. induction l as [|r l IH]; intros s'; [by destruct s'|]. simpl. by rewrite IH. }
  split; [done|]. intros ref. apply lookup_foldl_delete.
Qed.
Next Obligation. done. Qed.

(** *** LRUScorer is lawful *)
Definition lru_register (r : BlockRef) (s : LRUScorer) : LRUScorer :=
  if decide (is_Some (_last_used s !! r)) then s else Lru (<[r := 0]> (_last_used s)) (_clock s).

Lemma lru_register_dom ids s ref :
  is_Some (_last_used (foldl (λ s r, lru_register r s) s ids) !! ref) ↔
  is_Some (_last_used s !! ref) ∨ ref ∈ ids.
Proof.
  revert s. induction ids as [|r ids IH]; intros s; simpl; [set_solver|].
  rewrite IH. unfold lru_register. case_decide as Hr; simpl.
  - destruct (decide (ref = r)); subst; set_solver.
  - rewrite lookup_insert_is_Some'. set_solver.
Qed.

Lemma lru_note_run req idxs s :
  ∃ m, lru_note_usage req idxs s = (Ok tt, Lru m (_clock s + 1)) ∧
    ∀ ref, m !! ref = (if decide (ref ∈ mkRef req <$> idxs) then Some (_clock s + 1)
                       else _last_used s !! ref).
Proof.
  unfold lru_note_usage. run_step.
  assert (∀ l s0, ∃ m, mfor l (λ i, modify (λ s,
              Lru (<[mkRef req i := _clock s]> (_last_used s)) (_clock s))) s0
              = (Ok tt, Lru m (_clock s0)) ∧
            ∀ ref, m !! ref = if decide (ref ∈ mkRef req <$> l) then Some (_clock s0)
                              else _last_used s0 !! ref) as Hloop;
    [|destruct (Hloop idxs (Lru (_last_used s) (_clock s + 1))) as (m & Hm & Hl); by exists m].
  intros l. induction l as [|i l IH]; intros s0.
  { exists (_last_used s0). split; [by destruct s0|done]. }
  destruct (IH (Lru (<[mkRef req i := _clock s0]> (_last_used s0)) (_clock s0)))
    as (m & Hm & Hl). exists m. split; [exact Hm|]. intros ref. rewrite Hl. csimpl.
  destruct (decide (ref ∈ mkRef req <$> l)).
  - by rewrite decide_True by set_solver.
  - rewrite lookup_insert. destruct (decide (mkRef req i = ref)) as [<-|].
    + by rewrite decide_True by set_solver.
    + by rewrite decide_False by set_solver.
Qed.

#[global] Program Instance lru_lawful : @LawfulScorer LRUScorer lru_scorer := {|
  scorer_ok _ := True;
  scored s ref := is_Some (_last_used s !! ref);
|}.
Next Obligation.
  intros st s _ _ _. simpl. unfold lru_update. rewrite (mfor_modify_run lru_register).
  eexists. do 2 (split; [done|]). intros ref. apply lru_register_dom.
Qed.
Next Obligation. intros v1 v2 k1 k2 b1 b2 s _ _. simpl. unfold lru_update. simpl. apply mfor_app. Qed.
Next Obligation.
  intros ids budget s Hs Hb.
  destruct (select_spec_law _ _ _ _ _ (lru_select_spec ids budget s)) as (ev & Hev & ?); [done..|].
  exists ev, s. simpl. rewrite Hev. naive_solver.
Qed.
Next Obligation.
  intros ids s. exists (lru_scores ids s), s. unfold lru_scores. by rewrite length_fmap.
Qed.
Next Obligation.
  intros ids s. simpl. unfold lru_forget.
  rewrite (mfor_modify_run (λ r s, Lru (delete r (_last_used s)) (_clock s))).
  eexists. do 2 (split; [done|]).
  assert (∀ ids s, _last_used (foldl (λ s r, Lru (delete r (_last_used s)) (_clock s)) s ids) =
            foldl (λ m r, delete r m) (_last_used s) ids) as Hf.
  { intros l. induction l as [|r l IH]; intros s'; [done|]. apply IH. }
  intros ref. rewrite Hf. apply lookup_foldl_delete.
Qed.
Next Obligation.
  intros f req idxs s [= <-]. destruct (lru_note_run req idxs s) as (m & Hm & Hl).
  eexists. split; [exact Hm|]. split; [done|]. intros ref Href. simpl. rewrite Hl.
  by case_decide.
Qed.

(** *** RandomScorer is lawful *)
Section RandomLaws.
Context {G : Type} (R : rng_ops G).

Lemma random_get_all ids s :
  ∃ xs s', mmap (random_get R) ids s = (Ok xs, s') ∧ length xs = length ids ∧
           _rscores s' = _rscores s.
Proof.
  revert s. induction ids as [|r ids IH]; intros s; [by exists [], s|].
  simpl. unfold random_get at 1, draw, bind at 1 2.
  destruct (rng_random R (_rng s)) as [x g]. simpl.
  destruct (IH (Random (_seed s) g (_rscores s))) as (xs & s' & Hrun & Hlen & Hr).
  erewrite bind_ok by exact Hrun. do 2 eexists. split; [reflexivity|].
  split; [simpl; by rewrite Hlen|done].
Qed.
End RandomLaws.

Lemma random_update_dom {G} (R : rng_ops G) ids v k s :
  ∃ s', random_update R (Stats v k ids) s = (Ok tt, s') ∧
        ∀ ref, is_Some (_rscores s' !! ref) ↔ is_Some (_rscores s !! ref) ∨ ref ∈ ids.
Proof.
  unfold random_update. simpl. revert s. induction ids as [|r ids IH]; intros s; [exists s; set_solver|].
  simpl. unfold draw, bind at 1 2. destruct (rng_random R (_rng s)) as [x g]. simpl.
  destruct (IH (Random (_seed s) g (<[r := x]> (_rscores s)))) as (s' & Hrun & Hdom).
  exists s'. split; [exact Hrun|]. intros ref. rewrite Hdom. simpl.
  rewrite lookup_insert_is_Some'. set_solver.
Qed.

#[global] Program Instance random_lawful {G} (R : rng_ops G) :
    @LawfulScorer (RandomScorer G) (random_scorer R) := {|
  scorer_ok _ := True;
  scored s ref := is_Some (_rscores s !! ref);
|}.
Next Obligation.
  intros G R [v k ids] s _ _ _. destruct (random_update_dom R ids v k s) as (s' & Hrun & Hdom).
  exists s'. done.
Qed.
Next Obligation.
  intros G R v1 v2 k1 k2 b1 b2 s _ _. simpl. unfold random_update. simpl. apply mfor_app.
Qed.
Next Obligation.
  intros G R ids budget s _ Hb. destruct (random_get_all R ids s) as (xs & s' & Hrun & Hlen & Hr).
  destruct (pick_take Z.leb ids xs (Z.to_nat (zlen ids - budget))) as [Hl Hp];
    [done|unfold zlen in *; lia|].
  simpl. unfold random_select. erewrite bind_ok by exact Hrun. unfold ret.
  rewrite py_take_nonneg by lia. do 2 eexists. split; [reflexivity|].
  rewrite pick_take_comm;
    [|rewrite <-Hlen; apply argsort_bounded|rewrite argsort_length; unfold zlen in *; lia].
  split; [unfold zlen in *; lia|]. split; [by eexists|]. split; [done|]. by rewrite Hr.
Qed.
Next Obligation.
  intros G R ids s. destruct (random_get_all R ids s) as (xs & s' & Hrun & Hlen & Hr).
  simpl. unfold random_scores. erewrite bind_ok by exact Hrun. do 2 eexists.
  split; [reflexivity|]. by rewrite length_fmap, Hr.
Qed.
Next Obligation.
  intros G R ids s. simpl. unfold random_forget.
  rewrite (mfor_modify_run (λ r (s : RandomScorer G), Random (_seed s) (_rng s) (delete r (_rscores s)))).
  eexists. do 2 (split; [done|]).
  assert (∀ ids (s : RandomScorer G),
            _rscores (foldl (λ s r, Random (_seed s) (_rng s) (delete r (_rscores s))) s ids) =
            foldl (λ m r, delete r m) (_rscores s) ids) as Hf.
  { intros l. induction l as [|r l IH]; intros s'; [done|]. apply IH. }
  intros ref. rewrite Hf. apply lookup_foldl_delete.
Qed.
Next Obligation. done. Qed.

(** ** The properties *)

(** The score of a block last used at tick [n < 2^24] is [n] itself. *)
Lemma lru_score_exact m ref :
  0 ≤ default 0 (m !! ref) < 2 ^ 24 →
  lru_score m ref = Fin (default 0 (m !! ref) * 2 ^ 1074).
Proof.
  intros Hn. unfold lru_score.
  assert (2 ^ 24 < 2 ^ 53) by (apply Z.pow_lt_mono_r; lia).
  rewrite f64_of_int_exact, to_f32_int by lia. done.
Qed.

(** [PagedEvictionScorer.select_for_eviction] on every input: a negative
    budget raises [ValueError], nothing is evicted when everything fits, an
    unscored candidate raises [AssertionError], and otherwise exactly
    [len - budget] of the candidates are returned, none of which has a higher
    float32 score than a candidate that is kept (ties go to the earlier
    position). *)
Theorem paged_evicts_coldest ids budget s :
  select_spec (paged_score (_scores s)) (λ r, is_Some (_scores s !! r)) ids budget
    (paged_select ids budget s).
Proof. apply paged_select_spec. Qed.

(** [LRUScorer.select_for_eviction] evicts least-recently-used blocks as long
    as the clock stays below 2^24: no evicted block was used after a kept one. *)
Theorem lru_evicts_least_recent ids budget s :
  (∀ ref n, _last_used s !! ref = Some n → 0 ≤ n < 2 ^ 24) →
  (∀ ref, ref ∈ ids → is_Some (_last_used s !! ref)) → 0 ≤ budget ≤ zlen ids →
  ∃ ev rest, lru_select ids budget s = Ok ev ∧ zlen ev = zlen ids - budget ∧
    ids ≡ₚ ev ++ rest ∧
    ∀ x y n m, x ∈ ev → y ∈ rest →
      _last_used s !! x = Some n → _last_used s !! y = Some m → n ≤ m.
Proof.
  intros Htick Hk Hb. destruct (lru_select_spec ids budget s) as (_ & Hall & _ & Hsel).
  destruct (decide (zlen ids ≤ budget)) as [Hle|Hle].
  { exists [], ids. split; [apply Hall; lia|]. split; [unfold zlen in *; simpl; lia|].
    split; [done|]. set_solver. }
  destruct Hsel as (ev & rest & ? & ? & ? & Hord); [lia|by apply Forall_forall|].
  exists ev, rest. do 3 (split; [done|]). intros x y n m Hx Hy Hn Hm.
  destruct (Hord x y Hx Hy) as [Hle' _].
  rewrite !lru_score_exact in Hle' by (rewrite ?Hn, ?Hm; simpl; eauto).
  rewrite Hn, Hm in Hle'. simpl in Hle'. apply Z.leb_le in Hle'.
  pose proof (pow2_pos 1074 ltac:(lia)). nia.
Qed.

(** Two blocks used at consecutive ticks, the first of them [2^24]. *)
Definition wide_clock : LRUScorer :=
  Lru {[ mkRef "r" 0 := 2 ^ 24 + 1; mkRef "r" 1 := 2 ^ 24 ]} (2 ^ 24 + 1).

(** From tick 2^24 on, the conversion to float32 merges consecutive ticks:
    here the block used most recently is evicted and the older one is kept,
    because both score the same and position decides. *)
Theorem lru_clock_saturates :
  lru_select [mkRef "r" 0; mkRef "r" 1] 1 wide_clock = Ok [mkRef "r" 0].
Proof. by vm_compute. Qed.

(** The decay of [PagedEvictionScorer.update] at its two ends: with decay 1
    the newest observation replaces the score, with decay 0 the first
    observation is kept, for every pair of binary64 values. *)
Theorem decay_ends new old :
  f64_repr new → f64_repr old →
  blend f64_one new (Some old) = new ∧ blend 0 new (Some old) = old.
Proof.
  intros Hn Ho. unfold blend. split.
  - rewrite fmul_one_l by done. change (fsub f64_one f64_one) with 0.
    by rewrite fmul_0_l, fadd_0_r.
  - rewrite fmul_0_l. change (fsub f64_one 0) with f64_one.
    by rewrite fmul_one_l, fadd_0_l.
Qed.

(** [RandomScorer.select_for_eviction] has no budget check: asked to keep
    more blocks than there are, it takes the slice with a negative end and
    still evicts [2 * len - budget] of them, where the other scorers return
    nothing. *)
Theorem random_over_budget {G} (R : rng_ops G) ids budget s :
  zlen ids < budget ≤ 2 * zlen ids →
  ∃ ev s', random_select R ids budget s = (Ok ev, s') ∧ zlen ev = 2 * zlen ids - budget.
Proof.
  intros Hb. destruct (random_get_all R ids s) as (xs & s' & Hrun & Hlen & _).
  unfold random_select. erewrite bind_ok by exact Hrun. do 2 eexists. split; [reflexivity|].
  assert (zlen (pick ids (argsort Z.leb xs)) = zlen ids) as Hl.
  { unfold zlen. by rewrite (pick_argsort Z.leb ids xs Hlen). }
  unfold py_take. destruct (zlen ids - budget <? 0) eqn:E; [|lia]. rewrite Hl.
  unfold zlen in *. rewrite length_take. lia.
Qed.

(** *** Witnesses *)
Definition demo_lru : LRUScorer := (lru_note_usage "r" [1] (Lru {[mkRef "r" 0 := 0]} 0)).2.

Lemma lru_evicts_least_recent_witness :
  (∀ ref n, _last_used demo_lru !! ref = Some n → 0 ≤ n < 2 ^ 24) ∧
  ∃ ev rest, lru_select [mkRef "r" 1; mkRef "r" 0] 1 demo_lru = Ok ev ∧ zlen ev = 1 ∧
    [mkRef "r" 1; mkRef "r" 0] ≡ₚ ev ++ rest ∧
    ∀ x y n m, x ∈ ev → y ∈ rest →
      _last_used demo_lru !! x = Some n → _last_used demo_lru !! y = Some m → n ≤ m.
Proof.
  assert (∀ ref n, _last_used demo_lru !! ref = Some n → 0 ≤ n < 2 ^ 24) as Hticks.
  { assert (map_Forall (λ _ n, 0 ≤ n < 2 ^ 24) (_last_used demo_lru)) as H.
    { apply (bool_decide_unpack _). vm_compute. exact I. }
    exact H. }
  split; [exact Hticks|].
  apply (lru_evicts_least_recent [mkRef "r" 1; mkRef "r" 0] 1 demo_lru Hticks).
  - intros ref Hin. apply elem_of_cons in Hin as [->|Hin]; [by vm_compute; eexists|].
    apply list_elem_of_singleton in Hin as ->. by vm_compute; eexists.
  - by vm_compute.
Defined.

Lemma decay_ends_witness :
  blend f64_one (f64_lit 3 1) (Some (f64_lit 5 0)) = f64_lit 3 1 ∧
  blend 0 (f64_lit 3 1) (Some (f64_lit 5 0)) = f64_lit 5 0.
Proof. apply (decay_ends (f64_lit 3 1) (f64_lit 5 0)); by vm_compute. Defined.

(** A linear congruential generator as the random source. *)
Definition demo_rng : rng_ops Z :=
  Rng Z (λ g, (g * 2 ^ 1000, (g * 5 + 1) mod 64)) (λ s, s mod 64).

Lemma random_over_budget_witness :
  ∃ ev s', random_select demo_rng [mkRef "r" 0; mkRef "r" 1] 3 (random_init demo_rng 42)
             = (Ok ev, s') ∧ zlen ev = 2 * zlen [mkRef "r" 0; mkRef "r" 1] - 3.
Proof. apply (random_over_budget demo_rng [mkRef "r" 0; mkRef "r" 1] 3). by vm_compute. Defined.
