(* ===== verification/Pages.v ===== *)
(** * KV pages and their layouts

    The tensor reshaping the offload code does by slicing, [permute], [stack]
    and [cat] on KV pages, with a tensor as nested lists.  A GPU page is
    [H][N][2C] (heads, tokens, K and V of a token side by side); its CPU copy
    is a pair of [N][H][C] tensors, K and V.  Used by
    [KVOffloadManager._copy_gpu_to_cpu_batch] (GPU to CPU) and
    [KVStagingPool.ensure_resident] (CPU to staging page). *)

From S2P Require Import Prelude PyData.
From stdpp Require Import base list.
From Stdlib Require Import ZArith Lia.
Open Scope Z_scope.

Notation page := (list (list (list Z))) (only parsing).
Notation slab := (list (list (list Z)) * list (list (list Z)))%type (only parsing).

(** Swap the two outer dimensions. *)
Definition transpose {A} (ls : list (list A)) : list (list A) :=
  match ls with
  | [] => []
  | l :: _ => (λ j, omap (λ r, r !! j) ls) <$> seq 0 (length l)
  end.

(** [x.shape[-1] // 2] of a token row, and the two halves of the row. *)
Definition head_dim (row : list Z) : nat := length row / 2.
Definition k_half (row : list Z) : list Z := take (head_dim row) row.
Definition v_half (row : list Z) : list Z := drop (head_dim row) row.

(** Apply [f] to every token row. *)
Definition rows {A B} (f : A → B) (p : list (list A)) : list (list B) :=
  map (map f) p.

(** GPU page to CPU slab: split K/V, then [permute] heads and tokens. *)
Definition page_to_slab (p : page) : slab :=
  (transpose (rows k_half p), transpose (rows v_half p)).

(** CPU slab to GPU page: [permute] back, then [cat] on the last axis. *)
Definition slab_to_page (s : slab) : page :=
  zip_with (zip_with app) (transpose s.1) (transpose s.2).

(** [n] rows of length [m]. *)
Definition rect {A} (n m : nat) (ls : list (list A)) : Prop :=
  length ls = n ∧ Forall (λ l, length l = m) ls.

Section Transpose.
Context {A : Type}.
Implicit Types ls : list (list A).

Lemma rect_lookup n m ls i j :
  rect n m ls → (i < n)%nat → (j < m)%nat → is_Some (ls !! i ≫= λ l, l !! j).
Proof.
  intros [Hn Hm] Hi Hj. destruct (lookup_lt_is_Some_2 ls i) as [l Hl]; [lia|].
  rewrite Hl. simpl. apply lookup_lt_is_Some_2. rewrite Forall_lookup in Hm.
  by rewrite (Hm i l).
Qed.

Lemma column_lookup ls m i j :
  Forall (λ l, length l = m) ls → (j < m)%nat →
  omap (λ r, r !! j) ls !! i = (ls !! i ≫= λ l, l !! j).
Proof.
  intros Hm Hj. revert i. induction Hm as [|l ls Hl _ IH]; intros i; [done|]. csimpl.
  destruct (lookup_lt_is_Some_2 l j) as [x Hx]; [lia|]. rewrite Hx.
  destruct i as [|i]; simpl; [by rewrite Hx|]. apply IH.
Qed.

Lemma column_length ls m j :
  Forall (λ l, length l = m) ls → (j < m)%nat →
  length (omap (λ r, r !! j) ls) = length ls.
Proof.
  intros Hm Hj. induction Hm as [|l ls Hl _ IH]; [done|]. csimpl.
  destruct (lookup_lt_is_Some_2 l j) as [x Hx]; [lia|]. rewrite Hx. simpl. by f_equal.
Qed.

Lemma transpose_rect n m ls : (0 < n)%nat → rect n m ls → rect m n (transpose ls).
Proof.
  intros Hn [Hl Hm]. destruct ls as [|l ls]; [simpl in Hl; lia|].
  pose proof (Forall_cons_1 _ _ _ Hm) as [Hlm _]. unfold transpose.
  split; [by rewrite length_fmap, length_seq|].
  apply Forall_fmap, Forall_seq. intros j Hj. unfold compose.
  rewrite (column_length _ m) by (done || lia). done.
Qed.

Lemma transpose_lookup n m ls i j :
  (0 < n)%nat → rect n m ls →
  (transpose ls !! j ≫= λ l, l !! i) = (ls !! i ≫= λ l, l !! j).
Proof.
  intros Hn [Hl Hm]. destruct ls as [|l ls]; [simpl in Hl; lia|].
  pose proof (Forall_cons_1 _ _ _ Hm) as [Hlm _].
  unfold transpose. rewrite list_lookup_fmap.
  destruct (decide (j < m)%nat) as [Hj|Hj].
  - rewrite lookup_seq_lt by lia. by apply (column_lookup (l :: ls) m).
  - rewrite lookup_seq_ge by lia. simpl.
    destruct ((l :: ls) !! i) as [r|] eqn:Er; [|done]. simpl. symmetry.
    apply lookup_ge_None_2. rewrite Forall_lookup in Hm. rewrite (Hm i r) by done. lia.
Qed.

(** Rectangles are determined by their entries. *)
Lemma rect_ext n m ls ls' :
  rect n m ls → rect n m ls' →
  (∀ i j, (ls !! i ≫= λ l, l !! j) = (ls' !! i ≫= λ l, l !! j)) → ls = ls'.
Proof.
  intros [Hn Hm] [Hn' Hm'] Hij. apply list_eq. intros i.
  rewrite Forall_lookup in Hm, Hm'.
  destruct (ls !! i) as [l|] eqn:El, (ls' !! i) as [l'|] eqn:El'; [|..|done].
  - f_equal. apply list_eq. intros j. specialize (Hij i j). by rewrite El, El' in Hij.
  - apply lookup_ge_None in El'. apply lookup_lt_Some in El. lia.
  - apply lookup_ge_None in El. apply lookup_lt_Some in El'. lia.
Qed.

Lemma transpose_involutive n m ls :
  (0 < n)%nat → (0 < m)%nat → rect n m ls → transpose (transpose ls) = ls.
Proof.
  intros Hn Hm Hr. pose proof (transpose_rect n m ls Hn Hr) as Ht.
  apply (rect_ext n m); [by apply (transpose_rect m n)|done|].
  intros i j. rewrite (transpose_lookup m n) by done. by apply (transpose_lookup n m).
Qed.
End Transpose.

(** Shape of a GPU page with [H] heads, [N] tokens and row width [W]. *)
Definition page_shape (H N W : nat) (p : page) : Prop :=
  rect H N p ∧ Forall (Forall (λ row, length row = W)) p.

Lemma rect_rows {A B} n m (f : A → B) ls : rect n m ls → rect n m (rows f ls).
Proof.
  intros [Hn Hm]. split; [by unfold rows; rewrite length_map|].
  unfold rows. apply Forall_fmap. eapply Forall_impl; [done|].
  intros l Hl. simpl. by rewrite length_map.
Qed.

Lemma halves_page (p : page) :
  zip_with (zip_with app) (rows k_half p) (rows v_half p) = p.
Proof.
  induction p as [|h p IH]; [done|]. simpl. f_equal; [|done].
  clear. induction h as [|row h IH]; [done|]. simpl. f_equal; [|done].
  unfold k_half, v_half. apply take_drop.
Qed.

(** Offloading a page and staging it back restores it. *)
Lemma slab_page_roundtrip H N (p : page) :
  (0 < H)%nat → (0 < N)%nat → rect H N p → slab_to_page (page_to_slab p) = p.
Proof.
  intros HH HN Hp. unfold slab_to_page, page_to_slab. simpl.
  rewrite !(transpose_involutive H N) by (done || by apply rect_rows).
  apply halves_page.
Qed.
