(* ===== verification/OffloadManager.v ===== *)
(** * The offload manager

    Models offload_package/offload/manager.py ([CPUBlockPool],
    [KVOffloadManager]) and [compute_block_kv_norms] of
    offload_package/scoring/norm_kernel.py.  The manager owns the scorer, the
    residency table, the GPU caches and the CPU cache; the staging pool and the
    orchestrator reach them through it, so they are fields of its state and
    exist once.  A KV layer whose K and V tensors are one combined tensor
    ([k_cache is v_cache]) has no [v_cache] of its own.  A CUDA transfer may
    fail: [_copy_gpu_to_cpu_batch] takes the outcome of its transfers as an
    argument, [None] for success and [Some k] for an exception after [k] layers
    have reached the CPU cache. *)

From S2P Require Import Prelude PyData Float Residency Scoring Pages.
From stdpp Require Import base gmap sets list strings.
From Stdlib Require Import ZArith Lia.
Open Scope Z_scope.

(** ** Data *)
Record kv_layer := Layer {
  k_cache : list page;
  v_cache : option (list page);
}.

Record offload (S : Type) := Offload {
  scorer : S;
  om_residency : table;
  gpu_caches : list kv_layer;
  cpu_cache : list (list slab);
  gpu_budget_blocks : Z;
  kv_layout : string;
  _cpu_free : list Z;
  _store_events : gset Z;
}.
Arguments Offload {S}.
Arguments scorer {S}.
Arguments om_residency {S}.
Arguments gpu_caches {S}.
Arguments cpu_cache {S}.
Arguments gpu_budget_blocks {S}.
Arguments kv_layout {S}.
Arguments _cpu_free {S}.
Arguments _store_events {S}.

Section Updates.
Context {S : Type}.
Implicit Types m : offload S.

Definition with_scorer (s : S) m : offload S :=
  Offload s (om_residency m) (gpu_caches m) (cpu_cache m) (gpu_budget_blocks m)
    (kv_layout m) (_cpu_free m) (_store_events m).
Definition with_residency (t : table) m : offload S :=
  Offload (scorer m) t (gpu_caches m) (cpu_cache m) (gpu_budget_blocks m)
    (kv_layout m) (_cpu_free m) (_store_events m).
Definition with_gpu (g : list kv_layer) m : offload S :=
  Offload (scorer m) (om_residency m) g (cpu_cache m) (gpu_budget_blocks m)
    (kv_layout m) (_cpu_free m) (_store_events m).
Definition with_cpu (c : list (list slab)) m : offload S :=
  Offload (scorer m) (om_residency m) (gpu_caches m) c (gpu_budget_blocks m)
    (kv_layout m) (_cpu_free m) (_store_events m).
Definition with_cpu_free (f : list Z) m : offload S :=
  Offload (scorer m) (om_residency m) (gpu_caches m) (cpu_cache m) (gpu_budget_blocks m)
    (kv_layout m) f (_store_events m).
Definition with_events (e : gset Z) m : offload S :=
  Offload (scorer m) (om_residency m) (gpu_caches m) (cpu_cache m) (gpu_budget_blocks m)
    (kv_layout m) (_cpu_free m) e.

Definition on_scorer {A} (op : M S A) : M (offload S) A := zoom scorer with_scorer op.
Definition on_residency {A} (op : M table A) : M (offload S) A :=
  zoom om_residency with_residency op.
Definition om_loc m (ref : BlockRef) : option BlockLocation := loc_of (om_residency m) ref.
End Updates.

(** ** Tensor indexing *)

(** [t.index_select(0, ids)]: an index outside [0, len) is an error. *)
Definition index_select {A} (xs : list A) (ids : list Z) : result (list A) :=
  if forallb (λ i, (0 <=? i) && (i <? zlen xs)) ids
  then Ok (omap (λ i, xs !! Z.to_nat i) ids) else Raise CudaError.

(** [t.index_copy_(0, ids, src)] *)
Definition index_copy {A} (xs : list A) (ids : list Z) (src : list A) : result (list A) :=
  if forallb (λ i, (0 <=? i) && (i <? zlen xs)) ids
  then Ok (foldl (λ acc e, <[Z.to_nat e.1 := e.2]> acc) xs (zip ids src))
  else Raise CudaError.

Fixpoint result_mapM {A B} (f : A → result B) (l : list A) : result (list B) :=
  match l with
  | [] => Ok []
  | x :: l' => result_bind (f x) (λ y, result_bind (result_mapM f l') (λ ys, Ok (y :: ys)))
  end.

(** ** Norms *)

(** Mean over tokens of the token norms, per head. *)
Definition page_norms (T : torch_ops) (layout : string) (p : page) : list f64 :=
  (λ h, t_mean T (t_norm T <$> h)) <$>
    (if bool_decide (layout = "NHD"%string) then transpose p else p).

Definition compute_block_kv_norms (T : torch_ops) (k v : list page) (phys : list Z)
    (logical : list BlockRef) (layout : string) : result BlockKVStats :=
  if negb (bool_decide (layout = "NHD" ∨ layout = "HND")%string) then Raise ValueError
  else if negb (zlen phys =? zlen logical) then Raise ValueError
  else if bool_decide (phys = []) then Ok (Stats [] [] logical)
  else
    result_bind (index_select k phys) (λ ks,
    result_bind (index_select v phys) (λ vs,
    Ok (Stats (page_norms T layout <$> vs) (page_norms T layout <$> ks) logical))).

(** The K and V views of a layer and their layout. *)
Definition layer_views (kv_layout : string) (l : kv_layer) : list page * list page * string :=
  match v_cache l with
  | None => (rows k_half <$> k_cache l, rows v_half <$> k_cache l, "HND"%string)
  | Some v => (k_cache l, v, kv_layout)
  end.

Definition layer_stats (T : torch_ops) (layout : string) (refs : list BlockRef) (ids : list Z)
    (l : kv_layer) : result BlockKVStats :=
  let '(k, v, lay) := layer_views layout l in
  compute_block_kv_norms T k v ids refs lay.

(** [torch.stack(xs).mean(dim=0)] of per-layer [num_blocks][H] tensors. *)
Definition layer_mean (T : torch_ops) (xs : list (list (list f64))) : list (list f64) :=
  (λ b, t_mean T <$> transpose b) <$> transpose xs.

Definition is_warmup (ref : BlockRef) : bool := String.prefix "_warmup_" (request_id ref).

Section Manager.
Context {S : Type} `{BlockScorer S} (T : torch_ops).
(** The fused scorer: [None] when [_fused_scorer_ok] says no or it declines;
    otherwise the K and V norms, [L][N][H]. *)
Context (fused : list kv_layer → list Z → option (list (list (list f64)) * list (list (list f64)))).

(** ** CPUBlockPool *)
Definition cpu_allocate : M (offload S) Z :=
  let! f := gets _cpu_free in
  match py_pop f with
  | None => raise RuntimeError
  | Some (s, f') => modify (with_cpu_free f') >> ret s
  end.

Definition cpu_free (slot : Z) : M (offload S) unit :=
  modify (λ m, with_cpu_free (_cpu_free m ++ [slot]) m).

(** ** KVOffloadManager *)

(** [k is v] appears as a missing second tensor. *)
Definition om_init (s : S) (t : table) (ks : list (list page)) (vs : list (option (list page)))
    (cpu : list (list slab)) (budget : Z) (layout : string) : result (offload S) :=
  if negb (zlen ks =? zlen vs) then Raise ValueError
  else if bool_decide (ks = []) then Raise ValueError
  else if negb (zlen cpu =? zlen ks) then Raise ValueError
  else if negb (bool_decide (layout = "NHD" ∨ layout = "HND")%string) then Raise ValueError
  else if budget <? 0 then Raise ValueError
  else
    let slots := zlen (default [] (head cpu)) in
    if slots <=? 0 then Raise ValueError
    else Ok (Offload s t (zip_with Layer ks vs) cpu budget layout (zrange_down slots) ∅).

Definition score_block (ref : BlockRef) (gpu_id : Z) : M (offload S) unit :=
  if is_warmup ref then ret tt
  else
    let! m := gets (λ m, m) in
    let! stats := lift (result_mapM (layer_stats T (kv_layout m) [ref] [gpu_id]) (gpu_caches m)) in
    on_scorer (update (Stats (layer_mean T (v_norm <$> stats))
                             (layer_mean T (k_norm <$> stats)) [ref])).

Definition score_blocks (refs : list BlockRef) (ids : list Z) : M (offload S) unit :=
  let items := filter (λ e, is_warmup e.1 = false) (zip refs ids) in
  if bool_decide (items = []) then ret tt
  else
    let! m := gets (λ m, m) in
    match fused (gpu_caches m) items.*2 with
    | Some (k, v) =>
        on_scorer (update (Stats (layer_mean T v) (layer_mean T k) items.*1))
    | None =>
        let! stats := lift (result_mapM (layer_stats T (kv_layout m) items.*1 items.*2)
                              (gpu_caches m)) in
        on_scorer (update (Stats (layer_mean T (v_norm <$> stats))
                                 (layer_mean T (k_norm <$> stats)) items.*1))
    end.

Definition on_block_full (ref : BlockRef) : M (offload S) unit :=
  let! o := gets (λ m, om_loc m ref) in
  match o with
  | Some (Loc _ (Some g) _ _ _) => score_block ref g >> on_residency (mark_complete ref)
  | _ => ret tt
  end.

(** The gather of one layer: [n] slabs. *)
Definition gather_layer (ids : list Z) (l : kv_layer) : result (list slab) :=
  result_bind (index_select (k_cache l) ids) (λ ps, Ok (page_to_slab <$> ps)).

(** The host scatter, layer by layer; [fuel = Some k] raises before layer [k]. *)
Fixpoint scatter_layers (io : option nat) (slots : list Z) (layer : nat)
    (host : list (list slab)) : M (offload S) unit :=
  match host with
  | [] => ret tt
  | src :: host' =>
      (if bool_decide (io = Some layer) then raise CudaError else ret tt) >>
      let! c := gets cpu_cache in
      let! dst := lift (py_index c (Z.of_nat layer)) in
      let! new := lift (index_copy dst slots src) in
      modify (λ m, with_cpu (<[layer := new]> (cpu_cache m)) m) >>
      scatter_layers io slots (Datatypes.S layer) host'
  end.

Definition _copy_gpu_to_cpu_batch (io : option nat) (ids : list Z) : M (offload S) (list Z) :=
  let n := zlen ids in
  ensure (0 <? n) ValueError >>
  let! f := gets _cpu_free in
  ensure (n <=? zlen f) RuntimeError >>
  let! slots := mmap (λ _, cpu_allocate) ids in
  catch
    (let! m := gets (λ m, m) in
     let! host := lift (result_mapM (gather_layer ids) (gpu_caches m)) in
     scatter_layers io slots 0 host)
    (λ e, mfor slots cpu_free >> raise e) >>
  modify (λ m, with_events (list_to_set slots ∪ _store_events m) m) >>
  ret slots.

(** [int(len * fraction + 0.5)], at least 1. *)
Definition n_offload (len : Z) (fraction : f64) : Z :=
  Z.max 1 (f64_to_int (fadd (fmul (f64_of_int len) fraction) f64_half)).

Definition is_gpu_complete (m : offload S) (ref : BlockRef) : bool :=
  match om_loc m ref with
  | Some l => bool_decide (residency l = GPU) && complete l
  | None => false
  end.

(** The victims that still live on the GPU, with their pages. *)
Definition live_victims (m : offload S) (refs : list BlockRef) : list (BlockRef * Z) :=
  omap (λ ref,
    match om_loc m ref with
    | Some (Loc GPU (Some g) _ _ _) => Some (ref, g)
    | _ => None
    end) refs.

(** Copy a batch and flip its residency. *)
Definition offload_batch (io : option nat) (vs : list (BlockRef * Z)) : M (offload S) unit :=
  let! slots := _copy_gpu_to_cpu_batch io vs.*2 in
  mfor (zip vs.*1 slots) (λ e, on_residency (mark_cpu e.1 e.2)).

Definition offload_fraction (io : option nat) (candidates : list BlockRef) (fraction : f64)
    (scored_blocks : gset BlockRef) : M (offload S) (list BlockRef) :=
  ensure ((0 <=? fraction) && (fraction <? f64_one)) ValueError >>
  let! m := gets (λ m, m) in
  let cands := filter (λ r, r ∈ scored_blocks ∧ is_gpu_complete m r = true) candidates in
  let n := n_offload (zlen cands) fraction in
  if (n <=? 0) || (zlen cands =? 0) then ret []
  else
    let! victims := on_scorer (select_for_eviction cands (zlen cands - n)) in
    let! m1 := gets (λ m, m) in
    let vs := live_victims m1 victims in
    if bool_decide (vs = []) then ret []
    else catch (offload_batch io vs >> ret vs.*1) (λ _, ret []).

Definition maybe_offload (io : option nat) (candidates : list BlockRef)
    : M (offload S) (list BlockRef) :=
  let! m := gets (λ m, m) in
  let cands := filter (λ r, is_gpu_complete m r = true) candidates in
  if zlen cands <=? gpu_budget_blocks m then ret []
  else
    let! victims := on_scorer (select_for_eviction cands (gpu_budget_blocks m)) in
    let! m1 := gets (λ m, m) in
    let vs := live_victims m1 victims in
    if bool_decide (vs = []) then ret []
    else offload_batch io vs >> ret vs.*1.

(** The single-block store: one slab per layer, no clean-up on an error. *)
Definition store_layer (gpu_id slot : Z) (e : nat * kv_layer) : M (offload S) unit :=
  let '(layer, l) := e in
  let! k := lift (py_index (k_cache l) gpu_id) in
  let! v := lift (py_index (default (k_cache l) (v_cache l)) gpu_id) in
  let! c := gets cpu_cache in
  let! dst := lift (py_index c (Z.of_nat layer)) in
  let! new := lift (py_set_index dst slot (transpose (rows k_half k), transpose (rows v_half v))) in
  modify (λ m, with_cpu (<[layer := new]> (cpu_cache m)) m).

Definition _copy_gpu_to_cpu (gpu_id : Z) : M (offload S) Z :=
  let! slot := cpu_allocate in
  let! g := gets gpu_caches in
  mfor (zip (seq 0 (length g)) g) (store_layer gpu_id slot) >>
  modify (λ m, with_events ({[slot]} ∪ _store_events m) m) >>
  ret slot.

Definition wait_cpu_slot (slot : Z) : M (offload S) unit :=
  modify (λ m, with_events (_store_events m ∖ {[slot]}) m).

Definition om_free (ref : BlockRef) : M (offload S) unit :=
  let! l := on_residency (remove_ref ref) in
  match l with
  | Some (Loc _ _ (Some s) _ _) => cpu_free s
  | _ => ret tt
  end >>
  on_scorer (forget [ref]).
End Manager.

(** ** Tensor facts *)

Lemma forallb_range {A} (xs : list A) ids :
  forallb (λ i, (0 <=? i) && (i <? zlen xs)) ids = true ↔ Forall (λ i, 0 ≤ i < zlen xs) ids.
Proof.
  rewrite forallb_forall, Forall_forall. setoid_rewrite list_elem_of_In.
  setoid_rewrite andb_true_iff. setoid_rewrite Z.leb_le. by setoid_rewrite Z.ltb_lt.
Qed.

Lemma index_select_Ok {A} (xs : list A) ids ys :
  index_select xs ids = Ok ys →
  length ys = length ids ∧
  ∀ (i : nat) (id : Z), ids !! i = Some id → 0 ≤ id ∧ ys !! i = xs !! Z.to_nat id.
Proof.
  unfold index_select. destruct (forallb _ ids) eqn:E; [|done]. intros [= <-].
  apply forallb_range in E. induction E as [|id ids Hid _ IH]; [done|]. csimpl.
  destruct (lookup_lt_is_Some_2 xs (Z.to_nat id)) as [x Hx]; [unfold zlen in *; lia|].
  rewrite Hx. destruct IH as [Hlen Hl]. split; [simpl; by f_equal|].
  intros [|i] id' Hi; simplify_eq/=; [by split; [lia|]|by apply Hl].
Qed.

Lemma index_select_total {A} (xs : list A) ids :
  Forall (λ i, 0 ≤ i < zlen xs) ids → ∃ ys, index_select xs ids = Ok ys.
Proof. intros Hids%forallb_range. unfold index_select. rewrite Hids. by eexists. Qed.

Lemma index_copy_Ok {A} (xs : list A) ids src xs' :
  index_copy xs ids src = Ok xs' → NoDup ids → length src = length ids →
  length xs' = length xs ∧
  (∀ (i : nat) (id : Z) x, ids !! i = Some id → src !! i = Some x →
     xs' !! Z.to_nat id = Some x) ∧
  (∀ j : nat, Z.of_nat j ∉ ids → xs' !! j = xs !! j).
Proof.
  unfold index_copy. destruct (forallb _ ids) eqn:E; [|done]. intros [= <-].
  apply forallb_range in E. revert xs src E.
  induction ids as [|id ids IH]; intros xs src Hr Hnd Hlen.
  { destruct src; [|done]. split_and!; [done|set_solver|done]. }
  destruct src as [|y src]; [done|]. simpl in Hlen. injection Hlen as Hlen.
  apply NoDup_cons in Hnd as [Hid Hnd]. apply Forall_cons in Hr as [Hr0 Hr].
  assert (length (<[Z.to_nat id:=y]> xs) = length xs) as Hli by apply length_insert.
  destruct (IH (<[Z.to_nat id:=y]> xs) src) as (Hl & Hin & Hout); [|done|done|].
  { eapply Forall_impl; [done|]. intros i. unfold zlen. by rewrite Hli. }
  simpl. split_and!; [congruence| |].
  - intros [|i] id' x Hi Hx; simplify_eq/=; [|by eapply Hin].
    rewrite Hout by (rewrite Z2Nat.id by lia; done).
    apply list_lookup_insert_eq. unfold zlen in Hr0. lia.
  - intros j Hj. rewrite Hout by set_solver. apply list_lookup_insert_ne.
    intros <-. apply Hj. rewrite Z2Nat.id by lia. set_solver.
Qed.

Lemma result_mapM_Ok {A B} (f : A → result B) l ys :
  result_mapM f l = Ok ys ↔ Forall2 (λ x y, f x = Ok y) l ys.
Proof.
  revert ys. induction l as [|x l IH]; intros ys; simpl.
  { split; [by intros [= <-]|intros Hf; by inversion Hf]. }
  unfold result_bind. split.
  - destruct (f x) as [y|] eqn:Ex; [|done]. destruct (result_mapM f l) as [ys'|]; [|done].
    intros [= <-]. constructor; [done|]. by apply IH.
  - intros Hf. inversion Hf as [|? y ? ys' Hx Hl]; subst. rewrite Hx.
    apply IH in Hl. by rewrite Hl.
Qed.

Lemma result_mapM_total {A B} (f : A → result B) l :
  Forall (λ x, ∃ y, f x = Ok y) l → ∃ ys, result_mapM f l = Ok ys.
Proof.
  induction 1 as [|x l [y Hy] _ [ys Hys]]; [by exists []|].
  exists (y :: ys). simpl. by rewrite Hy, Hys.
Qed.

(** ** How many blocks an offload pass takes *)

Lemma n_offload_bounds len fraction :
  0 ≤ fraction < f64_one → 1 ≤ len < 2 ^ 52 → 1 ≤ n_offload len fraction ≤ len.
Proof.
  intros Hf Hlen. unfold n_offload. split; [lia|].
  assert (2 ^ 52 < 2 ^ 53) by (apply Z.pow_lt_mono_r; lia).
  rewrite f64_of_int_exact by lia. apply Z.max_lub; [lia|].
  pose proof (pow2_pos 1073 ltac:(lia)) as Hp. pose proof (pow2_pos 1074 ltac:(lia)) as Hp'.
  assert (fmul (len * 2 ^ 1074) fraction ≤ len * 2 ^ 1074) as Hmul.
  { unfold fmul. transitivity (rnd 53 1074 (len * 2 ^ 2148)).
    - apply rnd_mono; [lia|lia|]. replace (2 ^ 2148) with (2 ^ 1074 * 2 ^ 1074)
        by (rewrite <-Z.pow_add_r by lia; done).
      unfold f64_one in Hf. nia.
    - rewrite rnd_exact by lia. done. }
  assert (fadd (fmul (len * 2 ^ 1074) fraction) f64_half ≤ (2 * len + 1) * 2 ^ 1073) as Hadd.
  { unfold fadd. transitivity (rnd 53 0 ((2 * len + 1) * 2 ^ 1073)).
    - apply rnd_mono; [lia|lia|]. unfold f64_half.
      change 1074 with (Z.succ 1073) in Hmul at 2. rewrite Z.pow_succ_r in Hmul by lia. lia.
    - rewrite rnd_exact by lia. done. }
  unfold f64_to_int. transitivity (Z.quot ((2 * len + 1) * 2 ^ 1073) (2 ^ 1074)).
  - apply Z.quot_le_mono; lia.
  - apply Z.lt_succ_r. apply Z.quot_lt_upper_bound; [lia|lia|].
    change 1074 with (Z.succ 1073). rewrite Z.pow_succ_r by lia. lia.
Qed.

(** ** The store path *)

Definition slab_at (c : list (list slab)) (layer j : nat) : option slab :=
  c !! layer ≫= λ l, l !! j.
Definition shape (c : list (list slab)) : list nat := length <$> c.

(** [c'] is [c] with nothing changed outside [slots]. *)
Definition cpu_outside (slots : list Z) (c c' : list (list slab)) : Prop :=
  shape c' = shape c ∧
  ∀ layer j, Z.of_nat j ∉ slots → slab_at c' layer j = slab_at c layer j.

#[global] Instance cpu_outside_po slots : PreOrder (cpu_outside slots).
Proof.
  split; [done|]. intros c1 c2 c3 [H1 H2] [H3 H4]. split; [congruence|].
  intros l j Hj. by rewrite H4, H2.
Qed.

Lemma cpu_outside_weaken slots slots' c c' :
  (∀ s, s ∈ slots → s ∈ slots') → cpu_outside slots c c' → cpu_outside slots' c c'.
Proof. intros Hs [H1 H2]. split; [done|]. intros l j Hj. apply H2. auto. Qed.

Lemma cpu_insert_outside slots c layer (dst new : list slab) :
  c !! layer = Some dst → length new = length dst →
  (∀ j : nat, Z.of_nat j ∉ slots → new !! j = dst !! j) →
  cpu_outside slots c (<[layer := new]> c).
Proof.
  intros Hc Hl Hout. split.
  - unfold shape. rewrite list_fmap_insert, Hl. apply list_insert_id.
    by rewrite list_lookup_fmap, Hc.
  - intros l j Hj. unfold slab_at. destruct (decide (layer = l)) as [<-|Hne].
    + rewrite list_lookup_insert_eq by by eapply lookup_lt_Some. rewrite Hc. by apply Hout.
    + by rewrite list_lookup_insert_ne.
Qed.

Section Store.
Context {S : Type}.
Implicit Types m : offload S.

Lemma scatter_layers_wp io slots host layer m :
  NoDup slots → Forall (λ src, length src = length slots) host →
  wp (scatter_layers io slots layer host)
    (λ _ m', ∃ c', m' = with_cpu c' m ∧ cpu_outside slots (cpu_cache m) c' ∧
       (∀ l, (l < layer)%nat → c' !! l = cpu_cache m !! l) ∧
       ∀ k src i s x, host !! k = Some src → slots !! i = Some s → src !! i = Some x →
         slab_at c' (layer + k) (Z.to_nat s) = Some x)
    (λ _ m', ∃ c', m' = with_cpu c' m ∧ cpu_outside slots (cpu_cache m) c') m.
Proof.
  intros Hnd Hlen. revert layer m.
  induction Hlen as [|src host Hsrc _ IH]; intros layer m; simpl.
  { apply wp_ret. exists (cpu_cache m). split; [by destruct m|]. split; [done|].
    split; [done|]. intros k ? ? ? ? Hk. by rewrite lookup_nil in Hk. }
  wp_step. destruct (bool_decide (io = Some layer)).
  { wp_step. exists (cpu_cache m). by destruct m. }
  wp_steps. destruct (py_index (cpu_cache m) (Z.of_nat layer)) as [dst|] eqn:Ed;
    [|exists (cpu_cache m); by destruct m].
  apply py_index_Ok in Ed; [|lia]. rewrite Nat2Z.id in Ed. wp_steps.
  destruct (index_copy dst slots src) as [new|] eqn:En; [|exists (cpu_cache m); by destruct m].
  apply index_copy_Ok in En as (Hl & Hin & Hout); [|done|done]. wp_steps.
  set (m1 := with_cpu (<[layer:=new]> (cpu_cache m)) m).
  assert (cpu_outside slots (cpu_cache m) (cpu_cache m1)) as Hm1 by by eapply cpu_insert_outside.
  eapply wp_mono; [apply (IH (Datatypes.S layer) m1)| |].
  - intros _ m' (c' & -> & Ho & Hlow & Hhit). exists c'. split; [done|].
    split; [by etrans|]. split.
    { intros l Hll. rewrite Hlow by lia. apply list_lookup_insert_ne. lia. }
    intros [|k] src' i s x Hk Hs Hx; simplify_eq/=.
    + unfold slab_at. rewrite Nat.add_0_r, Hlow by lia.
      rewrite list_lookup_insert_eq by by eapply lookup_lt_Some. simpl. by eapply Hin.
    + rewrite <-Nat.add_succ_comm. by eapply Hhit.
  - intros _ m' (c' & -> & Ho). exists c'. split; [done|]. by etrans.
Qed.

Lemma cpu_allocate_all (ids : list Z) m :
  (length ids ≤ length (_cpu_free m))%nat →
  ∃ f slots, _cpu_free m = f ++ reverse slots ∧ length slots = length ids ∧
    mmap (λ _, cpu_allocate) ids m = (Ok slots, with_cpu_free f m).
Proof.
  revert m. induction ids as [|id ids IH]; intros m Hlen.
  { exists (_cpu_free m), []. rewrite app_nil_r. split_and!; [done|done|by destruct m]. }
  destruct (py_pop (_cpu_free m)) as [[s f']|] eqn:Ep;
    [|apply py_pop_None in Ep; rewrite Ep in Hlen; simpl in Hlen; lia].
  apply py_pop_Some in Ep as Hf.
  destruct (IH (with_cpu_free f' m)) as (f & slots & Hff & Hl & Hrun).
  { simpl. rewrite Hf, length_app in Hlen. simpl in Hlen. lia. }
  simpl in Hff. exists f, (s :: slots). split_and!.
  - by rewrite Hf, Hff, reverse_cons, <-(assoc app).
  - simpl. by f_equal.
  - simpl. erewrite bind_ok.
    2: { unfold cpu_allocate. run_step. rewrite Ep. reflexivity. }
    erewrite bind_ok by exact Hrun. done.
Qed.

Lemma gather_Ok ids (g : list kv_layer) host :
  result_mapM (gather_layer ids) g = Ok host →
  Forall (λ src, length src = length ids) host ∧
  ∀ k lyr i id, g !! k = Some lyr → ids !! i = Some id →
    ∃ p src, k_cache lyr !! Z.to_nat id = Some p ∧ host !! k = Some src ∧
             src !! i = Some (page_to_slab p).
Proof.
  intros Hm%result_mapM_Ok. split.
  - induction Hm as [|lyr src g host Hg _ IH]; constructor; [|done].
    unfold gather_layer, result_bind in Hg.
    destruct (index_select _ ids) as [ps|] eqn:Es; [|done]. injection Hg as <-.
    apply index_select_Ok in Es as [Hl _]. by rewrite length_fmap.
  - intros k lyr i id Hk Hi. destruct (Forall2_lookup_l _ _ _ _ _ Hm Hk) as (src & Hsrc & Hg).
    unfold gather_layer, result_bind in Hg.
    destruct (index_select _ ids) as [ps|] eqn:Es; [|done]. injection Hg as <-.
    apply index_select_Ok in Es as [Hl Hps]. destruct (Hps i id Hi) as [_ Hp].
    destruct (lookup_lt_is_Some_2 ps i) as [p Hpi]; [apply lookup_lt_Some in Hi; lia|].
    exists p, (page_to_slab <$> ps). split_and!; [congruence|done|].
    by rewrite list_lookup_fmap, Hpi.
Qed.

(** A successful batch: fresh slots hold the slabs of the pages. *)
Definition stored (ids slots : list Z) m m' : Prop :=
  ∃ f c', m' = with_events (list_to_set slots ∪ _store_events m)
                 (with_cpu c' (with_cpu_free f m)) ∧
    _cpu_free m = f ++ reverse slots ∧ length slots = length ids ∧
    cpu_outside slots (cpu_cache m) c' ∧
    ∀ k lyr i id s, gpu_caches m !! k = Some lyr → ids !! i = Some id → slots !! i = Some s →
      ∃ p, k_cache lyr !! Z.to_nat id = Some p ∧
           slab_at c' k (Z.to_nat s) = Some (page_to_slab p).

(** A failed batch: nothing but the contents of free slots changed. *)
Definition not_stored m m' : Prop :=
  ∃ f c', m' = with_cpu c' (with_cpu_free f m) ∧ f ≡ₚ _cpu_free m ∧
    cpu_outside (_cpu_free m) (cpu_cache m) c'.

Lemma not_stored_refl m : not_stored m m.
Proof. exists (_cpu_free m), (cpu_cache m). by destruct m. Qed.

Lemma cpu_free_all slots m :
  mfor slots cpu_free m = (Ok tt, with_cpu_free (_cpu_free m ++ slots) m).
Proof.
  revert m. induction slots as [|s slots IH]; intros m.
  { rewrite app_nil_r. by destruct m. }
  etrans; [by eapply mfor_cons|]. rewrite IH. simpl. by rewrite <-(assoc app).
Qed.

Lemma copy_batch_wp io ids m :
  NoDup (_cpu_free m) →
  wp (_copy_gpu_to_cpu_batch io ids) (λ slots, stored ids slots m) (λ _, not_stored m) m.
Proof.
  intros Hnd. pose proof (not_stored_refl m) as Hrefl. unfold _copy_gpu_to_cpu_batch.
  do 2 wp_step; [|done]. do 4 wp_step; [|done].
  destruct (cpu_allocate_all ids m) as (f & slots & Hf & Hl & Hrun); [unfold zlen in *; lia|].
  assert (NoDup slots) as Hs.
  { rewrite Hf in Hnd. apply NoDup_app in Hnd as (_ & _ & Hr). by rewrite reverse_Permutation in Hr. }
  assert (∀ e (Q : unit → offload S → Prop) c', cpu_outside slots (cpu_cache m) c' →
            wp (mfor slots cpu_free >> raise e) Q (λ _ : exn, not_stored m)
               (with_cpu c' (with_cpu_free f m))) as Hfail.
  { intros e Q c' Hc'. wp_step. unfold wp at 1. rewrite cpu_free_all. wp_step.
    exists (f ++ slots), c'. split; [done|]. rewrite Hf. split; [by rewrite reverse_Permutation|].
    eapply cpu_outside_weaken; [|done]. intros s ?. rewrite elem_of_app, elem_of_reverse. by right. }
  wp_step. unfold wp at 1. rewrite Hrun. do 6 wp_step.
  destruct (result_mapM _ _) as [host|e] eqn:Eh; [|by apply (Hfail e _ (cpu_cache m))].
  apply gather_Ok in Eh as [Hlen Hhost]. rewrite <-Hl in Hlen.
  eapply wp_mono; [by apply scatter_layers_wp| |].
  - intros _ m' (c' & -> & Ho & _ & Hhit). do 3 wp_step. exists f, c'.
    do 4 (split; [done|]). intros k lyr i id s Hk Hi Hsi.
    destruct (Hhost k lyr i id Hk Hi) as (p & src & Hp & Hsrc & Hx). exists p.
    split; [done|]. by apply (Hhit k src i s).
  - intros e m' (c' & -> & Ho). by apply Hfail.
Qed.
End Store.

(** ** The slot invariant *)

(** The CPU slots the table records, in table order. *)
Definition cpu_used (t : table) : list Z :=
  omap (λ ref, loc_of t ref ≫= cpu_slot) (dkeys (_blocks t)).

(** Exactly the blocks that left the GPU own a CPU slot. *)
Definition slots_owned (t : table) : Prop :=
  ∀ ref l, loc_of t ref = Some l → residency l = GPU ↔ cpu_slot l = None.

(** [table_slots pend free n t]: the table is consistent, and every CPU slot
    [0 .. n-1] is exactly once free, recorded, or [pend]ing in a batch. *)
Record table_slots (pend free : list Z) (n : Z) (t : table) : Prop := {
  ts_ok : table_ok t;
  ts_owned : slots_owned t;
  ts_part : free ++ pend ++ cpu_used t ≡ₚ zrange 0 n;
}.

Definition om_slots {S} (n : Z) (m : offload S) : Prop :=
  table_slots [] (_cpu_free m) n (om_residency m).

Lemma omap_ext_in {A B} (f g : A → option B) (l : list A) :
  (∀ x, x ∈ l → f x = g x) → omap f l = omap g l.
Proof.
  induction l as [|x l IH]; intros Hl; [done|]. csimpl.
  rewrite (Hl x) by set_solver. rewrite IH by set_solver. done.
Qed.

(** Around the entry of [ref], the recorded slots of [t] and of a table that
    differs from it only there. *)
Lemma cpu_used_around t ref :
  table_ok t → is_Some (loc_of t ref) →
  ∃ a b, cpu_used t = a ++ option_list (loc_of t ref ≫= cpu_slot) ++ b ∧
    (∀ t' o, dkeys (_blocks t') = dkeys (_blocks t) → only ref o t t' →
       cpu_used t' = a ++ option_list (o ≫= cpu_slot) ++ b) ∧
    (∀ t', _blocks t' = dpop ref (_blocks t) → only ref None t t' → cpu_used t' = a ++ b).
Proof.
  intros Hok [l Hl]. destruct (dget_split _ _ _ Hl) as (d1 & d2 & Hd & Hpop & _ & _).
  assert (dkeys (_blocks t) = dkeys d1 ++ ref :: dkeys d2) as Hk
    by (rewrite Hd; unfold dkeys; by rewrite fmap_app).
  assert (ref ∉ dkeys d1 ∧ ref ∉ dkeys d2) as [Hn1 Hn2].
  { pose proof (to_dict _ Hok) as Hnd. unfold dict_ok in Hnd. rewrite Hk in Hnd.
    apply NoDup_app in Hnd as (_ & Hd1 & [Hr2 _]%NoDup_cons).
    split; [|done]. intros Hin. apply (Hd1 _ Hin). set_solver. }
  exists (omap (λ r, loc_of t r ≫= cpu_slot) (dkeys d1)),
         (omap (λ r, loc_of t r ≫= cpu_slot) (dkeys d2)).
  assert (∀ t' o, only ref o t t' →
            omap (λ r, loc_of t' r ≫= cpu_slot) (dkeys d1) =
              omap (λ r, loc_of t r ≫= cpu_slot) (dkeys d1) ∧
            omap (λ r, loc_of t' r ≫= cpu_slot) (dkeys d2) =
              omap (λ r, loc_of t r ≫= cpu_slot) (dkeys d2)) as Hrest.
  { intros t' o Ho. split; apply omap_ext_in; intros x Hx; rewrite Ho, decide_False; try done;
      by intros ->. }
  split_and!.
  - unfold cpu_used. rewrite Hk, omap_app. csimpl. f_equal.
    by destruct (loc_of t ref ≫= cpu_slot).
  - intros t' o Hk' Ho. destruct (Hrest t' o Ho) as [H1 H2].
    unfold cpu_used. rewrite Hk', Hk, omap_app, H1. csimpl.
    rewrite H2, (Ho ref), decide_True by done. by destruct (o ≫= cpu_slot).
  - intros t' Hb Ho. destruct (Hrest t' None Ho) as [H1 H2]. unfold cpu_used.
    rewrite Hb, Hpop. unfold dkeys at 1. rewrite fmap_app, omap_app.
    fold (dkeys d1) (dkeys d2). by rewrite H1, H2.
Qed.

Section Slots.
Context (n : Z).

(** A GPU block takes a pending slot. *)
Lemma slots_mark_cpu pend free t ref l s :
  table_slots (s :: pend) free n t → loc_of t ref = Some l → residency l = GPU →
  ∃ t', mark_cpu ref s t = (Ok tt, t') ∧ table_slots pend free n t' ∧ moved t t' ∧
        dkeys (_blocks t') = dkeys (_blocks t) ∧
        only ref (Some (Loc CPU (gpu_block_id l) (Some s) None (complete l))) t t'.
Proof.
  intros [Hok Hown Hpart] Hl Hg.
  destruct (mark_cpu_run t Hok ref l s Hl) as (t' & Hrun & Hok' & Hm & Hk & Ho).
  exists t'. split; [done|]. split; [|done]. split; [done| |].
  - intros r x. rewrite Ho. case_decide; [by intros [= <-]|by apply Hown].
  - destruct (cpu_used_around t ref Hok) as (a & b & Hu & Hu' & _); [by exists l|].
    rewrite (Hu' t' _ Hk Ho). simpl. rewrite Hu, Hl in Hpart. simpl in Hpart.
    assert (cpu_slot l = None) as Hnone by (by apply (Hown ref)).
    rewrite Hnone in Hpart. simpl in Hpart. rewrite <-Hpart. solve_Permutation.
Qed.

(** Entries whose slot does not change. *)
Lemma slots_same_slot pend free t t' ref l l' :
  table_slots pend free n t → loc_of t ref = Some l → table_ok t' →
  dkeys (_blocks t') = dkeys (_blocks t) → only ref (Some l') t t' →
  cpu_slot l' = cpu_slot l → (residency l' = GPU ↔ residency l = GPU) →
  table_slots pend free n t'.
Proof.
  intros [Hok Hown Hpart] Hl Hok' Hk Ho Hs Hr. split; [done| |].
  - intros r x. rewrite Ho. case_decide; [|by apply Hown]. subst. intros [= <-].
    rewrite Hr, Hs. by eapply Hown.
  - destruct (cpu_used_around t ref Hok) as (a & b & Hu & Hu' & _); [by exists l|].
    rewrite (Hu' t' _ Hk Ho). simpl. rewrite Hs. rewrite Hu, Hl in Hpart. done.
Qed.

(** Removing an entry returns its slot. *)
Lemma slots_remove free t ref :
  table_slots [] free n t →
  ∃ t', remove_ref ref t = (Ok (loc_of t ref), t') ∧ moved t t' ∧ only ref None t t' ∧
        table_slots [] (free ++ option_list (loc_of t ref ≫= cpu_slot)) n t'.
Proof.
  intros [Hok Hown Hpart].
  destruct (remove_ref_run t Hok ref) as (t' & Hrun & Hok' & Hm & Hb & Ho).
  exists t'. do 3 (split; [done|]). split; [done| |].
  - intros r x. rewrite Ho. case_decide; [done|by apply Hown].
  - destruct (loc_of t ref) as [l|] eqn:El.
    + destruct (cpu_used_around t ref Hok) as (a & b & Hu & _ & Hu'); [by exists l|].
      rewrite (Hu' t' Hb Ho). rewrite Hu, El in Hpart. rewrite <-Hpart. solve_Permutation.
    + assert (cpu_used t' = cpu_used t) as ->.
      { unfold cpu_used. rewrite Hb, dpop_absent by done. apply omap_ext_in. intros x _.
        rewrite Ho. case_decide; subst; [by rewrite El|done]. }
      simpl. by rewrite app_nil_r.
Qed.

(** A new block starts on the GPU; a GPU block may be rebound. *)
Lemma slots_mark_gpu pend free t ref g c :
  table_slots pend free n t →
  (∀ l, loc_of t ref = Some l → residency l = GPU) →
  ∃ t', mark_gpu ref g c t = (Ok tt, t') ∧ table_slots pend free n t' ∧ moved t t' ∧
        only ref (Some (Loc GPU (Some g) None None c)) t t'.
Proof.
  intros [Hok Hown Hpart] Hg.
  destruct (mark_gpu_run t Hok ref g c) as (t' & Hrun & Hok' & Hm & Hk & Ho).
  assert (loc_of t ref ≫= cpu_slot = None) as Hnone.
  { destruct (loc_of t ref) as [l|] eqn:El; [|done]. simpl. apply (Hown ref l El). by apply Hg. }
  rewrite Hnone in Ho. exists t'. split; [done|]. split; [|done]. split; [done| |].
  - intros r x Hx. rewrite Ho in Hx. case_decide; [|by apply Hown in Hx].
    injection Hx as <-. done.
  - assert (cpu_used t' = cpu_used t) as ->; [|done].
    destruct (loc_of t ref) as [l|] eqn:El.
    + destruct (cpu_used_around t ref Hok) as (a & b & Hu & Hu' & _); [by exists l|].
      rewrite decide_True in Hk by (apply dget_is_Some; by exists l).
      rewrite (Hu' t' _ Hk Ho), Hu, El. simpl in *. by rewrite Hnone.
    + rewrite decide_False in Hk by (by apply dget_None). unfold cpu_used.
      rewrite Hk, omap_app. simpl. rewrite (Ho ref), decide_True by done. simpl.
      rewrite app_nil_r. apply omap_ext_in. intros x Hx. rewrite Ho, decide_False; [done|].
      intros <-. by apply dget_None in El.
Qed.
End Slots.

(** ** The operations keep the slot invariant *)
Section OpsInv.
Context {S : Type} (n : Z).
Implicit Types m : offload S.

Lemma slots_free_NoDup m : om_slots n m → NoDup (_cpu_free m).
Proof.
  intros [_ _ Hp]. assert (NoDup (zrange 0 n)) as Hnd by apply NoDup_zrange.
  rewrite <-Hp in Hnd. by apply NoDup_app in Hnd as [? _].
Qed.

(** Flipping a batch of GPU blocks onto its slots. *)
Lemma mark_all_run ps free t :
  table_slots ps.*2 free n t → NoDup ps.*1 →
  (∀ ref, ref ∈ ps.*1 → ∃ l, loc_of t ref = Some l ∧ residency l = GPU) →
  ∃ t', mfor ps (λ e, mark_cpu e.1 e.2) t = (Ok tt, t') ∧ table_slots [] free n t' ∧
    moved t t' ∧
    (∀ ref s, (ref, s) ∈ ps → ∃ l, loc_of t ref = Some l ∧
       loc_of t' ref = Some (Loc CPU (gpu_block_id l) (Some s) None (complete l))) ∧
    (∀ ref, ref ∉ ps.*1 → loc_of t' ref = loc_of t ref).
Proof.
  revert t. induction ps as [|[ref s] ps IH]; intros t Hts Hnd Hgpu.
  { exists t. split; [done|]. split; [done|]. split; [done|]. split; [set_solver|done]. }
  csimpl in *. apply NoDup_cons in Hnd as [Href Hnd].
  destruct (Hgpu ref) as (l & Hl & Hg); [set_solver|].
  destruct (slots_mark_cpu n _ _ t ref l s Hts Hl Hg) as (t1 & Hrun & Hts1 & Hm1 & _ & Ho1).
  assert (∀ r, r ≠ ref → loc_of t1 r = loc_of t r) as Hsame
    by (intros r Hr; by rewrite Ho1, decide_False).
  destruct (IH t1 Hts1 Hnd) as (t2 & Hrun2 & Hts2 & Hm2 & Hin2 & Hout2).
  { intros r Hr. rewrite Hsame by (by intros ->). apply Hgpu. set_solver. }
  exists t2. split; [etrans; [apply bind_ok; exact Hrun|exact Hrun2]|]. split; [done|]. split; [by etrans|]. split.
  - intros r s' [[= -> ->]|Hin]%elem_of_cons.
    + exists l. split; [done|]. rewrite Hout2, Ho1, decide_True by done. done.
    + destruct (Hin2 r s' Hin) as (l' & Hl' & Hr'). exists l'. split; [|done].
      rewrite <-Hl'. symmetry. apply Hsame. intros ->. apply Href.
      apply list_elem_of_fmap. by exists (ref, s').
  - intros r [Hne Hr]%not_elem_of_cons. rewrite Hout2 by done. by apply Hsame.
Qed.

Lemma mfor_zoom_residency {A} (l : list A) (f : A → M table unit) m t' :
  mfor l f (om_residency m) = (Ok tt, t') →
  mfor l (λ x, on_residency (f x)) m = (Ok tt, with_residency t' m).
Proof.
  revert m. induction l as [|x l IH]; intros m; simpl.
  { intros [= <-]. by destruct m. }
  unfold bind at 1. destruct (f x (om_residency m)) as [[[]|e] t1] eqn:Ef; [|done].
  intros Hl. erewrite bind_ok by (apply zoom_ok; exact Ef).
  by rewrite (IH (with_residency t1 m) Hl).
Qed.

(** What a successful offload of the victims [vs] does. *)
Record offloaded (vs : list (BlockRef * Z)) m m' : Prop := {
  of_slots : om_slots n m';
  of_gpu : gpu_caches m' = gpu_caches m;
  of_scorer : scorer m' = scorer m;
  of_moved : moved (om_residency m) (om_residency m');
  of_shape : shape (cpu_cache m') = shape (cpu_cache m);
  of_layout : kv_layout m' = kv_layout m;
  (** each victim is now CPU-resident in a slot that was free, holding its page *)
  of_victims : ∀ ref g, (ref, g) ∈ vs → ∃ l s,
    om_loc m ref = Some l ∧ s ∈ _cpu_free m ∧
    om_loc m' ref = Some (Loc CPU (gpu_block_id l) (Some s) None (complete l)) ∧
    ∀ k lyr, gpu_caches m !! k = Some lyr →
      ∃ p, k_cache lyr !! Z.to_nat g = Some p ∧
           slab_at (cpu_cache m') k (Z.to_nat s) = Some (page_to_slab p);
  (** all other blocks and the contents of occupied slots are as before *)
  of_others : ∀ ref, ref ∉ vs.*1 → om_loc m' ref = om_loc m ref;
  of_contents : cpu_outside (_cpu_free m) (cpu_cache m) (cpu_cache m');
}.

Lemma zip_fst_snd {A B} (l : list A) (k : list B) :
  length k = length l → (zip l k).*1 = l ∧ (zip l k).*2 = k.
Proof. intros Hl. split; [apply fst_zip|apply snd_zip]; lia. Qed.

Lemma offload_batch_wp io vs m :
  om_slots n m → NoDup vs.*1 →
  (∀ ref, ref ∈ vs.*1 → ∃ l, om_loc m ref = Some l ∧ residency l = GPU) →
  wp (offload_batch io vs) (λ _, offloaded vs m) (λ _, not_stored m) m.
Proof.
  intros Hinv Hnd Hgpu. unfold offload_batch. wp_step.
  eapply wp_mono; [apply copy_batch_wp; by apply slots_free_NoDup| |done].
  intros slots m1 (f & c' & -> & Hf & Hlen & Hout & Hhit). simpl in *.
  set (m1 := with_events _ _).
  assert (length slots = length vs.*1) as Hlen' by (rewrite Hlen, !length_fmap; done).
  destruct (zip_fst_snd vs.*1 slots Hlen') as [Hz1 Hz2].
  destruct (mark_all_run (zip vs.*1 slots) f (om_residency m1)) as
    (t' & Hrun & Hts & Hmov & Hin & Hother); [|by rewrite Hz1|by rewrite Hz1|].
  { destruct Hinv as [Hok Hown Hp]. split; [done|done|]. rewrite Hz2, <-Hp, Hf. simpl.
    rewrite <-!(assoc app). by rewrite reverse_Permutation. }
  unfold wp. rewrite (mfor_zoom_residency _ _ m1 t' Hrun). split; simpl; try done.
  - apply Hout.
  - intros ref g Hv. apply list_elem_of_lookup in Hv as [i Hi].
    destruct (lookup_lt_is_Some_2 slots i) as [s Hs].
    { apply lookup_lt_Some in Hi. rewrite Hlen', length_fmap. done. }
    assert ((ref, s) ∈ zip vs.*1 slots) as Hzip.
    { apply list_elem_of_lookup. exists i. apply lookup_zip_with_Some. exists ref, s.
      by rewrite list_lookup_fmap, Hi, Hs. }
    destruct (Hin ref s Hzip) as (l & Hl & Hl'). exists l, s. split; [done|].
    split. { rewrite Hf, elem_of_app, elem_of_reverse. right. by eapply list_elem_of_lookup_2. }
    split; [done|]. intros k lyr Hk. apply (Hhit k lyr i g s Hk); [|done].
    by rewrite list_lookup_fmap, Hi.
  - intros ref Hr. apply Hother. by rewrite Hz1.
  - eapply cpu_outside_weaken; [|done]. intros s Hs. rewrite Hf, elem_of_app, elem_of_reverse. by right.
Qed.

Lemma not_stored_slots m m' : om_slots n m → not_stored m m' → om_slots n m'.
Proof.
  intros [Hok Hown Hp] (f & c' & -> & Hf & _). split; [done|done|]. simpl. by rewrite Hf.
Qed.
End OpsInv.

(** ** When a batch cannot fail *)

(** The CPU cache has one layer per GPU layer, each with [n] slots. *)
Definition caches_ok {S} (n : Z) (m : offload S) : Prop :=
  shape (cpu_cache m) = replicate (length (gpu_caches m)) (Z.to_nat n).
(** The pages exist in every layer. *)
Definition pages_exist {S} (m : offload S) (ids : list Z) : Prop :=
  Forall (λ lyr, Forall (λ id, 0 ≤ id < zlen (k_cache lyr)) ids) (gpu_caches m).

Section Success.
Context {S : Type} (n : Z).
Implicit Types m : offload S.

Lemma index_copy_total {A} (xs : list A) ids src :
  Forall (λ i, 0 ≤ i < zlen xs) ids → ∃ xs', index_copy xs ids src = Ok xs'.
Proof. intros Hids%forallb_range. unfold index_copy. rewrite Hids. by eexists. Qed.

Lemma scatter_layers_total slots host layer m :
  NoDup slots → Forall (λ src, length src = length slots) host →
  Forall (λ s, 0 ≤ s < n) slots →
  (layer + length host ≤ length (cpu_cache m))%nat →
  shape (cpu_cache m) = replicate (length (cpu_cache m)) (Z.to_nat n) →
  ∃ m', scatter_layers None slots layer host m = (Ok tt, m').
Proof.
  intros Hnd Hlen Hs. revert layer m.
  induction Hlen as [|src host Hsrc _ IH]; intros layer m Hlay Hsh; [by eexists|].
  simpl in Hlay. destruct (lookup_lt_is_Some_2 (cpu_cache m) layer) as [dst Hdst]; [lia|].
  assert (length dst = Z.to_nat n) as Hdl.
  { assert (shape (cpu_cache m) !! layer = Some (length dst)) as Hl
      by (unfold shape; by rewrite list_lookup_fmap, Hdst).
    rewrite Hsh in Hl. by apply lookup_replicate in Hl as [? _]. }
  destruct (index_copy_total dst slots src) as [new Hnew].
  { eapply Forall_impl; [exact Hs|]. intros s Hr. cbn beta in *. unfold zlen. rewrite Hdl. lia. }
  destruct (index_copy_Ok _ _ _ _ Hnew Hnd Hsrc) as (Hnl & _ & _).
  simpl. erewrite bind_ok by reflexivity. run_step.
  assert (py_index (cpu_cache m) (Z.of_nat layer) = Ok dst) as Hpy
    by (apply py_index_Ok; [lia|]; by rewrite Nat2Z.id).
  rewrite Hpy. erewrite bind_ok by reflexivity. cbn beta. rewrite Hnew.
  erewrite bind_ok by reflexivity. cbn beta. run_step.
  apply IH; simpl; rewrite length_insert; [lia|].
  rewrite <-Hsh. unfold shape. rewrite list_fmap_insert. apply list_insert_id.
  rewrite list_lookup_fmap, Hdst. simpl. by rewrite Hnl.
Qed.

Lemma copy_batch_total ids m :
  om_slots n m → caches_ok n m → pages_exist m ids → ids ≠ [] → zlen ids ≤ zlen (_cpu_free m) →
  ∃ slots m', _copy_gpu_to_cpu_batch None ids m = (Ok slots, m').
Proof.
  intros Hinv Hc Hp Hne Hle. unfold _copy_gpu_to_cpu_batch.
  assert ((0 <? zlen ids) = true) as H1.
  { apply Z.ltb_lt. pose proof (zlen_nonneg ids).
    destruct (decide (zlen ids = 0)) as [?%zlen_zero|]; [done|lia]. }
  do 3 run_step.
  destruct (cpu_allocate_all ids m) as (f & slots & Hf & Hl & Hrun); [unfold zlen in *; lia|].
  run_step.
  destruct (result_mapM_total (gather_layer ids) (gpu_caches m)) as [host Hhost].
  { eapply Forall_impl; [exact Hp|]. intros lyr Hids. unfold gather_layer.
    destruct (index_select_total (k_cache lyr) ids Hids) as [ps ->]. by eexists. }
  destruct (gather_Ok _ _ _ Hhost) as [Hlen _]. rewrite <-Hl in Hlen.
  assert (length host = length (gpu_caches m)) as Hhl
    by (apply result_mapM_Ok in Hhost; by apply Forall2_length in Hhost).
  assert (length (cpu_cache m) = length (gpu_caches m)) as Hcl.
  { unfold caches_ok, shape in Hc. apply (f_equal length) in Hc.
    by rewrite length_fmap, length_replicate in Hc. }
  pose proof (slots_free_NoDup n m Hinv) as Hnd. rewrite Hf in Hnd.
  destruct (scatter_layers_total slots host 0 (with_cpu_free f m)) as [m' Hm'];
    [|done| |simpl; lia|simpl; by rewrite Hcl|].
  - apply NoDup_app in Hnd as (_ & _ & Hr). by rewrite reverse_Permutation in Hr.
  - apply Forall_forall. intros s Hs. destruct Hinv as [_ _ Hpart].
    apply elem_of_zrange. rewrite <-Hpart, Hf, !elem_of_app, elem_of_reverse. auto.
  - erewrite bind_ok; [by do 2 eexists|]. unfold catch. unfold bind at 1, gets at 1. simpl.
    unfold bind at 1, lift. by rewrite Hhost, Hm'.
Qed.

Lemma offload_batch_total vs m :
  om_slots n m → caches_ok n m → pages_exist m vs.*2 → vs ≠ [] → zlen vs ≤ zlen (_cpu_free m) →
  NoDup vs.*1 → (∀ ref, ref ∈ vs.*1 → ∃ l, om_loc m ref = Some l ∧ residency l = GPU) →
  ∃ m', offload_batch None vs m = (Ok tt, m') ∧ offloaded n vs m m'.
Proof.
  intros Hinv Hc Hp Hne Hle Hnd Hgpu.
  destruct (copy_batch_total vs.*2 m Hinv Hc Hp) as (slots & m1 & Hrun);
    [by destruct vs|unfold zlen in *; by rewrite length_fmap|].
  pose proof (offload_batch_wp n None vs m Hinv Hnd Hgpu) as Hwp.
  unfold wp in Hwp. destruct (offload_batch None vs m) as [[[]|e] m'] eqn:E; [by exists m'|].
  exfalso. unfold offload_batch in E. erewrite bind_ok in E by exact Hrun.
  pose proof (copy_batch_wp None vs.*2 m (slots_free_NoDup n m Hinv)) as Hst.
  unfold wp in Hst. rewrite Hrun in Hst. destruct Hst as (f & c' & -> & Hf & Hlen & _).
  assert (length slots = length vs.*1) as Hlen' by (rewrite Hlen, !length_fmap; done).
  destruct (zip_fst_snd vs.*1 slots Hlen') as [Hz1 Hz2].
  destruct (mark_all_run n (zip vs.*1 slots) f (om_residency m)) as (t' & Hr & _);
    [|by rewrite Hz1|by rewrite Hz1|].
  { destruct Hinv as [Hok Hown Hpt]. split; [done|done|]. rewrite Hz2, <-Hpt, Hf. simpl.
    rewrite <-!(assoc app). by rewrite reverse_Permutation. }
  erewrite (mfor_zoom_residency _ _ (with_events _ _) t') in E by exact Hr. done.
Qed.
End Success.

(** ** Offload passes *)
Section Passes.
Context {S : Type} `{LawfulScorer S} (n : Z).
Implicit Types m : offload S.

(** The candidates an offload pass chooses from. *)
Definition eligible m (scored_blocks : gset BlockRef) (candidates : list BlockRef)
    : list BlockRef :=
  filter (λ r, r ∈ scored_blocks ∧ is_gpu_complete m r = true) candidates.

Lemma live_victims_all m refs :
  table_ok (om_residency m) → (∀ r, r ∈ refs → is_gpu_complete m r = true) →
  (live_victims m refs).*1 = refs ∧
  ∀ ref g, (ref, g) ∈ live_victims m refs →
    ∃ l, om_loc m ref = Some l ∧ residency l = GPU ∧ gpu_block_id l = Some g.
Proof.
  intros Hok. induction refs as [|r refs IH]; intros Hall; [split; [done|set_solver]|].
  destruct IH as [IH1 IH2]; [set_solver|].
  assert (is_gpu_complete m r = true) as Hr by (apply Hall; set_solver).
  unfold is_gpu_complete in Hr. destruct (om_loc m r) as [l|] eqn:El; [|done].
  apply andb_prop in Hr as [Hg%bool_decide_eq_true _].
  destruct (to_loc _ Hok r l El) as ([g Hgid] & _).
  unfold live_victims. csimpl. rewrite El. destruct l as [res gid cs ss c]. simpl in *. subst.
  fold (live_victims m refs). csimpl. split; [by f_equal|].
  intros ref g' [[= -> ->]|Hin]%elem_of_cons; [by eexists|by apply IH2].
Qed.

Lemma live_victims_scorer s m refs : live_victims (with_scorer s m) refs = live_victims m refs.
Proof. done. Qed.

Lemma live_victims_gpu m refs : table_ok (om_residency m) →
  (∀ r, r ∈ refs → is_gpu_complete m r = true) →
  ∀ ref, ref ∈ (live_victims m refs).*1 → ∃ l, om_loc m ref = Some l ∧ residency l = GPU.
Proof.
  intros Hok Hall ref ([r g] & -> & Hin)%list_elem_of_fmap.
  destruct (live_victims_all m refs Hok Hall) as [_ Hv].
  destruct (Hv r g Hin) as (l & ? & ? & _). by exists l.
Qed.

(** The victims the scorer picks from eligible candidates. *)
Lemma select_run m cands k :
  (∀ r, r ∈ cands → scored (scorer m) r) → 0 ≤ k ≤ zlen cands →
  ∃ ev s', on_scorer (select_for_eviction cands k) m = (Ok ev, with_scorer s' m) ∧
    zlen ev = zlen cands - k ∧ (∀ r, r ∈ ev → r ∈ cands) ∧ (NoDup cands → NoDup ev) ∧
    (scorer_ok (scorer m) → scorer_ok s') ∧ (∀ ref, scored s' ref ↔ scored (scorer m) ref).
Proof.
  intros Hs Hk. destruct (select_law cands k (scorer m) Hs Hk)
    as (ev & s' & Hrun & Hlen & [rest Hp] & Hoks & Hsc).
  exists ev, s'. split; [by apply zoom_ok|]. split; [done|]. split; [|split; [|done]].
  - intros r Hr. rewrite Hp. set_solver.
  - rewrite Hp. by intros [? _]%NoDup_app.
Qed.

Lemma offload_fraction_wp io candidates fraction sb m :
  om_slots n m → NoDup candidates → zlen candidates < 2 ^ 52 → 0 ≤ fraction < f64_one →
  (∀ r, r ∈ sb → scored (scorer m) r) →
  let cands := eligible m sb candidates in
  wp (offload_fraction io candidates fraction sb)
    (λ r m', (cands = [] ∧ r = [] ∧ m' = m) ∨
       ∃ vs s', zlen vs = n_offload (zlen cands) fraction ∧ (∀ x, x ∈ vs.*1 → x ∈ cands) ∧
         NoDup vs.*1 ∧ (scorer_ok (scorer m) → scorer_ok s') ∧
         (∀ ref, scored s' ref ↔ scored (scorer m) ref) ∧
         (∀ ref g, (ref, g) ∈ vs → om_loc m ref ≫= gpu_block_id = Some g) ∧
         ((r = vs.*1 ∧ offloaded n vs (with_scorer s' m) m') ∨
          (r = [] ∧ not_stored (with_scorer s' m) m' ∧
           (io = None → caches_ok n m → pages_exist m vs.*2 → zlen (_cpu_free m) < zlen vs))))
    (λ _ _, False) m.
Proof.
  intros Hinv Hnd Hlen Hf Hsb cands. unfold offload_fraction.
  do 2 wp_step; [|apply andb_false_iff in H1; lia]. do 2 wp_step. fold (eligible m sb candidates).
  fold cands.
  assert (∀ r, r ∈ cands → r ∈ candidates ∧ r ∈ sb ∧ is_gpu_complete m r = true) as Hc
    by (intros r [[? ?] ?]%list_elem_of_filter; done).
  assert (NoDup cands) as Hndc by by apply NoDup_filter.
  assert (zlen cands ≤ zlen candidates) as Hlc.
  { unfold zlen. apply inj_le. apply submseteq_length, NoDup_submseteq; [done|].
    intros r ?%Hc. naive_solver. }
  destruct ((n_offload (zlen cands) fraction <=? 0) || (zlen cands =? 0)) eqn:E.
  { wp_step. left. split; [|done]. apply zlen_zero.
    apply orb_prop in E as [E|E]; [unfold n_offload in E; lia|lia]. }
  apply orb_false_iff in E as [E1 E2]. pose proof (zlen_nonneg cands).
  pose proof (n_offload_bounds (zlen cands) fraction Hf ltac:(lia)) as Hn.
  destruct (select_run m cands (zlen cands - n_offload (zlen cands) fraction))
    as (ev & s' & Hrun & Hev & Hsub & Hndev & Hsok & Hsc); [intros r Hr; apply Hsb; by apply Hc|lia|].
  wp_step. unfold wp at 1. rewrite Hrun. do 2 wp_step. rewrite live_victims_scorer.
  assert (∀ r, r ∈ ev → is_gpu_complete m r = true) as Hgc by (intros r Hr; by apply Hc, Hsub).
  destruct (live_victims_all m ev) as [Hv1 Hv2]; [apply Hinv|done|].
  pose proof (live_victims_gpu m ev ltac:(apply Hinv) Hgc) as Hgpu.
  set (vs := live_victims m ev) in *.
  assert (zlen vs = n_offload (zlen cands) fraction) as Hvl.
  { unfold zlen in *. rewrite <-(length_fmap fst vs), Hv1. lia. }
  assert (vs ≠ []) as Hne by (intros Hnil%zlen_zero; lia).
  rewrite bool_decide_eq_false_2 by done.
  assert (NoDup vs.*1) as Hndv by (rewrite Hv1; by apply Hndev).
  assert (om_slots n (with_scorer s' m)) as Hinv' by exact Hinv.
  assert (∀ ref g, (ref, g) ∈ vs → om_loc m ref ≫= gpu_block_id = Some g) as Hgid.
  { intros ref g Hin. destruct (Hv2 ref g Hin) as (l & -> & _ & Hl). done. }
  assert (∀ x, x ∈ vs.*1 → x ∈ cands) as Hsub' by (rewrite Hv1; done).
  wp_step. wp_step.
  pose proof (offload_batch_wp n io vs (with_scorer s' m) Hinv' Hndv Hgpu) as Hwp.
  unfold wp in Hwp |- *.
  destruct (offload_batch io vs (with_scorer s' m)) as [[[]|e] m'] eqn:Eb; cbn.
  - right. exists vs, s'. do 6 (split; [done|]). left. done.
  - right. exists vs, s'. do 6 (split; [done|]). right. do 2 (split; [done|]).
    intros -> Hca Hpe. destruct (decide (zlen vs ≤ zlen (_cpu_free m))); [|lia]. exfalso.
    destruct (offload_batch_total n vs (with_scorer s' m)) as (m2 & Hm2 & _); try done.
    by rewrite Eb in Hm2.
Qed.

Lemma offload_fraction_slots io candidates fraction sb m :
  om_slots n m → NoDup candidates → zlen candidates < 2 ^ 52 → 0 ≤ fraction < f64_one →
  (∀ r, r ∈ sb → scored (scorer m) r) →
  ∃ r m', offload_fraction io candidates fraction sb m = (Ok r, m') ∧ om_slots n m'.
Proof.
  intros Hinv Hnd Hlen Hf Hsb.
  pose proof (offload_fraction_wp io candidates fraction sb m Hinv Hnd Hlen Hf Hsb) as Hwp.
  unfold wp in Hwp. destruct (offload_fraction io candidates fraction sb m) as [[r|e] m']; [|done].
  exists r, m'. split; [done|].
  destruct Hwp as [(_ & _ & ->)|(vs & s' & _ & _ & _ & _ & _ & _ & [[_ Ho]|(_ & Hns & _)])];
    [done|apply Ho|]. by apply (not_stored_slots n (with_scorer s' m)).
Qed.

Lemma om_free_run ref m :
  om_slots n m →
  ∃ m', om_free ref m = (Ok tt, m') ∧ om_slots n m' ∧
    om_loc m' ref = None ∧ (∀ r, r ≠ ref → om_loc m' r = om_loc m r) ∧
    (scorer_ok (scorer m) → scorer_ok (scorer m')) ∧
    (∀ r, scored (scorer m') r ↔ scored (scorer m) r ∧ r ≠ ref) ∧
    moved (om_residency m) (om_residency m') ∧
    gpu_caches m' = gpu_caches m ∧ cpu_cache m' = cpu_cache m ∧ kv_layout m' = kv_layout m ∧
    _cpu_free m' = _cpu_free m ++ option_list (om_loc m ref ≫= cpu_slot).
Proof.
  intros Hinv. destruct (slots_remove n _ _ ref Hinv) as (t' & Hrun & Hm & Ho & Hts).
  destruct (forget_law [ref] (scorer m)) as (s' & Hfor & Hsok & Hsc).
  set (f := _cpu_free m ++ option_list (om_loc m ref ≫= cpu_slot)).
  exists (with_scorer s' (with_cpu_free f (with_residency t' m))).
  split_and!; simpl; try done.
  - unfold om_free, on_residency. run_step.
    erewrite (bind_ok _ _ _ tt (with_cpu_free f (with_residency t' m))).
    + by apply zoom_ok.
    + subst f. unfold om_loc in *. destruct (loc_of (om_residency m) ref) as [[? ? [s|] ? ?]|];
        simpl; rewrite ?app_nil_r; by destruct m.
  - etrans; [exact (Ho ref)|]. by rewrite decide_True.
  - intros r Hr. etrans; [exact (Ho r)|]. rewrite decide_False by done. done.
  - intros r. rewrite Hsc. set_solver.
Qed.
End Passes.

(** ** Scoring a batch *)

Lemma transpose_fmap {A B C} (f : A → B → C) (ls : list A) (ids : list B) :
  ls ≠ [] → transpose ((λ l, f l <$> ids) <$> ls) = (λ id, (λ l, f l id) <$> ls) <$> ids.
Proof.
  intros Hne. destruct ls as [|l0 ls]; [done|]. unfold transpose. csimpl.
  rewrite length_fmap. apply list_eq. intros j. rewrite !list_lookup_fmap.
  destruct (ids !! j) as [id|] eqn:Ej; simpl.
  - rewrite lookup_seq_lt by (by eapply lookup_lt_Some). simpl.
    rewrite list_lookup_fmap, Ej. simpl. do 2 f_equal. clear -Ej.
    induction ls as [|l ls IH]; [done|]. csimpl. rewrite list_lookup_fmap, Ej. simpl. by rewrite IH.
  - apply lookup_ge_None in Ej. by rewrite lookup_seq_ge.
Qed.

(** The V and K norms of one page of one layer. *)
Definition v_norms (T : torch_ops) (layout : string) (l : kv_layer) (id : Z) : list f64 :=
  let '(_, v, lay) := layer_views layout l in page_norms T lay (default [] (v !! Z.to_nat id)).
Definition k_norms (T : torch_ops) (layout : string) (l : kv_layer) (id : Z) : list f64 :=
  let '(k, _, lay) := layer_views layout l in page_norms T lay (default [] (k !! Z.to_nat id)).

(** The pages exist in the K and in the V cache of every layer. *)
Definition kv_pages_exist (g : list kv_layer) (ids : list Z) : Prop :=
  Forall (λ l, Forall (λ id, 0 ≤ id < zlen (k_cache l) ∧
                             0 ≤ id < zlen (default (k_cache l) (v_cache l))) ids) g.

Lemma index_select_eq {A} (xs : list A) ids d :
  Forall (λ i, 0 ≤ i < zlen xs) ids →
  index_select xs ids = Ok ((λ i, default d (xs !! Z.to_nat i)) <$> ids).
Proof.
  intros Hr. apply forallb_range in Hr as Hb. unfold index_select. rewrite Hb. f_equal.
  induction Hr as [|i ids Hi _ IH]; [done|]. csimpl.
  destruct (lookup_lt_is_Some_2 xs (Z.to_nat i)) as [x Hx]; [unfold zlen in Hi; lia|].
  rewrite Hx. simpl. f_equal. apply IH. by apply andb_prop in Hb as [_ ?].
Qed.

Lemma layer_stats_eq T layout refs ids l :
  layout = "NHD"%string ∨ layout = "HND"%string → zlen ids = zlen refs →
  Forall (λ id, 0 ≤ id < zlen (k_cache l) ∧
                0 ≤ id < zlen (default (k_cache l) (v_cache l))) ids →
  layer_stats T layout refs ids l =
  Ok (Stats (v_norms T layout l <$> ids) (k_norms T layout l <$> ids) refs).
Proof.
  intros Hlay Hlen Hr. unfold layer_stats, v_norms, k_norms.
  destruct (layer_views layout l) as [[k v] lay] eqn:Ev.
  assert ((lay = "NHD" ∨ lay = "HND")%string ∧ zlen k = zlen (k_cache l) ∧
          zlen v = zlen (default (k_cache l) (v_cache l))) as (Hl & Hk & Hv).
  { unfold layer_views in Ev. destruct (v_cache l); simplify_eq/=; [done|].
    unfold zlen. rewrite !length_fmap. auto. }
  unfold compute_block_kv_norms. rewrite bool_decide_eq_true_2 by done. simpl.
  rewrite Hlen, Z.eqb_refl. simpl. case_bool_decide as Hnil; [by subst|].
  rewrite (index_select_eq k ids []), (index_select_eq v ids []); simpl.
  - by rewrite <-!list_fmap_compose.
  - eapply Forall_impl; [exact Hr|]. cbn beta. rewrite Hv. tauto.
  - eapply Forall_impl; [exact Hr|]. cbn beta. rewrite Hk. tauto.
Qed.

Section ScoreBatch.
Context {S : Type} `{LawfulScorer S} (T : torch_ops).
Implicit Types m : offload S.

(** Mean over the layers of the norms of one page. *)
Definition mean_v m (id : Z) : list f64 :=
  t_mean T <$> transpose ((λ l, v_norms T (kv_layout m) l id) <$> gpu_caches m).
Definition mean_k m (id : Z) : list f64 :=
  t_mean T <$> transpose ((λ l, k_norms T (kv_layout m) l id) <$> gpu_caches m).

Definition layout_ok m : Prop := kv_layout m = "NHD"%string ∨ kv_layout m = "HND"%string.

Lemma layers_stats m refs ids :
  layout_ok m → gpu_caches m ≠ [] → zlen ids = zlen refs → kv_pages_exist (gpu_caches m) ids →
  ∃ stats, result_mapM (layer_stats T (kv_layout m) refs ids) (gpu_caches m) = Ok stats ∧
    layer_mean T (v_norm <$> stats) = mean_v m <$> ids ∧
    layer_mean T (k_norm <$> stats) = mean_k m <$> ids.
Proof.
  intros Hlay Hne Hlen Hp.
  exists ((λ l, Stats (v_norms T (kv_layout m) l <$> ids) (k_norms T (kv_layout m) l <$> ids) refs)
            <$> gpu_caches m).
  split_and!.
  - apply result_mapM_Ok. apply Forall2_fmap_r.
    induction Hp as [|l g Hl _ IH]; constructor; [by apply layer_stats_eq|].
    destruct g; [constructor|by apply IH].
  - unfold layer_mean. rewrite <-list_fmap_compose. unfold compose. simpl.
    rewrite transpose_fmap by done. rewrite <-list_fmap_compose. done.
  - unfold layer_mean. rewrite <-list_fmap_compose. unfold compose. simpl.
    rewrite transpose_fmap by done. rewrite <-list_fmap_compose. done.
Qed.

Lemma score_block_run ref id m :
  layout_ok m → gpu_caches m ≠ [] → kv_pages_exist (gpu_caches m) [id] →
  score_block T ref id m =
  if is_warmup ref then (Ok tt, m)
  else on_scorer (update (Stats [mean_v m id] [mean_k m id] [ref])) m.
Proof.
  intros Hlay Hne Hp. unfold score_block. destruct (is_warmup ref); [done|].
  destruct (layers_stats m [ref] [id] Hlay Hne eq_refl Hp) as (stats & Hst & Hv & Hk).
  run_step. rewrite Hst. erewrite bind_ok by reflexivity. by rewrite Hv, Hk.
Qed.

Lemma kv_pages_exist_sub g ids ids' :
  (∀ i, i ∈ ids' → i ∈ ids) → kv_pages_exist g ids → kv_pages_exist g ids'.
Proof.
  intros Hs Hp. eapply Forall_impl; [exact Hp|]. intros l Hl. cbn beta in *.
  rewrite Forall_forall in Hl |- *. auto.
Qed.

(** One update with all statistics is the updates one by one. *)
Lemma update_one_by_one m (items : list (BlockRef * Z)) s :
  items ≠ [] →
  update (Stats (mean_v m <$> items.*2) (mean_k m <$> items.*2) items.*1) s =
  mfor items (λ e, update (Stats [mean_v m e.2] [mean_k m e.2] [e.1])) s.
Proof.
  revert s. induction items as [|[r i] items IH]; intros s Hne; [done|].
  destruct items as [|e items].
  - simpl. unfold bind. by destruct (update _ s) as [[[]|] s'].
  - etrans; [exact (update_app [mean_v m i] _ [mean_k m i] _ [r] _ s eq_refl eq_refl)|].
    change (mfor ((r, i) :: e :: items) ?f s) with (bind (f (r, i)) (λ _, mfor (e :: items) f) s).
    unfold bind. simpl fst. simpl snd. destruct (update (Stats [mean_v m i] [mean_k m i] [r]) s) as [[[]|] s'];
      [|done]. by apply IH.
Qed.
End ScoreBatch.

(** Scoring one by one over a list, skipping warm-up requests. *)
Lemma score_seq_run {S} `{LawfulScorer S} T (items : list (BlockRef * Z)) (m : offload S) :
  layout_ok m → gpu_caches m ≠ [] → kv_pages_exist (gpu_caches m) items.*2 →
  mfor items (λ e, score_block T e.1 e.2) m =
  on_scorer (mfor (filter (λ e, is_warmup e.1 = false) items)
               (λ e, update (Stats [mean_v T m e.2] [mean_k T m e.2] [e.1]))) m.
Proof.
  intros Hlay Hne. remember (gpu_caches m) as g eqn:Hg. remember (kv_layout m) as lay eqn:Hl.
  assert (∃ m0 : offload S, gpu_caches m0 = g ∧ kv_layout m0 = lay ∧
            (∀ i, mean_v T m0 i = mean_v T m i) ∧ ∀ i, mean_k T m0 i = mean_k T m i)
    as (m0 & Hg0 & Hl0 & Hv0 & Hk0) by (by exists m).
  assert (∀ its s, mfor its (λ e, update (Stats [mean_v T m e.2] [mean_k T m e.2] [e.1])) s =
            mfor its (λ e, update (Stats [mean_v T m0 e.2] [mean_k T m0 e.2] [e.1])) s) as Hm0.
  { intros its. induction its as [|e its IH]; intros s; [done|]. simpl. rewrite Hv0, Hk0.
    unfold bind. destruct (update _ s) as [[[]|] s']; [apply IH|done]. }
  unfold on_scorer at 1. unfold zoom at 1. rewrite Hm0. clear Hm0 Hv0 Hk0.
  revert m Hlay Hg Hl. induction items as [|[r i] items IH]; intros m Hlay Hg Hl Hp.
  { by destruct m. }
  csimpl in Hp. assert (kv_pages_exist g [i]) as Hpi.
  { eapply kv_pages_exist_sub; [|exact Hp]. set_solver. }
  assert (kv_pages_exist g items.*2) as Hps.
  { eapply kv_pages_exist_sub; [|exact Hp]. set_solver. }
  rewrite Hg in Hne, Hpi. simpl mfor. unfold bind at 1. rewrite score_block_run by done.
  rewrite filter_cons. destruct (is_warmup r) eqn:Ew; simpl is_warmup; rewrite ?Ew.
  - rewrite decide_False by done. rewrite <-Hg in Hne. by apply IH.
  - rewrite decide_True by done.
    assert (mean_v T m i = mean_v T m0 i ∧ mean_k T m i = mean_k T m0 i) as [-> ->].
    { unfold mean_v, mean_k. by rewrite Hg0, Hl0, Hg, Hl. }
    simpl mfor. unfold on_scorer, zoom, bind at 1.
    destruct (update _ (scorer m)) as [[[]|e] s']; [|done].
    rewrite <-Hg in Hne. rewrite (IH (with_scorer s' m)) by done. simpl.
    by destruct (mfor _ _ s') as [? ?].
Qed.

Lemma score_blocks_none {S} `{LawfulScorer S} T fused refs ids (m : offload S) :
  let items := filter (λ e, is_warmup e.1 = false) (zip refs ids) in
  fused (gpu_caches m) items.*2 = None →
  layout_ok m → gpu_caches m ≠ [] → kv_pages_exist (gpu_caches m) (zip refs ids).*2 →
  score_blocks T fused refs ids m =
  on_scorer (mfor items (λ e, update (Stats [mean_v T m e.2] [mean_k T m e.2] [e.1]))) m.
Proof.
  intros items Hf Hlay Hne Hp. unfold score_blocks. fold items.
  case_bool_decide as Hnil; [rewrite Hnil; by destruct m|].
  run_step. rewrite Hf.
  destruct (layers_stats T m items.*1 items.*2 Hlay Hne) as (stats & Hst & Hv & Hk).
  - unfold zlen. by rewrite !length_fmap.
  - eapply kv_pages_exist_sub; [|exact Hp]. intros i (e & -> & He)%list_elem_of_fmap.
    apply list_elem_of_filter in He as [_ He]. apply list_elem_of_fmap. by exists e.
  - rewrite Hst. erewrite bind_ok by reflexivity. rewrite Hv, Hk.
    unfold on_scorer, zoom. by rewrite update_one_by_one.
Qed.

(** ** The properties *)

(** The batched scorer is the per-block scorer: without the fused kernel,
    [score_blocks] has exactly the effect of calling [score_block] on each pair
    in turn (warm-up requests skipped), for every lawful scorer. *)
Theorem score_blocks_is_score_block {S} `{LawfulScorer S} T fused refs ids (m : offload S) :
  (∀ g i, fused g i = None) → layout_ok m → gpu_caches m ≠ [] →
  kv_pages_exist (gpu_caches m) (zip refs ids).*2 →
  score_blocks T fused refs ids m = mfor (zip refs ids) (λ e, score_block T e.1 e.2) m.
Proof.
  intros Hf Hlay Hne Hp. rewrite score_blocks_none by done. by rewrite score_seq_run.
Qed.

(** How many blocks an offload pass takes: for a fraction in [0, 1) the
    float computation [max(1, int(len * fraction + 0.5))] always gives between
    1 and [len] blocks, so the number to keep is never negative. *)
Theorem n_offload_in_range len fraction :
  0 ≤ fraction < f64_one → 1 ≤ len < 2 ^ 52 → 1 ≤ n_offload len fraction ≤ len.
Proof. apply n_offload_bounds. Qed.

(** A fraction of 0 still offloads one block whenever there is a candidate:
    the lower bound of 1 applies although the comment ties it to a positive
    fraction. *)
Theorem zero_fraction_offloads_one len :
  1 ≤ len < 2 ^ 52 → n_offload len 0 = 1.
Proof.
  intros Hl. unfold n_offload.
  assert (fmul (f64_of_int len) 0 = 0) as ->
    by (unfold fmul; rewrite Z.mul_0_r; by apply rnd_0).
  done.
Qed.

(** C25: [offload_fraction] as a whole, for every lawful scorer and every outcome
    of the CUDA transfers: it never raises; with no eligible block it does
    nothing; otherwise it picks exactly [n_offload] eligible blocks and either
    moves all of them (each now CPU-resident in a slot that was free, the slot
    holding its page of every layer, everything else untouched) or moves none
    and gives every slot back; the move can only fail to happen if a transfer
    fails, a page id is out of range or CPU slots run out. *)
Theorem offload_fraction_correct {S} `{LawfulScorer S} n io candidates fraction sb (m : offload S) :
  om_slots n m → NoDup candidates → zlen candidates < 2 ^ 52 → 0 ≤ fraction < f64_one →
  (∀ r, r ∈ sb → scored (scorer m) r) →
  let cands := eligible m sb candidates in
  ∃ r m', offload_fraction io candidates fraction sb m = (Ok r, m') ∧ om_slots n m' ∧
    ((cands = [] ∧ r = [] ∧ m' = m) ∨
     ∃ vs s', zlen vs = n_offload (zlen cands) fraction ∧ (∀ x, x ∈ vs.*1 → x ∈ cands) ∧
       NoDup vs.*1 ∧
       ((r = vs.*1 ∧ offloaded n vs (with_scorer s' m) m') ∨
        (r = [] ∧ not_stored (with_scorer s' m) m' ∧
         (io = None → caches_ok n m → pages_exist m vs.*2 → zlen (_cpu_free m) < zlen vs)))).
Proof.
  intros Hinv Hnd Hlen Hf Hsb cands.
  pose proof (offload_fraction_wp n io candidates fraction sb m Hinv Hnd Hlen Hf Hsb) as Hwp.
  unfold wp in Hwp. destruct (offload_fraction io candidates fraction sb m) as [[r|e] m']; [|done].
  exists r, m'. split; [done|]. fold cands in Hwp.
  destruct Hwp as [(Hc & -> & ->)|(vs & s' & Hl & Hs & Hnv & _ & _ & _ & Hr)].
  { split; [done|]. by left. }
  split; [|right; by exists vs, s'].
  destruct Hr as [[_ Ho]|(_ & Hns & _)]; [apply Ho|].
  by apply (not_stored_slots n (with_scorer s' m)).
Qed.

(** Releasing a block gives its CPU slot back exactly once, removes it from
    the table and from the scorer, and leaves all other blocks, pages and slots
    alone; releasing an unknown block changes neither table nor slots. *)
Theorem om_free_correct {S} `{LawfulScorer S} n ref (m : offload S) :
  om_slots n m →
  ∃ m', om_free ref m = (Ok tt, m') ∧ om_slots n m' ∧
    om_loc m' ref = None ∧ (∀ r, r ≠ ref → om_loc m' r = om_loc m r) ∧
    (∀ r, scored (scorer m') r ↔ scored (scorer m) r ∧ r ≠ ref) ∧
    gpu_caches m' = gpu_caches m ∧ cpu_cache m' = cpu_cache m ∧
    _cpu_free m' = _cpu_free m ++ option_list (om_loc m ref ≫= cpu_slot).
Proof.
  intros Hinv. destruct (om_free_run n ref m Hinv) as (m' & ?&?&?&?&_&?&_&?&?&_&?).
  exists m'. done.
Qed.

Lemma om_init_ok {S} (s : S) ks vs cpu budget layout m :
  om_init s table_init ks vs cpu budget layout = Ok m →
  om_slots (zlen (default [] (head cpu))) m ∧ layout_ok m ∧ gpu_caches m ≠ [] ∧
  scorer m = s ∧ 0 < zlen (default [] (head cpu)) ∧ om_residency m = table_init.
Proof.
  unfold om_init. destruct (negb (zlen ks =? zlen vs)) eqn:E1; [done|].
  case_bool_decide as E2; [done|]. destruct (negb (zlen cpu =? zlen ks)) eqn:E3; [done|].
  destruct (negb (bool_decide _)) eqn:E4; [done|]. destruct (budget <? 0) eqn:E5; [done|].
  destruct (_ <=? 0) eqn:E6; [done|]. intros [= <-].
  apply Z.leb_gt in E6. apply negb_false_iff, Z.eqb_eq in E1.
  apply negb_false_iff, bool_decide_eq_true in E4.
  split_and!; [|done| |done|done|done].
  - split; [apply table_init_ok|by intros ? ? ?|]. simpl. rewrite app_nil_r.
    unfold zrange_down. symmetry. apply Permutation_rev.
  - simpl. destruct ks as [|k ks]; [done|]. destruct vs as [|v vs]; [|done].
    unfold zlen in E1. simpl in E1. lia.
Qed.

(** *** Witnesses: two layers of three pages, two CPU slots, an LRU scorer. *)
Definition demo_pages : list page := [[[[1; 2]]]; [[[3; 4]]]; [[[5; 6]]]].
Definition demo_slab : slab := ([[[0]]], [[[0]]]).
Definition demo_om0 : offload LRUScorer :=
  match om_init lru_init table_init [demo_pages; demo_pages] [None; None]
          [[demo_slab; demo_slab]; [demo_slab; demo_slab]] 1 "NHD" with
  | Ok m => m
  | Raise _ => Offload lru_init table_init [] [] 0 "" [] ∅
  end.
(** Blocks 0 and 1 of request "r" on pages 1 and 2, complete and scored. *)
Definition demo_om1 : offload LRUScorer :=
  let t1 := (mark_gpu (demo_ref 0) 1 true table_init).2 in
  let t2 := (mark_gpu (demo_ref 1) 2 true t1).2 in
  (score_blocks (H:=lru_scorer) (Torch Z.add Z.add (λ _, 0) (λ _, 0) (λ _, 0)) (λ _ _, None)
     [demo_ref 0; demo_ref 1] [1; 2] (with_residency t2 demo_om0)).2.

Lemma demo_om0_init :
  om_init lru_init table_init [demo_pages; demo_pages] [None; None]
    [[demo_slab; demo_slab]; [demo_slab; demo_slab]] 1 "NHD" = Ok demo_om0.
Proof. by vm_compute. Qed.

Lemma demo_om1_slots : om_slots 2 demo_om1.
Proof.
  pose proof (om_init_ok _ _ _ _ _ _ _ demo_om0_init) as (Hs & _).
  destruct (slots_mark_gpu 2 _ _ _ (demo_ref 0) 1 true Hs) as (t1 & H1 & Hs1 & _); [done|].
  destruct (slots_mark_gpu 2 _ _ _ (demo_ref 1) 2 true Hs1) as (t2 & H2 & Hs2 & _).
  { assert (t1 = (mark_gpu (demo_ref 0) 1 true table_init).2) as ->
      by (change (om_residency demo_om0) with table_init in H1; by rewrite H1).
    by vm_compute. }
  assert (om_residency demo_om1 = t2) as Ht.
  { change (om_residency demo_om0) with table_init in H1.
    assert (t1 = (mark_gpu (demo_ref 0) 1 true table_init).2) as E1 by by rewrite H1.
    assert (t2 = (mark_gpu (demo_ref 1) 2 true t1).2) as E2 by by rewrite H2.
    rewrite E2, E1. by vm_compute. }
  unfold om_slots. rewrite Ht. replace (_cpu_free demo_om1) with (_cpu_free demo_om0) by by vm_compute.
  exact Hs2.
Qed.

Lemma score_blocks_is_score_block_witness :
  score_blocks (H:=lru_scorer) (Torch Z.add Z.add (λ _, 0) (λ _, 0) (λ _, 0)) (λ _ _, None)
    [demo_ref 0] [1] demo_om0 =
  mfor (zip [demo_ref 0] [1])
    (λ e, score_block (H:=lru_scorer) (Torch Z.add Z.add (λ _, 0) (λ _, 0) (λ _, 0)) e.1 e.2) demo_om0.
Proof.
  apply (score_blocks_is_score_block (H:=lru_scorer)); [done|by left|by vm_compute|].
  repeat constructor; by vm_compute.
Defined.

Lemma n_offload_in_range_witness : 1 ≤ n_offload 10 (f64_lit 1 2) ≤ 10.
Proof. apply (n_offload_in_range 10 (f64_lit 1 2)); by vm_compute. Defined.

Lemma zero_fraction_offloads_one_witness : n_offload 7 0 = 1.
Proof. apply (zero_fraction_offloads_one 7). by vm_compute. Defined.

Lemma offload_fraction_correct_witness :
  ∃ r m', offload_fraction (H:=lru_scorer) None [demo_ref 0; demo_ref 1] (f64_lit 1 1)
            {[demo_ref 0; demo_ref 1]} demo_om1 = (Ok r, m') ∧ om_slots 2 m'.
Proof.
  destruct (offload_fraction_correct (H:=lru_scorer) 2 None [demo_ref 0; demo_ref 1] (f64_lit 1 1)
              {[demo_ref 0; demo_ref 1]} demo_om1) as (r & m' & H1 & H2 & _).
  - exact demo_om1_slots.
  - apply (bool_decide_unpack _). by vm_compute.
  - by vm_compute.
  - by vm_compute.
  - intros x Hx. apply elem_of_union in Hx as [->%elem_of_singleton| ->%elem_of_singleton];
      by vm_compute; eexists.
  - exists r, m'. exact (conj H1 H2).
Defined.

Lemma om_free_correct_witness :
  ∃ m', om_free (H:=lru_scorer) (demo_ref 0) demo_om1 = (Ok tt, m') ∧ om_slots 2 m'.
Proof.
  destruct (om_free_correct (H:=lru_scorer) 2 (demo_ref 0) demo_om1 demo_om1_slots)
    as (m' & H1 & H2 & _). exists m'. exact (conj H1 H2).
Defined.
