(* ===== verification/StagingPool.v ===== *)
(** * The staging pool

    Models [KVStagingPool] of offload_package/staging/pool.py: the reserved
    tail pages of the GPU cache that hold copies of CPU-resident blocks.  The
    pool shares the residency table, the scorer and the caches with the offload
    manager, so its state contains the manager's.  As in OffloadManager.v the
    outcome of the CUDA copies is an argument, [None] or [Some k] for an
    exception before the [k]-th layer is written. *)

From S2P Require Import Prelude PyData Float Residency Scoring Pages OffloadManager.
From stdpp Require Import base gmap sets list strings.
From Stdlib Require Import ZArith Lia.
Open Scope Z_scope.

Record staging (S : Type) := Staging {
  num_slots : Z;
  base : Z;
  _lru : list (BlockRef * Z);
  _free : list Z;
  om : offload S;
}.
Arguments Staging {S}.
Arguments num_slots {S}.
Arguments base {S}.
Arguments _lru {S}.
Arguments _free {S}.
Arguments om {S}.

Section StUpdates.
Context {S : Type}.
Implicit Types p : staging S.

Definition with_lru (l : list (BlockRef * Z)) p : staging S :=
  Staging (num_slots p) (base p) l (_free p) (om p).
Definition with_free (f : list Z) p : staging S :=
  Staging (num_slots p) (base p) (_lru p) f (om p).
Definition with_om (m : offload S) p : staging S :=
  Staging (num_slots p) (base p) (_lru p) (_free p) m.
Definition on_om {A} (op : M (offload S) A) : M (staging S) A := zoom om with_om op.
Definition sp_loc p (ref : BlockRef) : option BlockLocation := om_loc (om p) ref.

(** [try: m except RuntimeError: h] *)
Definition catch_runtime {A} (m h : M (staging S) A) : M (staging S) A :=
  catch m (λ e, if decide (e = RuntimeError) then h else raise e).
End StUpdates.

Section Pool.
Context {S : Type} `{BlockScorer S}.

(** [gpu_k_caches[0].shape[0]] *)
Definition gpu_pages (m : offload S) : Z :=
  match gpu_caches m with l :: _ => zlen (k_cache l) | [] => 0 end.

Definition sp_init (slots base_page : Z) (m : offload S) : result (staging S) :=
  if slots <=? 0 then Raise ValueError
  else if base_page <? 0 then Raise ValueError
  else if gpu_pages m <? base_page + slots then Raise ValueError
  else Ok (Staging slots base_page [] (zrange_down slots) m).

(** The candidates for eviction: staged entries of the LRU not reserved by the
    current batch. *)
Definition evictable (p : staging S) (exclude : gset Z) : list BlockRef :=
  (filter (λ e, e.2 ∉ exclude ∧ was_res STAGING (sp_loc p e.1) = true) (_lru p)).*1.

Definition _allocate_slot (exclude : gset Z) : M (staging S) Z :=
  let! f := gets _free in
  match py_pop f with
  | Some (slot, f') => modify (with_free f') >> ret slot
  | None =>
      let! cands := gets (λ p, evictable p exclude) in
      if bool_decide (cands = []) then raise RuntimeError
      else
        let! sc := on_om (on_scorer (scores cands)) in
        match argmin score_leb sc ≫= λ i, cands !! i with
        | None => raise IndexError
        | Some evicted =>
            let! old := gets (λ p, sp_loc p evicted) in
            match old ≫= cpu_slot with
            | None => raise RuntimeError
            | Some cs =>
                on_om (on_residency (mark_cpu evicted cs)) >>
                let! l := gets _lru in
                match dget evicted l with
                | None => raise KeyError
                | Some slot => modify (with_lru (dpop evicted l)) >> ret slot
                end
            end
        end
  end.

(** The first loop of [ensure_resident]: what is staged already, what is to be
    fetched. *)
Fixpoint classify (refs : list BlockRef) (res : list (BlockRef * Z))
    (fetch : list (BlockRef * Z)) : M (staging S) (list (BlockRef * Z) * list (BlockRef * Z)) :=
  match refs with
  | [] => ret (res, fetch)
  | ref :: refs' =>
      let! o := gets (λ p, sp_loc p ref) in
      match o with
      | None => raise KeyError
      | Some (Loc GPU _ _ _ _) => classify refs' res fetch
      | Some (Loc STAGING _ _ (Some s) _) =>
          let! l := gets _lru in
          let! l' := lift (dmove_to_end ref l) in
          modify (with_lru l') >>
          classify refs' (dset ref s res) fetch
      | Some (Loc _ _ (Some cs) _ _) =>
          on_om (wait_cpu_slot cs) >> classify refs' res (fetch ++ [(ref, cs)])
      | Some (Loc _ _ None _ _) => raise RuntimeError
      end
  end.

(** Phase 1: reserve slots; [allocs] holds (ref, cpu slot, staging slot). *)
Fixpoint reserve (fetch : list (BlockRef * Z)) (allocs : list (BlockRef * Z * Z))
    (skipped : list BlockRef) (protected : gset Z)
    : M (staging S) (list (BlockRef * Z * Z) * list BlockRef) :=
  match fetch with
  | [] => ret (allocs, skipped)
  | (ref, cs) :: fetch' =>
      let! o := catch_runtime (let! s := _allocate_slot protected in ret (Some s)) (ret None) in
      match o with
      | None => reserve fetch' allocs (skipped ++ [ref]) protected
      | Some slot =>
          reserve fetch' (allocs ++ [(ref, cs, slot)]) skipped ({[slot]} ∪ protected)
      end
  end.

(** Phase 2: per layer, gather the slabs and write them to the staging pages. *)
Fixpoint fetch_layers (io : option nat) (cslots pages : list Z) (layer : nat)
    (todo : nat) : M (offload S) unit :=
  match todo with
  | O => ret tt
  | Datatypes.S todo' =>
      (if bool_decide (io = Some layer) then raise CudaError else ret tt) >>
      let! m := gets (λ m, m) in
      let! src := lift (py_index (cpu_cache m) (Z.of_nat layer)) in
      let! slabs := lift (index_select src cslots) in
      let! l := lift (py_index (gpu_caches m) (Z.of_nat layer)) in
      let! new := lift (index_copy (k_cache l) pages (slab_to_page <$> slabs)) in
      modify (λ m, with_gpu (<[layer := Layer new (v_cache l)]> (gpu_caches m)) m) >>
      fetch_layers io cslots pages (Datatypes.S layer) todo'
  end.

Definition ensure_resident (io : option nat) (refs : list BlockRef)
    : M (staging S) (list (BlockRef * Z) * list BlockRef) :=
  let! rf := classify (dedup refs) [] [] in
  let '(res, fetch) := rf in
  if bool_decide (fetch = []) then ret (res, [])
  else
    let! a := reserve fetch [] [] ∅ in
    let '(allocs, skipped) := a in
    catch
      (let! p := gets (λ p, p) in
       on_om (fetch_layers io ((λ a, a.1.2) <$> allocs) ((λ a, a.2 + base p) <$> allocs) 0
                (length (gpu_caches (om p)))))
      (λ e, mfor allocs (λ a, modify (λ p, with_free (_free p ++ [a.2]) p)) >> raise e) >>
    mfor allocs (λ a,
      modify (λ p, with_lru (dset a.1.1 a.2 (_lru p)) p) >>
      on_om (on_residency (mark_staging a.1.1 a.2))) >>
    ret (foldl (λ r a, dset a.1.1 a.2 r) res allocs, skipped).

Definition release (ref : BlockRef) : M (staging S) unit :=
  let! l := gets _lru in
  match dget ref l with
  | None => ret tt
  | Some slot =>
      modify (with_lru (dpop ref l)) >>
      modify (λ p, with_free (_free p ++ [slot]) p) >>
      let! o := gets (λ p, sp_loc p ref) in
      match o with
      | Some (Loc STAGING _ (Some cs) (Some s) _) =>
          if s =? slot then on_om (on_residency (mark_cpu ref cs)) else ret tt
      | _ => ret tt
      end
  end.
End Pool.

(** Running an operation of a nested object. *)
Lemma om_scorer_ok {S A} (op : M S A) (p : staging S) a s' :
  op (scorer (om p)) = (Ok a, s') →
  on_om (on_scorer op) p = (Ok a, with_om (with_scorer s' (om p)) p).
Proof. intros H. by apply zoom_ok, zoom_ok. Qed.
Lemma om_residency_ok {S A} (op : M table A) (p : staging S) a t' :
  op (om_residency (om p)) = (Ok a, t') →
  on_om (on_residency op) p = (Ok a, with_om (with_residency t' (om p)) p).
Proof. intros H. by apply zoom_ok, zoom_ok. Qed.

(** ** The invariant *)

(** [sp_inv n res p]: the manager's slot invariant holds; every staging slot is
    exactly once free, reserved by the running batch ([res]) or occupied; and
    the LRU and the residency table agree on who occupies which slot. *)
Record sp_inv {S} (n : Z) (res : list Z) (p : staging S) : Prop := {
  si_om : om_slots n (om p);
  si_dict : dict_ok (_lru p);
  si_part : _free p ++ res ++ dvalues (_lru p) ≡ₚ zrange 0 (num_slots p);
  si_agree : ∀ ref s, dget ref (_lru p) = Some s ↔
    ∃ l, sp_loc p ref = Some l ∧ residency l = STAGING ∧ staging_slot l = Some s;
}.

(** [demotes p p']: blocks may have been moved from staging back to CPU, and
    nothing else moved. *)
Definition demoted (l : BlockLocation) : BlockLocation :=
  Loc CPU (gpu_block_id l) (cpu_slot l) None (complete l).
Definition demotes {S} (p p' : staging S) : Prop :=
  ∀ r, sp_loc p' r = sp_loc p r ∨
       ∃ l, sp_loc p r = Some l ∧ residency l = STAGING ∧ sp_loc p' r = Some (demoted l).

#[global] Instance demotes_po {S} : PreOrder (@demotes S).
Proof.
  split; [by left|]. intros p1 p2 p3 H1 H2 r.
  destruct (H1 r) as [E1|(l & Hl & Hs & E1)], (H2 r) as [E2|(l' & Hl' & Hs' & E2)].
  - left. congruence.
  - right. exists l'. by rewrite <-E1.
  - right. exists l. by rewrite E2.
  - rewrite E1 in Hl'. by simplify_eq.
Qed.

Lemma demotes_keep {S} (p p' : staging S) r l :
  demotes p p' → sp_loc p r = Some l → residency l ≠ STAGING → sp_loc p' r = Some l.
Proof. intros Hd Hl Hr. destruct (Hd r) as [?|(l' & ? & ? & _)]; congruence. Qed.

(** What no operation before the copies touches. *)
Definition same_caches {S} (p p' : staging S) : Prop :=
  gpu_caches (om p') = gpu_caches (om p) ∧ cpu_cache (om p') = cpu_cache (om p) ∧
  base p' = base p ∧ num_slots p' = num_slots p ∧ _cpu_free (om p') = _cpu_free (om p) ∧
  kv_layout (om p') = kv_layout (om p).

#[global] Instance same_caches_po {S} : PreOrder (@same_caches S).
Proof.
  split; [done|]. intros p1 p2 p3 (?&?&?&?&?&?) (?&?&?&?&?&?). unfold same_caches.
  split_and!; congruence.
Qed.

Lemma dvalues_dpop (ref : BlockRef) (s : Z) d :
  dget ref d = Some s → dvalues d ≡ₚ s :: dvalues (dpop ref d).
Proof. intros Hd. unfold dvalues. by rewrite (dpop_Permutation ref s d Hd) at 1. Qed.

Section Inv.
Context {S : Type} `{LawfulScorer S} (n : Z).
Implicit Types p : staging S.

Lemma si_slot_unique res p r r' s :
  sp_inv n res p → dget r (_lru p) = Some s → dget r' (_lru p) = Some s → r = r'.
Proof.
  intros [_ Hd Hp _] H1 H2. destruct (decide (r = r')) as [|Hne]; [done|]. exfalso.
  assert (NoDup (dvalues (_lru p))) as Hnd.
  { assert (NoDup (zrange 0 (num_slots p))) as Hz by apply NoDup_zrange.
    rewrite <-Hp in Hz. apply NoDup_app in Hz as (_ & _ & Hz). by apply NoDup_app in Hz as (_&_&?). }
  rewrite (dvalues_dpop r s _ H1), NoDup_cons in Hnd. destruct Hnd as [Hn _]. apply Hn.
  unfold dvalues. apply list_elem_of_fmap. exists (r', s). split; [done|].
  apply dget_elem_of_1. by rewrite dget_dpop_ne.
Qed.

(** Demoting a staged block frees its slot to whoever asked. *)
Lemma demote_run res p ref l s cs :
  sp_inv n res p → sp_loc p ref = Some l → residency l = STAGING →
  dget ref (_lru p) = Some s → cpu_slot l = Some cs →
  ∃ t', mark_cpu ref cs (om_residency (om p)) = (Ok tt, t') ∧
    let p' := with_lru (dpop ref (_lru p)) (with_om (with_residency t' (om p)) p) in
    sp_inv n (s :: res) p' ∧ demotes p p' ∧ moved (om_residency (om p)) t'.
Proof.
  intros [Hom Hd Hp Ha] Hl Hr Hs Hcs.
  destruct (mark_cpu_run _ (ts_ok _ _ _ _ Hom) ref l cs Hl) as (t' & Hrun & Hok & Hm & Hk & Ho).
  exists t'. split; [done|]. simpl. set (p' := with_lru _ _).
  assert (∀ r, sp_loc p' r = if decide (ref = r) then Some (demoted l) else sp_loc p r) as Hloc.
  { intros r. unfold sp_loc, om_loc. simpl. rewrite (Ho r). unfold demoted. by rewrite Hcs. }
  split; [|split; [|done]].
  - split.
    + eapply slots_same_slot; [exact Hom|exact Hl|done|exact Hk|exact Ho|done|].
      simpl. by rewrite Hr.
    + by apply dict_ok_dpop.
    + simpl. rewrite <-Hp, (dvalues_dpop ref s _ Hs). solve_Permutation.
    + intros r s'. simpl. rewrite dget_dpop by done. rewrite Hloc. case_decide; [|apply Ha].
      split; [done|]. intros (x & [= <-] & ? & _). done.
  - intros r. rewrite Hloc. case_decide; subst; [right|by left]. by exists l.
Qed.

Lemma evictable_spec res p ex ref :
  sp_inv n res p →
  ref ∈ evictable p ex ↔ ∃ s l, dget ref (_lru p) = Some s ∧ s ∉ ex ∧
    sp_loc p ref = Some l ∧ residency l = STAGING ∧ staging_slot l = Some s.
Proof.
  intros Hinv. unfold evictable. rewrite list_elem_of_fmap. split.
  - intros ([r s] & -> & [[Hs Hw] Hin]%list_elem_of_filter). simpl in *.
    apply dget_elem_of in Hin; [|apply Hinv].
    apply (si_agree _ _ _ Hinv) in Hin as Hl. destruct Hl as (l & Hl & ? & ?).
    exists s, l. done.
  - intros (s & l & Hd & Hs & Hl & Hr & _). exists (ref, s). split; [done|].
    apply list_elem_of_filter. simpl. unfold was_res, is_res. rewrite Hl.
    rewrite bool_decide_eq_true_2 by done. split; [done|].
    apply dget_elem_of; [apply Hinv|done].
Qed.

(** [_allocate_slot]: a free slot, or the slot of the lowest-scored staged block
    outside the batch, which goes back to CPU; [RuntimeError] (and no change)
    only when neither exists. *)
Lemma allocate_slot_wp res ex p :
  sp_inv n res p → (∀ s, s ∈ res → s ∈ ex) →
  wp (_allocate_slot ex)
    (λ slot p', sp_inv n (slot :: res) p' ∧ demotes p p' ∧ same_caches p p' ∧
       moved (om_residency (om p)) (om_residency (om p')) ∧
       (scorer_ok (scorer (om p)) → scorer_ok (scorer (om p'))) ∧
       (∀ r, scored (scorer (om p')) r ↔ scored (scorer (om p)) r))
    (λ e p', e = RuntimeError ∧ p' = p ∧ _free p = [] ∧ evictable p ex = []) p.
Proof.
  intros Hinv Hex. unfold _allocate_slot. do 2 wp_step.
  destruct (py_pop (_free p)) as [[slot f']|] eqn:Ep.
  { apply py_pop_Some in Ep. wp_steps. destruct Hinv as [Hom Hd Hp Ha].
    split; [|split; [by left|split; [done|split; [reflexivity|done]]]].
    split; try done. simpl. rewrite <-Hp, Ep. solve_Permutation. }
  apply py_pop_None in Ep. do 2 wp_step. case_bool_decide as Hc; [by wp_step|].
  destruct (scores_law (evictable p ex) (scorer (om p))) as (sc & s' & Hsc & Hl & Hsok & Hscd).
  wp_step. unfold wp at 1. rewrite (om_scorer_ok _ _ _ _ Hsc).
  set (p1 := with_om _ p).
  assert (sp_inv n res p1) as Hinv1 by (destruct Hinv; by split).
  destruct (evictable p ex) as [|c cs] eqn:Ecs; [done|].
  destruct sc as [|x sc]; [done|].
  destruct (argmin score_leb (x :: sc)) as [i|] eqn:Ei; [|done].
  destruct (argmin_spec score_leb score_leb_total score_leb_trans _ _ Ei) as (mn & Hi & _).
  destruct (lookup_lt_is_Some_2 (c :: cs) i) as [evd Hevd];
    [rewrite <-Hl; by eapply lookup_lt_Some|].
  simpl mbind. rewrite Hevd.
  assert (evd ∈ evictable p ex) as Hev by (rewrite Ecs; by eapply list_elem_of_lookup_2).
  apply (evictable_spec res) in Hev as (s & l & Hd & Hs & Hloc & Hr & Hss); [|done].
  destruct (to_loc _ (ts_ok _ _ _ _ (si_om _ _ _ Hinv)) evd l Hloc) as (_ & Hcpu & _).
  destruct Hcpu as [csl Hcsl]; [by rewrite Hr|].
  do 2 wp_step. unfold p1 at 1. change (sp_loc (with_om _ p) evd) with (sp_loc p evd).
  rewrite Hloc. simpl mbind. rewrite Hcsl.
  destruct (demote_run res p1 evd l s csl Hinv1 Hloc Hr Hd Hcsl) as (t' & Hrun & Hinv2 & Hdem & Hmov).
  wp_step. unfold wp at 1. rewrite (om_residency_ok _ _ _ _ Hrun).
  do 2 wp_step. simpl. rewrite Hd. do 3 wp_step. split; [exact Hinv2|]. split; [exact Hdem|].
  split; [done|]. split; [exact Hmov|]. done.
Qed.
End Inv.

(** ** Phase 0 and 1 *)

(** The refs of a batch that live on the CPU, with their CPU slots. *)
Definition cpu_entry {S} (p : staging S) (r : BlockRef) : option (BlockRef * Z) :=
  match sp_loc p r with
  | Some (Loc CPU _ (Some cs) _ _) => Some (r, cs)
  | _ => None
  end.
(** The refs that are staged already, with their staging slots. *)
Definition staged_entry {S} (p : staging S) (r : BlockRef) : option (BlockRef * Z) :=
  match sp_loc p r with
  | Some (Loc STAGING _ _ (Some s) _) => Some (r, s)
  | _ => None
  end.
Definition dset_all (d : list (BlockRef * Z)) (l : list (BlockRef * Z)) : list (BlockRef * Z) :=
  foldl (λ r e, dset e.1 e.2 r) d l.

Section Phases.
Context {S : Type} `{LawfulScorer S} (n : Z).
Implicit Types p : staging S.

(** [p'] differs from [p] in the order of the LRU and in drained events only. *)
Definition reordered p p' : Prop :=
  ∃ l' ev, p' = with_lru l' (with_om (with_events ev (om p)) p) ∧ l' ≡ₚ _lru p.

Lemma reordered_refl p : reordered p p.
Proof. exists (_lru p), (_store_events (om p)). split; [by destruct p as [? ? ? ? []]|done]. Qed.
Lemma reordered_trans p1 p2 p3 : reordered p1 p2 → reordered p2 p3 → reordered p1 p3.
Proof.
  intros (l1 & e1 & -> & H1) (l2 & e2 & -> & H2). exists l2, e2. split; [done|].
  simpl in H2. by rewrite H2.
Qed.

Lemma sp_inv_reordered res p p' : reordered p p' → sp_inv n res p → sp_inv n res p'.
Proof.
  intros (l' & ev & -> & Hl) [Hom Hd Hp Ha]. split; simpl.
  - exact Hom.
  - by apply (dict_ok_perm (_lru p)).
  - unfold dvalues in *. by rewrite Hl.
  - intros ref s. rewrite <-(dget_perm (_lru p) l') by done. apply Ha.
Qed.

Lemma classify_run refs res fetch p :
  sp_inv n [] p → (∀ r, r ∈ refs → is_Some (sp_loc p r)) →
  ∃ p', classify refs res fetch p =
          (Ok (dset_all res (omap (staged_entry p) refs), fetch ++ omap (cpu_entry p) refs), p') ∧
        reordered p p'.
Proof.
  revert res fetch p. induction refs as [|ref refs IH]; intros res fetch p Hinv Hk.
  { exists p. simpl. rewrite app_nil_r. split; [done|apply reordered_refl]. }
  destruct (Hk ref) as [l Hl]; [set_solver|].
  assert (∀ p1, reordered p p1 → ∀ res fetch, ∃ p', classify refs res fetch p1 =
            (Ok (dset_all res (omap (staged_entry p) refs), fetch ++ omap (cpu_entry p) refs), p') ∧
            reordered p p') as Hrest.
  { intros p1 Hp1 res' fetch'. assert (∀ r, sp_loc p1 r = sp_loc p r) as Hsame
      by (by destruct Hp1 as (l1 & ev & -> & _)).
    destruct (IH res' fetch' p1) as (p' & Hrun & Hp'); [by eapply sp_inv_reordered| |].
    - intros r Hr. rewrite Hsame. apply Hk. set_solver.
    - exists p'. split; [|by eapply reordered_trans]. rewrite Hrun.
      assert (∀ r, staged_entry p1 r = staged_entry p r ∧ cpu_entry p1 r = cpu_entry p r) as He
        by (intros r; unfold staged_entry, cpu_entry; by rewrite Hsame).
      rewrite (omap_ext_in (staged_entry p1) (staged_entry p)) by (intros; apply He).
      by rewrite (omap_ext_in (cpu_entry p1) (cpu_entry p)) by (intros; apply He). }
  destruct (to_loc _ (ts_ok _ _ _ _ (si_om _ _ _ Hinv)) ref l Hl) as (_ & Hcpu & Hst).
  simpl classify. run_step. rewrite Hl. csimpl.
  unfold staged_entry at 1, cpu_entry at 1. rewrite Hl.
  destruct l as [r g cs ss c]. simpl in *. destruct r.
  - destruct ss; apply Hrest, reordered_refl.
  - destruct Hcpu as [cs' ->]; [done|].
    assert (ss = None) as -> by (destruct ss; [destruct Hst as [_ Hst]; by specialize (Hst ltac:(eauto))|done]).
    erewrite bind_ok by reflexivity.
    destruct (Hrest (with_om (with_events (_store_events (om p) ∖ {[cs']}) (om p)) p))
      with (res := res) (fetch := fetch ++ [(ref, cs')]) as (p' & Hrun & Hp').
    { exists (_lru p), (_store_events (om p) ∖ {[cs']}). by destruct p. }
    exists p'. split; [|done]. rewrite <-(assoc app) in Hrun. exact Hrun.
  - destruct Hst as [[s ->] _]; [done|]. destruct Hcpu as [cs' ->]; [done|].
    assert (dget ref (_lru p) = Some s) as Hd.
    { apply (si_agree _ _ _ Hinv). eexists. split; [exact Hl|done]. }
    assert (dmove_to_end ref (_lru p) = Ok (dpop ref (_lru p) ++ [(ref, s)])) as Hmv
      by (unfold dmove_to_end; by rewrite Hd).
    run_step. rewrite Hmv. erewrite bind_ok by reflexivity. run_step.
    destruct (Hrest (with_lru (dpop ref (_lru p) ++ [(ref, s)]) p))
      with (res := dset ref s res) (fetch := fetch) as (p' & Hrun & Hp').
    { exists (dpop ref (_lru p) ++ [(ref, s)]), (_store_events (om p)).
      split; [by destruct p as [? ? ? ? []]|]. rewrite Permutation_app_comm. simpl.
      symmetry. by apply dpop_Permutation. }
    exists p'. done.
Qed.

Lemma exhausted res ex p :
  sp_inv n res p → (∀ s, s ∈ ex → s ∈ res) → _free p = [] → evictable p ex = [] →
  0 ≤ num_slots p → zlen res = num_slots p.
Proof.
  intros Hinv Hex Hf He Hn.
  assert (_lru p = []) as Hl.
  { destruct (_lru p) as [|[r s] l] eqn:El; [done|]. exfalso.
    assert (dget r (_lru p) = Some s) as Hd by (rewrite El; simpl; by rewrite decide_True).
    apply (si_agree _ _ _ Hinv) in Hd as (x & Hx & Hr & Hs).
    assert (r ∈ evictable p ex) as Hin; [|rewrite He in Hin; set_solver].
    apply (evictable_spec n res); [done|]. exists s, x. split_and!; try done.
    - apply (si_agree _ _ _ Hinv). by exists x.
    - intros Hsx%Hex. assert (NoDup (zrange 0 (num_slots p))) as Hz by apply NoDup_zrange.
      rewrite <-(si_part _ _ _ Hinv), Hf, El in Hz. simpl in Hz.
      apply NoDup_app in Hz as (_ & Hd' & _). apply (Hd' s Hsx). unfold dvalues. csimpl. set_solver. }
  pose proof (si_part _ _ _ Hinv) as Hp. rewrite Hf, Hl in Hp. unfold dvalues in Hp. simpl in Hp.
  rewrite app_nil_r in Hp. unfold zlen. rewrite Hp. change (Z.of_nat (length ?l)) with (zlen l).
  rewrite zrange_length. lia.
Qed.

Definition alloc_slots (allocs : list (BlockRef * Z * Z)) : list Z := (λ a, a.2) <$> allocs.

Lemma reserve_run fetch allocs skipped prot p :
  sp_inv n (alloc_slots allocs) p → (∀ s, s ∈ prot ↔ s ∈ alloc_slots allocs) → 0 ≤ num_slots p →
  ∃ new sk p', reserve fetch allocs skipped prot p = (Ok (allocs ++ new, skipped ++ sk), p') ∧
    sp_inv n (alloc_slots (allocs ++ new)) p' ∧ demotes p p' ∧ same_caches p p' ∧
    moved (om_residency (om p)) (om_residency (om p')) ∧
    (scorer_ok (scorer (om p)) → scorer_ok (scorer (om p'))) ∧
    (∀ r, scored (scorer (om p')) r ↔ scored (scorer (om p)) r) ∧
    fst <$> new `sublist_of` fetch ∧ fetch.*1 ≡ₚ ((λ a, a.1.1) <$> new) ++ sk ∧
    (sk = [] ∨ zlen (allocs ++ new) = num_slots p).
Proof.
  revert allocs skipped prot p. induction fetch as [|[ref cs] fetch IH];
    intros allocs skipped prot p Hinv Hprot Hn.
  { exists [], [], p. rewrite !app_nil_r. split; [done|]. split; [done|]. split; [done|].
    split; [done|]. split; [reflexivity|]. split_and!; try done. by left. }
  pose proof (allocate_slot_wp n _ prot p Hinv ltac:(intros; by apply Hprot)) as Hwp.
  simpl reserve. unfold wp in Hwp.
  destruct (_allocate_slot prot p) as [[slot|e] p1] eqn:Ea.
  - destruct Hwp as (Hinv1 & Hd1 & Hc1 & Hm1 & Hk1 & Hs1).
    erewrite bind_ok.
    2: { unfold catch_runtime, catch. unfold bind at 1. rewrite Ea. reflexivity. }
    cbn beta iota.
    destruct (IH (allocs ++ [(ref, cs, slot)]) skipped ({[slot]} ∪ prot) p1)
      as (new & sk & p' & Hrun & Hinv2 & Hd2 & Hc2 & Hm2 & Hk2 & Hs2 & Hsub & Hp2 & Hsk).
    { destruct Hinv1 as [? ? Hp ?]. split; try done. rewrite <-Hp. unfold alloc_slots.
      rewrite fmap_app. simpl. solve_Permutation. }
    { intros s. unfold alloc_slots. rewrite fmap_app, elem_of_app. simpl.
      rewrite elem_of_union, elem_of_singleton, list_elem_of_singleton.
      rewrite Hprot. unfold alloc_slots. tauto. }
    { by destruct Hc1 as (_ & _ & _ & -> & _). }
    exists ((ref, cs, slot) :: new), sk, p'. rewrite <-(assoc app) in Hrun, Hinv2, Hsk. simpl in *.
    split; [exact Hrun|]. split; [done|]. split; [by etrans|]. split; [by etrans|].
    split; [by etrans|]. split; [tauto|]. split; [intros r; by rewrite Hs2, Hs1|].
    split; [by apply sublist_skip|]. split; [by rewrite Hp2|].
    destruct Hc1 as (_ & _ & _ & <- & _). done.
  - destruct Hwp as (-> & -> & Hf & He).
    erewrite bind_ok.
    2: { unfold catch_runtime, catch. unfold bind at 1. rewrite Ea. rewrite decide_True by done. reflexivity. }
    cbn beta iota.
    destruct (IH allocs (skipped ++ [ref]) prot p Hinv Hprot Hn)
      as (new & sk & p' & Hrun & Hinv2 & Hd2 & Hc2 & Hm2 & Hk2 & Hs2 & Hsub & Hp2 & Hsk).
    exists new, (ref :: sk), p'. rewrite <-(assoc app) in Hrun.
    do 7 (split; [done|]). split; [by apply sublist_cons|].
    split; [csimpl; rewrite Hp2; solve_Permutation|]. right.
    assert (zlen (alloc_slots allocs) = num_slots p) as Hall
      by (eapply exhausted; [done|intros s; apply Hprot|done..]).
    assert (zlen (alloc_slots (allocs ++ new)) ≤ num_slots p) as Hle.
    { destruct Hc2 as (_ & _ & _ & Hnum & _). rewrite <-Hnum.
      pose proof (si_part _ _ _ Hinv2) as Hpt. apply Permutation_length in Hpt.
      rewrite !length_app in Hpt. pose proof (zrange_length 0 (num_slots p')) as Hz.
      unfold zlen in *. lia. }
    unfold alloc_slots, zlen in *. rewrite !length_fmap in *. rewrite !length_app in *. lia.
Qed.
End Phases.

(** ** Phase 2: the copies *)

Definition page_at (g : list kv_layer) (k j : nat) : option page :=
  g !! k ≫= λ l, k_cache l !! j.
(** Layer count, pages per layer and separate V caches. *)
Definition gshape (g : list kv_layer) : list (nat * option (list page)) :=
  (λ l, (length (k_cache l), v_cache l)) <$> g.

(** [g'] is [g] with nothing changed outside [pages]. *)
Definition gpu_outside (pages : list Z) (g g' : list kv_layer) : Prop :=
  gshape g' = gshape g ∧
  ∀ k j, Z.of_nat j ∉ pages → page_at g' k j = page_at g k j.

#[global] Instance gpu_outside_po pages : PreOrder (gpu_outside pages).
Proof.
  split; [done|]. intros g1 g2 g3 [H1 H2] [H3 H4]. split; [congruence|].
  intros k j Hj. by rewrite H4, H2.
Qed.

Lemma gpu_insert_outside pages g k l new :
  g !! k = Some l → length new = length (k_cache l) →
  (∀ j : nat, Z.of_nat j ∉ pages → new !! j = k_cache l !! j) →
  gpu_outside pages g (<[k := Layer new (v_cache l)]> g).
Proof.
  intros Hk Hl Hout. split.
  - unfold gshape. rewrite list_fmap_insert. apply list_insert_id.
    rewrite list_lookup_fmap, Hk. simpl. by rewrite Hl.
  - intros k' j Hj. unfold page_at. destruct (decide (k = k')) as [<-|Hne].
    + rewrite list_lookup_insert_eq by by eapply lookup_lt_Some. rewrite Hk. by apply Hout.
    + by rewrite list_lookup_insert_ne.
Qed.

Section Copies.
Context {S : Type}.
Implicit Types m : offload S.

Lemma fetch_layers_wp io cslots pages todo layer m :
  NoDup pages → length cslots = length pages →
  wp (fetch_layers io cslots pages layer todo)
    (λ _ m', ∃ g', m' = with_gpu g' m ∧ gpu_outside pages (gpu_caches m) g' ∧
       (∀ k, (k < layer)%nat → g' !! k = gpu_caches m !! k) ∧
       ∀ k i cs pg, (k < todo)%nat → cslots !! i = Some cs → pages !! i = Some pg →
         ∃ sl, slab_at (cpu_cache m) (layer + k) (Z.to_nat cs) = Some sl ∧
               page_at g' (layer + k) (Z.to_nat pg) = Some (slab_to_page sl))
    (λ _ m', ∃ g', m' = with_gpu g' m ∧ gpu_outside pages (gpu_caches m) g') m.
Proof.
  intros Hnd Hlen. revert layer m. induction todo as [|todo IH]; intros layer m; simpl.
  { apply wp_ret. exists (gpu_caches m). split; [by destruct m|]. split; [done|].
    split; [done|]. lia. }
  assert (∃ g', m = with_gpu g' m ∧ gpu_outside pages (gpu_caches m) g') as Hrefl
    by (exists (gpu_caches m); by destruct m).
  wp_step. destruct (bool_decide (io = Some layer)); [by wp_step|].
  do 5 wp_step. destruct (py_index (cpu_cache m) (Z.of_nat layer)) as [src|] eqn:Es; [|done].
  apply py_index_Ok in Es; [|lia]. rewrite Nat2Z.id in Es. do 2 wp_step.
  destruct (index_select src cslots) as [slabs|] eqn:Ei; [|done].
  apply index_select_Ok in Ei as [Hsl Hslabs]. do 2 wp_step.
  destruct (py_index (gpu_caches m) (Z.of_nat layer)) as [l|] eqn:El; [|done].
  apply py_index_Ok in El; [|lia]. rewrite Nat2Z.id in El. do 2 wp_step.
  destruct (index_copy (k_cache l) pages (slab_to_page <$> slabs)) as [new|] eqn:En; [|done].
  apply index_copy_Ok in En as (Hnl & Hin & Hout); [|done|rewrite length_fmap; congruence].
  do 2 wp_step. set (m1 := with_gpu _ m).
  assert (gpu_outside pages (gpu_caches m) (gpu_caches m1)) as Hm1 by by apply gpu_insert_outside.
  eapply wp_mono; [apply (IH (Datatypes.S layer) m1)| |].
  - intros _ m' (g' & -> & Ho & Hlow & Hhit). exists g'. split; [done|]. split; [by etrans|].
    split. { intros k Hk. rewrite Hlow by lia. apply list_lookup_insert_ne. lia. }
    intros [|k] i cs pg Hk Hcs Hpg.
    + rewrite Nat.add_0_r. destruct (Hslabs i cs Hcs) as [_ Hx].
      destruct (lookup_lt_is_Some_2 slabs i) as [sl Hsli];
        [rewrite Hsl; by eapply lookup_lt_Some|].
      exists sl. unfold slab_at, page_at. rewrite Es, Hlow by lia. simpl.
      rewrite list_lookup_insert_eq by by eapply lookup_lt_Some. simpl.
      split; [congruence|]. apply (Hin i pg _ Hpg). by rewrite list_lookup_fmap, Hsli.
    + rewrite <-Nat.add_succ_comm. apply (Hhit k i cs pg); [lia|done|done].
  - intros _ m' (g' & -> & Ho). exists g'. split; [done|]. by etrans.
Qed.

(** With all indices in range and no CUDA failure the copies succeed. *)
Lemma fetch_layers_total nslots npages cslots pages todo layer m :
  NoDup pages → length cslots = length pages →
  Forall (λ s, 0 ≤ s < nslots) cslots → Forall (λ g, 0 ≤ g < npages) pages →
  (layer + todo ≤ length (gpu_caches m))%nat →
  shape (cpu_cache m) = replicate (length (gpu_caches m)) (Z.to_nat nslots) →
  Forall (λ l, zlen (k_cache l) = npages) (gpu_caches m) →
  ∃ m', fetch_layers None cslots pages layer todo m = (Ok tt, m').
Proof.
  intros Hnd Hlen Hcs Hpg. revert layer m.
  induction todo as [|todo IH]; intros layer m Hlay Hsh Hall; [by eexists|].
  assert (length (cpu_cache m) = length (gpu_caches m)) as Hcl.
  { apply (f_equal length) in Hsh. unfold shape in Hsh.
    by rewrite length_fmap, length_replicate in Hsh. }
  destruct (lookup_lt_is_Some_2 (cpu_cache m) layer) as [src Hsrc]; [lia|].
  destruct (lookup_lt_is_Some_2 (gpu_caches m) layer) as [l Hl]; [lia|].
  assert (length src = Z.to_nat nslots) as Hsl.
  { assert (shape (cpu_cache m) !! layer = Some (length src)) as Hx
      by (unfold shape; by rewrite list_lookup_fmap, Hsrc).
    rewrite Hsh in Hx. by apply lookup_replicate in Hx as [? _]. }
  assert (zlen (k_cache l) = npages) as Hkl by (rewrite Forall_lookup in Hall; by eapply Hall).
  destruct (index_select_total src cslots) as [slabs Hslabs].
  { eapply Forall_impl; [exact Hcs|]. intros s Hs. cbn beta in *. unfold zlen. lia. }
  destruct (index_copy_total (k_cache l) pages (slab_to_page <$> slabs)) as [new Hnew].
  { eapply Forall_impl; [exact Hpg|]. intros s Hs. cbn beta in *. by rewrite Hkl. }
  destruct (index_select_Ok _ _ _ Hslabs) as [Hsll _].
  destruct (index_copy_Ok _ _ _ _ Hnew Hnd) as (Hnl & _ & _); [rewrite length_fmap; congruence|].
  simpl. erewrite bind_ok by reflexivity. run_step.
  assert (∀ A (xs : list A) x, xs !! layer = Some x → py_index xs (Z.of_nat layer) = Ok x) as Hpy
    by (intros A xs x Hx; apply py_index_Ok; [lia|]; by rewrite Nat2Z.id).
  rewrite (Hpy _ _ _ Hsrc). erewrite bind_ok by reflexivity. cbn beta.
  rewrite Hslabs. erewrite bind_ok by reflexivity. cbn beta.
  rewrite (Hpy _ _ _ Hl). erewrite bind_ok by reflexivity. cbn beta.
  rewrite Hnew. erewrite bind_ok by reflexivity. cbn beta. run_step.
  apply IH; simpl; rewrite ?length_insert; [lia|done|].
  apply Forall_insert; [done|]. simpl. unfold zlen in *. by rewrite Hnl.
Qed.
End Copies.

(** ** Phase 3 and the whole *)
Section Ensure.
Context {S : Type} `{LawfulScorer S} (n : Z).
Implicit Types p : staging S.

(** A CPU block enters the LRU and the table at a reserved slot. *)
Lemma publish_one res p ref l cs slot :
  sp_inv n (slot :: res) p → sp_loc p ref = Some l → residency l = CPU → cpu_slot l = Some cs →
  ∃ t', mark_staging ref slot (om_residency (om p)) = (Ok tt, t') ∧
    let p' := with_om (with_residency t' (om p)) (with_lru (dset ref slot (_lru p)) p) in
    sp_inv n res p' ∧ moved (om_residency (om p)) t' ∧
    (∀ r, sp_loc p' r = if decide (ref = r)
       then Some (Loc STAGING (gpu_block_id l) (cpu_slot l) (Some slot) (complete l)) else sp_loc p r).
Proof.
  intros [Hom Hd Hp Ha] Hl Hr Hcs.
  destruct (mark_staging_run _ (ts_ok _ _ _ _ Hom) ref l cs slot Hl Hcs)
    as (t' & Hrun & Hok & Hm & Hk & Ho).
  exists t'. split; [done|]. simpl. set (p' := with_om _ _).
  assert (∀ r, sp_loc p' r = if decide (ref = r)
       then Some (Loc STAGING (gpu_block_id l) (cpu_slot l) (Some slot) (complete l)) else sp_loc p r)
    as Hloc by (intros r; exact (Ho r)).
  assert (dget ref (_lru p) = None) as Habs.
  { apply eq_None_not_Some. intros [s Hs]. apply Ha in Hs as (x & Hx & Hst & _). congruence. }
  split; [|done]. split.
  - eapply slots_same_slot; [exact Hom|exact Hl|done|exact Hk|exact Ho|done|]. simpl. by rewrite Hr.
  - by apply dict_ok_dset.
  - simpl. rewrite dset_absent by done. rewrite <-Hp. unfold dvalues. rewrite fmap_app. simpl.
    solve_Permutation.
  - intros r s. simpl. rewrite dget_dset, Hloc. case_decide; [|apply Ha].
    split; [intros [= <-]; by eexists|]. intros (x & [= <-] & _ & [= <-]). done.
Qed.

Lemma publish_run allocs p :
  sp_inv n (alloc_slots allocs) p → NoDup ((λ a, a.1.1) <$> allocs) →
  (∀ a, a ∈ allocs → ∃ l, sp_loc p a.1.1 = Some l ∧ residency l = CPU ∧ cpu_slot l = Some a.1.2) →
  ∃ p', mfor allocs (λ a,
          modify (λ p, with_lru (dset a.1.1 a.2 (_lru p)) p) >>
          on_om (on_residency (mark_staging a.1.1 a.2))) p = (Ok tt, p') ∧
    sp_inv n [] p' ∧ same_caches p p' ∧ scorer (om p') = scorer (om p) ∧
    moved (om_residency (om p)) (om_residency (om p')) ∧
    (∀ a, a ∈ allocs → ∃ l, sp_loc p a.1.1 = Some l ∧
       sp_loc p' a.1.1 = Some (Loc STAGING (gpu_block_id l) (cpu_slot l) (Some a.2) (complete l))) ∧
    (∀ r, r ∉ (λ a, a.1.1) <$> allocs → sp_loc p' r = sp_loc p r).
Proof.
  revert p. induction allocs as [|[[ref cs] slot] allocs IH]; intros p Hinv Hnd Hcpu.
  { exists p. split; [done|]. split; [done|]. split; [done|]. split; [done|].
    split; [reflexivity|]. split; [set_solver|done]. }
  csimpl in *. apply NoDup_cons in Hnd as [Hn Hnd].
  destruct (Hcpu (ref, cs, slot)) as (l & Hl & Hr & Hcs); [set_solver|]. simpl in *.
  destruct (publish_one _ p ref l cs slot Hinv Hl Hr Hcs) as (t' & Hrun & Hinv1 & Hm1 & Hloc1).
  set (p1 := with_om _ _) in *.
  assert (∀ r, r ≠ ref → sp_loc p1 r = sp_loc p r) as Hsame
    by (intros r Hne; by rewrite Hloc1, decide_False).
  destruct (IH p1) as (p' & Hrun2 & Hinv2 & Hc2 & Hs2 & Hm2 & Hin2 & Hout2); [done|done| |].
  { intros a Ha. rewrite Hsame; [apply Hcpu; set_solver|]. intros He. apply Hn. rewrite <-He.
    apply list_elem_of_fmap. by exists a. }
  exists p'. split.
  { etrans; [apply bind_ok|exact Hrun2]. run_step.
    exact (om_residency_ok _ (with_lru (dset ref slot (_lru p)) p) _ _ Hrun). }
  split; [done|]. split; [done|]. split; [done|]. split; [by etrans|]. split.
  - intros a [->|Ha]%elem_of_cons; simpl.
    + exists l. split; [done|]. rewrite Hout2, Hloc1, decide_True by done. done.
    + destruct (Hin2 a Ha) as (x & Hx & Hx'). exists x. split; [|done]. rewrite <-Hx.
      symmetry. apply Hsame. intros He. apply Hn. rewrite <-He. apply list_elem_of_fmap. by exists a.
  - intros r [Hne Hr']%not_elem_of_cons. rewrite Hout2 by done. by apply Hsame.
Qed.

(** The outcome of [ensure_resident refs] from [p], when it returns. *)
Record ensured (refs : list BlockRef) (result : list (BlockRef * Z)) (skipped : list BlockRef)
    p p' : Prop := {
  en_inv : sp_inv n [] p';
  en_cpu : cpu_cache (om p') = cpu_cache (om p) ∧ _cpu_free (om p') = _cpu_free (om p) ∧
           base p' = base p ∧ num_slots p' = num_slots p ∧ kv_layout (om p') = kv_layout (om p);
  en_moved : moved (om_residency (om p)) (om_residency (om p'));
  en_scorer : (scorer_ok (scorer (om p)) → scorer_ok (scorer (om p'))) ∧
              ∀ r, scored (scorer (om p')) r ↔ scored (scorer (om p)) r;
  (** GPU pages outside the staging area are untouched *)
  en_gpu : gpu_outside ((λ s, s + base p) <$> zrange 0 (num_slots p))
             (gpu_caches (om p)) (gpu_caches (om p'));
  (** every requested CPU block is staged at the reported slot, its page equal
      to its CPU copy in every layer, or reported as skipped and unmoved *)
  en_staged : ∀ r cs, r ∈ refs → cpu_entry p r = Some (r, cs) →
    (r ∈ skipped ∧ sp_loc p' r = sp_loc p r) ∨
    (r ∉ skipped ∧ ∃ l s, sp_loc p r = Some l ∧ dget r result = Some s ∧ 0 ≤ s < num_slots p ∧
       sp_loc p' r = Some (Loc STAGING (gpu_block_id l) (cpu_slot l) (Some s) (complete l)) ∧
       ∀ k, (k < length (gpu_caches (om p)))%nat →
         ∃ sl, slab_at (cpu_cache (om p)) k (Z.to_nat cs) = Some sl ∧
               page_at (gpu_caches (om p')) k (Z.to_nat (s + base p)) = Some (slab_to_page sl));
  (** blocks that were not requested can only have been demoted to CPU *)
  en_others : ∀ r, r ∉ refs → sp_loc p' r = sp_loc p r ∨
    ∃ l, sp_loc p r = Some l ∧ residency l = STAGING ∧ sp_loc p' r = Some (demoted l);
  en_skipped : ∀ r, r ∈ skipped → r ∈ refs ∧ is_Some (cpu_entry p r);
  (** nothing is skipped unless the batch filled the whole pool *)
  en_full : zlen (omap (cpu_entry p) (dedup refs)) ≤ num_slots p → skipped = [];
  (** only requested blocks are reported, and no skipped one *)
  en_keys : ∀ r, is_Some (dget r result) → r ∈ refs ∧ r ∉ skipped;
}.

(** The outcome when the copies raise: no slot leaked, nothing published. *)
Definition not_ensured p p' : Prop :=
  sp_inv n [] p' ∧ demotes p p' ∧ cpu_cache (om p') = cpu_cache (om p) ∧
  _cpu_free (om p') = _cpu_free (om p) ∧
  gpu_outside ((λ s, s + base p) <$> zrange 0 (num_slots p))
    (gpu_caches (om p)) (gpu_caches (om p')) ∧
  base p' = base p ∧ num_slots p' = num_slots p ∧ kv_layout (om p') = kv_layout (om p) ∧
  (scorer_ok (scorer (om p)) → scorer_ok (scorer (om p'))) ∧
  (∀ r, scored (scorer (om p')) r ↔ scored (scorer (om p)) r).
End Ensure.

Section EnsureProof.
Context {S : Type} `{LawfulScorer S} (n : Z).
Implicit Types p : staging S.

Lemma cpu_entries_fst p refs : (omap (cpu_entry p) refs).*1 `sublist_of` refs.
Proof.
  induction refs as [|r refs IH]; [done|]. csimpl.
  destruct (cpu_entry p r) as [[r' cs]|] eqn:E; csimpl; [|by apply sublist_cons].
  assert (r' = r) as ->; [|by apply sublist_skip].
  unfold cpu_entry in E. by repeat (case_match; simplify_eq).
Qed.

Lemma cpu_entry_Some p r e :
  cpu_entry p r = Some e →
  e.1 = r ∧ ∃ l, sp_loc p r = Some l ∧ residency l = CPU ∧ cpu_slot l = Some e.2.
Proof.
  unfold cpu_entry. intros E. repeat (case_match; simplify_eq). simpl. split; [done|]. by eexists.
Qed.

Lemma elem_of_cpu_entries p (refs : list BlockRef) r cs :
  (r, cs) ∈ omap (cpu_entry p) refs ↔ r ∈ refs ∧ cpu_entry p r = Some (r, cs).
Proof.
  rewrite list_elem_of_omap. split.
  - intros (x & Hx & E). destruct (cpu_entry_Some _ _ _ E) as [He _]. simpl in He. by subst.
  - intros [? ?]. by exists r.
Qed.

(** The keys of a dict filled in a loop. *)
Lemma dget_foldl_key {A} (f : A → BlockRef) (g : A → Z) (l : list A) d r :
  is_Some (dget r (foldl (λ d a, dset (f a) (g a) d) d l)) → is_Some (dget r d) ∨ r ∈ f <$> l.
Proof.
  revert d. induction l as [|a l IH]; intros d Hr; [by left|]. csimpl in *.
  apply IH in Hr as [Hr|Hr]; [|set_solver]. rewrite dget_dset in Hr. case_decide; [subst; set_solver|by left].
Qed.

Lemma dget_publish (allocs : list (BlockRef * Z * Z)) d a :
  NoDup ((λ a, a.1.1) <$> allocs) → a ∈ allocs →
  dget a.1.1 (foldl (λ r a, dset a.1.1 a.2 r) d allocs) = Some a.2.
Proof.
  revert d. induction allocs as [|b allocs IH]; intros d Hnd Ha; [set_solver|].
  csimpl in *. apply NoDup_cons in Hnd as [Hb Hnd].
  apply elem_of_cons in Ha as [->|Ha]; [|by apply IH].
  assert (∀ (l : list (BlockRef * Z * Z)) d', b.1.1 ∉ (λ a, a.1.1) <$> l →
            dget b.1.1 (foldl (λ r a, dset a.1.1 a.2 r) d' l) = dget b.1.1 d') as Hskip.
  { clear. intros l. induction l as [|c l IH]; intros d' Hn; [done|]. csimpl in *.
    apply not_elem_of_cons in Hn as [? ?]. rewrite IH by done. by apply dget_dset_ne. }
  rewrite Hskip by done. apply dget_dset_eq.
Qed.

(** The slots of a batch are distinct staging slots. *)
Lemma reserved_slots res p :
  sp_inv n res p → NoDup res ∧ ∀ s, s ∈ res → 0 ≤ s < num_slots p.
Proof.
  intros [_ _ Hp _]. assert (NoDup (zrange 0 (num_slots p))) as Hz by apply NoDup_zrange.
  rewrite <-Hp in Hz. apply NoDup_app in Hz as (_ & _ & Hz). apply NoDup_app in Hz as (Hz & _ & _).
  split; [done|]. intros s Hs. apply elem_of_zrange. rewrite <-Hp. set_solver.
Qed.

Lemma sp_inv_gpu res p g : sp_inv n res p → sp_inv n res (with_om (with_gpu g (om p)) p).
Proof. intros [? ? ? ?]. by split. Qed.

Lemma give_back (allocs : list (BlockRef * Z * Z)) p :
  mfor allocs (λ a, modify (λ p, with_free (_free p ++ [a.2]) p)) p =
  (Ok tt, with_free (_free p ++ alloc_slots allocs) p).
Proof.
  revert p. induction allocs as [|a allocs IH]; intros p.
  { rewrite app_nil_r. by destruct p. }
  etrans; [by eapply mfor_cons|]. rewrite IH. simpl. by rewrite <-(assoc app).
Qed.

Lemma gpu_outside_weaken pages pages' g g' :
  (∀ s, s ∈ pages → s ∈ pages') → gpu_outside pages g g' → gpu_outside pages' g g'.
Proof. intros Hs [H1 H2]. split; [done|]. intros k j Hj. apply H2. auto. Qed.

(** The batch after phase 1. *)
Record reserved_batch p p1 (refs : list BlockRef) (allocs : list (BlockRef * Z * Z))
    (skipped : list BlockRef) : Prop := {
  rb_inv : sp_inv n (alloc_slots allocs) p1;
  rb_demotes : demotes p p1;
  rb_caches : same_caches p p1;
  rb_moved : moved (om_residency (om p)) (om_residency (om p1));
  rb_sok : scorer_ok (scorer (om p)) → scorer_ok (scorer (om p1));
  rb_scored : ∀ r, scored (scorer (om p1)) r ↔ scored (scorer (om p)) r;
  rb_nodup : NoDup ((λ a, a.1.1) <$> allocs);
  rb_alloc : ∀ a, a ∈ allocs → a.1.1 ∈ refs ∧ cpu_entry p a.1.1 = Some a.1;
  rb_cover : ∀ r, r ∈ refs → is_Some (cpu_entry p r) →
    r ∈ skipped ∨ ∃ a, a ∈ allocs ∧ a.1.1 = r;
  rb_skipped : ∀ r, r ∈ skipped →
    r ∈ refs ∧ is_Some (cpu_entry p r) ∧ r ∉ (λ a, a.1.1) <$> allocs;
  rb_full : zlen (omap (cpu_entry p) (dedup refs)) ≤ num_slots p → skipped = [];
}.

Lemma reserve_batch p p0 refs :
  sp_inv n [] p → 0 ≤ num_slots p → reordered p p0 →
  ∃ allocs skipped p1,
    reserve (omap (cpu_entry p) (dedup refs)) [] [] ∅ p0 = (Ok (allocs, skipped), p1) ∧
    reserved_batch p p1 refs allocs skipped.
Proof.
  intros Hinv Hn Hre. pose proof (sp_inv_reordered n _ _ _ Hre Hinv) as Hinv0.
  set (fetch := omap (cpu_entry p) (dedup refs)).
  destruct Hre as (l0 & ev & -> & _).
  destruct (reserve_run n fetch [] [] ∅ _ Hinv0) as
    (allocs & sk & p1 & Hrun & Hinv1 & Hd & Hc & Hm & Hk & Hs & Hsub & Hperm & Hfull);
    [set_solver|done|]. simpl in *.
  exists allocs, sk, p1. split; [done|].
  assert (NoDup fetch.*1) as Hndf
    by (eapply sublist_NoDup; [apply (NoDup_dedup refs)|apply cpu_entries_fst]).
  pose proof Hndf as Hnd. rewrite Hperm in Hnd. apply NoDup_app in Hnd as (Hnd & Hdisj & _).
  assert (∀ r, r ∈ fetch.*1 ↔ r ∈ refs ∧ is_Some (cpu_entry p r)) as Hf.
  { intros r. rewrite list_elem_of_fmap. split.
    - intros ([r' cs] & -> & [Hr E]%elem_of_cpu_entries). split; [by apply elem_of_dedup|by eexists].
    - intros [Hr [[r' cs] E]]. destruct (cpu_entry_Some _ _ _ E) as [Er _]. simpl in Er. subst.
      exists (r, cs). split; [done|]. apply elem_of_cpu_entries. by rewrite elem_of_dedup. }
  split; try done.
  - intros [[r cs] s] Ha. simpl. assert ((r, cs) ∈ fetch) as Hin.
    { eapply elem_of_sublist; [|exact Hsub]. apply list_elem_of_fmap. by exists (r, cs, s). }
    apply elem_of_cpu_entries in Hin as [Hr ?]. by rewrite elem_of_dedup in Hr.
  - intros r Hr He. assert (r ∈ fetch.*1) as Hin by by apply Hf.
    rewrite Hperm, elem_of_app, list_elem_of_fmap in Hin. destruct Hin as [(a & -> & ?)|?]; [|by left].
    right. by exists a.
  - intros r Hr. assert (r ∈ fetch.*1) as [? ?]%Hf by (rewrite Hperm; set_solver).
    split; [done|]. split; [done|]. intros Hin. by apply (Hdisj r).
  - intros Hle. fold fetch in Hle. destruct Hfull as [?|Hall]; [done|]. apply Permutation_length in Hperm.
    rewrite length_app, !length_fmap in Hperm. apply zlen_zero. unfold zlen in *. lia.
Qed.
End EnsureProof.

(** The staging area lies inside every layer and the caches have [n] CPU slots. *)
Definition staging_fits {S} (n : Z) (p : staging S) : Prop :=
  caches_ok n (om p) ∧ 0 ≤ base p ∧
  ∃ np, Forall (λ l, zlen (k_cache l) = np) (gpu_caches (om p)) ∧ base p + num_slots p ≤ np.

Section Finish.
Context {S : Type} `{LawfulScorer S} (n : Z).
Implicit Types p : staging S.

Definition copy_phase (io : option nat) (allocs : list (BlockRef * Z * Z)) : M (staging S) unit :=
  let! p := gets (λ p, p) in
  on_om (fetch_layers io ((λ a, a.1.2) <$> allocs) ((λ a, a.2 + base p) <$> allocs) 0
           (length (gpu_caches (om p)))).

Lemma batch_pages p p1 refs allocs skipped :
  reserved_batch n p p1 refs allocs skipped →
  NoDup ((λ a, a.2 + base p1) <$> allocs) ∧
  ∀ s, s ∈ (λ a, a.2 + base p1) <$> allocs → s ∈ (λ s, s + base p) <$> zrange 0 (num_slots p).
Proof.
  intros Hb. destruct (reserved_slots n _ _ (rb_inv _ _ _ _ _ _ Hb)) as [Hnd Hr].
  destruct (rb_caches _ _ _ _ _ _ Hb) as (_ & _ & Hbase & Hnum & _). rewrite Hbase, Hnum in *.
  assert ((λ a : BlockRef * Z * Z, a.2 + base p) <$> allocs =
          (λ s, s + base p) <$> alloc_slots allocs) as ->
    by (unfold alloc_slots; by rewrite <-list_fmap_compose).
  split.
  - apply (NoDup_fmap_2_strong (λ s, s + base p)); [|done]. intros x y _ _ ?. lia.
  - intros s (x & -> & Hx)%list_elem_of_fmap. apply list_elem_of_fmap. exists x.
    split; [done|]. by apply elem_of_zrange, Hr.
Qed.

Lemma copy_phase_wp io p p1 refs allocs skipped :
  reserved_batch n p p1 refs allocs skipped →
  wp (copy_phase io allocs)
    (λ _ p2, ∃ g', p2 = with_om (with_gpu g' (om p1)) p1 ∧
       gpu_outside ((λ s, s + base p) <$> zrange 0 (num_slots p)) (gpu_caches (om p)) g' ∧
       ∀ k a, (k < length (gpu_caches (om p)))%nat → a ∈ allocs →
         ∃ sl, slab_at (cpu_cache (om p)) k (Z.to_nat a.1.2) = Some sl ∧
               page_at g' k (Z.to_nat (a.2 + base p)) = Some (slab_to_page sl))
    (λ _ p2, ∃ g', p2 = with_om (with_gpu g' (om p1)) p1 ∧
       gpu_outside ((λ s, s + base p) <$> zrange 0 (num_slots p)) (gpu_caches (om p)) g') p1.
Proof.
  intros Hb. destruct (batch_pages _ _ _ _ _ Hb) as [Hnd Hin].
  destruct (rb_caches _ _ _ _ _ _ Hb) as (Hg & Hc & Hbase & _ & _).
  unfold copy_phase. do 2 wp_step. apply wp_zoom.
  eapply wp_mono; [apply fetch_layers_wp; [done|by rewrite !length_fmap]| |].
  - intros _ m' (g' & -> & Ho & _ & Hhit). exists g'. split; [done|].
    split; [rewrite <-Hg; by eapply gpu_outside_weaken|].
    intros k a Hk [i Ha]%list_elem_of_lookup. rewrite <-Hc, <-Hbase.
    apply (Hhit k i); [by rewrite Hg|by rewrite list_lookup_fmap, Ha|by rewrite list_lookup_fmap, Ha].
  - intros _ m' (g' & -> & Ho). exists g'. split; [done|].
    rewrite <-Hg. by eapply gpu_outside_weaken.
Qed.

Lemma copy_phase_total p p1 refs allocs skipped :
  sp_inv n [] p → staging_fits n p → reserved_batch n p p1 refs allocs skipped →
  ∃ p2, copy_phase None allocs p1 = (Ok tt, p2).
Proof.
  intros Hinv (Hca & Hb0 & np & Hall & Hfit) Hb. destruct (batch_pages _ _ _ _ _ Hb) as [Hnd Hin].
  destruct (rb_caches _ _ _ _ _ _ Hb) as (Hg & Hc & Hbase & _ & _).
  destruct (fetch_layers_total n np ((λ a, a.1.2) <$> allocs) ((λ a, a.2 + base p1) <$> allocs)
              (length (gpu_caches (om p1))) 0 (om p1)) as [m' Hm'].
  - done.
  - by rewrite !length_fmap.
  - apply Forall_fmap, Forall_forall. intros a Ha. simpl.
    destruct (rb_alloc _ _ _ _ _ _ Hb a Ha) as [_ He].
    apply cpu_entry_Some in He as (_ & l & Hl & _ & Hcs).
    destruct (si_om _ _ _ Hinv) as [Hok _ Hpart]. apply elem_of_zrange. rewrite <-Hpart. simpl.
    apply elem_of_app. right. unfold cpu_used. apply list_elem_of_omap. exists a.1.1.
    split; [apply dget_is_Some; by exists l|]. unfold sp_loc, om_loc in Hl. by rewrite Hl.
  - apply Forall_forall. intros s Hs%Hin. apply list_elem_of_fmap in Hs as (x & -> & Hx%elem_of_zrange). lia.
  - lia.
  - rewrite Hg, Hc. exact Hca.
  - by rewrite Hg.
  - unfold copy_phase. run_step. exists (with_om m' p1). by apply zoom_ok.
Qed.

(** Phases 2 and 3 from a reserved batch. *)
Lemma finish_wp io p p1 refs allocs skipped res0 :
  sp_inv n [] p → reserved_batch n p p1 refs allocs skipped →
  (∀ r, is_Some (dget r res0) → r ∈ refs ∧ cpu_entry p r = None) →
  wp (catch (copy_phase io allocs)
        (λ e, mfor allocs (λ a, modify (λ p, with_free (_free p ++ [a.2]) p)) >> raise e) >>
      mfor allocs (λ a,
        modify (λ p, with_lru (dset a.1.1 a.2 (_lru p)) p) >>
        on_om (on_residency (mark_staging a.1.1 a.2))) >>
      ret (foldl (λ r a, dset a.1.1 a.2 r) res0 allocs, skipped))
    (λ out p', ensured n refs out.1 out.2 p p')
    (λ _ p', not_ensured n p p' ∧ (io = None → ¬ staging_fits n p)) p1.
Proof.
  intros Hinv Hb Hres0. pose proof Hb as [Hinv1 Hd Hc Hm Hk Hs Hnd Hal Hcov Hsk Hfull].
  destruct Hc as (Hg & Hcc & Hbase & Hnum & Hcf & Hlay).
  wp_step. wp_step. pose proof (copy_phase_wp io _ _ _ _ _ Hb) as Hwp.
  unfold wp in Hwp |- *. destruct (copy_phase io allocs p1) as [[[]|e] p2] eqn:Ec.
  - destruct Hwp as (g' & -> & Hout & Hpage).
    set (p2 := with_om (with_gpu g' (om p1)) p1).
    assert (∀ a, a ∈ allocs → ∃ l, sp_loc p a.1.1 = Some l ∧ sp_loc p2 a.1.1 = Some l ∧
              residency l = CPU ∧ cpu_slot l = Some a.1.2) as Hcpu.
    { intros a Ha. destruct (Hal a Ha) as [_ (_ & l & Hl & Hr & Hcs)%cpu_entry_Some].
      exists l. split; [done|]. split; [|done].
      apply (demotes_keep p p1); [done|done|by rewrite Hr]. }
    destruct (publish_run n allocs p2) as (p' & Hrun & Hinv' & Hc' & Hsc' & Hm' & Hin' & Hout');
      [by apply sp_inv_gpu|done| |].
    { intros a Ha. destruct (Hcpu a Ha) as (l & _ & ? & ? & ?). by exists l. }
    erewrite bind_ok by exact Hrun. unfold ret. simpl.
    destruct Hc' as (Hg' & Hcc' & Hbase' & Hnum' & Hcf' & Hlay'). simpl in *.
    split; simpl.
    + done.
    + split_and!; congruence.
    + etrans; [exact Hm|exact Hm'].
    + rewrite Hsc'. simpl. done.
    + rewrite Hg'. done.
    + intros r cs Hr He. destruct (decide (r ∈ skipped)) as [Hrs|Hrs].
      * left. split; [done|]. destruct (Hsk r Hrs) as (_ & _ & Hno). rewrite Hout' by done.
        apply cpu_entry_Some in He as (_ & l & Hl & Hres & _).
        rewrite Hl. apply (demotes_keep p p1); [done|done|by rewrite Hres].
      * right. split; [done|]. destruct (Hcov r Hr) as [?|(a & Ha & <-)]; [by eexists|done|].
        destruct (Hcpu a Ha) as (l & Hl & Hl2 & _). destruct (Hin' a Ha) as (l' & Hl' & Hst).
        assert (l' = l) as -> by congruence. destruct (Hal a Ha) as [_ Ha1]. rewrite He in Ha1. injection Ha1 as Ha1.
        exists l, a.2. split; [done|]. split; [by apply dget_publish|].
        split; [|split; [done|]].
        -- rewrite <-Hnum. apply (reserved_slots n _ _ Hinv1). unfold alloc_slots.
           apply list_elem_of_fmap. by exists a.
        -- intros k Hkk. rewrite Hg'. destruct (Hpage k a Hkk Ha) as (sl & Hsl & Hpg).
           exists sl. rewrite <-Ha1 in Hsl. done.
    + intros r Hr. rewrite Hout'; [apply Hd|]. intros (a & -> & Ha)%list_elem_of_fmap.
      destruct (Hal a Ha) as [? _]. done.
    + intros r Hr. destruct (Hsk r Hr) as (? & ? & _). done.
    + done.
    + intros r [Hr|(a & -> & Ha)%list_elem_of_fmap]%(dget_foldl_key (λ a, a.1.1) snd).
      * destruct (Hres0 r Hr) as [? Hn]. split; [done|]. intros (_ & [? Hsome] & _)%Hsk. congruence.
      * split; [by destruct (Hal a Ha)|]. intros (_ & _ & Hno)%Hsk. apply Hno. by apply (list_elem_of_fmap_2 (λ a, a.1.1)).
  - destruct Hwp as (g' & -> & Hout). rewrite (bind_ok _ _ _ _ _ (give_back _ _)). unfold raise.
    split; [|intros -> Hfits; destruct (copy_phase_total _ _ _ _ _ Hinv Hfits Hb) as [? Hx]; congruence].
    split; [|done]. destruct (sp_inv_gpu n _ _ g' Hinv1) as [H1 H2 H3 H4]. split; try done.
    simpl in *. rewrite <-(assoc app). simpl. exact H3.
Qed.
End Finish.

Section Whole.
Context {S : Type} `{LawfulScorer S} (n : Z).
Implicit Types p : staging S.

Lemma ensured_nothing p p0 refs res :
  sp_inv n [] p → reordered p p0 → omap (cpu_entry p) (dedup refs) = [] →
  (∀ r, is_Some (dget r res) → r ∈ refs ∧ cpu_entry p r = None) →
  ensured n refs res [] p p0.
Proof.
  intros Hinv Hre Hnil Hkeys. pose proof (sp_inv_reordered n _ _ _ Hre Hinv) as Hinv0.
  destruct Hre as (l0 & ev & -> & _). split; simpl; try done.
  - intros r cs Hr He. exfalso.
    assert ((r, cs) ∈ omap (cpu_entry p) (dedup refs)) as Hin
      by (apply elem_of_cpu_entries; by rewrite elem_of_dedup).
    rewrite Hnil in Hin. set_solver.
  - intros r _. by left.
  - set_solver.
  - intros r Hr. split; [by apply Hkeys|by apply not_elem_of_nil].
Qed.

Lemma ensure_resident_wp io refs p :
  sp_inv n [] p → 0 ≤ num_slots p → (∀ r, r ∈ refs → is_Some (sp_loc p r)) →
  wp (ensure_resident io refs)
    (λ out p', ensured n refs out.1 out.2 p p')
    (λ _ p', not_ensured n p p' ∧ (io = None → ¬ staging_fits n p)) p.
Proof.
  intros Hinv Hn Hk. unfold ensure_resident. wp_step.
  destruct (classify_run n (dedup refs) [] [] p Hinv) as (p0 & Hrun & Hre).
  { intros r Hr. apply Hk. by apply elem_of_dedup. }
  unfold wp at 1. rewrite Hrun. cbn beta iota. rewrite app_nil_l.
  assert (∀ r, is_Some (dget r (dset_all [] (omap (staged_entry p) (dedup refs)))) →
    r ∈ refs ∧ cpu_entry p r = None) as Hkeys.
  { intros r [[? [=]]|Hr]%(dget_foldl_key fst snd). apply list_elem_of_fmap in Hr as ([r' s] & -> & Hr).
    apply list_elem_of_omap in Hr as (x & Hx & He). rewrite elem_of_dedup in Hx. unfold staged_entry in He.
    destruct (sp_loc p x) as [[[] ? ? [] ?]|] eqn:E; try done. injection He as <- <-. split; [exact Hx|].
    unfold cpu_entry. cbn. by rewrite E. }
  case_bool_decide as Hnil; [wp_step; by apply ensured_nothing|].
  destruct (reserve_batch n p p0 refs Hinv Hn Hre) as (allocs & sk & p1 & Hres & Hb).
  wp_step. unfold wp at 1. rewrite Hres. cbn beta iota.
  by apply (finish_wp n io p p1 refs allocs sk).
Qed.

Lemma ensure_resident_inv io refs p :
  sp_inv n [] p → 0 ≤ num_slots p → (∀ r, r ∈ refs → is_Some (sp_loc p r)) →
  sp_inv n [] (ensure_resident io refs p).2.
Proof.
  intros Hinv Hn Hk. pose proof (ensure_resident_wp io refs p Hinv Hn Hk) as Hwp.
  unfold wp in Hwp. destruct (ensure_resident io refs p) as [[out|e] p']; simpl;
    [apply Hwp|apply Hwp].
Qed.

Lemma classify_cons ref refs res fetch p :
  classify (ref :: refs) res fetch p =
  bind (classify [ref] res fetch) (λ rf, classify refs rf.1 rf.2) p.
Proof.
  simpl. unfold bind, gets, lift, modify, ret, raise.
  destruct (sp_loc p ref) as [[[] g [cs|] [s|] c]|]; try done;
    by destruct (dmove_to_end ref (_lru p)).
Qed.

Lemma classify_unknown refs res fetch p r :
  sp_inv n [] p → r ∈ refs → sp_loc p r = None →
  ∃ p', classify refs res fetch p = (Raise KeyError, p') ∧ reordered p p'.
Proof.
  revert res fetch p. induction refs as [|ref refs IH]; intros res fetch p Hinv Hr Hl; [set_solver|].
  destruct (decide (is_Some (sp_loc p ref))) as [Hsome|Hnone].
  - assert (r ∈ refs) as Hin.
    { apply elem_of_cons in Hr as [->|?]; [|done]. rewrite Hl in Hsome. by destruct Hsome. }
    destruct (classify_run n [ref] res fetch p Hinv) as (p1 & Hrun & Hre); [set_solver|].
    rewrite classify_cons, (bind_ok _ _ _ _ _ Hrun).
    destruct (IH (dset_all res (omap (staged_entry p) [ref])) (fetch ++ omap (cpu_entry p) [ref]) p1)
      as (p' & Hrun' & Hre'); [by eapply sp_inv_reordered|done| |].
    + destruct Hre as (l1 & ev & -> & _). done.
    + exists p'. split; [done|]. by eapply reordered_trans.
  - exists p. simpl. unfold bind, gets.
    destruct (sp_loc p ref); [destruct Hnone; eauto|]. split; [done|apply reordered_refl].
Qed.

Lemma release_run ref p :
  sp_inv n [] p →
  ∃ p', release ref p = (Ok tt, p') ∧ sp_inv n [] p' ∧ demotes p p' ∧ same_caches p p' ∧
    scorer (om p') = scorer (om p) ∧ moved (om_residency (om p)) (om_residency (om p')) ∧
    (∀ r, r ≠ ref → sp_loc p' r = sp_loc p r) ∧ was_res STAGING (sp_loc p' ref) = false.
Proof.
  intros Hinv. unfold release. run_step. destruct (dget ref (_lru p)) as [s|] eqn:Hd.
  - apply (si_agree _ _ _ Hinv) in Hd as Hl. destruct Hl as (l & Hl & Hr & Hs).
    destruct (to_loc _ (ts_ok _ _ _ _ (si_om _ _ _ Hinv)) ref l Hl) as (_ & Hcpu & _).
    destruct Hcpu as [cs Hcs]; [by rewrite Hr|].
    destruct (demote_run n [] p ref l s cs Hinv Hl Hr Hd Hcs) as (t' & Hrun & Hinv' & Hdem & Hmov).
    do 3 run_step. unfold sp_loc at 1. simpl. change (om_loc (om p) ref) with (sp_loc p ref).
    rewrite Hl. destruct l as [r g cs' ss c]. simpl in *. subst.
    rewrite Z.eqb_refl. set (p1 := with_free _ _).
    rewrite (om_residency_ok _ p1 _ _ Hrun). eexists; split; [reflexivity|].
    assert (∀ r, sp_loc (with_om (with_residency t' (om p1)) p1) r =
              sp_loc (with_lru (dpop ref (_lru p)) (with_om (with_residency t' (om p)) p)) r)
      as Hsame by done.
    destruct (mark_cpu_run _ (ts_ok _ _ _ _ (si_om _ _ _ Hinv)) ref _ cs Hl)
      as (t'' & Hrun' & _ & _ & _ & Ho). rewrite Hrun in Hrun'. injection Hrun' as <-.
    split; [|split; [exact Hdem|split; [done|split; [done|split; [done|split]]]]].
    + destruct Hinv' as [? ? Hp ?]. split; try done. simpl in *. rewrite <-Hp. solve_Permutation.
    + intros r Hne. etrans; [exact (Ho r)|]. by rewrite decide_False.
    + unfold sp_loc, om_loc. simpl. rewrite (Ho ref), decide_True by done. done.
  - exists p. split; [done|]. split; [done|]. split; [by left|]. split; [done|]. split; [done|].
    split; [reflexivity|]. split; [done|].
    destruct (sp_loc p ref) as [l|] eqn:Hl; [|done]. simpl. unfold is_res.
    apply bool_decide_eq_false. intros Hr.
    destruct (to_loc _ (ts_ok _ _ _ _ (si_om _ _ _ Hinv)) ref l Hl) as (_ & _ & Hst).
    destruct Hst as [[s Hs] _]; [done|]. assert (dget ref (_lru p) = Some s); [|congruence].
    apply (si_agree _ _ _ Hinv). by exists l.
Qed.

Lemma sp_init_ok slots base_page (m : offload S) p :
  sp_init slots base_page m = Ok p → om_slots n m →
  (∀ r l, om_loc m r = Some l → residency l ≠ STAGING) →
  sp_inv n [] p ∧ om p = m ∧ num_slots p = slots ∧ base p = base_page ∧ 0 < slots.
Proof.
  unfold sp_init. destruct (slots <=? 0) eqn:E1; [done|]. destruct (base_page <? 0) eqn:E2; [done|].
  destruct (gpu_pages m <? base_page + slots) eqn:E3; [done|]. intros [= <-] Hom Hns.
  split; [|split_and!; try done; lia]. split; simpl; [done|constructor| |].
  - rewrite app_nil_r. unfold zrange_down. symmetry. apply Permutation_rev.
  - intros ref s. split; [done|]. intros (l & Hl & Hr & _). exfalso. by apply (Hns ref l).
Qed.
End Whole.

(** ** The properties *)

(** C26: staging a batch of known blocks, for every lawful scorer and every
    outcome of the copies.  On return every requested CPU block is either staged
    at the slot reported for it, with the staging page of every layer equal to
    its CPU copy, or reported as skipped and unmoved; nothing is skipped while
    the batch fits the pool; other blocks are at most demoted from staging to
    CPU; pages outside the staging area and the CPU cache are untouched.  On an
    exception nothing was published and no slot leaked; the exception can only
    come from a failing copy. *)
Theorem ensure_resident_correct {S} `{LawfulScorer S} n io refs (p : staging S) :
  sp_inv n [] p → 0 ≤ num_slots p → (∀ r, r ∈ refs → is_Some (sp_loc p r)) →
  match ensure_resident io refs p with
  | (Ok (result, skipped), p') => ensured n refs result skipped p p'
  | (Raise _, p') => not_ensured n p p' ∧ (io = None → ¬ staging_fits n p)
  end.
Proof.
  intros Hinv Hn Hk. pose proof (ensure_resident_wp n io refs p Hinv Hn Hk) as Hwp.
  unfold wp in Hwp. destruct (ensure_resident io refs p) as [[[res sk]|e] p']; exact Hwp.
Qed.

(** Asking for an unknown block raises [KeyError] before any slot is
    reserved: nothing moves and the invariant holds. *)
Theorem ensure_resident_unknown {S} `{LawfulScorer S} n io refs r (p : staging S) :
  sp_inv n [] p → r ∈ refs → sp_loc p r = None →
  ∃ p', ensure_resident io refs p = (Raise KeyError, p') ∧ sp_inv n [] p' ∧
        (∀ r', sp_loc p' r' = sp_loc p r') ∧ _free p' = _free p ∧ _lru p' ≡ₚ _lru p.
Proof.
  intros Hinv Hr Hl. destruct (classify_unknown n (dedup refs) [] [] p r Hinv) as (p' & Hrun & Hre);
    [by apply elem_of_dedup|done|].
  exists p'. unfold ensure_resident. rewrite (bind_raise _ _ _ _ _ Hrun).
  split; [done|]. split; [by eapply sp_inv_reordered|]. destruct Hre as (l & ev & -> & Hp). done.
Qed.

(** Two staged blocks never share a staging slot: in every state that
    satisfies the invariant, which all operations keep, equal slots mean equal
    blocks, and a slot in use is not free. *)
Theorem staging_slots_exclusive {S} n (p : staging S) r r' l l' s :
  sp_inv n [] p →
  sp_loc p r = Some l → residency l = STAGING → staging_slot l = Some s →
  sp_loc p r' = Some l' → residency l' = STAGING → staging_slot l' = Some s →
  r = r' ∧ s ∉ _free p ∧ 0 ≤ s < num_slots p.
Proof.
  intros Hinv Hl Hr Hs Hl' Hr' Hs'.
  assert (dget r (_lru p) = Some s) as Hd by (apply (si_agree _ _ _ Hinv); by exists l).
  assert (dget r' (_lru p) = Some s) as Hd' by (apply (si_agree _ _ _ Hinv); by exists l').
  assert (s ∈ dvalues (_lru p)) as Hin
    by (apply list_elem_of_fmap; exists (r, s); split; [done|by apply dget_elem_of_1]).
  pose proof (si_part _ _ _ Hinv) as Hp. simpl in Hp.
  split; [by eapply si_slot_unique|]. split.
  - intros Hf. assert (NoDup (zrange 0 (num_slots p))) as Hz by apply NoDup_zrange.
    rewrite <-Hp in Hz. apply NoDup_app in Hz as (_ & Hz & _). by apply (Hz s).
  - apply elem_of_zrange. rewrite <-Hp. set_solver.
Qed.

(** [release] recycles the block's staging slot once, leaves the block
    CPU-resident (its CPU copy stays the source of truth) and touches no other
    block; releasing a block that is not staged does nothing harmful. *)
Theorem release_correct {S} n ref (p : staging S) :
  sp_inv n [] p →
  ∃ p', release ref p = (Ok tt, p') ∧ sp_inv n [] p' ∧ demotes p p' ∧
    (∀ r, r ≠ ref → sp_loc p' r = sp_loc p r) ∧ was_res STAGING (sp_loc p' ref) = false ∧
    gpu_caches (om p') = gpu_caches (om p) ∧ cpu_cache (om p') = cpu_cache (om p).
Proof.
  intros Hinv. destruct (release_run n ref p Hinv)
    as (p' & Hrun & Hinv' & Hd & (Hg & Hc & _) & _ & _ & Hr & Hst).
  by exists p'.
Qed.

(** The round trip of a page: if a CPU block's slot holds what offloading a
    GPU page stored there, a successful [ensure_resident] that does not skip the
    block puts exactly that page, of every layer, at its staging page. *)
Theorem offload_stage_roundtrip {S} `{LawfulScorer S} n io refs (p : staging S) result skipped p'
    r cs k pg heads toks :
  sp_inv n [] p → 0 ≤ num_slots p → (∀ x, x ∈ refs → is_Some (sp_loc p x)) →
  ensure_resident io refs p = (Ok (result, skipped), p') →
  r ∈ refs → r ∉ skipped → cpu_entry p r = Some (r, cs) →
  (k < length (gpu_caches (om p)))%nat → (0 < heads)%nat → (0 < toks)%nat → rect heads toks pg →
  slab_at (cpu_cache (om p)) k (Z.to_nat cs) = Some (page_to_slab pg) →
  ∃ s, dget r result = Some s ∧
       page_at (gpu_caches (om p')) k (Z.to_nat (s + base p)) = Some pg.
Proof.
  intros Hinv Hn Hk Hrun Hr Hsk He Hkk HH HN Hrect Hslab.
  pose proof (ensure_resident_wp n io refs p Hinv Hn Hk) as Hwp. unfold wp in Hwp.
  rewrite Hrun in Hwp. simpl in Hwp.
  destruct (en_staged _ _ _ _ _ _ Hwp r cs Hr He) as [[? _]|(_ & l & s & _ & Hd & _ & _ & Hpg)]; [done|].
  exists s. split; [done|]. destruct (Hpg k Hkk) as (sl & Hsl & Hpage).
  rewrite Hslab in Hsl. injection Hsl as <-. rewrite Hpage. f_equal.
  by apply (slab_page_roundtrip heads toks).
Qed.

(** *** Witnesses: one staging slot (page 2), two CPU slots. *)
Definition demo_sp (slots base_page : Z) (m : offload LRUScorer) : staging LRUScorer :=
  Staging slots base_page [] (zrange_down slots) m.
Definition demo_om2 : offload LRUScorer :=
  (offload_fraction (H:=lru_scorer) None [demo_ref 0; demo_ref 1]
     (f64_lit 7 3) {[demo_ref 0; demo_ref 1]} demo_om1).2.
Definition demo_sp1 : staging LRUScorer := demo_sp 1 2 demo_om2.

Lemma demo_om2_slots : om_slots 2 demo_om2.
Proof.
  destruct (offload_fraction_slots (H:=lru_scorer) 2 None [demo_ref 0; demo_ref 1] (f64_lit 7 3)
              {[demo_ref 0; demo_ref 1]} demo_om1 demo_om1_slots) as (r & m' & E & Hs).
  - apply (bool_decide_unpack _). by vm_compute.
  - by vm_compute.
  - by vm_compute.
  - intros x Hx. apply elem_of_union in Hx as [->%elem_of_singleton| ->%elem_of_singleton];
      by vm_compute; eexists.
  - unfold demo_om2. by rewrite E.
Qed.

Lemma demo_sp1_inv : sp_inv 2 [] demo_sp1.
Proof.
  apply (sp_init_ok 2 1 2 demo_om2 demo_sp1); [by vm_compute|exact demo_om2_slots|].
  assert (Forall (λ e : BlockRef * BlockLocation, residency e.2 ≠ STAGING)
            (_blocks (om_residency demo_om2))) as Hall.
  { apply (bool_decide_unpack _). by vm_compute. }
  intros r l Hl. rewrite Forall_forall in Hall. apply (Hall (r, l)). by apply dget_elem_of_1.
Qed.

Lemma demo_sp1_known r : r ∈ [demo_ref 0; demo_ref 1] → is_Some (sp_loc demo_sp1 r).
Proof.
  intros Hr. apply elem_of_cons in Hr as [->|Hr]; [by vm_compute; eexists|].
  apply list_elem_of_singleton in Hr as ->. by vm_compute; eexists.
Qed.

(** Block 0 staged in the only slot. *)
Definition demo_sp2 : staging LRUScorer :=
  (ensure_resident (H:=lru_scorer) None [demo_ref 0] demo_sp1).2.

(** A block that was staged before the batch is not protected from the
    batch's own evictions: with one staging slot, asking for a staged block and
    a CPU block returns both at slot 0, although the first one has just been
    demoted to CPU; the docstring says every reported block is resident
    afterwards. *)
Theorem staged_block_evicted_by_own_batch :
  let out := ensure_resident (H:=lru_scorer) None [demo_ref 0; demo_ref 1] demo_sp2 in
  out.1 = Ok ([(demo_ref 0, 0); (demo_ref 1, 0)], []) ∧
  was_res CPU (sp_loc out.2 (demo_ref 0)) = true ∧
  was_res STAGING (sp_loc out.2 (demo_ref 1)) = true.
Proof. by vm_compute. Qed.

Lemma ensure_resident_correct_witness :
  match ensure_resident (H:=lru_scorer) None [demo_ref 0; demo_ref 1] demo_sp1 with
  | (Ok (result, skipped), p') =>
      ensured (H:=lru_scorer) 2 [demo_ref 0; demo_ref 1] result skipped demo_sp1 p'
  | (Raise _, p') =>
      not_ensured (H:=lru_scorer) 2 demo_sp1 p' ∧ (None = @None nat → ¬ staging_fits 2 demo_sp1)
  end.
Proof.
  apply (ensure_resident_correct (H:=lru_scorer) 2 None [demo_ref 0; demo_ref 1] demo_sp1);
    [exact demo_sp1_inv|by vm_compute|exact demo_sp1_known].
Defined.

Lemma ensure_resident_unknown_witness :
  ∃ p', ensure_resident (H:=lru_scorer) None [demo_ref 0; demo_ref 9] demo_sp1 = (Raise KeyError, p') ∧
        sp_inv 2 [] p' ∧
        (∀ r', sp_loc p' r' = sp_loc demo_sp1 r') ∧ _free p' = _free demo_sp1 ∧
        _lru p' ≡ₚ _lru demo_sp1.
Proof.
  apply (ensure_resident_unknown (H:=lru_scorer) 2 None [demo_ref 0; demo_ref 9] (demo_ref 9) demo_sp1);
    [exact demo_sp1_inv|set_solver|by vm_compute].
Defined.

Lemma demo_sp2_inv : sp_inv 2 [] demo_sp2.
Proof.
  apply (ensure_resident_inv (H:=lru_scorer) 2 None [demo_ref 0] demo_sp1 demo_sp1_inv).
  - by vm_compute.
  - intros r Hr. apply demo_sp1_known. set_solver.
Qed.

Lemma staging_slots_exclusive_witness :
  ∃ l, sp_loc demo_sp2 (demo_ref 0) = Some l ∧ demo_ref 0 = demo_ref 0 ∧ 0 ∉ _free demo_sp2 ∧
       0 ≤ 0 < num_slots demo_sp2.
Proof.
  exists (Loc STAGING (Some 1) (Some 0) (Some 0) true). split; [by vm_compute|].
  apply (staging_slots_exclusive 2 demo_sp2 (demo_ref 0) (demo_ref 0)
           (Loc STAGING (Some 1) (Some 0) (Some 0) true) (Loc STAGING (Some 1) (Some 0) (Some 0) true) 0);
    [exact demo_sp2_inv|by vm_compute..].
Defined.

Lemma release_correct_witness :
  ∃ p', release (demo_ref 0) demo_sp2 = (Ok tt, p') ∧ sp_inv 2 [] p'.
Proof.
  destruct (release_correct 2 (demo_ref 0) demo_sp2 demo_sp2_inv) as (p' & H1 & H2 & _).
  exists p'. exact (conj H1 H2).
Defined.

Lemma offload_stage_roundtrip_witness :
  ∃ s, dget (demo_ref 0) [(demo_ref 0, 0)] = Some s ∧
       page_at (gpu_caches (om demo_sp2)) 0 (Z.to_nat (s + 2)) = Some [[[3; 4]]].
Proof.
  apply (offload_stage_roundtrip (H:=lru_scorer) 2 None [demo_ref 0] demo_sp1 [(demo_ref 0, 0)] []
           demo_sp2 (demo_ref 0) 0 0 [[[3; 4]]] 1 1).
  - exact demo_sp1_inv.
  - by vm_compute.
  - intros x Hx. apply demo_sp1_known. set_solver.
  - by vm_compute.
  - set_solver.
  - set_solver.
  - by vm_compute.
  - vm_compute. lia.
  - lia.
  - lia.
  - split; [done|]. by repeat constructor.
  - by vm_compute.
Defined.
