(* ===== verification/Controller.v ===== *)
(** * The compression controller

    Models [KVCompressionController] of offload_package/controller.py: per
    request, the number of decoded tokens, and the decision when an offload
    pass is due. *)

From S2P Require Import Prelude PyData.
From stdpp Require Import base gmap sets list strings.
From Stdlib Require Import ZArith Lia.
Open Scope Z_scope.

Record controller := Ctl {
  W : Z;
  ctl_page_size : Z;
  _started : gset string;
  _decode_tokens : gmap string Z;
}.

Definition ctl_init (w page_size : Z) : result controller :=
  if w <=? 0 then Raise ValueError
  else if page_size <=? 0 then Raise ValueError
  else if negb (w mod page_size =? 0) then Raise ValueError
  else Ok (Ctl w page_size ∅ ∅).

Definition ctl_on_prefill_complete (req : string) : M controller unit :=
  modify (λ c, Ctl (W c) (ctl_page_size c) ({[req]} ∪ _started c) (<[req := 0]> (_decode_tokens c))).

(** [self._decode_tokens.get(request_id, 0)] *)
Definition count (c : controller) (req : string) : Z := default 0 (_decode_tokens c !! req).

Definition on_decode (req : string) (num_tokens : Z) : M controller bool :=
  let! started := gets (λ c, bool_decide (req ∈ _started c)) in
  if negb started then ret false
  else
    ensure (0 <=? num_tokens) ValueError >>
    modify (λ c, Ctl (W c) (ctl_page_size c) (_started c)
                   (<[req := count c req + num_tokens]> (_decode_tokens c))) >>
    let! k := gets (λ c, count c req) in
    let! w := gets W in
    ret ((0 <? k) && (k mod w =? 0)).

Definition ctl_remove (req : string) : M controller unit :=
  modify (λ c, Ctl (W c) (ctl_page_size c) (_started c ∖ {[req]}) (delete req (_decode_tokens c))).

(** ** Facts *)

Lemma on_decode_run req n c :
  0 ≤ n → req ∈ _started c →
  ∃ c', on_decode req n c =
          (Ok ((0 <? count c req + n) && ((count c req + n) mod W c =? 0)), c') ∧
        count c' req = count c req + n ∧ W c' = W c ∧ _started c' = _started c ∧
        ∀ r, r ≠ req → count c' r = count c r.
Proof.
  intros Hn Hs. unfold on_decode. run_step. rewrite bool_decide_eq_true_2 by done. cbn [negb].
  do 2 run_step. eexists. split.
  { unfold bind, gets, ret. simpl. unfold count. simpl. by rewrite lookup_insert_eq. }
  split; [unfold count; simpl; by rewrite lookup_insert_eq|]. split; [done|]. split; [done|].
  intros r Hr. unfold count. simpl. by rewrite lookup_insert_ne.
Qed.

Lemma on_decode_not_started req n c :
  req ∉ _started c → on_decode req n c = (Ok false, c).
Proof.
  intros Hs. unfold on_decode. run_step. by rewrite bool_decide_eq_false_2.
Qed.

Lemma on_decode_negative req n c :
  req ∈ _started c → n < 0 → on_decode req n c = (Raise ValueError, c).
Proof.
  intros Hs Hn. unfold on_decode. run_step. rewrite bool_decide_eq_true_2 by done. cbn [negb].
  by run_step.
Qed.

(** The running totals of a list of step sizes. *)
Fixpoint totals (acc : Z) (steps : list Z) : list Z :=
  match steps with
  | [] => []
  | n :: steps' => (acc + n) :: totals (acc + n) steps'
  end.

Definition due (w k : Z) : bool := (0 <? k) && (k mod w =? 0).

Lemma decode_steps_run req steps c :
  Forall (λ n, 0 ≤ n) steps → req ∈ _started c →
  ∃ c', mmap (on_decode req) steps c = (Ok (due (W c) <$> totals (count c req) steps), c') ∧
        count c' req = count c req + foldr Z.add 0 steps.
Proof.
  intros Hn. revert c. induction Hn as [|n steps Hn _ IH]; intros c Hs.
  { exists c. split; [done|]. simpl. lia. }
  destruct (on_decode_run req n c Hn Hs) as (c1 & Hrun & Hc & Hw & Hst & _).
  destruct (IH c1) as (c' & Hrun' & Hc'); [by rewrite Hst|].
  exists c'. split; [|rewrite Hc', Hc; simpl; lia].
  csimpl. erewrite bind_ok by exact Hrun. erewrite bind_ok by exact Hrun'.
  unfold ret. by rewrite Hc, Hw.
Qed.

(** ** The properties *)

(** After prefill completes, a sequence of decode steps triggers an offload
    pass at exactly those steps whose running token total is a positive
    multiple of [W], whatever was counted for the request before; other
    requests do not matter. *)
Theorem decode_triggers_at_multiples req steps c :
  Forall (λ n, 0 ≤ n) steps →
  ∃ c', (ctl_on_prefill_complete req >> mmap (on_decode req) steps) c =
          (Ok (due (W c) <$> totals 0 steps), c') ∧
        count c' req = foldr Z.add 0 steps.
Proof.
  intros Hn.
  set (c1 := Ctl (W c) (ctl_page_size c) ({[req]} ∪ _started c) (<[req := 0]> (_decode_tokens c))).
  destruct (decode_steps_run req steps c1 Hn) as (c' & Hrun & Hc); [simpl; set_solver|].
  assert (count c1 req = 0) as H0 by (unfold count; simpl; by rewrite lookup_insert_eq).
  rewrite H0 in Hrun, Hc. by exists c'.
Qed.

(** A request that is unknown (never prefilled, or removed) neither counts
    nor triggers, and a negative step is refused; in both cases the controller
    is unchanged. *)
Theorem decode_guards req n c :
  (req ∉ _started c → on_decode req n c = (Ok false, c)) ∧
  (req ∈ _started c → n < 0 → on_decode req n c = (Raise ValueError, c)) ∧
  (let c' := (ctl_remove req c).2 in on_decode req n c' = (Ok false, c') ∧ count c' req = 0).
Proof.
  split; [apply on_decode_not_started|]. split; [apply on_decode_negative|]. simpl. split.
  - apply on_decode_not_started. simpl. set_solver.
  - unfold count. simpl. by rewrite lookup_delete_eq.
Qed.

Lemma decode_triggers_at_multiples_witness :
  ∃ c', (ctl_on_prefill_complete "r" >> mmap (on_decode "r") [1; 1; 2; 3; 1]) (Ctl 4 2 ∅ ∅) =
          (Ok [false; false; true; false; true], c') ∧ count c' "r" = 8.
Proof.
  apply (decode_triggers_at_multiples "r" [1; 1; 2; 3; 1] (Ctl 4 2 ∅ ∅)).
  repeat constructor; lia.
Defined.
