(* ===== verification/Selection.v ===== *)
(** * The selection adapter

    Models offload_package/selection/adapter.py: which logical blocks a sparse
    token selection touches ([collect_needed_block_refs]) and how the flat page
    index array handed to the attention kernel is rewritten
    ([patch_paged_kv_indices_with_staging]).  A tensor of rank 3 carries its
    dimensions; its elements are nested lists. *)

From S2P Require Import Prelude PyData Residency.
From stdpp Require Import base gmap sets list strings sorting.
From Stdlib Require Import ZArith Lia.
Open Scope Z_scope.

Record tensor3 := T3 {
  dim0 : nat;
  dim1 : nat;
  dim2 : nat;
  elts : list (list (list Z));
}.

(** The nested lists have the dimensions. *)
Definition t3_ok (t : tensor3) : Prop :=
  length (elts t) = dim0 t ∧
  Forall (λ r, length r = dim1 t ∧ Forall (λ c, length c = dim2 t) r) (elts t).

(** [x.unique()]: ascending, without repetition. *)
Definition unique (l : list Z) : list Z := merge_sort Z.le (remove_dups l).

(** [sparse_len[:, 0, 0].clamp(0, S)[b]] *)
Definition row_len (sparse_len : tensor3) (s : nat) (b : nat) : Z :=
  Z.max 0 (Z.min (Z.of_nat s)
    (default 0 (elts sparse_len !! b ≫= λ r, r !! 0%nat ≫= λ c, c !! 0%nat))).

(** The block indices of one row: [blocks_all[b, :, :n].unique().tolist()]. *)
Definition row_blocks (page_size : Z) (n : Z) (row : list (list Z)) : list Z :=
  unique (mjoin ((λ c, (λ x, x / page_size) <$> take (Z.to_nat n) c) <$> row)).

(** The refs of row [b] not seen before. *)
Definition row_refs (sparse_idx sparse_len : tensor3) (page_size : Z) (b : nat) (rid : string)
    : list BlockRef :=
  let n := row_len sparse_len (dim2 sparse_idx) b in
  if n <=? 0 then []
  else mkRef rid <$> row_blocks page_size n (default [] (elts sparse_idx !! b)).

Definition collect_needed_block_refs (request_ids : list string)
    (sparse_idx sparse_len : tensor3) (page_size : Z) : result (list BlockRef) :=
  if negb ((dim0 sparse_len =? dim0 sparse_idx)%nat && (dim1 sparse_len =? dim1 sparse_idx)%nat
           && (dim2 sparse_len =? 1)%nat) then Raise ValueError
  else if negb (length request_ids =? dim0 sparse_idx)%nat then Raise ValueError
  else if (dim0 sparse_idx * dim1 sparse_idx * dim2 sparse_idx =? 0)%nat then Ok []
  else Ok (dedup (mjoin (imap (row_refs sparse_idx sparse_len page_size) request_ids))).

(** [{rid: i for i, rid in enumerate(request_ids)}]: the last index wins. *)
Definition batch_index (request_ids : list string) (rid : string) : option Z :=
  dget rid (foldl (λ d e, dset e.2 e.1 d) [] (imap (λ i r, (Z.of_nat i, r)) request_ids)).

(** [patched[i] = v] *)
Definition set_entry (i v : Z) : M (list Z) unit :=
  let! p := gets (λ p, p) in
  let! p' := lift (py_set_index p i v) in
  modify (λ _, p').

(** Step 1: entries of this step's fetch.  The state is the array, patched in
    place. *)
Fixpoint patch_needed (indptr : list Z) (request_ids : list string) (staging_base : Z)
    (staging_map : list (BlockRef * Z)) (needed : list BlockRef) : M (list Z) unit :=
  match needed with
  | [] => ret tt
  | ref :: needed' =>
      let next := patch_needed indptr request_ids staging_base staging_map needed' in
      match dget ref staging_map with
      | None => next
      | Some slot =>
          match batch_index request_ids (request_id ref) with
          | None => next
          | Some b =>
              let! start := lift (py_index indptr b) in
              let! stop := lift (py_index indptr (b + 1)) in
              let flat_pos := start + block_idx ref in
              if stop <=? flat_pos then next
              else set_entry flat_pos (staging_base + slot) >> next
          end
      end
  end.

(** Step 2 of one tracked block: where its entry goes and what it becomes. *)
Definition patch_of (t : table) (staging_base : Z) (null_block_id : option Z) (start : Z)
    (ref : BlockRef) : option (Z * Z) :=
  match loc_of t ref with
  | Some (Loc STAGING _ _ (Some s) _) => Some (start + block_idx ref, staging_base + s)
  | Some (Loc CPU _ _ _ _) =>
      match null_block_id with
      | Some nb => Some (start + block_idx ref, nb)
      | None => None
      end
  | _ => None
  end.

(** The pairs of one row. *)
Definition row_patches (t : table) (staging_base : Z) (null_block_id : option Z)
    (req : string) (start stop : Z) : list (Z * Z) :=
  let refs := refs_for_request t req in
  if (stop - start <=? 0) || negb (zlen refs =? stop - start) then []
  else omap (patch_of t staging_base null_block_id start) refs.

Fixpoint all_patches (t : table) (staging_base : Z) (null_block_id : option Z) (indptr : list Z)
    (b : nat) (request_ids : list string) : result (list (Z * Z)) :=
  match request_ids with
  | [] => Ok []
  | req :: rest =>
      result_bind (py_index indptr (Z.of_nat b)) (λ start,
      result_bind (py_index indptr (Z.of_nat b + 1)) (λ stop,
      result_bind (all_patches t staging_base null_block_id indptr (S b) rest) (λ ps,
      Ok (row_patches t staging_base null_block_id req start stop ++ ps))))
  end.

(** [patched.index_put_((pos,), val)]: bounds are checked before any write. *)
Fixpoint index_put (patched : list Z) (ps : list (Z * Z)) : result (list Z) :=
  match ps with
  | [] => Ok patched
  | (pos, v) :: ps' => result_bind (py_set_index patched pos v) (λ p, index_put p ps')
  end.

(** Step 1 as a whole: skipped without a selection or without staged blocks. *)
Definition patch_fetched (indptr : list Z) (request_ids : list string)
    (sparse : option (tensor3 * tensor3)) (page_size staging_base : Z)
    (staging_map : list (BlockRef * Z)) : M (list Z) unit :=
  match sparse with
  | Some (si, sl) =>
      if bool_decide (staging_map = []) then ret tt
      else let! needed := lift (collect_needed_block_refs request_ids si sl page_size) in
           patch_needed indptr request_ids staging_base staging_map needed
  | None => ret tt
  end.

(** [inplace=True]: the array is the state. *)
Definition patch_in_place (paged_kv_indptr : list Z) (request_ids : list string)
    (sparse : option (tensor3 * tensor3)) (page_size staging_base : Z)
    (t : table) (staging_map : list (BlockRef * Z)) (null_block_id : option Z)
    (indptr_host : option (list Z)) : M (list Z) unit :=
  ensure (length request_ids + 1 <=? length paged_kv_indptr)%nat ValueError >>
  let indptr := default paged_kv_indptr indptr_host in
  patch_fetched indptr request_ids sparse page_size staging_base staging_map >>
  let! ps := lift (all_patches t staging_base null_block_id indptr 0 request_ids) in
  let! patched := gets (λ p, p) in
  let! patched' := lift (index_put patched ps) in
  modify (λ _, patched').

(** [inplace=False]: a patched clone. *)
Definition patch_paged_kv_indices_with_staging (original_indices paged_kv_indptr : list Z)
    (request_ids : list string) (sparse : option (tensor3 * tensor3)) (page_size staging_base : Z)
    (t : table) (staging_map : list (BlockRef * Z)) (null_block_id : option Z)
    (indptr_host : option (list Z)) : result (list Z) :=
  match patch_in_place paged_kv_indptr request_ids sparse page_size staging_base t staging_map
          null_block_id indptr_host original_indices with
  | (Ok _, patched) => Ok patched
  | (Raise e, _) => Raise e
  end.

(** ** Which blocks a selection touches *)

Lemma elem_of_unique l x : x ∈ unique l ↔ x ∈ l.
Proof.
  unfold unique. rewrite (merge_sort_Permutation Z.le (remove_dups l)). apply elem_of_remove_dups.
Qed.

Lemma row_refs_spec si sl ps b rid ref :
  ref ∈ row_refs si sl ps b rid ↔
  request_id ref = rid ∧ ∃ (h s : nat) row c x,
    elts si !! b = Some row ∧ row !! h = Some c ∧ c !! s = Some x ∧
    Z.of_nat s < row_len sl (dim2 si) b ∧ block_idx ref = x / ps.
Proof.
  unfold row_refs. set (n := row_len sl (dim2 si) b). assert (0 ≤ n) as Hn by (unfold n, row_len; lia).
  assert (ref ∈ mkRef rid <$> row_blocks ps n (default [] (elts si !! b)) ↔
    request_id ref = rid ∧ ∃ (h s : nat) row c x,
    elts si !! b = Some row ∧ row !! h = Some c ∧ c !! s = Some x ∧
    Z.of_nat s < n ∧ block_idx ref = x / ps) as Hspec.
  { rewrite list_elem_of_fmap. unfold row_blocks. split.
    - intros (i & -> & Hi). simpl. split; [done|]. rewrite elem_of_unique in Hi.
      apply list_elem_of_join in Hi as (l & Hi & (c & -> & Hc)%list_elem_of_fmap).
      apply list_elem_of_fmap in Hi as (x & -> & Hx).
      destruct (elts si !! b) as [row|] eqn:Er; [|simpl in Hc; set_solver]. simpl in Hc.
      apply list_elem_of_lookup in Hc as [h Hh]. apply list_elem_of_lookup in Hx as [s Hs].
      apply lookup_take_Some in Hs as [Hs Hlt]. exists h, s, row, c, x. split_and!; try done. lia.
    - intros (Hr & h & s & row & c & x & Hrow & Hh & Hs & Hlt & Hb). exists (block_idx ref).
      split; [destruct ref; simpl in *; by subst|]. rewrite elem_of_unique, Hrow. simpl.
      apply list_elem_of_join. exists ((λ x, x / ps) <$> take (Z.to_nat n) c). split.
      + apply list_elem_of_fmap. exists x. split; [done|].
        apply list_elem_of_lookup. exists s. apply lookup_take_Some. split; [done|lia].
      + apply list_elem_of_fmap. exists c. split; [done|]. by eapply list_elem_of_lookup_2. }
  destruct (n <=? 0) eqn:E; [|done]. split; [set_solver|].
  intros (_ & h & s & row & c & x & _ & _ & _ & Hlt & _). lia.
Qed.

(** ** Writing the page indices *)

Lemma py_set_index_in {A} (l : list A) i x :
  0 ≤ i < zlen l → py_set_index l i x = Ok (<[Z.to_nat i := x]> l).
Proof.
  intros Hi. unfold py_set_index. destruct (i <? 0) eqn:E; [lia|].
  destruct ((i <? 0) || (zlen l <=? i)) eqn:E2; [|done].
  apply orb_prop in E2 as [?|?]; lia.
Qed.

(** [index_put_] with positions in range: a position written with one value
    holds it, a position not written keeps its entry. *)
Lemma index_put_run ps l :
  Forall (λ e, 0 ≤ e.1 < zlen l) ps →
  ∃ out, index_put l ps = Ok out ∧ length out = length l ∧
    (∀ pos v, (pos, v) ∈ ps → (∀ v', (pos, v') ∈ ps → v' = v) → out !! Z.to_nat pos = Some v) ∧
    (∀ i : nat, (∀ v, (Z.of_nat i, v) ∉ ps) → out !! i = l !! i).
Proof.
  revert l. induction ps as [|[pos v] ps IH]; intros l Hr; simpl.
  { exists l. split_and!; [done|done|set_solver|done]. }
  apply Forall_cons in Hr as [Hpos Hr]. simpl in Hpos.
  rewrite py_set_index_in by done. simpl. set (l1 := <[Z.to_nat pos := v]> l).
  assert (length l1 = length l) as Hl1 by apply length_insert.
  destruct (IH l1) as (out & Hout & Hlen & Hin & Hno).
  { unfold zlen in *. by rewrite Hl1. }
  exists out. split; [done|]. split; [congruence|]. split.
  - intros pos' v' Hmem Huniq. destruct (decide ((pos', v') ∈ ps)) as [Hw|Hnone].
    + apply Hin; [done|]. intros x Hx. apply Huniq. set_solver.
    + apply elem_of_cons in Hmem as [[= -> ->]|?]; [|done].
      assert (∀ x, (pos, x) ∉ ps) as Habs
        by (intros x Hx; apply Hnone; by rewrite <-(Huniq x) by set_solver).
      rewrite Hno by (intros x; rewrite Z2Nat.id by lia; apply Habs).
      apply list_lookup_insert_eq. unfold zlen in Hpos. lia.
  - intros i Hi. rewrite Hno by (intros x Hx; apply (Hi x); set_solver).
    apply list_lookup_insert_ne. intros <-. apply (Hi v). rewrite Z2Nat.id by lia. set_solver.
Qed.

Lemma batch_index_Some ids rid b :
  batch_index ids rid = Some b → 0 ≤ b ∧ ids !! Z.to_nat b = Some rid.
Proof.
  unfold batch_index. set (en := imap (λ i r, (Z.of_nat i, r)) ids).
  assert (∀ l d, dget rid (foldl (λ d e, dset e.2 e.1 d) d l) = Some b →
            (b, rid) ∈ l ∨ dget rid d = Some b) as Hf.
  { intros l. induction l as [|[i r] l IH]; intros d; simpl; [by right|].
    intros [?|Hd]%IH; [left; set_solver|]. rewrite dget_dset in Hd.
    case_decide; simplify_eq; [left; set_solver|by right]. }
  intros [Hin|?]%Hf; [|done]. apply list_elem_of_lookup in Hin as [i Hi].
  subst en. rewrite list_lookup_imap in Hi. apply fmap_Some in Hi as (r & Hr & [= -> ->]).
  split; [lia|]. by rewrite Nat2Z.id.
Qed.

(** A batch description: row boundaries in order and inside the index array,
    distinct requests, and tracked blocks that exist from index 0 on. *)
Record batch_ok (t : table) (len : Z) (indptr : list Z) (ids : list string) : Prop := {
  bo_len : length indptr = S (length ids);
  bo_sorted : ∀ (i j : nat) x y, (i ≤ j)%nat → indptr !! i = Some x → indptr !! j = Some y → x ≤ y;
  bo_range : ∀ (i : nat) x, indptr !! i = Some x → 0 ≤ x ≤ len;
  bo_nodup : NoDup ids;
  bo_idx : ∀ ref, is_Some (loc_of t ref) → 0 ≤ block_idx ref;
  bo_rows : ∀ (b : nat) req start stop,
    ids !! b = Some req → indptr !! b = Some start → indptr !! S b = Some stop →
    zlen (refs_for_request t req) = stop - start →
    refs_for_request t req = mkRef req <$> zrange 0 (stop - start);
}.

Section Patch.
Context (t : table) (len base : Z) (null : option Z) (indptr : list Z) (ids : list string).
Context (Hb : batch_ok t len indptr ids).

(** Positions of different rows differ. *)
Lemma rows_disjoint (b b' : nat) start stop start' stop' i :
  indptr !! b = Some start → indptr !! S b = Some stop →
  indptr !! b' = Some start' → indptr !! S b' = Some stop' →
  start ≤ i < stop → start' ≤ i < stop' → b = b'.
Proof.
  intros H1 H2 H3 H4 Hi Hi'. destruct (Nat.lt_trichotomy b b') as [Hlt|[?|Hlt]]; [|done|].
  - pose proof (bo_sorted _ _ _ _ Hb (S b) b' _ _ ltac:(lia) H2 H3). lia.
  - pose proof (bo_sorted _ _ _ _ Hb (S b') b _ _ ltac:(lia) H4 H1). lia.
Qed.

Lemma indptr_row (b : nat) req :
  ids !! b = Some req → ∃ start stop, indptr !! b = Some start ∧ indptr !! S b = Some stop.
Proof.
  intros Hr%lookup_lt_Some. pose proof (bo_len _ _ _ _ Hb).
  destruct (lookup_lt_is_Some_2 indptr b) as [start ?]; [lia|].
  destruct (lookup_lt_is_Some_2 indptr (S b)) as [stop ?]; [lia|]. by exists start, stop.
Qed.

Lemma row_patches_elem (b : nat) req start stop pos v :
  ids !! b = Some req → indptr !! b = Some start → indptr !! S b = Some stop →
  (pos, v) ∈ row_patches t base null req start stop ↔
  ∃ j, pos = start + j ∧ 0 ≤ j < stop - start ∧
       zlen (refs_for_request t req) = stop - start ∧
       patch_of t base null start (mkRef req j) = Some (pos, v).
Proof.
  intros Hr H1 H2. unfold row_patches.
  destruct ((stop - start <=? 0) || negb (zlen (refs_for_request t req) =? stop - start)) eqn:E.
  { split; [set_solver|]. intros (j & _ & Hj & Hl & _). apply orb_prop in E as [E|E]; [lia|].
    apply negb_true_iff, Z.eqb_neq in E. done. }
  apply orb_false_elim in E as [E1 E2%negb_false_iff%Z.eqb_eq].
  rewrite (bo_rows _ _ _ _ Hb b req start stop) by done. rewrite list_elem_of_omap. split.
  - intros (ref & (j & -> & Hj%elem_of_zrange)%list_elem_of_fmap & Hp). exists j.
    assert (pos = start + j) as ->.
    { unfold patch_of in Hp. repeat (case_match; simplify_eq); done. }
    split_and!; try done; try lia. unfold zlen. rewrite length_fmap.
    change (Z.of_nat (length ?l)) with (zlen l). rewrite zrange_length. lia.
  - intros (j & -> & Hj & _ & Hp). exists (mkRef req j). split; [|done].
    apply list_elem_of_fmap. exists j. split; [done|]. apply elem_of_zrange. lia.
Qed.

Lemma all_patches_run (b : nat) rest :
  (∀ i, rest !! i = ids !! (b + i)%nat) →
  ∃ ps, all_patches t base null indptr b rest = Ok ps ∧
    ∀ pos v, (pos, v) ∈ ps ↔ ∃ (i : nat) req start stop,
      rest !! i = Some req ∧ indptr !! (b + i)%nat = Some start ∧
      indptr !! S (b + i) = Some stop ∧ (pos, v) ∈ row_patches t base null req start stop.
Proof.
  revert b. induction rest as [|req rest IH]; intros b Hrest; simpl.
  { exists []. split; [done|]. split; [set_solver|]. by intros (i & ? & ? & ? & ? & _). }
  assert (ids !! b = Some req) as Hreq by (by rewrite <-(Nat.add_0_r b), <-Hrest).
  destruct (indptr_row b req Hreq) as (start & stop & H1 & H2).
  assert (∀ (k : nat) x, indptr !! k = Some x → py_index indptr (Z.of_nat k) = Ok x) as Hpy
    by (intros k x Hx; apply py_index_Ok; [lia|]; by rewrite Nat2Z.id).
  rewrite (Hpy b start H1). replace (Z.of_nat b + 1) with (Z.of_nat (S b)) by lia.
  rewrite (Hpy (S b) stop H2). simpl.
  destruct (IH (S b)) as (ps & -> & Hps).
  { intros i. specialize (Hrest (S i)). simpl in Hrest. rewrite Hrest. f_equal. lia. }
  eexists; split; [reflexivity|]. intros pos v. rewrite elem_of_app, Hps. split.
  - intros [Hin|(i & r & s & e & Hi & Hs & He & Hin)].
    + exists 0%nat, req, start, stop. by rewrite Nat.add_0_r.
    + exists (S i), r, s, e. by rewrite <-Nat.add_succ_comm.
  - intros ([|i] & r & s & e & Hi & Hs & He & Hin).
    + left. rewrite Nat.add_0_r in *. by simplify_eq/=.
    + right. exists i, r, s, e. by rewrite Nat.add_succ_comm.
Qed.
End Patch.

(** Step 1 succeeds and writes only entries of blocks in the staging map. *)
Lemma patch_needed_run t len base indptr ids smap needed l :
  batch_ok t len indptr ids → zlen l = len →
  (∀ ref s, dget ref smap = Some s → is_Some (loc_of t ref)) →
  ∃ out, patch_needed indptr ids base smap needed l = (Ok tt, out) ∧ length out = length l ∧
    ∀ i : nat,
      (∀ ref (b : nat) start stop, is_Some (dget ref smap) → ids !! b = Some (request_id ref) →
         indptr !! b = Some start → indptr !! S b = Some stop →
         start + block_idx ref < stop → Z.of_nat i ≠ start + block_idx ref) →
      out !! i = l !! i.
Proof.
  intros Hb. revert l. induction needed as [|ref needed IH]; intros l Hl Hmap; simpl.
  { by exists l. }
  destruct (dget ref smap) as [slot|] eqn:Ed; [|by apply IH].
  destruct (batch_index ids (request_id ref)) as [b|] eqn:Eb; [|by apply IH].
  apply batch_index_Some in Eb as [Hb0 Hreq].
  destruct (indptr_row t len indptr ids Hb _ _ Hreq) as (start & stop & H1 & H2).
  assert (py_index indptr b = Ok start) as -> by by apply py_index_Ok.
  assert (py_index indptr (b + 1) = Ok stop) as ->.
  { apply py_index_Ok; [lia|]. by rewrite Z2Nat.inj_add, Nat.add_1_r by lia. }
  erewrite !bind_ok by reflexivity.
  destruct (stop <=? start + block_idx ref) eqn:E; [by apply IH|].
  pose proof (bo_idx _ _ _ _ Hb ref (Hmap ref slot Ed)).
  pose proof (bo_range _ _ _ _ Hb _ _ H1). pose proof (bo_range _ _ _ _ Hb _ _ H2).
  set (l1 := <[Z.to_nat (start + block_idx ref) := base + slot]> l).
  assert (set_entry (start + block_idx ref) (base + slot) l = (Ok tt, l1)) as Hset.
  { unfold set_entry. run_step. rewrite py_set_index_in by lia. done. }
  rewrite (bind_ok _ _ _ _ _ Hset).
  assert (length l1 = length l) as Hl1 by apply length_insert.
  destruct (IH l1) as (out & Hout & Hlen & Hkeep); [unfold zlen in *; by rewrite Hl1|done|].
  exists out. split; [done|]. split; [congruence|]. intros i Hi. rewrite Hkeep by done.
  apply list_lookup_insert_ne. specialize (Hi ref (Z.to_nat b) start stop ltac:(by eexists) Hreq H1 H2).
  lia.
Qed.

Lemma patch_fetched_run t orig indptr ids sparse ps base smap :
  batch_ok t (zlen orig) indptr ids →
  (∀ ref s, dget ref smap = Some s → is_Some (loc_of t ref)) →
  (∀ si sl, sparse = Some (si, sl) → smap ≠ [] →
     ∃ needed, collect_needed_block_refs ids si sl ps = Ok needed) →
  ∃ p1, patch_fetched indptr ids sparse ps base smap orig = (Ok tt, p1) ∧ length p1 = length orig ∧
    ∀ i : nat,
      (∀ ref (b : nat) start stop, is_Some (dget ref smap) → ids !! b = Some (request_id ref) →
         indptr !! b = Some start → indptr !! S b = Some stop →
         start + block_idx ref < stop → Z.of_nat i ≠ start + block_idx ref) →
      p1 !! i = orig !! i.
Proof.
  intros Hb Hmap Hsp. unfold patch_fetched.
  destruct sparse as [[si sl]|]; [|by exists orig]. case_bool_decide; [by exists orig|].
  destruct (Hsp si sl eq_refl) as [needed ->]; [done|]. erewrite bind_ok by reflexivity. by eapply patch_needed_run.
Qed.

(** The page the kernel must read for a block: its staging page, the null page
    if its GPU page may have been recycled, or the page it had. *)
Definition page_for (t : table) (base : Z) (null : option Z) (ref : BlockRef) (orig : Z) : Z :=
  match loc_of t ref with
  | Some (Loc STAGING _ _ (Some s) _) => base + s
  | Some (Loc CPU _ _ _ _) => default orig null
  | _ => orig
  end.

Lemma patch_of_page_for t base null start ref orig :
  patch_of t base null start ref = None → page_for t base null ref orig = orig.
Proof. unfold patch_of, page_for. repeat (case_match; try done). Qed.
Lemma patch_of_Some t base null start ref pos v orig :
  patch_of t base null start ref = Some (pos, v) →
  pos = start + block_idx ref ∧ v = page_for t base null ref orig.
Proof. unfold patch_of, page_for. repeat (case_match; try done); intros; by simplify_eq. Qed.

(** ** The properties *)

(** [collect_needed_block_refs] returns, without repetition, exactly the
    blocks that contain a selected token: block [x / page_size] of the row's
    request for some head and some position below the row's valid length. *)
Theorem collect_needed_exact ids si sl ps refs :
  t3_ok si → collect_needed_block_refs ids si sl ps = Ok refs →
  NoDup refs ∧
  ∀ ref, ref ∈ refs ↔ ∃ (b h s : nat) row c x,
    ids !! b = Some (request_id ref) ∧
    elts si !! b = Some row ∧ row !! h = Some c ∧ c !! s = Some x ∧
    Z.of_nat s < row_len sl (dim2 si) b ∧ block_idx ref = x / ps.
Proof.
  intros [Hd0 Hd]. unfold collect_needed_block_refs.
  case_match; [done|]. case_match; [done|]. destruct (_ =? 0)%nat eqn:E.
  - intros [= <-]. split; [constructor|]. intros ref. split; [set_solver|].
    intros (b & h & s & row & c & x & _ & Hrow & Hc & Hx & _). exfalso.
    rewrite Forall_lookup in Hd. destruct (Hd b row Hrow) as [Hd1 Hd2].
    rewrite Forall_lookup in Hd2. specialize (Hd2 h c Hc).
    apply lookup_lt_Some in Hrow, Hc, Hx. apply Nat.eqb_eq in E.
    assert (dim0 si = 0 ∨ dim1 si = 0 ∨ dim2 si = 0)%nat; [|lia].
    apply Nat.eq_mul_0 in E as [E%Nat.eq_mul_0|E]; tauto.
  - intros [= <-]. split; [apply NoDup_dedup|]. intros ref. rewrite elem_of_dedup.
    rewrite list_elem_of_join. split.
    + intros (l & Hin & Hl). apply list_elem_of_lookup in Hl as [b Hl].
      rewrite list_lookup_imap in Hl. apply fmap_Some in Hl as (rid & Hrid & ->).
      apply row_refs_spec in Hin as (<- & h & s & row & c & x & Hin). by exists b, h, s, row, c, x.
    + intros (b & h & s & row & c & x & Hrid & Hin).
      exists (row_refs si sl ps b (request_id ref)). split.
      * apply row_refs_spec. split; [done|]. by exists h, s, row, c, x.
      * apply list_elem_of_lookup. exists b. by rewrite list_lookup_imap, Hrid.
Qed.

(** Patching a well-formed batch: every entry of the staging map names a block
    that step 2 writes too. *)
Lemma patch_in_place_run t orig indptr ids sparse ps base smap null host :
  batch_ok t (zlen orig) indptr ids → default indptr host = indptr →
  (∀ ref s, dget ref smap = Some s →
     is_Some (loc_of t ref) ∧ ∀ start, patch_of t base null start ref ≠ None) →
  (∀ si sl, sparse = Some (si, sl) → smap ≠ [] →
     ∃ needed, collect_needed_block_refs ids si sl ps = Ok needed) →
  ∃ out, patch_in_place indptr ids sparse ps base t smap null host orig = (Ok tt, out) ∧
    length out = length orig ∧
    (∀ (b : nat) req start stop j o,
      ids !! b = Some req → indptr !! b = Some start → indptr !! S b = Some stop →
      zlen (refs_for_request t req) = stop - start → 0 ≤ j < stop - start →
      orig !! Z.to_nat (start + j) = Some o →
      out !! Z.to_nat (start + j) = Some (page_for t base null (mkRef req j) o)) ∧
    (∀ (i : nat) stop, last indptr = Some stop → stop ≤ Z.of_nat i → out !! i = orig !! i).
Proof.
  intros Hb Hh Hmap Hsp. unfold patch_in_place.
  pose proof (bo_len _ _ _ _ Hb) as Hlen. rewrite Hh.
  rewrite (proj2 (Nat.leb_le _ _)) by lia. erewrite bind_ok by by apply ensure_true.
  assert (∀ ref s, dget ref smap = Some s → is_Some (loc_of t ref)) as Hmap'
    by (intros ref s [? _]%Hmap; done).
  destruct (patch_fetched_run t orig indptr ids sparse ps base smap Hb Hmap' Hsp)
    as (p1 & Hp1 & Hl1 & Hkeep).
  rewrite (bind_ok _ _ _ _ _ Hp1).
  destruct (all_patches_run t (zlen orig) base null indptr ids Hb 0 ids) as (pairs & -> & Hpairs);
    [done|]. simpl in Hpairs. erewrite bind_ok by reflexivity. run_step.
  destruct (index_put_run pairs p1) as (out & -> & Hlo & Hin & Hno).
  { apply Forall_forall. intros [pos v] (i & req & start & stop & Hr & H1 & H2 & Hp)%Hpairs.
    apply (row_patches_elem t (zlen orig) base null indptr ids Hb i) in Hp; [|done..].
    destruct Hp as (j & -> & Hj & _). simpl.
    pose proof (bo_range _ _ _ _ Hb _ _ H1). pose proof (bo_range _ _ _ _ Hb _ _ H2).
    unfold zlen in *. lia. }
  exists out. split; [done|]. split; [congruence|]. split.
  2: { intros i stop Hlast Hi.
    assert (∀ (b : nat) x, indptr !! b = Some x → x ≤ stop) as Hle.
    { intros b x Hx. rewrite last_lookup in Hlast. apply (bo_sorted _ _ _ _ Hb b (pred (length indptr))); [|done|done].
      apply lookup_lt_Some in Hx. lia. }
    rewrite Hno, Hkeep; [done| |].
    - intros ref b start stop' _ _ _ H2 Hlt. specialize (Hle _ _ H2). lia.
    - intros v (b & req & start & stop' & Hr & H1 & H2 & Hp)%Hpairs.
      apply (row_patches_elem t (zlen orig) base null indptr ids Hb b) in Hp; [|done..].
      destruct Hp as (j & Hj & Hjr & _). specialize (Hle _ _ H2). lia. }
  intros b req start stop j o Hr H1 H2 Hlr Hj Ho.
  pose proof (bo_range _ _ _ _ Hb _ _ H1) as Hs0.
  assert (∀ pos v, (pos, v) ∈ pairs → pos = start + j →
            patch_of t base null start (mkRef req j) = Some (pos, v)) as Honly.
  { intros pos v (i & req' & start' & stop' & Hr' & H1' & H2' & Hp)%Hpairs ->.
    apply (row_patches_elem t (zlen orig) base null indptr ids Hb i) in Hp; [|done..].
    destruct Hp as (j' & Hjj & Hj' & _ & Hpo).
    assert (b = i) as ->
      by (apply (rows_disjoint t _ indptr ids Hb b i start stop start' stop' (start + j)); done || lia).
    assert (req' = req ∧ start' = start) as [-> ->] by (split; congruence).
    assert (j' = j) as -> by lia. exact Hpo. }
  destruct (patch_of t base null start (mkRef req j)) as [[pos v]|] eqn:Ep.
  - destruct (patch_of_Some _ _ _ _ _ _ _ o Ep) as [-> ->]. simpl in *.
    apply Hin.
    + apply Hpairs. exists b, req, start, stop. do 3 (split; [done|]).
      apply (row_patches_elem t (zlen orig) base null indptr ids Hb b); [done..|]. by exists j.
    + intros v' Hv'. apply Honly in Hv'; [|done]. by simplify_eq.
  - rewrite (patch_of_page_for _ _ _ _ _ o Ep).
    rewrite Hno by (intros v Hv; apply Honly in Hv; [done|lia]).
    rewrite Hkeep; [done|]. intros ref b' start' stop' [s Hs] Hr' H1' H2' Hlt Heq.
    pose proof (Hmap' ref s Hs) as Hk. pose proof (bo_idx _ _ _ _ Hb ref Hk).
    assert (b = b') as <-
      by (apply (rows_disjoint t _ indptr ids Hb b b' start stop start' stop' (start + j)); done || lia).
    simplify_eq. assert (block_idx ref = j) as Hij by lia.
    assert (ref = mkRef (request_id ref) j) as Href by (destruct ref; simpl in *; by subst).
    destruct (Hmap ref s Hs) as [_ Hne]. rewrite <-Href in Ep. by apply Hne in Ep.
Qed.

(** C38: the patched page indices are right: for a well-formed batch whose staging
    map agrees with the residency table, patching succeeds, keeps the array's
    length, and in every row whose length matches the tracked blocks the entry
    of each block is its staging page if it is staged, the null page if it is
    CPU-only and pages are recycled, and its original page otherwise. *)
Theorem patched_indices_correct t orig indptr ids sparse ps base smap null host :
  batch_ok t (zlen orig) indptr ids → default indptr host = indptr →
  (∀ ref s, dget ref smap = Some s → ∃ l, loc_of t ref = Some l ∧ residency l = STAGING ∧
                                         staging_slot l = Some s) →
  (∀ si sl, sparse = Some (si, sl) → ∃ needed, collect_needed_block_refs ids si sl ps = Ok needed) →
  ∃ out, patch_paged_kv_indices_with_staging orig indptr ids sparse ps base t smap null host = Ok out ∧
    length out = length orig ∧
    ∀ (b : nat) req start stop j o,
      ids !! b = Some req → indptr !! b = Some start → indptr !! S b = Some stop →
      zlen (refs_for_request t req) = stop - start → 0 ≤ j < stop - start →
      orig !! Z.to_nat (start + j) = Some o →
      out !! Z.to_nat (start + j) = Some (page_for t base null (mkRef req j) o).
Proof.
  intros Hb Hh Hmap Hsp. unfold patch_paged_kv_indices_with_staging.
  destruct (patch_in_place_run t orig indptr ids sparse ps base smap null host Hb Hh) as (out & -> & Hl & Hrow & _).
  - intros ref s Hs. destruct (Hmap ref s Hs) as ([r g c st cp] & Hl & Hr & Hst). cbn in Hr, Hst. subst r st.
    split; [by eexists|]. intros start. unfold patch_of. by rewrite Hl.
  - intros si sl Hs _. by apply (Hsp si sl).
  - exists out. done.
Qed.

(** *** Witnesses: one request with a CPU block, a staged block and a GPU block. *)
Definition demo_sel_table : table :=
  foldl (λ t op, (op t).2) table_init
    [mark_gpu (mkRef "r" 0) 10 true; mark_gpu (mkRef "r" 1) 11 true; mark_gpu (mkRef "r" 2) 12 false;
     mark_cpu (mkRef "r" 0) 0; mark_cpu (mkRef "r" 1) 1; mark_staging (mkRef "r" 1) 0].

Lemma demo_batch_ok : batch_ok demo_sel_table (zlen [10; 11; 12]) [0; 3] ["r"%string].
Proof.
  assert (∀ ref, is_Some (loc_of demo_sel_table ref) → 0 ≤ block_idx ref) as Hidx.
  { assert (Forall (λ e : BlockRef * BlockLocation, 0 ≤ block_idx e.1) (_blocks demo_sel_table)) as Hall
      by (apply (bool_decide_unpack _); by vm_compute).
    intros ref [l Hl]. rewrite Forall_forall in Hall. apply (Hall (ref, l)). by apply dget_elem_of_1. }
  split; [done| | | |done|].
  - intros [|[|i]] [|[|j]] x y Hij Hx Hy; simplify_eq/=; lia.
  - intros [|[|i]] x Hx; simplify_eq/=; unfold zlen; simpl; lia.
  - apply NoDup_singleton.
  - intros [|b] req start stop Hr H1 H2 _; simplify_eq/=. by vm_compute.
Qed.

Lemma patched_indices_correct_witness :
  ∃ out, patch_paged_kv_indices_with_staging [10; 11; 12] [0; 3] ["r"%string] None 16 100
           demo_sel_table [(mkRef "r" 1, 0)] (Some 0) None = Ok out ∧ length out = 3%nat.
Proof.
  destruct (patched_indices_correct demo_sel_table [10; 11; 12] [0; 3] ["r"%string] None 16 100
              [(mkRef "r" 1, 0)] (Some 0) None demo_batch_ok) as (out & H1 & H2 & _).
  - done.
  - intros ref s. simpl. case_decide as Hr; [|done]. subst ref. intros [= <-]. eexists.
    split; [by vm_compute|done].
  - done.
  - exists out. exact (conj H1 H2).
Defined.

Definition demo_si : tensor3 := T3 1 1 3 [[[33; 0; 99]]].
Definition demo_sl : tensor3 := T3 1 1 1 [[[2]]].
Lemma collect_needed_exact_witness : NoDup [mkRef "r" 0; mkRef "r" 2].
Proof.
  refine (proj1 (collect_needed_exact ["r"%string] demo_si demo_sl 16 [mkRef "r" 0; mkRef "r" 2] _ _)).
  - split; [done|]. by repeat constructor.
  - by vm_compute.
Defined.
