(* ===== verification/Orchestrator.v ===== *)
(** * The orchestrator

    Models [OffloadOrchestrator] of offload_package/integration/manager.py, the
    runtime coordinator between vLLM, the scorer, the offload manager, the
    staging pool and the controller.  The residency table and the scorer are
    reached through the staging pool's manager, as in the code, where all of
    them are one shared object each.  Debug output and timing have no effect on
    the state.  The descending [torch.argsort] of [promote_hot_cpu_blocks] is
    not stable, so the order it returns is a parameter. *)

From S2P Require Import Prelude PyData Float Residency Scoring Pages OffloadManager StagingPool.
From S2P Require Import Controller Selection.
From stdpp Require Import base gmap sets list strings.
From Stdlib Require Import ZArith Lia.
Open Scope Z_scope.

Record orch (S : Type) := Orch {
  o_fraction : f64;
  o_pool : staging S;
  o_ctl : controller;
  o_page_size : Z;
  staging_base_page_idx : Z;
  _request_blocks : gmap string (list BlockRef);
  _scored : gset BlockRef;
  _sparse_mode : bool;
  _last_offload_step : Z;
  _active_request_ids : list string;
  true_freeing : bool;
  _lag_seen_cpu_version : Z;
}.
Arguments Orch {S}.
Arguments o_fraction {S}.
Arguments o_pool {S}.
Arguments o_ctl {S}.
Arguments o_page_size {S}.
Arguments staging_base_page_idx {S}.
Arguments _request_blocks {S}.
Arguments _scored {S}.
Arguments _sparse_mode {S}.
Arguments _last_offload_step {S}.
Arguments _active_request_ids {S}.
Arguments true_freeing {S}.
Arguments _lag_seen_cpu_version {S}.

Section OUpdates.
Context {S : Type}.
Implicit Types o : orch S.

Definition with_pool (p : staging S) o : orch S :=
  Orch (o_fraction o) p (o_ctl o) (o_page_size o) (staging_base_page_idx o) (_request_blocks o)
    (_scored o) (_sparse_mode o) (_last_offload_step o) (_active_request_ids o) (true_freeing o)
    (_lag_seen_cpu_version o).
Definition with_ctl (c : controller) o : orch S :=
  Orch (o_fraction o) (o_pool o) c (o_page_size o) (staging_base_page_idx o) (_request_blocks o)
    (_scored o) (_sparse_mode o) (_last_offload_step o) (_active_request_ids o) (true_freeing o)
    (_lag_seen_cpu_version o).
Definition with_requests (r : gmap string (list BlockRef)) o : orch S :=
  Orch (o_fraction o) (o_pool o) (o_ctl o) (o_page_size o) (staging_base_page_idx o) r
    (_scored o) (_sparse_mode o) (_last_offload_step o) (_active_request_ids o) (true_freeing o)
    (_lag_seen_cpu_version o).
Definition with_oscored (s : gset BlockRef) o : orch S :=
  Orch (o_fraction o) (o_pool o) (o_ctl o) (o_page_size o) (staging_base_page_idx o)
    (_request_blocks o) s (_sparse_mode o) (_last_offload_step o) (_active_request_ids o)
    (true_freeing o) (_lag_seen_cpu_version o).
Definition with_step (k : Z) (act : list string) o : orch S :=
  Orch (o_fraction o) (o_pool o) (o_ctl o) (o_page_size o) (staging_base_page_idx o)
    (_request_blocks o) (_scored o) (_sparse_mode o) k act (true_freeing o)
    (_lag_seen_cpu_version o).
Definition with_seen (v : Z) o : orch S :=
  Orch (o_fraction o) (o_pool o) (o_ctl o) (o_page_size o) (staging_base_page_idx o)
    (_request_blocks o) (_scored o) (_sparse_mode o) (_last_offload_step o)
    (_active_request_ids o) (true_freeing o) v.

Definition on_pool {A} (op : M (staging S) A) : M (orch S) A := zoom o_pool with_pool op.
Definition on_manager {A} (op : M (offload S) A) : M (orch S) A := on_pool (on_om op).
Definition on_table {A} (op : M table A) : M (orch S) A := on_manager (on_residency op).
Definition on_ctl {A} (op : M controller A) : M (orch S) A := zoom o_ctl with_ctl op.
Definition o_om o : offload S := om (o_pool o).
Definition o_table o : table := om_residency (o_om o).
Definition o_loc o (ref : BlockRef) : option BlockLocation := loc_of (o_table o) ref.
End OUpdates.

Definition warmup_id (req : string) : bool := String.prefix "_warmup_" req.

Section Orchestrator.
Context {S : Type} `{BlockScorer S} (T : torch_ops).
Context (fused : list kv_layer → list Z → option (list (list (list f64)) * list (list (list f64)))).

Definition orch_init (fraction : f64) (p : staging S) (c : controller) (page_size base : Z) : orch S :=
  Orch fraction p c page_size base ∅ ∅ true 0 [] false 0.

(** ** sync_request_blocks *)

(** The first loop's body: bind or keep one block. *)
Definition sync_block (req : string) (num_computed_tokens : Z) (e : Z * Z) : M (orch S) unit :=
  let '(block_idx, gpu_id) := e in
  let ref := mkRef req block_idx in
  let! ps := gets o_page_size in
  let filled := (block_idx + 1) * ps <=? num_computed_tokens in
  let! old := gets (λ o, o_loc o ref) in
  match old with
  | Some (Loc CPU _ _ _ c) | Some (Loc STAGING _ _ _ c) =>
      when (filled && negb c) do on_table (mark_complete ref)
  | Some (Loc GPU g _ _ c) =>
      if negb (bool_decide (g = Some gpu_id)) then on_table (mark_gpu ref gpu_id filled)
      else when (filled && negb c) do on_table (mark_complete ref)
  | None => on_table (mark_gpu ref gpu_id filled)
  end.

(** The scoring loops: complete GPU blocks not scored yet, with their pages. *)
Fixpoint collect_scores (refs : list BlockRef) (acc : list (BlockRef * Z))
    : M (orch S) (list (BlockRef * Z)) :=
  match refs with
  | [] => ret acc
  | ref :: refs' =>
      let! o := gets (λ o, o) in
      match o_loc o ref with
      | Some (Loc GPU (Some g) _ _ true) =>
          if decide (ref ∈ _scored o) then collect_scores refs' acc
          else
            modify (with_oscored ({[ref]} ∪ _scored o)) >>
            collect_scores refs' (acc ++ [(ref, g)])
      | _ => collect_scores refs' acc
      end
  end.

Definition score_all (items : list (BlockRef * Z)) : M (orch S) unit :=
  if bool_decide (items = []) then ret tt
  else on_manager (score_blocks T fused items.*1 items.*2).

Definition sync_request_blocks (req : string) (gpu_ids : list Z) (num_computed_tokens : Z)
    : M (orch S) (list BlockRef) :=
  if warmup_id req then ret []
  else
    let! prev := gets (λ o, length (default [] (_request_blocks o !! req))) in
    let refs := mkRef req <$> zrange 0 (zlen gpu_ids) in
    mfor (zip (zrange 0 (zlen gpu_ids)) gpu_ids) (sync_block req num_computed_tokens) >>
    let! s1 := collect_scores (drop prev refs) [] in
    let! s2 := collect_scores (take prev refs) s1 in
    mfor s2 (λ e, on_table (mark_complete e.1)) >>
    score_all s2 >>
    modify (λ o, with_requests (<[req := refs]> (_request_blocks o)) o) >>
    ret refs.

(** ** on_prefill_complete *)
Fixpoint graduate (refs : list BlockRef) (num_computed_tokens : Z) (acc : list (BlockRef * Z))
    : M (orch S) (list (BlockRef * Z)) :=
  match refs with
  | [] => ret acc
  | ref :: refs' =>
      let! o := gets (λ o, o) in
      let filled := (block_idx ref + 1) * o_page_size o <=? num_computed_tokens in
      match o_loc o ref with
      | None => graduate refs' num_computed_tokens acc
      | Some l =>
          if negb filled || complete l then graduate refs' num_computed_tokens acc
          else
            on_table (mark_complete ref) >>
            match l with
            | Loc GPU (Some g) _ _ _ =>
                if decide (ref ∈ _scored o) then graduate refs' num_computed_tokens acc
                else
                  modify (λ o, with_oscored ({[ref]} ∪ _scored o) o) >>
                  graduate refs' num_computed_tokens (acc ++ [(ref, g)])
            | _ => graduate refs' num_computed_tokens acc
            end
      end
  end.

Definition on_prefill_complete (req : string) (num_computed_tokens : Z)
    : M (orch S) (list BlockRef) :=
  if warmup_id req then ret []
  else
    let! sparse := gets _sparse_mode in
    if negb sparse then ret []
    else
      let! refs := gets (λ o, default [] (_request_blocks o !! req)) in
      let! items := graduate refs num_computed_tokens [] in
      score_all items >>
      ret [].

(** ** on_decode_step *)
Fixpoint count_decode (reqs : list string) (num_tokens : Z) (acc : list string)
    : M (orch S) (list string) :=
  match reqs with
  | [] => ret acc
  | r :: reqs' =>
      let! t := on_ctl (on_decode r num_tokens) in
      count_decode reqs' num_tokens (if t then acc ++ [r] else acc)
  end.

Definition on_decode_step (io : option nat) (reqs : list string) (num_tokens : Z)
    : M (orch S) (list BlockRef) :=
  let! triggered := count_decode reqs num_tokens [] in
  if bool_decide (triggered = []) then ret []
  else
    modify (λ o, with_step (_last_offload_step o + 1) reqs o) >>
    let! o := gets (λ o, o) in
    on_manager (offload_fraction io (all_gpu_blocks true (o_table o)) (o_fraction o) (_scored o)).

(** ** Staging *)
Definition is_on_cpu (o : orch S) (ref : BlockRef) : bool := was_res CPU (o_loc o ref).

Definition prepare_staging (io : option nat) (reqs : list string) (sparse_idx sparse_len : tensor3)
    : M (orch S) (list (BlockRef * Z)) :=
  let! version := gets (λ o, cpu_version (o_table o)) in
  let! seen := gets _lag_seen_cpu_version in
  if version =? seen then ret []
  else
    modify (with_seen version) >>
    let! ps := gets o_page_size in
    let! needed := lift (collect_needed_block_refs reqs sparse_idx sparse_len ps) in
    let! o := gets (λ o, o) in
    let! r := on_pool (ensure_resident io (filter (λ r, is_on_cpu o r = true) needed)) in
    ret r.1.

(** [argsort_desc sc]: the order of [torch.argsort(sc, descending=True)]. *)
Context (argsort_desc : list score → list nat).

Definition promote_hot_cpu_blocks (io : option nat) (req : string) (max_count : Z)
    : M (orch S) (list (BlockRef * Z)) :=
  let! sparse := gets _sparse_mode in
  if (max_count <=? 0) || negb sparse then ret []
  else
    let! o := gets (λ o, o) in
    let refs := filter (λ r, is_on_cpu o r = true) (refs_for_request (o_table o) req) in
    if bool_decide (refs = []) then ret []
    else
      let! sc := on_manager (on_scorer (scores refs)) in
      let picked := pick refs (take (Z.to_nat max_count) (argsort_desc sc)) in
      let! r := on_pool (ensure_resident io picked) in
      ret r.1.

(** The rows of [note_selection]: the request and its distinct block indices. *)
Definition note_selection (reqs : list string) (sparse_idx : tensor3) (page_size : Z)
    : M (orch S) unit :=
  match note_usage with
  | None => ret tt
  | Some note =>
      if (dim0 sparse_idx * dim1 sparse_idx * dim2 sparse_idx =? 0)%nat || (page_size <=? 0)
      then ret tt
      else if (length reqs <? dim0 sparse_idx)%nat then ret tt
      else
        mfor (zip reqs (elts sparse_idx)) (λ e,
          on_manager (on_scorer (note e.1
            (row_blocks page_size (Z.of_nat (dim2 sparse_idx)) e.2))))
  end.

Definition patch_paged_kv_indices (indices indptr : list Z) (reqs : list string)
    (sparse_idx sparse_len : tensor3) (staging_map : list (BlockRef * Z)) (o : orch S)
    : result (list Z) :=
  patch_paged_kv_indices_with_staging indices indptr reqs (Some (sparse_idx, sparse_len))
    (o_page_size o) (staging_base_page_idx o) (o_table o) staging_map None None.

(** ** Cleanup *)
Definition _cleanup_request (req : string) : M (orch S) unit :=
  let! refs := gets (λ o, default [] (_request_blocks o !! req)) in
  modify (λ o, with_requests (delete req (_request_blocks o)) o) >>
  mfor refs (λ ref,
    on_pool (release ref) >>
    on_manager (om_free ref) >>
    modify (λ o, with_oscored (_scored o ∖ {[ref]}) o)) >>
  on_ctl (ctl_remove req).

Definition on_request_done (req : string) : M (orch S) unit := _cleanup_request req.
Definition on_request_preempted (req : string) : M (orch S) unit := _cleanup_request req.
End Orchestrator.

(** ** The invariant *)

(** The fused kernel, when it answers, returns one row of norms per page. *)
Definition fused_ok (T : torch_ops)
    (fused : list kv_layer → list Z → option (list (list (list f64)) * list (list (list f64))))
    : Prop :=
  ∀ g ids k v, fused g ids = Some (k, v) →
    length (layer_mean T k) = length ids ∧ length (layer_mean T v) = length ids.

(** The caches fit together: [np] pages per layer, [n] CPU slots, and the staging
    area inside the pages. *)
Record env_ok {S} (np n : Z) (p : staging S) : Prop := {
  eo_layout : layout_ok (om p);
  eo_layers : gpu_caches (om p) ≠ [];
  eo_pages : Forall (λ l, zlen (k_cache l) = np ∧ zlen (default (k_cache l) (v_cache l)) = np)
               (gpu_caches (om p));
  eo_cpu : caches_ok n (om p);
  eo_base : 0 ≤ base p ∧ 0 ≤ num_slots p ∧ base p + num_slots p ≤ np;
}.

Record orch_inv {S} `{LawfulScorer S} (np n : Z) (o : orch S) : Prop := {
  oi_sp : sp_inv n [] (o_pool o);
  oi_env : env_ok np n (o_pool o);
  oi_frac : 0 ≤ o_fraction o < f64_one;
  oi_sok : scorer_ok (scorer (o_om o));
  (** what the orchestrator believes scored, the scorer knows *)
  oi_scored : ∀ r, r ∈ _scored o → scored (scorer (o_om o)) r;
  (** GPU blocks sit on existing pages *)
  oi_gpu : ∀ ref l g, o_loc o ref = Some l → residency l = GPU → gpu_block_id l = Some g →
    0 ≤ g < np;
  (** the blocks of a request are tracked from index 0 on, exactly the known ones *)
  oi_lists : ∀ r l, _request_blocks o !! r = Some l → ∃ k, 0 ≤ k ∧ l = mkRef r <$> zrange 0 k;
  oi_tracked : ∀ ref, is_Some (o_loc o ref) ↔
    ∃ l, _request_blocks o !! request_id ref = Some l ∧ ref ∈ l;
  oi_warmup : ∀ ref, is_Some (o_loc o ref) → is_warmup ref = false;
  (** only known blocks are believed scored *)
  oi_known : ∀ r, r ∈ _scored o → is_Some (o_loc o r);
}.

Section Steps.
Context {S : Type} `{LawfulScorer S} (n : Z).

Definition put_table (t : table) (p : staging S) : staging S :=
  with_om (with_residency t (om p)) p.

(** Table updates that leave the staged entries alone keep the pool's invariant. *)
Lemma sp_inv_table (p : staging S) t' ref o :
  sp_inv n [] p → table_slots [] (_cpu_free (om p)) n t' →
  only ref o (om_residency (om p)) t' →
  (∀ s, (∃ l, o = Some l ∧ residency l = STAGING ∧ staging_slot l = Some s) ↔
        (∃ l, sp_loc p ref = Some l ∧ residency l = STAGING ∧ staging_slot l = Some s)) →
  sp_inv n [] (put_table t' p).
Proof.
  intros [Hom Hd Hp Ha] Hts Ho Hst. split; [done|done|done|].
  intros r s. simpl. rewrite Ha. unfold sp_loc at 2, om_loc. simpl. rewrite Ho.
  case_decide; subst; [by rewrite Hst|done].
Qed.

Lemma sp_inv_scorer (p : staging S) s :
  sp_inv n [] p → sp_inv n [] (with_om (with_scorer s (om p)) p).
Proof. intros [H1 H2 H3 H4]. by split. Qed.

(** Only the shapes of the caches matter for [env_ok]. *)
Lemma env_ok_same np (p p' : staging S) :
  env_ok np n p → gshape (gpu_caches (om p')) = gshape (gpu_caches (om p)) →
  shape (cpu_cache (om p')) = shape (cpu_cache (om p)) →
  base p' = base p → num_slots p' = num_slots p → kv_layout (om p') = kv_layout (om p) →
  env_ok np n p'.
Proof.
  intros [H1 H2 H3 H4 H5] Hg Hc Hb Hn Hl.
  assert (length (gpu_caches (om p')) = length (gpu_caches (om p))) as Hlen.
  { apply (f_equal length) in Hg. unfold gshape in Hg. by rewrite !length_fmap in Hg. }
  split.
  - unfold layout_ok. by rewrite Hl.
  - intros He. apply H2, length_zero_iff_nil. rewrite <-Hlen. by rewrite He.
  - rewrite Forall_lookup in H3 |- *. intros k l' Hl'.
    assert (gshape (gpu_caches (om p')) !! k = Some (length (k_cache l'), v_cache l')) as Hk
      by (unfold gshape; by rewrite list_lookup_fmap, Hl').
    rewrite Hg in Hk. unfold gshape in Hk. apply list_lookup_fmap_Some in Hk as (l & Hk & Hl0).
    injection Hk as Hk Hv. specialize (H3 k l Hl0). unfold zlen in *. rewrite Hv.
    destruct (v_cache l); simpl in *; rewrite ?Hk; lia.
  - unfold caches_ok. by rewrite Hc, Hlen.
  - by rewrite Hb, Hn.
Qed.

Lemma sp_mark_complete (p : staging S) ref l :
  sp_inv n [] p → sp_loc p ref = Some l →
  ∃ t', mark_complete ref (om_residency (om p)) = (Ok tt, t') ∧ sp_inv n [] (put_table t' p) ∧
    moved (om_residency (om p)) t' ∧
    only ref (Some (Loc (residency l) (gpu_block_id l) (cpu_slot l) (staging_slot l) true))
      (om_residency (om p)) t'.
Proof.
  intros Hinv Hl. pose proof (si_om _ _ _ Hinv) as Hom.
  destruct (mark_complete_run _ (ts_ok _ _ _ _ Hom) ref l Hl) as (t' & Hrun & Hok & Hm & Hk & Ho).
  exists t'. split; [done|]. split; [|done]. eapply sp_inv_table; [done| |exact Ho|].
  - eapply slots_same_slot; [exact Hom|exact Hl|done|exact Hk|exact Ho|done|done].
  - intros s. rewrite Hl. split; intros (x & [= <-] & ? & ?); eexists; (split; [done|]); done.
Qed.

Lemma sp_mark_gpu (p : staging S) ref g c :
  sp_inv n [] p → (∀ l, sp_loc p ref = Some l → residency l = GPU) →
  ∃ t', mark_gpu ref g c (om_residency (om p)) = (Ok tt, t') ∧ sp_inv n [] (put_table t' p) ∧
    moved (om_residency (om p)) t' ∧
    only ref (Some (Loc GPU (Some g) None None c)) (om_residency (om p)) t'.
Proof.
  intros Hinv Hg. pose proof (si_om _ _ _ Hinv) as Hom.
  destruct (slots_mark_gpu n _ _ _ ref g c Hom Hg) as (t' & Hrun & Hts & Hm & Ho).
  exists t'. split; [done|]. split; [|done]. eapply sp_inv_table; [done|done|exact Ho|].
  intros s. split.
  - by intros (x & [= <-] & ? & _).
  - intros (x & Hx & Hr & _). rewrite (Hg x Hx) in Hr. done.
Qed.
End Steps.

Section ScoreOk.
Context {S : Type} `{LawfulScorer S} (T : torch_ops).
Context (fused : list kv_layer → list Z → option (list (list (list f64)) * list (list (list f64)))).
Context (Hfused : fused_ok T fused).

Lemma update_items_run (m : offload S) (items : list (BlockRef * Z)) s :
  scorer_ok s →
  ∃ s', mfor items (λ e, update (Stats [mean_v T m e.2] [mean_k T m e.2] [e.1])) s = (Ok tt, s') ∧
    scorer_ok s' ∧ ∀ r, scored s' r ↔ scored s r ∨ r ∈ items.*1.
Proof.
  revert s. induction items as [|[r i] items IH]; intros s Hs.
  { exists s. split; [done|]. split; [done|]. set_solver. }
  destruct (update_law (Stats [mean_v T m i] [mean_k T m i] [r]) s) as (s1 & Hrun & Hs1 & Hsc1);
    [done|done|done|].
  destruct (IH s1 Hs1) as (s2 & Hrun2 & Hs2 & Hsc2). exists s2.
  split; [etrans; [apply bind_ok; exact Hrun|exact Hrun2]|]. split; [done|].
  intros x. rewrite Hsc2, Hsc1. csimpl. set_solver.
Qed.

(** Scoring existing pages succeeds and registers the blocks. *)
Lemma score_blocks_registers (m : offload S) (items : list (BlockRef * Z)) :
  layout_ok m → gpu_caches m ≠ [] → kv_pages_exist (gpu_caches m) items.*2 →
  scorer_ok (scorer m) → (∀ e, e ∈ items → is_warmup e.1 = false) →
  ∃ s', score_blocks T fused items.*1 items.*2 m = (Ok tt, with_scorer s' m) ∧ scorer_ok s' ∧
    ∀ r, scored s' r ↔ scored (scorer m) r ∨ r ∈ items.*1.
Proof.
  intros Hlay Hne Hp Hs Hw.
  assert (zip items.*1 items.*2 = items) as Hzip by apply zip_fst_snd_id || (clear; induction items as [|[??]]; csimpl; congruence).
  assert (filter (λ e, is_warmup e.1 = false) items = items) as Hfil by by apply filter_id.
  destruct (fused (gpu_caches m) items.*2) as [[k v]|] eqn:Ef.
  - unfold score_blocks. rewrite Hzip, Hfil. case_bool_decide as Hnil.
    { exists (scorer m). subst. split; [by destruct m|]. split; [done|]. set_solver. }
    run_step. rewrite Ef. destruct (Hfused _ _ _ _ Ef) as [Hk Hv].
    destruct (update_law (Stats (layer_mean T v) (layer_mean T k) items.*1) (scorer m))
      as (s' & Hrun & Hs' & Hsc); [done|simpl; rewrite Hv, !length_fmap; done
                                  |simpl; rewrite Hk, !length_fmap; done|].
    exists s'. split; [by apply zoom_ok|]. split; [done|]. done.
  - rewrite score_blocks_none; rewrite ?Hzip, ?Hfil; try done.
    destruct (update_items_run m items (scorer m) Hs) as (s' & Hrun & Hs' & Hsc).
    exists s'. split; [by apply zoom_ok|]. done.
Qed.
End ScoreOk.

(** ** Table steps

    [put_o t' o] replaces the shared residency table. *)
Definition put_o {S} (t : table) (o : orch S) : orch S := with_pool (put_table t (o_pool o)) o.

Lemma on_table_ok {S A} (op : M table A) (o : orch S) a t' :
  op (o_table o) = (Ok a, t') → on_table op o = (Ok a, put_o t' o).
Proof.
  intros Hop. unfold on_table, on_manager, on_pool, on_om, on_residency, zoom.
  unfold o_table, o_om in Hop. by rewrite Hop.
Qed.

Lemma put_o_same {S} (o : orch S) : put_o (o_table o) o = o.
Proof. by destruct o as [? [? ? ? ? []] ?]. Qed.

Lemma mark_complete_noop t r l :
  loc_of t r = Some l → complete l = true → mark_complete r t = (Ok tt, t).
Proof.
  intros Hl Hc. unfold mark_complete. run_step. rewrite Hl. unfold modify. do 2 f_equal.
  destruct t as [b nc v br], l as [? ? ? ? c]. simpl in Hc. subst c. unfold with_tblocks. simpl.
  f_equal. unfold loc_of in Hl. simpl in Hl. clear -Hl.
  induction b as [|[k x] b IH]; simpl in *; [done|].
  case_decide; [by simplify_eq|]. by rewrite IH.
Qed.

(** What [sync_request_blocks] makes of one block. *)
Definition bind_loc (filled : bool) (gid : Z) (old : option BlockLocation) : BlockLocation :=
  match old with
  | None => Loc GPU (Some gid) None None filled
  | Some (Loc r g cs ss c) =>
      if bool_decide (r = GPU) && negb (bool_decide (g = Some gid))
      then Loc GPU (Some gid) None None filled
      else Loc r g cs ss (c || filled)
  end.

Section Sync.
Context {S : Type} `{LawfulScorer S} (n : Z).
Implicit Types o : orch S.

Definition block_filled o (i ntok : Z) : bool := (i + 1) * o_page_size o <=? ntok.

Lemma only_refl t r l : loc_of t r = Some l → only r (Some l) t t.
Proof. intros Hl x. by case_decide; subst. Qed.

Lemma complete_if_filled (filled : bool) o r l :
  sp_inv n [] (o_pool o) → o_loc o r = Some l →
  ∃ t', (when (filled && negb (complete l)) do on_table (mark_complete r)) o = (Ok tt, put_o t' o) ∧
    sp_inv n [] (o_pool (put_o t' o)) ∧ moved (o_table o) t' ∧
    only r (Some (Loc (residency l) (gpu_block_id l) (cpu_slot l) (staging_slot l)
                    (complete l || filled))) (o_table o) t'.
Proof.
  intros Hinv Hl. destruct (filled && negb (complete l)) eqn:E.
  - destruct (sp_mark_complete n _ _ _ Hinv Hl) as (t' & Hrun & Hi & Hm & Ho).
    exists t'. split; [by apply on_table_ok|]. split; [done|]. split; [done|].
    replace (complete l || filled) with true; [done|]. by destruct (complete l), filled.
  - exists (o_table o). rewrite put_o_same. split; [done|]. split; [done|]. split; [done|].
    apply only_refl. change (o_loc o r = Some (Loc (residency l) (gpu_block_id l) (cpu_slot l)
      (staging_slot l) (complete l || filled))). rewrite Hl. f_equal. destruct l as [a b c d e].
    simpl in *. f_equal. by destruct e, filled.
Qed.

Lemma sync_block_run req ntok i g o :
  sp_inv n [] (o_pool o) →
  ∃ t', sync_block req ntok (i, g) o = (Ok tt, put_o t' o) ∧
    sp_inv n [] (o_pool (put_o t' o)) ∧ moved (o_table o) t' ∧
    only (mkRef req i)
      (Some (bind_loc (block_filled o i ntok) g (o_loc o (mkRef req i)))) (o_table o) t'.
Proof.
  intros Hinv. unfold sync_block. do 2 run_step. fold (block_filled o i ntok).
  set (ref := mkRef req i).
  destruct (o_loc o ref) as [l|] eqn:Hl.
  - assert (∀ f, residency l ≠ GPU ∨ gpu_block_id l = Some g →
        bind_loc f g (Some l) = Loc (residency l) (gpu_block_id l) (cpu_slot l) (staging_slot l)
                                    (complete l || f)) as Hb.
    { intros f Hc. destruct l as [r g0 ? ? ?]. simpl in *.
      destruct (bool_decide (r = GPU)) eqn:E1, (bool_decide (g0 = Some g)) eqn:E2; try done.
      apply bool_decide_eq_true in E1. apply bool_decide_eq_false in E2. naive_solver. }
    pose proof (complete_if_filled (block_filled o i ntok) o ref l Hinv Hl) as Hk.
    destruct l as [[] g0 cs ss c]; try (rewrite Hb by (by left); exact Hk).
    destruct (bool_decide_reflect (g0 = Some g)) as [->|Hne]; cbn [negb].
    { rewrite Hb by (by right). exact Hk. }
    destruct (sp_mark_gpu n (o_pool o) ref g (block_filled o i ntok) Hinv)
      as (t' & Hrun & Hi & Hm & Ho).
    { intros l' Hl'. change (o_loc o ref = Some l') in Hl'. rewrite Hl in Hl'. by simplify_eq. }
    exists t'. split; [by apply on_table_ok|]. simpl. rewrite (bool_decide_eq_false_2 _ Hne). done.
  - destruct (sp_mark_gpu n (o_pool o) ref g (block_filled o i ntok) Hinv)
      as (t' & Hrun & Hi & Hm & Ho).
    { intros l' Hl'. change (o_loc o ref = Some l') in Hl'. by rewrite Hl in Hl'. }
    exists t'. split; [by apply on_table_ok|]. done.
Qed.

Lemma sync_loop_run req ntok (es : list (Z * Z)) o :
  sp_inv n [] (o_pool o) → NoDup es.*1 →
  ∃ t', mfor es (sync_block req ntok) o = (Ok tt, put_o t' o) ∧
    sp_inv n [] (o_pool (put_o t' o)) ∧ moved (o_table o) t' ∧
    (∀ i g, (i, g) ∈ es → loc_of t' (mkRef req i) =
       Some (bind_loc (block_filled o i ntok) g (o_loc o (mkRef req i)))) ∧
    (∀ r, r ∉ mkRef req <$> es.*1 → loc_of t' r = o_loc o r).
Proof.
  revert o. induction es as [|[i g] es IH]; intros o Hinv Hnd.
  { exists (o_table o). rewrite put_o_same. split; [done|]. split; [done|]. split; [done|].
    split; [set_solver|done]. }
  csimpl in Hnd. apply NoDup_cons in Hnd as [Hni Hnd].
  destruct (sync_block_run req ntok i g o Hinv) as (t1 & Hrun1 & Hi1 & Hm1 & Ho1).
  destruct (IH (put_o t1 o) Hi1 Hnd) as (t2 & Hrun2 & Hi2 & Hm2 & Hin2 & Hout2).
  assert (∀ j g', (j, g') ∈ es → j ≠ i) as Hne.
  { intros j g' Hj ->. apply Hni. apply list_elem_of_fmap. by exists (i, g'). }
  exists t2. split; [by rewrite (mfor_cons _ _ _ _ _ Hrun1)|]. split; [done|].
  split; [by etrans|]. split.
  - intros j g' [[= -> ->]|Hj]%elem_of_cons.
    + rewrite Hout2; [|intros (k & [= ->] & Hk)%list_elem_of_fmap; done].
      unfold o_loc at 1. change (o_table (put_o t1 o)) with t1. rewrite Ho1. by rewrite decide_True.
    + rewrite (Hin2 j g' Hj). do 2 f_equal. unfold o_loc.
      change (o_table (put_o t1 o)) with t1. rewrite Ho1. rewrite decide_False; [done|].
      intros [= ->]. by apply (Hne j g').
  - intros r Hr. csimpl in Hr. apply not_elem_of_cons in Hr as [Hr1 Hr2].
    rewrite Hout2 by done. unfold o_loc. change (o_table (put_o t1 o)) with t1. rewrite Ho1.
    by rewrite decide_False.
Qed.

(** The blocks the scoring loops collect. *)
Definition score_entry o (ref : BlockRef) : option (BlockRef * Z) :=
  match o_loc o ref with
  | Some (Loc GPU (Some g) _ _ true) => if decide (ref ∈ _scored o) then None else Some (ref, g)
  | _ => None
  end.

Lemma score_entry_ref o r e : score_entry o r = Some e → e.1 = r.
Proof. unfold score_entry. intros. repeat case_match; by simplify_eq. Qed.

Lemma collect_scores_run refs acc o :
  NoDup refs →
  collect_scores refs acc o =
  (Ok (acc ++ omap (score_entry o) refs),
   with_oscored (list_to_set (omap (score_entry o) refs).*1 ∪ _scored o) o).
Proof.
  revert acc o. induction refs as [|r refs IH]; intros acc o Hnd.
  { simpl. rewrite app_nil_r. unfold ret. do 2 f_equal. destruct o. unfold with_oscored. simpl.
    f_equal. set_solver. }
  apply NoDup_cons in Hnd as [Hr Hnd]. csimpl. run_step.
  assert (∀ x, score_entry o r = Some x →
    omap (score_entry (with_oscored ({[r]} ∪ _scored o) o)) refs = omap (score_entry o) refs) as Hex.
  { intros _ _. apply omap_ext_in. intros y Hy. unfold score_entry.
    change (o_loc (with_oscored _ o) y) with (o_loc o y).
    destruct (o_loc o y) as [[[] [g|] ? ? []]|]; try done. apply decide_ext. simpl.
    rewrite elem_of_union, elem_of_singleton. split; [intros [->|?]; [done|done]|by right]. }
  destruct (score_entry o r) as [e|] eqn:E; unfold score_entry in E;
    destruct (o_loc o r) as [[[] [g|] ? ? []]|]; try done; try (by apply IH); case_decide;
    try done; [|by apply IH].
  injection E as <-. run_step. rewrite IH by done. rewrite (Hex _ eq_refl). csimpl.
  f_equal; [by rewrite <-(assoc_L app)|]. unfold with_oscored. simpl. f_equal. set_solver.
Qed.
End Sync.

Section SyncCorrect.
Context {S : Type} `{LawfulScorer S} (np n : Z) (T : torch_ops).
Context (fused : list kv_layer → list Z → option (list (list (list f64)) * list (list (list f64)))).
Context (Hfused : fused_ok T fused).
Implicit Types o : orch S.

Definition put_scorer (s : S) o : orch S := with_pool (with_om (with_scorer s (o_om o)) (o_pool o)) o.

Lemma on_manager_ok {A} (op : M (offload S) A) o a m' :
  op (o_om o) = (Ok a, m') → on_manager op o = (Ok a, with_pool (with_om m' (o_pool o)) o).
Proof. intros Hop. unfold on_manager, on_pool, on_om, zoom. unfold o_om in Hop. by rewrite Hop. Qed.

Lemma put_scorer_same o : put_scorer (scorer (o_om o)) o = o.
Proof. by destruct o as [? [? ? ? ? []] ?]. Qed.

Lemma collect_scores_app l1 l2 acc o :
  bind (collect_scores l1 acc) (collect_scores l2) o = collect_scores (S:=S) (l1 ++ l2) acc o.
Proof.
  revert acc o. induction l1 as [|r l1 IH]; intros acc o; [done|].
  unfold bind in IH |- *. simpl. unfold bind, gets, modify. destruct (o_loc o r) as [[[] [g|] ? ? []]|]; try apply IH.
  case_decide; apply IH.
Qed.

Lemma bind_bind {A B C} (m : M (orch S) A) (f : A → M (orch S) B) (g : B → M (orch S) C) o :
  bind (bind m f) g o = bind m (λ x, bind (f x) g) o.
Proof. unfold bind. by destruct (m o) as [[]?]. Qed.

Lemma env_pages (p : staging S) (ids : list Z) :
  env_ok np n p → Forall (λ i, 0 ≤ i < np) ids → kv_pages_exist (gpu_caches (om p)) ids.
Proof.
  intros He Hids. unfold kv_pages_exist. eapply Forall_impl; [exact (eo_pages _ _ _ He)|].
  intros l [Hk Hv]. eapply Forall_impl; [exact Hids|]. simpl. intros i Hi. lia.
Qed.

Lemma score_all_run (items : list (BlockRef * Z)) o :
  env_ok np n (o_pool o) → scorer_ok (scorer (o_om o)) →
  (∀ e, e ∈ items → is_warmup e.1 = false ∧ 0 ≤ e.2 < np) →
  ∃ s', score_all T fused items o = (Ok tt, put_scorer s' o) ∧ scorer_ok s' ∧
    ∀ r, scored s' r ↔ scored (scorer (o_om o)) r ∨ r ∈ items.*1.
Proof.
  intros He Hs Hit. unfold score_all. case_bool_decide as Hnil.
  { subst. exists (scorer (o_om o)). rewrite put_scorer_same. split; [done|]. split; [done|].
    set_solver. }
  destruct (score_blocks_registers T fused Hfused (o_om o) items) as (s' & Hrun & Hs' & Hsc);
    [apply He|apply He| |done|naive_solver|].
  { apply (env_pages (o_pool o)); [done|]. apply Forall_forall. intros i (e & -> & ?)%list_elem_of_fmap.
    naive_solver. }
  exists s'. split; [by apply on_manager_ok|]. done.
Qed.

Lemma mark_all_noop (items : list (BlockRef * Z)) o :
  (∀ e, e ∈ items → ∃ l, o_loc o e.1 = Some l ∧ complete l = true) →
  mfor items (λ e, on_table (mark_complete e.1)) o = (Ok tt, o).
Proof.
  induction items as [|e items IH]; intros Hit; [done|].
  rewrite (mfor_cons _ _ _ _ o); [apply IH; set_solver|].
  destruct (Hit e) as (l & Hl & Hc); [set_solver|].
  rewrite <-(put_o_same o) at 2. apply on_table_ok. by eapply mark_complete_noop.
Qed.

Lemma score_entry_Some o r e :
  score_entry o r = Some e ↔ e.1 = r ∧ r ∉ _scored o ∧
    ∃ l, o_loc o r = Some l ∧ residency l = GPU ∧ gpu_block_id l = Some e.2 ∧ complete l = true.
Proof.
  unfold score_entry. split.
  - intros Hs. repeat case_match; simplify_eq/=. split; [done|]. split; [done|].
    eexists; split; [done|]. done.
  - destruct e as [r' g]. simpl. intros (-> & Hn & l & -> & Hr & Hg & Hc).
    destruct l as [? ? ? ? ?]; simplify_eq/=. by rewrite decide_False.
Qed.

(** The outcome of [sync_request_blocks]. *)
Record synced (req : string) (gids : list Z) (ntok : Z) o o' : Prop := {
  sy_inv : orch_inv np n o';
  sy_caches : gpu_caches (o_om o') = gpu_caches (o_om o) ∧ cpu_cache (o_om o') = cpu_cache (o_om o) ∧
              _cpu_free (o_om o') = _cpu_free (o_om o);
  (** every block of the table is bound to its page, unless its copy is on the
      CPU or staged, and is complete iff it was or its page is filled *)
  sy_bound : ∀ (i : nat) g, gids !! i = Some g →
    o_loc o' (mkRef req (Z.of_nat i)) =
    Some (bind_loc (block_filled o (Z.of_nat i) ntok) g (o_loc o (mkRef req (Z.of_nat i))));
  sy_others : ∀ r, request_id r ≠ req → o_loc o' r = o_loc o r;
  (** every complete GPU block of the request is scored *)
  sy_scored : ∀ r, r ∈ _scored o' ↔ r ∈ _scored o ∨
    (request_id r = req ∧ ∃ l, o_loc o' r = Some l ∧ residency l = GPU ∧ complete l = true);
}.

Lemma elem_of_refs req k r : r ∈ mkRef req <$> zrange 0 k ↔ request_id r = req ∧ 0 ≤ block_idx r < k.
Proof.
  rewrite list_elem_of_fmap. setoid_rewrite elem_of_zrange. split.
  - by intros (i & -> & Hi).
  - destruct r as [q i]. simpl. intros [-> Hi]. by exists i.
Qed.

Lemma NoDup_refs req k : NoDup (mkRef req <$> zrange 0 k).
Proof. apply NoDup_fmap_2; [by intros ? ? [=]|apply NoDup_zrange]. Qed.

Lemma bind_loc_gpu_id f g old g' :
  residency (bind_loc f g old) = GPU → gpu_block_id (bind_loc f g old) = Some g' → g' = g.
Proof.
  destruct old as [[r g0 ? ? ?]|]; simpl; [|by intros _ [=]].
  destruct (bool_decide_reflect (r = GPU)), (bool_decide_reflect (g0 = Some g)); simpl; congruence.
Qed.

Lemma elem_of_enum (gids : list Z) i g :
  (i, g) ∈ zip (zrange 0 (zlen gids)) gids ↔ 0 ≤ i ∧ gids !! Z.to_nat i = Some g.
Proof.
  rewrite list_elem_of_lookup. setoid_rewrite lookup_zip_with. split.
  - intros (k & Hk). destruct (zrange 0 (zlen gids) !! k) as [j|] eqn:Hj; [|done]. simpl in Hk.
    destruct (gids !! k) as [g'|] eqn:Hg; [|done]. simplify_eq/=.
    unfold zrange in Hj. apply list_lookup_fmap_Some in Hj as (x & -> & Hx).
    apply lookup_seq in Hx as [-> _]. split; [lia|]. rewrite <-Hg. f_equal. lia.
  - intros [Hi Hg]. exists (Z.to_nat i). rewrite Hg. pose proof (lookup_lt_Some _ _ _ Hg) as Hlt.
    unfold zrange. rewrite list_lookup_fmap. rewrite lookup_seq_lt by (unfold zlen; lia). simpl.
    do 2 f_equal. lia.
Qed.

Lemma enum_fst (gids : list Z) : (zip (zrange 0 (zlen gids)) gids).*1 = zrange 0 (zlen gids).
Proof. apply fst_zip. unfold zrange, zlen. rewrite length_fmap, length_seq. lia. Qed.

(** The table the first loop leaves, block by block. *)
Record bound (req : string) (gids : list Z) (ntok : Z) o (t' : table) : Prop := {
  bd_in : ∀ r, request_id r = req → 0 ≤ block_idx r < zlen gids →
    ∃ g, gids !! Z.to_nat (block_idx r) = Some g ∧ 0 ≤ g < np ∧
         loc_of t' r = Some (bind_loc (block_filled o (block_idx r) ntok) g (o_loc o r));
  bd_out : ∀ r, ¬ (request_id r = req ∧ 0 ≤ block_idx r < zlen gids) → loc_of t' r = o_loc o r;
  (** all known blocks of the request were rebound *)
  bd_known : ∀ r, request_id r = req → is_Some (loc_of t' r) ↔ 0 ≤ block_idx r < zlen gids;
}.

Lemma bind_all_run req gids ntok o :
  orch_inv np n o → Forall (λ g, 0 ≤ g < np) gids →
  (length (default [] (_request_blocks o !! req)) ≤ length gids)%nat →
  ∃ t', mfor (zip (zrange 0 (zlen gids)) gids) (sync_block req ntok) o = (Ok tt, put_o t' o) ∧
    sp_inv n [] (o_pool (put_o t' o)) ∧ bound req gids ntok o t'.
Proof.
  intros Hinv Hg Hlen.
  destruct (sync_loop_run n req ntok (zip (zrange 0 (zlen gids)) gids) o)
    as (t' & Hrun & Hsp & _ & Hin & Hout); [apply Hinv|rewrite enum_fst; apply NoDup_zrange|].
  rewrite enum_fst in Hout. setoid_rewrite elem_of_refs in Hout.
  exists t'. split; [done|]. split; [done|].
  assert (∀ r, request_id r = req → 0 ≤ block_idx r < zlen gids →
    ∃ g, gids !! Z.to_nat (block_idx r) = Some g ∧ 0 ≤ g < np ∧
         loc_of t' r = Some (bind_loc (block_filled o (block_idx r) ntok) g (o_loc o r))) as Hbd.
  { intros [q i] Hq Hi. simpl in *. subst q.
    destruct (lookup_lt_is_Some_2 gids (Z.to_nat i)) as [g Hgi]; [unfold zlen in Hi; lia|].
    exists g. split; [done|]. split; [by eapply Forall_lookup in Hg|].
    apply Hin, elem_of_enum. split; [lia|done]. }
  split; [done|done|]. intros r Hr. split.
  - intros Hs. destruct (decide (0 ≤ block_idx r < zlen gids)) as [|Hno]; [done|].
    rewrite Hout in Hs by tauto. apply (oi_tracked _ _ _ Hinv) in Hs as (l & Hl & Hrl).
    destruct (oi_lists _ _ _ Hinv _ _ Hl) as (k & Hk & ->). rewrite Hr in Hl. rewrite Hl in Hlen.
    simpl in Hlen. apply elem_of_refs in Hrl as [_ Hrl].
    unfold zrange in Hlen. rewrite !length_fmap, length_seq in Hlen. unfold zlen in *. lia.
  - intros Hi. destruct (Hbd r Hr Hi) as (g & _ & _ & ->). by eexists.
Qed.

Lemma sync_inv req gids ntok o t' s' sc :
  orch_inv np n o → warmup_id req = false → sp_inv n [] (o_pool (put_o t' o)) →
  bound req gids ntok o t' → scorer_ok s' →
  (∀ r, r ∈ sc → scored s' r ∧ is_Some (loc_of t' r)) →
  orch_inv np n (with_requests (<[req := mkRef req <$> zrange 0 (zlen gids)]> (_request_blocks o))
                   (put_scorer s' (with_oscored sc (put_o t' o)))).
Proof.
  intros Hinv Hw Hsp Hb Hs' Hsc.
  assert (∀ r, request_id r ≠ req → loc_of t' r = o_loc o r) as Hoth.
  { intros r Hr. apply (bd_out _ _ _ _ _ Hb). tauto. }
  split.
  - by apply (sp_inv_scorer n _ s') in Hsp.
  - by apply (env_ok_same n np (o_pool o)); [apply Hinv|..].
  - apply (oi_frac _ _ _ Hinv).
  - done.
  - apply Hsc.
  - change (∀ ref l g, loc_of t' ref = Some l → residency l = GPU → gpu_block_id l = Some g →
      0 ≤ g < np). intros ref l g Hl Hr Hg.
    destruct (decide (request_id ref = req ∧ 0 ≤ block_idx ref < zlen gids)) as [[Hq Hi]|Hno].
    + destruct (bd_in _ _ _ _ _ Hb ref Hq Hi) as (g' & _ & Hg' & Hl'). rewrite Hl' in Hl.
      simplify_eq. apply bind_loc_gpu_id in Hg; [|done]. by subst.
    + rewrite (bd_out _ _ _ _ _ Hb) in Hl by done. by eapply (oi_gpu _ _ _ Hinv).
  - simpl. intros r l Hl. apply lookup_insert_Some in Hl as [[<- <-]|[Hne Hl]].
    + exists (zlen gids). split; [apply zlen_nonneg|done].
    + by eapply (oi_lists _ _ _ Hinv).
  - change (∀ ref, is_Some (loc_of t' ref) ↔ ∃ l,
      <[req := mkRef req <$> zrange 0 (zlen gids)]> (_request_blocks o) !! request_id ref = Some l ∧
      ref ∈ l). intros ref. destruct (decide (request_id ref = req)) as [Hq|Hq].
    + rewrite Hq, lookup_insert_eq. rewrite (bd_known _ _ _ _ _ Hb ref Hq).
      split; [intros Hi; eexists; split; [done|]; by apply elem_of_refs|].
      by intros (? & [= <-] & [_ ?]%elem_of_refs).
    + rewrite lookup_insert_ne by done. rewrite Hoth by done. apply (oi_tracked _ _ _ Hinv).
  - change (∀ ref, is_Some (loc_of t' ref) → is_warmup ref = false). intros ref Href.
    destruct (decide (request_id ref = req)) as [Hq|Hq]; [unfold is_warmup; by rewrite Hq|].
    rewrite Hoth in Href by done. by apply (oi_warmup _ _ _ Hinv).
  - apply Hsc.
Qed.

Lemma sync_run req gids ntok o :
  orch_inv np n o → warmup_id req = false → Forall (λ g, 0 ≤ g < np) gids →
  (length (default [] (_request_blocks o !! req)) ≤ length gids)%nat →
  ∃ o', sync_request_blocks T fused req gids ntok o =
          (Ok (mkRef req <$> zrange 0 (zlen gids)), o') ∧ synced req gids ntok o o'.
Proof.
  intros Hinv Hw Hg Hlen. unfold sync_request_blocks. rewrite Hw. run_step.
  set (prev := length _). set (refs := mkRef req <$> _).
  destruct (bind_all_run req gids ntok o Hinv Hg Hlen) as (t' & Hrun & Hsp & Hb).
  erewrite bind_ok by exact Hrun. cbn beta. rewrite <-bind_bind.
  assert (drop prev refs ++ take prev refs ≡ₚ refs) as Hperm.
  { rewrite (comm (++)). by rewrite take_drop. }
  set (items := omap (score_entry (put_o t' o)) (drop prev refs ++ take prev refs)).
  erewrite bind_ok.
  2: { rewrite collect_scores_app. apply collect_scores_run. rewrite Hperm. apply NoDup_refs. }
  cbn beta. rewrite app_nil_l. fold items. set (o2 := with_oscored _ _).
  assert (∀ e, e ∈ items ↔ request_id e.1 = req ∧ 0 ≤ block_idx e.1 < zlen gids ∧
    e.1 ∉ _scored o ∧ ∃ l, loc_of t' e.1 = Some l ∧ residency l = GPU ∧
      gpu_block_id l = Some e.2 ∧ complete l = true) as Hitems.
  { assert (∀ r, r ∈ drop prev refs ++ take prev refs ↔ request_id r = req ∧
      0 ≤ block_idx r < zlen gids) as Hel by (intros r; rewrite Hperm; apply elem_of_refs).
    intros e. unfold items. rewrite list_elem_of_omap. setoid_rewrite Hel.
    setoid_rewrite score_entry_Some. unfold o_loc, o_table. simpl. naive_solver. }
  erewrite bind_ok by (apply mark_all_noop; intros e (_ & _ & _ & l & Hl & _ & _ & Hc)%Hitems; by exists l).
  destruct (score_all_run items o2) as (s' & Hrun' & Hs' & Hsc).
  { by apply (env_ok_same n np (o_pool o)); [apply Hinv|..]. }
  { apply (oi_sok _ _ _ Hinv). }
  { intros e (Hq & Hi & _ & l & Hl & Hr & Hgl & _)%Hitems. split; [unfold is_warmup; by rewrite Hq|].
    destruct (bd_in _ _ _ _ _ Hb e.1 Hq Hi) as (g & _ & Hgr & Hl'). rewrite Hl' in Hl. simplify_eq.
    apply bind_loc_gpu_id in Hgl; [|done]. by subst. }
  erewrite bind_ok by exact Hrun'. cbn beta. run_step. eexists. split; [done|].
  assert (∀ r, r ∈ items.*1 ↔ r ∉ _scored o ∧ request_id r = req ∧
    ∃ l, loc_of t' r = Some l ∧ residency l = GPU ∧ complete l = true) as Hfst.
  { intros r. rewrite list_elem_of_fmap. setoid_rewrite Hitems. split; [naive_solver|].
    intros (Hn & Hq & l & Hl & Hr & Hc).
    assert (is_Some (gpu_block_id l)) as [g Hgl].
    { destruct (to_loc _ (ts_ok _ _ _ _ (si_om _ _ _ Hsp)) r l Hl) as [? _]. done. }
    exists (r, g). split; [done|]. simpl. split; [done|]. split; [|naive_solver].
    apply (bd_known _ _ _ _ _ Hb r Hq). by eexists. }
  split.
  - refine (sync_inv req gids ntok o t' s' (list_to_set items.*1 ∪ _scored o) Hinv Hw Hsp Hb Hs' _).
    intros r Hr. rewrite Hsc. apply elem_of_union in Hr as [Hr%elem_of_list_to_set|Hr].
    + split; [by right|]. apply Hfst in Hr as (_ & _ & l & Hl & _). by exists l.
    + split; [left; by apply (oi_scored _ _ _ Hinv)|]. apply (oi_known _ _ _ Hinv) in Hr.
      destruct (decide (request_id r = req ∧ 0 ≤ block_idx r < zlen gids)) as [[Hq Hi]|Hno].
      * by apply (bd_known _ _ _ _ _ Hb).
      * by rewrite (bd_out _ _ _ _ _ Hb).
  - done.
  - intros i g Hi. pose proof (lookup_lt_Some _ _ _ Hi).
    destruct (bd_in _ _ _ _ _ Hb (mkRef req (Z.of_nat i)) eq_refl) as (g' & Hg' & _ & Hl);
      [simpl; unfold zlen; lia|]. simpl in Hg'. rewrite Nat2Z.id in Hg'. by simplify_eq.
  - intros r Hr. apply (bd_out _ _ _ _ _ Hb). tauto.
  - change (∀ r, r ∈ list_to_set items.*1 ∪ _scored o ↔ r ∈ _scored o ∨ (request_id r = req ∧
      ∃ l, loc_of t' r = Some l ∧ residency l = GPU ∧ complete l = true)).
    intros r. rewrite elem_of_union, elem_of_list_to_set, Hfst.
    destruct (decide (r ∈ _scored o)); naive_solver.
Qed.
End SyncCorrect.

(** ** Prefill completion *)

Definition completed (filled : bool) (l : BlockLocation) : BlockLocation :=
  Loc (residency l) (gpu_block_id l) (cpu_slot l) (staging_slot l) (complete l || filled).

Section Prefill.
Context {S : Type} `{LawfulScorer S} (np n : Z) (T : torch_ops).
Context (fused : list kv_layer → list Z → option (list (list (list f64)) * list (list (list f64)))).
Context (Hfused : fused_ok T fused).
Implicit Types o : orch S.

Definition graduate_entry (ntok : Z) o (ref : BlockRef) : option (BlockRef * Z) :=
  match o_loc o ref with
  | Some (Loc GPU (Some g) _ _ false) =>
      if block_filled o (block_idx ref) ntok && negb (bool_decide (ref ∈ _scored o))
      then Some (ref, g) else None
  | _ => None
  end.

Lemma graduate_entry_Some ntok o r e :
  graduate_entry ntok o r = Some e ↔ e.1 = r ∧ r ∉ _scored o ∧
    block_filled o (block_idx r) ntok = true ∧
    ∃ l, o_loc o r = Some l ∧ residency l = GPU ∧ gpu_block_id l = Some e.2 ∧ complete l = false.
Proof.
  unfold graduate_entry. split.
  - intros Hs. repeat case_match; simplify_eq/=. apply andb_true_iff in H6 as [? Hn].
    apply negb_true_iff, bool_decide_eq_false in Hn. split_and!; [done..|]. by eexists.
  - destruct e as [r' g]. simpl. intros (-> & Hn & -> & l & -> & Hr & Hg & Hc).
    destruct l as [? ? ? ? ?]; simplify_eq/=. by rewrite (bool_decide_eq_false_2 _ Hn).
Qed.

(** One known block: it becomes complete if its page is filled. *)
Lemma graduate_cons ntok r refs acc o l :
  sp_inv n [] (o_pool o) → o_loc o r = Some l →
  ∃ t', sp_inv n [] (o_pool (put_o t' o)) ∧ moved (o_table o) t' ∧
    only r (Some (completed (block_filled o (block_idx r) ntok) l)) (o_table o) t' ∧
    graduate (r :: refs) ntok acc o =
    graduate refs ntok (acc ++ option_list (graduate_entry ntok o r))
      (with_oscored (list_to_set (option_list (graduate_entry ntok o r)).*1 ∪ _scored o) (put_o t' o)).
Proof.
  intros Hinv Hl. cbn [graduate].
  assert (∀ o1 o2, _scored o1 = _scored o2 → with_oscored (∅ ∪ _scored o1) o2 = o2) as Hnil.
  { intros [] [] Hs. unfold with_oscored. simpl in *. f_equal. subst. set_solver. }
  destruct (negb (block_filled o (block_idx r) ntok) || complete l) eqn:E.
  - exists (o_table o). rewrite put_o_same. split; [done|]. split; [done|]. split.
    + apply only_refl. change (o_loc o r = Some (completed (block_filled o (block_idx r) ntok) l)).
      rewrite Hl. f_equal. destruct l as [? ? ? ? c]. unfold completed. simpl in *. f_equal.
      destruct (block_filled o (block_idx r) ntok), c; done.
    + assert (graduate_entry ntok o r = None) as ->.
      { destruct (graduate_entry ntok o r) eqn:Eg; [|done]. exfalso.
        apply graduate_entry_Some in Eg as (_ & _ & Hf & l' & Hl' & _ & _ & Hc).
        rewrite Hl in Hl'. simplify_eq. by rewrite Hf, Hc in E. }
      run_step. rewrite Hl. unfold block_filled in E. rewrite E. simpl. rewrite app_nil_r. by rewrite Hnil.
  - apply orb_false_iff in E as [Ef Ec]. apply negb_false_iff in Ef.
    destruct (sp_mark_complete n _ _ _ Hinv Hl) as (t' & Hrun & Hi & Hm & Ho).
    exists t'. split; [done|]. split; [done|]. split.
    { unfold completed. rewrite Ef, orb_true_r. done. }
    run_step. rewrite Hl. pose proof Ef as Ef'. unfold block_filled in Ef'. rewrite Ef', Ec. cbn [negb orb].
    erewrite bind_ok by (apply on_table_ok; exact Hrun). unfold graduate_entry. rewrite Hl, Ef.
    destruct l as [[] [g|] ? ? c]; simpl in Ec; subst c; simpl;
      rewrite ?app_nil_r; rewrite ?Hnil by done; try done.
    case_decide as Hd.
    + rewrite (bool_decide_eq_true_2 _ Hd). simpl. rewrite app_nil_r. by rewrite Hnil.
    + rewrite (bool_decide_eq_false_2 _ Hd). simpl. run_step. do 2 f_equal. set_solver.
Qed.

(** Calls that move known blocks without adding or dropping one keep the
    invariant. *)
Record rearranged o o' : Prop := {
  ra_static : o_fraction o' = o_fraction o ∧ _request_blocks o' = _request_blocks o;
  ra_sp : sp_inv n [] (o_pool o');
  ra_env : env_ok np n (o_pool o');
  ra_sok : scorer_ok (scorer (o_om o'));
  ra_scored : ∀ r, r ∈ _scored o' → scored (scorer (o_om o')) r;
  ra_dom : ∀ r, is_Some (o_loc o' r) ↔ is_Some (o_loc o r);
  ra_gpu : ∀ r l, o_loc o' r = Some l → residency l = GPU →
    ∃ l', o_loc o r = Some l' ∧ residency l' = GPU ∧ gpu_block_id l' = gpu_block_id l;
  ra_known : ∀ r, r ∈ _scored o' → is_Some (o_loc o r);
}.

Lemma rearranged_inv o o' : orch_inv np n o → rearranged o o' → orch_inv np n o'.
Proof.
  intros Hinv [[Hf Hrb] Hsp Henv Hsok Hsc Hdom Hgpu Hkn]. split; try done.
  - rewrite Hf. apply (oi_frac _ _ _ Hinv).
  - intros ref l g Hl Hr Hg. destruct (Hgpu ref l Hl Hr) as (l' & Hl' & Hr' & Hg').
    eapply (oi_gpu _ _ _ Hinv); [done|done|congruence].
  - rewrite Hrb. apply (oi_lists _ _ _ Hinv).
  - intros ref. rewrite Hdom, Hrb. apply (oi_tracked _ _ _ Hinv).
  - intros ref. rewrite Hdom. apply (oi_warmup _ _ _ Hinv).
  - intros r. rewrite Hdom. apply Hkn.
Qed.

Lemma graduate_run ntok refs acc o :
  sp_inv n [] (o_pool o) → NoDup refs → (∀ r, r ∈ refs → is_Some (o_loc o r)) →
  ∃ t', let items := omap (graduate_entry ntok o) refs in
    graduate refs ntok acc o =
      (Ok (acc ++ items), with_oscored (list_to_set items.*1 ∪ _scored o) (put_o t' o)) ∧
    sp_inv n [] (o_pool (put_o t' o)) ∧
    (∀ r, r ∈ refs → loc_of t' r = completed (block_filled o (block_idx r) ntok) <$> o_loc o r) ∧
    (∀ r, r ∉ refs → loc_of t' r = o_loc o r).
Proof.
  revert acc o. induction refs as [|r refs IH]; intros acc o Hinv Hnd Hk.
  { exists (o_table o). rewrite put_o_same. simpl. rewrite app_nil_r.
    split; [|split; [done|split; [set_solver|done]]].
    unfold ret. do 2 f_equal. destruct o. unfold with_oscored. simpl. f_equal. set_solver. }
  apply NoDup_cons in Hnd as [Hr Hnd]. destruct (Hk r) as [l Hl]; [set_solver|].
  destruct (graduate_cons ntok r refs acc o l Hinv Hl) as (t1 & Hi1 & _ & Ho1 & Hrun1).
  set (it := option_list (graduate_entry ntok o r)) in *.
  set (o1 := with_oscored (list_to_set it.*1 ∪ _scored o) (put_o t1 o)) in *.
  assert (∀ x, x ≠ r → o_loc o1 x = o_loc o x) as Hne.
  { intros x Hx. change (loc_of t1 x = o_loc o x). rewrite Ho1. by rewrite decide_False. }
  destruct (IH (acc ++ it) o1) as (t2 & Hrun2 & Hi2 & Hin2 & Hout2); [done|done| |].
  { intros x Hx. rewrite Hne by (by intros ->). apply Hk. set_solver. }
  assert (omap (graduate_entry ntok o1) refs = omap (graduate_entry ntok o) refs) as Hom.
  { apply omap_ext_in. intros x Hx. assert (x ≠ r) as Hxr by (by intros ->).
    assert (bool_decide (x ∈ _scored o1) = bool_decide (x ∈ _scored o)) as Hb.
    { apply bool_decide_ext. simpl. rewrite elem_of_union, elem_of_list_to_set.
      split; [intros [Hx'|?]|by right]; [|done]. exfalso. apply Hxr.
      unfold it in Hx'. destruct (graduate_entry ntok o r) as [e|] eqn:Ee; simpl in Hx'; [|set_solver].
      apply graduate_entry_Some in Ee as [<- _]. set_solver. }
    unfold graduate_entry. rewrite Hne, Hb by done. done. }
  exists t2. split; [|split; [done|split]].
  - rewrite Hrun1, Hrun2, Hom. csimpl.
    assert (omap (graduate_entry ntok o) (r :: refs) = it ++ omap (graduate_entry ntok o) refs) as Heq.
    { unfold it. csimpl. by destruct (graduate_entry ntok o r). }
    csimpl in Heq. rewrite Heq, fmap_app, list_to_set_app_L, <-(assoc_L app). f_equal.
    unfold with_oscored. simpl. f_equal. set_solver.
  - intros x [->|Hx]%elem_of_cons.
    + rewrite Hout2 by done. rewrite Hl. change (o_loc o1 r) with (loc_of t1 r).
      rewrite Ho1. by rewrite decide_True.
    + rewrite Hin2 by done. by rewrite Hne by (by intros ->).
  - intros x [Hx1 Hx2]%not_elem_of_cons. rewrite Hout2 by done. by apply Hne.
Qed.

(** The outcome of [on_prefill_complete]. *)
Lemma prefill_run req ntok o :
  orch_inv np n o → warmup_id req = false → _sparse_mode o = true →
  ∃ o', on_prefill_complete T fused req ntok o = (Ok [], o') ∧ rearranged o o' ∧
    (∀ r, request_id r = req →
       o_loc o' r = completed (block_filled o (block_idx r) ntok) <$> o_loc o r) ∧
    (∀ r, request_id r ≠ req → o_loc o' r = o_loc o r) ∧
    (∀ r, r ∈ _scored o → r ∈ _scored o') ∧
    (∀ r l, request_id r = req → o_loc o r = Some l → residency l = GPU → complete l = false →
       block_filled o (block_idx r) ntok = true → r ∈ _scored o').
Proof.
  intros Hinv Hw Hsp. unfold on_prefill_complete. rewrite Hw. run_step. rewrite Hsp. cbn [negb].
  run_step. set (refs := default [] _).
  assert (∀ r, r ∈ refs ↔ request_id r = req ∧ is_Some (o_loc o r)) as Hrefs.
  { intros r. rewrite (oi_tracked _ _ _ Hinv). unfold refs. split.
    - destruct (_request_blocks o !! req) as [l|] eqn:El; simpl; [|set_solver]. intros Hr.
      assert (request_id r = req) as Hq.
      { destruct (oi_lists _ _ _ Hinv _ _ El) as (k & _ & ->). by apply elem_of_refs in Hr as [? _]. }
      split; [done|]. rewrite Hq. eauto.
    - intros (<- & l & -> & Hr). done. }
  assert (NoDup refs) as Hnd.
  { unfold refs. destruct (_request_blocks o !! req) as [l|] eqn:El; simpl; [|constructor].
    destruct (oi_lists _ _ _ Hinv _ _ El) as (k & _ & ->). apply NoDup_refs. }
  destruct (graduate_run ntok refs [] o) as (t' & Hrun & Hi & Hin & Hout);
    [apply Hinv|done|intros r [_ ?]%Hrefs; done|].
  set (items := omap (graduate_entry ntok o) refs) in *. rewrite app_nil_l in Hrun.
  erewrite bind_ok by exact Hrun. cbn beta. set (o1 := with_oscored _ _).
  destruct (score_all_run np n T fused Hfused items o1) as (s' & Hrun' & Hs' & Hsc).
  { by apply (env_ok_same n np (o_pool o)); [apply Hinv|..]. }
  { apply (oi_sok _ _ _ Hinv). }
  { intros e (r & Hr & Ee)%list_elem_of_omap.
    apply graduate_entry_Some in Ee as (-> & _ & _ & l & Hl & Hg & Hid & _). split.
    - apply (oi_warmup _ _ _ Hinv). by eexists.
    - by eapply (oi_gpu _ _ _ Hinv). }
  erewrite bind_ok by exact Hrun'. eexists. split; [done|].
  assert (∀ r, request_id r = req →
    loc_of t' r = completed (block_filled o (block_idx r) ntok) <$> o_loc o r) as Hreq.
  { intros r Hr. destruct (o_loc o r) as [l|] eqn:El.
    - rewrite Hin, El; [done|]. apply Hrefs. rewrite El. by split; [|eexists].
    - rewrite Hout, El; [done|]. rewrite Hrefs, El. by intros [_ [? ?]]. }
  assert (∀ r, request_id r ≠ req → loc_of t' r = o_loc o r) as Hoth.
  { intros r Hr. apply Hout. rewrite Hrefs. tauto. }
  split; [split|split; [done|split; [done|split]]].
  - done.
  - by apply (sp_inv_scorer n _ s') in Hi.
  - by apply (env_ok_same n np (o_pool o)); [apply Hinv|..].
  - done.
  - change (∀ r, r ∈ list_to_set items.*1 ∪ _scored o → scored s' r). intros r. rewrite Hsc.
    rewrite elem_of_union, elem_of_list_to_set. intros [?|?]; [by right|left].
    by apply (oi_scored _ _ _ Hinv).
  - intros r. change (is_Some (loc_of t' r) ↔ is_Some (o_loc o r)).
    destruct (decide (request_id r = req)); [rewrite Hreq by done|by rewrite Hoth].
    apply fmap_is_Some.
  - intros r l Hl Hr. change (loc_of t' r = Some l) in Hl.
    destruct (decide (request_id r = req)); [rewrite Hreq in Hl by done|rewrite Hoth in Hl by done; eauto].
    apply fmap_Some in Hl as (l' & ? & ->). by exists l'.
  - change (∀ r, r ∈ list_to_set items.*1 ∪ _scored o → is_Some (o_loc o r)).
    intros r [Hr%elem_of_list_to_set|Hr]%elem_of_union; [|by apply (oi_known _ _ _ Hinv)].
    apply list_elem_of_fmap in Hr as (e & -> & He). apply list_elem_of_omap in He as (x & _ & Ex).
    apply graduate_entry_Some in Ex as (-> & _ & _ & l & Hl & _). by exists l.
  - intros r Hr. change (r ∈ list_to_set items.*1 ∪ _scored o). set_solver.
  - intros r l Hr Hl Hg Hc Hf. change (r ∈ list_to_set items.*1 ∪ _scored o).
    destruct (decide (r ∈ _scored o)) as [|Hn]; [set_solver|].
    destruct (to_loc _ (ts_ok _ _ _ _ (si_om _ _ _ (oi_sp _ _ _ Hinv))) r l Hl) as [[g Hgid] _].
    apply elem_of_union_l, elem_of_list_to_set, list_elem_of_fmap. exists (r, g). split; [done|].
    apply list_elem_of_omap. exists r. split; [apply Hrefs; by rewrite Hl|].
    apply graduate_entry_Some. simpl. eauto 10.
Qed.
End Prefill.
