(* ===== verification/OrchestratorSpec.v ===== *)
(** * The orchestrator's guarantees

    The decode step, staging, usage recording and cleanup of
    [OffloadOrchestrator], the reachable states of the orchestrator under any
    sequence of calls, and its properties. *)

From S2P Require Import Prelude PyData Float Residency Scoring Pages OffloadManager StagingPool.
From S2P Require Import Controller Selection Orchestrator.
From stdpp Require Import base gmap sets list strings.
From Stdlib Require Import ZArith Lia.
Open Scope Z_scope.

(** ** Decode steps *)
Section Decode.
Context {S : Type} `{LawfulScorer S} (np n : Z).
Implicit Types o : orch S.

(** The requests for which one more step of [k] tokens is due. *)
Definition due_requests (k : Z) (c : controller) (reqs : list string) : list string :=
  filter (λ r, r ∈ _started c ∧ due (W c) (count c r + k) = true) reqs.

Lemma count_decode_run reqs k acc o :
  0 ≤ k →
  ∃ c' trig, count_decode reqs k acc o = (Ok (acc ++ trig), with_ctl c' o) ∧
    W c' = W (o_ctl o) ∧ _started c' = _started (o_ctl o) ∧
    (NoDup reqs → trig = due_requests k (o_ctl o) reqs) ∧
    (∀ r, r ∉ reqs → count c' r = count (o_ctl o) r).
Proof.
  intros Hk. revert acc o. induction reqs as [|r reqs IH]; intros acc o.
  { exists (o_ctl o), []. rewrite app_nil_r. split; [by destruct o|]. done. }
  assert (∃ t c1, on_decode r k (o_ctl o) = (Ok t, c1) ∧ W c1 = W (o_ctl o) ∧
            _started c1 = _started (o_ctl o) ∧
            t = bool_decide (r ∈ _started (o_ctl o) ∧ due (W (o_ctl o)) (count (o_ctl o) r + k) = true) ∧
            ∀ x, x ≠ r → count c1 x = count (o_ctl o) x) as (t & c1 & Hd & HW & Hst & Ht & Hc).
  { destruct (decide (r ∈ _started (o_ctl o))) as [Hin|Hni].
    - destruct (on_decode_run r k (o_ctl o) Hk Hin) as (c1 & Hrun & _ & HW & Hst & Hc).
      eexists _, c1. split; [exact Hrun|]. split_and!; [done|done| |done].
      fold (due (W (o_ctl o)) (count (o_ctl o) r + k)). case_bool_decide as Hb; [tauto|].
      by destruct (due _ _); [exfalso; tauto|].
    - exists false, (o_ctl o). rewrite on_decode_not_started by done.
      split_and!; try done. case_bool_decide; [tauto|done]. }
  destruct (IH (if t then acc ++ [r] else acc) (with_ctl c1 o)) as (c' & trig & Hrun & HW' & Hst' & Htr & Hc').
  exists c', ((if t then [r] else []) ++ trig). split.
  { cbn [count_decode]. erewrite bind_ok by (apply (zoom_ok o_ctl with_ctl); exact Hd). rewrite Hrun.
    destruct t; [by rewrite <-(assoc_L app)|done]. }
  simpl in *. split; [congruence|]. split; [congruence|]. split.
  - intros [Hr Hnd]%NoDup_cons. rewrite (Htr Hnd). unfold due_requests.
    rewrite filter_cons. rewrite HW, Hst.
    rewrite (filter_iff_in _ (λ x, x ∈ _started (o_ctl o) ∧
      due (W (o_ctl o)) (count (o_ctl o) x + k) = true)).
    + subst t. case_bool_decide; case_decide; done.
    + intros x Hx. rewrite Hc by (by intros ->). done.
  - intros x [Hx1 Hx2]%not_elem_of_cons. rewrite Hc' by done. by apply Hc.
Qed.

Definition put_om (m : offload S) o : orch S := with_pool (with_om m (o_pool o)) o.

(** Offloading complete GPU blocks rearranges. *)
Lemma offloaded_rearranged o vs s' m' :
  orch_inv np n o → scorer_ok s' → (∀ r, scored s' r ↔ scored (scorer (o_om o)) r) →
  (∀ r, r ∈ vs.*1 → ∃ l, o_loc o r = Some l ∧ residency l = GPU) →
  offloaded n vs (with_scorer s' (o_om o)) m' → rearranged np n o (put_om m' o).
Proof.
  intros Hinv Hs Hsc Hvs Ho.
  assert (∀ r, om_loc m' r = o_loc o r ∨ ∃ l l', o_loc o r = Some l ∧ residency l = GPU ∧
    om_loc m' r = Some l' ∧ residency l' = CPU) as Hloc.
  { intros r. destruct (decide (r ∈ vs.*1)) as [Hr|Hr]; [right|left; by apply (of_others _ _ _ _ Ho)].
    destruct (Hvs r Hr) as (l & Hl & Hg). apply list_elem_of_fmap in Hr as ([x g] & -> & Hr).
    destruct (of_victims _ _ _ _ Ho _ _ Hr) as (l' & s & _ & _ & Hl' & _). eauto 10. }
  split.
  - done.
  - destruct (oi_sp _ _ _ Hinv) as [H1 H2 H3 H4]. split; [apply Ho|done|done|].
    intros r s. simpl. rewrite H4. change (sp_loc (o_pool o) r) with (o_loc o r).
    change (sp_loc (with_om m' (o_pool o)) r) with (om_loc m' r).
    destruct (Hloc r) as [->|(l & l' & -> & Hg & -> & Hc)]; [done|].
    split; intros (x & [= <-] & Hx & _); congruence.
  - apply (env_ok_same n np (o_pool o)); [apply Hinv| | |done|done|]; simpl.
    + by rewrite (of_gpu _ _ _ _ Ho).
    + by rewrite (of_shape _ _ _ _ Ho).
    + by rewrite (of_layout _ _ _ _ Ho).
  - unfold o_om. simpl. by rewrite (of_scorer _ _ _ _ Ho).
  - intros r Hr. unfold o_om. simpl. rewrite (of_scorer _ _ _ _ Ho). simpl.
    apply Hsc. by apply (oi_scored _ _ _ Hinv).
  - intros r. change (is_Some (om_loc m' r) ↔ is_Some (o_loc o r)).
    destruct (Hloc r) as [->|(l & l' & -> & Hg & -> & Hc)]; [done|]. by split; eexists.
  - intros r l Hl Hg. change (om_loc m' r = Some l) in Hl.
    destruct (Hloc r) as [E|(l0 & l' & _ & _ & E & Hc)]; rewrite E in Hl; simplify_eq; eauto.
    congruence.
  - apply (oi_known _ _ _ Hinv).
Qed.

Lemma not_stored_rearranged o s' m' :
  orch_inv np n o → scorer_ok s' → (∀ r, scored s' r ↔ scored (scorer (o_om o)) r) →
  not_stored (with_scorer s' (o_om o)) m' →
  rearranged np n o (put_om m' o) ∧ ∀ r, o_loc (put_om m' o) r = o_loc o r.
Proof.
  intros Hinv Hs Hsc Hns. pose proof (oi_sp _ _ _ Hinv) as Hsp.
  assert (om_slots n m') as Hslots.
  { apply (not_stored_slots n (with_scorer s' (o_om o))); [|done]. apply Hsp. }
  destruct Hns as (f & c' & -> & Hf & Hc). split; [|done]. split; try done.
  - destruct Hsp as [H1 H2 H3 H4]. by split.
  - apply (env_ok_same n np (o_pool o)); try done; [apply Hinv|]. by destruct Hc.
  - intros r Hr. unfold o_om. simpl. apply Hsc. by apply (oi_scored _ _ _ Hinv).
  - intros r l Hl Hg. by exists l.
  - apply (oi_known _ _ _ Hinv).
Qed.

(** The outcome of an offload pass over the whole table. *)
Definition passed (io : option nat) o (r : list BlockRef) o' : Prop :=
  let cands := eligible (o_om o) (_scored o) (all_gpu_blocks true (o_table o)) in
  (cands = [] ∧ r = [] ∧ ∀ x, o_loc o' x = o_loc o x) ∨
  ∃ vs s', zlen vs = n_offload (zlen cands) (o_fraction o) ∧ NoDup vs.*1 ∧
    (∀ x, x ∈ vs.*1 → x ∈ cands) ∧
    (∀ x g, (x, g) ∈ vs → o_loc o x ≫= gpu_block_id = Some g) ∧
    ((r = vs.*1 ∧ offloaded n vs (with_scorer s' (o_om o)) (o_om o')) ∨
     (r = [] ∧ (∀ x, o_loc o' x = o_loc o x) ∧
      not_stored (with_scorer s' (o_om o)) (o_om o') ∧
      (io = None → zlen (_cpu_free (o_om o)) < zlen vs))).

Lemma all_gpu_length t : table_ok t → zlen (all_gpu_blocks true t) ≤ zlen (_blocks t).
Proof.
  intros Hok. destruct (all_gpu_blocks_spec t true Hok) as [Hsub%sublist_length _].
  unfold dkeys in Hsub. rewrite length_fmap in Hsub. unfold zlen. lia.
Qed.

Lemma pass_run io o :
  orch_inv np n o → zlen (_blocks (o_table o)) < 2 ^ 52 →
  ∃ r o', on_manager (offload_fraction io (all_gpu_blocks true (o_table o)) (o_fraction o) (_scored o)) o
            = (Ok r, o') ∧ rearranged np n o o' ∧ passed io o r o'.
Proof.
  intros Hinv Hlen. pose proof (si_om _ _ _ (oi_sp _ _ _ Hinv)) as Hom.
  assert (table_ok (o_table o)) as Hok by exact (ts_ok _ _ _ _ Hom). pose proof (all_gpu_length _ Hok) as Hall.
  destruct (all_gpu_blocks_spec (o_table o) true Hok) as (_ & Hnd & Hspec).
  assert (zlen (all_gpu_blocks true (o_table o)) < 2 ^ 52) as Hlen' by lia.
  pose proof (offload_fraction_wp n io (all_gpu_blocks true (o_table o)) (o_fraction o) (_scored o)
    (o_om o) Hom Hnd Hlen' (oi_frac _ _ _ Hinv) (oi_scored _ _ _ Hinv)) as Hwp.
  cbv zeta in Hwp. set (cands := eligible _ _ _) in Hwp.
  assert (∀ x, x ∈ cands → ∃ l, o_loc o x = Some l ∧ residency l = GPU) as Hgpu.
  { intros x [_ Hx]%list_elem_of_filter. apply Hspec in Hx as (l & ? & ? & _). eauto. }
  unfold wp in Hwp. destruct (offload_fraction _ _ _ _ _) as [[r|e] m'] eqn:Hrun; [|done].
  exists r, (put_om m' o). split; [by apply on_manager_ok|].
  destruct Hwp as [(Hc & -> & ->)|(vs & s' & Hl & Hs & Hnv & Hsok & Hsc & Hid & Hr)].
  { assert (put_om (o_om o) o = o) as -> by (by destruct o as [? [] ?]).
    split; [|by left]. split; try done; try apply Hinv. intros x l ? ?. by exists l. }
  specialize (Hsok (oi_sok _ _ _ Hinv)).
  destruct Hr as [(-> & Ho)|(-> & Hns & Hfree)].
  - split; [eapply offloaded_rearranged; [done|done|done| |done]; auto|].
    right. exists vs, s'. split_and!; try done. left. done.
  - destruct (not_stored_rearranged o s' m' Hinv Hsok Hsc Hns) as [Hra Hloc].
    split; [done|]. right. exists vs, s'. split_and!; try done. right. split_and!; try done.
    intros Hio. apply Hfree; [done|apply (oi_env _ _ _ Hinv)|].
    unfold pages_exist. eapply Forall_impl; [exact (eo_pages _ _ _ (oi_env _ _ _ Hinv))|].
    intros l [Hk _]. apply Forall_forall. intros g ([x g'] & -> & Hin)%list_elem_of_fmap. simpl.
    pose proof (Hid x g' Hin) as Hx. destruct (Hgpu x) as (lx & Hlx & Hgx);
      [apply Hs, list_elem_of_fmap; by exists (x, g')|].
    change (om_loc (o_om o) x) with (o_loc o x) in Hx. rewrite Hlx in Hx.
    pose proof (oi_gpu _ _ _ Hinv x lx g' Hlx Hgx Hx). lia.
Qed.
End Decode.

Section Runs.
Context {S : Type} `{LawfulScorer S} (np n : Z).
Implicit Types o : orch S.

(** The invariant does not look at the controller, the step counter or the
    version gate. *)
Lemma orch_inv_frame o o' :
  orch_inv np n o → o_fraction o' = o_fraction o → o_pool o' = o_pool o →
  _request_blocks o' = _request_blocks o → _scored o' = _scored o → orch_inv np n o'.
Proof.
  intros [H1 H2 H3 H4 H5 H6 H7 H8 H9 H10] Hf Hp Hr Hs.
  split; unfold o_loc, o_table, o_om in *; rewrite ?Hf, ?Hp, ?Hr, ?Hs; done.
Qed.

Lemma decode_run io reqs k o :
  orch_inv np n o → 0 ≤ k → zlen (_blocks (o_table o)) < 2 ^ 52 →
  ∃ r o', on_decode_step io reqs k o = (Ok r, o') ∧ orch_inv np n o' ∧
    (NoDup reqs →
      if decide (due_requests k (o_ctl o) reqs = [])
      then r = [] ∧ o_pool o' = o_pool o else passed n io o r o').
Proof.
  intros Hinv Hk Hlen. unfold on_decode_step.
  destruct (count_decode_run reqs k [] o Hk) as (c' & trig & Hrun & _ & _ & Htr & _).
  erewrite bind_ok by exact Hrun. rewrite app_nil_l. case_bool_decide as Ht.
  - exists [], (with_ctl c' o). split; [done|]. split; [by eapply orch_inv_frame|].
    intros Hnd. rewrite decide_True by (rewrite <-Htr; done). done.
  - do 2 run_step.
    set (o1 := with_step (_last_offload_step (with_ctl c' o) + 1) reqs (with_ctl c' o)).
    assert (orch_inv np n o1) as Hinv1 by by eapply orch_inv_frame.
    destruct (pass_run np n io o1 Hinv1 Hlen) as (r & o' & Hrun' & Hra & Hp).
    exists r, o'. split; [exact Hrun'|]. split; [by eapply rearranged_inv|].
    intros Hnd. rewrite decide_False by (rewrite <-Htr; done). exact Hp.
Qed.

(** ** Staging *)
Lemma cpu_refs_entry o r :
  orch_inv np n o → is_on_cpu o r = true → ∃ l cs, o_loc o r = Some l ∧ residency l = CPU ∧
    cpu_slot l = Some cs ∧ cpu_entry (o_pool o) r = Some (r, cs).
Proof.
  intros Hinv Hc. unfold is_on_cpu in Hc. destruct (o_loc o r) as [l|] eqn:Hl; [|done].
  unfold was_res, is_res in Hc. apply bool_decide_eq_true in Hc.
  destruct (to_loc _ (ts_ok _ _ _ _ (si_om _ _ _ (oi_sp _ _ _ Hinv))) r l Hl) as (_ & Hcs & _).
  destruct Hcs as [cs Hcs]; [congruence|]. exists l, cs. split_and!; try done.
  unfold cpu_entry. change (sp_loc (o_pool o) r) with (o_loc o r). rewrite Hl.
  destruct l; simplify_eq/=. done.
Qed.

Lemma ensured_rearranged o refs res sk p' :
  orch_inv np n o → (∀ r, r ∈ refs → is_on_cpu o r = true) →
  ensured n refs res sk (o_pool o) p' → rearranged np n o (with_pool p' o).
Proof.
  intros Hinv Hcpu He.
  assert (∀ r, sp_loc p' r = o_loc o r ∨ ∃ l l', o_loc o r = Some l ∧ sp_loc p' r = Some l' ∧
            residency l' ≠ GPU) as Hloc.
  { intros r. destruct (decide (r ∈ refs)) as [Hr|Hr].
    - destruct (cpu_refs_entry o r Hinv (Hcpu r Hr)) as (l & cs & Hl & _ & _ & Hce).
      destruct (en_staged _ _ _ _ _ _ He r cs Hr Hce) as [[_ ?]|(_ & l0 & s & Hl0 & _ & _ & Hp & _)];
        [by left|]. right. eexists _, _. split; [done|]. split; [done|]. done.
    - destruct (en_others _ _ _ _ _ _ He r Hr) as [?|(l & Hl & Hs & Hp)]; [by left|].
      right. eexists _, _. split; [done|]. split; [done|]. done. }
  destruct (en_cpu _ _ _ _ _ _ He) as (Hc & _ & Hb & Hn & Hly).
  destruct (en_scorer _ _ _ _ _ _ He) as [Hsok Hsc].
  split; simpl.
  - done.
  - apply He.
  - apply (env_ok_same n np (o_pool o)); [apply Hinv| |by rewrite Hc|done..].
    by destruct (en_gpu _ _ _ _ _ _ He).
  - apply Hsok, Hinv.
  - intros r Hr. apply Hsc. by apply (oi_scored _ _ _ Hinv).
  - intros r. change (is_Some (sp_loc p' r) ↔ is_Some (o_loc o r)).
    destruct (Hloc r) as [->|(l & l' & -> & -> & _)]; [done|by split; eexists].
  - intros r l Hl Hg. change (sp_loc p' r = Some l) in Hl.
    destruct (Hloc r) as [E|(l0 & l' & _ & E & Hng)]; rewrite E in Hl; simplify_eq; eauto.
  - apply (oi_known _ _ _ Hinv).
Qed.

Lemma not_ensured_rearranged o p' :
  orch_inv np n o → not_ensured n (o_pool o) p' → rearranged np n o (with_pool p' o).
Proof.
  intros Hinv (Hsp & Hd & Hc & _ & [Hg _] & Hb & Hn & Hly & Hsok & Hsc).
  split; simpl.
  - done.
  - done.
  - apply (env_ok_same n np (o_pool o)); [apply Hinv|done|by rewrite Hc|done..].
  - apply Hsok, Hinv.
  - intros r Hr. apply Hsc. by apply (oi_scored _ _ _ Hinv).
  - intros r. change (is_Some (sp_loc p' r) ↔ is_Some (sp_loc (o_pool o) r)).
    destruct (Hd r) as [->|(l & -> & _ & ->)]; [done|by split; eexists].
  - intros r l Hl Hr. change (sp_loc p' r = Some l) in Hl.
    destruct (Hd r) as [E|(l0 & _ & _ & E)]; rewrite E in Hl; simplify_eq; eauto.
  - apply (oi_known _ _ _ Hinv).
Qed.

(** Staging CPU-only blocks through the pool. *)
Lemma stage_run io refs o :
  orch_inv np n o → (∀ r, r ∈ refs → is_on_cpu o r = true) →
  rearranged np n o (on_pool (ensure_resident io refs) o).2 ∧
  match on_pool (ensure_resident io refs) o with
  | (Ok (res, sk), o') => ensured n refs res sk (o_pool o) (o_pool o')
  | (Raise _, o') => not_ensured n (o_pool o) (o_pool o') ∧ io ≠ None
  end.
Proof.
  intros Hinv Hcpu. pose proof (oi_env _ _ _ Hinv) as He.
  pose proof (ensure_resident_wp n io refs (o_pool o) (oi_sp _ _ _ Hinv)) as Hwp.
  unfold wp in Hwp. unfold on_pool, zoom.
  destruct (ensure_resident io refs (o_pool o)) as [[[res sk]|e] p'].
  - assert (ensured n refs res sk (o_pool o) p') as Hen.
    { apply Hwp; [apply (eo_base _ _ _ He)|]. intros r Hr.
      destruct (cpu_refs_entry o r Hinv (Hcpu r Hr)) as (l & _ & Hl & _). by exists l. }
    split; [by eapply ensured_rearranged|done].
  - destruct Hwp as [Hne Hfit]; [apply (eo_base _ _ _ He)| |].
    { intros r Hr. destruct (cpu_refs_entry o r Hinv (Hcpu r Hr)) as (l & _ & Hl & _). by exists l. }
    split; [by apply not_ensured_rearranged|]. split; [done|]. intros ->. apply Hfit; [done|].
    destruct He as [_ _ Hpg Hca (Hb0 & _ & Hb)]. split; [done|]. split; [done|]. exists np.
    split; [|done]. eapply Forall_impl; [exact Hpg|]. by intros l [? _].
Qed.

Lemma prepare_inv io reqs si sl o :
  orch_inv np n o → orch_inv np n (prepare_staging io reqs si sl o).2.
Proof.
  intros Hinv. unfold prepare_staging. do 2 run_step.
  destruct (_ =? _); [done|]. do 2 run_step.
  set (o1 := with_seen (cpu_version (o_table o)) o).
  assert (orch_inv np n o1) as Hinv1 by by eapply orch_inv_frame.
  unfold bind at 1. unfold lift. destruct (collect_needed_block_refs _ _ _ _) as [needed|e]; [|done].
  run_step. set (refs := filter _ needed).
  destruct (stage_run io refs o1 Hinv1) as [Hra _]; [by intros r [? _]%list_elem_of_filter|].
  pose proof (rearranged_inv np n _ _ Hinv1 Hra) as Hinv2. unfold bind at 1.
  by destruct (on_pool (ensure_resident io refs) o1) as [[r|e] o2].
Qed.

Lemma pick_subset refs order r : r ∈ pick refs order → r ∈ refs.
Proof. intros (i & _ & Hi)%list_elem_of_omap. by eapply list_elem_of_lookup_2. Qed.

Lemma scores_run refs o :
  orch_inv np n o →
  ∃ sc s', on_manager (on_scorer (scores refs)) o = (Ok sc, put_scorer s' o) ∧
    length sc = length refs ∧ orch_inv np n (put_scorer s' o).
Proof.
  intros Hinv. destruct (scores_law refs (scorer (o_om o))) as (sc & s' & Hrun & Hl & Hok & Hsc).
  exists sc, s'. split; [by apply on_manager_ok, zoom_ok|]. split; [done|].
  eapply rearranged_inv; [done|]. split; try done.
  - apply sp_inv_scorer. apply Hinv.
  - by apply (env_ok_same n np (o_pool o)); [apply Hinv|..].
  - apply Hok, Hinv.
  - intros r Hr. apply Hsc. by apply (oi_scored _ _ _ Hinv).
  - intros r l Hl' Hg. by exists l.
  - apply (oi_known _ _ _ Hinv).
Qed.

Lemma promote_inv argsort_desc io req k o :
  orch_inv np n o → orch_inv np n (promote_hot_cpu_blocks argsort_desc io req k o).2.
Proof.
  intros Hinv. unfold promote_hot_cpu_blocks. run_step.
  destruct ((k <=? 0) || negb (_sparse_mode o)); [done|]. run_step.
  set (refs := filter _ _). case_bool_decide; [done|].
  destruct (scores_run refs o Hinv) as (sc & s' & Hrun & _ & Hinv1).
  erewrite bind_ok by exact Hrun. cbn beta. set (picked := pick refs _).
  destruct (stage_run io picked (put_scorer s' o) Hinv1) as [Hra _].
  { intros r Hr%pick_subset. by apply list_elem_of_filter in Hr as [? _]. }
  pose proof (rearranged_inv np n _ _ Hinv1 Hra) as Hinv2. unfold bind at 1.
  by destruct (on_pool (ensure_resident io picked) (put_scorer s' o)) as [[r|e] o2].
Qed.

Lemma note_inv reqs si ps o :
  orch_inv np n o → orch_inv np n (note_selection reqs si ps o).2.
Proof.
  intros Hinv. unfold note_selection. destruct note_usage as [note|] eqn:En; [|done].
  destruct (_ || _); [done|]. destruct (_ <? _)%nat; [done|].
  set (es := zip _ _). clearbody es. revert o Hinv. induction es as [|e es IH]; intros o Hinv; [done|].
  destruct (note_law note e.1 (row_blocks ps (Z.of_nat (dim2 si)) e.2) (scorer (o_om o)) En)
    as (s' & Hrun & Hok & Hsc).
  rewrite (mfor_cons _ _ _ _ (put_scorer s' o)); [|by apply on_manager_ok, zoom_ok].
  apply IH. eapply rearranged_inv; [done|]. split; try done.
  - apply sp_inv_scorer. apply Hinv.
  - by apply (env_ok_same n np (o_pool o)); [apply Hinv|..].
  - apply Hok, Hinv.
  - intros r Hr. apply Hsc. by apply (oi_scored _ _ _ Hinv).
  - intros r l Hl' Hg. by exists l.
  - apply (oi_known _ _ _ Hinv).
Qed.

(** ** Cleanup *)

(** What the cleanup loop maintains, the tracking of requests aside. *)
Record loop_inv o : Prop := {
  li_sp : sp_inv n [] (o_pool o);
  li_env : env_ok np n (o_pool o);
  li_sok : scorer_ok (scorer (o_om o));
  li_scored : ∀ r, r ∈ _scored o → scored (scorer (o_om o)) r;
}.

Record dropped (refs : list BlockRef) o o' : Prop := {
  dr_inv : loop_inv o';
  dr_static : o_fraction o' = o_fraction o ∧ _request_blocks o' = _request_blocks o ∧
              o_ctl o' = o_ctl o;
  dr_gone : ∀ r, r ∈ refs → o_loc o' r = None;
  dr_kept : ∀ r, r ∉ refs → o_loc o' r = o_loc o r;
  dr_scored : ∀ r, r ∈ _scored o' ↔ r ∈ _scored o ∧ r ∉ refs;
  dr_scorer : ∀ r, scored (scorer (o_om o')) r ↔ scored (scorer (o_om o)) r ∧ r ∉ refs;
  dr_caches : gpu_caches (o_om o') = gpu_caches (o_om o) ∧ cpu_cache (o_om o') = cpu_cache (o_om o);
}.

(** Freeing an unstaged block keeps the staging pool's invariant. *)
Lemma sp_inv_free (p : staging S) ref m' :
  sp_inv n [] p → was_res STAGING (sp_loc p ref) = false → om_slots n m' →
  om_loc m' ref = None → (∀ r, r ≠ ref → om_loc m' r = sp_loc p r) → sp_inv n [] (with_om m' p).
Proof.
  intros [H1 H2 H3 H4] Hst Hm Hn Hoth. split; [done|done|done|]. intros r s. simpl. rewrite H4.
  change (sp_loc (with_om m' p) r) with (om_loc m' r).
  destruct (decide (r = ref)) as [->|Hr]; [|by rewrite Hoth].
  rewrite Hn. split; [|by intros (? & ? & _)]. intros (l & Hl & Hres & _). rewrite Hl in Hst.
  unfold was_res, is_res in Hst. by apply bool_decide_eq_false in Hst.
Qed.

Definition drop_block (ref : BlockRef) : M (orch S) unit :=
  on_pool (release ref) >>
  on_manager (om_free ref) >>
  modify (λ o, with_oscored (_scored o ∖ {[ref]}) o).

Lemma drop_block_run ref o :
  loop_inv o → ∃ o', drop_block ref o = (Ok tt, o') ∧ dropped [ref] o o'.
Proof.
  intros [Hsp He Hsok Hsc]. unfold drop_block.
  destruct (release_run n ref (o_pool o) Hsp)
    as (p1 & Hrun1 & Hsp1 & _ & (Hg1 & Hc1 & Hb1 & Hn1 & _ & Hl1) & Hs1 & _ & Hoth1 & Hst1).
  destruct (om_free_run n ref (om p1) (si_om _ _ _ Hsp1))
    as (m2 & Hrun2 & Hom2 & Hnone & Hoth2 & Hok2 & Hsc2 & _ & Hg2 & Hc2 & Hl2 & _).
  rewrite Hs1 in Hok2, Hsc2.
  erewrite bind_ok by (apply (zoom_ok o_pool with_pool); exact Hrun1). cbn beta.
  erewrite bind_ok by (apply on_manager_ok; exact Hrun2).
  eexists. split; [done|]. split; [split|..]; simpl.
  - by apply (sp_inv_free p1 ref).
  - apply (env_ok_same n np (o_pool o)); [done| | |done|done|]; simpl; congruence.
  - by apply Hok2.
  - intros r [Hr Hn]%elem_of_difference. apply Hsc2. split; [by apply Hsc|set_solver].
  - done.
  - intros r ->%list_elem_of_singleton. done.
  - intros r Hr. rewrite list_elem_of_singleton in Hr. change (om_loc m2 r = o_loc o r).
    rewrite Hoth2 by done. by apply Hoth1.
  - set_solver.
  - intros r. rewrite list_elem_of_singleton. apply Hsc2.
  - unfold o_om. simpl. split; congruence.
Qed.

Lemma drop_loop_run refs o :
  loop_inv o → ∃ o', mfor refs drop_block o = (Ok tt, o') ∧ dropped refs o o'.
Proof.
  revert o. induction refs as [|r refs IH]; intros o Hli.
  { exists o. split; [done|]. split; try done; set_solver. }
  destruct (drop_block_run r o Hli) as (o1 & Hrun1 & [Hli1 (F1&F2&F3) Hg1 Hk1 Hs1 Hc1 (G1&G2)]).
  destruct (IH o1 Hli1) as (o2 & Hrun2 & [Hli2 (F4&F5&F6) Hg2 Hk2 Hs2 Hc2 (G3&G4)]).
  exists o2. split; [by rewrite (mfor_cons _ _ _ _ _ Hrun1)|].
  split; [done|split_and!; congruence| | | | |split; congruence].
  - intros x [->|Hx]%elem_of_cons; [|by apply Hg2].
    destruct (decide (r ∈ refs)); [by apply Hg2|]. rewrite Hk2 by done. apply Hg1. set_solver.
  - intros x [Hx1 Hx2]%not_elem_of_cons. rewrite Hk2 by done. apply Hk1. set_solver.
  - intros x. rewrite Hs2, Hs1. set_solver.
  - intros x. rewrite Hc2, Hc1. set_solver.
Qed.

(** The outcome of [on_request_done]. *)
Record cleaned (req : string) o o' : Prop := {
  cl_inv : orch_inv np n o';
  cl_untracked : _request_blocks o' = delete req (_request_blocks o);
  cl_gone : ∀ r, request_id r = req → o_loc o' r = None;
  cl_kept : ∀ r, request_id r ≠ req → o_loc o' r = o_loc o r;
  cl_scored : ∀ r, r ∈ _scored o' ↔ r ∈ _scored o ∧ request_id r ≠ req;
  cl_ctl : req ∉ _started (o_ctl o') ∧ count (o_ctl o') req = 0;
  cl_scorer : ∀ r, is_Some (o_loc o r) →
    scored (scorer (o_om o')) r ↔ scored (scorer (o_om o)) r ∧ request_id r ≠ req;
  cl_caches : gpu_caches (o_om o') = gpu_caches (o_om o) ∧ cpu_cache (o_om o') = cpu_cache (o_om o);
}.

Lemma tracked_refs o req :
  orch_inv np n o →
  ∀ r, r ∈ default [] (_request_blocks o !! req) ↔ request_id r = req ∧ is_Some (o_loc o r).
Proof.
  intros Hinv r. rewrite (oi_tracked _ _ _ Hinv). split.
  - destruct (_request_blocks o !! req) as [l|] eqn:El; simpl; [|set_solver]. intros Hr.
    destruct (oi_lists _ _ _ Hinv _ _ El) as (k & _ & ->).
    pose proof Hr as [Hq _]%elem_of_refs. rewrite Hq. eauto.
  - intros (<- & l & -> & Hr). done.
Qed.

Lemma cleanup_run req o :
  orch_inv np n o → ∃ o', _cleanup_request req o = (Ok tt, o') ∧ cleaned req o o'.
Proof.
  intros Hinv. unfold _cleanup_request. run_step. set (refs := default [] _). run_step.
  set (o1 := with_requests (delete req (_request_blocks o)) o).
  assert (∀ r, r ∈ refs ↔ request_id r = req ∧ is_Some (o_loc o r)) as Hrefs
    by by apply tracked_refs.
  destruct (drop_loop_run refs o1) as (o2 & Hrun & Hd).
  { destruct Hinv. by split. }
  fold drop_block. erewrite bind_ok by exact Hrun. cbn beta.
  destruct Hd as [Hli (Hf & Hrb & Hc) Hgone Hkept Hs Hsc Hca].
  change (∀ r, r ∉ refs → o_loc o2 r = o_loc o r) in Hkept.
  change (∀ r, r ∈ _scored o2 ↔ r ∈ _scored o ∧ r ∉ refs) in Hs.
  set (c3 := (ctl_remove req (o_ctl o2)).2). exists (with_ctl c3 o2). split; [done|].
  assert (∀ r, request_id r = req → o_loc o2 r = None) as Hnone.
  { intros r Hr. destruct (decide (r ∈ refs)) as [|Hn]; [by apply Hgone|]. rewrite Hkept by done.
    destruct (o_loc o r) eqn:El; [|done]. exfalso. rewrite Hrefs, El in Hn. naive_solver. }
  assert (∀ r, request_id r ≠ req → o_loc o2 r = o_loc o r) as Hsame.
  { intros r Hr. apply Hkept. rewrite Hrefs. tauto. }
  assert (∀ r, r ∈ _scored o2 ↔ r ∈ _scored o ∧ request_id r ≠ req) as Hs'.
  { intros r. rewrite Hs, Hrefs. split; [|naive_solver]. intros [Hr Hn]. split; [done|].
    intros Hq. apply Hn. split; [done|]. by apply (oi_known _ _ _ Hinv). }
  split; [split| | | | | | |]; try done.
  - apply Hli.
  - apply Hli.
  - simpl. rewrite Hf. apply (oi_frac _ _ _ Hinv).
  - apply (li_sok _ Hli).
  - apply (li_scored _ Hli).
  - change (∀ ref l g, o_loc o2 ref = Some l → residency l = GPU → gpu_block_id l = Some g →
      0 ≤ g < np). intros r l g Hl. destruct (decide (request_id r = req)) as [Hq|Hq];
      [by rewrite Hnone in Hl|rewrite Hsame in Hl by done; by eapply (oi_gpu _ _ _ Hinv)].
  - simpl. rewrite Hrb. simpl. intros r l [_ Hl]%lookup_delete_Some. by eapply (oi_lists _ _ _ Hinv).
  - intros r. change (o_loc (with_ctl c3 o2) r) with (o_loc o2 r). simpl. rewrite Hrb. simpl.
    destruct (decide (request_id r = req)) as [Hq|Hq].
    + rewrite Hnone, Hq, lookup_delete_eq by done. split; [by intros [? ?]|by intros (? & ? & _)].
    + rewrite Hsame, lookup_delete_ne by done. apply (oi_tracked _ _ _ Hinv).
  - intros r. change (o_loc (with_ctl c3 o2) r) with (o_loc o2 r). intros Hr.
    destruct (decide (request_id r = req)) as [Hq|Hq]; [rewrite Hnone in Hr by done; by destruct Hr|].
    rewrite Hsame in Hr by done. by apply (oi_warmup _ _ _ Hinv).
  - intros r [Hr Hq]%Hs'. change (o_loc (with_ctl c3 o2) r) with (o_loc o2 r). rewrite Hsame by done.
    by apply (oi_known _ _ _ Hinv).
  - simpl. split; [set_solver|]. unfold count. simpl. by rewrite lookup_delete_eq.
  - intros r Hr. change (scored (scorer (o_om o2)) r ↔ scored (scorer (o_om o)) r ∧ request_id r ≠ req).
    rewrite Hsc. change (o_om o1) with (o_om o). rewrite Hrefs. tauto.
Qed.
End Runs.

(** ** Reachable states *)
Section Reach.
Context {S : Type} `{LawfulScorer S} (np n : Z) (T : torch_ops).
Context (fused : list kv_layer → list Z → option (list (list (list f64)) * list (list (list f64)))).
Context (argsort_desc : list score → list nat).
Implicit Types o : orch S.

(** One call of the orchestrator, whatever its outcome: the state after it,
    also when it raises.  Block tables name existing pages and do not shrink
    while a request lives (vLLM appends blocks), steps decode a nonnegative
    number of tokens, and the table holds fewer than [2^52] blocks. *)
Inductive orch_step o : orch S → Prop :=
  | os_sync req gids ntok :
      Forall (λ g, 0 ≤ g < np) gids →
      (length (default [] (_request_blocks o !! req)) ≤ length gids)%nat →
      orch_step o (sync_request_blocks T fused req gids ntok o).2
  | os_prefill req ntok : orch_step o (on_prefill_complete T fused req ntok o).2
  | os_controller req : orch_step o (on_ctl (ctl_on_prefill_complete req) o).2
  | os_decode io reqs k :
      0 ≤ k → zlen (_blocks (o_table o)) < 2 ^ 52 → orch_step o (on_decode_step io reqs k o).2
  | os_prepare io reqs si sl : orch_step o (prepare_staging io reqs si sl o).2
  | os_promote io req k : orch_step o (promote_hot_cpu_blocks argsort_desc io req k o).2
  | os_note reqs si ps : orch_step o (note_selection reqs si ps o).2
  | os_done req : orch_step o (on_request_done req o).2
  | os_preempted req : orch_step o (on_request_preempted req o).2.

Inductive orch_steps o : orch S → Prop :=
  | or_refl : orch_steps o o
  | or_step o1 o2 : orch_steps o o1 → orch_step o1 o2 → orch_steps o o2.

Lemma orch_step_inv o o' : fused_ok T fused → orch_inv np n o → orch_step o o' → orch_inv np n o'.
Proof.
  intros Hfu Hinv [].
  - destruct (warmup_id req) eqn:Hw.
    { unfold sync_request_blocks. by rewrite Hw. }
    destruct (sync_run np n T fused Hfu req gids ntok o) as (o1 & -> & Hs); [done..|].
    apply (sy_inv _ _ _ _ _ _ _ Hs).
  - destruct (warmup_id req) eqn:Hw.
    { unfold on_prefill_complete. by rewrite Hw. }
    destruct (_sparse_mode o) eqn:Hm.
    2: { unfold on_prefill_complete. rewrite Hw. run_step. by rewrite Hm. }
    destruct (prefill_run np n T fused Hfu req ntok o) as (o1 & -> & Hra & _); [done..|].
    by eapply rearranged_inv.
  - by eapply orch_inv_frame.
  - destruct (decode_run np n io reqs k o) as (r & o1 & -> & Hi & _); done.
  - by apply prepare_inv.
  - by apply promote_inv.
  - by apply note_inv.
  - destruct (cleanup_run np n req o Hinv) as (o1 & Hrun & Hc). unfold on_request_done.
    rewrite Hrun. apply Hc.
  - destruct (cleanup_run np n req o Hinv) as (o1 & Hrun & Hc). unfold on_request_preempted.
    rewrite Hrun. apply Hc.
Qed.

Lemma orch_steps_inv o o' : fused_ok T fused → orch_inv np n o → orch_steps o o' → orch_inv np n o'.
Proof. intros Hfu Hinv. induction 1; [done|]. by eapply orch_step_inv. Qed.
End Reach.

(** A freshly built system: [build_orchestrator] after the constructors of the
    manager and the staging pool accepted their arguments. *)
Record fresh_system {S} `{LawfulScorer S} (np n : Z) (o : orch S) : Prop := {
  fr_built : ∃ s ks vs cpu budget layout m slots bp fr p c ps base,
    om_init s table_init ks vs cpu budget layout = Ok m ∧ sp_init slots bp m = Ok p ∧
    o = orch_init fr p c ps base ∧ scorer_ok s ∧ 0 ≤ fr < f64_one ∧
    n = zlen (default [] (head cpu));
  (** every layer has [np] pages and [n] CPU slots *)
  fr_pages : Forall (λ l, zlen (k_cache l) = np ∧ zlen (default (k_cache l) (v_cache l)) = np)
               (gpu_caches (o_om o));
  fr_cpu : caches_ok n (o_om o);
}.

Lemma fresh_inv {S} `{LawfulScorer S} np n (o : orch S) : fresh_system np n o → orch_inv np n o.
Proof.
  intros [(s & ks & vs & cpu & budget & layout & m & slots & bp & fr & p & c & ps & b &
           Hm & Hp & -> & Hs & Hfr & ->) Hpg Hcpu].
  destruct (om_init_ok _ _ _ _ _ _ _ Hm) as (Hslots & Hlay & Hne & Hsc & Hpos & Ht).
  assert (∀ r, om_loc m r = None) as Hnone.
  { intros r. unfold om_loc. by rewrite Ht. }
  destruct (sp_init_ok _ slots bp m p Hp Hslots) as (Hsp & Hom & Hns & Hb & Hs0).
  { intros r l. by rewrite Hnone. }
  unfold o_om in Hpg, Hcpu. simpl in Hpg, Hcpu. rewrite Hom in Hpg, Hcpu.
  assert (∀ r, o_loc (orch_init fr p c ps b) r = None) as Hloc.
  { intros r. change (om_loc (om p) r = None). rewrite Hom. apply Hnone. }
  split; simpl; try done.
  - split; rewrite ?Hom; try done. rewrite Hb, Hns. unfold sp_init in Hp.
    destruct (slots <=? 0) eqn:E1; [done|]. destruct (bp <? 0) eqn:E2; [done|].
    destruct (gpu_pages m <? bp + slots) eqn:E3; [done|].
    unfold gpu_pages in E3. destruct (gpu_caches m) as [|l g]; [done|].
    apply Forall_cons_1 in Hpg as [[Hk _] _]. lia.
  - unfold o_om. simpl. by rewrite Hom, Hsc.
  - intros ref l g. by rewrite Hloc.
  - intros ref. rewrite Hloc. split; [by intros [? ?]|by intros (? & ? & _)].
  - intros ref. rewrite Hloc. by intros [? ?].
Qed.

(** With no block known, every slot is free. *)
Lemma orch_slots_free {S} `{LawfulScorer S} np n (o : orch S) :
  orch_inv np n o → (∀ r, o_loc o r = None) →
  _cpu_free (o_om o) ≡ₚ zrange 0 n ∧ _free (o_pool o) ≡ₚ zrange 0 (num_slots (o_pool o)).
Proof.
  intros Hinv Hnone. pose proof (oi_sp _ _ _ Hinv) as [Hom _ Hpart Hag].
  assert (_blocks (o_table o) = []) as Hb.
  { destruct (_blocks (o_table o)) as [|[r l] d] eqn:E; [done|]. specialize (Hnone r).
    unfold o_loc, loc_of in Hnone. rewrite E in Hnone. simpl in Hnone. by rewrite decide_True in Hnone. }
  split.
  - rewrite <-(ts_part _ _ _ _ Hom). simpl. unfold cpu_used.
    change (om_residency (om (o_pool o))) with (o_table o). rewrite Hb. simpl. by rewrite app_nil_r.
  - rewrite <-Hpart. simpl. destruct (_lru (o_pool o)) as [|[r s] d] eqn:E; [by rewrite app_nil_r|].
    exfalso. destruct (proj1 (Hag r s)) as (l & Hl & _); [rewrite ?E; simpl; by rewrite decide_True|].
    by rewrite (Hnone r : sp_loc (o_pool o) r = None) in Hl.
Qed.

(** ** The hottest CPU blocks *)

(** [torch.argsort(sc, descending=True)]: a permutation of the positions in
    decreasing order of score. *)
Definition sorts_desc (argsort_desc : list score → list nat) : Prop :=
  ∀ sc, argsort_desc sc ≡ₚ seq 0 (length sc) ∧
    ∀ p q i j a b, argsort_desc sc !! p = Some i → argsort_desc sc !! q = Some j → (p < q)%nat →
      sc !! i = Some a → sc !! j = Some b → score_leb b a = true.

(** [picked] are [k] blocks of [refs] (all of them, if there are fewer), and no
    block left out has a higher score. *)
Definition hottest (refs : list BlockRef) (sc : list score) (k : nat) (picked : list BlockRef) : Prop :=
  length picked = (k `min` length refs)%nat ∧ NoDup picked ∧ (∀ r, r ∈ picked → r ∈ refs) ∧
  ∀ i j r r' a b, refs !! i = Some r → refs !! j = Some r' → r ∈ picked → r' ∉ picked →
    sc !! i = Some a → sc !! j = Some b → score_leb b a = true.

Lemma pick_prefix_length refs order :
  Forall (λ i, (i < length refs)%nat) order → length (pick refs order) = length order.
Proof.
  induction 1 as [|i order Hi _ IH]; [done|]. unfold pick in *. csimpl.
  destruct (lookup_lt_is_Some_2 _ _ Hi) as [r ->]. simpl. by rewrite IH.
Qed.

Lemma pick_NoDup refs order : NoDup refs → NoDup order → NoDup (pick refs order).
Proof.
  intros Hr. induction 1 as [|i order Hi Ho IH]; [constructor|]. unfold pick in *. csimpl.
  destruct (refs !! i) as [r|] eqn:E; [|done]. apply NoDup_cons. split; [|done].
  intros (j & Hj & Ej)%list_elem_of_omap. by rewrite (NoDup_lookup _ _ _ _ Hr E Ej) in Hi.
Qed.

Lemma pick_hottest argsort_desc refs sc k :
  sorts_desc argsort_desc → NoDup refs → length sc = length refs →
  hottest refs sc k (pick refs (take k (argsort_desc sc))).
Proof.
  intros Hsort Hnd Hlen. destruct (Hsort sc) as [Hp Hord].
  assert (length (argsort_desc sc) = length refs) as Hlo by (rewrite Hp, length_seq; done).
  assert (NoDup (argsort_desc sc)) as Hno by (rewrite Hp; apply NoDup_seq).
  assert (∀ i r, refs !! i = Some r → r ∈ pick refs (take k (argsort_desc sc)) →
    i ∈ take k (argsort_desc sc)) as Hidx.
  { intros i r Hi (j & Hj & Hr)%list_elem_of_omap. by rewrite (NoDup_lookup _ _ _ _ Hnd Hi Hr). }
  split; [|split; [|split]].
  - rewrite pick_prefix_length; [rewrite length_take; lia|]. apply Forall_take, Forall_forall.
    intros i Hi. rewrite Hp in Hi. apply elem_of_seq in Hi. lia.
  - apply pick_NoDup; [done|]. eapply sublist_NoDup; [|apply sublist_take]. done.
  - by intros r ?%pick_subset.
  - intros i j r r' a b Hi Hj Hr Hr' Ha Hb.
    apply (Hidx i) in Hr; [|done]. apply list_elem_of_lookup in Hr as [p Hpi].
    apply lookup_take_Some in Hpi as [Hpi Hpk].
    assert (j ∈ argsort_desc sc) as [q Hq]%list_elem_of_lookup.
    { rewrite Hp. apply elem_of_seq. apply lookup_lt_Some in Hj. lia. }
    eapply (Hord p q i j); [done|done| |done|done].
    destruct (decide (q < k)%nat) as [Hqk|]; [|lia]. exfalso. apply Hr'.
    apply list_elem_of_omap. exists j. split; [|done].
    apply list_elem_of_lookup. exists q. by apply lookup_take_Some.
Qed.

(** The CPU-only blocks of a request, in block order. *)
Definition cold_refs {S} (o : orch S) (req : string) : list BlockRef :=
  filter (λ r, is_on_cpu o r = true) (refs_for_request (o_table o) req).

Lemma cold_refs_spec {S} `{LawfulScorer S} np n (o : orch S) req :
  orch_inv np n o → NoDup (cold_refs o req) ∧
  ∀ r, r ∈ cold_refs o req ↔ request_id r = req ∧ is_on_cpu o r = true.
Proof.
  intros Hinv. pose proof (ts_ok _ _ _ _ (si_om _ _ _ (oi_sp _ _ _ Hinv))) as Hok.
  destruct (refs_for_request_spec (o_table o) req Hok) as (idx & Hidx & Hs & Hin).
  unfold cold_refs. rewrite Hidx. split.
  - apply NoDup_filter, NoDup_fmap_2; [by intros ? ? [=]|].
    clear -Hs. induction Hs as [|x l Hl IH Hx]; constructor; [|done].
    intros Hin. rewrite Forall_forall in Hx. specialize (Hx _ Hin). lia.
  - intros r. rewrite list_elem_of_filter, list_elem_of_fmap. split.
    + by intros [? (i & -> & _)].
    + destruct r as [q i]. simpl. intros [-> Hc]. split; [done|]. exists i. split; [done|].
      apply Hin. unfold is_on_cpu in Hc. unfold o_loc in Hc. by destruct (loc_of _ _); [eexists|].
Qed.

(** ** The properties *)
Section Properties.
Context {S : Type} `{LawfulScorer S} (np n : Z) (T : torch_ops).
Context (fused : list kv_layer → list Z → option (list (list (list f64)) * list (list (list f64)))).
Implicit Types o : orch S.

(** C2: no slot leaks. On a freshly built system, take any sequence of orchestrator
    calls with any outcome of the CUDA transfers, in which every block table given
    to [sync_request_blocks] names existing pages and is at least as long as the
    request's tracked blocks ([shrinking_table_leaks_slot] shows that a shorter one
    does leak a slot), a decode step counts a nonnegative number of tokens and
    starts with fewer than [2^52] known blocks, and the fused kernel, when it
    answers, returns one norm row per page. Then the invariant holds: CPU slots and
    staging slots are never lost nor shared, every block believed scored is known to
    the scorer, the tracked blocks are exactly the known ones. Once no request is
    tracked any more, the table is empty and every CPU slot and every staging slot
    is free again. *)
Theorem no_slot_leaks argsort_desc o o' :
  fused_ok T fused → fresh_system np n o → orch_steps np T fused argsort_desc o o' →
  orch_inv np n o' ∧
  (_request_blocks o' = ∅ →
    (∀ r, o_loc o' r = None) ∧ _scored o' = ∅ ∧
    _cpu_free (o_om o') ≡ₚ zrange 0 n ∧ _free (o_pool o') ≡ₚ zrange 0 (num_slots (o_pool o'))).
Proof.
  intros Hfu Hfr Hst. pose proof (orch_steps_inv np n T fused argsort_desc _ _ Hfu
    (fresh_inv np n o Hfr) Hst) as Hinv.
  split; [done|]. intros Hnil.
  assert (∀ r, o_loc o' r = None) as Hnone.
  { intros r. destruct (o_loc o' r) eqn:E; [|done]. exfalso.
    destruct (proj1 (oi_tracked _ _ _ Hinv r)) as (l & Hl & _); [by rewrite E; eexists|].
    by rewrite Hnil, lookup_empty in Hl. }
  split; [done|]. split; [|by apply (orch_slots_free np n)].
  apply set_eq. intros r. split; [|set_solver]. intros Hr.
  apply (oi_known _ _ _ Hinv) in Hr. rewrite Hnone in Hr. by destruct Hr.
Qed.

(** C36: [sync_request_blocks] with a block table that has not shrunk succeeds:
    each listed block is bound to its page, or keeps its CPU or staged copy; it is
    complete iff it was (and kept its page) or its last token is computed; all
    complete GPU blocks of the request are scored; other requests, all pages and
    all slots are untouched. *)
Theorem sync_request_blocks_correct req gids ntok o :
  fused_ok T fused → orch_inv np n o → warmup_id req = false →
  Forall (λ g, 0 ≤ g < np) gids →
  (length (default [] (_request_blocks o !! req)) ≤ length gids)%nat →
  ∃ o', sync_request_blocks T fused req gids ntok o =
          (Ok (mkRef req <$> zrange 0 (zlen gids)), o') ∧ synced np n req gids ntok o o'.
Proof. intros. by apply sync_run. Qed.

(** [on_prefill_complete] graduates blocks by fill state: of the request's
    blocks exactly those whose last token is computed become complete (the
    partially filled tail never does), each newly complete GPU block is scored,
    and no other request is touched. *)
Theorem prefill_completes_filled_blocks req ntok o :
  fused_ok T fused → orch_inv np n o → warmup_id req = false → _sparse_mode o = true →
  ∃ o', on_prefill_complete T fused req ntok o = (Ok [], o') ∧ orch_inv np n o' ∧
    (∀ r, request_id r = req →
       o_loc o' r = completed (block_filled o (block_idx r) ntok) <$> o_loc o r) ∧
    (∀ r, request_id r ≠ req → o_loc o' r = o_loc o r) ∧
    (∀ r l, request_id r = req → o_loc o r = Some l → residency l = GPU → complete l = false →
       block_filled o (block_idx r) ntok = true → r ∈ _scored o').
Proof.
  intros Hfu Hinv Hw Hm.
  destruct (prefill_run np n T fused Hfu req ntok o Hinv Hw Hm) as (o' & Hrun & Hra & H1 & H2 & _ & H3).
  exists o'. split; [done|]. split; [by eapply rearranged_inv|]. done.
Qed.

(** A decode step over distinct requests never raises.  If no request
    reaches a multiple of the window it moves nothing.  Otherwise it offloads
    [n_offload] of the complete, scored GPU blocks of all requests: either all of
    them are now on the CPU in slots that were free and hold their pages, or none
    moved and no slot was lost, which without a transfer error happens only when
    the free slots do not suffice. *)
Theorem decode_step_offloads_when_due io reqs k o :
  orch_inv np n o → 0 ≤ k → zlen (_blocks (o_table o)) < 2 ^ 52 → NoDup reqs →
  ∃ r o', on_decode_step io reqs k o = (Ok r, o') ∧ orch_inv np n o' ∧
    if decide (due_requests k (o_ctl o) reqs = [])
    then r = [] ∧ o_pool o' = o_pool o else passed n io o r o'.
Proof.
  intros Hinv Hk Hlen Hnd. destruct (decode_run np n io reqs k o Hinv Hk Hlen) as (r & o' & ? & ? & Hd).
  exists r, o'. split; [done|]. split; [done|]. by apply Hd.
Qed.

(** [on_request_done] (and [on_request_preempted], the same cleanup) succeeds
    and forgets the request completely: its blocks leave the table, the scored
    set, the scorer and the controller, their CPU and staging slots are free, and
    nothing of any other request changes. *)
Theorem request_done_forgets_request req o :
  orch_inv np n o → ∃ o', on_request_done req o = (Ok tt, o') ∧ cleaned np n req o o'.
Proof. apply cleanup_run. Qed.

(** C37: [prepare_staging] is gated by the table's CPU version: with the version
    of the last pass it returns at once and touches nothing; otherwise it records
    the version and, for a well-formed selection, stages the CPU-only blocks the
    selection needs, each with the contents of its CPU copy, or reports it
    skipped; it only raises if a transfer does. *)
Theorem prepare_staging_correct io reqs si sl o :
  orch_inv np n o →
  if cpu_version (o_table o) =? _lag_seen_cpu_version o
  then prepare_staging io reqs si sl o = (Ok [], o)
  else ∀ needed, collect_needed_block_refs reqs si sl (o_page_size o) = Ok needed →
    let refs := filter (λ r, is_on_cpu o r = true) needed in
    match prepare_staging io reqs si sl o with
    | (Ok res, o') => _lag_seen_cpu_version o' = cpu_version (o_table o) ∧
        ∃ sk, ensured n refs res sk (o_pool o) (o_pool o')
    | (Raise _, o') => not_ensured n (o_pool o) (o_pool o') ∧ io ≠ None
    end.
Proof.
  intros Hinv. unfold prepare_staging. do 2 run_step. destruct (_ =? _); [done|].
  intros needed Hneed. set (refs := filter _ _). do 2 run_step. unfold bind at 1, lift.
  change (o_page_size (with_seen (cpu_version (o_table o)) o)) with (o_page_size o).
  rewrite Hneed. run_step. set (o1 := with_seen (cpu_version (o_table o)) o).
  assert (orch_inv np n o1) as Hinv1 by by eapply orch_inv_frame.
  change (filter (λ r, is_on_cpu o1 r = true) needed) with refs.
  destruct (stage_run np n io refs o1 Hinv1) as [_ Hs]; [by intros r [? _]%list_elem_of_filter|].
  unfold bind at 1. unfold on_pool, zoom in *.
  destruct (ensure_resident io refs (o_pool o1)) as [[[res sk]|e] p']; [|exact Hs].
  split; [done|]. by exists sk.
Qed.

(** [promote_hot_cpu_blocks] stages the hottest CPU-only blocks of a request:
    at most [max_count] of them, none of those left out has a higher score than
    one of those picked, and each picked block is staged with the contents of its
    CPU copy or skipped; it only raises if a transfer does. *)
Theorem promote_stages_hottest argsort_desc io req k o :
  orch_inv np n o → sorts_desc argsort_desc → 0 < k → _sparse_mode o = true →
  cold_refs o req ≠ [] →
  ∃ sc s' picked, scores (cold_refs o req) (scorer (o_om o)) = (Ok sc, s') ∧
    hottest (cold_refs o req) sc (Z.to_nat k) picked ∧
    match promote_hot_cpu_blocks argsort_desc io req k o with
    | (Ok res, o') => ∃ sk, ensured n picked res sk (o_pool (put_scorer s' o)) (o_pool o')
    | (Raise _, o') => not_ensured n (o_pool (put_scorer s' o)) (o_pool o') ∧ io ≠ None
    end.
Proof.
  intros Hinv Hsort Hk Hm Hne. destruct (cold_refs_spec np n o req Hinv) as [Hnd Hin].
  destruct (scores_law (cold_refs o req) (scorer (o_om o))) as (sc & s' & Hsc & Hl & _).
  destruct (scores_run np n (cold_refs o req) o Hinv) as (sc2 & s2 & Hrun & _ & Hinv1).
  assert (sc2 = sc ∧ put_scorer s2 o = put_scorer s' o) as [-> E].
  { unfold on_manager, on_pool, on_om, on_scorer, zoom in Hrun. unfold o_om in Hsc.
    rewrite Hsc in Hrun. by simplify_eq. }
  rewrite E in *. exists sc, s', (pick (cold_refs o req) (take (Z.to_nat k) (argsort_desc sc))).
  split; [done|]. split; [by apply pick_hottest|].
  unfold promote_hot_cpu_blocks. run_step. rewrite Hm. replace (k <=? 0) with false by lia. cbn [orb negb].
  run_step. fold (cold_refs o req). rewrite bool_decide_eq_false_2 by done.
  erewrite bind_ok by exact Hrun. cbn beta. set (picked := pick _ _).
  destruct (stage_run np n io picked (put_scorer s' o) Hinv1) as [_ Hs].
  { intros r Hr%pick_subset. by apply Hin in Hr as [_ ?]. }
  unfold bind at 1. unfold on_pool, zoom in *.
  destruct (ensure_resident io picked (o_pool (put_scorer s' o))) as [[[res sk]|e] p']; [|exact Hs].
  by exists sk.
Qed.
End Properties.

(** *** Witnesses: the two-layer system of three pages, two CPU slots and one
    staging slot (page 2), pages of two tokens, a window of two tokens. *)
Definition demo_T : torch_ops := Torch Z.add Z.add (λ _, 0) (λ _, 0) (λ _, 0).
Definition demo_fused : list kv_layer → list Z →
  option (list (list (list f64)) * list (list (list f64))) := λ _ _, None.
Definition demo_o0 : orch LRUScorer :=
  orch_init (f64_lit 1 1) (demo_sp 1 2 demo_om0) (Ctl 2 2 ∅ ∅) 2 2.
(** Request "r" with blocks on pages 0 and 1, three tokens computed. *)
Definition demo_o1 : orch LRUScorer :=
  (sync_request_blocks (H:=lru_scorer) demo_T demo_fused "r" [0; 1] 3 demo_o0).2.
(** Its prefill is over. *)
Definition demo_o2 : orch LRUScorer := (on_ctl (ctl_on_prefill_complete "r") demo_o1).2.
(** Two decoded tokens later, block 0 has been offloaded. *)
Definition demo_o3 : orch LRUScorer :=
  (on_decode_step (H:=lru_scorer) None ["r"%string] 2 demo_o2).2.

(** The assumption that block tables do not shrink is needed: if a resumed
    request reports a shorter block table, the blocks beyond it are untracked but
    stay in the residency table, and [on_request_done] then leaves them there
    with their CPU slot, which no later call frees. *)
Theorem shrinking_table_leaks_slot :
  let o4 := (sync_request_blocks (H:=lru_scorer) demo_T demo_fused "r" [] 0 demo_o3).2 in
  let o5 := (on_request_done (H:=lru_scorer) "r" o4).2 in
  _request_blocks o5 = ∅ ∧
  option_map residency (o_loc o5 (demo_ref 0)) = Some CPU ∧
  length (_cpu_free (o_om o5)) = 1%nat.
Proof. by vm_compute. Qed.

Lemma demo_fused_ok : fused_ok demo_T demo_fused.
Proof. by intros g ids k v. Qed.

Lemma demo_o0_fresh : fresh_system (H:=lru_scorer) 3 2 demo_o0.
Proof.
  split.
  - exists lru_init, [demo_pages; demo_pages], [None; None],
      [[demo_slab; demo_slab]; [demo_slab; demo_slab]], 1, "NHD"%string, demo_om0, 1, 2, (f64_lit 1 1),
      (demo_sp 1 2 demo_om0), (Ctl 2 2 ∅ ∅), 2, 2.
    split_and!; try done; by vm_compute.
  - repeat constructor; by vm_compute.
  - by vm_compute.
Qed.

Lemma demo_o0_inv : orch_inv (H:=lru_scorer) 3 2 demo_o0.
Proof. apply fresh_inv. exact demo_o0_fresh. Qed.

Lemma demo_steps : orch_steps (H:=lru_scorer) 3 demo_T demo_fused (λ _, []) demo_o0 demo_o3.
Proof.
  eapply (or_step _ _ _ _ _ demo_o2).
  - eapply (or_step _ _ _ _ _ demo_o1).
    + eapply (or_step _ _ _ _ _ demo_o0); [constructor|]. apply os_sync; [|by vm_compute; lia].
      repeat constructor; by vm_compute.
    + apply os_controller.
  - apply os_decode; by vm_compute.
Qed.

Lemma demo_o2_inv : orch_inv (H:=lru_scorer) 3 2 demo_o2.
Proof.
  eapply (orch_steps_inv (H:=lru_scorer) 3 2 demo_T demo_fused (λ _, [])); [exact demo_fused_ok
    |exact demo_o0_inv|].
  eapply (or_step _ _ _ _ _ demo_o1); [|apply os_controller].
  eapply (or_step _ _ _ _ _ demo_o0); [constructor|]. apply os_sync; [|by vm_compute; lia].
  repeat constructor; by vm_compute.
Qed.

Lemma demo_o3_inv : orch_inv (H:=lru_scorer) 3 2 demo_o3.
Proof.
  eapply (orch_steps_inv (H:=lru_scorer) 3 2 demo_T demo_fused (λ _, [])); [exact demo_fused_ok
    |exact demo_o0_inv|exact demo_steps].
Qed.

Lemma no_slot_leaks_witness :
  orch_inv (H:=lru_scorer) 3 2 demo_o3 ∧ ∃ l, o_loc demo_o3 (demo_ref 0) = Some l ∧ residency l = CPU.
Proof.
  split.
  - apply (no_slot_leaks (H:=lru_scorer) 3 2 demo_T demo_fused (λ _, []) demo_o0 demo_o3);
      [exact demo_fused_ok|exact demo_o0_fresh|exact demo_steps].
  - eexists. split; by vm_compute.
Defined.

Lemma sync_request_blocks_correct_witness :
  ∃ o', sync_request_blocks (H:=lru_scorer) demo_T demo_fused "r" [0; 1] 3 demo_o0 =
          (Ok [mkRef "r" 0; mkRef "r" 1], o') ∧
        synced (H:=lru_scorer) 3 2 "r" [0; 1] 3 demo_o0 o'.
Proof.
  apply (sync_request_blocks_correct (H:=lru_scorer) 3 2 demo_T demo_fused "r" [0; 1] 3 demo_o0);
    [exact demo_fused_ok|exact demo_o0_inv|done|repeat constructor; by vm_compute|by vm_compute; lia].
Defined.

Lemma prefill_completes_filled_blocks_witness :
  ∃ o', on_prefill_complete (H:=lru_scorer) demo_T demo_fused "r" 4 demo_o2 = (Ok [], o') ∧
        orch_inv (H:=lru_scorer) 3 2 o'.
Proof.
  destruct (prefill_completes_filled_blocks (H:=lru_scorer) 3 2 demo_T demo_fused "r" 4 demo_o2)
    as (o' & H1 & H2 & _); [exact demo_fused_ok|exact demo_o2_inv|done|by vm_compute|].
  exists o'. exact (conj H1 H2).
Defined.

Lemma decode_step_offloads_when_due_witness :
  due_requests 2 (o_ctl demo_o2) ["r"%string] = ["r"%string] ∧
  ∃ r o', on_decode_step (H:=lru_scorer) None ["r"%string] 2 demo_o2 = (Ok r, o') ∧
          passed 2 None demo_o2 r o'.
Proof.
  assert (due_requests 2 (o_ctl demo_o2) ["r"%string] = ["r"%string]) as Hd by by vm_compute.
  split; [exact Hd|].
  destruct (decode_step_offloads_when_due (H:=lru_scorer) 3 2 None ["r"%string] 2 demo_o2)
    as (r & o' & H1 & _ & H2); [exact demo_o2_inv|lia|by vm_compute|
                                apply (bool_decide_unpack _); by vm_compute|].
  exists r, o'. split; [exact H1|]. rewrite Hd in H2. exact H2.
Defined.

Lemma request_done_forgets_request_witness :
  ∃ o', on_request_done (H:=lru_scorer) "r" demo_o3 = (Ok tt, o') ∧
        cleaned (H:=lru_scorer) 3 2 "r" demo_o3 o'.
Proof.
  apply (request_done_forgets_request (H:=lru_scorer) 3 2 "r" demo_o3). exact demo_o3_inv.
Defined.

(** One row, one head, token 0 selected. *)
Definition demo_idx : tensor3 := T3 1 1 1 [[[0]]].
Definition demo_len : tensor3 := T3 1 1 1 [[[1]]].

Lemma prepare_staging_correct_witness :
  match prepare_staging (H:=lru_scorer) None ["r"%string] demo_idx demo_len demo_o3 with
  | (Ok res, o') => _lag_seen_cpu_version o' = cpu_version (o_table demo_o3) ∧
      ∃ sk, ensured (H:=lru_scorer) 2
        (filter (λ r, is_on_cpu demo_o3 r = true) [demo_ref 0]) res sk
        (o_pool demo_o3) (o_pool o')
  | (Raise _, o') => not_ensured (H:=lru_scorer) 2 (o_pool demo_o3) (o_pool o') ∧ None ≠ @None nat
  end.
Proof.
  pose proof (prepare_staging_correct (H:=lru_scorer) 3 2 None ["r"%string] demo_idx demo_len demo_o3
    demo_o3_inv) as Hp.
  replace (cpu_version (o_table demo_o3) =? _lag_seen_cpu_version demo_o3) with false in Hp
    by by vm_compute.
  apply Hp. by vm_compute.
Defined.

Lemma promote_stages_hottest_witness :
  ∃ argsort_desc, sorts_desc argsort_desc ∧
  ∃ sc s' picked, scores (BlockScorer:=lru_scorer) (cold_refs demo_o3 "r") (scorer (o_om demo_o3)) = (Ok sc, s') ∧
    hottest (cold_refs demo_o3 "r") sc 4 picked.
Proof.
  set (leb' a b := score_leb b a).
  assert (sorts_desc (argsort leb')) as Hs.
  { intros sc. split; [apply argsort_Permutation|]. intros p q i j a b Hp Hq Hpq Ha Hb.
    eapply (argsort_ordered leb') in Hpq; [|..]; try done.
    - by destruct Hpq.
    - intros x y. destruct (score_leb_total x y); auto.
    - intros x y z ? ?. by eapply score_leb_trans. }
  exists (argsort leb'). split; [exact Hs|].
  destruct (promote_stages_hottest (H:=lru_scorer) 3 2 (argsort leb') None "r" 4 demo_o3)
    as (sc & s' & picked & H1 & H2 & _);
    [exact demo_o3_inv|exact Hs|lia|by vm_compute|by vm_compute|].
  exists sc, s', picked. exact (conj H1 H2).
Defined.
