(* ===== verification/Config.v ===== *)
(** * Configuration and construction

    Models [OffloadConfig] of offload_package/config.py, the automatic sizing of
    the staging area of offload_package/integration/connector.py,
    [normalize_runner_kv_caches] and [build_orchestrator] of
    offload_package/shared/types.py and [initialize_for_runner] of
    offload_package/integration/vllm_bridge.py: how the runtime is put together,
    and which arguments are refused.  Environment variables and the attention
    spec of vLLM's configuration are inputs.  The contents of [torch.empty] are a
    parameter. *)

From S2P Require Import Prelude PyData Float FreeQueue BlockHash BlockPool CacheAllocator.
From S2P Require Import Residency Scoring Pages OffloadManager StagingPool Controller Selection.
From S2P Require Import Orchestrator OrchestratorSpec.
From stdpp Require Import base gmap sets list strings.
From Stdlib Require Import ZArith Lia.
Open Scope Z_scope.

(** ** OffloadConfig *)
Record OffloadConfig := Config {
  c_enabled : bool;
  c_offload_fraction : f64;
  c_num_cpu_slots : Z;
  c_num_staging_slots : Z;
  c_interval_tokens : Z;
  c_scorer_decay : f64;
  c_scorer_head_reduction : string;
  c_scorer_type : string;
  c_true_free : bool;
  c_promote_per_step : Z;
  c_staging_policy : string;
  c_staging_max_pool_frac : f64;
  c_staging_safety_margin : f64;
}.

Definition __post_init__ (c : OffloadConfig) : result OffloadConfig :=
  if negb ((0 <=? c_offload_fraction c) && (c_offload_fraction c <? f64_one)) then Raise ValueError
  else if negb (bool_decide (c_scorer_type c ∈ ["paged_eviction"; "random"; "lru"]%string))
  then Raise ValueError
  else if c_promote_per_step c <? 0 then Raise ValueError
  else if negb (bool_decide (c_staging_policy c ∈ ["fixed"; "auto"]%string)) then Raise ValueError
  else if negb ((0 <? c_staging_max_pool_frac c) && (c_staging_max_pool_frac c <=? f64_one))
  then Raise ValueError
  else if c_staging_safety_margin c <? f64_one then Raise ValueError
  else Ok c.

(** [flag(name, default)] of [from_env], on the variable's value if it is set;
    [lower] is [str.lower]. *)
Definition flag (lower : string → string) (value : option string) (default_on : bool) : bool :=
  let v := lower (default (if default_on then "1" else "0")%string value) in
  bool_decide (v ∈ ["1"; "true"; "yes"; "on"]%string).

(** ** The automatic size of the staging area *)
Definition _auto_staging_slots_for (topk : f64) (sink local max_len max_seqs page_size : Z)
    (safety frac : f64) (num_blocks : Z) : Z :=
  let mid := Z.max 0 (max_len - sink - local) in
  let pages_per_req := (sink + local) / page_size +
    f64_to_int (fadd (fdiv (fmul topk (f64_of_int mid)) (f64_of_int page_size))
                     (fdiv (f64_of_int 999) (f64_of_int 1000))) in
  let est := f64_to_int (fmul (f64_of_int (max_seqs * pages_per_req)) safety) in
  let cap := Z.max 1 (f64_to_int (fmul (f64_of_int num_blocks) frac)) in
  Z.max 64 (Z.min est cap).

(** ** Normalising the runner's caches *)

(** A tensor: its pages ([shape[0]] of them) and [shape[1:]]. *)
Record tensor := Tensor {
  t_pages : list page;
  t_tail : list Z;
}.

(** What the runner may hold per layer: a tuple or list (of tensors, or of other
    objects: [None]), a tensor, or something else. *)
Inductive runner_cache :=
  | RTuple (items : list (option tensor))
  | RTensor (t : tensor)
  | ROther.

Record AttentionSpec := Spec {
  sp_kv_heads : Z;
  sp_head_size : Z;
  sp_block_size : Z;
}.

Record KVCacheView := View {
  vw_k_caches : list (list page);
  (** [None]: the same tensor as K, split along the last axis by its users *)
  vw_v_caches : list (option (list page));
  vw_block_size : Z;
  vw_kv_heads : Z;
  vw_head_dim : Z;
  vw_layout : string;
  vw_staging_base : Z;
}.

Fixpoint pair_layers (caches : list runner_cache)
    : result (list (list page) * list (option (list page))) :=
  match caches with
  | [] => Ok ([], [])
  | RTuple [Some k; Some v] :: rest =>
      result_bind (pair_layers rest) (λ r, Ok (t_pages k :: r.1, Some (t_pages v) :: r.2))
  | _ => Raise TypeError
  end.

Fixpoint combined_layers (spec : AttentionSpec) (caches : list runner_cache)
    : result (list (list page) * list (option (list page))) :=
  match caches with
  | [] => Ok ([], [])
  | RTensor t :: rest =>
      if bool_decide (t_tail t = [sp_kv_heads spec; sp_block_size spec; 2 * sp_head_size spec])
      then result_bind (combined_layers spec rest) (λ r, Ok (t_pages t :: r.1, None :: r.2))
      else Raise ValueError
  | _ => Raise TypeError
  end.

Definition normalize_runner_kv_caches (caches : list runner_cache) (spec : AttentionSpec)
    (staging_slots : Z) : result KVCacheView :=
  result_bind
    (match caches with
     | [] => Raise IndexError
     | RTuple [_; _] :: _ => pair_layers caches
     | RTensor _ :: _ => combined_layers spec caches
     | _ => Raise TypeError
     end)
    (λ r, let base := match r.1 with k :: _ => zlen k - staging_slots | [] => 0 end in
          Ok (View r.1 r.2 (sp_block_size spec) (sp_kv_heads spec) (sp_head_size spec) "HND" base)).

(** ** build_orchestrator *)
Record OrchestratorConfig := OConfig {
  oc_offload_fraction : f64;
  oc_num_cpu_slots : Z;
  oc_num_staging_slots : Z;
  oc_W : Z;
  oc_page_size : Z;
  oc_gpu_budget_blocks : Z;
  oc_scorer_decay : f64;
  oc_scorer_head_reduction : string;
  oc_scorer_type : string;
}.

(** An orchestrator with the scorer the configuration names. *)
Inductive any_orch (G : Type) :=
  | ORandom (o : orch (RandomScorer G))
  | OLru (o : orch LRUScorer)
  | OPaged (o : orch PagedEvictionScorer).
Arguments ORandom {G}.
Arguments OLru {G}.
Arguments OPaged {G}.

Section Build.
Context {G : Type} (R : rng_ops G).
(** The uninitialised contents of [torch.empty], per layer and slot. *)
Context (garbage : nat → nat → slab).
(** The defaults of the scorers' constructors. *)
Context (eps_default : f64) (seed_default : Z).

Definition torch_empty (layers slots : nat) : list (list slab) :=
  (λ l, garbage l <$> seq 0 slots) <$> seq 0 layers.

Definition build_with {S} (s : S) (cfg : OrchestratorConfig) (view : KVCacheView) : result (orch S) :=
  result_bind (om_init s table_init (vw_k_caches view) (vw_v_caches view)
                 (torch_empty (length (vw_k_caches view)) (Z.to_nat (oc_num_cpu_slots cfg)))
                 (oc_gpu_budget_blocks cfg) (vw_layout view)) (λ m,
  result_bind (sp_init (oc_num_staging_slots cfg) (vw_staging_base view) m) (λ p,
  result_bind (ctl_init (oc_W cfg) (oc_page_size cfg)) (λ c,
    Ok (orch_init (oc_offload_fraction cfg) p c (oc_page_size cfg) (vw_staging_base view))))).

Definition build_orchestrator (cfg : OrchestratorConfig) (view : KVCacheView) : result (any_orch G) :=
  if bool_decide (vw_k_caches view = []) then Raise ValueError
  else if existsb (λ k, zlen k <? vw_staging_base view + oc_num_staging_slots cfg) (vw_k_caches view)
  then Raise ValueError
  else if vw_staging_base view <? oc_gpu_budget_blocks cfg then Raise ValueError
  else if oc_num_cpu_slots cfg <? 0 then Raise RuntimeError
  else if bool_decide (oc_scorer_type cfg = "random"%string) then
    result_bind (build_with (random_init R seed_default) cfg view) (λ o, Ok (ORandom o))
  else if bool_decide (oc_scorer_type cfg = "lru"%string) then
    result_bind (build_with lru_init cfg view) (λ o, Ok (OLru o))
  else
    result_bind (paged_init (oc_scorer_decay cfg) (oc_scorer_head_reduction cfg) eps_default) (λ s,
    result_bind (build_with s cfg view) (λ o, Ok (OPaged o))).

(** ** initialize_for_runner

    [OrchestratorConfig] is built without [scorer_type], so its default
    ["paged_eviction"] is used. *)
Definition initialize_for_runner (caches : list runner_cache) (spec : AttentionSpec)
    (normal_gpu_pages block_size : Z) (cfg : OffloadConfig) : result (option (any_orch G)) :=
  if negb (c_enabled cfg) then Ok None
  else if bool_decide (caches = []) then Raise RuntimeError
  else
    result_bind (normalize_runner_kv_caches caches spec (c_num_staging_slots cfg)) (λ view,
      let budget := f64_to_int (fmul (f64_of_int normal_gpu_pages)
                                  (fsub f64_one (c_offload_fraction cfg))) in
      if (c_num_staging_slots cfg =? 0) || (normal_gpu_pages <=? budget) then Ok None
      else
        result_bind (build_orchestrator
          (OConfig (c_offload_fraction cfg) (c_num_cpu_slots cfg) (c_num_staging_slots cfg)
             (c_interval_tokens cfg) block_size budget (c_scorer_decay cfg)
             (c_scorer_head_reduction cfg) "paged_eviction") view) (λ o, Ok (Some o))).
End Build.

(** ** The worker's construction *)
Section WorkerBuild.
Context {G : Type} (R : rng_ops G) (T : torch_ops).
Context (garbage : nat → nat → slab) (eps_default : f64) (seed_default : Z).

(** [_build_orchestrator] of the worker: the configuration it passes on. *)
Definition _build_orchestrator (caches : list runner_cache) (spec : AttentionSpec) (cfg : OffloadConfig)
    : result (any_orch G) :=
  result_bind (normalize_runner_kv_caches caches spec (c_num_staging_slots cfg)) (λ view,
    build_orchestrator R garbage eps_default seed_default
      (OConfig (c_offload_fraction cfg) (c_num_cpu_slots cfg) (c_num_staging_slots cfg)
         (c_interval_tokens cfg) (sp_block_size spec) (vw_staging_base view) (c_scorer_decay cfg)
         (c_scorer_head_reduction cfg) (c_scorer_type cfg)) view).

(** ** Facts *)

(** The number of pages of a layer, for K and V. *)
Definition layer_pages (c : runner_cache) : list Z :=
  match c with
  | RTuple [Some k; Some v] => [zlen (t_pages k); zlen (t_pages v)]
  | RTensor t => [zlen (t_pages t)]
  | _ => []
  end.

Definition uniform_caches (np : Z) (caches : list runner_cache) : Prop :=
  Forall (λ c, Forall (λ x, x = np) (layer_pages c)) caches.

Definition view_ok (np : Z) (view : KVCacheView) : Prop :=
  Forall2 (λ k v, zlen k = np ∧ zlen (default k v) = np) (vw_k_caches view) (vw_v_caches view).

Lemma pair_layers_ok np caches r :
  uniform_caches np caches → pair_layers caches = Ok r →
  Forall2 (λ k v, zlen k = np ∧ zlen (default k v) = np) r.1 r.2 ∧ length r.1 = length caches.
Proof.
  intros Hu. revert r. induction Hu as [|c caches Hc Hu IH]; intros r; simpl.
  { intros [= <-]. done. }
  destruct c as [[|[k|] [|[v|] [|]]]| |]; try done. simpl in Hc.
  destruct (pair_layers caches) as [r'|]; [|done]. simpl. intros [= <-].
  destruct (IH r' eq_refl) as [H1 H2]. simpl. split; [|by f_equal].
  apply Forall_cons in Hc as [? [? _]%Forall_cons]. by constructor.
Qed.

Lemma combined_layers_ok np spec caches r :
  uniform_caches np caches → combined_layers spec caches = Ok r →
  Forall2 (λ k v, zlen k = np ∧ zlen (default k v) = np) r.1 r.2 ∧ length r.1 = length caches.
Proof.
  intros Hu. revert r. induction Hu as [|c caches Hc Hu IH]; intros r; simpl.
  { intros [= <-]. done. }
  destruct c as [|t|]; try done. case_bool_decide; [|done]. simpl in Hc.
  destruct (combined_layers spec caches) as [r'|]; [|done]. simpl. intros [= <-].
  destruct (IH r' eq_refl) as [H1 H2]. simpl. split; [|by f_equal].
  apply Forall_cons in Hc as [? _]. by constructor.
Qed.

Lemma normalize_ok np caches spec slots view :
  uniform_caches np caches → normalize_runner_kv_caches caches spec slots = Ok view →
  view_ok np view ∧ vw_k_caches view ≠ [] ∧ vw_staging_base view = np - slots ∧ vw_layout view = "HND"%string.
Proof.
  intros Hu. unfold normalize_runner_kv_caches.
  assert (∀ r, match caches with
     | [] => Raise IndexError
     | RTuple [_; _] :: _ => pair_layers caches
     | RTensor _ :: _ => combined_layers spec caches
     | _ => Raise TypeError
     end = Ok r → Forall2 (λ k v, zlen k = np ∧ zlen (default k v) = np) r.1 r.2 ∧ r.1 ≠ []) as Hr.
  { intros r Hm. assert (caches ≠ [] ∧ (Forall2 (λ k v, zlen k = np ∧ zlen (default k v) = np) r.1 r.2 ∧
      length r.1 = length caches)) as (Hne & Hf & Hl).
    { destruct caches as [|[[|a [|b [|]]]| |] caches']; try done.
      - split; [done|]. by apply pair_layers_ok.
      - split; [done|]. by eapply combined_layers_ok. }
    split; [done|]. intros E. rewrite E in Hl. by destruct caches. }
  destruct (match caches with [] => _ | _ => _ end) as [r|]; [|done]. simpl. intros [= <-].
  destruct (Hr r eq_refl) as [Hf Hne]. split; [exact Hf|]. split; [done|]. split; [|done]. simpl.
  destruct r as [[|k ks] vs]; [done|]. simpl in *.
  apply Forall2_cons_inv_l in Hf as (v & vs' & [-> _] & _ & _). done.
Qed.

Lemma zip_layers np ks vs :
  Forall2 (λ k v, zlen k = np ∧ zlen (default k v) = np) ks vs →
  Forall (λ l, zlen (k_cache l) = np ∧ zlen (default (k_cache l) (v_cache l)) = np)
    (zip_with Layer ks vs).
Proof. induction 1; [constructor|]. by constructor. Qed.

Lemma torch_empty_shape layers slots :
  shape (torch_empty garbage layers slots) = replicate layers slots.
Proof.
  unfold shape, torch_empty. rewrite <-list_fmap_compose.
  apply list_eq. intros i. rewrite list_lookup_fmap.
  destruct (decide (i < layers)%nat) as [Hi|Hi].
  - rewrite lookup_seq_lt, lookup_replicate_2 by done. simpl. by rewrite length_fmap, length_seq.
  - rewrite (lookup_ge_None_2 (seq 0 layers)) by (rewrite length_seq; lia).
    by rewrite (lookup_ge_None_2 (replicate layers slots)) by (rewrite length_replicate; lia).
Qed.

(** Building accepts a well-formed view only, and yields a fresh system. *)
Lemma build_with_fresh {S} `{LawfulScorer S} (s : S) np oc view o :
  view_ok np view → vw_k_caches view ≠ [] → scorer_ok s → 0 ≤ oc_offload_fraction oc < f64_one →
  build_with garbage s oc view = Ok o →
  fresh_system np (oc_num_cpu_slots oc) o ∧ base (o_pool o) = vw_staging_base view ∧
  num_slots (o_pool o) = oc_num_staging_slots oc ∧ 0 < oc_num_staging_slots oc.
Proof.
  intros Hv Hne Hs Hfr. unfold build_with.
  destruct (om_init _ _ _ _ _ _ _) as [m|] eqn:Hm; [|done]. simpl.
  destruct (sp_init _ _ m) as [p|] eqn:Hp; [|done]. simpl.
  destruct (ctl_init _ _) as [c|] eqn:Hc; [|done]. simpl. intros [= <-].
  destruct (om_init_ok _ _ _ _ _ _ _ Hm) as (Hslots & _ & _ & _ & Hpos & Ht).
  set (cpu := torch_empty garbage (length (vw_k_caches view)) (Z.to_nat (oc_num_cpu_slots oc))) in *.
  assert (zlen (default [] (head cpu)) = oc_num_cpu_slots oc) as Hn.
  { unfold cpu, torch_empty in Hpos |- *. destruct (vw_k_caches view) as [|k ks]; [done|]. simpl in *.
    unfold zlen in *. rewrite length_fmap, length_seq in *. lia. }
  destruct (sp_init_ok _ _ _ m p Hp Hslots) as (_ & Hom & Hns & Hb & Hs0).
  { intros r l. unfold om_loc. by rewrite Ht. }
  assert (gpu_caches m = zip_with Layer (vw_k_caches view) (vw_v_caches view) ∧ cpu_cache m = cpu) as [Hg Hcc].
  { unfold om_init in Hm. repeat (case_match; [done|]). by injection Hm as <-. }
  split; [|done]. split.
  - exists s, (vw_k_caches view), (vw_v_caches view), cpu. do 3 eexists. do 7 eexists.
    split_and!; try exact Hm; try exact Hp; try done; lia.
  - unfold o_om. simpl. rewrite Hom, Hg. by apply zip_layers.
  - unfold o_om, caches_ok. simpl. rewrite Hom, Hcc, Hg. unfold cpu. rewrite torch_empty_shape.
    f_equal. rewrite length_zip_with. pose proof (Forall2_length _ _ _ Hv). lia.
Qed.
End WorkerBuild.

(** ** The properties *)

(** What holds of a built system, whichever scorer it has: a fresh system of [np]
    pages and [n] CPU slots, with the staging area at [b], [k] slots. *)
Definition built {G} (R : rng_ops G) (T : torch_ops) (np n b k : Z) (a : any_orch G) : Prop :=
  match a with
  | ORandom o => fresh_system (H:=random_scorer R) np n o ∧ base (o_pool o) = b ∧ num_slots (o_pool o) = k
  | OLru o => fresh_system (H:=lru_scorer) np n o ∧ base (o_pool o) = b ∧ num_slots (o_pool o) = k
  | OPaged o => fresh_system (H:=paged_scorer T) np n o ∧ base (o_pool o) = b ∧ num_slots (o_pool o) = k
  end.

Lemma build_orchestrator_built {G} (R : rng_ops G) (T : torch_ops) garbage eps seed np oc view a :
  view_ok np view → vw_k_caches view ≠ [] → 0 ≤ oc_offload_fraction oc < f64_one →
  build_orchestrator R garbage eps seed oc view = Ok a →
  built R T np (oc_num_cpu_slots oc) (vw_staging_base view) (oc_num_staging_slots oc) a ∧
  0 < oc_num_staging_slots oc.
Proof.
  intros Hv Hne Hfr. unfold build_orchestrator. rewrite bool_decide_eq_false_2 by done.
  destruct (existsb _ _); [done|]. destruct (_ <? _); [done|]. destruct (_ <? 0); [done|].
  case_bool_decide; [|case_bool_decide].
  - destruct (build_with _ _ _ _) as [o|] eqn:E; [|done]. intros [= <-].
    by apply (build_with_fresh garbage (H:=random_scorer R) _ np) in E as (? & ? & ? & ?).
  - destruct (build_with _ _ _ _) as [o|] eqn:E; [|done]. intros [= <-].
    by apply (build_with_fresh garbage (H:=lru_scorer) _ np) in E as (? & ? & ? & ?).
  - destruct (paged_init _ _ _) as [s|] eqn:Es; [|done]. simpl.
    destruct (build_with _ _ _ _) as [o|] eqn:E; [|done]. intros [= <-].
    apply (build_with_fresh garbage (H:=paged_scorer T) _ np) in E as (? & ? & ? & ?); try done.
    unfold paged_init in Es. destruct (negb _); [done|]. destruct (negb (bool_decide _)) eqn:Eh; [done|].
    injection Es as <-. apply negb_false_iff, bool_decide_eq_true in Eh. exact Eh.
Qed.

Lemma post_init_fraction c : __post_init__ c = Ok c → 0 ≤ c_offload_fraction c < f64_one.
Proof.
  unfold __post_init__. destruct (_ && _) eqn:E; [|done]. intros _.
  apply andb_prop in E as [?%Z.leb_le ?%Z.ltb_lt]. done.
Qed.

(** C32: with an accepted configuration and layers of [np] pages each, whatever
    system the worker builds starts in a state all orchestrator guarantees apply
    to, and its staging area consists of exactly the pages the scheduler reserves
    in a fresh pool of [np] pages when it asks for fewer than [np] (reserving more
    raises): the allocator and the staging pool never share a page. *)
Theorem staging_area_is_reserved_tail {G} (R : rng_ops G) T garbage eps seed np caches spec cfg a
    caching hbs p0 :
  __post_init__ cfg = Ok cfg → uniform_caches np caches → pool_init np caching hbs = Ok p0 →
  _build_orchestrator R garbage eps seed caches spec cfg = Ok a →
  let k := c_num_staging_slots cfg in
  built R T np (c_num_cpu_slots cfg) (np - k) k a ∧
  (k < np → ∃ p1, reserve_staging_tail k p0 = (Ok (zrange (np - k) (np - k + k)), p1)).
Proof.
  intros Hcfg Hu Hp0. unfold _build_orchestrator.
  destruct (normalize_runner_kv_caches _ _ _) as [view|] eqn:Hn; [|done]. simpl. intros Hb.
  destruct (normalize_ok np _ _ _ _ Hu Hn) as (Hv & Hne & Hbase & _).
  apply (build_orchestrator_built R T _ _ _ np) in Hb as [Hb Hk]; [|done|done|by apply post_init_fraction].
  simpl in *. rewrite Hbase in Hb. split; [done|]. intros Hlt.
  assert (0 < np) as Hs by (unfold pool_init in Hp0; destruct (0 <? np) eqn:E; [lia|done]).
  destruct (pool_init_run np caching hbs Hs) as (q & Hq & Hinv & Hnum & _ & Hr0).
  rewrite Hp0 in Hq. injection Hq as <-.
  destruct (reserve_tail_run p0 (zrange 1 np) (c_num_staging_slots cfg) Hinv) as (p1 & Hrun & _); [lia| |].
  { intros b Hb'. rewrite Hnum in Hb'. rewrite Hr0 by lia. by rewrite bool_decide_eq_false_2 by lia. }
  exists p1. rewrite Hrun, Hnum. do 3 f_equal. lia.
Qed.

(** The automatic staging size is never below 64 slots, whatever cap the pool
    size gives, so on a pool of at most 64 pages the reservation that follows
    raises [ValueError]; the docstring says small pools never crash. *)
Theorem auto_staging_fails_on_small_pools topk sink local max_len max_seqs ps safety frac size caching p :
  pool_reachable size caching p → size ≤ 64 →
  let k := _auto_staging_slots_for topk sink local max_len max_seqs ps safety frac size in
  64 ≤ k ∧ reserve_staging_tail k p = (Raise ValueError, p).
Proof.
  intros ((l & Hinv) & Hn & _)%pool_reachable_inv Hs k.
  assert (64 ≤ k) as Hk by (unfold k, _auto_staging_slots_for; lia).
  split; [done|]. unfold reserve_staging_tail. replace (k <=? 0) with false by lia. run_step. rewrite Hn.
  by replace (size <=? k) with true by lia.
Qed.

(** [initialize_for_runner] ignores the configured scorer: it always builds
    the paged-eviction scorer, also when the configuration asks for "lru" or
    "random". *)
Theorem initialize_ignores_scorer_type {G} (R : rng_ops G) garbage eps seed caches spec pages bs cfg a :
  initialize_for_runner R garbage eps seed caches spec pages bs cfg = Ok (Some a) →
  ∃ o, a = OPaged o.
Proof.
  unfold initialize_for_runner. destruct (negb _); [done|]. case_bool_decide; [done|].
  destruct (normalize_runner_kv_caches _ _ _) as [view|]; [|done]. simpl. destruct (_ || _); [done|].
  destruct (build_orchestrator _ _ _ _ _ _) as [x|] eqn:E; [|done]. intros [= <-].
  unfold build_orchestrator in E. repeat (case_match; [done|]).
  destruct (paged_init _ _ _) as [s|]; [|done]. simpl in E.
  destruct (build_with _ _ _ _) as [o|]; [|done]. injection E as <-. by exists o.
Qed.

(** *** Witnesses: one combined layer of three pages, two CPU slots, one staging
    slot, asking for the LRU scorer. *)
Definition demo_cfg : OffloadConfig :=
  Config true (f64_lit 1 2) 2 1 2 f64_one "mean" "lru" true 4 "fixed" (f64_lit 1 2) f64_one.
Definition demo_spec : AttentionSpec := Spec 1 1 2.
Definition demo_caches : list runner_cache := [RTensor (Tensor demo_pages [1; 2; 2])].
Definition demo_garbage : nat → nat → slab := λ _ _, demo_slab.
Definition demo_built : result (any_orch Z) :=
  _build_orchestrator demo_rng demo_garbage 0 42 demo_caches demo_spec demo_cfg.
Definition demo_init : result (option (any_orch Z)) :=
  initialize_for_runner demo_rng demo_garbage 0 42 demo_caches demo_spec 2 2 demo_cfg.

Lemma demo_uniform : uniform_caches 3 demo_caches.
Proof. repeat constructor. Qed.

Lemma staging_area_is_reserved_tail_witness :
  ∃ a p0, demo_built = Ok a ∧ pool_init 3 true 16 = Ok p0 ∧
    built demo_rng demo_T 3 2 (3 - 1) 1 a ∧ ∃ p1, reserve_staging_tail 1 p0 = (Ok [2], p1).
Proof.
  assert (∃ a, demo_built = Ok a) as [a Ha] by (eexists; vm_compute; reflexivity).
  assert (∃ p0, pool_init 3 true 16 = Ok p0) as [p0 Hp] by (eexists; vm_compute; reflexivity).
  destruct (staging_area_is_reserved_tail demo_rng demo_T demo_garbage 0 42 3 demo_caches demo_spec
    demo_cfg a true 16 p0) as [H1 H2]; [by vm_compute|exact demo_uniform|exact Hp|exact Ha|].
  exists a, p0. split; [exact Ha|]. split; [exact Hp|]. split; [exact H1|]. apply H2. by vm_compute.
Defined.

Lemma auto_staging_fails_on_small_pools_witness :
  let k := _auto_staging_slots_for (f64_lit 1 3) 0 0 64 1 16 f64_one (f64_lit 1 2) 4 in
  64 ≤ k ∧ reserve_staging_tail k demo_pool0 = (Raise ValueError, demo_pool0).
Proof.
  apply (auto_staging_fails_on_small_pools (f64_lit 1 3) 0 0 64 1 16 f64_one (f64_lit 1 2) 4 true
    demo_pool0); [|lia].
  apply (reach_init 4 true 16). by vm_compute.
Defined.

Lemma initialize_ignores_scorer_type_witness :
  c_scorer_type demo_cfg = "lru"%string ∧
  ∃ a o, demo_init = Ok (Some a) ∧ a = OPaged o.
Proof.
  split; [done|].
  assert (∃ a, demo_init = Ok (Some a)) as [a Ha] by (eexists; vm_compute; reflexivity).
  destruct (initialize_ignores_scorer_type demo_rng demo_garbage 0 42 demo_caches demo_spec 2 2 demo_cfg a Ha)
    as [o Ho].
  exists a, o. exact (conj Ha Ho).
Defined.
