(* ===== verification/Scheduler.v ===== *)
(** * The scheduler connector

    Models [OffloadPackageScheduler] of
    offload_package/integration/scheduler_connector.py and the metadata of
    offload_package/integration/metadata.py: the per-step bookkeeping that drives
    the orchestrator, the batching of offloads into store events, and the
    block-table surgery that truly frees offloaded GPU pages.  The GPU pool and
    the request tables are vLLM's, shared with its KV-cache manager; a block
    object is named by its id and the null block has id 0 ([BlockPool.__init__]
    pops the first block for it).  Logging and timing have no effect. *)

From S2P Require Import Prelude PyData Float FreeQueue BlockHash BlockPool CacheAllocator Ownership.
From S2P Require Import Residency Scoring Pages OffloadManager StagingPool Controller Selection.
From S2P Require Import Orchestrator OrchestratorSpec.
From stdpp Require Import base gmap sets list strings sorting.
From Stdlib Require Import ZArith Lia.
Open Scope Z_scope.

Definition INVALID_JOB_ID : Z := -1.

(** ** Metadata *)
Record OffloadPackageMetadata := Meta {
  store_event : Z;
  store_gpu_blocks : list Z;
  store_cpu_blocks : list Z;
  load_event : Z;
  request_ids : list string;
  load_event_to_reqs : gmap Z (list string);
  store_event_to_reqs : gmap Z (list string);
}.

Definition meta_init : OffloadPackageMetadata :=
  Meta INVALID_JOB_ID [] [] INVALID_JOB_ID [] ∅ ∅.

Record OffloadPackageWorkerMetadata := WMeta {
  completed_store_events : gmap Z Z;
  completed_load_events : gmap Z Z;
}.

(** One of the merge loops of [aggregate], over the items of the other dict. *)
Definition merge_counts (mine other : gmap Z Z) : gmap Z Z :=
  foldl (λ m e, <[e.1 := default 0 (m !! e.1) + e.2]> m) mine (map_to_list other).

Definition aggregate (self other : OffloadPackageWorkerMetadata) : OffloadPackageWorkerMetadata :=
  WMeta (merge_counts (completed_store_events self) (completed_store_events other))
        (merge_counts (completed_load_events self) (completed_load_events other)).

(** ** State *)

(** One batch: the refs, their GPU pages, the CPU blocks and the requests. *)
Record batch := Batch {
  b_refs : list BlockRef;
  b_gpu : list Z;
  b_cpu : list Z;
  b_reqs : list string;
}.

Record sched (S : Type) := Sched {
  (** [_orchestrator]: absent until the worker has built it *)
  s_ready : bool;
  s_orch : orch S;
  (** [_gpu_block_pool], once bound *)
  s_bound : bool;
  s_gpu : pool;
  (** [mgr.req_to_blocks] of the first single-type manager, if there is one *)
  s_tables : option (gmap string (list Z));
  s_cpu : pool;
  s_ctl : controller;
  _store_event_counter : Z;
  _load_event_counter : Z;
  _expected_worker_count : Z;
  _store_event_pending_counts : gmap Z Z;
  _prefill_completed : gset string;
  _prompt_lens : gmap string Z;
  _step_store_acc : list batch;
  _pending_store_events : gmap Z batch;
  _req_block_table : gmap string (list Z);
  _true_free_enabled : bool;
  cfg_fraction : f64;
  cfg_promote : Z;
}.
Arguments Sched {S}.
Arguments s_ready {S}.
Arguments s_orch {S}.
Arguments s_bound {S}.
Arguments s_gpu {S}.
Arguments s_tables {S}.
Arguments s_cpu {S}.
Arguments s_ctl {S}.
Arguments _store_event_counter {S}.
Arguments _load_event_counter {S}.
Arguments _expected_worker_count {S}.
Arguments _store_event_pending_counts {S}.
Arguments _prefill_completed {S}.
Arguments _prompt_lens {S}.
Arguments _step_store_acc {S}.
Arguments _pending_store_events {S}.
Arguments _req_block_table {S}.
Arguments _true_free_enabled {S}.
Arguments cfg_fraction {S}.
Arguments cfg_promote {S}.

Section SUpdates.
Context {S : Type}.
Implicit Types s : sched S.

Definition set_orch (o : orch S) s : sched S :=
  Sched (s_ready s) o (s_bound s) (s_gpu s) (s_tables s) (s_cpu s) (s_ctl s) (_store_event_counter s)
    (_load_event_counter s) (_expected_worker_count s) (_store_event_pending_counts s)
    (_prefill_completed s) (_prompt_lens s) (_step_store_acc s) (_pending_store_events s)
    (_req_block_table s) (_true_free_enabled s) (cfg_fraction s) (cfg_promote s).
Definition set_gpu (p : pool) s : sched S :=
  Sched (s_ready s) (s_orch s) (s_bound s) p (s_tables s) (s_cpu s) (s_ctl s) (_store_event_counter s)
    (_load_event_counter s) (_expected_worker_count s) (_store_event_pending_counts s)
    (_prefill_completed s) (_prompt_lens s) (_step_store_acc s) (_pending_store_events s)
    (_req_block_table s) (_true_free_enabled s) (cfg_fraction s) (cfg_promote s).
Definition set_tables (m : option (gmap string (list Z))) s : sched S :=
  Sched (s_ready s) (s_orch s) (s_bound s) (s_gpu s) m (s_cpu s) (s_ctl s) (_store_event_counter s)
    (_load_event_counter s) (_expected_worker_count s) (_store_event_pending_counts s)
    (_prefill_completed s) (_prompt_lens s) (_step_store_acc s) (_pending_store_events s)
    (_req_block_table s) (_true_free_enabled s) (cfg_fraction s) (cfg_promote s).
Definition set_cpu (p : pool) s : sched S :=
  Sched (s_ready s) (s_orch s) (s_bound s) (s_gpu s) (s_tables s) p (s_ctl s) (_store_event_counter s)
    (_load_event_counter s) (_expected_worker_count s) (_store_event_pending_counts s)
    (_prefill_completed s) (_prompt_lens s) (_step_store_acc s) (_pending_store_events s)
    (_req_block_table s) (_true_free_enabled s) (cfg_fraction s) (cfg_promote s).
Definition set_sctl (c : controller) s : sched S :=
  Sched (s_ready s) (s_orch s) (s_bound s) (s_gpu s) (s_tables s) (s_cpu s) c (_store_event_counter s)
    (_load_event_counter s) (_expected_worker_count s) (_store_event_pending_counts s)
    (_prefill_completed s) (_prompt_lens s) (_step_store_acc s) (_pending_store_events s)
    (_req_block_table s) (_true_free_enabled s) (cfg_fraction s) (cfg_promote s).
Definition set_counts (m : gmap Z Z) s : sched S :=
  Sched (s_ready s) (s_orch s) (s_bound s) (s_gpu s) (s_tables s) (s_cpu s) (s_ctl s)
    (_store_event_counter s) (_load_event_counter s) (_expected_worker_count s) m
    (_prefill_completed s) (_prompt_lens s) (_step_store_acc s) (_pending_store_events s)
    (_req_block_table s) (_true_free_enabled s) (cfg_fraction s) (cfg_promote s).
Definition set_load_counter (k : Z) s : sched S :=
  Sched (s_ready s) (s_orch s) (s_bound s) (s_gpu s) (s_tables s) (s_cpu s) (s_ctl s)
    (_store_event_counter s) k (_expected_worker_count s) (_store_event_pending_counts s)
    (_prefill_completed s) (_prompt_lens s) (_step_store_acc s) (_pending_store_events s)
    (_req_block_table s) (_true_free_enabled s) (cfg_fraction s) (cfg_promote s).
Definition set_prefilled (x : gset string) s : sched S :=
  Sched (s_ready s) (s_orch s) (s_bound s) (s_gpu s) (s_tables s) (s_cpu s) (s_ctl s)
    (_store_event_counter s) (_load_event_counter s) (_expected_worker_count s)
    (_store_event_pending_counts s) x (_prompt_lens s) (_step_store_acc s) (_pending_store_events s)
    (_req_block_table s) (_true_free_enabled s) (cfg_fraction s) (cfg_promote s).
Definition set_prompts (m : gmap string Z) s : sched S :=
  Sched (s_ready s) (s_orch s) (s_bound s) (s_gpu s) (s_tables s) (s_cpu s) (s_ctl s)
    (_store_event_counter s) (_load_event_counter s) (_expected_worker_count s)
    (_store_event_pending_counts s) (_prefill_completed s) m (_step_store_acc s)
    (_pending_store_events s) (_req_block_table s) (_true_free_enabled s) (cfg_fraction s) (cfg_promote s).
Definition set_acc (l : list batch) s : sched S :=
  Sched (s_ready s) (s_orch s) (s_bound s) (s_gpu s) (s_tables s) (s_cpu s) (s_ctl s)
    (_store_event_counter s) (_load_event_counter s) (_expected_worker_count s)
    (_store_event_pending_counts s) (_prefill_completed s) (_prompt_lens s) l
    (_pending_store_events s) (_req_block_table s) (_true_free_enabled s) (cfg_fraction s) (cfg_promote s).
Definition set_pending (k : Z) (m : gmap Z batch) s : sched S :=
  Sched (s_ready s) (s_orch s) (s_bound s) (s_gpu s) (s_tables s) (s_cpu s) (s_ctl s) k
    (_load_event_counter s) (_expected_worker_count s) (_store_event_pending_counts s)
    (_prefill_completed s) (_prompt_lens s) (_step_store_acc s) m (_req_block_table s)
    (_true_free_enabled s) (cfg_fraction s) (cfg_promote s).
Definition set_table (m : gmap string (list Z)) s : sched S :=
  Sched (s_ready s) (s_orch s) (s_bound s) (s_gpu s) (s_tables s) (s_cpu s) (s_ctl s)
    (_store_event_counter s) (_load_event_counter s) (_expected_worker_count s)
    (_store_event_pending_counts s) (_prefill_completed s) (_prompt_lens s) (_step_store_acc s)
    (_pending_store_events s) m (_true_free_enabled s) (cfg_fraction s) (cfg_promote s).

Definition on_orch {A} (op : M (orch S) A) : M (sched S) A := zoom s_orch set_orch op.
Definition on_gpu {A} (op : M pool A) : M (sched S) A := zoom s_gpu set_gpu op.
Definition on_cpu_pool {A} (op : M pool A) : M (sched S) A := zoom s_cpu set_cpu op.
Definition on_sctl {A} (op : M controller A) : M (sched S) A := zoom s_ctl set_sctl op.
Definition s_loc s (r : BlockRef) : option BlockLocation := o_loc (s_orch s) r.
End SUpdates.

(** ** When pages may be recycled *)
Definition true_free_init (enabled true_free async mp : bool) (world : Z) (graphs : bool) : bool :=
  enabled && true_free && negb async && negb mp && (world =? 1) && negb graphs.

Section Scheduler.
Context {S : Type} `{BlockScorer S} (T : torch_ops).
Context (fused : list kv_layer → list Z → option (list (list (list f64)) * list (list (list f64)))).
Context (argsort_desc : list score → list nat).

Definition bind_gpu_block_pool (p : pool) (tables : option (gmap string (list Z)))
    (enabled : bool) (num_staging_slots : Z) : M (sched S) unit :=
  modify (λ s, Sched (s_ready s) (s_orch s) true p tables (s_cpu s) (s_ctl s)
    (_store_event_counter s) (_load_event_counter s) (_expected_worker_count s)
    (_store_event_pending_counts s) (_prefill_completed s) (_prompt_lens s) (_step_store_acc s)
    (_pending_store_events s) (_req_block_table s)
    (_true_free_enabled s && bool_decide (is_Some tables)) (cfg_fraction s) (cfg_promote s)) >>
  if enabled && (0 <? num_staging_slots) then
    let! reserved := on_gpu (reserve_staging_tail num_staging_slots) in
    let! n := gets (λ s, num_gpu_blocks (s_gpu s)) in
    let! first := lift (py_index reserved 0) in
    ensure (first =? n - num_staging_slots) AssertionError
  else ret tt.

(** ** _trigger_global_offload *)

(** With true freeing, only blocks whose page has a single owner. *)
Fixpoint sole_owned (p : pool) (t : table) (refs : list BlockRef) : result (list BlockRef) :=
  match refs with
  | [] => Ok []
  | ref :: refs' =>
      match loc_of t ref ≫= gpu_block_id with
      | None => sole_owned p t refs'
      | Some g =>
          result_bind (block_at p g) (λ b,
            if ref_cnt (blk p b) =? 1
            then result_bind (sole_owned p t refs') (λ l, Ok (ref :: l))
            else sole_owned p t refs')
      end
  end.

Definition with_page (t : table) (ref : BlockRef) : option (BlockRef * Z) :=
  (λ g, (ref, g)) <$> (loc_of t ref ≫= gpu_block_id).

(** [if gpu_blk.block_hash: cpu_blk._block_hash = gpu_blk.block_hash] *)
Definition stamp_hash (e : Z * BlockRef) : M (sched S) unit :=
  let! s := gets (λ s, s) in
  match s_loc s e.2 ≫= gpu_block_id with
  | None => ret tt
  | Some g =>
      let! b := lift (block_at (s_gpu s) g) in
      match block_hash (blk (s_gpu s) b) with
      | Some (x :: h) =>
          on_cpu_pool (modify (upd_blk e.1 (λ k,
            Block (ref_cnt k) (Some (x :: h)) (block_hash_num_tokens k) (is_null k))))
      | _ => ret tt
      end
  end.

(** [list(set(...))] has no fixed order; its only use is under [sorted(set(...))]. *)
Definition _trigger_global_offload (io : option nat) : M (sched S) unit :=
  let! ready := gets s_ready in
  if negb ready then ret tt
  else
    let! s := gets (λ s, s) in
    let t := o_table (s_orch s) in
    let all_gpu_complete := all_gpu_blocks true t in
    let! allowed := lift (if _true_free_enabled s then sole_owned (s_gpu s) t all_gpu_complete
                          else Ok all_gpu_complete) in
    let items := omap (with_page t) allowed in
    (if bool_decide (items = []) then ret tt
     else
       mfor items (λ e, on_orch (on_table (mark_complete e.1))) >>
       on_orch (on_manager (score_blocks T fused items.*1 items.*2)) >>
       on_orch (modify (λ o, with_oscored (list_to_set items.*1 ∪ _scored o) o))) >>
    let! o := gets s_orch in
    let! offloaded := on_orch (on_manager
      (offload_fraction io allowed (cfg_fraction s) (_scored o))) in
    if bool_decide (offloaded = []) then ret tt
    else
      let! cpu_block_ids := on_cpu_pool (get_new_blocks (zlen offloaded)) in
      let! o := gets s_orch in
      let gpu_block_ids := omap (λ r, o_loc o r ≫= gpu_block_id) offloaded in
      if negb (zlen gpu_block_ids =? zlen offloaded) then ret tt
      else
        mfor (zip cpu_block_ids offloaded) stamp_hash >>
        modify (λ s, set_acc (_step_store_acc s ++
          [Batch offloaded gpu_block_ids cpu_block_ids (dedup (request_id <$> offloaded))]) s).

(** ** build_connector_meta *)
Record new_req := NewReq {
  nr_id : string;
  (** [block_ids[0] if block_ids else []] *)
  nr_blocks : list Z;
  nr_computed : Z;
  nr_prompt_len : Z;
}.

Record SchedulerOutput := SOut {
  scheduled_new_reqs : list new_req;
  cached_req_ids : list string;
  cached_num_computed : list Z;
  (** per request [None], or the new ids of group 0 *)
  cached_new_block_ids : list (option (list Z));
  resumed_req_ids : gset string;
  num_scheduled_tokens : gmap string Z;
}.

(** Step 1: one new request. *)
Definition track_new (r : new_req) : M (sched S) unit :=
  modify (λ s, set_table (<[nr_id r := nr_blocks r]> (_req_block_table s)) s) >>
  (on_orch (sync_request_blocks T fused (nr_id r) (nr_blocks r) (nr_computed r)) >>
  let! done := gets (λ s, bool_decide (nr_id r ∈ _prefill_completed s)) in
  (when negb done do on_sctl (ctl_on_prefill_complete (nr_id r))) >>
  modify (λ s, set_prompts (<[nr_id r := nr_prompt_len r]> (_prompt_lens s)) s)).

(** The request's full block table after this step. *)
Definition full_table (tbl : gmap string (list Z)) (resumed : gset string) (req : string)
    (new_ids : option (list Z)) : list Z :=
  if bool_decide (req ∈ resumed) then default [] new_ids
  else default [] (tbl !! req) ++ default [] new_ids.

Definition complete_prefill (io : option nat) (req : string) (num_computed : Z) : M (sched S) unit :=
  modify (λ s, set_prefilled ({[req]} ∪ _prefill_completed s) s) >>
  on_orch (on_prefill_complete T fused req num_computed) >>
  _trigger_global_offload io.

(** Step 2: one running request. *)
Definition track_cached (io : option nat) (out : SchedulerOutput) (e : string * Z * option (list Z))
    : M (sched S) unit :=
  let '(req, num_computed, new_ids) := e in
  let! tbl := gets _req_block_table in
  let full := full_table tbl (resumed_req_ids out) req new_ids in
  modify (set_table (<[req := full]> tbl)) >>
  (on_orch (sync_request_blocks T fused req full num_computed) >>
  let! s := gets (λ s, s) in
  let prompt_len := default 0 (_prompt_lens s !! req) in
  (when ((0 <? prompt_len) && (prompt_len <=? num_computed)
         && negb (bool_decide (req ∈ _prefill_completed s)))
   do complete_prefill io req num_computed) >>
  let num_scheduled := default 0 (num_scheduled_tokens out !! req) in
  let! prefilled := gets (λ s, bool_decide (req ∈ _prefill_completed s)) in
  if (0 <? num_scheduled) && prefilled then
    let! should_offload := on_sctl (on_decode req num_scheduled) in
    when should_offload do _trigger_global_offload io
  else ret tt).

(** Step 3: prompts that are complete right away. *)
Definition finish_new (io : option nat) (r : new_req) : M (sched S) unit :=
  let! s := gets (λ s, s) in
  when ((nr_prompt_len r <=? nr_computed r) && negb (bool_decide (nr_id r ∈ _prefill_completed s)))
  do complete_prefill io (nr_id r) (nr_computed r).

Definition _get_active_decode_requests (out : SchedulerOutput) (s : sched S) : list string :=
  filter (λ r, r ∈ _prefill_completed s) (cached_req_ids out).

(** Step 4: the load event, unless no request decodes. *)
Definition _prepare_staging_loads (active : list string) (m : OffloadPackageMetadata)
    : M (sched S) OffloadPackageMetadata :=
  let! k := gets _load_event_counter in
  modify (set_load_counter (k + 1)) >>
  ret (Meta (store_event m) (store_gpu_blocks m) (store_cpu_blocks m) k active
         (<[k := active]> (load_event_to_reqs m)) (store_event_to_reqs m)).

(** Step 5: all batches of the step become one store event. *)
Definition flush_stores (m : OffloadPackageMetadata) : M (sched S) OffloadPackageMetadata :=
  let! acc := gets _step_store_acc in
  if bool_decide (acc = []) then ret m
  else
    let refs := mjoin (b_refs <$> acc) in
    let gpu := mjoin (b_gpu <$> acc) in
    let cpu := mjoin (b_cpu <$> acc) in
    let reqs := merge_sort String.le (dedup (mjoin (b_reqs <$> acc))) in
    modify (set_acc []) >>
    let! k := gets _store_event_counter in
    modify (λ s, set_pending (k + 1) (<[k := Batch refs gpu cpu reqs]> (_pending_store_events s)) s) >>
    modify (λ s, set_counts (<[k := 0]> (_store_event_pending_counts s)) s) >>
    ret (Meta k gpu cpu (load_event m) (request_ids m) (load_event_to_reqs m)
           (<[k := reqs]> (store_event_to_reqs m))).

Definition build_connector_meta (io : option nat) (out : SchedulerOutput)
    : M (sched S) OffloadPackageMetadata :=
  let! ready := gets s_ready in
  let! bound := gets s_bound in
  (when ready do
     let! tf := gets _true_free_enabled in
     on_orch (modify (λ o, Orch (o_fraction o) (o_pool o) (o_ctl o) (o_page_size o)
       (staging_base_page_idx o) (_request_blocks o) (_scored o) (_sparse_mode o)
       (_last_offload_step o) (_active_request_ids o) tf (_lag_seen_cpu_version o)))) >>
  if negb ready || negb bound then ret meta_init
  else
    mfor (scheduled_new_reqs out) track_new >>
    (mfor (zip (zip (cached_req_ids out) (cached_num_computed out)) (cached_new_block_ids out))
       (track_cached io out) >>
    (mfor (scheduled_new_reqs out) (finish_new io) >>
    let! active := gets (_get_active_decode_requests out) in
    let! m := (if bool_decide (active = []) then ret meta_init
               else _prepare_staging_loads active meta_init) in
    let! s := gets (λ s, s) in
    (when (_true_free_enabled s && (0 <? cfg_promote s) && negb (bool_decide (active = []))
           && (0 <? num_cpu_blocks (o_table (s_orch s)))) do
       mfor active (λ r, on_orch (promote_hot_cpu_blocks argsort_desc io r (cfg_promote s)) >> ret tt)) >>
    flush_stores m)).

(** ** Completion *)

(** The surgery on one offloaded block; [freed] and [evict_ids] accumulate. *)
Definition surgery_step (e : BlockRef * Z) (acc : list Z * list Z) : M (sched S) (list Z * list Z) :=
  let '(ref, gpu_id) := e in
  let idx := block_idx ref in
  let! s := gets (λ s, s) in
  match default ∅ (s_tables s) !! request_id ref with
  | None => ret acc
  | Some bs =>
      if zlen bs <=? idx then ret acc
      else
        let! entry := lift (py_index bs idx) in
        if negb (entry =? gpu_id) then ret acc
        else
          let! bs' := lift (py_set_index bs idx null_block) in
          modify (set_tables (<[request_id ref := bs']> <$> s_tables s)) >>
          let mirror := default [] (_req_block_table s !! request_id ref) in
          (when idx <? zlen mirror do
             let! mirror' := lift (py_set_index mirror idx null_block) in
             modify (set_table (<[request_id ref := mirror']> (_req_block_table s)))) >>
          let! b := lift (block_at (s_gpu s) gpu_id) in
          ret (acc.1 ++ [b],
               match block_hash (blk (s_gpu s) b) with
               | Some _ => if decide (gpu_id ∈ acc.2) then acc.2 else acc.2 ++ [gpu_id]
               | None => acc.2
               end)
  end.

Fixpoint surgery (es : list (BlockRef * Z)) (acc : list Z * list Z) : M (sched S) (list Z * list Z) :=
  match es with
  | [] => ret acc
  | e :: es' => let! acc' := surgery_step e acc in surgery es' acc'
  end.

(** Publish the hash of one CPU block. *)
Definition register_cpu (b : Z) : M pool unit :=
  let! k := gets (λ p, blk p b) in
  match block_hash k with
  | Some (x :: h) =>
      modify (λ p, with_cache (hc_insert (cached_block_hash_to_block p) (x :: h) b) p)
  | _ => ret tt
  end.

Definition release_cpu (ids : list Z) : M pool unit :=
  let! p := gets (λ p, p) in
  mfor ids (λ i, let! b := lift (block_at p i) in register_cpu b) >>
  let! bs := mmap (λ i, lift (block_at p i)) ids in
  free_blocks bs.

Definition _process_store_completion (event_idx : Z) : M (sched S) unit :=
  let! s := gets (λ s, s) in
  match _pending_store_events s !! event_idx with
  | None => ret tt
  | Some b =>
      modify (set_pending (_store_event_counter s) (delete event_idx (_pending_store_events s))) >>
      (on_cpu_pool (release_cpu (b_cpu b)) >>
      let! s := gets (λ s, s) in
      if negb (s_bound s) then ret tt
      else
        (* gpu_blocks = [self._gpu_block_pool.blocks[bid] for bid in gpu_block_ids] *)
        let! _ := lift (result_mapM (block_at (s_gpu s)) (b_gpu b)) in
        if negb (_true_free_enabled s) then ret tt
        else if bool_decide (s_tables s = None) then ret tt
        else
          let! r := surgery (zip (b_refs b) (b_gpu b)) ([], []) in
          (when negb (bool_decide (r.2 = [])) do on_gpu (evict_blocks r.2)) >>
          when negb (bool_decide (r.1 = [])) do on_gpu (free_blocks r.1))
  end.

(** The items of [completed_store_events], in the order the worker reports them. *)
Definition store_completed (e : Z * Z) : M (sched S) unit :=
  modify (λ s, set_counts (<[e.1 := default 0 (_store_event_pending_counts s !! e.1) + e.2]>
                             (_store_event_pending_counts s)) s) >>
  let! k := gets (λ s, default 0 (_store_event_pending_counts s !! e.1)) in
  let! need := gets _expected_worker_count in
  when need <=? k do
    (_process_store_completion e.1 >>
     modify (λ s, set_counts (delete e.1 (_store_event_pending_counts s)) s)).

(** [_pending_load_events] is never filled, so the loop over finished receives
    finds nothing. *)
Definition update_connector_output (completed : list (Z * Z)) : M (sched S) unit :=
  mfor completed store_completed.

Definition request_finished (req : string) : M (sched S) (bool * option unit) :=
  let! ready := gets s_ready in
  (when ready do on_orch (on_request_done req)) >>
  on_sctl (ctl_remove req) >>
  modify (λ s, set_prefilled (_prefill_completed s ∖ {[req]}) s) >>
  modify (λ s, set_table (delete req (_req_block_table s)) s) >>
  modify (λ s, set_prompts (delete req (_prompt_lens s)) s) >>
  ret (false, None).

Definition sched_reset : M (sched S) bool := on_cpu_pool reset_prefix_cache.
End Scheduler.
