(* ===== verification/SchedulerSpec.v ===== *)
(** * The scheduler connector's guarantees

    The block-table surgery, the offload trigger, completion counting and
    cleanup of [OffloadPackageScheduler], and their properties. *)

From S2P Require Import Prelude PyData Float FreeQueue BlockHash BlockPool CacheAllocator Ownership.
From S2P Require Import Residency Scoring Pages OffloadManager StagingPool Controller Selection.
From S2P Require Import Orchestrator OrchestratorSpec Scheduler.
From stdpp Require Import base gmap sets list strings sorting.
From Stdlib Require Import ZArith Lia.
Open Scope Z_scope.

(** ** Surgery *)
Section Surgery.
Context {S : Type}.
Implicit Types s : sched S.

(** [surgered es m m' freed]: the table entries listed in [es] that still point
    at the listed page have become the null block, nothing else changed, and
    [freed] lists the pages whose entries were removed, once per entry. *)
Record surgered (es : list (BlockRef * Z)) (m m' : gmap string (list Z)) (freed : list Z) : Prop := {
  su_count : ∀ b, b ≠ null_block → total_occ b m' + occ b freed = total_occ b m;
  su_freed : ∀ b, b ∈ freed → b = null_block ∨ ∃ k l, m !! k = Some l ∧ b ∈ l;
  su_entries : ∀ k l, m !! k = Some l → ∃ l', m' !! k = Some l' ∧ length l' = length l ∧
    ∀ (i : nat) x, l !! i = Some x →
      (l' !! i = Some x ∨ (l' !! i = Some null_block ∧ (mkRef k (Z.of_nat i), x) ∈ es));
  su_dom : ∀ k, is_Some (m' !! k) → is_Some (m !! k);
  su_null : ∀ k l (i : nat) g, m !! k = Some l → l !! i = Some g → (mkRef k (Z.of_nat i), g) ∈ es →
    ∃ l', m' !! k = Some l' ∧ l' !! i = Some null_block;
}.

(** One entry that still points at the page. *)
Lemma surgery_hit ref g acc s m l :
  s_tables s = Some m → 0 ≤ block_idx ref → m !! request_id ref = Some l →
  l !! Z.to_nat (block_idx ref) = Some g → 0 ≤ g < num_gpu_blocks (s_gpu s) →
  ∃ tbl ev, surgery_step (ref, g) acc s =
    (Ok (acc.1 ++ [g], ev),
     set_table tbl (set_tables (Some (<[request_id ref := <[Z.to_nat (block_idx ref) := null_block]> l]> m)) s)) ∧
    (∀ x, x ∈ ev ↔ x ∈ acc.2 ∨ (x = g ∧ block_hash (blk (s_gpu s) g) ≠ None)).
Proof.
  intros Ht Hi Hl Hg Hr. pose proof (lookup_lt_Some _ _ _ Hg) as Hlt.
  unfold surgery_step. run_step. rewrite Ht. simpl. rewrite Hl.
  replace (zlen l <=? block_idx ref) with false by (unfold zlen; lia).
  erewrite bind_ok by (unfold lift; by rewrite (proj2 (py_index_Ok l (block_idx ref) g Hi) Hg)).
  rewrite Z.eqb_refl. cbn [negb].
  assert (∀ l0 : list Z, block_idx ref < zlen l0 → py_set_index l0 (block_idx ref) null_block =
    Ok (<[Z.to_nat (block_idx ref) := null_block]> l0)) as Hset.
  { intros l0 H0. unfold py_set_index. replace (block_idx ref <? 0) with false by lia.
    replace (block_idx ref <? 0) with false by lia. by replace (zlen l0 <=? block_idx ref) with false by lia. }
  erewrite bind_ok by (unfold lift; rewrite Hset by (unfold zlen; lia); done).
  run_step. set (mirror := default [] _).
  set (s1 := set_tables _ s).
  assert (∃ tbl, (if block_idx ref <? zlen mirror
     then let! mirror' := lift (py_set_index mirror (block_idx ref) null_block)
          in modify (set_table (<[request_id ref := mirror']> (_req_block_table s)))
     else ret tt) s1 = (Ok tt, set_table tbl s1)) as [tbl Htbl].
  { destruct (block_idx ref <? zlen mirror) eqn:E.
    - erewrite bind_ok by (unfold lift; rewrite Hset by lia; done). by eexists.
    - exists (_req_block_table s1). by destruct s. }
  erewrite bind_ok by exact Htbl. cbn beta.
  erewrite bind_ok.
  2: { unfold lift, block_at. replace (g <? 0) with false by lia.
       rewrite (proj2 (andb_true_iff _ _)); [done|]. split; [apply Z.leb_le|apply Z.ltb_lt]; lia. }
  cbn beta. eexists tbl, _. split; [done|]. intros x.
  destruct (block_hash (blk (s_gpu s) g)) as [h|]; [|naive_solver].
  case_decide; [naive_solver|]. rewrite elem_of_app, list_elem_of_singleton. naive_solver.
Qed.

(** An entry that has gone or points elsewhere. *)
Lemma surgery_miss ref g acc s m :
  s_tables s = Some m → 0 ≤ block_idx ref →
  (∀ l, m !! request_id ref = Some l → l !! Z.to_nat (block_idx ref) ≠ Some g) →
  surgery_step (ref, g) acc s = (Ok acc, s).
Proof.
  intros Ht Hi Hm. unfold surgery_step. run_step. rewrite Ht. simpl.
  destruct (m !! request_id ref) as [l|] eqn:Hl; [|done]. specialize (Hm l eq_refl).
  destruct (zlen l <=? block_idx ref) eqn:E; [done|].
  destruct (lookup_lt_is_Some_2 l (Z.to_nat (block_idx ref))) as [x Hx]; [unfold zlen in E; lia|].
  erewrite bind_ok by (unfold lift; by rewrite (proj2 (py_index_Ok l (block_idx ref) x Hi) Hx)).
  replace (x =? g) with false; [done|]. symmetry. apply Z.eqb_neq. congruence.
Qed.

Lemma surgered_nil m : surgered [] m m [].
Proof.
  split; try done.
  - intros b _. change (occ b []) with 0. lia.
  - set_solver.
  - intros k l Hk. exists l. split; [done|]. split; [done|]. by left.
  - set_solver.
Qed.

Lemma surgered_miss ref g es m m' freed :
  0 ≤ block_idx ref →
  (∀ l, m !! request_id ref = Some l → l !! Z.to_nat (block_idx ref) ≠ Some g) →
  surgered es m m' freed → surgered ((ref, g) :: es) m m' freed.
Proof.
  intros Hi Hno [H1 H2 H3 H4 H5]. split; try done.
  - intros k l Hk. destruct (H3 k l Hk) as (l' & ? & ? & Hent). exists l'. split; [done|]. split; [done|].
    intros i x Hx. destruct (Hent i x Hx) as [|[? ?]]; [by left|right]. split; [done|set_solver].
  - intros k l i g' Hk Hg [Heq|Hin]%elem_of_cons; [|by eapply H5].
    exfalso. injection Heq as <- <-. simpl in *. apply (Hno l Hk). by rewrite Nat2Z.id.
Qed.

Lemma surgered_hit ref g es m m' freed l :
  0 ≤ block_idx ref → m !! request_id ref = Some l → l !! Z.to_nat (block_idx ref) = Some g →
  surgered es (<[request_id ref := <[Z.to_nat (block_idx ref) := null_block]> l]> m) m' freed →
  surgered ((ref, g) :: es) m m' (g :: freed).
Proof.
  set (j := Z.to_nat (block_idx ref)). set (k0 := request_id ref).
  intros Hi Hl Hg [H1 H2 H3 H4 H5].
  assert (∀ k l0, m !! k = Some l0 → k = k0 ∧ l0 = l ∨ k ≠ k0) as Hk0.
  { intros k l0 Hk. destruct (decide (k = k0)) as [->|]; [|by right]. left. by simplify_eq. }
  assert (ref = mkRef k0 (Z.of_nat j)) as Href.
  { destruct ref. unfold j, k0. simpl in *. f_equal. lia. }
  clearbody j k0. split.
  - intros b Hb. specialize (H1 b Hb). rewrite (total_occ_insert b m k0 l) in H1 by done.
    rewrite (occ_set b l j g) in H1 by done. rewrite occ_cons.
    destruct (decide (null_block = b)); [by subst|]. lia.
  - intros b [->|Hb]%elem_of_cons.
    + right. exists k0, l. split; [done|]. by eapply list_elem_of_lookup_2.
    + destruct (H2 b Hb) as [?|(k & l0 & Hk & Hin)]; [by left|].
      destruct (decide (k = k0)) as [->|Hne].
      * rewrite lookup_insert_eq in Hk. injection Hk as <-.
        apply list_elem_of_lookup in Hin as [i Hin].
        apply list_lookup_insert_Some in Hin as [(_ & <- & _)|[_ Hin]]; [by left|].
        right. exists k0, l. split; [done|]. by eapply list_elem_of_lookup_2.
      * rewrite lookup_insert_ne in Hk by done. right. by exists k, l0.
  - intros k l0 Hk. destruct (Hk0 k l0 Hk) as [[-> ->]|Hne].
    + destruct (H3 k0 (<[j:=null_block]> l)) as (l' & Hl' & Hlen & Hent); [apply lookup_insert_eq|].
      exists l'. split; [done|]. rewrite length_insert in Hlen. split; [done|]. intros i x Hx.
      destruct (decide (i = j)) as [->|Hij].
      * rewrite Hg in Hx. injection Hx as <-.
        destruct (Hent j null_block) as [?|[? _]];
          [apply list_lookup_insert_eq; by eapply lookup_lt_Some| |];
          right; (split; [done|]); rewrite Href; set_solver.
      * destruct (Hent i x) as [?|[? ?]]; [by rewrite list_lookup_insert_ne|by left|right].
        split; [done|set_solver].
    + destruct (H3 k l0) as (l' & Hl' & Hlen & Hent); [by rewrite lookup_insert_ne|].
      exists l'. split; [done|]. split; [done|]. intros i x Hx.
      destruct (Hent i x Hx) as [?|[? ?]]; [by left|right]. split; [done|set_solver].
  - intros k Hk. apply H4 in Hk. destruct (decide (k = k0)) as [->|Hne]; [by exists l|].
    by rewrite lookup_insert_ne in Hk.
  - intros k l0 i g' Hk Hgi Hin. destruct (Hk0 k l0 Hk) as [[-> ->]|Hne].
    + destruct (decide (i = j)) as [->|Hij].
      * destruct (H3 k0 (<[j:=null_block]> l)) as (l' & Hl' & _ & Hent); [apply lookup_insert_eq|].
        exists l'. split; [done|]. destruct (Hent j null_block) as [?|[? _]]; try done.
        apply list_lookup_insert_eq. by eapply lookup_lt_Some.
      * apply elem_of_cons in Hin as [Heq|Hin].
        { rewrite Href in Heq. injection Heq as ? _. lia. }
        apply (H5 k0 (<[j:=null_block]> l) i g'); [apply lookup_insert_eq| |done].
        by rewrite list_lookup_insert_ne.
    + apply elem_of_cons in Hin as [Heq|Hin]; [rewrite Href in Heq; by simplify_eq|].
      apply (H5 k l0 i g'); [by rewrite lookup_insert_ne|done|done].
Qed.

Lemma surgery_run es acc s m :
  s_tables s = Some m → valid_tables m (s_gpu s) → 0 < num_gpu_blocks (s_gpu s) →
  Forall (λ e, 0 ≤ block_idx e.1) es →
  ∃ m' tbl freed ev, surgery es acc s =
      (Ok (acc.1 ++ freed, ev), set_table tbl (set_tables (Some m') s)) ∧
    surgered es m m' freed ∧
    (∀ x, x ∈ ev ↔ x ∈ acc.2 ∨ (x ∈ freed ∧ block_hash (blk (s_gpu s) x) ≠ None)).
Proof.
  revert acc s m. induction es as [|[ref g] es IH]; intros [f0 e0] s m Ht Hv Hn Hes; cbn [surgery].
  { exists m, (_req_block_table s), [], e0. rewrite app_nil_r.
    split; [destruct s; simpl in *; by subst|]. split; [apply surgered_nil|]. set_solver. }
  apply Forall_cons in Hes as [Hi Hes]. simpl in Hi.
  destruct (decide ((m !! request_id ref ≫= λ l, l !! Z.to_nat (block_idx ref)) = Some g))
    as [(l & Hl & Hg)%bind_Some|Hno].
  - assert (0 ≤ g < num_gpu_blocks (s_gpu s)) as Hgr.
    { eapply Hv; [done|]. by eapply list_elem_of_lookup_2. }
    destruct (surgery_hit ref g (f0, e0) s m l Ht Hi Hl Hg Hgr) as (tbl & ev & Hrun & Hev).
    erewrite bind_ok by exact Hrun. cbn beta.
    set (m1 := <[request_id ref := _]> m). set (s1 := set_table tbl (set_tables (Some m1) s)).
    destruct (IH (f0 ++ [g], ev) s1 m1) as (m' & tbl' & freed & ev' & Hrun' & Hsu & Hev'); [done| |done|done|].
    { intros k l0 b. unfold m1. destruct (decide (k = request_id ref)) as [->|Hne].
      - rewrite lookup_insert_eq. intros [= <-] Hb. apply list_elem_of_lookup in Hb as [i Hb].
        apply list_lookup_insert_Some in Hb as [(_ & <- & _)|[_ Hb]]; [unfold null_block; simpl; lia|].
        eapply Hv; [done|]. by eapply list_elem_of_lookup_2.
      - rewrite lookup_insert_ne by done. apply Hv. }
    exists m', tbl', (g :: freed), ev'. split; [|split].
    + etrans; [exact Hrun'|]. simpl. by rewrite <-(assoc_L app).
    + by eapply surgered_hit.
    + intros x. simpl in Hev'. rewrite Hev'. simpl in Hev. rewrite Hev. rewrite elem_of_cons.
      change (s_gpu s1) with (s_gpu s). naive_solver.
  - assert (∀ l, m !! request_id ref = Some l → l !! Z.to_nat (block_idx ref) ≠ Some g) as Hno'
      by (intros l Hl Hg; apply Hno; by rewrite Hl).
    erewrite bind_ok by (by apply (surgery_miss ref g _ s m)). cbn beta.
    destruct (IH (f0, e0) s m) as (m' & tbl' & freed & ev' & Hrun' & Hsu & Hev'); [done..|].
    exists m', tbl', freed, ev'. split; [done|]. split; [by apply surgered_miss|done].
Qed.
End Surgery.

(** ** The CPU pool *)
Lemma register_cpu_run b p l :
  pool_inv p l → is_Some (refs p !! b) →
  ∃ p', register_cpu b p = (Ok tt, p') ∧ keeps p l p' ∧ num_gpu_blocks p' = num_gpu_blocks p.
Proof.
  intros Hinv Hb. pose proof Hinv as (_ & _ & Hok & Hown). unfold register_cpu. run_step.
  assert (∃ h, hashes p !! b = Some h) as [h Hh] by by apply hashes_dom.
  rewrite (blk_hash _ _ _ Hh).
  destruct h as [[|x h]|]; try (exists p; split; [done|]; split; [by apply keeps_refl|done]).
  eexists. split; [done|]. split; [|done]. split; [|done].
  eapply pool_inv_same_alloc; [done|done|]. split; [by apply cache_ok_insert|].
  simpl. intros key y. rewrite cached_ids_insert.
  destruct (decide (x :: h = key)) as [<-|Hne]; [|by apply Hown].
  rewrite elem_of_add_id. intros [->|Hy]; [by left|by apply Hown].
Qed.

Lemma register_all_run ids p0 p l :
  pool_inv p l → num_gpu_blocks p0 = num_gpu_blocks p →
  Forall (λ i, 0 ≤ i < num_gpu_blocks p) ids →
  ∃ p', mfor ids (λ i, let! b := lift (block_at p0 i) in register_cpu b) p = (Ok tt, p') ∧
        keeps p l p'.
Proof.
  revert p. induction ids as [|i ids IH]; intros p Hinv Hn Hids.
  { exists p. split; [done|]. by apply keeps_refl. }
  apply Forall_cons in Hids as [Hi Hids].
  destruct (register_cpu_run i p l Hinv) as (p1 & Hrun & Hk1 & Hn1).
  { apply (ro_dom _ _ _ (proj1 (proj2 Hinv))). done. }
  destruct (IH p1) as (p2 & Hrun2 & Hk2); [apply Hk1|congruence|by rewrite Hn1|].
  exists p2. split; [|by eapply keeps_trans]. erewrite mfor_cons; [exact Hrun2|].
  erewrite bind_ok; [exact Hrun|]. unfold lift. by rewrite block_at_valid by (rewrite Hn; done).
Qed.

Lemma release_cpu_run ids p l :
  pool_inv p l → releasable (refs p) ids →
  ∃ l' p', release_cpu ids p = (Ok tt, p') ∧ pool_inv p' l' ∧ refs p' = drop_refs ids (refs p) ∧
    num_gpu_blocks p' = num_gpu_blocks p.
Proof.
  intros Hinv Hrel. pose proof (releasable_dom p l ids Hinv Hrel) as Hids.
  unfold release_cpu. run_step.
  destruct (register_all_run ids p p l Hinv eq_refl Hids) as (p1 & Hrun & Hi1 & (Hn1 & _ & Hr1 & _)).
  erewrite bind_ok by exact Hrun. cbn beta.
  erewrite bind_ok by (by apply mmap_block_at).
  destruct (free_blocks_run ids l p1 Hi1) as (fs & ls & p2 & Hrun2 & Hi2 & Hn2 & _ & _ & Hr2 & _);
    [by rewrite Hr1|].
  exists (fs ++ l ++ ls), p2. split; [done|]. split; [done|]. split; [by rewrite Hr2, Hr1|congruence].
Qed.

(** ** The GPU pool *)

(** Evicting and freeing what the surgery removed from the tables. *)
Lemma free_surgered p l m m' es freed ev :
  pool_inv p l → valid_tables m p → held m p → surgered es m m' freed →
  (∀ x, x ∈ ev → x ∈ freed) →
  ∃ p' l', ((when negb (bool_decide (ev = [])) do evict_blocks ev) >>
            when negb (bool_decide (freed = [])) do free_blocks freed) p = (Ok tt, p') ∧
    pool_inv p' l' ∧ num_gpu_blocks p' = num_gpu_blocks p ∧
    refs p' = drop_refs freed (refs p) ∧ held m' p' ∧ valid_tables m' p' ∧
    (∀ key x, x ∈ cached_ids (cached_block_hash_to_block p') key ↔
              x ∈ cached_ids (cached_block_hash_to_block p) key ∧ x ∉ ev).
Proof.
  intros Hinv Hv Hh Hsu Hev. pose proof Hinv as (_ & Hr & _).
  assert (Forall (λ i, 0 ≤ i < num_gpu_blocks p) freed) as Hfd.
  { apply Forall_forall. intros b Hb. destruct (su_freed _ _ _ _ Hsu b Hb) as [->|(k & l0 & Hk & Hin)].
    - unfold null_block. pose proof (ro_pos _ _ _ Hr). lia.
    - by eapply Hv. }
  assert (releasable (refs p) freed) as Hrel.
  { intros b Hb. rewrite Forall_forall in Hfd.
    destruct (proj2 (ro_dom _ _ _ Hr b) (Hfd b Hb)) as [[r nul] Hb'].
    exists r, nul. split; [done|]. destruct (decide (b = null_block)) as [->|Hne].
    - left. by apply (ro_null _ _ _ Hr null_block r nul Hb').
    - right. pose proof (su_count _ _ _ _ Hsu b Hne). pose proof (Hh b r nul Hne Hb').
      pose proof (total_occ_nonneg b m'). lia. }
  destruct (evict_blocks_run ev p l Hinv) as (p1 & Hrun1 & [Hi1 (Hn1 & _ & Hr1 & _)] & Hids1).
  { apply Forall_forall. intros x Hx. rewrite Forall_forall in Hfd. auto. }
  destruct (free_blocks_run freed l p1 Hi1) as (fs & ls & p2 & Hrun2 & Hi2 & Hn2 & _ & (_ & Hc2 & _) & Hr2 & _);
    [by rewrite Hr1|].
  assert (∃ l', ((when negb (bool_decide (ev = [])) do evict_blocks ev) >>
            when negb (bool_decide (freed = [])) do free_blocks freed) p =
            (Ok tt, if decide (freed = []) then p1 else p2) ∧
            pool_inv (if decide (freed = []) then p1 else p2) l') as (l' & Hrun & Hl').
  { assert ((when negb (bool_decide (ev = [])) do evict_blocks ev) p = (Ok tt, p1)) as Hw.
    { case_bool_decide as He; [|done]. subst ev. simpl. by rewrite <-Hrun1. }
    erewrite bind_ok by exact Hw. cbn beta.
    case_decide as Hf; [rewrite bool_decide_eq_true_2 by done|rewrite bool_decide_eq_false_2 by done].
    - exists l. done.
    - exists (fs ++ l ++ ls). done. }
  eexists _, l'. split; [exact Hrun|]. split; [done|].
  assert (refs (if decide (freed = []) then p1 else p2) = drop_refs freed (refs p)) as Hrefs.
  { case_decide; [subst; by rewrite Hr1|by rewrite Hr2, Hr1]. }
  split; [case_decide; congruence|]. split; [done|]. split; [|split].
  - intros b r nul Hne. rewrite Hrefs, drop_refs_lookup.
    destruct (refs p !! b) as [[r0 nul0]|] eqn:Eb; [|done]. simpl. intros [= <- <-].
    pose proof (su_count _ _ _ _ Hsu b Hne). pose proof (Hh b r0 nul0 Hne Eb). lia.
  - assert (num_gpu_blocks (if decide (freed = []) then p1 else p2) = num_gpu_blocks p) as Hnum
      by (case_decide; congruence).
    intros k l0 b Hk Hb. rewrite Hnum. destruct (su_dom _ _ _ _ Hsu k) as [l1 Hl1]; [by exists l0|].
    destruct (su_entries _ _ _ _ Hsu k l1 Hl1) as (l2 & Hl2 & Hlen & Hent). simplify_eq.
    apply list_elem_of_lookup in Hb as [i Hi].
    destruct (lookup_lt_is_Some_2 l1 i) as [x Hx]; [rewrite <-Hlen; by eapply lookup_lt_Some|].
    destruct (Hent i x Hx) as [Hi'|[Hi' _]]; rewrite Hi' in Hi; injection Hi as <-.
    + eapply Hv; [done|]. by eapply list_elem_of_lookup_2.
    + unfold null_block. pose proof (ro_pos _ _ _ Hr). lia.
  - intros key x. case_decide; [apply Hids1|]. rewrite Hc2. apply Hids1.
Qed.

(** ** The invariant of the connector's pools and events *)
Section Completion.
Context {S : Type}.
Implicit Types s : sched S.

(** The CPU blocks of batches that wait for a flush or a completion. *)
Definition inflight s : list Z :=
  mjoin (b_cpu <$> _step_store_acc s) ++ mjoin (b_cpu <$> (map_to_list (_pending_store_events s)).*2).

Definition batch_ok (p : pool) (b : batch) : Prop :=
  Forall (λ g, 0 ≤ g < num_gpu_blocks p) (b_gpu b) ∧ Forall (λ r, 0 ≤ block_idx r) (b_refs b).

Record sched_ok s : Prop := {
  so_gpu : ∃ l, pool_inv (s_gpu s) l;
  so_tables : ∀ m, s_tables s = Some m → valid_tables m (s_gpu s) ∧ held m (s_gpu s);
  so_cpu : ∃ l, pool_inv (s_cpu s) l;
  (** each in-flight CPU block holds a reference of its own *)
  so_inflight : releasable (refs (s_cpu s)) (inflight s);
  so_acc : Forall (batch_ok (s_gpu s)) (_step_store_acc s);
  so_pending : ∀ k b, _pending_store_events s !! k = Some b → batch_ok (s_gpu s) b;
}.

Lemma result_mapM_block_at p ids :
  Forall (λ i, 0 ≤ i < num_gpu_blocks p) ids → result_mapM (block_at p) ids = Ok ids.
Proof.
  induction 1 as [|i ids Hi _ IH]; [done|]. simpl. rewrite block_at_valid by done. simpl. by rewrite IH.
Qed.

Lemma inflight_delete s k b :
  _pending_store_events s !! k = Some b →
  inflight s ≡ₚ b_cpu b ++ mjoin (b_cpu <$> _step_store_acc s) ++
    mjoin (b_cpu <$> (map_to_list (delete k (_pending_store_events s))).*2).
Proof.
  intros Hk. unfold inflight. rewrite <-(map_to_list_delete _ _ _ Hk). csimpl.
  rewrite !(assoc_L app). by rewrite (comm app (mjoin _) (b_cpu b)).
Qed.

(** After the event's CPU blocks are released, before the surgery. *)
Lemma release_event_run s k b :
  sched_ok s → _pending_store_events s !! k = Some b →
  ∃ p', release_cpu (b_cpu b) (s_cpu s) = (Ok tt, p') ∧
    sched_ok (set_cpu p' (set_pending (_store_event_counter s) (delete k (_pending_store_events s)) s)) ∧
    refs p' = drop_refs (b_cpu b) (refs (s_cpu s)).
Proof.
  intros Hok Hk. destruct (so_cpu _ Hok) as [l Hl].
  pose proof (releasable_perm _ _ _ (inflight_delete s k b Hk) (so_inflight _ Hok)) as Hrel.
  apply releasable_app in Hrel as [Hrel Hrest].
  destruct (release_cpu_run (b_cpu b) (s_cpu s) l Hl Hrel) as (l' & p' & Hrun & Hi & Hr & Hn).
  exists p'. split; [done|]. split; [|done]. destruct Hok as [H1 H2 H3 H4 H5 H6]. split; simpl; try done.
  - by exists l'.
  - by rewrite Hr.
  - intros k' b' [_ Hk']%lookup_delete_Some. by eapply H6.
Qed.

(** The outcome of a completion: with true freeing, the surgery and the frees. *)
Record completed_event (b : batch) s s' : Prop := {
  ce_ok : sched_ok s';
  ce_orch : s_orch s' = s_orch s;
  ce_cpu : refs (s_cpu s') = drop_refs (b_cpu b) (refs (s_cpu s));
  ce_gpu :
    if s_bound s && _true_free_enabled s && bool_decide (is_Some (s_tables s)) then
      ∃ m m' freed, s_tables s = Some m ∧ s_tables s' = Some m' ∧
        surgered (zip (b_refs b) (b_gpu b)) m m' freed ∧
        refs (s_gpu s') = drop_refs freed (refs (s_gpu s)) ∧
        (∀ g key, g ∈ freed → block_hash (blk (s_gpu s) g) ≠ None →
           g ∉ cached_ids (cached_block_hash_to_block (s_gpu s')) key)
    else s_gpu s' = s_gpu s ∧ s_tables s' = s_tables s;
}.

Lemma completion_run s k b :
  sched_ok s → _pending_store_events s !! k = Some b →
  ∃ s', _process_store_completion k s = (Ok tt, s') ∧ completed_event b s s' ∧
    _pending_store_events s' = delete k (_pending_store_events s).
Proof.
  intros Hok Hk. unfold _process_store_completion. run_step. rewrite Hk. run_step.
  destruct (release_event_run s k b Hok Hk) as (p' & Hrun & Hok1 & Hr1).
  set (s1 := set_pending _ _ s) in *.
  erewrite bind_ok by (apply (zoom_ok s_cpu set_cpu); exact Hrun). cbn beta. run_step.
  set (s2 := set_cpu p' s1) in *. change (s_bound s2) with (s_bound s).
  destruct (so_pending _ Hok k b Hk) as [Hg Hrefs].
  destruct (s_bound s) eqn:Hb; cbn [negb]; [|exists s2; split; [done|]; split; [|done]; split; try done; by rewrite Hb].
  erewrite bind_ok by (unfold lift; by rewrite result_mapM_block_at).
  change (_true_free_enabled s2) with (_true_free_enabled s).
  destruct (_true_free_enabled s) eqn:Ht; cbn [negb].
  2: { exists s2. split; [done|]. split; [|done]. split; try done. by rewrite Ht, andb_false_r. }
  change (s_tables s2) with (s_tables s).
  destruct (s_tables s) as [m|] eqn:Hm.
  2: { exists s2. split; [done|]. split; [|done]. split; try done. by rewrite Hm, andb_false_r. }
  rewrite bool_decide_eq_false_2 by done.
  destruct (so_tables _ Hok m Hm) as [Hv Hh]. destruct (so_gpu _ Hok) as [l Hl].
  destruct (surgery_run (zip (b_refs b) (b_gpu b)) ([], []) s2 m) as (m' & tbl & freed & ev & Hrun2 & Hsu & Hev);
    [done|done|apply (ro_pos _ _ _ (proj1 (proj2 Hl)))| |].
  { apply Forall_forall. intros [r g] Hin. apply elem_of_zip_l in Hin. rewrite Forall_forall in Hrefs. auto. }
  erewrite bind_ok by exact Hrun2. cbn beta. simpl app.
  set (s3 := set_table tbl (set_tables (Some m') s2)).
  destruct (free_surgered (s_gpu s) l m m' _ freed ev Hl Hv Hh Hsu)
    as (p2 & l2 & Hrun3 & Hl2 & Hn2 & Hr2 & Hh2 & Hv2 & Hc2); [intros x Hx%Hev; set_solver|].
  exists (set_gpu p2 s3). split; [|split; [split|done]].
  - assert (on_gpu ((when negb (bool_decide (ev = [])) do evict_blocks ev) >>
              when negb (bool_decide (freed = [])) do free_blocks freed) s3 = (Ok tt, set_gpu p2 s3)) as Hz
      by by apply zoom_ok.
    rewrite <-Hz. simpl. unfold on_gpu, zoom, bind.
    destruct (bool_decide (ev = [])), (bool_decide (freed = [])); simpl; try done.
    + by destruct (evict_blocks ev (s_gpu s)) as [[]?].
    + destruct (evict_blocks ev (s_gpu s)) as [[]?]; [|done]. simpl.
      by destruct (free_blocks freed p).
  - destruct Hok1 as [H1 H2 H3 H4 H5 H6]. split; simpl; try done.
    + by exists l2.
    + by intros ? [= <-].
    + eapply Forall_impl; [exact H5|]. intros x [? ?]. split; [|done]. by rewrite Hn2.
    + intros k' b' Hb'. destruct (H6 k' b' Hb') as [? ?]. split; [|done]. by rewrite Hn2.
  - done.
  - done.
  - rewrite Hb, Ht, Hm. simpl. exists m, m', freed. split_and!; try done.
    intros g key Hgf Hhash Hin. apply Hc2 in Hin as [_ Hn]. apply Hn, Hev. right. done.
Qed.
End Completion.

(** ** The offload trigger *)
Section Trigger.
Context {S : Type} `{LawfulScorer S} (np n : Z) (T : torch_ops).
Context (fused : list kv_layer → list Z → option (list (list (list f64)) * list (list (list f64)))).
Context (Hfused : fused_ok T fused).
Implicit Types s : sched S.

(** The block's page has exactly one owner. *)
Definition sole_owner (p : pool) (t : table) (r : BlockRef) : bool :=
  match loc_of t r ≫= gpu_block_id with
  | Some g => ref_cnt (blk p g) =? 1
  | None => false
  end.

Lemma sole_owned_run p t refs :
  (∀ r g, r ∈ refs → loc_of t r ≫= gpu_block_id = Some g → 0 ≤ g < num_gpu_blocks p) →
  sole_owned p t refs = Ok (filter (λ r, sole_owner p t r = true) refs).
Proof.
  induction refs as [|r refs IH]; intros Hr; [done|]. rewrite filter_cons. simpl.
  rewrite IH by (intros; eapply Hr; [|done]; set_solver).
  destruct (sole_owner p t r) eqn:Es; [rewrite decide_True by done|rewrite decide_False by done];
    unfold sole_owner in Es; destruct (loc_of t r ≫= gpu_block_id) as [g|] eqn:E; try done.
  all: rewrite block_at_valid by (eapply Hr; [|done]; set_solver); simpl; by rewrite Es.
Qed.

(** The candidates of a trigger. *)
Definition candidates s : list BlockRef :=
  let all := all_gpu_blocks true (o_table (s_orch s)) in
  if _true_free_enabled s then filter (λ r, sole_owner (s_gpu s) (o_table (s_orch s)) r = true) all
  else all.

Definition system_ok s : Prop :=
  sched_ok s ∧ orch_inv np n (s_orch s) ∧ num_gpu_blocks (s_gpu s) = np ∧
  enable_caching (s_cpu s) = true ∧ 0 ≤ cfg_fraction s < f64_one ∧
  zlen (_blocks (o_table (s_orch s))) < 2 ^ 52.

Lemma candidates_spec s :
  orch_inv np n (s_orch s) → NoDup (candidates s) ∧
  zlen (candidates s) ≤ zlen (_blocks (o_table (s_orch s))) ∧
  ∀ r, r ∈ candidates s → ∃ l g, s_loc s r = Some l ∧ residency l = GPU ∧ complete l = true ∧
    gpu_block_id l = Some g ∧ 0 ≤ g < np ∧ (_true_free_enabled s = true → ref_cnt (blk (s_gpu s) g) = 1).
Proof.
  intros Hinv.
  assert (table_ok (o_table (s_orch s))) as Htok by exact (ts_ok _ _ _ _ (si_om _ _ _ (oi_sp _ _ _ Hinv))).
  destruct (all_gpu_blocks_spec _ true Htok) as (_ & Hnd & Hspec).
  pose proof (all_gpu_length _ Htok) as Hlen.
  assert (∀ r, r ∈ all_gpu_blocks true (o_table (s_orch s)) → ∃ l g, s_loc s r = Some l ∧
    residency l = GPU ∧ complete l = true ∧ gpu_block_id l = Some g ∧ 0 ≤ g < np) as Hall.
  { intros r Hr. apply Hspec in Hr as (l & Hl & Hg & Hc).
    destruct (to_loc _ Htok r l Hl) as [[g Hid] _]. exists l, g. split_and!; try done; [by apply Hc|..];
      by eapply (oi_gpu _ _ _ Hinv r l g). }
  unfold candidates. destruct (_true_free_enabled s).
  - split; [by apply NoDup_filter|]. split.
    { etrans; [|exact Hlen]. unfold zlen. apply inj_le. apply submseteq_length, NoDup_submseteq;
        [by apply NoDup_filter|]. by intros r [_ ?]%list_elem_of_filter. }
    intros r [Hs Hr]%list_elem_of_filter. destruct (Hall r Hr) as (l & g & Hl & Hg & Hc & Hid & Hb).
    exists l, g. split_and!; try done; try lia. intros _. unfold sole_owner in Hs.
    change (loc_of (o_table (s_orch s)) r) with (s_loc s r) in Hs. rewrite Hl in Hs. simpl in Hs.
    rewrite Hid in Hs. lia.
  - split; [done|]. split; [done|]. intros r Hr. destruct (Hall r Hr) as (l & g & ?). naive_solver.
Qed.

Lemma allowed_run s :
  orch_inv np n (s_orch s) → num_gpu_blocks (s_gpu s) = np →
  (if _true_free_enabled s
   then sole_owned (s_gpu s) (o_table (s_orch s)) (all_gpu_blocks true (o_table (s_orch s)))
   else Ok (all_gpu_blocks true (o_table (s_orch s)))) = Ok (candidates s).
Proof.
  intros Hinv Hn. unfold candidates. destruct (_true_free_enabled s); [|done].
  apply sole_owned_run. rewrite Hn.
  assert (table_ok (o_table (s_orch s))) as Htok by exact (ts_ok _ _ _ _ (si_om _ _ _ (oi_sp _ _ _ Hinv))).
  intros r g Hr Hg. apply (all_gpu_blocks_spec _ true Htok) in Hr as (l & Hl & Hgpu & _).
  rewrite Hl in Hg. by eapply (oi_gpu _ _ _ Hinv r l g).
Qed.

(** The candidates with their pages. *)
Definition paged s : list (BlockRef * Z) := omap (with_page (o_table (s_orch s))) (candidates s).

Lemma paged_spec s :
  orch_inv np n (s_orch s) → (paged s).*1 = candidates s ∧
  ∀ e, e ∈ paged s → e.1 ∈ candidates s ∧ is_warmup e.1 = false ∧ 0 ≤ e.2 < np ∧
    ∃ l, s_loc s e.1 = Some l ∧ complete l = true.
Proof.
  intros Hinv. destruct (candidates_spec s Hinv) as (_ & _ & Hc). unfold paged.
  generalize (candidates s), Hc. clear Hc. intros cs Hc. induction cs as [|r cs IH].
  { split; [done|]. set_solver. }
  destruct (Hc r) as (l & g & Hl & _ & Hcl & Hid & Hb & _); [set_solver|].
  destruct IH as [IH1 IH2]; [intros; apply Hc; set_solver|].
  assert (with_page (o_table (s_orch s)) r = Some (r, g)) as Hw.
  { unfold with_page. change (loc_of (o_table (s_orch s)) r) with (s_loc s r). rewrite Hl. simpl.
    by rewrite Hid. }
  csimpl. rewrite !Hw. csimpl. split; [by f_equal|].
  intros e [->|He]%elem_of_cons.
  - simpl. split; [set_solver|]. split; [apply (oi_warmup _ _ _ Hinv); by exists l|]. split; [done|].
    by exists l.
  - destruct (IH2 e He) as (? & ? & ? & ?). split; [set_solver|]. done.
Qed.

Lemma mark_complete_sched (items : list (BlockRef * Z)) s :
  (∀ e, e ∈ items → ∃ l, s_loc s e.1 = Some l ∧ complete l = true) →
  mfor items (λ e, on_orch (on_table (mark_complete e.1))) s = (Ok tt, s).
Proof.
  induction items as [|e items IH]; intros Hit; [done|].
  rewrite (mfor_cons _ _ _ _ s); [apply IH; set_solver|].
  destruct (Hit e) as (l & Hl & Hc); [set_solver|].
  unfold on_orch, zoom. rewrite (on_table_ok _ (s_orch s) tt (o_table (s_orch s)));
    [|by eapply mark_complete_noop].
  rewrite put_o_same. by destruct s.
Qed.

(** Re-scoring: every candidate ends up scored, no block moves. *)
Lemma rescore_run s :
  orch_inv np n (s_orch s) →
  ∃ o1, (if bool_decide (paged s = []) then ret tt
     else
       mfor (paged s) (λ e, on_orch (on_table (mark_complete e.1))) >>
       on_orch (on_manager (score_blocks T fused (paged s).*1 (paged s).*2)) >>
       on_orch (modify (λ o, with_oscored (list_to_set (paged s).*1 ∪ _scored o) o))) s
     = (Ok tt, set_orch o1 s) ∧
    orch_inv np n o1 ∧ (∀ r, o_loc o1 r = s_loc s r) ∧ o_table o1 = o_table (s_orch s) ∧
    _cpu_free (o_om o1) = _cpu_free (o_om (s_orch s)) ∧
    ∀ r, r ∈ candidates s → r ∈ _scored o1.
Proof.
  intros Hinv. destruct (paged_spec s Hinv) as [Hfst Hpg].
  case_bool_decide as Hnil.
  { exists (s_orch s). split; [by destruct s|]. split_and!; try done. rewrite <-Hfst, Hnil. set_solver. }
  destruct (score_all_run np n T fused Hfused (paged s) (s_orch s)) as (sc & Hrun & Hsok & Hsc);
    [apply Hinv|apply Hinv|intros e He; destruct (Hpg e He) as (_ & ? & ? & _); done|].
  unfold score_all in Hrun. rewrite bool_decide_eq_false_2 in Hrun by done.
  erewrite bind_ok by (apply mark_complete_sched; intros e He; by apply Hpg).
  erewrite bind_ok by (apply (zoom_ok s_orch set_orch); exact Hrun). cbn beta.
  set (o1 := with_oscored (list_to_set (paged s).*1 ∪ _scored (s_orch s)) (put_scorer sc (s_orch s))).
  exists o1. split; [done|].
  assert (rearranged np n (s_orch s) o1) as Hra.
  { split; try done.
    - apply sp_inv_scorer. apply Hinv.
    - by apply (env_ok_same n np (o_pool (s_orch s))); [apply Hinv|..].
    - change (∀ r, r ∈ list_to_set (paged s).*1 ∪ _scored (s_orch s) → scored sc r).
      intros r. rewrite elem_of_union, elem_of_list_to_set, Hsc. intros [?|?]; [by right|left].
      by apply (oi_scored _ _ _ Hinv).
    - intros r l Hl Hg. by exists l.
    - change (∀ r, r ∈ list_to_set (paged s).*1 ∪ _scored (s_orch s) → is_Some (o_loc (s_orch s) r)).
      intros r [Hr%elem_of_list_to_set|Hr]%elem_of_union; [|by apply (oi_known _ _ _ Hinv)].
      apply list_elem_of_fmap in Hr as (e & -> & He). destruct (Hpg e He) as (_ & _ & _ & l & Hl & _).
      by exists l. }
  split; [by eapply rearranged_inv|]. split_and!; try done.
  intros r Hr. change (r ∈ list_to_set (paged s).*1 ∪ _scored (s_orch s)). rewrite Hfst. set_solver.
Qed.

Lemma eligible_all (o : orch S) cs :
  (∀ r, r ∈ cs → r ∈ _scored o ∧ ∃ l, o_loc o r = Some l ∧ residency l = GPU ∧ complete l = true) →
  eligible (o_om o) (_scored o) cs = cs.
Proof.
  intros Hcs. apply filter_id. intros r Hr. destruct (Hcs r Hr) as (? & l & Hl & Hg & Hc).
  split; [done|]. unfold is_gpu_complete. change (om_loc (o_om o) r) with (o_loc o r). rewrite Hl.
  by rewrite bool_decide_eq_true_2, Hc.
Qed.

(** Offloading among complete, scored GPU blocks. *)
Lemma offload_run io (o : orch S) cs fr :
  orch_inv np n o → NoDup cs → zlen cs < 2 ^ 52 → 0 ≤ fr < f64_one →
  (∀ r, r ∈ cs → r ∈ _scored o ∧ ∃ l, o_loc o r = Some l ∧ residency l = GPU ∧ complete l = true) →
  ∃ r o', on_manager (offload_fraction io cs fr (_scored o)) o = (Ok r, o') ∧ orch_inv np n o' ∧
    (∀ x, x ∈ r → x ∈ cs) ∧ NoDup r ∧ (r = [] ∨ zlen r = n_offload (zlen cs) fr) ∧
    (∀ x, x ∈ r → ∃ l l', o_loc o x = Some l ∧ o_loc o' x = Some l' ∧ residency l' = CPU ∧
       gpu_block_id l' = gpu_block_id l) ∧
    (∀ x, x ∉ r → o_loc o' x = o_loc o x).
Proof.
  intros Hinv Hnd Hlen Hfr Hcs. pose proof (si_om _ _ _ (oi_sp _ _ _ Hinv)) as Hom.
  pose proof (offload_fraction_wp n io cs fr (_scored o) (o_om o) Hom Hnd Hlen Hfr
    (oi_scored _ _ _ Hinv)) as Hwp.
  cbv zeta in Hwp. rewrite eligible_all in Hwp by done.
  unfold wp in Hwp. destruct (offload_fraction _ _ _ _ _) as [[r|e] m'] eqn:Hrun; [|done].
  exists r, (put_om m' o). split; [by apply on_manager_ok|].
  destruct Hwp as [(Hc & -> & ->)|(vs & s' & Hl & Hs & Hnv & Hsok & Hsc & Hid & Hr)].
  { assert (put_om (o_om o) o = o) as -> by (by destruct o as [? [] ?]).
    split; [done|]. split; [by intros x ?%elem_of_nil|]. split; [constructor|]. split; [by left|].
    split; [by intros x ?%elem_of_nil|done]. }
  specialize (Hsok (oi_sok _ _ _ Hinv)).
  destruct Hr as [(-> & Ho)|(-> & Hns & _)].
  - split; [eapply rearranged_inv; [done|]; eapply offloaded_rearranged; [done|done|done| |done]|].
    { intros x Hx%Hs. destruct (Hcs x Hx) as (_ & l & ? & ? & _). eauto. }
    split_and!; try done.
    + right. by rewrite <-Hl; unfold zlen; rewrite length_fmap.
    + intros x ([y g] & -> & Hin)%list_elem_of_fmap.
      destruct (of_victims _ _ _ _ Ho _ _ Hin) as (l & sl & Hl0 & _ & Hl' & _). eauto 10.
    + intros x Hx. by apply (of_others _ _ _ _ Ho).
  - destruct (not_stored_rearranged np n o s' m' Hinv Hsok Hsc Hns) as [Hra Hloc].
    split; [by eapply rearranged_inv|].
    split; [by intros x ?%elem_of_nil|]. split; [constructor|]. split; [by left|].
    split; [by intros x ?%elem_of_nil|done].
Qed.

(** Stamping hashes on fresh CPU blocks. *)
Lemma stamp_one b r s l :
  pool_inv (s_cpu s) l → (∀ key, b ∉ cached_ids (cached_block_hash_to_block (s_cpu s)) key) →
  (∀ g, s_loc s r ≫= gpu_block_id = Some g → 0 ≤ g < num_gpu_blocks (s_gpu s)) →
  ∃ p', stamp_hash (b, r) s = (Ok tt, set_cpu p' s) ∧ pool_inv p' l ∧ refs p' = refs (s_cpu s) ∧
    cached_block_hash_to_block p' = cached_block_hash_to_block (s_cpu s) ∧
    enable_caching p' = enable_caching (s_cpu s).
Proof.
  intros Hinv Hnc Hg. unfold stamp_hash. run_step. cbn [fst snd].
  assert (s = set_cpu (s_cpu s) s) as Hsame by by destruct s.
  destruct (s_loc s r ≫= gpu_block_id) as [g|]; [|exists (s_cpu s); by rewrite <-Hsame].
  specialize (Hg g eq_refl). erewrite bind_ok by (unfold lift; by rewrite block_at_valid).
  destruct (block_hash (blk (s_gpu s) g)) as [[|x h]|]; try (exists (s_cpu s); by rewrite <-Hsame).
  eexists. split; [done|].
  match goal with |- pool_inv ?q _ ∧ _ => set (p' := q) end.
  assert (refs p' = refs (s_cpu s)) as Hr.
  { unfold refs, p'. simpl. apply map_eq. intros i. rewrite !lookup_fmap, lookup_alter.
    destruct (decide (b = i)) as [->|]; [|done]. by destruct (blocks (s_cpu s) !! i). }
  split; [|done]. destruct Hinv as (Hq & Hro & Hok & Hown). split; [done|]. rewrite Hr.
  split; [done|]. split; [done|]. intros key y Hy. specialize (Hown key y Hy).
  assert (y ≠ b) as Hne by (intros ->; by apply (Hnc key)).
  unfold owns, hashes in *. unfold p'. simpl.
  rewrite !lookup_fmap, lookup_alter_ne in * by done. done.
Qed.

Lemma stamp_all es s l :
  pool_inv (s_cpu s) l →
  (∀ e key, e ∈ es → e.1 ∉ cached_ids (cached_block_hash_to_block (s_cpu s)) key) →
  (∀ e g, e ∈ es → s_loc s e.2 ≫= gpu_block_id = Some g → 0 ≤ g < num_gpu_blocks (s_gpu s)) →
  ∃ p', mfor es stamp_hash s = (Ok tt, set_cpu p' s) ∧ pool_inv p' l ∧ refs p' = refs (s_cpu s) ∧
    enable_caching p' = enable_caching (s_cpu s).
Proof.
  revert s. induction es as [|[b r] es IH]; intros s Hinv Hnc Hg.
  { exists (s_cpu s). split; [by destruct s|done]. }
  destruct (stamp_one b r s l Hinv) as (p1 & Hrun & Hi1 & Hr1 & Hc1 & He1).
  { intros key. apply (Hnc (b, r) key). set_solver. }
  { intros g. apply (Hg (b, r)). set_solver. }
  destruct (IH (set_cpu p1 s)) as (p2 & Hrun2 & Hi2 & Hr2 & He2); [done| | |].
  { intros e key He. simpl. rewrite Hc1. apply Hnc. set_solver. }
  { intros e g He. apply (Hg e). set_solver. }
  exists p2. split; [by rewrite (mfor_cons _ _ _ _ _ Hrun)|]. split; [done|]. simpl in *.
  split; congruence.
Qed.

(** The batch a trigger adds to the step. *)
Record batched (b : batch) s s' : Prop := {
  ba_acc : _step_store_acc s' = _step_store_acc s ++ [b];
  ba_nodup : NoDup (b_refs b);
  ba_cands : ∀ r, r ∈ b_refs b → r ∈ candidates s;
  ba_count : zlen (b_refs b) = n_offload (zlen (candidates s)) (cfg_fraction s);
  (** the recorded pages are the blocks' pages, with a single owner if pages
      are to be recycled *)
  ba_pages : Forall2 (λ r g, ∃ l, s_loc s r = Some l ∧ residency l = GPU ∧ complete l = true ∧
    gpu_block_id l = Some g ∧ (_true_free_enabled s = true → ref_cnt (blk (s_gpu s) g) = 1))
    (b_refs b) (b_gpu b);
  ba_moved : ∀ r, r ∈ b_refs b → ∃ l, s_loc s' r = Some l ∧ residency l = CPU;
  ba_cpu : length (b_cpu b) = length (b_refs b) ∧ NoDup (b_cpu b);
}.

Lemma sched_ok_orch o s : sched_ok s → sched_ok (set_orch o s).
Proof. intros [H1 H2 H3 H4 H5 H6]. by split. Qed.

(** Taking CPU blocks for a batch. *)
Lemma cpu_alloc_run s l k :
  sched_ok s → enable_caching (s_cpu s) = true → pool_inv (s_cpu s) l → 0 ≤ k →
  (zlen l < k ∧ get_new_blocks k (s_cpu s) = (Raise ValueError, s_cpu s)) ∨
  ∃ xs p' l', get_new_blocks k (s_cpu s) = (Ok xs, p') ∧ pool_inv p' l' ∧ zlen xs = k ∧ NoDup xs ∧
    enable_caching p' = true ∧
    (∀ b key, b ∈ xs → b ∉ cached_ids (cached_block_hash_to_block p') key) ∧
    releasable (refs p') (inflight s ++ xs).
Proof.
  intros Hok Hcache Hl Hk. destruct (decide (zlen l < k)) as [Hlt|Hge]; [left|right].
  { split; [done|]. by apply (get_new_blocks_short k l). }
  pose proof Hl as Hl'. rewrite <-(take_drop (Z.to_nat k) l) in Hl'.
  destruct (get_new_blocks_run _ _ _ Hl') as (p' & Hrun & Hi & Ha).
  set (xs := take (Z.to_nat k) l) in *.
  assert (zlen xs = k) as Hlen by (unfold xs, zlen in *; rewrite length_take; lia).
  rewrite Hlen in Hrun. exists xs, p', (drop (Z.to_nat k) l).
  pose proof (proj1 (proj2 Hl)) as Hro.
  assert (NoDup xs) as Hnd by (eapply sublist_NoDup; [apply (ro_nodup _ _ _ Hro)|apply sublist_take]).
  assert (∀ b, b ∈ xs → refs (s_cpu s) !! b = Some (0, false)) as Hfree.
  { intros b Hb. apply (ro_free _ _ _ Hro). by eapply elem_of_sublist; [|apply sublist_take]. }
  assert (∀ b, b ∈ xs → b ∉ inflight s) as Hfresh.
  { intros b Hb Hin. destruct (so_inflight _ Hok b Hin) as (r & nul & Hr & Ho).
    rewrite Hfree in Hr by done. simplify_eq. destruct Ho as [|Ho]; [done|].
    assert (0 < occ b (inflight s)); [|lia]. unfold occ, zlen.
    assert (b ∈ filter (λ x, x = b) (inflight s)) as Hbf by by apply list_elem_of_filter.
    destruct (filter (λ x, x = b) (inflight s)); [set_solver|simpl; lia]. }
  split_and!; try done.
  - rewrite (al_caching _ _ _ Ha). done.
  - intros b key Hb. by apply (al_gone _ _ _ Ha).
  - intros b Hb. rewrite (al_refs _ _ _ Ha), occ_app. case_decide as Hx.
    + exists 1, false. split; [done|]. right.
      rewrite occ_not_in by by apply Hfresh. by rewrite occ_NoDup.
    + apply elem_of_app in Hb as [Hb|]; [|done].
      destruct (so_inflight _ Hok b Hb) as (r & nul & Hr & Ho). exists r, nul. split; [done|].
      rewrite (occ_not_in b xs) by done. by rewrite Z.add_0_r.
Qed.

Lemma pages_omap (o : orch S) (rs : list BlockRef) :
  (∀ x, x ∈ rs → is_Some (o_loc o x ≫= gpu_block_id)) →
  Forall2 (λ r g, o_loc o r ≫= gpu_block_id = Some g) rs (omap (λ r, o_loc o r ≫= gpu_block_id) rs).
Proof.
  induction rs as [|r rs IH]; intros Hr; [constructor|]. csimpl.
  destruct (Hr r) as [g Hg]; [set_solver|]. rewrite Hg. constructor; [done|]. apply IH. set_solver.
Qed.

Lemma sched_ok_batch s p' l' b :
  sched_ok s → pool_inv p' l' → releasable (refs p') (inflight s ++ b_cpu b) → batch_ok (s_gpu s) b →
  sched_ok (set_acc (_step_store_acc s ++ [b]) (set_cpu p' s)).
Proof.
  intros [H1 H2 H3 H4 H5 H6] Hi Hrel Hb. split; simpl; try done.
  - by exists l'.
  - eapply releasable_perm; [|exact Hrel]. unfold inflight. simpl. rewrite fmap_app. csimpl.
    rewrite join_app. csimpl. rewrite app_nil_r, <-!(assoc_L app). apply Permutation_app_head.
    apply Permutation_app_comm.
  - apply Forall_app. split; [done|]. by constructor.
Qed.

(** What a trigger may do to the rest of the state: nothing. *)
Definition same_rest s s' : Prop :=
  s_gpu s' = s_gpu s ∧ s_tables s' = s_tables s ∧ _pending_store_events s' = _pending_store_events s ∧
  _req_block_table s' = _req_block_table s ∧ s_ctl s' = s_ctl s.

Lemma trigger_run io s :
  system_ok s → s_ready s = true →
  match _trigger_global_offload T fused io s with
  | (Ok _, s') => sched_ok s' ∧ orch_inv np n (s_orch s') ∧ same_rest s s' ∧
      ((_step_store_acc s' = _step_store_acc s ∧ ∀ r, s_loc s' r = s_loc s r) ∨
       ∃ b, batched b s s')
  | (Raise e, s') => e = ValueError ∧ sched_ok s' ∧ orch_inv np n (s_orch s') ∧ same_rest s s' ∧
      get_num_free_blocks (s_cpu s) < n_offload (zlen (candidates s)) (cfg_fraction s)
  end.
Proof.
  intros (Hok & Hinv & Hnum & Hcache & Hfr & Hsize) Hready.
  destruct (candidates_spec s Hinv) as (Hnd & Hlen & Hc).
  unfold _trigger_global_offload. run_step. rewrite Hready. cbn [negb]. run_step.
  erewrite bind_ok by (unfold lift; by rewrite allowed_run). cbn beta. fold (paged s).
  destruct (rescore_run s Hinv) as (o1 & Hrun1 & Hinv1 & Hloc1 & _ & _ & Hsc1).
  erewrite bind_ok by exact Hrun1. cbn beta. run_step. change (s_orch (set_orch o1 s)) with o1.
  destruct (offload_run io o1 (candidates s) (cfg_fraction s) Hinv1 Hnd)
    as (rs & o2 & Hrun2 & Hinv2 & Hsub & Hndr & Hcount & Hmoved & Hkept); [lia|done| |].
  { intros r Hr. split; [by apply Hsc1|]. destruct (Hc r Hr) as (l & g & Hl & Hg & Hcl & _).
    exists l. by rewrite Hloc1. }
  erewrite bind_ok by (apply (zoom_ok s_orch set_orch); exact Hrun2). cbn beta.
  set (s2 := set_orch o2 (set_orch o1 s)).
  assert (sched_ok s2) as Hok2 by by apply sched_ok_orch, sched_ok_orch.
  destruct (decide (rs = [])) as [Hnil|Hnil];
    [rewrite (bool_decide_eq_true_2 _ Hnil)|rewrite (bool_decide_eq_false_2 _ Hnil)].
  { unfold ret. cbv iota beta. split; [done|]. split; [done|]. split; [done|]. left.
    split; [done|]. subst rs. intros r. change (o_loc o2 r = s_loc s r). rewrite Hkept by apply not_elem_of_nil. apply Hloc1. }
  destruct Hcount as [|Hcount]; [done|].
  destruct (so_cpu _ Hok2) as [l Hl].
  destruct (cpu_alloc_run s2 l (zlen rs) Hok2 Hcache Hl (zlen_nonneg rs))
    as [[Hshort Hrun3]|(xs & p' & l' & Hrun3 & Hi' & Hlx & Hndx & Hc' & Hgone & Hrel)].
  { erewrite bind_raise by (apply (zoom_raise s_cpu set_cpu); exact Hrun3).
    assert (set_cpu (s_cpu s2) s2 = s2) as -> by by destruct s.
    split_and!; try done. rewrite <-Hcount. unfold get_num_free_blocks.
    change (s_cpu s) with (s_cpu s2). by rewrite (queue_rep_num _ _ (proj1 Hl)). }
  erewrite bind_ok by (apply (zoom_ok s_cpu set_cpu); exact Hrun3). cbn beta. run_step.
  change (s_orch (set_cpu p' s2)) with o2.
  assert (∀ x, x ∈ rs → ∃ l0 g, s_loc s x = Some l0 ∧ residency l0 = GPU ∧ complete l0 = true ∧
    gpu_block_id l0 = Some g ∧ o_loc o2 x ≫= gpu_block_id = Some g ∧ 0 ≤ g < np ∧
    (_true_free_enabled s = true → ref_cnt (blk (s_gpu s) g) = 1)) as Hpage.
  { intros x Hx. destruct (Hc x (Hsub x Hx)) as (l0 & g & Hl0 & Hg & Hcl & Hid & Hb & Ht).
    destruct (Hmoved x Hx) as (l1 & l2 & Hl1 & Hl2 & _ & Hid2). rewrite Hloc1 in Hl1.
    rewrite Hl0 in Hl1. simplify_eq. exists l1, g. rewrite Hl2. simpl. rewrite Hid2. naive_solver. }
  set (gids := omap (λ r, o_loc o2 r ≫= gpu_block_id) rs).
  assert (Forall2 (λ r g, o_loc o2 r ≫= gpu_block_id = Some g) rs gids) as Hf2.
  { apply pages_omap. intros x Hx. destruct (Hpage x Hx) as (? & g & _ & _ & _ & _ & -> & _). by eexists. }
  pose proof (Forall2_length _ _ _ Hf2) as Hlg.
  replace (zlen gids =? zlen rs) with true by (unfold zlen; lia). cbn [negb].
  destruct (stamp_all (zip xs rs) (set_cpu p' s2) l') as (p2 & Hrun4 & Hi2 & Hr2 & He2); [done| | |].
  { intros [b r] key Hin%elem_of_zip_l. by apply Hgone. }
  { intros [b r] g Hin%elem_of_zip_r. simpl. destruct (Hpage r Hin) as (? & g' & _ & _ & _ & _ & Hg' & Hb & _).
    change (s_loc (set_cpu p' s2) r) with (o_loc o2 r). rewrite Hg'. intros [= <-]. by rewrite Hnum. }
  erewrite bind_ok by exact Hrun4. cbn beta.
  set (b := Batch rs gids xs (dedup (request_id <$> rs))).
  unfold modify. cbv iota beta. change (set_cpu p2 (set_cpu p' s2)) with (set_cpu p2 s2).
  split; [|split; [done|split; [done|right; exists b; split]]]; try done.
  - apply (sched_ok_batch s2 p2 l' b); [done|done|by rewrite Hr2|]. split; simpl.
    + apply Forall_forall. intros g Hg. apply list_elem_of_omap in Hg as (r & Hr & Hg).
      destruct (Hpage r Hr) as (? & g' & _ & _ & _ & _ & Hg' & Hb & _). rewrite Hg in Hg'.
      rewrite Hnum. by simplify_eq.
    + apply Forall_forall. intros r Hr. destruct (Hpage r Hr) as (l0 & _ & Hl0 & _).
      destruct (proj1 (oi_tracked _ _ _ Hinv r)) as (rl & Hrl & Hin); [by exists l0|].
      destruct (oi_lists _ _ _ Hinv _ _ Hrl) as (k & _ & ->). by apply elem_of_refs in Hin as [_ [? _]].
  - apply Forall2_same_length_lookup_2; [done|]. intros i r g Hr Hg. simpl in Hr, Hg.
    pose proof (Forall2_lookup_lr _ _ _ _ _ _ Hf2 Hr Hg) as Hrg. cbn beta in Hrg.
    destruct (Hpage r) as (l0 & g' & ? & ? & ? & ? & Hg' & _ & ?); [by eapply list_elem_of_lookup_2|].
    rewrite Hrg in Hg'. injection Hg' as <-. exists l0. done.
  - intros r Hr. destruct (Hmoved r Hr) as (_ & l2 & _ & Hl2 & Hcpu & _). by exists l2.
  - simpl. split; [|done]. unfold zlen in Hlx. lia.
Qed.
End Trigger.

(** ** Flushing and completion counting *)
Section Events.
Context {S : Type}.
Implicit Types s : sched S.

(** Event ids from the counter on are unused. *)
Definition events_fresh s : Prop :=
  ∀ k, _store_event_counter s ≤ k → _pending_store_events s !! k = None.

Lemma mjoin_cons {A} (x : list A) xs : mjoin (x :: xs) = x ++ mjoin xs.
Proof. done. Qed.

Lemma Forall_mjoin {A} (P : A → Prop) (ls : list (list A)) :
  Forall (Forall P) ls → Forall P (mjoin ls).
Proof. induction 1; [constructor|]. rewrite mjoin_cons. by apply Forall_app. Qed.

Lemma flush_run m s :
  sched_ok s → events_fresh s → _step_store_acc s ≠ [] →
  let k := _store_event_counter s in
  let acc := _step_store_acc s in
  let b := Batch (mjoin (b_refs <$> acc)) (mjoin (b_gpu <$> acc)) (mjoin (b_cpu <$> acc))
             (merge_sort String.le (dedup (mjoin (b_reqs <$> acc)))) in
  ∃ s', flush_stores m s =
    (Ok (Meta k (b_gpu b) (b_cpu b) (load_event m) (request_ids m) (load_event_to_reqs m)
           (<[k := b_reqs b]> (store_event_to_reqs m))), s') ∧
    sched_ok s' ∧ events_fresh s' ∧ _step_store_acc s' = [] ∧
    _pending_store_events s' = <[k := b]> (_pending_store_events s) ∧
    _store_event_pending_counts s' !! k = Some 0 ∧ s_orch s' = s_orch s ∧ s_gpu s' = s_gpu s ∧
    s_cpu s' = s_cpu s.
Proof.
  intros Hok Hfr Hne k acc b. unfold flush_stores. run_step. rewrite bool_decide_eq_false_2 by done.
  repeat run_step. eexists. split; [done|]. simpl. split; [|split_and!; try done].
  - destruct Hok as [H1 H2 H3 H4 H5 H6]. split; simpl; try done.
    + eapply releasable_perm; [|exact H4]. unfold inflight. simpl. fold acc.
      rewrite map_to_list_insert by (apply Hfr; lia). done.
    + intros k' b' [[<- <-]|[_ Hb']]%lookup_insert_Some; [|by eapply H6].
      split; apply Forall_mjoin, Forall_fmap; (eapply Forall_impl; [exact H5|]); by intros x [? ?].
  - intros k' Hk'. simpl in *. rewrite lookup_insert_ne by lia. apply Hfr. lia.
  - apply lookup_insert_eq.
Qed.

(** One report below the number of workers only counts. *)
Lemma report_waits k c s n0 :
  _store_event_pending_counts s !! k = Some n0 → n0 + c < _expected_worker_count s →
  store_completed (k, c) s =
  (Ok tt, set_counts (<[k := n0 + c]> (_store_event_pending_counts s)) s).
Proof.
  intros Hk Hlt. unfold store_completed. do 3 run_step. simpl. rewrite Hk, lookup_insert_eq. simpl.
  by replace (_expected_worker_count s <=? n0 + c) with false by lia.
Qed.

Lemma reports_wait k (w : nat) s n0 :
  _store_event_pending_counts s !! k = Some n0 → n0 + Z.of_nat w < _expected_worker_count s →
  ∃ m, mfor (replicate w (k, 1)) store_completed s = (Ok tt, set_counts m s) ∧
       m !! k = Some (n0 + Z.of_nat w).
Proof.
  revert s n0. induction w as [|w IH]; intros s n0 Hk Hlt.
  { exists (_store_event_pending_counts s). split; [by destruct s|]. rewrite Hk. f_equal. lia. }
  cbn [replicate]. rewrite (mfor_cons _ _ _ _ _ (report_waits k 1 s n0 Hk ltac:(lia))).
  destruct (IH (set_counts (<[k := n0 + 1]> (_store_event_pending_counts s)) s) (n0 + 1))
    as (m & Hrun & Hm); [apply lookup_insert_eq|simpl; lia|].
  exists m. split; [exact Hrun|]. rewrite Hm. f_equal. lia.
Qed.

Lemma sched_ok_counts m s : sched_ok s → sched_ok (set_counts m s).
Proof. intros [H1 H2 H3 H4 H5 H6]. by split. Qed.

(** The report that reaches the number of workers completes the event. *)
Lemma report_completes k c s n0 b :
  sched_ok s → _pending_store_events s !! k = Some b →
  _store_event_pending_counts s !! k = Some n0 → _expected_worker_count s ≤ n0 + c →
  ∃ s', store_completed (k, c) s = (Ok tt, s') ∧ completed_event b s s' ∧
    _pending_store_events s' = delete k (_pending_store_events s) ∧
    _store_event_pending_counts s' !! k = None.
Proof.
  intros Hok Hb Hk Hle. unfold store_completed. do 3 run_step. simpl. rewrite Hk, lookup_insert_eq. simpl.
  replace (_expected_worker_count s <=? n0 + c) with true by lia.
  set (s1 := set_counts _ s).
  destruct (completion_run s1 k b (sched_ok_counts _ s Hok) Hb) as (s2 & Hrun & [C1 C2 C3 C4] & Hp).
  erewrite bind_ok by exact Hrun.
  eexists. split; [done|]. split; [|split; [done|]].
  - split; [by apply sched_ok_counts|done|done|exact C4].
  - simpl. apply lookup_delete_eq.
Qed.
End Events.

(** ** Merged worker reports *)
Lemma merge_counts_lookup m o k :
  default 0 (merge_counts m o !! k) = default 0 (m !! k) + default 0 (o !! k).
Proof.
  unfold merge_counts.
  assert (∀ (es : list (Z * Z)) (m : gmap Z Z), NoDup es.*1 →
    default 0 (foldl (λ m e, <[e.1 := default 0 (m !! e.1) + e.2]> m) m es !! k) =
    default 0 (m !! k) + default 0 ((list_to_map es : gmap Z Z) !! k)) as Hgen.
  { induction es as [|[x v] es IH]; intros m0 Hnd; [simpl; rewrite lookup_empty; simpl; lia|].
    csimpl in Hnd. apply NoDup_cons in Hnd as [Hx Hnd]. csimpl. rewrite IH by done.
    destruct (decide (x = k)) as [->|Hne].
    - rewrite !lookup_insert_eq. rewrite (not_elem_of_list_to_map_1 (M:=gmap Z)) by done. simpl. lia.
    - by rewrite !lookup_insert_ne. }
  rewrite Hgen by apply NoDup_fst_map_to_list. by rewrite list_to_map_to_list.
Qed.

(** ** The properties *)

(** C3: completing a store event with true freeing is safe: it never raises; of
    the event's blocks exactly the table entries that still point at the recorded
    page become the null block, every page loses one reference per removed entry
    (so it returns to the free queue when that was the last one), hashed pages
    leave the prefix cache, the batch's CPU blocks are given back, and the
    invariant that every table entry is backed by a reference is kept.  Without
    true freeing the GPU pool and the tables are untouched. *)
Theorem store_completion_safe {S} (s : sched S) k b :
  sched_ok s → _pending_store_events s !! k = Some b →
  ∃ s', _process_store_completion k s = (Ok tt, s') ∧ completed_event b s s' ∧
    _pending_store_events s' = delete k (_pending_store_events s).
Proof. apply completion_run. Qed.

(** C34: a store event completes exactly when every worker has reported it: after
    all but one of the [w] workers reported once, nothing but the counter has
    changed and the event is still pending; the last report completes it and
    drops the counter. *)
Theorem event_waits_for_all_workers {S} (s : sched S) k b (w : nat) :
  sched_ok s → _pending_store_events s !! k = Some b →
  _store_event_pending_counts s !! k = Some 0 → (0 < w)%nat → _expected_worker_count s = Z.of_nat w →
  ∃ m s', update_connector_output (replicate (w - 1) (k, 1)) s = (Ok tt, set_counts m s) ∧
    update_connector_output [(k, 1)] (set_counts m s) = (Ok tt, s') ∧
    completed_event b (set_counts m s) s' ∧
    _pending_store_events s' = delete k (_pending_store_events s) ∧
    _store_event_pending_counts s' !! k = None.
Proof.
  intros Hok Hb Hk Hw Hexp.
  destruct (reports_wait k (w - 1) s 0 Hk) as (m & Hrun & Hm); [lia|].
  destruct (report_completes k 1 (set_counts m s) (0 + Z.of_nat (w - 1)) b) as (s' & Hrun' & H1 & H2 & H3);
    [by apply sched_ok_counts|done|done|simpl; lia|].
  exists m, s'. split; [exact Hrun|]. split; [|done].
  unfold update_connector_output. by rewrite (mfor_cons _ _ _ _ _ Hrun').
Qed.

(** C33: a trigger offloads only what may be recycled: the batch it adds consists
    of distinct complete GPU blocks, [n_offload] of the candidates, recorded with
    their pages; with true freeing each of these pages has exactly one owner, so
    prefix-shared pages are never offloaded.  Either the batch is added and its
    blocks are on the CPU, or nothing moved.  The only exception is [ValueError],
    when the CPU block pool has fewer free blocks than the batch; all invariants
    hold in every case. *)
Theorem trigger_offloads_sole_owned {S} `{LawfulScorer S} np n T fused io (s : sched S) :
  fused_ok T fused → system_ok np n s → s_ready s = true →
  match _trigger_global_offload T fused io s with
  | (Ok _, s') => sched_ok s' ∧ orch_inv np n (s_orch s') ∧ same_rest s s' ∧
      ((_step_store_acc s' = _step_store_acc s ∧ ∀ r, s_loc s' r = s_loc s r) ∨
       ∃ b, batched b s s')
  | (Raise e, s') => e = ValueError ∧ sched_ok s' ∧ orch_inv np n (s_orch s') ∧ same_rest s s' ∧
      get_num_free_blocks (s_cpu s) < n_offload (zlen (candidates s)) (cfg_fraction s)
  end.
Proof. intros. by apply trigger_run. Qed.

(** The batches of a step become one store event: the event, under a fresh
    id, lists all batches in order, so no trigger of the step is lost; the
    metadata sent to the worker names the same pages and CPU blocks, and the
    accumulator is empty afterwards. *)
Theorem flush_loses_no_batch {S} (s : sched S) m :
  sched_ok s → events_fresh s → _step_store_acc s ≠ [] →
  let k := _store_event_counter s in
  ∃ s' meta b, flush_stores m s = (Ok meta, s') ∧ sched_ok s' ∧ events_fresh s' ∧
    _step_store_acc s' = [] ∧ _pending_store_events s !! k = None ∧
    _pending_store_events s' = <[k := b]> (_pending_store_events s) ∧
    b_refs b = mjoin (b_refs <$> _step_store_acc s) ∧ b_gpu b = mjoin (b_gpu <$> _step_store_acc s) ∧
    b_cpu b = mjoin (b_cpu <$> _step_store_acc s) ∧
    store_event meta = k ∧ store_gpu_blocks meta = b_gpu b ∧ store_cpu_blocks meta = b_cpu b.
Proof.
  intros Hok Hfr Hne k. destruct (flush_run m s Hok Hfr Hne) as (s' & Hrun & Hok' & Hfr' & Hacc & Hp & _).
  eexists s', _, _. split; [exact Hrun|]. split_and!; try done. apply Hfr. lia.
Qed.

(** Merging worker reports adds the counts of every event, in either order. *)
Theorem aggregate_adds_counts a b k :
  default 0 (completed_store_events (aggregate a b) !! k) =
    default 0 (completed_store_events a !! k) + default 0 (completed_store_events b !! k) ∧
  default 0 (completed_store_events (aggregate b a) !! k) =
    default 0 (completed_store_events (aggregate a b) !! k).
Proof. simpl. rewrite !merge_counts_lookup. lia. Qed.

(** [request_finished] leaves nothing of the request behind: not in the
    orchestrator, nor in the controller, the prefill set, the mirrored block
    table or the prompt lengths. *)
Theorem request_finished_forgets {S} `{LawfulScorer S} np n (s : sched S) req :
  orch_inv np n (s_orch s) → s_ready s = true →
  ∃ s', request_finished req s = (Ok (false, None), s') ∧
    cleaned np n req (s_orch s) (s_orch s') ∧ req ∉ _started (s_ctl s') ∧
    req ∉ _prefill_completed s' ∧ _req_block_table s' !! req = None ∧ _prompt_lens s' !! req = None ∧
    s_gpu s' = s_gpu s ∧ s_cpu s' = s_cpu s ∧ s_tables s' = s_tables s.
Proof.
  intros Hinv Hready. destruct (cleanup_run np n req (s_orch s) Hinv) as (o' & Hrun & Hc).
  unfold request_finished. run_step. rewrite Hready.
  erewrite bind_ok by (apply (zoom_ok s_orch set_orch); exact Hrun). cbn beta.
  erewrite bind_ok by (apply (zoom_ok s_ctl set_sctl); unfold ctl_remove; apply modify_run). cbn beta.
  do 3 run_step. eexists. split; [done|]. split; [exact Hc|]. simpl.
  split; [set_solver|]. split; [set_solver|]. split; [apply lookup_delete_eq|].
  split; [apply lookup_delete_eq|done].
Qed.

(** *** Witnesses: three GPU pages (page 0 the null block), request "r" with one
    full block on page 1, two CPU slots, a CPU pool of three blocks. *)
Definition demo_pool (size : Z) : pool :=
  match pool_init size true 16 with
  | Ok p => p
  | Raise _ => Pool 0 false 0 ∅ (fq_init []) ∅ ∅
  end.
Definition demo_gpu : pool := (get_new_blocks 1 (demo_pool 3)).2.
Definition demo_tables : gmap string (list Z) := {["r"%string := [1]]}.
Definition demo_so : orch LRUScorer :=
  (sync_request_blocks (H:=lru_scorer) demo_T demo_fused "r" [1] 2 demo_o0).2.
Definition demo_s (cpu : pool) : sched LRUScorer :=
  Sched true demo_so true demo_gpu (Some demo_tables) cpu (Ctl 2 2 ∅ ∅) 0 0 1 ∅ {["r"%string]}
    {["r"%string := 2]} [] ∅ {["r"%string := [1]]} true (f64_lit 7 3) 0.
Definition demo_s0 : sched LRUScorer := demo_s (demo_pool 3).

Lemma demo_pool_inv size : size = 3 ∨ size = 1 → ∃ l, pool_inv (demo_pool size) l.
Proof.
  intros [-> | ->];
    match goal with |- ∃ l, pool_inv (demo_pool ?k) l =>
      destruct (pool_reachable_inv k true (demo_pool k)) as [? _];
        [apply (reach_init k true 16); by vm_compute|done] end.
Qed.

Lemma demo_gpu_inv : ∃ l, pool_inv demo_gpu l.
Proof.
  destruct (pool_reachable_inv 3 true demo_gpu) as [? _]; [|done].
  eapply reach_call; [apply (reach_init 3 true 16 (demo_pool 3)); by vm_compute|].
  apply (call_new _ _ 1 (get_new_blocks 1 (demo_pool 3)).1); [lia|].
  unfold demo_gpu. by destruct (get_new_blocks 1 (demo_pool 3)).
Qed.

Lemma demo_so_inv : orch_inv (H:=lru_scorer) 3 2 demo_so.
Proof.
  destruct (sync_run (H:=lru_scorer) 3 2 demo_T demo_fused demo_fused_ok "r" [1] 2 demo_o0)
    as (o' & E & Hs); [exact demo_o0_inv|done|repeat constructor; lia|by vm_compute; lia|].
  unfold demo_so. rewrite E. apply (sy_inv _ _ _ _ _ _ _ Hs).
Qed.

Lemma demo_tables_held : valid_tables demo_tables demo_gpu ∧ held demo_tables demo_gpu.
Proof.
  split.
  - intros k l b. unfold demo_tables. intros [<- <-]%lookup_singleton_Some ->%list_elem_of_singleton.
    by vm_compute.
  - intros b r nul Hb Hr. rewrite (total_occ_lookup b demo_tables "r" [1]) by by vm_compute.
    replace (delete "r"%string demo_tables) with (∅ : gmap string (list Z)) by by vm_compute.
    change (total_occ b ∅) with 0. rewrite occ_cons. change (occ b []) with 0.
    case_decide as Hd; [subst b; vm_compute in Hr; simplify_eq; lia|].
    destruct demo_gpu_inv as [l (_ & Hro & _)].
    destruct nul; [|pose proof (ro_ref _ _ _ Hro b r Hr); lia].
    exfalso. apply Hb. by apply (ro_null _ _ _ Hro b r true Hr).
Qed.

Lemma demo_s_ok cpu : (∃ l, pool_inv cpu l) → sched_ok (demo_s cpu).
Proof.
  intros Hcpu. split; simpl.
  - exact demo_gpu_inv.
  - intros m [= <-]. exact demo_tables_held.
  - exact Hcpu.
  - intros b Hb. unfold inflight in Hb. simpl in Hb. rewrite map_to_list_empty in Hb. set_solver.
  - constructor.
  - intros k b. by rewrite lookup_empty.
Qed.

Lemma demo_s_system cpu :
  (∃ l, pool_inv cpu l) → enable_caching cpu = true → system_ok (H:=lru_scorer) 3 2 (demo_s cpu).
Proof.
  intros Hcpu Hc. split; [by apply demo_s_ok|]. split; [exact demo_so_inv|].
  split; [by vm_compute|]. split; [exact Hc|]. split; [split; by vm_compute|]. by vm_compute.
Qed.

(** The trigger has run, and its batch has been flushed as event 0. *)
Definition demo_s1 : sched LRUScorer :=
  (_trigger_global_offload (H:=lru_scorer) demo_T demo_fused None demo_s0).2.
Definition demo_s2 : sched LRUScorer := (flush_stores meta_init demo_s1).2.

Lemma trigger_ok_state {S} `{LawfulScorer S} np n T fused io (s : sched S) :
  fused_ok T fused → system_ok np n s → s_ready s = true →
  (_trigger_global_offload T fused io s).1 = Ok tt →
  sched_ok (_trigger_global_offload T fused io s).2 ∧
  same_rest s (_trigger_global_offload T fused io s).2.
Proof.
  intros Hf Hs Hr Hok. pose proof (trigger_run np n T fused Hf io s Hs Hr) as Ht.
  destruct (_trigger_global_offload T fused io s) as [[?|?] s']; [|done]. by destruct Ht as (? & _ & ? & _).
Qed.

Lemma demo_s1_run :
  sched_ok demo_s1 ∧ same_rest demo_s0 demo_s1.
Proof.
  apply (trigger_ok_state (H:=lru_scorer) 3 2 demo_T demo_fused None demo_s0);
    [exact demo_fused_ok| |done|by vm_compute].
  apply demo_s_system; [apply demo_pool_inv; by left|by vm_compute].
Qed.

Lemma demo_s1_fresh : events_fresh demo_s1 ∧ _step_store_acc demo_s1 ≠ [].
Proof.
  split; [|by vm_compute]. intros k _.
  destruct demo_s1_run as [_ (_ & _ & E & _)]. rewrite E. apply lookup_empty.
Qed.

Lemma demo_s2_run :
  sched_ok demo_s2 ∧ is_Some (_pending_store_events demo_s2 !! 0) ∧
  _store_event_pending_counts demo_s2 !! 0 = Some 0.
Proof.
  destruct (flush_run meta_init demo_s1 (proj1 demo_s1_run) (proj1 demo_s1_fresh) (proj2 demo_s1_fresh))
    as (s' & Hrun & Hok & _ & _ & Hp & Hc & _).
  assert (_store_event_counter demo_s1 = 0) as E by by vm_compute. rewrite E in Hp, Hc.
  unfold demo_s2. rewrite Hrun. split; [exact Hok|]. simpl. split; [|exact Hc].
  rewrite Hp, lookup_insert_eq. by eexists.
Qed.

Lemma store_completion_safe_witness :
  ∃ b s', _process_store_completion 0 demo_s2 = (Ok tt, s') ∧ completed_event b demo_s2 s'.
Proof.
  destruct demo_s2_run as (Hok & [b Hb] & _).
  destruct (store_completion_safe demo_s2 0 b Hok Hb) as (s' & H1 & H2 & _).
  exists b, s'. exact (conj H1 H2).
Defined.

Lemma event_waits_for_all_workers_witness :
  ∃ b m s', update_connector_output (replicate 0 (0, 1)) demo_s2 = (Ok tt, set_counts m demo_s2) ∧
    update_connector_output [(0, 1)] (set_counts m demo_s2) = (Ok tt, s') ∧
    completed_event b (set_counts m demo_s2) s'.
Proof.
  destruct demo_s2_run as (Hok & [b Hb] & Hc).
  destruct (event_waits_for_all_workers demo_s2 0 b 1 Hok Hb Hc) as (m & s' & H1 & H2 & H3 & _);
    [lia|by vm_compute|].
  exists b, m, s'. exact (conj H1 (conj H2 H3)).
Defined.

Lemma trigger_offloads_sole_owned_witness :
  system_ok (H:=lru_scorer) 3 2 demo_s0 ∧
  match _trigger_global_offload (H:=lru_scorer) demo_T demo_fused None demo_s0 with
  | (Ok _, s') => sched_ok s' ∧ orch_inv (H:=lru_scorer) 3 2 (s_orch s') ∧ same_rest demo_s0 s' ∧
      ((_step_store_acc s' = _step_store_acc demo_s0 ∧ ∀ r, s_loc s' r = s_loc demo_s0 r) ∨
       ∃ b, batched b demo_s0 s')
  | (Raise e, s') => e = ValueError ∧ sched_ok s' ∧ orch_inv (H:=lru_scorer) 3 2 (s_orch s') ∧
      same_rest demo_s0 s' ∧
      get_num_free_blocks (s_cpu demo_s0) < n_offload (zlen (candidates demo_s0)) (cfg_fraction demo_s0)
  end.
Proof.
  assert (system_ok (H:=lru_scorer) 3 2 demo_s0) as Hs.
  { apply demo_s_system; [apply demo_pool_inv; by left|by vm_compute]. }
  split; [exact Hs|].
  apply (trigger_offloads_sole_owned (H:=lru_scorer) 3 2 demo_T demo_fused None demo_s0);
    [exact demo_fused_ok|exact Hs|done].
Defined.

Lemma flush_loses_no_batch_witness :
  ∃ s' meta b, flush_stores meta_init demo_s1 = (Ok meta, s') ∧ sched_ok s' ∧
    _step_store_acc s' = [] ∧ b_refs b = mjoin (b_refs <$> _step_store_acc demo_s1).
Proof.
  destruct (flush_loses_no_batch demo_s1 meta_init (proj1 demo_s1_run) (proj1 demo_s1_fresh)
    (proj2 demo_s1_fresh)) as (s' & meta & b & H1 & H2 & _ & H3 & _ & _ & H4 & _).
  exists s', meta, b. exact (conj H1 (conj H2 (conj H3 H4))).
Defined.

Lemma request_finished_forgets_witness :
  ∃ s', request_finished (H:=lru_scorer) "r" demo_s0 = (Ok (false, None), s') ∧
    cleaned (H:=lru_scorer) 3 2 "r" (s_orch demo_s0) (s_orch s').
Proof.
  destruct (request_finished_forgets (H:=lru_scorer) 3 2 demo_s0 "r") as (s' & H1 & H2 & _);
    [exact demo_so_inv|done|].
  exists s'. exact (conj H1 H2).
Defined.

(** Two full blocks, on pages 1 and 2; the CPU pool has [num_cpu_slots = 2]
    blocks, as [_derive_cpu_config] makes it. *)
Definition demo_full : sched LRUScorer :=
  Sched true (sync_request_blocks (H:=lru_scorer) demo_T demo_fused "r" [1; 2] 4 demo_o0).2
    true (get_new_blocks 2 (demo_pool 3)).2 (Some {["r"%string := [1; 2]]}) (demo_pool 2)
    (Ctl 2 2 ∅ ∅) 0 0 1 ∅ {["r"%string]} {["r"%string := 4]} [] ∅ {["r"%string := [1; 2]]} true
    (f64_lit 7 3) 0.

(** The scheduler's CPU pool is one block smaller than the manager's CPU
    cache, because one of its [num_cpu_slots] blocks is the null block: a trigger
    that fills all (here two) CPU slots raises [ValueError] after the blocks have
    been moved to the CPU, and no batch is recorded for them. *)
Theorem cpu_pool_one_block_short :
  let out := _trigger_global_offload (H:=lru_scorer) demo_T demo_fused None demo_full in
  zlen (_cpu_free (o_om (s_orch demo_full))) = num_gpu_blocks (s_cpu demo_full) ∧
  out.1 = Raise ValueError ∧
  option_map residency (s_loc out.2 (demo_ref 0)) = Some CPU ∧
  option_map residency (s_loc out.2 (demo_ref 1)) = Some CPU ∧
  _step_store_acc out.2 = [].
Proof. by vm_compute. Qed.
