(* ===== verification/SystemSpec.v ===== *)
(** * The offload system as a whole

    The scheduler connector, the orchestrator below it and the block tables it
    shares with vLLM, under any sequence of scheduling steps, worker reports,
    finished requests and vLLM's own changes of the tables.  The invariant ties
    the three views of a request's blocks together: vLLM's table, the
    connector's mirror of it and the orchestrator's tracked blocks. *)

From S2P Require Import Prelude PyData Float FreeQueue BlockHash BlockPool CacheAllocator Ownership Residency Scoring Pages OffloadManager StagingPool Controller Selection Orchestrator OrchestratorSpec Scheduler SchedulerSpec.
From stdpp Require Import base gmap sets list strings.
From Stdlib Require Import ZArith Lia.
Open Scope Z_scope.

(** ** What calls leave alone *)

(** The pool's constants. *)
Definition pool_static (p : pool) : Z * bool := (num_gpu_blocks p, enable_caching p).

Section PoolStatic.
Context (c : Z * bool).
Notation I := (λ p, pool_static p = c).

Lemma static_queue {A} (op : M fq A) : stable I (on_queue op).
Proof. by apply stable_zoom_frame. Qed.

Lemma static_evict b : stable I (_maybe_evict_cached_block b).
Proof. unfold _maybe_evict_cached_block, _remove_cached_block_hashes. repeat stable_step ltac:(done). Qed.
#[local] Hint Resolve static_queue static_evict : stable.

Lemma static_get_new n : stable I (get_new_blocks n).
Proof. unfold get_new_blocks, new_block. repeat stable_step ltac:(done). Qed.

Lemma static_free bs : stable I (free_blocks bs).
Proof.
  assert (∀ first last, stable I (free_loop bs first last)) as Hl.
  { induction bs as [|b bs' IH]; intros first last; cbn [free_loop]; [apply stable_ret|].
    repeat (apply IH || stable_step ltac:(done)). }
  unfold free_blocks. apply stable_bind; [apply Hl|intros r]. repeat stable_step ltac:(done).
Qed.

Lemma static_evict_blocks ids : stable I (evict_blocks ids).
Proof. unfold evict_blocks. repeat stable_step ltac:(done). Qed.
#[local] Hint Resolve static_free : stable.

Lemma static_release ids : stable I (release_cpu ids).
Proof. unfold release_cpu, register_cpu. repeat stable_step ltac:(done). Qed.
End PoolStatic.
#[export] Hint Resolve static_get_new static_free static_evict_blocks static_release : stable.

Section Frames.
Context {S : Type} `{BlockScorer S} (T : torch_ops).
Context (fused : list kv_layer → list Z → option (list (list (list f64)) * list (list (list f64)))).
Context (argsort_desc : list score → list nat).
Implicit Types s : sched S.

(** No call changes these. *)
Definition fixed s : bool * bool * (Z * bool) * (Z * bool) * bool * f64 :=
  (s_ready s, s_bound s, pool_static (s_gpu s), pool_static (s_cpu s), _true_free_enabled s, cfg_fraction s).

(** Triggers and promotions change none of these either. *)
Definition quiet s : gmap string (list BlockRef) * gmap string (list Z) * Z * gmap Z batch * pool
                     * option (gmap string (list Z)) :=
  (_request_blocks (s_orch s), _req_block_table s, _store_event_counter s, _pending_store_events s,
   s_gpu s, s_tables s).

Definition tracks {A} (op : M (orch S) A) : Prop := ∀ rb, stable (λ o, _request_blocks o = rb) op.

Lemma tracks_pool {A} (op : M (staging S) A) : tracks (on_pool op).
Proof. intros rb. by apply stable_zoom_frame. Qed.
Lemma tracks_ctl {A} (op : M controller A) : tracks (on_ctl op).
Proof. intros rb. by apply stable_zoom_frame. Qed.
Lemma tracks_manager {A} (op : M (offload S) A) : tracks (on_manager op).
Proof. apply tracks_pool. Qed.
Lemma tracks_table {A} (op : M table A) : tracks (on_table op).
Proof. apply tracks_manager. Qed.

Lemma tracks_collect refs acc : tracks (collect_scores refs acc).
Proof.
  intros rb. revert acc. induction refs as [|r refs IH]; intros acc; cbn [collect_scores]; [apply stable_ret|].
  repeat (apply IH || stable_step ltac:(done)).
Qed.

Lemma tracks_prefill req k : tracks (on_prefill_complete T fused req k).
Proof.
  intros rb. unfold on_prefill_complete, score_all.
  assert (∀ refs acc, stable (λ o : orch S, _request_blocks o = rb) (graduate refs k acc)) as Hg.
  { induction refs as [|r refs IH]; intros acc; cbn [graduate]; [apply stable_ret|].
    repeat (apply IH || apply tracks_table || stable_step ltac:(done)). }
  repeat (apply Hg || apply tracks_manager || stable_step ltac:(done)).
Qed.

Lemma tracks_promote io req k : tracks (promote_hot_cpu_blocks argsort_desc io req k).
Proof.
  intros rb. unfold promote_hot_cpu_blocks.
  repeat (apply tracks_pool || apply tracks_manager || stable_step ltac:(done)).
Qed.

(** Everything but the list of the request itself. *)
Lemma sync_requests req gids k o a o' :
  sync_request_blocks T fused req gids k o = (Ok a, o') →
  _request_blocks o' = if warmup_id req then _request_blocks o
                       else <[req := mkRef req <$> zrange 0 (zlen gids)]> (_request_blocks o).
Proof.
  unfold sync_request_blocks. destruct (warmup_id req); [by intros [= _ <-]|].
  assert (∀ rb, stable (λ o : orch S, _request_blocks o = rb)
    (mfor (zip (zrange 0 (zlen gids)) gids) (sync_block (S:=S) req k))) as Hs.
  { intros rb. unfold sync_block. apply stable_mfor. intros [i g] _.
    repeat (apply tracks_table || stable_step ltac:(done)). }
  assert (∀ rb l, stable (λ o : orch S, _request_blocks o = rb)
    (mfor l (λ e : BlockRef * Z, on_table (mark_complete e.1)))) as Hm.
  { intros rb l. apply stable_mfor. intros e _. apply tracks_table. }
  intros Hrun. eapply (wp_run_ok _ (λ _ o', _request_blocks o' = _) (λ _ _, True)); [|exact Hrun].
  assert (Hwp : ∀ A (m : M (orch S) A) Q o, (∀ rb, stable (λ o, _request_blocks o = rb) m) →
    (∀ a o1, _request_blocks o1 = _request_blocks o → Q a o1) → wp m Q (λ _ _, True) o).
  { intros A m Q o0 Hst HQ. unfold wp. specialize (Hst _ o0 eq_refl).
    destruct (m o0) as [[x|e] o1]; [by apply HQ|done]. }
  apply wp_bind, wp_gets, wp_bind, Hwp; [exact Hs|intros _ o1 H1].
  apply wp_bind, Hwp; [apply tracks_collect|intros s1 o2 H2].
  apply wp_bind, Hwp; [apply tracks_collect|intros s2 o3 H3].
  apply wp_bind, Hwp; [intros rb; apply Hm|intros _ o4 H4].
  apply wp_bind, Hwp; [unfold score_all; intros rb; case_bool_decide; [apply stable_ret|apply tracks_manager]|].
  intros _ o5 H5. apply wp_bind, wp_modify, wp_ret. cbn. congruence.
Qed.

(** *** The connector's calls *)

Lemma fixed_orch {A} (op : M (orch S) A) c : stable (λ s, fixed s = c) (on_orch op).
Proof. by apply stable_zoom_frame. Qed.
Lemma fixed_sctl {A} (op : M controller A) c : stable (λ s, fixed s = c) (on_sctl op).
Proof. by apply stable_zoom_frame. Qed.
Lemma fixed_cpu {A} (op : M pool A) c :
  (∀ c', stable (λ p, pool_static p = c') op) → stable (λ s, fixed s = c) (on_cpu_pool op).
Proof.
  intros Hop. apply (stable_zoom _ _ _ _ (λ s p, pool_static p = pool_static (s_cpu s))); [done|auto|].
  unfold fixed. cbn. by intros s p <- ->.
Qed.
Lemma fixed_gpu {A} (op : M pool A) c :
  (∀ c', stable (λ p, pool_static p = c') op) → stable (λ s, fixed s = c) (on_gpu op).
Proof.
  intros Hop. apply (stable_zoom _ _ _ _ (λ s p, pool_static p = pool_static (s_gpu s))); [done|auto|].
  unfold fixed. cbn. by intros s p <- ->.
Qed.

Lemma fixed_trigger io c : stable (λ s, fixed s = c) (_trigger_global_offload T fused io).
Proof.
  unfold _trigger_global_offload, stamp_hash.
  repeat (apply fixed_orch || (apply fixed_cpu; intros c'; auto with stable) || stable_step ltac:(done)).
Qed.

Lemma quiet_orch {A} (op : M (orch S) A) c : tracks op → stable (λ s, quiet s = c) (on_orch op).
Proof.
  intros Hop. apply (stable_zoom _ _ _ _ (λ s o, _request_blocks o = _request_blocks (s_orch s))); [done|auto|].
  unfold quiet. cbn. by intros s o <- ->.
Qed.
Lemma quiet_cpu {A} (op : M pool A) c : stable (λ s, quiet s = c) (on_cpu_pool op).
Proof. by apply stable_zoom_frame. Qed.
Lemma quiet_sctl {A} (op : M controller A) c : stable (λ s, quiet s = c) (on_sctl op).
Proof. by apply stable_zoom_frame. Qed.

Lemma quiet_trigger io c : stable (λ s, quiet s = c) (_trigger_global_offload T fused io).
Proof.
  unfold _trigger_global_offload, stamp_hash.
  repeat (apply quiet_cpu
          || (apply quiet_orch; first [apply tracks_table | apply tracks_manager | intros rb; by apply stable_modify])
          || stable_step ltac:(done)).
Qed.
End Frames.

(** ** CPU blocks have one holder

    The connector takes blocks from its CPU pool only with [get_new_blocks],
    never with [touch], so no reference count of that pool exceeds one. *)
Definition sole_refs (p : pool) : Prop := ∀ b, ref_cnt (blk p b) ≤ 1.

Lemma sole_upd p b f : (∀ k, ref_cnt (f k) ≤ ref_cnt k) → sole_refs p → sole_refs (upd_blk b f p).
Proof.
  intros Hf Hp i. etransitivity; [|apply (Hp i)]. unfold blk, upd_blk. cbn.
  destruct (decide (i = b)) as [->|Hn]; [|by rewrite lookup_alter_ne].
  rewrite lookup_alter_eq. by destruct (blocks p !! b); cbn.
Qed.

Lemma sole_init size caching hbs p : 0 < size → pool_init size caching hbs = Ok p → sole_refs p.
Proof.
  intros Hs Hp i. destruct (pool_init_run size caching hbs Hs) as (q & Hq & Hpi & Hnum & _ & Hr).
  rewrite Hp in Hq. injection Hq as <-. unfold blk. destruct (blocks p !! i) as [k|] eqn:Ek; [|done].
  assert (refs p !! i = Some (ref_cnt k, is_null k)) as Hk by (unfold refs; by rewrite lookup_fmap, Ek).
  assert (0 ≤ i < size) as Hi.
  { rewrite <-Hnum. apply (ro_dom _ _ _ (proj1 (proj2 Hpi))). by rewrite Hk. }
  rewrite (Hr i Hi) in Hk. injection Hk as Hk _. cbn. lia.
Qed.

Section SoleRefs.
Notation I := sole_refs.

Lemma sole_queue {A} (op : M fq A) : stable I (on_queue op).
Proof. by apply stable_zoom_frame. Qed.

Lemma sole_evict b : stable I (_maybe_evict_cached_block b).
Proof.
  unfold _maybe_evict_cached_block, _remove_cached_block_hashes.
  repeat stable_step ltac:(first [done | by apply sole_upd]).
Qed.
#[local] Hint Resolve sole_queue sole_evict : stable.

(** A block that is handed out had no reference. *)
Lemma sole_new_block caching b : stable I (new_block caching b).
Proof.
  unfold new_block. apply stable_bind; [destruct caching; cbn; repeat stable_step ltac:(done)|intros _ p Hp].
  enough (wp (let! k := gets (λ p, blk p b) in
              ensure (ref_cnt k =? 0) AssertionError >> modify (upd_blk b (set_ref_cnt (λ r, r + 1))))
            (λ _, I) (λ _, I) p) as Hw.
  { unfold wp in Hw. by destruct (bind _ _ p) as [[a|e] p']. }
  wp_steps; [|done]. intros i. unfold blk, upd_blk. cbn.
  destruct (decide (i = b)) as [->|Hn]; [|rewrite lookup_alter_ne by done; apply Hp].
  rewrite lookup_alter_eq. unfold blk in *. destruct (blocks p !! b); cbn in *; lia.
Qed.
#[local] Hint Resolve sole_new_block : stable.

Lemma sole_get_new n : stable I (get_new_blocks n).
Proof. unfold get_new_blocks. repeat stable_step ltac:(done). Qed.

Lemma sole_free bs : stable I (free_blocks bs).
Proof.
  assert (∀ first last, stable I (free_loop bs first last)) as Hl.
  { induction bs as [|b bs' IH]; intros first last; cbn [free_loop]; [apply stable_ret|].
    repeat (apply IH || stable_step ltac:(apply sole_upd; [cbn; lia|done])). }
  unfold free_blocks. apply stable_bind; [apply Hl|intros r]. repeat stable_step ltac:(done).
Qed.
#[local] Hint Resolve sole_free : stable.

Lemma sole_release ids : stable I (release_cpu ids).
Proof. unfold release_cpu, register_cpu. repeat stable_step ltac:(done). Qed.
End SoleRefs.
#[export] Hint Resolve sole_get_new sole_release : stable.

Section SoleSteps.
Context {S : Type} `{BlockScorer S} (T : torch_ops).
Context (fused : list kv_layer → list Z → option (list (list (list f64)) * list (list (list f64)))).
Context (argsort_desc : list score → list nat).
Notation J := (λ s : sched S, sole_refs (s_cpu s)).

Lemma sole_orch {A} (op : M (orch S) A) : stable J (on_orch op).
Proof. by apply stable_zoom_frame. Qed.
Lemma sole_sctl {A} (op : M controller A) : stable J (on_sctl op).
Proof. by apply stable_zoom_frame. Qed.
Lemma sole_gpu {A} (op : M pool A) : stable J (on_gpu op).
Proof. by apply stable_zoom_frame. Qed.
Lemma sole_cpu {A} (op : M pool A) : stable sole_refs op → stable J (on_cpu_pool op).
Proof. intros Hop. by apply (stable_zoom _ _ _ _ (λ _, sole_refs)). Qed.
#[local] Hint Resolve sole_orch sole_sctl sole_gpu : stable.

Ltac sole := repeat (solve [auto with stable] || (apply sole_cpu; solve [auto with stable]) || stable_step ltac:(done)).

Lemma sole_stamp e : stable J (stamp_hash e).
Proof.
  unfold stamp_hash.
  repeat ((apply sole_cpu, stable_modify; intros p Hp; by apply sole_upd) || stable_step ltac:(done)).
Qed.
#[local] Hint Resolve sole_stamp : stable.

Lemma sole_trigger io : stable J (_trigger_global_offload T fused io).
Proof. unfold _trigger_global_offload. sole. Qed.
#[local] Hint Resolve sole_trigger : stable.

Lemma sole_complete io req k : stable J (complete_prefill T fused io req k).
Proof. unfold complete_prefill. sole. Qed.
#[local] Hint Resolve sole_complete : stable.

Lemma sole_build io out : stable J (build_connector_meta T fused argsort_desc io out).
Proof. unfold build_connector_meta, track_new, track_cached, finish_new, flush_stores, _prepare_staging_loads. sole. Qed.

Lemma sole_surgery es acc : stable J (surgery (S:=S) es acc).
Proof.
  revert acc. induction es as [|[r g] es IH]; intros acc; cbn [surgery]; [apply stable_ret|].
  apply stable_bind; [|intros acc'; apply IH]. unfold surgery_step. sole.
Qed.
#[local] Hint Resolve sole_surgery : stable.

Lemma sole_reports completed : stable J (update_connector_output (S:=S) completed).
Proof. unfold update_connector_output, store_completed, _process_store_completion. sole. Qed.

Lemma sole_finished req : stable J (request_finished (S:=S) req).
Proof. unfold request_finished. sole. Qed.
End SoleSteps.

(** ** The invariant *)

(** How many entries the tables have. *)
Definition total_blocks (m : gmap string (list Z)) : Z := zlen (mjoin (map_to_list m).*2).

Section System.
Context {S : Type} `{LawfulScorer S} (np n : Z) (T : torch_ops).
Context (fused : list kv_layer → list Z → option (list (list (list f64)) * list (list (list f64)))).
Context (argsort_desc : list score → list nat) (Hfused : fused_ok T fused).
Implicit Types s : sched S.

(** The mirror names existing pages and the orchestrator tracks as many blocks
    of a request as the mirror lists. *)
Record mirror_ok (m : gmap string (list Z)) (rb : gmap string (list BlockRef)) : Prop := {
  mi_pages : ∀ req l, m !! req = Some l → Forall (λ g, 0 ≤ g < np) l;
  mi_length : ∀ req, warmup_id req = false → length (default [] (rb !! req)) = length (default [] (m !! req));
  mi_total : total_blocks m < 2 ^ 52;
}.

Record sys_inv s : Prop := {
  y_sched : sched_ok s;
  y_orch : orch_inv np n (s_orch s);
  y_fresh : events_fresh s;
  y_mirror : mirror_ok (_req_block_table s) (_request_blocks (s_orch s));
  y_num : num_gpu_blocks (s_gpu s) = np;
  y_caching : enable_caching (s_cpu s) = true;
  y_frac : 0 ≤ cfg_fraction s < f64_one;
}.

(** The known blocks are among those the mirror lists. *)
Lemma known_le_total (o : orch S) m :
  orch_inv np n o → mirror_ok m (_request_blocks o) → zlen (_blocks (o_table o)) ≤ total_blocks m.
Proof.
  intros Hinv Hm.
  set (refs := mjoin ((λ e : string * list Z, mkRef e.1 <$> zrange 0 (zlen e.2)) <$> map_to_list m)).
  assert (zlen refs = total_blocks m) as <-.
  { unfold refs, total_blocks. induction (map_to_list m) as [|e l IH]; [done|].
    cbn [fmap list_fmap]. rewrite !mjoin_cons, !zlen_app, IH. f_equal.
    unfold zlen at 1. rewrite length_fmap. fold (zlen (zrange 0 (zlen e.2))).
    rewrite zrange_length. unfold zlen. lia. }
  assert ((_blocks (o_table o)).*1 ⊆+ refs) as Hsub.
  { apply NoDup_submseteq.
    - apply (to_dict _ (ts_ok _ _ _ _ (si_om _ _ _ (oi_sp _ _ _ Hinv)))).
    - intros r Hr. assert (is_Some (o_loc o r)) as Hs by (by apply dget_is_Some).
      pose proof (oi_warmup _ _ _ Hinv r Hs) as Hw.
      apply (oi_tracked _ _ _ Hinv) in Hs as (l & Hl & Hrl).
      destruct (oi_lists _ _ _ Hinv _ _ Hl) as (k & Hk & ->).
      apply elem_of_refs in Hrl as [_ Hi].
      pose proof (mi_length _ _ Hm (request_id r) Hw) as Hlen. rewrite Hl in Hlen. cbn in Hlen.
      rewrite length_fmap in Hlen. pose proof (zrange_length 0 k) as Hz. unfold zlen in Hz.
      destruct (m !! request_id r) as [t|] eqn:Et; cbn in Hlen; [|lia].
      apply list_elem_of_join. exists (mkRef (request_id r) <$> zrange 0 (zlen t)). split.
      + apply elem_of_refs. split; [done|]. unfold zlen. lia.
      + apply list_elem_of_fmap. exists (request_id r, t). split; [done|]. by apply elem_of_map_to_list. }
  apply submseteq_length in Hsub. rewrite length_fmap in Hsub. unfold zlen. lia.
Qed.

Lemma sys_inv_system s : sys_inv s → system_ok np n s.
Proof.
  intros [H1 H2 H3 H4 H5 H6 H7]. unfold system_ok. split_and!; try done || lia.
  pose proof (known_le_total _ _ H2 H4). pose proof (mi_total _ _ H4). lia.
Qed.

(** Calls that change neither the tables nor the events. *)
Lemma sys_inv_quiet s s' :
  sys_inv s → sched_ok s' → orch_inv np n (s_orch s') → quiet s' = quiet s → fixed s' = fixed s → sys_inv s'.
Proof.
  intros [H1 H2 H3 H4 H5 H6 H7] Hok Ho Hq Hf. unfold quiet, fixed, pool_static in *.
  injection Hq as E1 E2 E3 E4 E5 E6. injection Hf as F1 F2 F3 F4 F5 F6 F7 F8. split; try done.
  - unfold events_fresh. by rewrite E3, E4.
  - by rewrite E1, E2.
  - congruence.
  - congruence.
  - congruence.
Qed.

Lemma trigger_inv io s : sys_inv s → sys_inv (_trigger_global_offload T fused io s).2.
Proof.
  intros Hs. pose proof (quiet_trigger T fused io _ s eq_refl) as Hq.
  pose proof (fixed_trigger T fused io _ s eq_refl) as Hf.
  destruct (s_ready s) eqn:Hr.
  2: { unfold _trigger_global_offload. run_step. by rewrite Hr. }
  pose proof (trigger_run np n T fused Hfused io s (sys_inv_system s Hs) Hr) as Ht.
  destruct (_trigger_global_offload T fused io s) as [[a|e] s'].
  - destruct Ht as (? & ? & _). by eapply sys_inv_quiet.
  - destruct Ht as (_ & ? & ? & _). by eapply sys_inv_quiet.
Qed.

(** *** Calls that keep the invariant *)

Lemma stable_on_orch {A} (op : M (orch S) A) :
  (∀ o, orch_inv np n o → orch_inv np n (op o).2) → tracks op → stable sys_inv (on_orch op).
Proof.
  intros Hop Ht s Hs. pose proof (quiet_orch op _ Ht s eq_refl) as Hq. pose proof (fixed_orch op _ s eq_refl) as Hf.
  revert Hq Hf. unfold on_orch, zoom. specialize (Hop _ (y_orch s Hs)).
  destruct (op (s_orch s)) as [r o'] eqn:E. intros Hq Hf. apply (sys_inv_quiet s); try done.
  apply sched_ok_orch, Hs.
Qed.

Lemma stable_prefill req k : stable sys_inv (on_orch (on_prefill_complete T fused req k)).
Proof.
  apply stable_on_orch; [|apply tracks_prefill]. intros o Ho.
  apply (orch_step_inv np n T fused argsort_desc o); [done..|]. constructor.
Qed.

Lemma stable_promote io req k : stable sys_inv (on_orch (promote_hot_cpu_blocks argsort_desc io req k)).
Proof. apply stable_on_orch; [intros o; apply promote_inv|apply tracks_promote]. Qed.

Lemma stable_sctl {A} (op : M controller A) : stable sys_inv (on_sctl op).
Proof. apply stable_zoom_frame. intros s c [[] ? ? ? ? ? ?]. by split. Qed.

Lemma stable_complete io req k : stable sys_inv (complete_prefill T fused io req k).
Proof.
  unfold complete_prefill. apply stable_bind; [apply stable_modify; intros s [[] ? ? ? ? ? ?]; by split|intros _].
  apply stable_bind; [apply stable_prefill|intros _; exact (trigger_inv io)].
Qed.

Lemma mirror_trigger io c : stable (λ s, _req_block_table s = c) (_trigger_global_offload T fused io).
Proof.
  intros s <-. pose proof (quiet_trigger T fused io _ s eq_refl) as Hq. unfold quiet in Hq. by injection Hq.
Qed.

Lemma mirror_orch {A} (op : M (orch S) A) c : stable (λ s, _req_block_table s = c) (on_orch op).
Proof. by apply stable_zoom_frame. Qed.

Lemma mirror_complete io req k c : stable (λ s, _req_block_table s = c) (complete_prefill T fused io req k).
Proof.
  unfold complete_prefill. repeat (apply mirror_trigger || apply mirror_orch || stable_step ltac:(done)).
Qed.

(** Both at once, for a call whatever its outcome. *)
Lemma stable_mirror_wp {A} (m : M (sched S) A) s :
  stable sys_inv m → (∀ c, stable (λ s, _req_block_table s = c) m) → sys_inv s →
  wp m (λ _ s', sys_inv s' ∧ _req_block_table s' = _req_block_table s) (λ _, sys_inv) s.
Proof.
  intros H1 H2 Hs. specialize (H1 s Hs). specialize (H2 _ s eq_refl). unfold wp.
  by destruct (m s) as [[a|e] s'].
Qed.

(** *** Table updates of a step *)

(** A request and how its table changes. *)
Definition update : Type := string * (list Z → list Z).

Definition updated (m : gmap string (list Z)) (u : update) : list Z := u.2 (default [] (m !! u.1)).
Definition update1 (m : gmap string (list Z)) (u : update) : gmap string (list Z) :=
  <[u.1 := updated m u]> m.

(** Tables name existing pages and do not shrink while a request lives; fewer
    than [2^52] blocks are known. *)
Definition update_ok (m : gmap string (list Z)) (u : update) : Prop :=
  Forall (λ g, 0 ≤ g < np) (updated m u) ∧
  (length (default [] (m !! u.1)) ≤ length (updated m u))%nat ∧ total_blocks (update1 m u) < 2 ^ 52.

Fixpoint updates_ok (m : gmap string (list Z)) (us : list update) : Prop :=
  match us with
  | [] => True
  | u :: us' => update_ok m u ∧ updates_ok (update1 m u) us'
  end.

Lemma updates_ok_app m us vs :
  updates_ok m (us ++ vs) ↔ updates_ok m us ∧ updates_ok (foldl update1 m us) vs.
Proof. revert m. induction us as [|u us IH]; intros m; cbn; [tauto|]. rewrite IH. tauto. Qed.

Lemma sync_step u k s :
  sys_inv s → update_ok (_req_block_table s) u →
  ∃ a o', sync_request_blocks T fused u.1 (updated (_req_block_table s) u) k (s_orch s) = (Ok a, o') ∧
    sys_inv (set_orch o' (set_table (update1 (_req_block_table s) u) s)).
Proof.
  intros Hs (Hpages & Hlen & Htot). destruct Hs as [Hok Ho Hfr [Hp Hl Ht] H5 H6 H7].
  set (m := _req_block_table s) in *. destruct u as [req f]. cbn [fst] in *. set (l := updated m (req, f)) in *.
  assert (∃ a o', sync_request_blocks T fused req l k (s_orch s) = (Ok a, o') ∧ orch_inv np n o') as (a & o' & Hrun & Ho').
  { destruct (warmup_id req) eqn:Hw.
    - exists [], (s_orch s). split; [|done]. unfold sync_request_blocks. by rewrite Hw.
    - destruct (sync_run np n T fused Hfused req l k (s_orch s)) as (o' & Hrun & Hsy); [done..| |].
      + rewrite Hl by done. exact Hlen.
      + eexists _, o'. split; [exact Hrun|apply Hsy]. }
  exists a, o'. split; [exact Hrun|]. pose proof (sync_requests T fused req l k _ _ _ Hrun) as Hrb.
  split; try done; [destruct Hok; by split|]. cbn. split; [| |exact Htot].
  - intros r t [[<- <-]|[_ Ht']]%lookup_insert_Some; [done|by eapply Hp].
  - intros r Hw. rewrite Hrb. unfold update1. cbn [fst]. destruct (decide (r = req)) as [->|Hne].
    + rewrite Hw, !lookup_insert_eq. cbn. rewrite length_fmap.
      apply Nat2Z.inj. change (zlen (zrange 0 (zlen l)) = zlen l). rewrite zrange_length. unfold zlen. lia.
    + rewrite (lookup_insert_ne m) by done. destruct (warmup_id req); rewrite ?lookup_insert_ne by done; by apply Hl.
Qed.

Lemma track_loop {A} (f : A → M (sched S) unit) (g : A → update) (l : list A) s :
  (∀ x s, sys_inv s → update_ok (_req_block_table s) (g x) →
     wp (f x) (λ _ s', sys_inv s' ∧ _req_block_table s' = update1 (_req_block_table s) (g x)) (λ _, sys_inv) s) →
  sys_inv s → updates_ok (_req_block_table s) (g <$> l) →
  wp (mfor l f) (λ _ s', sys_inv s' ∧ _req_block_table s' = foldl update1 (_req_block_table s) (g <$> l))
    (λ _, sys_inv) s.
Proof.
  intros Hf. revert s. induction l as [|x l IH]; intros s Hs Hok; [by apply wp_ret|].
  destruct Hok as [Hu Hok]. cbn [mfor fmap list_fmap foldl]. apply wp_bind.
  eapply wp_mono; [by apply Hf| |done]. intros [] s' [Hs' Hm]. rewrite <-Hm. apply IH; [done|by rewrite Hm].
Qed.

Definition new_update (r : new_req) : update := (nr_id r, λ _, nr_blocks r).
Definition cached_update (resumed : gset string) (e : string * Z * option (list Z)) : update :=
  (e.1.1, λ old, if bool_decide (e.1.1 ∈ resumed) then default [] e.2 else old ++ default [] e.2).

Lemma track_new_wp r s :
  sys_inv s → update_ok (_req_block_table s) (new_update r) →
  wp (track_new T fused r) (λ _ s', sys_inv s' ∧ _req_block_table s' = update1 (_req_block_table s) (new_update r))
    (λ _, sys_inv) s.
Proof.
  intros Hs Hu. destruct (sync_step (new_update r) (nr_computed r) s Hs Hu) as (a & o' & Hrun & Hs').
  unfold track_new. apply wp_bind, wp_modify, wp_bind, wp_zoom. unfold wp at 1.
  cbn -[sync_request_blocks]. unfold updated, new_update in Hrun. cbn in Hrun. rewrite Hrun.
  eapply wp_mono; [apply stable_mirror_wp; [| |exact Hs']|by intros [] s1|done].
  - apply stable_bind; [apply stable_gets|intros d]. apply stable_bind.
    + destruct (negb d); [apply stable_sctl|apply stable_ret].
    + intros _. apply stable_modify. intros s1 [[] ? ? ? ? ? ?]. by split.
  - intros c. repeat ((by apply stable_zoom_frame) || stable_step ltac:(done)).
Qed.

Lemma track_cached_wp io out e s :
  sys_inv s → update_ok (_req_block_table s) (cached_update (resumed_req_ids out) e) →
  wp (track_cached T fused io out e)
    (λ _ s', sys_inv s' ∧ _req_block_table s' = update1 (_req_block_table s) (cached_update (resumed_req_ids out) e))
    (λ _, sys_inv) s.
Proof.
  destruct e as [[req k] new_ids]. intros Hs Hu.
  destruct (sync_step (cached_update (resumed_req_ids out) (req, k, new_ids)) k s Hs Hu) as (a & o' & Hrun & Hs').
  unfold track_cached. apply wp_bind, wp_gets, wp_bind, wp_modify, wp_bind, wp_zoom. unfold wp at 1.
  unfold full_table. unfold updated, cached_update in Hrun. cbn in Hrun. cbn -[sync_request_blocks]. rewrite Hrun.
  eapply wp_mono; [apply stable_mirror_wp; [| |exact Hs']|by intros [] s1|done].
  - apply stable_bind; [apply stable_gets|intros s1].
    apply stable_bind; [destruct (_ && _); [apply stable_complete|apply stable_ret]|intros _].
    apply stable_bind; [apply stable_gets|intros p]. destruct (_ && _); [|apply stable_ret].
    apply stable_bind; [apply stable_sctl|intros d]. destruct d; [exact (trigger_inv io)|apply stable_ret].
  - intros c. repeat (apply mirror_complete || apply mirror_trigger || (by apply stable_zoom_frame) || stable_step ltac:(done)).
Qed.

Lemma stable_finish_new io r : stable sys_inv (finish_new T fused io r).
Proof.
  unfold finish_new. apply stable_bind; [apply stable_gets|intros s].
  destruct (_ && _); [apply stable_complete|apply stable_ret].
Qed.

Lemma stable_flush m : stable sys_inv (flush_stores m).
Proof.
  intros s Hs. destruct (decide (_step_store_acc s = [])) as [E|E].
  { unfold flush_stores. run_step. by rewrite bool_decide_eq_true_2. }
  destruct (flush_run m s (y_sched s Hs) (y_fresh s Hs) E)
    as (s' & Hrun & Hok & Hfr & _ & _ & _ & Ho & Hg & Hcpu).
  assert (stable (λ s', (_req_block_table s', cfg_fraction s') = (_req_block_table s, cfg_fraction s)) (flush_stores m)) as Hk.
  { unfold flush_stores. repeat stable_step ltac:(done). }
  specialize (Hk s eq_refl). rewrite Hrun in Hk |- *. injection Hk as Hk1 Hk2.
  destruct Hs as [H1 H2 H3 H4 H5 H6 H7]. split; cbn; rewrite ?Ho, ?Hg, ?Hcpu, ?Hk1, ?Hk2; done.
Qed.

(** What vLLM's scheduler sends: the tables of the new and the running requests. *)
Definition output_ok s (out : SchedulerOutput) : Prop :=
  updates_ok (_req_block_table s)
    ((new_update <$> scheduled_new_reqs out) ++
     (cached_update (resumed_req_ids out) <$>
        zip (zip (cached_req_ids out) (cached_num_computed out)) (cached_new_block_ids out))).

Lemma build_inv io out s :
  sys_inv s → output_ok s out → sys_inv (build_connector_meta T fused argsort_desc io out s).2.
Proof.
  intros Hs [Hn Hc]%updates_ok_app.
  enough (wp (build_connector_meta T fused argsort_desc io out) (λ _, sys_inv) (λ _, sys_inv) s) as Hw.
  { unfold wp in Hw. by destruct (build_connector_meta T fused argsort_desc io out s) as [[a|e] s']. }
  unfold build_connector_meta. apply wp_bind, wp_gets, wp_bind, wp_gets, wp_bind.
  apply (wp_mono _ (λ _ s', sys_inv s' ∧ _req_block_table s' = _req_block_table s) _ (λ _, sys_inv)); [| |done].
  { apply stable_mirror_wp; [| |done].
    - destruct (s_ready s); [|apply stable_ret]. apply stable_bind; [apply stable_gets|intros tf].
      apply stable_on_orch; [|intros rb; by apply stable_modify]. intros o Ho. by eapply orch_inv_frame.
    - intros c. repeat (apply mirror_orch || stable_step ltac:(done)). }
  intros [] s1 [Hs1 Hm1]. rewrite <-Hm1 in Hn, Hc. destruct (negb (s_ready s) || negb (s_bound s)); [by apply wp_ret|].
  apply wp_bind. eapply wp_mono; [apply (track_loop _ new_update); [apply track_new_wp|done|done]| |done].
  intros [] s2 [Hs2 Hm2]. apply wp_bind.
  eapply wp_mono; [apply (track_loop _ (cached_update (resumed_req_ids out))); [apply track_cached_wp|done|by rewrite Hm2]| |done].
  intros [] s3 [Hs3 _].
  assert (Hst : ∀ A (m : M (sched S) A), stable sys_inv m → wp m (λ _, sys_inv) (λ _, sys_inv) s3).
  { intros A m Hm. specialize (Hm s3 Hs3). unfold wp. by destruct (m s3) as [[a|e] s']. }
  apply Hst. apply stable_bind; [apply stable_mfor; intros r _; apply stable_finish_new|intros _].
  apply stable_bind; [apply stable_gets|intros active]. apply stable_bind.
  { case_bool_decide; [apply stable_ret|]. unfold _prepare_staging_loads.
    apply stable_bind; [apply stable_gets|intros k]. apply stable_bind; [|intros _; apply stable_ret].
    apply stable_modify. intros s4 [[] ? ? ? ? ? ?]. by split. }
  intros m. apply stable_bind; [apply stable_gets|intros s4]. apply stable_bind; [|intros _; apply stable_flush].
  destruct (_ && _); [|apply stable_ret]. apply stable_mfor. intros r _.
  apply stable_bind; [apply stable_promote|intros _; apply stable_ret].
Qed.

(** *** Completions *)

Lemma total_blocks_new m k l : m !! k = None → total_blocks (<[k := l]> m) = zlen l + total_blocks m.
Proof.
  intros Hk. unfold total_blocks. rewrite <-zlen_app. unfold zlen. f_equal. apply Permutation_length.
  rewrite (map_to_list_insert m k l Hk). done.
Qed.

Lemma total_blocks_delete m k : total_blocks (delete k m) = total_blocks m - zlen (default [] (m !! k)).
Proof.
  destruct (m !! k) as [l|] eqn:E; cbn; [|rewrite delete_id by done; change (zlen []) with 0; lia].
  rewrite <-(insert_delete_id m k l E) at 2. rewrite total_blocks_new by apply lookup_delete_eq. lia.
Qed.

Lemma total_blocks_set m k l l' : m !! k = Some l → length l' = length l → total_blocks (<[k := l']> m) = total_blocks m.
Proof.
  intros Hk Hl. rewrite <-insert_delete_eq, total_blocks_new, total_blocks_delete, Hk by apply lookup_delete_eq.
  cbn. unfold zlen. lia.
Qed.

Lemma mirror_set m rb k l l' :
  mirror_ok m rb → m !! k = Some l → length l' = length l → Forall (λ g, 0 ≤ g < np) l' →
  mirror_ok (<[k := l']> m) rb.
Proof.
  intros [H1 H2 H3] Hk Hl Hp. split.
  - intros req t [[<- <-]|[_ Ht]]%lookup_insert_Some; [done|by eapply H1].
  - intros req Hw. rewrite H2 by done. destruct (decide (req = k)) as [->|].
    + by rewrite lookup_insert_eq, Hk.
    + by rewrite lookup_insert_ne.
  - by rewrite (total_blocks_set m k l l').
Qed.

Lemma stable_surgery es acc rb : 0 < np →
  stable (λ s, mirror_ok (_req_block_table s) rb) (surgery (S:=S) es acc).
Proof.
  intros Hnp. revert acc. induction es as [|[r g] es IH]; intros acc; cbn [surgery]; [apply stable_ret|].
  apply stable_bind; [|intros acc'; apply IH]. intros s Hs.
  enough (wp (surgery_step (r, g) acc) (λ _ s, mirror_ok (_req_block_table s) rb)
            (λ _ s, mirror_ok (_req_block_table s) rb) s) as Hw.
  { unfold wp in Hw. by destruct (surgery_step (r, g) acc s) as [[a|e] s']. }
  unfold surgery_step. wp_steps; try done. destruct (default ∅ (s_tables s) !! request_id r); [|done].
  wp_steps; try done. destruct (py_index l (block_idx r)); [|done]. wp_steps; [done|].
  destruct (py_set_index l (block_idx r) null_block); [|done]. wp_steps.
  - set (old := default [] (_req_block_table s !! request_id r)) in *.
    destruct (py_set_index old _ _) as [m'|] eqn:Em; [|done]. wp_steps.
    assert (mirror_ok (<[request_id r := m']> (_req_block_table s)) rb) as Hm'.
    { apply py_set_index_Ok in Em as (j & Hj & ->). destruct (_req_block_table s !! request_id r) as [t|] eqn:Et;
        cbn in old; [|cbn in Hj; lia]. apply (mirror_set _ _ _ t); [done|done|by rewrite length_insert|].
      apply Forall_insert; [by eapply (mi_pages _ _ Hs)|]. unfold null_block. lia. }
    by destruct (block_at (s_gpu s) g).
  - by destruct (block_at (s_gpu s) g).
Qed.

Lemma fixed_completion k c : stable (λ s, fixed s = c) (_process_store_completion (S:=S) k).
Proof.
  assert (∀ es acc, stable (λ s, fixed s = c) (surgery (S:=S) es acc)) as Hs.
  { induction es as [|[r g] es IH]; intros acc; cbn [surgery]; [apply stable_ret|].
    apply stable_bind; [|intros acc'; apply IH]. unfold surgery_step. repeat stable_step ltac:(done). }
  unfold _process_store_completion.
  repeat (apply Hs || (apply fixed_cpu; intros c'; auto with stable)
          || (apply fixed_gpu; intros c'; auto with stable) || stable_step ltac:(done)).
Qed.

Lemma stable_mirror_completion k rb : 0 < np →
  stable (λ s, mirror_ok (_req_block_table s) rb) (_process_store_completion (S:=S) k).
Proof.
  intros Hnp. unfold _process_store_completion.
  repeat ((by apply stable_surgery) || (by apply stable_zoom_frame) || stable_step ltac:(done)).
Qed.

Lemma sys_inv_np s : sys_inv s → 0 < np.
Proof.
  intros Hs. destruct (so_gpu s (y_sched s Hs)) as [l Hl]. rewrite <-(y_num s Hs).
  apply (ro_pos _ _ _ (proj1 (proj2 Hl))).
Qed.

Lemma completion_counter k s : _store_event_counter (_process_store_completion k s).2 = _store_event_counter s.
Proof.
  set (c := _store_event_counter s).
  assert (∀ es acc, stable (λ s', _store_event_counter s' = c) (surgery (S:=S) es acc)) as Hs.
  { induction es as [|[r g] es IH]; intros acc; cbn [surgery]; [apply stable_ret|].
    apply stable_bind; [|intros acc'; apply IH]. unfold surgery_step. repeat stable_step ltac:(done). }
  unfold _process_store_completion. run_step. destruct (_pending_store_events s !! k); [|done]. run_step.
  match goal with |- _store_event_counter (?m ?s1).2 = c =>
    assert (stable (λ s', _store_event_counter s' = c) m) as Hm; [|by apply Hm] end.
  repeat (apply Hs || (by apply stable_zoom_frame) || stable_step ltac:(done)).
Qed.

Lemma stable_completion k : stable sys_inv (_process_store_completion (S:=S) k).
Proof.
  intros s Hs. pose proof (fixed_completion k _ s eq_refl) as Hf.
  pose proof (stable_mirror_completion k _ (sys_inv_np s Hs) s (y_mirror s Hs)) as Hm.
  pose proof (completion_counter k s) as Hc.
  destruct (_pending_store_events s !! k) as [b|] eqn:Eb.
  2: { unfold _process_store_completion in *. revert Hf Hm Hc. run_step. by rewrite Eb. }
  destruct (completion_run s k b (y_sched s Hs) Eb) as (s' & Hrun & [Hok Ho _ _] & Hp).
  rewrite Hrun in *. unfold fixed, pool_static in Hf. injection Hf as F1 F2 F3 F4 F5 F6 F7 F8.
  destruct Hs as [H1 H2 H3 H4 H5 H6 H7]. split; cbn in *; rewrite ?Ho; try done; try congruence.
  intros k' Hk'. rewrite Hp, Hc in *. rewrite lookup_delete_None. right. by apply H3.
Qed.

Lemma stable_reports completed : stable sys_inv (update_connector_output (S:=S) completed).
Proof.
  unfold update_connector_output. apply stable_mfor. intros [k c] _. unfold store_completed.
  assert (∀ f, stable sys_inv (modify (λ s, set_counts (f s) s))) as Hc.
  { intros f. apply stable_modify. intros s [[] ? ? ? ? ? ?]. by split. }
  apply stable_bind; [apply Hc|intros _]. apply stable_bind; [apply stable_gets|intros k'].
  apply stable_bind; [apply stable_gets|intros need]. destruct (need <=? k'); [|apply stable_ret].
  apply stable_bind; [apply stable_completion|intros _; apply Hc].
Qed.

Lemma finished_inv req s : sys_inv s → s_ready s = true → sys_inv (request_finished req s).2.
Proof.
  intros Hs Hr. destruct (cleanup_run np n req (s_orch s) (y_orch s Hs)) as (o' & Hrun & Hcl).
  unfold request_finished. run_step. rewrite Hr.
  erewrite bind_ok by (apply (zoom_ok s_orch set_orch); exact Hrun). cbn beta.
  erewrite bind_ok by (apply (zoom_ok s_ctl set_sctl); unfold ctl_remove; apply modify_run). cbn beta.
  do 3 run_step. destruct Hs as [H1 H2 H3 [Hp Hl Ht] H5 H6 H7]. split; cbn; try done.
  - destruct H1. by split.
  - apply Hcl.
  - rewrite (cl_untracked _ _ _ _ _ Hcl). split.
    + intros r l [_ Hr']%lookup_delete_Some. by eapply Hp.
    + intros r Hw. destruct (decide (r = req)) as [->|]; [by rewrite !lookup_delete_eq|].
      rewrite !lookup_delete_ne by done. by apply Hl.
    + rewrite total_blocks_delete. unfold zlen. lia.
Qed.

(** *** Reachable states *)

(** vLLM's own work on the pool and the tables (allocation, preemption, release):
    it keeps every page that a table names referenced. *)
Definition tables_ok (p : pool) (tables : option (gmap string (list Z))) : Prop :=
  (∃ l, pool_inv p l) ∧ num_gpu_blocks p = np ∧ ∀ m, tables = Some m → valid_tables m p ∧ held m p.

Inductive sys_step s : sched S → Prop :=
  | ss_build io out : output_ok s out → sys_step s (build_connector_meta T fused argsort_desc io out s).2
  | ss_reports completed : sys_step s (update_connector_output completed s).2
  | ss_finished req : s_ready s = true → sys_step s (request_finished req s).2
  | ss_vllm p tables : tables_ok p tables → sys_step s (set_tables tables (set_gpu p s)).

Inductive sys_steps s : sched S → Prop :=
  | sr_refl : sys_steps s s
  | sr_step s1 s2 : sys_steps s s1 → sys_step s1 s2 → sys_steps s s2.

Lemma sys_step_inv s s' : sys_inv s → sys_step s s' → sys_inv s'.
Proof.
  intros Hs [io out Hout|completed|req Hr|p tables (Hp & Hnum & Ht)].
  - by apply build_inv.
  - by apply stable_reports.
  - by apply finished_inv.
  - destruct Hs as [[] H2 H3 H4 H5 H6 H7]. split; try done. split; try done; unfold batch_ok in *; cbn; rewrite Hnum, <-H5; done.
Qed.

Lemma sys_steps_inv s s' : sys_inv s → sys_steps s s' → sys_inv s'.
Proof. intros Hs. induction 1; [done|]. by eapply sys_step_inv. Qed.
(** No CPU block is ever held twice. *)
Lemma sys_steps_sole s s' : sole_refs (s_cpu s) → sys_steps s s' → sole_refs (s_cpu s').
Proof.
  intros Hs. induction 1 as [|s1 s2 _ IH Hst]; [done|]. destruct Hst; [by apply sole_build|by apply sole_reports|
    by apply sole_finished|done].
Qed.
End System.

(** A newly started connector, bound to vLLM's pool. *)
Record sys_init {S} `{LawfulScorer S} (np n : Z) (s : sched S) : Prop := {
  yi_orch : fresh_system np n (s_orch s);
  yi_tables : tables_ok np (s_gpu s) (s_tables s);
  yi_cpu : ∃ size hbs, 0 < size ∧ pool_init size true hbs = Ok (s_cpu s);
  yi_empty : _step_store_acc s = [] ∧ _pending_store_events s = ∅ ∧ _req_block_table s = ∅;
  yi_frac : 0 ≤ cfg_fraction s < f64_one;
}.

Lemma sys_init_inv {S} `{LawfulScorer S} np n (s : sched S) : sys_init np n s → sys_inv np n s.
Proof.
  intros [Ho (Hp & Hnum & Ht) (size & hbs & Hsize & Hcpu) (Hacc & Hpend & Hmir) Hfr].
  destruct (pool_init_run size true hbs Hsize) as (p & Hp' & Hpi & _ & Hc & _). rewrite Hcpu in Hp'. injection Hp' as Hp'.
  assert (_request_blocks (s_orch s) = ∅) as Hrb by (destruct (fr_built _ _ _ Ho) as (? & ? & ? & ? & ? & ? & ? & ? & ? & ? & ? & ? & ? & ? & _ & _ & -> & _); done).
  split; try done.
  - split; try done.
    + exists (zrange 1 size). by rewrite Hp'.
    + unfold inflight. rewrite Hacc, Hpend, map_to_list_empty. intros b []%elem_of_nil.
    + rewrite Hacc. constructor.
    + intros k b. by rewrite Hpend, lookup_empty.
  - by apply fresh_inv.
  - intros k _. by rewrite Hpend, lookup_empty.
  - rewrite Hmir, Hrb. split; [by intros ? ? ?%lookup_empty_Some|by intros ? _; rewrite !lookup_empty|done].
  - by rewrite Hp'.
Qed.

Lemma sole_sys_init {S} `{LawfulScorer S} np n (s : sched S) : sys_init np n s → sole_refs (s_cpu s).
Proof. intros Hi. destruct (yi_cpu _ _ _ Hi) as (size & hbs & Hs & Hp). by eapply sole_init. Qed.

(** ** The property *)

(** C1: the offload system stays consistent under any interleaving of its events, as
    long as vLLM keeps its side: every table that a scheduling step reports names
    existing pages and is at least as long as the request's last one (a shorter one
    leaks slots, see [shrinking_table_leaks_slot]), fewer than [2^52] blocks are
    known, vLLM's own changes keep every page that a table lists referenced,
    requests finish on a connector that is ready, and the fused kernel, when it
    answers, returns one norm row per page. From a newly started connector, after
    any sequence of such scheduling steps, worker reports, finished requests and
    changes by vLLM, and whatever each call raised on the way: a page that a
    request's table names is referenced, so it is on no free list; a CPU block of
    the batches in flight, the pool's null block apart, occurs among them once and
    holds the only reference; the next store event has a fresh id; and only blocks
    of requests with a mirrored table are known, at indices inside it, so when no
    such table is left every CPU slot and every staging slot is free. *)
Theorem offload_system_safe {S} `{LawfulScorer S} np n T fused argsort_desc (s s' : sched S) :
  fused_ok T fused → sys_init np n s → sys_steps np T fused argsort_desc s s' →
  (∀ m req l g r nul, s_tables s' = Some m → m !! req = Some l → g ∈ l → g ≠ null_block →
     refs (s_gpu s') !! g = Some (r, nul) → 0 < r) ∧
  (∀ b, b ∈ inflight s' → ∃ r nul, refs (s_cpu s') !! b = Some (r, nul) ∧ (nul = true ∨ occ b (inflight s') ≤ r ≤ 1)) ∧
  _pending_store_events s' !! _store_event_counter s' = None ∧
  (∀ ref, is_Some (s_loc s' ref) → ∃ l, _req_block_table s' !! request_id ref = Some l ∧ 0 ≤ block_idx ref < zlen l) ∧
  (_req_block_table s' = ∅ →
     _cpu_free (o_om (s_orch s')) ≡ₚ zrange 0 n ∧
     _free (o_pool (s_orch s')) ≡ₚ zrange 0 (num_slots (o_pool (s_orch s')))).
Proof.
  intros Hfu Hi Hst. pose proof (sys_steps_inv np n T fused argsort_desc Hfu _ _ (sys_init_inv np n s Hi) Hst) as Hs.
  destruct Hs as [Hok Ho Hfr Hm Hnum Hc _].
  assert (Hlive : ∀ ref, is_Some (s_loc s' ref) →
    ∃ l, _req_block_table s' !! request_id ref = Some l ∧ 0 ≤ block_idx ref < zlen l).
  { intros ref Hs. pose proof (oi_warmup _ _ _ Ho ref Hs) as Hw.
    apply (oi_tracked _ _ _ Ho) in Hs as (l & Hl & Hin). destruct (oi_lists _ _ _ Ho _ _ Hl) as (k & Hk & ->).
    apply elem_of_refs in Hin as [_ Hi']. pose proof (mi_length _ _ _ Hm (request_id ref) Hw) as Hlen.
    rewrite Hl in Hlen. cbn in Hlen. rewrite length_fmap in Hlen. pose proof (zrange_length 0 k) as Hz. unfold zlen in Hz.
    destruct (_req_block_table s' !! request_id ref) as [t|]; cbn in Hlen; [|lia].
    exists t. split; [done|]. unfold zlen. lia. }
  split; [|split; [|split; [|split; [exact Hlive|]]]].
  - intros m req l g r nul Hm' Hl Hg Hn Hr. destruct (so_tables _ Hok m Hm') as [_ Hh].
    pose proof (Hh g r nul Hn Hr). pose proof (occ_le_total g m req) as Ho'. rewrite Hl in Ho'. cbn in Ho'.
    pose proof (occ_pos g l Hg). lia.
  - intros b Hb. destruct (so_inflight _ Hok b Hb) as (r & nul & Hr & Ho'). exists r, nul. split; [done|].
    destruct Ho' as [|Ho']; [by left|right]. split; [done|].
    apply (sys_steps_sole np T fused argsort_desc _ _ (sole_sys_init np n s Hi)) in Hst. specialize (Hst b).
    unfold refs in Hr. rewrite lookup_fmap in Hr. unfold blk in Hst. destruct (blocks (s_cpu s') !! b); [|done].
    injection Hr as <- _. exact Hst.
  - apply Hfr. lia.
  - intros Hempty. apply (orch_slots_free np n); [done|]. intros r.
    destruct (s_loc s' r) eqn:E; [|done]. destruct (Hlive r) as (l & Hl & _); [by eexists|].
    by rewrite Hempty, lookup_empty in Hl.
Qed.

(** *** Witness: request "r" arrives with its prompt on page 1 computed, its block
    is offloaded, the worker reports the store, the page is recycled and the
    request ends. *)
Definition sys_s0 : sched LRUScorer :=
  Sched true demo_o0 true demo_gpu (Some demo_tables) (demo_pool 3) (Ctl 2 2 ∅ ∅) 0 0 1 ∅ ∅ ∅ [] ∅ ∅ true
    (f64_lit 7 3) 0.
Definition sys_out : SchedulerOutput := SOut [NewReq "r" [1] 2 2] [] [] [] ∅ ∅.
Definition sys_s1 : sched LRUScorer :=
  (build_connector_meta (H:=lru_scorer) demo_T demo_fused (λ _, []) None sys_out sys_s0).2.
Definition sys_s2 : sched LRUScorer := (update_connector_output [(0, 1)] sys_s1).2.
Definition sys_s3 : sched LRUScorer := (request_finished (H:=lru_scorer) "r" sys_s2).2.

Lemma sys_s0_init : sys_init (H:=lru_scorer) 3 2 sys_s0.
Proof.
  split.
  - exact demo_o0_fresh.
  - split; [exact demo_gpu_inv|]. split; [by vm_compute|]. intros m [= <-]. exact demo_tables_held.
  - exists 3, 16. split; [lia|]. by vm_compute.
  - by vm_compute.
  - split; by vm_compute.
Qed.

Lemma offload_system_safe_witness :
  option_map residency (s_loc sys_s1 (mkRef "r" 0)) = Some CPU ∧
  s_tables sys_s2 = Some {["r"%string := [null_block]]} ∧
  _cpu_free (o_om (s_orch sys_s3)) ≡ₚ zrange 0 2.
Proof.
  split; [by vm_compute|]. split; [by vm_compute|].
  destruct (offload_system_safe (H:=lru_scorer) 3 2 demo_T demo_fused (λ _, []) sys_s0 sys_s3)
    as (_ & _ & _ & _ & Hfree).
  - exact demo_fused_ok.
  - exact sys_s0_init.
  - apply (sr_step _ _ _ _ _ sys_s2); [|apply ss_finished; by vm_compute].
    apply (sr_step _ _ _ _ _ sys_s1); [|apply ss_reports].
    apply (sr_step _ _ _ _ _ sys_s0); [constructor|]. apply ss_build.
    split; [|done]. split; [repeat constructor; by vm_compute|]. split; [vm_compute; lia|by vm_compute].
  - apply Hfree. by vm_compute.
Defined.
