(* ===== verification/Worker.v ===== *)
(** * The worker connector's event tracking

    Models the store and load bookkeeping of [OffloadPackageWorker] of
    offload_package/integration/worker_connector.py: [wait_for_save] records an
    event for the step's store, [get_finished] polls the recorded CUDA events in
    order and moves the finished ones to the report, [build_worker_meta] hands
    the report to the scheduler.  Whether a CUDA event has completed when it is
    queried is an argument.  [start_load_kv] is in WorkerLoad.v; the injection
    into the Skylight builders is not modelled. *)

From S2P Require Import Prelude PyData Scheduler.
From stdpp Require Import base gmap sets list strings sorting.
From Stdlib Require Import ZArith Lia.
Open Scope Z_scope.

Record worker := Worker {
  (** [_metadata] *)
  w_meta : option OffloadPackageMetadata;
  (** [_orchestrator is not None] *)
  w_ready : bool;
  _load_events : list Z;
  _store_events : list Z;
  _load_hwm : Z;
  _store_hwm : Z;
  _pending_load_event_indices : gset Z;
  _pending_store_event_indices : gset Z;
  _completed_load_events : gmap Z Z;
  _completed_store_events : gmap Z Z;
}.

Definition worker_init (ready : bool) : worker := Worker None ready [] [] (-1) (-1) ∅ ∅ ∅ ∅.

Definition with_meta (m : option OffloadPackageMetadata) (w : worker) : worker :=
  Worker m (w_ready w) (_load_events w) (_store_events w) (_load_hwm w) (_store_hwm w)
    (_pending_load_event_indices w) (_pending_store_event_indices w)
    (_completed_load_events w) (_completed_store_events w).
Definition with_load (ev : list Z) (hwm : Z) (pend : gset Z) (compl : gmap Z Z) (w : worker) : worker :=
  Worker (w_meta w) (w_ready w) ev (_store_events w) hwm (_store_hwm w)
    pend (_pending_store_event_indices w) compl (_completed_store_events w).
Definition with_store (ev : list Z) (hwm : Z) (pend : gset Z) (compl : gmap Z Z) (w : worker) : worker :=
  Worker (w_meta w) (w_ready w) (_load_events w) ev (_load_hwm w) hwm
    (_pending_load_event_indices w) pend (_completed_load_events w) compl.

Definition bind_connector_metadata (m : OffloadPackageMetadata) : M worker unit :=
  modify (with_meta (Some m)).
Definition clear_connector_metadata : M worker unit := modify (with_meta None).

(** The event [wait_for_save] records, if any. *)
Definition saved_event (w : worker) : option Z :=
  match w_meta w with
  | None => None
  | Some m =>
      if store_event m =? -1 then None
      else if bool_decide (store_gpu_blocks m = []) then None
      else if negb (w_ready w) then None
      else Some (store_event m)
  end.

Definition wait_for_save : M worker unit :=
  let! k := gets saved_event in
  match k with
  | None => ret tt
  | Some k => modify (λ w, with_store (_store_events w ++ [k]) (_store_hwm w)
      ({[k]} ∪ _pending_store_event_indices w) (_completed_store_events w) w)
  end.

(** The loop of [_poll_events]: pop the leading finished events. *)
Fixpoint poll_loop (done : Z → bool) (events : list Z) (hwm : Z) : list Z * Z :=
  match events with
  | [] => ([], hwm)
  | e :: events' => if done e then poll_loop done events' e else (events, hwm)
  end.

Definition _poll_events (is_store : bool) (done : Z → bool) : M worker Z :=
  let! w := gets (λ w, w) in
  if is_store then
    let '(ev, hwm) := poll_loop done (_store_events w) (_store_hwm w) in
    modify (λ w, with_store ev hwm (_pending_store_event_indices w) (_completed_store_events w) w) >>
    ret hwm
  else
    let '(ev, hwm) := poll_loop done (_load_events w) (_load_hwm w) in
    modify (λ w, with_load ev hwm (_pending_load_event_indices w) (_completed_load_events w) w) >>
    ret hwm.

(** [[j for j in pending if j <= wm]] *)
Definition finished_upto (wm : Z) (pend : gset Z) : list Z :=
  filter (λ j, j ≤ wm) (elements pend).

Definition finish_load (j : Z) : M worker unit :=
  modify (λ w, with_load (_load_events w) (_load_hwm w) (_pending_load_event_indices w ∖ {[j]})
    (<[j := 1]> (_completed_load_events w)) w).
Definition finish_store (j : Z) : M worker unit :=
  modify (λ w, with_store (_store_events w) (_store_hwm w) (_pending_store_event_indices w ∖ {[j]})
    (<[j := 1]> (_completed_store_events w)) w).

(** The requests whose loads finished, as a set. *)
Definition finished_reqs (w : worker) (js : list Z) : gset string :=
  match w_meta w with
  | None => ∅
  | Some m => list_to_set (mjoin ((λ j, default [] (load_event_to_reqs m !! j)) <$> js))
  end.

Definition get_finished (load_done store_done : Z → bool) : M worker (option (gset string)) :=
  let! w := gets (λ w, w) in
  let! recving := (if bool_decide (_pending_load_event_indices w = ∅) then ret ∅
    else
      let! wm := _poll_events false load_done in
      let js := finished_upto wm (_pending_load_event_indices w) in
      mfor js finish_load >>
      ret (finished_reqs w js)) in
  let! w := gets (λ w, w) in
  (if bool_decide (_pending_store_event_indices w = ∅) then ret tt
   else
     let! wm := _poll_events true store_done in
     mfor (finished_upto wm (_pending_store_event_indices w)) finish_store) >>
  ret (if bool_decide (recving = ∅) then None else Some recving).

Definition build_worker_meta : M worker (option OffloadPackageWorkerMetadata) :=
  let! w := gets (λ w, w) in
  if bool_decide (_completed_store_events w = ∅) && bool_decide (_completed_load_events w = ∅)
  then ret None
  else
    modify (λ w, with_load (_load_events w) (_load_hwm w) (_pending_load_event_indices w) ∅ w) >>
    modify (λ w, with_store (_store_events w) (_store_hwm w) (_pending_store_event_indices w) ∅ w) >>
    ret (Some (WMeta (_completed_store_events w) (_completed_load_events w))).

(** [event.synchronize()] waits; the high-water mark ends at the last event. *)
Definition _flush_and_sync_all : M worker unit :=
  modify (λ w, with_load [] (default (_load_hwm w) (last (_load_events w)))
    (_pending_load_event_indices w) (_completed_load_events w) w) >>
  modify (λ w, with_store [] (default (_store_hwm w) (last (_store_events w)))
    (_pending_store_event_indices w) (_completed_store_events w) w).

(** ** The event history of a worker

    [rec] lists the store events recorded so far, [rep] those already handed to
    the scheduler, [fin] the events whose CUDA event was seen finished (a true
    query or a [synchronize] that returned). *)

Record history := History {
  h_worker : worker;
  h_rec : list Z;
  h_rep : list Z;
  h_fin : gset Z;
}.

(** The store events of a report. *)
Definition reported (r : option OffloadPackageWorkerMetadata) : list Z :=
  match r with
  | None => []
  | Some m => elements (dom (completed_store_events m))
  end.

(** One call of the worker.  The scheduler numbers its store events with an
    increasing counter, which is the premise of [step_save]. *)
Inductive wstep : history → history → Prop :=
  | step_bind m w w' rec rep fin :
      bind_connector_metadata m w = (Ok tt, w') →
      wstep (History w rec rep fin) (History w' rec rep fin)
  | step_clear w w' rec rep fin :
      clear_connector_metadata w = (Ok tt, w') →
      wstep (History w rec rep fin) (History w' rec rep fin)
  | step_save w w' rec rep fin :
      (∀ k, saved_event w = Some k → 0 ≤ k ∧ ∀ j, j ∈ rec → j < k) →
      wait_for_save w = (Ok tt, w') →
      wstep (History w rec rep fin)
            (History w' (rec ++ option_list (saved_event w)) rep fin)
  | step_poll load_done store_done r w w' rec rep fin :
      get_finished load_done store_done w = (Ok r, w') →
      wstep (History w rec rep fin)
            (History w' rec rep
               (fin ∪ list_to_set (filter (λ e, store_done e = true) (_store_events w))))
  | step_report r w w' rec rep fin :
      build_worker_meta w = (Ok r, w') →
      wstep (History w rec rep fin) (History w' rec (rep ++ reported r) fin)
  | step_flush w w' rec rep fin :
      _flush_and_sync_all w = (Ok tt, w') →
      wstep (History w rec rep fin)
            (History w' rec rep (fin ∪ list_to_set (_store_events w))).

Definition worker_reach (ready : bool) (h : history) : Prop :=
  rtc wstep (History (worker_init ready) [] [] ∅) h.

(** ** Polling *)

Lemma poll_loop_spec done events hwm ev' hwm' :
  poll_loop done events hwm = (ev', hwm') →
  ∃ pre, events = pre ++ ev' ∧ Forall (λ e, done e = true) pre ∧ hwm' = default hwm (last pre).
Proof.
  revert hwm. induction events as [|e events IH]; intros hwm; simpl.
  { intros [= <- <-]. by exists []. }
  destruct (done e) eqn:He.
  - intros (pre & -> & Hall & ->)%IH. exists (e :: pre). split; [done|].
    split; [by constructor|]. rewrite last_cons. by destruct (last pre).
  - intros [= <- <-]. by exists [].
Qed.

(** The store half of the worker's state. *)
Definition store_side (w : worker) : list Z * Z * gset Z * gmap Z Z :=
  (_store_events w, _store_hwm w, _pending_store_event_indices w, _completed_store_events w).

Lemma finish_stores_run js w :
  ∃ w', mfor js finish_store w = (Ok tt, w') ∧
    _store_events w' = _store_events w ∧ _store_hwm w' = _store_hwm w ∧
    _pending_store_event_indices w' = _pending_store_event_indices w ∖ list_to_set js ∧
    dom (_completed_store_events w') = dom (_completed_store_events w) ∪ list_to_set js.
Proof.
  revert w. induction js as [|j js IH]; intros w.
  { exists w. split_and!; [done|done|done|set_solver..]. }
  cbn [mfor]. erewrite bind_ok by apply modify_run. cbn beta.
  destruct (IH (with_store (_store_events w) (_store_hwm w)
    (_pending_store_event_indices w ∖ {[j]}) (<[j := 1]> (_completed_store_events w)) w))
    as (w' & Hrun & He & Hh & Hp & Hc).
  exists w'. cbn in He, Hh, Hp, Hc. rewrite dom_insert_L in Hc.
  split_and!; [done|done|done|set_solver..].
Qed.

Lemma finish_loads_run js w :
  ∃ w', mfor js finish_load w = (Ok tt, w') ∧ store_side w' = store_side w.
Proof.
  revert w. induction js as [|j js IH]; intros w; [by exists w|].
  cbn [mfor]. erewrite bind_ok by apply modify_run. cbn beta.
  destruct (IH (with_load (_load_events w) (_load_hwm w) (_pending_load_event_indices w ∖ {[j]})
    (<[j := 1]> (_completed_load_events w)) w)) as (w' & Hrun & Hs).
  by exists w'.
Qed.

(** What [get_finished] does to the store side. *)
Definition polled (done : Z → bool) (w w' : worker) : Prop :=
  ∃ pre, _store_events w = pre ++ _store_events w' ∧
    Forall (λ e, done e = true) pre ∧
    _store_hwm w' = default (_store_hwm w) (last pre) ∧
    (∀ j, j ∈ _pending_store_event_indices w' ↔
          j ∈ _pending_store_event_indices w ∧ _store_hwm w' < j) ∧
    (∀ j, j ∈ dom (_completed_store_events w') ↔
          j ∈ dom (_completed_store_events w) ∨
          j ∈ _pending_store_event_indices w ∧ j ≤ _store_hwm w').

Lemma poll_stores_run done w :
  (∀ e, e ∈ _store_events w → e ∈ _pending_store_event_indices w) →
  ∃ w', (if bool_decide (_pending_store_event_indices w = ∅) then ret tt
         else let! wm := _poll_events true done in
              mfor (finished_upto wm (_pending_store_event_indices w)) finish_store) w
        = (Ok tt, w') ∧ polled done w w'.
Proof.
  intros Hsub. case_bool_decide as Hp.
  { exists w. split; [done|]. exists []. rewrite Hp in *. split_and!; try done; set_solver. }
  unfold _poll_events.
  destruct (poll_loop done (_store_events w) (_store_hwm w)) as [ev hwm] eqn:Hpoll.
  set (w1 := with_store ev hwm (_pending_store_event_indices w) (_completed_store_events w) w).
  destruct (finish_stores_run (finished_upto hwm (_pending_store_event_indices w)) w1)
    as (w' & Hrun & He & Hh & Hpd & Hc).
  exists w'. split.
  { rewrite <-Hrun. unfold bind, gets, modify, ret. cbn. by rewrite Hpoll. }
  destruct (poll_loop_spec _ _ _ _ _ Hpoll) as (pre & Hev & Hall & Hhw).
  exists pre. rewrite He, Hh, Hpd, Hc. cbn. unfold finished_upto.
  split_and!; [done|done|done| |]; intros j;
    rewrite ?elem_of_difference, ?elem_of_union, elem_of_list_to_set, list_elem_of_filter, elem_of_elements.
  - split; [intros [? Hn]; split; [done|]; apply Z.nle_gt; naive_solver|].
    intros [? ?]. split; [done|]. lia.
  - naive_solver.
Qed.

Lemma get_finished_run load_done store_done w :
  (∀ e, e ∈ _store_events w → e ∈ _pending_store_event_indices w) →
  ∃ r w', get_finished load_done store_done w = (Ok r, w') ∧ polled store_done w w'.
Proof.
  intros Hsub. unfold get_finished. run_step.
  set (ld := if bool_decide (_pending_load_event_indices w = ∅) then _ else _).
  assert (∃ rv w1, ld w = (Ok rv, w1) ∧ store_side w1 = store_side w) as (rv & w1 & Hld & Hs).
  { unfold ld. case_bool_decide; [by eexists _, w|].
    unfold _poll_events. destruct (poll_loop load_done (_load_events w) (_load_hwm w)) as [ev hwm] eqn:Hp.
    destruct (finish_loads_run (finished_upto hwm (_pending_load_event_indices w))
      (with_load ev hwm (_pending_load_event_indices w) (_completed_load_events w) w))
      as (w1 & Hrun & Hs1).
    eexists _, w1. split; [|exact Hs1]. unfold bind, gets, modify, ret. cbn. rewrite Hp. cbn.
    unfold bind, gets, modify, ret in Hrun. by rewrite Hrun. }
  erewrite bind_ok by exact Hld. run_step.
  injection Hs as He Hh Hpd Hc.
  destruct (poll_stores_run store_done w1) as (w' & Hrun & Hpoll).
  { by rewrite He, Hpd. }
  eexists _, w'. split; [by erewrite bind_ok by exact Hrun|].
  unfold polled in *. by rewrite He, Hh, Hpd, Hc in Hpoll.
Qed.

(** ** The invariant of the store side *)

Record winv (h : history) : Prop := {
  (* the recorded events are pending, completed or reported, in exactly one way *)
  wi_cover : ∀ j, j ∈ h_rec h ↔ j ∈ _pending_store_event_indices (h_worker h) ∨
    j ∈ dom (_completed_store_events (h_worker h)) ∨ j ∈ h_rep h;
  wi_pend_compl : ∀ j, j ∈ _pending_store_event_indices (h_worker h) →
    j ∈ dom (_completed_store_events (h_worker h)) → False;
  wi_pend_rep : ∀ j, j ∈ _pending_store_event_indices (h_worker h) → j ∈ h_rep h → False;
  wi_compl_rep : ∀ j, j ∈ dom (_completed_store_events (h_worker h)) → j ∈ h_rep h → False;
  wi_rep_nodup : NoDup (h_rep h);
  (* the queue holds exactly the pending events above the high-water mark, in order *)
  wi_sorted : StronglySorted Z.lt (_store_events (h_worker h));
  wi_queue : ∀ j, j ∈ _store_events (h_worker h) ↔
    j ∈ _pending_store_event_indices (h_worker h) ∧ _store_hwm (h_worker h) < j;
  wi_done : ∀ j, j ∈ dom (_completed_store_events (h_worker h)) ∨ j ∈ h_rep h →
    j ≤ _store_hwm (h_worker h);
  wi_hwm : _store_hwm (h_worker h) = -1 ∨ _store_hwm (h_worker h) ∈ h_rec h;
  wi_fin : ∀ j, j ∈ h_rec h → j ≤ _store_hwm (h_worker h) → j ∈ h_fin h;
}.

Lemma winv_init ready : winv (History (worker_init ready) [] [] ∅).
Proof.
  constructor; cbn; try (intros j; rewrite ?dom_empty_L; set_solver);
    [constructor|constructor|by left].
Qed.

(** The events popped from a sorted queue are those up to the last one popped. *)
Lemma popped_prefix (pre suf : list Z) (hwm : Z) :
  StronglySorted Z.lt (pre ++ suf) → (∀ j, j ∈ pre ++ suf → hwm < j) →
  hwm ≤ default hwm (last pre) ∧
  (∀ j, j ∈ pre → j ≤ default hwm (last pre)) ∧
  (∀ j, j ∈ suf → default hwm (last pre) < j) ∧
  (default hwm (last pre) = hwm ∨ default hwm (last pre) ∈ pre).
Proof.
  revert suf. induction pre as [|x pre IH] using rev_ind; intros suf Hs Hgt.
  { cbn. split_and!; [lia|set_solver| |by left]. intros j Hj. by apply Hgt. }
  rewrite last_snoc. cbn. apply StronglySorted_app in Hs as (Hcross & Hpre & Hsuf).
  apply StronglySorted_app in Hpre as (Hpre & _ & _).
  split_and!.
  - specialize (Hgt x). assert (hwm < x); [apply Hgt; set_solver|lia].
  - intros j [Hj| ->%list_elem_of_singleton]%elem_of_app; [|lia].
    assert (j < x); [apply Hpre; set_solver|lia].
  - intros j Hj. apply Hcross; set_solver.
  - right. set_solver.
Qed.

(** The high-water mark moves over a popped prefix: by polling or by flushing. *)
Lemma winv_advance w w' rec rep fin fin' pre :
  winv (History w rec rep fin) →
  _store_events w = pre ++ _store_events w' →
  _store_hwm w' = default (_store_hwm w) (last pre) →
  (∀ j, j ∈ fin ∨ j ∈ pre → j ∈ fin') →
  (∀ j, j ∈ _pending_store_event_indices w' ∨ j ∈ dom (_completed_store_events w') ↔
        j ∈ _pending_store_event_indices w ∨ j ∈ dom (_completed_store_events w)) →
  (∀ j, j ∈ _pending_store_event_indices w' → j ∈ dom (_completed_store_events w') → False) →
  (∀ j, j ∈ _pending_store_event_indices w → _store_hwm w' < j → j ∈ _pending_store_event_indices w') →
  (∀ j, j ∈ dom (_completed_store_events w') → j ≤ _store_hwm w') →
  (∀ j, j ∈ _pending_store_event_indices w' → j ∈ _pending_store_event_indices w) →
  winv (History w' rec rep fin').
Proof.
  intros [Hcov Hpc Hpr Hcr Hnd Hso Hq Hdn Hhw Hfin] Hev Hh Hf Hall Hdj Hkeep Hle Hsub; cbn in *.
  rewrite Hev in Hso, Hq.
  destruct (popped_prefix pre (_store_events w') (_store_hwm w) Hso) as (Hle' & Hpre & Hsuf & Hlast).
  { intros j Hj. by apply Hq in Hj as []. }
  rewrite <-Hh in *.
  constructor; cbn; try done.
  - intros j. rewrite Hcov. specialize (Hall j). tauto.
  - intros j Hj. apply Hpr. by apply Hsub.
  - intros j Hj. destruct (Hall j) as [[?|?] _]; [by right|by apply Hpr|by apply Hcr].
  - by apply StronglySorted_app in Hso as (_ & _ & ?).
  - intros j. split.
    + intros Hj. split; [|by apply Hsuf]. apply Hkeep; [|by apply Hsuf].
      apply Hq. set_solver.
    + intros [Hj Hlt]. assert (j ∈ pre ++ _store_events w') as [Hj'|]%elem_of_app; [|  |done].
      * apply Hq. split; [by apply Hsub|lia].
      * apply Hpre in Hj'. lia.
  - intros j [Hj|Hj]; [by apply Hle|]. etrans; [|exact Hle']. apply Hdn. by right.
  - destruct Hlast as [Heq|Hin]; [by rewrite Heq|]. right. apply Hcov. left. apply Hq. set_solver.
  - intros j Hj Hjle. apply Hf. destruct (decide (j ≤ _store_hwm w)) as [|Hgt]; [left; by apply Hfin|].
    right. apply Hcov in Hj as [Hj|Hj]; [|apply Hdn in Hj; lia].
    assert (j ∈ pre ++ _store_events w') as [|Hj']%elem_of_app; [|done|].
    + apply Hq. split; [done|lia].
    + apply Hsuf in Hj'. lia.
Qed.

Lemma winv_save w rec rep fin k :
  winv (History w rec rep fin) → 0 ≤ k → (∀ j, j ∈ rec → j < k) →
  winv (History (with_store (_store_events w ++ [k]) (_store_hwm w)
          ({[k]} ∪ _pending_store_event_indices w) (_completed_store_events w) w)
        (rec ++ [k]) rep fin).
Proof.
  intros [Hcov Hpc Hpr Hcr Hnd Hso Hq Hdn Hhw Hfin] Hk Hfresh; cbn in *.
  assert (k ∉ rec) as Hnew by (intros Hin; apply Hfresh in Hin; lia).
  assert (_store_hwm w < k) as Hhk by (destruct Hhw as [->|Hin]; [lia|by apply Hfresh]).
  constructor; cbn; try done.
  - intros j. rewrite elem_of_app, list_elem_of_singleton, elem_of_union, elem_of_singleton, Hcov. tauto.
  - intros j [->%elem_of_singleton|Hj]%elem_of_union; [|by apply Hpc].
    intros ?. apply Hnew, Hcov. tauto.
  - intros j [->%elem_of_singleton|Hj]%elem_of_union; [|by apply Hpr].
    intros ?. apply Hnew, Hcov. tauto.
  - apply StronglySorted_app. split_and!; [|done|repeat constructor].
    intros x y Hx ->%list_elem_of_singleton. apply Hfresh, Hcov. left. by apply Hq.
  - intros j. rewrite elem_of_app, list_elem_of_singleton, elem_of_union, elem_of_singleton, Hq.
    split; [|tauto]. intros [[? ?]| ->]; tauto.
  - destruct Hhw; [by left|right]. set_solver.
  - intros j [Hj| ->%list_elem_of_singleton]%elem_of_app; [by apply Hfin|lia].
Qed.

Lemma winv_report w w' r rec rep fin :
  winv (History w rec rep fin) → build_worker_meta w = (Ok r, w') →
  winv (History w' rec (rep ++ reported r) fin) ∧ dom (_completed_store_events w') = ∅.
Proof.
  intros [Hcov Hpc Hpr Hcr Hnd Hso Hq Hdn Hhw Hfin]; cbn in *.
  unfold build_worker_meta, bind, gets, modify, ret. cbn.
  case_bool_decide as Hc; cbn; [case_bool_decide|]; intros [= <- <-]; cbn.
  - rewrite app_nil_r, Hc, dom_empty_L. split; [|done]. constructor; cbn; try done.
    all: by rewrite Hc, dom_empty_L in *.
  - rewrite Hc, dom_empty_L, elements_empty, app_nil_r. split; [|done].
    rewrite Hc, dom_empty_L in *. by constructor; cbn; rewrite ?dom_empty_L.
  - rewrite dom_empty_L. split; [|done]. constructor; cbn; rewrite ?dom_empty_L; try done.
    + intros j. rewrite elem_of_app, elem_of_elements, Hcov, elem_of_empty. tauto.
    + intros j Hj. rewrite elem_of_app, elem_of_elements. intros []; eauto.
    + apply NoDup_app. split_and!; [done| |apply NoDup_elements].
      intros j Hj. rewrite elem_of_elements. eauto.
    + intros j. rewrite elem_of_app, elem_of_elements, elem_of_empty. intros [[]|[]]; eauto.
Qed.

Lemma winv_step h h' : winv h → wstep h h' → winv h'.
Proof.
  intros Hi Hst. destruct Hst as [m w w' rec rep fin Hr|w w' rec rep fin Hr|w w' rec rep fin Hnew Hr
    |ld sd r w w' rec rep fin Hr|r w w' rec rep fin Hr|w w' rec rep fin Hr].
  - injection Hr as <-. by destruct Hi; constructor.
  - injection Hr as <-. by destruct Hi; constructor.
  - unfold wait_for_save, bind, gets in Hr. destruct (saved_event w) as [k|].
    + injection Hr as <-. destruct (Hnew k) as [? ?]; [done|]. by apply winv_save.
    + injection Hr as <-. cbn. by rewrite app_nil_r.
  - destruct (get_finished_run ld sd w) as (r' & w1 & Hrun & pre & Hev & Hdn & Hh & Hp & Hc).
    { intros e He. by apply (wi_queue _ Hi) in He as []. }
    rewrite Hr in Hrun. injection Hrun as <- <-.
    eapply winv_advance; [exact Hi|exact Hev|exact Hh|..].
    + intros j. rewrite elem_of_union, elem_of_list_to_set, list_elem_of_filter, Hev, elem_of_app.
      rewrite Forall_forall in Hdn. naive_solver.
    + intros j. rewrite (Hp j), Hc. destruct (decide (j ≤ _store_hwm w')); [tauto|].
      assert (_store_hwm w' < j) by lia. tauto.
    + intros j. rewrite Hp, Hc. intros [Hj Hlt] [Hj'|[_ Hle]]; [|lia].
      by eapply (wi_pend_compl _ Hi).
    + intros j Hj Hlt. by rewrite Hp.
    + intros j. rewrite Hc. intros [Hj|[_ Hj]]; [|done].
      etrans; [by apply (wi_done _ Hi); left|]. cbn.
      destruct (popped_prefix pre (_store_events w') (_store_hwm w)) as [? _]; [..|by rewrite Hh].
      * rewrite <-Hev. apply (wi_sorted _ Hi).
      * intros e. rewrite <-Hev. intros He. by apply (wi_queue _ Hi) in He as [].
    + intros j. rewrite Hp. tauto.
  - by eapply winv_report.
  - injection Hr as <-.
    eapply (winv_advance _ _ _ _ _ _ (_store_events w)); [exact Hi|..]; cbn; try done.
    + by rewrite app_nil_r.
    + set_solver.
    + apply (wi_pend_compl _ Hi).
    + intros j Hj. etrans; [by apply (wi_done _ Hi); left|]. cbn.
      destruct (popped_prefix (_store_events w) [] (_store_hwm w)) as [? _]; [..|done].
      * rewrite app_nil_r. apply (wi_sorted _ Hi).
      * intros e. rewrite app_nil_r. intros He. by apply (wi_queue _ Hi) in He as [].
Qed.

Lemma winv_reach ready h : worker_reach ready h → winv h.
Proof.
  intros Hr. remember (History (worker_init ready) [] [] ∅) as h0 eqn:H0. unfold worker_reach in Hr.
  assert (winv h0) as Hi by (subst; apply winv_init). rewrite <-H0 in Hr. clear H0.
  induction Hr; [done|]. eauto using winv_step.
Qed.

(** Flush, poll, report: what a worker does before it shuts a step down. *)
Definition drain (load_done store_done : Z → bool) : M worker (option OffloadPackageWorkerMetadata) :=
  _flush_and_sync_all >> get_finished load_done store_done >> build_worker_meta.

Lemma drained ready w rec rep fin load_done store_done :
  worker_reach ready (History w rec rep fin) →
  ∃ r w' fin', drain load_done store_done w = (Ok r, w') ∧
    worker_reach ready (History w' rec (rep ++ reported r) fin') ∧
    (∀ j, j ∈ rec ↔ j ∈ rep ++ reported r).
Proof.
  intros Hr. unfold drain.
  destruct (_flush_and_sync_all w) as [r0 w1] eqn:Hf. pose proof Hf as [= <- Hw1].
  assert (worker_reach ready (History w1 rec rep (fin ∪ list_to_set (_store_events w)))) as Hr1
    by (eapply rtc_r; [exact Hr|by constructor]).
  pose proof (winv_reach _ _ Hr1) as Hi1.
  destruct (get_finished_run load_done store_done w1) as (rv & w2 & Hg & Hpoll).
  { intros e He. by apply (wi_queue _ Hi1) in He as []. }
  assert (worker_reach ready (History w2 rec rep (fin ∪ list_to_set (_store_events w)
    ∪ list_to_set (filter (λ e, store_done e = true) (_store_events w1))))) as Hr2
    by (eapply rtc_r; [exact Hr1|by econstructor]).
  destruct (build_worker_meta w2) as [[r|e] w3] eqn:Hb; last first.
  { exfalso. revert Hb. unfold build_worker_meta, bind, gets, modify, ret. cbn.
    by destruct (_ && _). }
  eexists r, w3, _. split; [|split].
  - erewrite bind_ok by exact Hf. by erewrite bind_ok by exact Hg.
  - eapply rtc_r; [exact Hr2|by econstructor].
  - destruct (winv_report _ _ _ _ _ _ (winv_reach _ _ Hr2) Hb) as [Hi3 Hc3].
    assert (∀ j, j ∈ _pending_store_event_indices w3 → False) as Hp3.
    { assert (_pending_store_event_indices w3 = _pending_store_event_indices w2) as ->.
      { revert Hb. unfold build_worker_meta, bind, gets, modify, ret. cbn.
        by destruct (_ && _); intros [= _ <-]. }
      intros j Hj. destruct Hpoll as (pre & Hev & _ & Hh & Hp & _).
      assert (_store_events w1 = []) as He1 by (by subst w1).
      rewrite He1 in Hev. symmetry in Hev. apply app_nil in Hev as [-> He2]. cbn in Hh.
      apply Hp in Hj as [Hj Hlt].
      assert (j ∈ _store_events w1) as Hin
        by (apply (wi_queue _ Hi1); split; [done|cbn; by rewrite <-Hh]).
      rewrite He1 in Hin. set_solver. }
    intros j. rewrite (wi_cover _ Hi3 j). cbn. rewrite Hc3, elem_of_empty. naive_solver.
Qed.

(** ** The property *)

(** C35: the worker reports each recorded store event to the scheduler exactly
    once, in any interleaving of metadata binding, saves, polls, reports and
    flushes: an event is never reported twice, never reported unless it was
    recorded and its CUDA event was seen finished, and a flush followed by
    [get_finished] and [build_worker_meta] reports all that was recorded and not
    yet reported, without raising. *)
Theorem worker_reports_each_event_once ready w rec rep fin load_done store_done :
  worker_reach ready (History w rec rep fin) →
  NoDup rep ∧ (∀ j, j ∈ rep → j ∈ rec ∧ j ∈ fin) ∧
  ∃ r w', drain load_done store_done w = (Ok r, w') ∧
    NoDup (rep ++ reported r) ∧ (∀ j, j ∈ rec ↔ j ∈ rep ++ reported r).
Proof.
  intros Hr. pose proof (winv_reach _ _ Hr) as Hi.
  split; [apply (wi_rep_nodup _ Hi)|]. split.
  { intros j Hj. assert (j ∈ rec) by (apply (wi_cover _ Hi); auto). split; [done|].
    apply (wi_fin _ Hi); [done|]. apply (wi_done _ Hi). by right. }
  destruct (drained _ _ _ _ _ load_done store_done Hr) as (r & w' & fin' & Hd & Hr' & Hall).
  exists r, w'. split_and!; [done| |done]. apply (wi_rep_nodup _ (winv_reach _ _ Hr')).
Qed.

(** Two saves, of which the first has finished and was reported. *)
Definition demo_meta (k : Z) : OffloadPackageMetadata := Meta k [3] [0] (-1) ["r"] ∅ ∅.
Definition demo_saved : worker :=
  ((bind_connector_metadata (demo_meta 0) >> wait_for_save >> clear_connector_metadata >>
    bind_connector_metadata (demo_meta 1) >> wait_for_save) (worker_init true)).2.
Definition demo_polled : worker :=
  ((get_finished (λ _, false) (λ e, e =? 0) >> build_worker_meta) demo_saved).2.

Lemma worker_reports_each_event_once_witness :
  worker_reach true (History demo_polled [0; 1] [0] (∅ ∪ {[0]} ∪ ∅)) ∧
  ∃ r w', drain (λ _, false) (λ _, false) demo_polled = (Ok r, w') ∧ NoDup ([0] ++ reported r) ∧
    (∀ j, j ∈ [0; 1] ↔ j ∈ [0] ++ reported r).
Proof.
  assert (worker_reach true (History demo_polled [0; 1] [0] (∅ ∪ {[0]} ∪ ∅))) as Hr.
  { eapply rtc_l; [eapply (step_bind (demo_meta 0)); reflexivity|].
    eapply rtc_l; [eapply step_save; [|reflexivity]; cbn; intros k [= <-]; split; [lia|set_solver]|].
    eapply rtc_l; [eapply step_clear; reflexivity|].
    eapply rtc_l; [eapply (step_bind (demo_meta 1)); reflexivity|].
    eapply rtc_l; [eapply step_save; [|reflexivity]; cbn; intros k [= <-]; split; [lia|]|].
    { intros j ->%list_elem_of_singleton. lia. }
    eapply rtc_l; [eapply (step_poll (λ _, false) (λ e, e =? 0)); vm_compute; reflexivity|].
    eapply rtc_l; [eapply step_report; vm_compute; reflexivity|].
    apply rtc_refl. }
  split; [exact Hr|].
  exact (proj2 (proj2 (worker_reports_each_event_once true _ _ _ _ (λ _, false) (λ _, false) Hr))).
Defined.
