(* ===== verification/BatchOrder.v ===== *)
(** * The order of the requests in a batch

    Models [reorder_batch_to_split_decodes_and_prefills] and
    [split_decodes_and_prefills] of vllm/v1/attention/backends/utils.py.  The
    model runner keeps the state of request [i] at index [i] of a family of
    arrays ([InputBatch], vllm/v1/worker/gpu_input_batch.py); here a batch is the
    list of these rows, and [swap_states] exchanges two of them.  The attention
    backends rely on the order: decode rows first, prefill rows last. *)

From S2P Require Import Prelude PyData.
From stdpp Require Import base gmap sets list strings sorting.
From Stdlib Require Import ZArith Lia.
Open Scope Z_scope.

(** What the reordering reads of a row, and the row's block table. *)
Record batch_row := Row {
  row_id : string;
  row_computed : Z;
  row_prompt : Z;
  row_pages : list Z;
}.

(** [input_batch.swap_states(i1, i2)] *)
Definition swap_states {A} (i j : nat) (rows : list A) : result (list A) :=
  match rows !! i, rows !! j with
  | Some x, Some y => Ok (<[j := x]> (<[i := y]> rows))
  | _, _ => Raise IndexError
  end.

(** The region of a row: 0 decode, 1 short extend, 2 long extend, 3 prefill. *)
Definition region (threshold scheduled : Z) (r : batch_row) : Z :=
  let has_context := 0 <? row_computed r in
  let is_below_threshold := scheduled <=? threshold in
  let done_prefilling := row_prompt r <=? row_computed r in
  if negb has_context then 3
  else if has_context && negb is_below_threshold then 2
  else if has_context && is_below_threshold && negb done_prefilling then 1
  else 0.

Definition count_region (k : Z) (regions : list Z) : nat := length (filter (λ x, x = k) regions).

(** [np.repeat([0, 1, 2, 3], [num_decodes, ...])] *)
Definition target_regions (regions : list Z) : list Z :=
  mjoin ((λ k, replicate (count_region k regions) k) <$> [0; 1; 2; 3]).

(** [np.where(req_regions != target_regions)[0]] *)
Definition needs_swap (regions target : list Z) : list nat :=
  filter (λ i, regions !! i ≠ target !! i) (seq 0 (length regions)).

(** [a[idx]] *)
Definition gather {A} (l : list A) (idx : list nat) : list A := omap (λ i, l !! i) idx.

(** The inner [while src != dst]. *)
Fixpoint place {A} (fuel : nat) (src dst : nat) (m : list (nat * nat)) (rows : list A)
    : option (result (list (nat * nat) * list A)) :=
  if decide (src = dst) then Some (Ok (m, rows))
  else match fuel with
       | O => None
       | S fuel' =>
           match swap_states src dst rows with
           | Raise e => Some (Raise e)
           | Ok rows' => place fuel' src (default dst (dget dst m)) (dset dst dst m) rows'
           end
       end.

(** [for src in src_dest_map] *)
Fixpoint place_all {A} (fuel : nat) (srcs : list nat) (m : list (nat * nat)) (rows : list A)
    : option (result (list A)) :=
  match srcs with
  | [] => Some (Ok rows)
  | src :: srcs' =>
      match place fuel src (default src (dget src m)) m rows with
      | Some (Ok (m', rows')) => place_all fuel srcs' m' rows'
      | Some (Raise e) => Some (Raise e)
      | None => None
      end
  end.

Definition src_dest_map (srcs dsts : list nat) : list (nat * nat) :=
  foldl (λ d e, dset e.1 e.2 d) [] (zip srcs dsts).

Fixpoint scheduled_of (num_scheduled : gmap string Z) (rows : list batch_row) : result (list Z) :=
  match rows with
  | [] => Ok []
  | r :: rows' =>
      match num_scheduled !! row_id r with
      | Some k => result_bind (scheduled_of num_scheduled rows') (λ ks, Ok (k :: ks))
      | None => Raise KeyError
      end
  end.

Definition reorder_batch_to_split_decodes_and_prefills (num_scheduled : gmap string Z)
    (threshold : Z) (rows : list batch_row) : option (result (bool * list batch_row)) :=
  match scheduled_of num_scheduled rows with
  | Raise e => Some (Raise e)
  | Ok scheduled =>
      let req_regions := zip_with (region threshold) scheduled rows in
      let target := target_regions req_regions in
      let orig_indices := needs_swap req_regions target in
      if bool_decide (orig_indices = []) then Some (Ok (false, rows))
      else
        let sorted_order := argsort Z.leb (gather req_regions orig_indices) in
        let src_indices := gather orig_indices sorted_order in
        let m := src_dest_map src_indices orig_indices in
        match place_all (length m) (dkeys m) m rows with
        | Some (Ok rows') => Some (Ok (true, rows'))
        | Some (Raise e) => Some (Raise e)
        | None => None
        end
  end.

(** [is_prefill.int().argmax()]: the first [true]. *)
Fixpoint first_true (l : list bool) : nat :=
  match l with
  | [] => 0
  | true :: _ => 0
  | false :: l' => S (first_true l')
  end.

(** [split_decodes_and_prefills] with [query_start_loc] and [num_actual_tokens];
    with [treat_short_extends_as_decodes], as both callers have it. *)
Definition split_decodes_and_prefills (query_start_loc : list Z) (num_reqs : nat)
    (num_tokens max_query_len decode_threshold : Z) (require_uniform : bool)
    : result (nat * nat * Z * Z) :=
  if (max_query_len <=? decode_threshold) && (negb require_uniform || (decode_threshold <=? 1))
  then Ok (num_reqs, 0%nat, num_tokens, 0)
  else
    let query_lens := zip_with Z.sub (drop 1 query_start_loc) query_start_loc in
    match query_lens with
    | [] => Raise IndexError
    | q0 :: _ =>
        if decode_threshold <? q0 then Ok (0%nat, num_reqs, 0, num_tokens)
        else if require_uniform && forallb (λ q, (q =? q0) || (q =? 0)) query_lens
        then Ok (num_reqs, 0%nat, num_tokens, 0)
        else
          let is_prefill := (λ q, if require_uniform then negb (q =? q0)
                                  else decode_threshold <? q) <$> query_lens in
          if negb (existsb id is_prefill) then Ok (num_reqs, 0%nat, num_tokens, 0)
          else
            let first_prefill := first_true is_prefill in
            result_bind (py_index query_start_loc (Z.of_nat first_prefill)) (λ num_decode_tokens,
            Ok (first_prefill, (num_reqs - first_prefill)%nat, num_decode_tokens,
                num_tokens - num_decode_tokens))
    end.

(** ** Exchanging rows along the cycles of a permutation *)
Section Cycles.
Context {A : Type} (n : nat).
Implicit Types (rows : list A) (m : list (nat * nat)) (e : nat → nat).

Lemma swap_states_run i j rows :
  (i < length rows)%nat → (j < length rows)%nat →
  ∃ rows', swap_states i j rows = Ok rows' ∧ length rows' = length rows ∧
    ∀ p, rows' !! p = if decide (p = j) then rows !! i else if decide (p = i) then rows !! j else rows !! p.
Proof.
  intros [x Hx]%lookup_lt_is_Some_2 [y Hy]%lookup_lt_is_Some_2. unfold swap_states. rewrite Hx, Hy.
  eexists. split; [done|]. rewrite !length_insert. split; [done|]. intros p.
  pose proof (lookup_lt_Some _ _ _ Hx). pose proof (lookup_lt_Some _ _ _ Hy).
  case_decide; subst; [by rewrite list_lookup_insert_eq by (rewrite length_insert; lia)|].
  rewrite list_lookup_insert_ne by done. case_decide; subst; [by rewrite list_lookup_insert_eq|].
  by rewrite list_lookup_insert_ne.
Qed.

Lemma swap_states_perm i j rows rows' : swap_states i j rows = Ok rows' → rows' ≡ₚ rows.
Proof.
  unfold swap_states. destruct (rows !! i) eqn:Ei; [|done]. destruct (rows !! j) eqn:Ej; [|done].
  intros [= <-]. by apply Permutation_insert_swap.
Qed.

Lemma place_perm fuel src dst m rows m' rows' :
  place fuel src dst m rows = Some (Ok (m', rows')) → rows' ≡ₚ rows.
Proof.
  revert dst m rows. induction fuel as [|fuel IH]; intros dst m rows; cbn [place]; case_decide; try (by intros [= _ <-]).
  destruct (swap_states src dst rows) as [rows1|e] eqn:E; [|done]. intros ->%IH. by eapply swap_states_perm.
Qed.

Lemma place_all_perm fuel srcs m rows rows' : place_all fuel srcs m rows = Some (Ok rows') → rows' ≡ₚ rows.
Proof.
  revert m rows. induction srcs as [|src srcs IH]; intros m rows; cbn [place_all]; [by intros [= <-]|].
  destruct (place _ _ _ _ _) as [[[m1 rows1]|e]|] eqn:E; [|done|done]. intros ->%IH. by eapply place_perm.
Qed.

(** [e] says where the row at each index still has to go and [g] is the wanted
    order.  The dict agrees with [e] except at the [stale] indices, whose cycles
    have been followed: their rows are in place, that of [src] apart. *)
Record routed (g : nat → option A) (stale : list nat) (src : option nat) e m rows : Prop := {
  ro_len : length rows = n;
  ro_inj : ∀ p q, e p = e q → p = q;
  ro_range : ∀ p, e p ≠ p → (p < n)%nat;
  ro_goal : ∀ p, g (e p) = rows !! p;
  ro_known : ∀ p, p ∉ stale → default p (dget p m) = e p;
  ro_stale : ∀ p, p ∈ stale → e p = p ∨ Some p = src;
}.

Lemma routed_moving g stale src e m rows p :
  routed g stale (Some src) e m rows → e p ≠ p → p ≠ src → p ∉ stale.
Proof. intros Hr Hp Hs Hin. destruct (ro_stale _ _ _ _ _ _ Hr p Hin); congruence. Qed.

(** One exchange: the row at [src] reaches its place [e src]. *)
Definition reroute (src dst : nat) e (p : nat) : nat :=
  if decide (p = dst) then dst else if decide (p = src) then e dst else e p.

Lemma reroute_routed g stale src e m rows rows1 :
  routed g stale (Some src) e m rows → src ∈ stale → e src ≠ src →
  length rows1 = length rows →
  (∀ p, rows1 !! p = if decide (p = e src) then rows !! src
                     else if decide (p = src) then rows !! e src else rows !! p) →
  routed g stale (Some src) (reroute src (e src) e) (dset (e src) (e src) m) rows1.
Proof.
  intros Hr Hin Hd Hl Hlk. pose proof (ro_inj _ _ _ _ _ _ Hr) as Hi.
  assert (e (e src) ≠ e src) as Hdst by (intros H; apply Hd; by apply Hi).
  assert (e src ∉ stale) as Hfresh by (by eapply routed_moving).
  unfold reroute. split.
  - rewrite Hl. apply Hr.
  - intros p q. pose proof (Hi p src). pose proof (Hi src q). pose proof (Hi p (e src)).
    pose proof (Hi (e src) q). pose proof (Hi p q). repeat case_decide; subst; intuition congruence.
  - intros p. repeat case_decide; subst; try done; intros ?; by apply (ro_range _ _ _ _ _ _ Hr).
  - intros p. rewrite Hlk. repeat case_decide; subst; try done; apply (ro_goal _ _ _ _ _ _ Hr).
  - intros p Hp. rewrite dget_dset. repeat case_decide; subst; try done.
    by apply (ro_known _ _ _ _ _ _ Hr).
  - intros p Hp. destruct (ro_stale _ _ _ _ _ _ Hr p Hp) as [?|?]; [|by right].
    left. repeat case_decide; subst; congruence.
Qed.

(** Following one cycle puts every row on it into place and moves no other. *)
Lemma place_run g stale fuel src e m rows (todo : list nat) :
  routed g stale (Some src) e m rows → src ∈ stale →
  NoDup todo → (∀ p, e p ≠ p → p ∈ todo) → (length todo ≤ fuel)%nat →
  ∃ e' m' rows', place fuel src (e src) m rows = Some (Ok (m', rows')) ∧
    routed g stale None e' m' rows' ∧ e' src = src ∧ (∀ p, e p = p → e' p = p).
Proof.
  revert e m rows todo. induction fuel as [|fuel IH]; intros e m rows todo Hr Hin Hnd Htodo Hlen; cbn [place];
    (destruct (decide (src = e src)) as [Hd|Hd];
      [exists e, m, rows; split; [done|]; split; [|done]; destruct Hr as [? ? ? ? ? Hs]; split; try done;
       intros p Hp; left; destruct (Hs p Hp); congruence|]).
  { specialize (Htodo src ltac:(congruence)). destruct todo; [set_solver|simpl in Hlen; lia]. }
  pose proof (ro_inj _ _ _ _ _ _ Hr) as Hi.
  assert (e (e src) ≠ e src) as Hdst by (intros H; apply Hd; symmetry; by apply Hi).
  pose proof (ro_range _ _ _ _ _ _ Hr _ Hdst).
  pose proof (ro_range _ _ _ _ _ _ Hr src (not_eq_sym Hd)). pose proof (ro_len _ _ _ _ _ _ Hr) as Hl.
  destruct (swap_states_run src (e src) rows) as (rows1 & -> & Hl1 & Hlk); [lia..|].
  assert (default (e src) (dget (e src) m) = reroute src (e src) e src) as ->.
  { rewrite (ro_known _ _ _ _ _ _ Hr) by (eapply routed_moving; done). unfold reroute.
    by rewrite decide_False, decide_True by done. }
  destruct (IH (reroute src (e src) e) (dset (e src) (e src) m) rows1 (filter (λ p, p ≠ e src) todo))
    as (e' & m' & rows' & Hrun & Hr' & Hs & Hf').
  - by apply (reroute_routed _ _ _ _ _ rows).
  - done.
  - by apply NoDup_filter.
  - intros p Hp. apply list_elem_of_filter. unfold reroute in Hp. case_decide; [done|]. split; [done|].
    apply Htodo. case_decide; [by subst|done].
  - assert (length (filter (λ p, p ≠ e src) todo) < length todo)%nat; [|lia].
    apply length_filter_lt with (e src); [by apply Htodo|by intros ?].
  - exists e', m', rows'. split; [done|]. split; [done|]. split; [done|]. intros p Hp. apply Hf'.
    unfold reroute. repeat case_decide; subst; congruence.
Qed.

Lemma place_all_run g stale fuel srcs e m rows (todo : list nat) :
  routed g stale None e m rows → NoDup (stale ++ srcs) →
  NoDup todo → (∀ p, e p ≠ p → p ∈ todo) → (length todo ≤ fuel)%nat → (∀ p, e p ≠ p → p ∈ srcs) →
  ∃ rows', place_all fuel srcs m rows = Some (Ok rows') ∧ length rows' = n ∧ ∀ p, rows' !! p = g p.
Proof.
  revert stale e m rows. induction srcs as [|src srcs IH]; intros stale e m rows Hr Hss Hnd Htodo Hlen Hsrc; cbn [place_all].
  - exists rows. split; [done|]. split; [apply Hr|]. intros p. rewrite <-(ro_goal _ _ _ _ _ _ Hr p).
    destruct (decide (e p = p)) as [->|Hne]; [done|]. apply Hsrc in Hne. set_solver.
  - assert (src ∉ stale) as Hfresh.
    { apply NoDup_app in Hss as (_ & Hx & _). intros ?. apply (Hx src); set_solver. }
    rewrite (ro_known _ _ _ _ _ _ Hr) by done.
    destruct (place_run g (src :: stale) fuel src e m rows todo) as (e' & m' & rows' & -> & Hr' & Hs & Hf).
    + destruct Hr as [? ? ? ? Hk Hst]. split; try done.
      * intros p Hp. apply Hk. set_solver.
      * intros p [->|Hp]%elem_of_cons; [by right|]. left. by destruct (Hst p Hp).
    + set_solver.
    + done.
    + done.
    + done.
    + assert (∀ p, e' p ≠ p → e p ≠ p) as Hback by (intros p Hp Hep; by apply Hp, Hf).
      apply (IH (src :: stale) e'); try done.
      * cbn [app]. rewrite Permutation_middle. done.
      * intros p Hp. by apply Htodo, Hback.
      * intros p Hp. pose proof (Hsrc p (Hback p Hp)) as [->|?]%elem_of_cons; [|done]. by destruct Hp.
Qed.
End Cycles.

(** ** The exchanges realise the wanted order *)

Lemma dget_zip {K V} `{EqDecision K} (ks : list K) (vs : list V) i k v :
  NoDup ks → ks !! i = Some k → vs !! i = Some v → dget k (zip ks vs) = Some v.
Proof.
  intros Hnd. revert vs i. induction Hnd as [|k' ks Hk Hnd IH]; intros vs i Hi Hv; [done|].
  destruct vs as [|v' vs]; [done|]. destruct i as [|i]; simplify_eq/=; [by rewrite decide_True|].
  rewrite decide_False; [by eapply IH|]. intros ->. apply Hk. by eapply list_elem_of_lookup_2.
Qed.

Lemma dget_zip_None {K V} `{EqDecision K} (ks : list K) (vs : list V) k :
  k ∉ ks → dget k (zip ks vs) = None.
Proof.
  revert vs. induction ks as [|k' ks IH]; intros vs Hk; [done|]. destruct vs as [|v vs]; [done|]. simpl.
  rewrite decide_False by set_solver. apply IH. set_solver.
Qed.

Lemma src_dest_map_zip srcs dsts :
  NoDup srcs → length srcs = length dsts → src_dest_map srcs dsts = zip srcs dsts.
Proof.
  intros Hnd Hl. unfold src_dest_map.
  assert (∀ (l d : list (nat * nat)), NoDup (dkeys d ++ l.*1) → foldl (λ d e, dset e.1 e.2 d) d l = d ++ l) as Hf.
  { induction l as [|[k v] l IH]; intros d Hd; [by rewrite app_nil_r|]. cbn [foldl].
    rewrite dset_absent; [rewrite IH; [by rewrite <-(assoc app)|]|].
    - unfold dkeys in *. rewrite fmap_app. cbn in *. by rewrite <-(assoc app).
    - apply dget_None. apply NoDup_app in Hd as (_ & Hd & _). intros ?. apply (Hd k); set_solver. }
  apply Hf. cbn. rewrite fst_zip by lia. done.
Qed.

Lemma cycle_swaps_run {A} (srcs dsts : list nat) (rows : list A) :
  NoDup srcs → srcs ≡ₚ dsts → (∀ p, p ∈ srcs → (p < length rows)%nat) →
  let m := src_dest_map srcs dsts in
  ∃ rows', place_all (length m) (dkeys m) m rows = Some (Ok rows') ∧ length rows' = length rows ∧
    (∀ k s d, srcs !! k = Some s → dsts !! k = Some d → rows' !! d = rows !! s) ∧
    (∀ q, q ∉ dsts → rows' !! q = rows !! q).
Proof.
  intros Hnd Hp Hr. pose proof (Permutation_length Hp) as Hl. cbv zeta.
  rewrite src_dest_map_zip by done. set (m := zip srcs dsts).
  assert (dkeys m = srcs) as Hk by (unfold dkeys, m; rewrite fst_zip; [done|lia]).
  assert (length m = length srcs) as Hlm by (unfold m; rewrite length_zip_with; lia).
  assert (NoDup dsts) as Hnd' by (by rewrite <-Hp).
  set (e := λ p, default p (dget p m)).
  set (g := λ q, rows !! default q (dget q (zip dsts srcs))).
  assert (∀ p, p ∈ srcs → ∃ k d, srcs !! k = Some p ∧ dsts !! k = Some d ∧ e p = d) as Hin.
  { intros p [k Hpk]%list_elem_of_lookup. destruct (lookup_lt_is_Some_2 dsts k) as [d Hd].
    { rewrite <-Hl. by eapply lookup_lt_Some. }
    exists k, d. split_and!; [done|done|]. unfold e, m. by rewrite (dget_zip _ _ k p d). }
  assert (∀ p, p ∉ srcs → e p = p) as Hout by (intros p Hn; unfold e, m; by rewrite dget_zip_None).
  destruct (place_all_run (length rows) g [] (length m) srcs e m rows srcs) as (rows' & Hrun & Hl' & Hg); try done.
  - split; try done.
    + intros p q Heq. destruct (decide (p ∈ srcs)) as [Hps|Hps], (decide (q ∈ srcs)) as [Hqs|Hqs].
      * destruct (Hin p Hps) as (k & d & Hk1 & Hd1 & E1), (Hin q Hqs) as (k' & d' & Hk2 & Hd2 & E2).
        assert (k = k') as -> by (eapply NoDup_lookup; [exact Hnd'|done|congruence]). congruence.
      * destruct (Hin p Hps) as (k & d & _ & Hd1 & E1). exfalso. apply Hqs. rewrite Hp.
        rewrite (Hout q Hqs), E1 in Heq. subst d. by eapply list_elem_of_lookup_2.
      * destruct (Hin q Hqs) as (k & d & _ & Hd1 & E1). exfalso. apply Hps. rewrite Hp.
        rewrite (Hout p Hps), E1 in Heq. subst d. by eapply list_elem_of_lookup_2.
      * by rewrite !Hout in Heq.
    + intros p Hne. apply Hr. destruct (decide (p ∈ srcs)); [done|]. by rewrite Hout in Hne.
    + intros p. unfold g. destruct (decide (p ∈ srcs)) as [Hps|Hps].
      * destruct (Hin p Hps) as (k & d & Hk1 & Hd1 & ->). by rewrite (dget_zip _ _ k d p).
      * rewrite Hout, dget_zip_None by (rewrite <-?Hp; done). done.
    + intros p []%elem_of_nil.
  - intros p Hne. destruct (decide (p ∈ srcs)); [done|]. by rewrite Hout in Hne.
  - lia.
  - intros p Hne. destruct (decide (p ∈ srcs)); [done|]. by rewrite Hout in Hne.
  - rewrite Hk. exists rows'. split; [done|]. split; [done|]. split.
    + intros k s d Hs Hd. rewrite Hg. unfold g. by rewrite (dget_zip _ _ k d s).
    + intros q Hq. rewrite Hg. unfold g. by rewrite dget_zip_None.
Qed.

(** ** The regions end up sorted *)

Lemma gather_seq {A} (l : list A) : gather l (seq 0 (length l)) = l.
Proof.
  unfold gather. induction l as [|x l IH] using rev_ind; [done|].
  rewrite length_app. cbn [length]. rewrite seq_app, omap_app. cbn.
  rewrite list_lookup_middle by done. f_equal. rewrite <-IH at 2.
  assert (∀ idx, Forall (λ i, (i < length l)%nat) idx →
    omap (λ i, (l ++ [x]) !! i) idx = omap (λ i, l !! i) idx) as Hext.
  { induction 1 as [|i idx Hi _ IHf]; [done|]. cbn. rewrite lookup_app_l by done. by rewrite IHf. }
  apply Hext, Forall_forall. intros i Hi%elem_of_seq. lia.
Qed.

Lemma gather_split {A} (l : list A) (P : nat → Prop) `{∀ i, Decision (P i)} :
  l ≡ₚ gather l (filter P (seq 0 (length l))) ++ gather l (filter (λ i, ¬ P i) (seq 0 (length l))).
Proof.
  rewrite <-(gather_seq l) at 1. unfold gather. rewrite <-omap_app. apply omap_Permutation.
  by rewrite filter_app_complement.
Qed.

Lemma gather_lookup {A} (l : list A) idx k i x :
  Forall (λ i, (i < length l)%nat) idx → idx !! k = Some i → l !! i = Some x → gather l idx !! k = Some x.
Proof.
  revert k. induction idx as [|j idx IH]; intros k Hf Hk Hx; [done|]. apply Forall_cons in Hf as [Hj Hf].
  apply lookup_lt_is_Some_2 in Hj as [y Hy]. unfold gather. cbn [omap list_omap]. rewrite Hy.
  destruct k; simplify_eq/=; [congruence|]. by apply IH.
Qed.

Lemma gather_length {A} (l : list A) idx :
  Forall (λ i, (i < length l)%nat) idx → length (gather l idx) = length idx.
Proof.
  induction 1 as [|j idx Hj Hf IH]; [done|]. apply lookup_lt_is_Some_2 in Hj as [y Hy].
  unfold gather. cbn [omap list_omap]. rewrite Hy. cbn. f_equal. exact IH.
Qed.

Lemma gather_sorted (l : list Z) idx :
  StronglySorted Z.le l → StronglySorted lt idx → StronglySorted Z.le (gather l idx).
Proof.
  intros Hl. induction 1 as [|i idx Hs IH Hi]; [constructor|]. unfold gather. cbn [omap list_omap].
  destruct (l !! i) as [x|] eqn:E; [|exact IH]. constructor; [exact IH|].
  apply Forall_forall. intros y (j & Hj & Hy)%list_elem_of_omap. rewrite Forall_forall in Hi.
  by eapply (StronglySorted_lookup_lt Z.le); [|exact E|exact Hy|apply Hi].
Qed.

Lemma seq_sorted a n : StronglySorted lt (seq a n).
Proof.
  revert a. induction n as [|n IH]; intros a; cbn; constructor; [done|].
  apply Forall_forall. intros i Hi%elem_of_seq. lia.
Qed.

Lemma filter_sorted {A} (R : relation A) (P : A → Prop) `{∀ x, Decision (P x)} l :
  StronglySorted R l → StronglySorted R (filter P l).
Proof.
  induction 1 as [|x l Hs IH Hx]; [constructor|]. rewrite filter_cons. case_decide; [|done].
  constructor; [done|]. rewrite Forall_forall in Hx |- *. intros y [_ Hy]%list_elem_of_filter. by apply Hx.
Qed.

Lemma argsort_gather_sorted (l : list Z) : StronglySorted Z.le (gather l (argsort Z.leb l)).
Proof.
  assert (∀ idx, (∀ p q i j a b, idx !! p = Some i → idx !! q = Some j → (p < q)%nat →
            l !! i = Some a → l !! j = Some b → a ≤ b) → StronglySorted Z.le (gather l idx)) as Hgen.
  { induction idx as [|i idx IH]; intros Hord; [constructor|]. unfold gather. cbn [omap list_omap].
    assert (StronglySorted Z.le (gather l idx)) as Hs.
    { apply IH. intros p q i' j a b Hp Hq Hpq. apply (Hord (S p) (S q)); [done..|lia]. }
    destruct (l !! i) as [x|] eqn:E; [|exact Hs]. constructor; [exact Hs|].
    apply Forall_forall. intros y (j & Hj & Hy)%list_elem_of_omap. apply list_elem_of_lookup in Hj as [q Hq].
    apply (Hord 0%nat (S q) i j); [done|done|lia|done|done]. }
  apply Hgen. intros p q i j a b Hp Hq Hpq Ha Hb.
  apply (argsort_ordered Z.leb) with (p := p) (q := q) (i := i) (j := j) (a := a) (b := b) in Hb as [Hb _]; try done.
  - lia.
  - intros x y. lia.
  - intros x y z. lia.
Qed.

Lemma region_range thr k r : 0 ≤ region thr k r ≤ 3.
Proof. unfold region. repeat case_match; lia. Qed.

Lemma target_cons x rs : 0 ≤ x ≤ 3 → target_regions (x :: rs) ≡ₚ x :: target_regions rs.
Proof.
  intros Hx. unfold target_regions. cbn [fmap list_fmap mjoin list_join].
  assert (∀ k, count_region k (x :: rs) = ((if decide (x = k) then 1 else 0) + count_region k rs)%nat) as Hc.
  { intros k. unfold count_region. rewrite filter_cons. by case_decide. }
  rewrite !Hc.
  rewrite !app_nil_r. destruct (decide (x = 0)) as [?|]; [subst; simpl; by rewrite !Permutation_middle|].
  destruct (decide (x = 1)) as [?|]; [subst; simpl; by rewrite !Permutation_middle|].
  destruct (decide (x = 2)) as [?|]; [subst; simpl; by rewrite !Permutation_middle|].
  destruct (decide (x = 3)) as [?|]; [subst; simpl; by rewrite !Permutation_middle|]. lia.
Qed.

Lemma target_perm rs : Forall (λ x, 0 ≤ x ≤ 3) rs → target_regions rs ≡ₚ rs.
Proof. induction 1 as [|x rs Hx _ IH]; [done|]. by rewrite target_cons, IH. Qed.

Lemma target_sorted rs : StronglySorted Z.le (target_regions rs).
Proof.
  assert (∀ n (k : Z), StronglySorted Z.le (replicate n k)) as Hrep.
  { induction n as [|n IH]; intros k; cbn; constructor; [done|]. apply Forall_forall.
    intros y Hy%elem_of_replicate. lia. }
  unfold target_regions. cbn [fmap list_fmap mjoin list_join].
  rewrite app_nil_r. rewrite !StronglySorted_app. split_and!; try apply Hrep;
    intros x y Hx Hy; apply elem_of_replicate in Hx as [-> _]; rewrite ?elem_of_app in Hy;
    repeat (destruct Hy as [Hy|Hy]; [apply elem_of_replicate in Hy as [-> _]; lia|]);
    apply elem_of_replicate in Hy as [-> _]; lia.
Qed.

Lemma gather_bind {A} (l : list A) idx k :
  Forall (λ i, (i < length l)%nat) idx → gather l idx !! k = (idx !! k ≫= λ i, l !! i).
Proof.
  intros Hf. destruct (idx !! k) as [i|] eqn:E; cbn.
  - rewrite Forall_forall in Hf. destruct (lookup_lt_is_Some_2 l i) as [x Hx].
    { apply Hf. by eapply list_elem_of_lookup_2. }
    rewrite Hx. eapply gather_lookup; [by apply Forall_forall|done|done].
  - apply lookup_ge_None in E. apply lookup_ge_None. by rewrite gather_length.
Qed.

Lemma gather_gather {A} (l : list A) idx order :
  Forall (λ i, (i < length l)%nat) idx → gather (gather l idx) order = gather l (gather idx order).
Proof.
  intros Hf. unfold gather at 1 3 4. induction order as [|k order IH]; [done|]. cbn [omap list_omap].
  rewrite gather_bind by done. destruct (idx !! k) as [i|]; cbn [mbind option_bind omap list_omap]; rewrite IH; done.
Qed.

(** The source and the destination indices of the exchanges. *)
Section Positions.
Context (rs : list Z) (Hrs : Forall (λ x, 0 ≤ x ≤ 3) rs).
Let orig := needs_swap rs (target_regions rs).
Let srcs := gather orig (argsort Z.leb (gather rs orig)).

Lemma target_length : length (target_regions rs) = length rs.
Proof. by rewrite target_perm. Qed.

Lemma orig_in_range : Forall (λ i, (i < length rs)%nat) orig.
Proof. apply Forall_forall. intros i [_ Hi%elem_of_seq]%list_elem_of_filter. lia. Qed.

Lemma orig_NoDup : NoDup orig.
Proof. apply NoDup_filter, NoDup_seq. Qed.

Lemma srcs_perm : srcs ≡ₚ orig.
Proof.
  unfold srcs. transitivity (gather orig (seq 0 (length orig))); [|by rewrite gather_seq].
  apply omap_Permutation. rewrite argsort_Permutation, gather_length by apply orig_in_range. done.
Qed.

Lemma needs_swap_perm : gather rs orig ≡ₚ gather (target_regions rs) orig.
Proof.
  set (same := filter (λ i, ¬ (rs !! i ≠ target_regions rs !! i)) (seq 0 (length rs))).
  assert (gather rs same = gather (target_regions rs) same) as Hsame.
  { unfold gather. assert (∀ i, i ∈ same → rs !! i = target_regions rs !! i) as Hs.
    { intros i [Hi _]%list_elem_of_filter. by apply dec_stable. }
    clearbody same. induction same as [|i same' IH]; [done|]. cbn. rewrite Hs, IH by set_solver. done. }
  apply (Permutation_app_inv_r (gather rs same)). rewrite Hsame at 2.
  pose proof (gather_split rs (λ i, rs !! i ≠ target_regions rs !! i)) as H1.
  pose proof (gather_split (target_regions rs) (λ i, rs !! i ≠ target_regions rs !! i)) as H2.
  rewrite target_length in H2. fold orig same in H1, H2.
  transitivity rs; [symmetry; exact H1|]. transitivity (target_regions rs); [by rewrite target_perm|exact H2].
Qed.

(** The row sent to an index has the region the index is to have. *)
Lemma srcs_regions k s d :
  srcs !! k = Some s → orig !! k = Some d → rs !! s = target_regions rs !! d.
Proof.
  assert (gather rs srcs = gather (target_regions rs) orig) as Heq.
  { unfold srcs. rewrite <-gather_gather by apply orig_in_range.
    apply (StronglySorted_unique Z.le).
    - apply argsort_gather_sorted.
    - apply gather_sorted; [apply target_sorted|]. apply filter_sorted, seq_sorted.
    - rewrite <-needs_swap_perm. transitivity (gather (gather rs orig) (seq 0 (length (gather rs orig))));
        [|by rewrite gather_seq]. apply omap_Permutation. by rewrite argsort_Permutation. }
  intros Hs Hd. pose proof (f_equal (λ l, l !! k) Heq) as Hk. cbn in Hk.
  rewrite (gather_bind rs) in Hk by (rewrite srcs_perm; apply orig_in_range).
  rewrite (gather_bind (target_regions rs)) in Hk by (rewrite target_length; apply orig_in_range).
  by rewrite Hs, Hd in Hk.
Qed.
End Positions.

(** ** The properties *)

Definition row_region (num_scheduled : gmap string Z) (thr : Z) (r : batch_row) : Z :=
  region thr (default 0 (num_scheduled !! row_id r)) r.

Lemma scheduled_of_run num_scheduled rows :
  (∀ r, r ∈ rows → is_Some (num_scheduled !! row_id r)) →
  scheduled_of num_scheduled rows = Ok ((λ r, default 0 (num_scheduled !! row_id r)) <$> rows).
Proof.
  induction rows as [|r rows IH]; intros Hs; [done|]. cbn.
  destruct (Hs r) as [k ->]; [set_solver|]. rewrite IH by set_solver. done.
Qed.

Lemma sorted_by {A} (f : A → Z) l : StronglySorted (λ a b, f a ≤ f b) l ↔ StronglySorted Z.le (f <$> l).
Proof.
  induction l as [|x l IH]; [split; constructor|]. cbn. split; intros Hs.
  - apply StronglySorted_inv in Hs as [Hs Hx]. constructor; [by apply IH|]. rewrite Forall_fmap. exact Hx.
  - apply StronglySorted_inv in Hs as [Hs Hx]. constructor; [by apply IH|]. rewrite Forall_fmap in Hx. exact Hx.
Qed.

Lemma needs_swap_nil rs :
  Forall (λ x, 0 ≤ x ≤ 3) rs → needs_swap rs (target_regions rs) = [] ↔ StronglySorted Z.le rs.
Proof.
  intros Hrs. split.
  - intros Hn. assert (rs = target_regions rs) as ->; [|apply target_sorted].
    apply list_eq. intros i. destruct (decide (i < length rs)%nat) as [Hi|Hi].
    + apply dec_stable. intros Hne. apply (filter_nil_not_elem_of _ _ i Hn Hne), elem_of_seq. lia.
    + rewrite !lookup_ge_None_2; rewrite ?target_length by done; lia || done.
  - intros Hs. assert (target_regions rs = rs) as ->.
    { apply (StronglySorted_unique Z.le); [apply target_sorted|done|by apply target_perm]. }
    unfold needs_swap. induction (seq 0 (length rs)) as [|i l IH]; [done|].
    by rewrite filter_cons_False by (intros H; by apply H).
Qed.

(** The exchanges on rows whose regions are [f]. *)
Lemma exchanges_run {A} (f : A → Z) (rows : list A) :
  Forall (λ x, 0 ≤ x ≤ 3) (f <$> rows) →
  let rs := f <$> rows in
  let orig := needs_swap rs (target_regions rs) in
  let m := src_dest_map (gather orig (argsort Z.leb (gather rs orig))) orig in
  ∃ rows', place_all (length m) (dkeys m) m rows = Some (Ok rows') ∧ rows' ≡ₚ rows ∧
    f <$> rows' = target_regions rs ∧
    ∀ i, rs !! i = target_regions rs !! i → rows' !! i = rows !! i.
Proof.
  intros Hrs rs orig m. set (srcs := gather orig (argsort Z.leb (gather rs orig))) in *.
  pose proof (srcs_perm rs) as Hperm. pose proof (orig_NoDup rs) as Hnd. pose proof (orig_in_range rs) as Hrange.
  fold orig in Hperm, Hnd, Hrange. fold srcs in Hperm.
  assert (length rs = length rows) as Hlr by apply length_fmap.
  destruct (cycle_swaps_run srcs orig rows) as (rows' & Hrun & Hl & Hmv & Hkeep).
  { by rewrite Hperm. }
  { done. }
  { intros p. rewrite Hperm. rewrite Forall_forall in Hrange. rewrite <-Hlr. apply Hrange. }
  assert (∀ d, d ∈ orig → ∃ k s, srcs !! k = Some s ∧ orig !! k = Some d) as Hpair.
  { intros d [k Hk]%list_elem_of_lookup. destruct (lookup_lt_is_Some_2 srcs k) as [s Hs]; [|by exists k, s].
    rewrite Hperm. by eapply lookup_lt_Some. }
  exists rows'. split; [exact Hrun|]. split; [|split].
  - by eapply place_all_perm.
  - apply list_eq. intros i. rewrite list_lookup_fmap.
    destruct (decide (i ∈ orig)) as [Hi|Hi].
    + destruct (Hpair i Hi) as (k & s & Hs & Hd). rewrite (Hmv k s i Hs Hd), <-list_lookup_fmap.
      by eapply srcs_regions.
    + rewrite Hkeep, <-list_lookup_fmap by done. fold rs. destruct (decide (i < length rs)%nat) as [Hlt|Hge].
      * apply dec_stable. intros Hne. apply Hi, list_elem_of_filter. split; [done|]. apply elem_of_seq. lia.
      * rewrite !lookup_ge_None_2; rewrite ?target_length by done; lia || done.
  - intros i Hi. apply Hkeep. intros [Hne _]%list_elem_of_filter. done.
Qed.

Lemma reorder_run num_scheduled thr rows :
  (∀ r, r ∈ rows → is_Some (num_scheduled !! row_id r)) →
  ∃ changed rows',
    reorder_batch_to_split_decodes_and_prefills num_scheduled thr rows = Some (Ok (changed, rows')) ∧
    rows' ≡ₚ rows ∧
    row_region num_scheduled thr <$> rows' = target_regions (row_region num_scheduled thr <$> rows) ∧
    StronglySorted (λ a b, row_region num_scheduled thr a ≤ row_region num_scheduled thr b) rows' ∧
    (∀ i r, rows !! i = Some r →
       target_regions (row_region num_scheduled thr <$> rows) !! i = Some (row_region num_scheduled thr r) →
       rows' !! i = Some r) ∧
    (changed = false ↔ StronglySorted (λ a b, row_region num_scheduled thr a ≤ row_region num_scheduled thr b) rows).
Proof.
  intros Hs. set (f := row_region num_scheduled thr).
  unfold reorder_batch_to_split_decodes_and_prefills. rewrite scheduled_of_run by done.
  assert (zip_with (region thr) ((λ r, default 0 (num_scheduled !! row_id r)) <$> rows) rows = f <$> rows) as ->.
  { clear Hs. induction rows as [|r rows IH]; [done|]. cbn. by rewrite IH. }
  assert (Forall (λ x, 0 ≤ x ≤ 3) (f <$> rows)) as Hrs.
  { apply Forall_fmap, Forall_forall. intros r _. apply region_range. }
  pose proof (needs_swap_nil _ Hrs) as Hnil. rewrite <-sorted_by in Hnil.
  case_bool_decide as Ho.
  - assert (StronglySorted (λ a b, f a ≤ f b) rows) as Hsort by by apply Hnil.
    exists false, rows. split; [done|]. split; [done|]. split.
    { apply (StronglySorted_unique Z.le); [by rewrite <-(sorted_by f)|apply target_sorted|by rewrite target_perm]. }
    split; [done|]. split; [done|]. split; done.
  - destruct (exchanges_run f rows Hrs) as (rows' & Hrun & Hp & Hf & Hkeep). rewrite Hrun.
    exists true, rows'. split; [done|]. split; [done|]. split; [done|]. split.
    { rewrite (sorted_by f), Hf. apply target_sorted. }
    split; [|split; [done|by intros H%Hnil]]. intros i r Hi Ht. rewrite Hkeep; [done|]. by rewrite Ht, list_lookup_fmap, Hi.
Qed.

(** *** The boundary *)

(** Running sums, from [a]: [query_start_loc] and [paged_kv_indptr]. *)
Fixpoint offsets (a : Z) (lens : list Z) : list Z :=
  a :: match lens with [] => [] | k :: lens' => offsets (a + k) lens' end.

Lemma offsets_lens a lens : zip_with Z.sub (drop 1 (offsets a lens)) (offsets a lens) = lens.
Proof.
  revert a. induction lens as [|k lens IH]; intros a; [done|]. cbn [offsets drop].
  specialize (IH (a + k)). destruct lens as [|k' lens]; cbn in *; f_equal; try lia; exact IH.
Qed.

Lemma offsets_length a lens : length (offsets a lens) = S (length lens).
Proof. revert a. induction lens as [|k lens IH]; intros a; [done|]. cbn. by rewrite IH. Qed.

Lemma offsets_lookup a lens i : (i ≤ length lens)%nat → offsets a lens !! i = Some (a + foldr Z.add 0 (take i lens)).
Proof.
  revert a i. induction lens as [|k lens IH]; intros a i Hi; cbn in Hi.
  - replace i with 0%nat by lia. cbn. f_equal. lia.
  - destruct i as [|i]; cbn; [f_equal; lia|]. rewrite IH by lia. f_equal. lia.
Qed.

Lemma foldr_add l c : foldr Z.add c l = foldr Z.add 0 l + c.
Proof. induction l as [|x l IH]; cbn; [lia|]. rewrite IH. lia. Qed.

Lemma foldr_take_S (lens : list Z) i k :
  lens !! i = Some k → foldr Z.add 0 (take (S i) lens) = foldr Z.add 0 (take i lens) + k.
Proof. intros Hk. rewrite (take_S_r lens i k Hk), foldr_app. cbn. rewrite (foldr_add _ (k + 0)). lia. Qed.

Lemma offsets_succ a lens i k x :
  lens !! i = Some k → offsets a lens !! i = Some x → offsets a lens !! S i = Some (x + k).
Proof.
  intros Hk Hx. pose proof (lookup_lt_Some _ _ _ Hk). rewrite offsets_lookup in Hx |- * by lia.
  rewrite (foldr_take_S _ _ _ Hk). injection Hx as <-. f_equal. lia.
Qed.

Lemma first_true_spec (l : list bool) :
  (first_true l ≤ length l)%nat ∧ (∀ i, (i < first_true l)%nat → l !! i = Some false) ∧
  (existsb id l = true → l !! first_true l = Some true).
Proof.
  induction l as [|[] l (IH1 & IH2 & IH3)]; cbn.
  - split_and!; [lia|lia|done].
  - split_and!; [lia|lia|done].
  - split_and!; [lia| |done]. intros [|i] Hi; [done|]. apply IH2. lia.
Qed.

(** The first [d] rows have at most [thr] tokens and the next row has more. *)
Record boundary (thr : Z) (lens : list Z) (d : nat) : Prop := {
  bd_len : (d ≤ length lens)%nat;
  bd_below : ∀ i k, (i < d)%nat → lens !! i = Some k → k ≤ thr;
  bd_above : (d < length lens)%nat → ∃ k, lens !! d = Some k ∧ thr < k;
}.

Lemma split_run lens mx thr :
  lens ≠ [] → (∀ q, q ∈ lens → q ≤ mx) →
  ∃ d, boundary thr lens d ∧
    split_decodes_and_prefills (offsets 0 lens) (length lens) (foldr Z.add 0 lens) mx thr false =
    Ok (d, (length lens - d)%nat, foldr Z.add 0 (take d lens), foldr Z.add 0 lens - foldr Z.add 0 (take d lens)).
Proof.
  intros Hne Hmx. unfold split_decodes_and_prefills. rewrite offsets_lens. cbn [negb orb andb].
  rewrite andb_true_r.
  assert (Forall (λ q, q ≤ thr) lens → boundary thr lens (length lens) ∧
    Ok (length lens, 0%nat, foldr Z.add 0 lens, 0) =
    Ok (length lens, (length lens - length lens)%nat, foldr Z.add 0 (take (length lens) lens),
        foldr Z.add 0 lens - foldr Z.add 0 (take (length lens) lens))) as Hall.
  { intros Hf. split.
    - split; [done| |lia]. intros i k _ Hk. rewrite Forall_forall in Hf. apply Hf. by eapply list_elem_of_lookup_2.
    - by rewrite firstn_all, Nat.sub_diag, Z.sub_diag. }
  destruct (mx <=? thr) eqn:E.
  { exists (length lens). apply Hall, Forall_forall. intros q Hq%Hmx. lia. }
  destruct lens as [|q0 lens']; [done|]. set (lens := q0 :: lens') in *.
  destruct (thr <? q0) eqn:E0.
  { exists 0%nat. split; [|by rewrite Nat.sub_0_r, Z.sub_0_r].
    split; [lia|lia|]. intros _. exists q0. split; [done|lia]. }
  set (pf := (λ q, thr <? q) <$> lens). destruct (first_true_spec pf) as (H1 & H2 & H3).
  assert (length pf = length lens) as Hl by apply length_fmap.
  destruct (existsb id pf) eqn:Ex; cbn [negb].
  - specialize (H3 eq_refl). exists (first_true pf). split.
    + split; [lia| |].
      * intros i k Hi Hk. specialize (H2 i Hi). unfold pf in H2. rewrite list_lookup_fmap, Hk in H2.
        injection H2 as H2. lia.
      * intros _. unfold pf in H3 |- *. rewrite list_lookup_fmap in H3.
        destruct (lens !! first_true _) as [k|]; [|done]. exists k. injection H3 as H3. split; [done|lia].
    + assert (py_index (offsets 0 lens) (Z.of_nat (first_true pf)) = Ok (foldr Z.add 0 (take (first_true pf) lens))) as ->.
      { apply py_index_Ok; [lia|]. rewrite Nat2Z.id, offsets_lookup by lia. done. }
      done.
  - exists (length lens). apply Hall, Forall_forall. intros q Hq. destruct (thr <? q) eqn:Eq; [|lia].
    exfalso. rewrite <-not_true_iff_false in Ex. apply Ex, existsb_exists. exists true. split; [|done].
    apply list_elem_of_In, list_elem_of_fmap. by exists q.
Qed.

(** With a threshold of one token and no padding rows, the parent backend's
    uniform split is the same. *)
Lemma split_uniform lens mx :
  (∀ q, q ∈ lens → 1 ≤ q ≤ mx) →
  split_decodes_and_prefills (offsets 0 lens) (length lens) (foldr Z.add 0 lens) mx 1 true =
  split_decodes_and_prefills (offsets 0 lens) (length lens) (foldr Z.add 0 lens) mx 1 false.
Proof.
  intros Hq. unfold split_decodes_and_prefills. rewrite offsets_lens. cbn [negb orb andb Z.leb Z.compare].
  destruct ((mx <=? 1) && _); [done|]. destruct lens as [|q0 lens']; [done|]. set (lens := q0 :: lens') in *.
  destruct (1 <? q0) eqn:E0; [done|]. assert (q0 = 1) as E1 by (specialize (Hq q0 ltac:(set_solver)); lia).
  assert ((λ q, negb (q =? q0)) <$> lens = (λ q, 1 <? q) <$> lens) as ->.
  { apply list_fmap_ext. intros i q Hi%list_elem_of_lookup_2. specialize (Hq q Hi). lia. }
  destruct (forallb _ lens) eqn:Ef; [|done].
  destruct (existsb id ((λ q, 1 <? q) <$> lens)) eqn:Ex; [|done]. exfalso.
  apply existsb_exists in Ex as (b & Hb & Hid). apply list_elem_of_In, list_elem_of_fmap in Hb as (q & -> & Hin).
  rewrite forallb_forall in Ef. specialize (Ef q (proj1 (list_elem_of_In _ _) Hin)). unfold id in Hid. lia.
Qed.

(** C27: decode rows come first.  For requests that are all scheduled with at
    least one token, [reorder_batch_to_split_decodes_and_prefills] terminates and
    returns a permutation of the rows in which decodes come first, then short
    extends, long extends and first chunks; a row that already lies in its
    region's range keeps its index, and the batch is reported unchanged exactly
    when it was in order.  On the result, [split_decodes_and_prefills] returns a
    boundary such that every row before it has at most the threshold of tokens
    and every row from it on is a long extend or a first chunk; with a threshold
    of one token the parent backend's uniform split gives the same boundary. *)
Theorem decode_rows_first num_scheduled thr mx rows :
  rows ≠ [] →
  (∀ r, r ∈ rows → ∃ k, num_scheduled !! row_id r = Some k ∧ 1 ≤ k ≤ mx) →
  let sched r := default 0 (num_scheduled !! row_id r) in
  let reg := row_region num_scheduled thr in
  ∃ changed rows' d dt pt,
    reorder_batch_to_split_decodes_and_prefills num_scheduled thr rows = Some (Ok (changed, rows')) ∧
    rows' ≡ₚ rows ∧ StronglySorted (λ a b, reg a ≤ reg b) rows' ∧
    (∀ i r, rows !! i = Some r → target_regions (reg <$> rows) !! i = Some (reg r) → rows' !! i = Some r) ∧
    (changed = false ↔ StronglySorted (λ a b, reg a ≤ reg b) rows) ∧
    let split := split_decodes_and_prefills (offsets 0 (sched <$> rows')) (length rows')
                   (foldr Z.add 0 (sched <$> rows')) mx thr in
    split false = Ok (d, (length rows' - d)%nat, dt, pt) ∧ (thr = 1 → split true = split false) ∧
    (∀ i r, rows' !! i = Some r → ((i < d)%nat → sched r ≤ thr) ∧ ((d ≤ i)%nat → 2 ≤ reg r)).
Proof.
  intros Hne Hs sched reg.
  destruct (reorder_run num_scheduled thr rows) as (changed & rows' & Hrun & Hp & _ & Hsort & Hkeep & Hch).
  { intros r (k & -> & _)%Hs. done. }
  assert (∀ q, q ∈ sched <$> rows' → 1 ≤ q ≤ mx) as Hq.
  { intros q (r & -> & Hr)%list_elem_of_fmap. unfold sched. rewrite Hp in Hr.
    destruct (Hs r Hr) as (k & -> & Hk). exact Hk. }
  assert (length (sched <$> rows') = length rows') as Hl by apply length_fmap.
  destruct (split_run (sched <$> rows') mx thr) as (d & [Hd Hb Ha] & Hsplit).
  { intros E%fmap_nil_inv. subst rows'. by apply Permutation_nil in Hp. }
  { intros q ?%Hq. lia. }
  rewrite Hl in Hsplit. exists changed, rows'. do 3 eexists.
  split; [done|]. split; [done|]. split; [done|]. split; [done|]. split; [done|]. split; [exact Hsplit|]. split.
  { intros ->. rewrite <-Hl. by apply split_uniform. }
  intros i r Hi. split.
  - intros Hid. apply (Hb i); [done|]. by rewrite list_lookup_fmap, Hi.
  - intros Hdi. pose proof (lookup_lt_Some _ _ _ Hi). destruct Ha as (k & Hk & Hlt); [lia|].
    rewrite list_lookup_fmap in Hk. apply fmap_Some in Hk as (r0 & Hr0 & ->).
    assert (2 ≤ reg r0) as H2.
    { unfold reg, row_region, region. fold (sched r0). replace (sched r0 <=? thr) with false by lia.
      destruct (0 <? row_computed r0); cbn; lia. }
    destruct (decide (d = i)) as [->|]; [congruence|].
    pose proof (StronglySorted_lookup_lt _ _ d i r0 r Hsort Hr0 Hi ltac:(lia)) as Hle.
    cbv beta in Hle. unfold reg in *. lia.
Qed.

(** *** Witness: a prefill, a decode, a short extend and a second decode. *)
Definition demo_rows : list batch_row :=
  [Row "p" 0 30 [1; 2]; Row "d" 20 16 [3; 4]; Row "l" 16 64 [5]; Row "s" 8 9 [6]; Row "e" 40 16 [7; 8; 9]].
Definition demo_sched : gmap string Z := {["p" := 30; "d" := 1; "l" := 16; "s" := 1; "e" := 1]}%string.

Lemma decode_rows_first_witness :
  reorder_batch_to_split_decodes_and_prefills demo_sched 1 demo_rows =
    Some (Ok (true, [Row "e" 40 16 [7; 8; 9]; Row "d" 20 16 [3; 4]; Row "s" 8 9 [6]; Row "l" 16 64 [5]; Row "p" 0 30 [1; 2]]))
  ∧ ∃ changed rows', reorder_batch_to_split_decodes_and_prefills demo_sched 1 demo_rows = Some (Ok (changed, rows')) ∧
      rows' ≡ₚ demo_rows.
Proof.
  split; [by vm_compute|].
  destruct (decode_rows_first demo_sched 1 30 demo_rows) as (changed & rows' & _ & _ & _ & Hr & Hp & _).
  - done.
  - intros r Hr. unfold demo_rows in Hr. repeat (apply elem_of_cons in Hr as [->|Hr]); [..|by apply elem_of_nil in Hr];
      eexists; (split; [by vm_compute|lia]).
  - exists changed, rows'. exact (conj Hr Hp).
Defined.
