(* ===== verification/Builder.v ===== *)
(** * The sparse backend's metadata builder

    Models [SkylightSparseMetadataBuilder] of skylight/src/skylight/backend.py, the
    last stop before the attention kernel: [build] derives the decode requests of
    the step from the runner's batch, lets FlashInfer fill the page indices
    ([_compute_flashinfer_kv_metadata] of
    vllm/v1/attention/backends/flashinfer.py), rewrites the entries of offloaded
    blocks ([_patch_indices_for_staging]) and raises when the rewriting bailed
    out while pages may have been recycled.  [_cache_sparse_pattern] stores the
    kernel's selection for the next step.

    The class attributes and the module cache are one state, with the orchestrator
    that the scheduler connector shares.  FlashInfer's planning calls, the decode
    wrapper and context parallelism are not modelled. *)

From S2P Require Import Prelude PyData Float Residency Scoring Pages OffloadManager StagingPool.
From S2P Require Import Controller Selection Orchestrator OrchestratorSpec BatchOrder.
From stdpp Require Import base gmap sets list strings sorting.
From Stdlib Require Import ZArith Lia.
Open Scope Z_scope.

(** [_patch_bail_reason] *)
Inductive bail :=
  | ids_empty
  | ids_gt_reqs
  | row_alignment (b : nat) (rid : string) (tracked row_pages : Z).

Record builder (S : Type) := Builder {
  _offload_orchestrator : option (orch S);
  (** the request ids of the runner's input batch, if a runner was injected *)
  _offload_runner : option (list string);
  _patch_bail_reason : option bail;
  _step_serial : Z;
  _pattern_cached_serial : Z;
  _cached_sparse_idx : option tensor3;
  _cached_sparse_len : option tensor3;
  _cached_request_ids : option (list string);
  (** [_sparse_pattern_cache] *)
  cache_pattern : option (tensor3 * tensor3);
  cache_request_ids : option (list string);
  paged_kv_indptr : list Z;
  paged_kv_last_page_len : list Z;
  (** [kv_cache_spec.block_size] *)
  b_block_size : Z;
}.
Arguments Builder {S}.
Arguments _offload_orchestrator {S}.
Arguments _offload_runner {S}.
Arguments _patch_bail_reason {S}.
Arguments _step_serial {S}.
Arguments _pattern_cached_serial {S}.
Arguments _cached_sparse_idx {S}.
Arguments _cached_sparse_len {S}.
Arguments _cached_request_ids {S}.
Arguments cache_pattern {S}.
Arguments cache_request_ids {S}.
Arguments paged_kv_indptr {S}.
Arguments paged_kv_last_page_len {S}.
Arguments b_block_size {S}.

(** What a step gives the builder: [CommonAttentionMetadata] and the state of the
    CUDA stream and of the environment. *)
Record step_in := StepIn {
  (** [torch.cuda.is_current_stream_capturing()] *)
  capturing : bool;
  (** [SKYLIGHT_OFFLOAD_DISABLE_RUNNER_IDS == "1"] *)
  disable_runner_ids : bool;
  query_start_loc : list Z;
  num_reqs : nat;
  num_actual_tokens : Z;
  max_query_len : Z;
  seq_lens : list Z;
  block_table : list (list Z);
  common_prefix_len : Z;
  causal : bool;
}.

(** FlashInfer's configuration. *)
Record fi_config := FIConfig {
  use_dedicated_xqa : bool;
  (** the outcome of [use_trtllm_attention] for the prefill rows *)
  trtllm_prefill : bool;
  has_sinks : bool;
  has_same_window_lefts : bool;
  has_same_all_params : bool;
}.

(** The parts of [FlashInferMetadata] that concern the page indices. *)
Record fi_metadata := FIMeta {
  m_num_decodes : nat;
  m_num_prefills : nat;
  m_paged_kv_indices : option (list Z);
}.

Section Updates.
Context {S : Type}.
Implicit Types b : builder S.

Definition set_b_orch (o : option (orch S)) b : builder S :=
  Builder o (_offload_runner b) (_patch_bail_reason b) (_step_serial b) (_pattern_cached_serial b)
    (_cached_sparse_idx b) (_cached_sparse_len b) (_cached_request_ids b) (cache_pattern b)
    (cache_request_ids b) (paged_kv_indptr b) (paged_kv_last_page_len b) (b_block_size b).
Definition set_bail (r : option bail) b : builder S :=
  Builder (_offload_orchestrator b) (_offload_runner b) r (_step_serial b) (_pattern_cached_serial b)
    (_cached_sparse_idx b) (_cached_sparse_len b) (_cached_request_ids b) (cache_pattern b)
    (cache_request_ids b) (paged_kv_indptr b) (paged_kv_last_page_len b) (b_block_size b).
Definition bump_serial b : builder S :=
  Builder (_offload_orchestrator b) (_offload_runner b) (_patch_bail_reason b) (_step_serial b + 1)
    (_pattern_cached_serial b) (_cached_sparse_idx b) (_cached_sparse_len b) (_cached_request_ids b)
    (cache_pattern b) (cache_request_ids b) (paged_kv_indptr b) (paged_kv_last_page_len b) (b_block_size b).
Definition set_ids (ids : list string) b : builder S :=
  Builder (_offload_orchestrator b) (_offload_runner b) (_patch_bail_reason b) (_step_serial b)
    (_pattern_cached_serial b) (_cached_sparse_idx b) (_cached_sparse_len b) (Some ids)
    (cache_pattern b) (Some ids) (paged_kv_indptr b) (paged_kv_last_page_len b) (b_block_size b).
Definition set_cache (si sl : tensor3) b : builder S :=
  Builder (_offload_orchestrator b) (_offload_runner b) (_patch_bail_reason b) (_step_serial b)
    (_pattern_cached_serial b) (_cached_sparse_idx b) (_cached_sparse_len b) (_cached_request_ids b)
    (Some (si, sl)) (cache_request_ids b) (paged_kv_indptr b) (paged_kv_last_page_len b) (b_block_size b).
Definition set_pattern b : builder S :=
  Builder (_offload_orchestrator b) (_offload_runner b) (_patch_bail_reason b) (_step_serial b)
    (_step_serial b) (fst <$> cache_pattern b) (snd <$> cache_pattern b) (_cached_request_ids b)
    (cache_pattern b) (cache_request_ids b) (paged_kv_indptr b) (paged_kv_last_page_len b) (b_block_size b).
Definition set_kv (indptr last_len : list Z) b : builder S :=
  Builder (_offload_orchestrator b) (_offload_runner b) (_patch_bail_reason b) (_step_serial b)
    (_pattern_cached_serial b) (_cached_sparse_idx b) (_cached_sparse_len b) (_cached_request_ids b)
    (cache_pattern b) (cache_request_ids b) indptr last_len (b_block_size b).
End Updates.

(** ** FlashInfer's page indices *)

(** The Triton kernel: program [i] copies the first [cu[i+1] - cu[i]] entries of
    row [i] to position [cu[i]]. *)
Definition _copy_page_indices_kernel (block_table : list (list Z)) (num_blocks : list Z) : list Z :=
  mjoin (zip_with (λ k row, take (Z.to_nat k) row) num_blocks block_table).

(** [np.where((r == 0) & (seq_lens != 0), page_size, r)] *)
Definition last_page_len (page_size len : Z) : Z :=
  let r := len mod page_size in
  if (r =? 0) && negb (len =? 0) then page_size else r.

Section Builder.
Context {S : Type} `{BlockScorer S}.

Definition fi_compute_kv_metadata (num_blocks seq_lens : list Z) (block_table : list (list Z))
    (page_size : Z) : M (builder S) (list Z) :=
  modify (set_kv (offsets 0 num_blocks) (last_page_len page_size <$> seq_lens)) >>
  ret (_copy_page_indices_kernel block_table num_blocks).

(** ** Patching *)

Definition on_b_orch {A} (dflt : A) (op : M (orch S) A) : M (builder S) A := λ b,
  match _offload_orchestrator b with
  | None => (Ok dflt, b)
  | Some o => let '(r, o') := op o in (r, set_b_orch (Some o') b)
  end.

(** [getattr(orch, "true_freeing") and orch.residency.num_cpu_blocks > 0] *)
Definition pages_at_risk (b : builder S) : bool :=
  match _offload_orchestrator b with
  | None => false
  | Some o => true_freeing o && (0 <? num_cpu_blocks (o_table o))
  end.

(** The alignment check: the first row whose page count is not the tracked one. *)
Fixpoint misaligned (t : table) (indptr : list Z) (b : nat) (request_ids : list string)
    : result (option bail) :=
  match request_ids with
  | [] => Ok None
  | rid :: rest =>
      result_bind (py_index indptr (Z.of_nat b + 1)) (λ stop,
      result_bind (py_index indptr (Z.of_nat b)) (λ start,
      let row_pages := stop - start in
      let tracked := zlen (refs_for_request t rid) in
      if (tracked =? 0) || negb (row_pages =? tracked)
      then Ok (Some (row_alignment b rid tracked row_pages))
      else misaligned t indptr (Datatypes.S b) rest))
  end.

(** Fetch for the previous step's selection, unless it belongs to another batch. *)
Definition fetch_for_pattern (io : option nat) (request_ids : list string)
    : M (builder S) (list (BlockRef * Z) * option (tensor3 * tensor3)) :=
  let! b := gets (λ b, b) in
  match _cached_sparse_idx b, _cached_sparse_len b with
  | Some si, Some sl =>
      if negb (dim0 si =? length request_ids)%nat then ret ([], None)
      else
        let! m := on_b_orch [] (prepare_staging io request_ids si sl) in
        ret (m, Some (si, sl))
  | _, _ => ret ([], None)
  end.

(** The alignment check and the patch itself.  An exception of the patch leaves
    what it has written; it is swallowed unless pages are at risk. *)
Definition patch_checked (request_ids : list string) (indices : list Z)
    (staging_map : list (BlockRef * Z)) (sparse : option (tensor3 * tensor3))
    : M (builder S) (list Z) := λ b,
  match _offload_orchestrator b with
  | None => (Ok indices, b)
  | Some o =>
      let indptr := take (length request_ids + 1) (paged_kv_indptr b) in
      match misaligned (o_table o) indptr 0 request_ids with
      | Raise e => (Raise e, b)
      | Ok (Some r) => (Ok indices, set_bail (Some r) b)
      | Ok None =>
          let '(r, patched) := patch_in_place indptr request_ids sparse (b_block_size b)
            (staging_base_page_idx o) (o_table o) staging_map
            (if true_freeing o then Some 0 else None) (Some indptr) indices in
          match r with
          | Ok _ => (Ok patched, b)
          | Raise e => if pages_at_risk b then (Raise e, b) else (Ok patched, b)
          end
      end
  end.

(** The body of the [try]: the array after the attempt, patched in place. *)
Definition patch_attempt (io : option nat) (request_ids : list string) (indices : list Z)
    : M (builder S) (list Z) :=
  let! fetched := fetch_for_pattern io request_ids in
  patch_checked request_ids indices fetched.1 fetched.2.

(** The whole method, on the index array it patches in place.  An exception is
    swallowed unless pages are at risk. *)
Definition _patch_indices_for_staging (io : option nat) (st : step_in) (indices : list Z)
    : M (builder S) (list Z) := λ b,
  if capturing st then (Ok indices, b)
  else match _offload_orchestrator b with
       | None => (Ok indices, b)
       | Some _ =>
           let request_ids := default [] (_cached_request_ids b) in
           if bool_decide (request_ids = []) then (Ok indices, set_bail (Some ids_empty) b)
           else if (num_reqs st <? length request_ids)%nat
           then (Ok indices, set_bail (Some ids_gt_reqs) b)
           else match patch_attempt io request_ids indices b with
                | (Ok a, b') => (Ok a, b')
                | (Raise e, b') => if pages_at_risk b' then (Raise e, b') else (Ok indices, b')
                end
       end.

(** The override of [_compute_flashinfer_kv_metadata]. *)
Definition _compute_flashinfer_kv_metadata (io : option nat) (st : step_in) (num_blocks : list Z)
    (page_size : Z) : M (builder S) (list Z) :=
  let! paged_kv_indices := fi_compute_kv_metadata num_blocks (seq_lens st) (block_table st) page_size in
  _patch_indices_for_staging io st paged_kv_indices.

(** ** [build] *)

(** [FlashInferMetadataBuilder.build] up to the page indices, without context
    parallelism and with the native decode path that the subclass forces. *)
Definition fi_build (cfg : fi_config) (io : option nat) (st : step_in) : M (builder S) fi_metadata :=
  let! split := (if causal st || use_dedicated_xqa cfg
    then lift (split_decodes_and_prefills (query_start_loc st) (num_reqs st) (num_actual_tokens st)
                 (max_query_len st) 1 (negb (use_dedicated_xqa cfg)))
    else ret (0%nat, num_reqs st, 0, num_actual_tokens st)) in
  let '(num_decodes, num_prefills, _, _) := split in
  let! page_size := gets b_block_size in
  let use_cascade := 0 <? common_prefix_len st in
  let prefill_use_trtllm := causal st && trtllm_prefill cfg in
  let all_uses_trtllm :=
    causal st && (((num_prefills =? 0)%nat || prefill_use_trtllm) && (num_decodes =? 0)%nat) in
  (when negb all_uses_trtllm do
     ensure (negb (has_sinks cfg && (negb (use_dedicated_xqa cfg) || use_cascade))) RuntimeError >>
     ensure (has_same_window_lefts cfg) ValueError >>
     ensure (has_same_all_params cfg) AssertionError) >>
  let num_blocks := (λ len, (len + (page_size - 1)) / page_size) <$> seq_lens st in
  (when use_cascade do ensure (common_prefix_len st mod page_size =? 0) AssertionError) >>
  let num_blocks' := if use_cascade then (λ k, k - common_prefix_len st / page_size) <$> num_blocks
                     else num_blocks in
  let needs_paged_kv_indices :=
    use_cascade || ((0 <? num_prefills)%nat && negb prefill_use_trtllm) || (0 <? num_decodes)%nat in
  if needs_paged_kv_indices then
    let! indices := _compute_flashinfer_kv_metadata io st num_blocks' page_size in
    ret (FIMeta num_decodes num_prefills (Some indices))
  else ret (FIMeta num_decodes num_prefills None).

Definition dummy_id (rid : string) : bool :=
  String.prefix "_dummy" rid || String.prefix "_warmup" rid.

(** This step's decode requests, from the runner's batch. *)
Definition derive_request_ids (st : step_in) : M (builder S) nat :=
  let! b := gets (λ b, b) in
  match _offload_runner b, _offload_orchestrator b with
  | Some req_ids, Some _ =>
      if capturing st then ret 0%nat
      else
        let num_decodes :=
          match split_decodes_and_prefills (query_start_loc st) (num_reqs st) (num_actual_tokens st)
                  (max_query_len st) 1 false with
          | Ok (d, _, _, _) => d
          | Raise _ => 0%nat
          end in
        let ids := take num_decodes req_ids in
        (when (0 <? num_decodes)%nat && negb (disable_runner_ids st)
              && match ids with [] => false | rid :: _ => negb (dummy_id rid) end
         do modify (set_ids ids)) >>
        ret num_decodes
  | _, _ => ret 0%nat
  end.

(** [build], up to the hand-over to the decode wrapper. *)
Definition build (cfg : fi_config) (io : option nat) (st : step_in) : M (builder S) fi_metadata :=
  modify (set_bail None) >>
  modify bump_serial >>
  let! num_decodes := derive_request_ids st in
  let! attn_metadata := fi_build cfg io st in
  let! b := gets (λ b, b) in
  if bool_decide (is_Some (_patch_bail_reason b)) && (0 <? num_decodes)%nat && pages_at_risk b
  then raise RuntimeError
  else ret attn_metadata.

(** ** After the forward pass *)

(** [_cache_sparse_pattern], with the selection of the wrapper if it has one.  A
    failing [note_selection] is swallowed after the module cache was set. *)
Definition _cache_sparse_pattern (cap : bool) (last_topk_idx : option tensor3) : M (builder S) unit :=
  let! b := gets (λ b, b) in
  if cap then ret tt
  else if _pattern_cached_serial b =? _step_serial b then ret tt
  else match last_topk_idx with
       | None => ret tt
       | Some si =>
           let sl := T3 (dim0 si) (dim1 si) 1
             (replicate (dim0 si) (replicate (dim1 si) [Z.of_nat (dim2 si)])) in
           modify (set_cache si sl) >>
           catch
             ((match default [] (_cached_request_ids b) with
               | [] => ret tt
               | ids => on_b_orch tt
                   (let! ps := gets o_page_size in note_selection ids si ps)
               end) >>
              modify set_pattern)
             (λ _, ret tt)
       end.
End Builder.

(** ** The tracked blocks of a request *)

Lemma sorted_lt_ext (l l' : list Z) :
  StronglySorted Z.lt l → StronglySorted Z.lt l' → (∀ x, x ∈ l ↔ x ∈ l') → l = l'.
Proof.
  assert (∀ l, StronglySorted Z.lt l → NoDup l) as Hnd.
  { induction 1 as [|x k Hk IH Hx]; constructor; [|done]. intros Hin. rewrite Forall_forall in Hx.
    specialize (Hx x Hin). lia. }
  intros H1 H2 Hin. apply (StronglySorted_unique_strong Z.lt); [|done|done|].
  - intros x y _ _ ? ?. lia.
  - apply NoDup_Permutation; auto.
Qed.

Section Tracked.
Context {S : Type} `{LawfulScorer S} (np n : Z).
Implicit Types o : orch S.

Lemma builder_tracked_refs o req :
  orch_inv np n o → refs_for_request (o_table o) req = default [] (_request_blocks o !! req).
Proof.
  intros Hinv. pose proof (ts_ok _ _ _ _ (si_om _ _ _ (oi_sp _ _ _ Hinv))) as Hok.
  destruct (refs_for_request_spec (o_table o) req Hok) as (idx & -> & Hs & Hin).
  assert (∀ i, i ∈ idx ↔ ∃ l, _request_blocks o !! req = Some l ∧ mkRef req i ∈ l) as Hin'.
  { intros i. rewrite Hin. apply (oi_tracked _ _ _ Hinv (mkRef req i)). }
  destruct (_request_blocks o !! req) as [l|] eqn:El; cbn.
  - destruct (oi_lists _ _ _ Hinv _ _ El) as (k & Hk & ->). f_equal.
    apply sorted_lt_ext; [done|apply zrange_sorted|]. intros i. rewrite Hin'. split.
    + intros (l & [= <-] & (j & [= ->] & Hj)%list_elem_of_fmap). done.
    + intros Hi. eexists. split; [done|]. apply list_elem_of_fmap. by exists i.
  - destruct idx as [|i idx]; [done|]. destruct (proj1 (Hin' i)) as (l & [=] & _). set_solver.
Qed.

(** What fetching for a selection does: known blocks stay known, and a block in
    the returned map is staged or was demoted again. *)
Lemma prepare_map io ids si sl o m o1 :
  orch_inv np n o → prepare_staging io ids si sl o = (Ok m, o1) →
  orch_inv np n o1 ∧ true_freeing o1 = true_freeing o ∧
  staging_base_page_idx o1 = staging_base_page_idx o ∧ _request_blocks o1 = _request_blocks o ∧
  (m ≠ [] → ∃ needed, collect_needed_block_refs ids si sl (o_page_size o) = Ok needed) ∧
  (∀ r, is_Some (dget r m) → ∃ l, o_loc o1 r = Some l ∧ residency l ≠ GPU).
Proof.
  intros Hinv Hrun. pose proof (prepare_inv np n io ids si sl o Hinv) as Hinv1. rewrite Hrun in Hinv1.
  split; [done|]. revert Hrun. unfold prepare_staging. do 2 run_step.
  destruct (_ =? _).
  { intros [= <- <-]. split_and!; try done. intros r [? [=]]. }
  do 2 run_step. set (o0 := with_seen (cpu_version (o_table o)) o).
  unfold bind at 1, lift. change (o_page_size o0) with (o_page_size o).
  destruct (collect_needed_block_refs ids si sl (o_page_size o)) as [needed|e]; [|done].
  run_step. set (refs := filter (λ r, is_on_cpu o0 r = true) needed).
  assert (orch_inv np n o0) as Hinv0 by by apply (orch_inv_frame _ _ o).
  assert (∀ r, r ∈ refs → is_on_cpu o0 r = true) as Hcpu by (by intros r [? _]%list_elem_of_filter).
  destruct (stage_run np n io refs o0 Hinv0 Hcpu) as [Hra Hen].
  unfold bind at 1. unfold on_pool, zoom in *.
  destruct (ensure_resident io refs (o_pool o0)) as [[[res sk]|e] p']; [|done].
  intros [= <- <-]. split_and!; [done|done|done|by exists needed|].
  intros r Hr. destruct (en_keys _ _ _ _ _ _ Hen r Hr) as [Hin _].
  assert (is_Some (o_loc o0 r)) as Hs.
  { specialize (Hcpu r Hin). unfold is_on_cpu in Hcpu. by destruct (o_loc o0 r). }
  apply (ra_dom _ _ _ _ Hra) in Hs as [l Hl]. exists l. split; [done|]. intros Hg.
  destruct (ra_gpu _ _ _ _ Hra r l Hl Hg) as (l' & Hl' & Hg' & _). specialize (Hcpu r Hin).
  unfold is_on_cpu in Hcpu. rewrite Hl' in Hcpu. unfold was_res, is_res in Hcpu.
  rewrite Hg' in Hcpu. done.
Qed.
End Tracked.

(** ** FlashInfer's indices by row *)

Lemma offsets_take a lens m : take (S m) (offsets a lens) = offsets a (take m lens).
Proof.
  revert a m. induction lens as [|k lens IH]; intros a m; destruct m as [|m]; try done. cbn [take offsets].
  f_equal. apply IH.
Qed.

Lemma offsets_mono a lens i j x y :
  Forall (λ k, 0 ≤ k) lens → (i ≤ j)%nat → offsets a lens !! i = Some x → offsets a lens !! j = Some y →
  a ≤ x ≤ y.
Proof.
  intros Hf Hij Hx Hy. pose proof (lookup_lt_Some _ _ _ Hx) as Hi. pose proof (lookup_lt_Some _ _ _ Hy) as Hj.
  rewrite offsets_length in *. rewrite offsets_lookup in Hx, Hy by lia. simplify_eq.
  assert (∀ l, Forall (λ k, 0 ≤ k) l → 0 ≤ foldr Z.add 0 l) as Hpos.
  { induction 1 as [|k l Hk _ IH]; cbn; lia. }
  replace (take j lens) with (take i lens ++ take (j - i) (drop i lens)).
  - rewrite foldr_app.
    rewrite (foldr_add _ (foldr _ _ _)). pose proof (Hpos (take i lens) (Forall_take _ _ _ Hf)).
    pose proof (Hpos (take (j - i) (drop i lens)) (Forall_take _ _ _ (Forall_drop _ _ _ Hf))). lia.
  - rewrite <-(take_drop i (take j lens)), take_take, Nat.min_l by lia. f_equal.
    by rewrite skipn_firstn_comm.
Qed.

Lemma kernel_row table nb (b : nat) row k start j :
  Forall2 (λ k row, 0 ≤ k ≤ zlen row) nb table →
  nb !! b = Some k → table !! b = Some row → offsets 0 nb !! b = Some start → 0 ≤ j < k →
  _copy_page_indices_kernel table nb !! Z.to_nat (start + j) = row !! Z.to_nat j.
Proof.
  intros Hf. unfold _copy_page_indices_kernel.
  cut (∀ a, nb !! b = Some k → table !! b = Some row → offsets a nb !! b = Some start → 0 ≤ j < k →
    mjoin (zip_with (λ k row, take (Z.to_nat k) row) nb table) !! Z.to_nat (start - a + j) = row !! Z.to_nat j
    ∧ a ≤ start).
  { intros Hcut H1 H2 H3 Hj. destruct (Hcut 0) as [Heq _]; try done. by rewrite Z.sub_0_r in Heq. }
  revert b. induction Hf as [|k0 row0 nb table [Hk0 Hr0] Hf IH]; intros b a Hk Hrow Hs Hj; [done|].
  cbn [zip_with mjoin list_join]. destruct b as [|b]; simplify_eq/=.
  - split; [|lia]. rewrite Z.sub_diag, lookup_app_l, lookup_take_lt; try done; [lia|].
    rewrite length_take. unfold zlen in Hr0. lia.
  - destruct (IH b (a + k0)) as [Heq Hle]; [done|done|done|done|]. split; [|lia].
    rewrite lookup_app_r; rewrite length_take; unfold zlen in Hr0; [|lia].
    rewrite <-Heq. f_equal. lia.
Qed.

Lemma kernel_length table nb :
  Forall2 (λ k row, 0 ≤ k ≤ zlen row) nb table →
  zlen (_copy_page_indices_kernel table nb) = foldr Z.add 0 nb.
Proof.
  unfold _copy_page_indices_kernel, zlen. induction 1 as [|k row nb table [Hk Hr] Hf IH]; [done|].
  change (mjoin (zip_with ?f (k :: nb) (row :: table))) with (f k row ++ mjoin (zip_with f nb table)).
  cbn [foldr]. rewrite length_app, Nat2Z.inj_add, IH, length_take. unfold zlen in Hr. lia.
Qed.

Section Safety.
Context {S : Type} `{LawfulScorer S} (np n : Z).
Implicit Types (o : orch S) (b : builder S).

(** The rows of a batch: [nb] page counts and the table the runner sent. *)
Record rows_ok (ids : list string) (nb : list Z) (table : list (list Z)) : Prop := {
  rk_rows : Forall2 (λ k row, 0 ≤ k ≤ zlen row) nb table;
  rk_ids : (length ids ≤ length nb)%nat;
  rk_nodup : NoDup ids;
}.

Lemma rows_batch_ok o ids nb table :
  orch_inv np n o → rows_ok ids nb table →
  batch_ok (o_table o) (zlen (_copy_page_indices_kernel table nb)) (offsets 0 (take (length ids) nb)) ids.
Proof.
  intros Hinv [Hr Hl Hnd].
  assert (Forall (λ k, 0 ≤ k) nb) as Hpos.
  { clear -Hr. induction Hr as [|k row nb table [? _] _ IH]; constructor; done. }
  pose proof (Forall_take _ (length ids) _ Hpos) as Hpos'.
  assert (∀ req, refs_for_request (o_table o) req = default [] (_request_blocks o !! req)) as Htr
    by (intros req; by eapply builder_tracked_refs).
  split.
  - rewrite offsets_length, length_take. lia.
  - intros i j x y Hij Hx Hy. by destruct (offsets_mono _ _ _ _ _ _ Hpos' Hij Hx Hy).
  - intros i x Hx. assert (length (take (length ids) nb) = length ids) as Hlt by (rewrite length_take; lia).
    pose proof (lookup_lt_Some _ _ _ Hx) as Hi. rewrite offsets_length in Hi.
    assert (offsets 0 nb !! i = Some x) as Hx'.
    { rewrite <-offsets_take in Hx. by apply lookup_take_Some in Hx as [? _]. }
    assert (offsets 0 nb !! length nb = Some (foldr Z.add 0 nb)) as Hend.
    { rewrite offsets_lookup by lia. by rewrite firstn_all. }
    rewrite (kernel_length table nb) by done.
    apply (offsets_mono 0 nb i (length nb) x); [done|lia|done|done].
  - done.
  - intros ref (l & Hl' & Hin)%(oi_tracked _ _ _ Hinv).
    destruct (oi_lists _ _ _ Hinv _ _ Hl') as (k & _ & ->).
    apply list_elem_of_fmap in Hin as (i & -> & Hi%elem_of_zrange). cbn. lia.
  - intros b req start stop _ _ _ Hz. rewrite Htr in Hz |- *.
    destruct (_request_blocks o !! req) as [l|] eqn:El; cbn in *.
    + destruct (oi_lists _ _ _ Hinv _ _ El) as (k & Hk & ->). f_equal. f_equal.
      unfold zlen in Hz. rewrite length_fmap in Hz. pose proof (zrange_length 0 k) as Hzl. unfold zlen in Hzl. lia.
    + change (zlen []) with 0 in Hz. by rewrite zrange_empty by lia.
Qed.

(** The alignment check passes exactly if every row has as many pages as its
    request has tracked blocks, and at least one. *)
Lemma misaligned_spec t nb ids (k0 : nat) rest :
  (∀ i, rest !! i = ids !! (k0 + i)%nat) → (length ids ≤ length nb)%nat →
  ∃ r, misaligned t (offsets 0 (take (length ids) nb)) k0 rest = Ok r ∧
    (r = None ↔ ∀ i rid k, rest !! i = Some rid → nb !! (k0 + i)%nat = Some k →
                  zlen (refs_for_request t rid) = k ∧ k ≠ 0).
Proof.
  intros Hrest Hl. revert k0 Hrest. induction rest as [|rid rest IH]; intros k0 Hrest; cbn [misaligned].
  { exists None. done. }
  assert (ids !! k0 = Some rid) as Hrid by (by rewrite <-(Nat.add_0_r k0), <-Hrest).
  pose proof (lookup_lt_Some _ _ _ Hrid) as Hk0.
  destruct (lookup_lt_is_Some_2 nb k0) as [k Hk]; [lia|].
  assert (∀ i, (i ≤ length ids)%nat → py_index (offsets 0 (take (length ids) nb)) (Z.of_nat i)
            = Ok (foldr Z.add 0 (take i nb))) as Hpy.
  { intros i Hi. apply py_index_Ok; [lia|]. rewrite Nat2Z.id, offsets_lookup by (rewrite length_take; lia).
    by rewrite take_take, Nat.min_l by lia. }
  replace (Z.of_nat k0 + 1) with (Z.of_nat (Datatypes.S k0)) by lia.
  rewrite !Hpy by lia. cbn [result_bind].
  assert (foldr Z.add 0 (take (Datatypes.S k0) nb) - foldr Z.add 0 (take k0 nb) = k) as ->.
  { rewrite (foldr_take_S nb k0 k Hk). lia. }
  destruct ((zlen (refs_for_request t rid) =? 0) || negb (k =? zlen (refs_for_request t rid))) eqn:E.
  - eexists. split; [done|]. split; [done|]. intros Hall. exfalso.
    destruct (Hall 0%nat rid k) as [Hz Hne]; [done|by rewrite Nat.add_0_r|]. lia.
  - destruct (IH (Datatypes.S k0)) as (r & Hr & Hiff).
    { intros i. specialize (Hrest (Datatypes.S i)). simpl in Hrest. rewrite Hrest. f_equal. lia. }
    exists r. split; [done|]. rewrite Hiff. split.
    + intros Hall [|i] rid' k' Hi Hk'; [|apply (Hall i rid' k'); [done|by rewrite <-Nat.add_succ_comm in Hk']].
      rewrite Nat.add_0_r in Hk'. simplify_eq/=. lia.
    + intros Hall i rid' k' Hi Hk'. apply (Hall (Datatypes.S i)); [done|]. by rewrite Nat.add_succ_comm in Hk'.
Qed.

Lemma prepare_static io ids si sl c :
  stable (λ o, (true_freeing o, staging_base_page_idx o) = c) (prepare_staging (S:=S) io ids si sl).
Proof.
  unfold prepare_staging. repeat (by apply stable_zoom_frame) || stable_step ltac:(done).
Qed.

(** Row [r] of the array holds, for each of its blocks, the page to read. *)
Definition patched_rows (t : table) (base : Z) (null : option Z) (ids : list string) (nb : list Z)
    (table : list (list Z)) (out : list Z) : Prop :=
  ∀ (r : nat) rid k row start j g,
    ids !! r = Some rid → nb !! r = Some k → table !! r = Some row → offsets 0 nb !! r = Some start →
    0 ≤ j < k → row !! Z.to_nat j = Some g →
    zlen (refs_for_request t rid) = k ∧
    out !! Z.to_nat (start + j) = Some (page_for t base null (mkRef rid j) g).

(** Every row has as many pages as its request has tracked blocks. *)
Definition aligned (t : table) (ids : list string) (nb : list Z) : Prop :=
  ∀ (r : nat) rid k, ids !! r = Some rid → nb !! r = Some k → zlen (refs_for_request t rid) = k ∧ k ≠ 0.

Lemma aligned_same o o1 ids nb :
  orch_inv np n o → orch_inv np n o1 → _request_blocks o1 = _request_blocks o →
  aligned (o_table o1) ids nb ↔ aligned (o_table o) ids nb.
Proof.
  intros H1 H2 He. unfold aligned.
  assert (∀ rid, refs_for_request (o_table o1) rid = refs_for_request (o_table o) rid) as Hr.
  { intros rid. by rewrite (builder_tracked_refs np n o), (builder_tracked_refs np n o1), He. }
  by setoid_rewrite Hr.
Qed.

(** Patching the rows of a batch that passed the alignment check. *)
Lemma patch_rows_run o ids nb table sparse ps smap :
  orch_inv np n o → rows_ok ids nb table → aligned (o_table o) ids nb →
  (∀ r, is_Some (dget r smap) → ∃ l, o_loc o r = Some l ∧ residency l ≠ GPU) →
  (∀ si sl, sparse = Some (si, sl) → smap ≠ [] →
     ∃ needed, collect_needed_block_refs ids si sl ps = Ok needed) →
  let indptr := offsets 0 (take (length ids) nb) in
  ∃ out, patch_in_place indptr ids sparse ps (staging_base_page_idx o) (o_table o) smap (Some 0)
           (Some indptr) (_copy_page_indices_kernel table nb) = (Ok tt, out) ∧
    length out = length (_copy_page_indices_kernel table nb) ∧
    patched_rows (o_table o) (staging_base_page_idx o) (Some 0) ids nb table out ∧
    ∀ (i : nat) stop, offsets 0 nb !! length ids = Some stop → stop ≤ Z.of_nat i →
      out !! i = _copy_page_indices_kernel table nb !! i.
Proof.
  intros Hinv Hrows Hal Hmap Hsp indptr.
  pose proof (rows_batch_ok o ids nb table Hinv Hrows) as Hb. destruct Hrows as [Hf Hl Hnd].
  pose proof (ts_ok _ _ _ _ (si_om _ _ _ (oi_sp _ _ _ Hinv))) as Hok.
  assert (length (take (length ids) nb) = length ids) as Hlt by (rewrite length_take; lia).
  assert (∀ i, (i ≤ length ids)%nat → indptr !! i = offsets 0 nb !! i) as Hptr.
  { intros i Hi. unfold indptr. rewrite <-offsets_take. apply lookup_take_lt. lia. }
  destruct (patch_in_place_run (o_table o) (_copy_page_indices_kernel table nb) indptr ids sparse ps
              (staging_base_page_idx o) smap (Some 0) (Some indptr) Hb)
    as (out & Hrun & Hlen & Hrow & Hrest); [done| |done|].
  { intros ref s Hs. destruct (Hmap ref) as (l & Hl' & Hg); [by eexists|]. split; [by eexists|].
    intros start. unfold patch_of. unfold o_loc in Hl'. rewrite Hl'.
    destruct (to_loc _ Hok ref l Hl') as (_ & _ & Hst). destruct l as [[] ? ? st ?]; try done.
    destruct st; [done|]. cbn in Hst. by destruct (proj1 Hst eq_refl). }
  exists out. split; [done|]. split; [done|]. split.
  - intros r rid k row start j g Hr Hk Hrw Hs Hj Hg.
    pose proof (lookup_lt_Some _ _ _ Hr) as Hrl.
    destruct (Hal r rid k Hr Hk) as [Hz Hne]. split; [done|].
    pose proof (offsets_succ _ _ _ _ _ Hk Hs) as Hs'.
    apply (Hrow r rid start (start + k)); [done|by rewrite Hptr by lia|by rewrite Hptr by lia|lia|lia|].
    by rewrite (kernel_row table nb r row k start j).
  - intros i stop Hs Hi. apply (Hrest i stop); [|done]. rewrite last_lookup.
    replace (pred (length indptr)) with (length ids); [by rewrite Hptr|].
    unfold indptr. rewrite offsets_length. lia.
Qed.

(** What patching leaves: a bail for a misaligned batch, or the patched rows. *)
Definition patch_outcome (o o1 : orch S) (bail0 : option bail) (ids : list string) (nb : list Z)
    (table : list (list Z)) (out : list Z) (b1 : builder S) : Prop :=
  _offload_orchestrator b1 = Some o1 ∧ orch_inv np n o1 ∧ true_freeing o1 = true ∧
  staging_base_page_idx o1 = staging_base_page_idx o ∧
  length out = length (_copy_page_indices_kernel table nb) ∧
  (is_Some (_patch_bail_reason b1) ∧ ¬ aligned (o_table o) ids nb ∨
   _patch_bail_reason b1 = bail0 ∧ aligned (o_table o) ids nb ∧
   patched_rows (o_table o1) (staging_base_page_idx o) (Some 0) ids nb table out) ∧
  ∀ (i : nat) stop, offsets 0 nb !! length ids = Some stop → stop ≤ Z.of_nat i →
    out !! i = _copy_page_indices_kernel table nb !! i.

Lemma patch_checked_run ids nb table smap sparse b o0 o :
  _offload_orchestrator b = Some o → orch_inv np n o → orch_inv np n o0 → true_freeing o = true →
  staging_base_page_idx o = staging_base_page_idx o0 → _request_blocks o = _request_blocks o0 →
  paged_kv_indptr b = offsets 0 nb → rows_ok ids nb table →
  (∀ r, is_Some (dget r smap) → ∃ l, o_loc o r = Some l ∧ residency l ≠ GPU) →
  (∀ si sl, sparse = Some (si, sl) → smap ≠ [] →
     ∃ needed, collect_needed_block_refs ids si sl (b_block_size b) = Ok needed) →
  ∃ out b1, patch_checked ids (_copy_page_indices_kernel table nb) smap sparse b = (Ok out, b1) ∧
    patch_outcome o0 o (_patch_bail_reason b) ids nb table out b1.
Proof.
  intros Ho Hinv Hinv0 Htf Hbase Hrb Hp Hrows Hmap Hsp. unfold patch_checked.
  rewrite Ho, Hp, Nat.add_1_r, offsets_take, Htf.
  pose proof (aligned_same o0 o ids nb Hinv0 Hinv Hrb) as Hal.
  destruct (misaligned_spec (o_table o) nb ids 0 ids) as (r & -> & Hr); [done|apply Hrows|]. cbn [Nat.add] in Hr.
  destruct r as [r|].
  - do 2 eexists. split; [done|]. split_and!; try done. left. split; [by eexists|].
    rewrite <-Hal. intros Hx. discriminate (proj2 Hr Hx).
  - assert (aligned (o_table o) ids nb) as Hal1 by exact (proj1 Hr eq_refl).
    destruct (patch_rows_run o ids nb table sparse (b_block_size b) smap Hinv Hrows Hal1 Hmap Hsp)
      as (out & Hrun & Hlen & Hpr & Hrest). rewrite Hrun.
    exists out, b. split; [done|]. rewrite Hbase in Hpr. split_and!; try done.
    right. split; [done|]. split; [by apply Hal|done].
Qed.

Lemma patch_attempt_run io ids nb table b o :
  _offload_orchestrator b = Some o → orch_inv np n o → true_freeing o = true →
  paged_kv_indptr b = offsets 0 nb → rows_ok ids nb table →
  match patch_attempt io ids (_copy_page_indices_kernel table nb) b with
  | (Ok out, b1) => ∃ o1, patch_outcome o o1 (_patch_bail_reason b) ids nb table out b1
  | (Raise e, b1) => ∃ o1 si sl, _offload_orchestrator b1 = Some o1 ∧ orch_inv np n o1 ∧
      _cached_sparse_idx b = Some si ∧ _cached_sparse_len b = Some sl ∧ dim0 si = length ids ∧
      prepare_staging io ids si sl o = (Raise e, o1) ∧ true_freeing o1 = true
  end.
Proof.
  intros Ho Hinv Htf Hptr Hrows. unfold patch_attempt, fetch_for_pattern.
  assert (∀ b1, b1 = b → ∃ out b2, patch_checked ids (_copy_page_indices_kernel table nb) [] None b1 = (Ok out, b2) ∧
    patch_outcome o o (_patch_bail_reason b) ids nb table out b2) as Hplain.
  { intros b1 ->. apply patch_checked_run; try done. intros r [? [=]]. }
  destruct (Hplain b eq_refl) as (out0 & b0 & Hrun0 & Hout0). unfold bind at 1 2, gets.
  destruct (_cached_sparse_idx b) as [si|] eqn:Esi, (_cached_sparse_len b) as [sl|] eqn:Esl.
  2-4: unfold ret; cbn [fst snd]; rewrite Hrun0; by exists o.
  destruct (dim0 si =? length ids)%nat eqn:Ed; cbn [negb].
  2: { unfold ret. cbn [fst snd]. rewrite Hrun0. by exists o. }
  unfold bind at 1, on_b_orch. rewrite Ho.
  pose proof (prepare_static io ids si sl _ o eq_refl) as Hst.
  pose proof (prepare_inv np n io ids si sl o Hinv) as Hpi.
  destruct (prepare_staging io ids si sl o) as [[m|e] o1] eqn:Ep; cbn [fst snd] in Hst, Hpi.
  - destruct (prepare_map np n io ids si sl o m o1 Hinv Ep) as (H1 & H2 & H3 & H4 & H5 & H6).
    unfold ret. cbn [fst snd].
    destruct (patch_checked_run ids nb table m (Some (si, sl)) (set_b_orch (Some o1) b) o o1)
      as (out & b2 & -> & Hout); try done; [congruence| |by exists o1].
    intros si' sl' [= <- <-] Hm. destruct (H5 Hm) as [needed Hn].
    unfold collect_needed_block_refs in Hn |- *. repeat case_match; try done; by eexists.
  - exists o1, si, sl. apply Nat.eqb_eq in Ed. injection Hst as Hst _. split_and!; try done. congruence.
Qed.

(** A fetch without transfer errors succeeds on a well-formed selection. *)
Lemma prepare_total ids si sl o needed :
  orch_inv np n o → collect_needed_block_refs ids si sl (o_page_size o) = Ok needed →
  ∃ m o1, prepare_staging None ids si sl o = (Ok m, o1).
Proof.
  intros Hinv Hn. unfold prepare_staging. do 2 run_step. destruct (_ =? _); [by do 2 eexists|].
  do 2 run_step. set (o0 := with_seen (cpu_version (o_table o)) o). unfold bind at 1, lift.
  change (o_page_size o0) with (o_page_size o). rewrite Hn. run_step.
  set (refs := filter (λ r, is_on_cpu o0 r = true) needed).
  assert (orch_inv np n o0) as Hinv0 by by apply (orch_inv_frame _ _ o).
  destruct (stage_run np n None refs o0 Hinv0) as [_ Hen]; [by intros r [? _]%list_elem_of_filter|].
  unfold bind at 1. unfold on_pool, zoom in *.
  destruct (ensure_resident None refs (o_pool o0)) as [[[res sk]|e] p']; [by do 2 eexists|]. by destruct Hen.
Qed.

(** ** One step of the builder *)

Lemma boundary_unique thr lens d d' : boundary thr lens d → boundary thr lens d' → d = d'.
Proof.
  intros [H1 H2 H3] [H1' H2' H3']. destruct (Nat.lt_trichotomy d d') as [Hlt|[?|Hlt]]; [|done|].
  - destruct H3 as (k & Hk & Hgt); [lia|]. specialize (H2' d k Hlt Hk). lia.
  - destruct H3' as (k & Hk & Hgt); [lia|]. specialize (H2 d' k Hlt Hk). lia.
Qed.

(** An eager step on a causal batch without a shared prefix: the rows [ids] are
    its [d] decode rows, [lens] the scheduled tokens and [nb] the page counts. *)
Record decode_step b (st : step_in) (lens : list Z) (d : nat) (ids : list string) (nb : list Z) : Prop := {
  ds_eager : capturing st = false ∧ disable_runner_ids st = false ∧ causal st = true ∧ common_prefix_len st ≤ 0;
  ds_start : query_start_loc st = offsets 0 lens;
  ds_reqs : num_reqs st = length lens;
  ds_tokens : num_actual_tokens st = foldr Z.add 0 lens;
  ds_lens : ∀ q, q ∈ lens → 1 ≤ q ≤ max_query_len st;
  ds_decodes : boundary 1 lens d ∧ (0 < d)%nat;
  ds_ids : ∃ req_ids, _offload_runner b = Some req_ids ∧ ids = take d req_ids;
  ds_real : ∃ rid rest, ids = rid :: rest ∧ dummy_id rid = false;
  ds_pages : nb = (λ len, (len + (b_block_size b - 1)) / b_block_size b) <$> seq_lens st;
  ds_rows : rows_ok ids nb (block_table st);
}.

Definition cfg_ok (cfg : fi_config) : bool :=
  negb (has_sinks cfg && negb (use_dedicated_xqa cfg)) && has_same_window_lefts cfg && has_same_all_params cfg.

Section Step.
Context b st lens d ids nb (Hst : decode_step b st lens d ids nb).

Lemma step_split uniform :
  ∃ dt pt, split_decodes_and_prefills (query_start_loc st) (num_reqs st) (num_actual_tokens st)
             (max_query_len st) 1 uniform = Ok (d, (length lens - d)%nat, dt, pt).
Proof.
  destruct (ds_decodes _ _ _ _ _ _ Hst) as [Hb Hd].
  rewrite (ds_start _ _ _ _ _ _ Hst), (ds_reqs _ _ _ _ _ _ Hst), (ds_tokens _ _ _ _ _ _ Hst).
  pose proof (ds_lens _ _ _ _ _ _ Hst) as Hl.
  destruct (split_run lens (max_query_len st) 1) as (d' & Hb' & Hs).
  { intros ->. destruct Hb as [Hx _ _]. cbn in Hx. lia. }
  { intros q Hq. by apply Hl. }
  rewrite (boundary_unique _ _ _ _ Hb Hb'). destruct uniform; [rewrite split_uniform by done|]; rewrite Hs; by do 2 eexists.
Qed.

Lemma derive_run (b0 : builder S) :
  _offload_runner b0 = _offload_runner b → is_Some (_offload_orchestrator b0) →
  derive_request_ids st b0 = (Ok d, set_ids ids b0).
Proof.
  intros Hr [o Ho]. destruct (ds_ids _ _ _ _ _ _ Hst) as (req_ids & Hq & Hi).
  destruct (ds_eager _ _ _ _ _ _ Hst) as (Hc & Hdis & _). destruct (step_split false) as (dt & pt & Hs).
  destruct (ds_decodes _ _ _ _ _ _ Hst) as [_ Hd]. destruct (ds_real _ _ _ _ _ _ Hst) as (rid & rest & Hids & Hdum).
  unfold derive_request_ids. run_step. rewrite Hr, Hq, Ho, Hc, Hs, <-Hi, Hdis, Hids, Hdum. cbn [negb].
  replace (0 <? d)%nat with true by (symmetry; by apply Nat.ltb_lt). done.
Qed.

Lemma fi_build_run cfg io (b0 : builder S) :
  b_block_size b0 = b_block_size b →
  if cfg_ok cfg then
    fi_build cfg io st b0 =
    (let! indices := _compute_flashinfer_kv_metadata io st nb (b_block_size b) in
     ret (FIMeta d (length lens - d)%nat (Some indices))) b0
  else ∃ e, fi_build cfg io st b0 = (Raise e, b0).
Proof.
  intros Hps. destruct (ds_eager _ _ _ _ _ _ Hst) as (_ & _ & Hca & Hcp).
  destruct (ds_decodes _ _ _ _ _ _ Hst) as [_ Hd]. destruct (step_split (negb (use_dedicated_xqa cfg))) as (dt & pt & Hs).
  assert (d =? 0 = false)%nat as Hd0 by (apply Nat.eqb_neq; lia).
  assert (0 <? d = true)%nat as Hd1 by (by apply Nat.ltb_lt).
  assert (0 <? common_prefix_len st = false) as Hcas by lia.
  assert (fi_build cfg io st b0 =
    ((ensure (negb (has_sinks cfg && (negb (use_dedicated_xqa cfg) || false))) RuntimeError >>
      ensure (has_same_window_lefts cfg) ValueError >> ensure (has_same_all_params cfg) AssertionError) >>
     let! indices := _compute_flashinfer_kv_metadata io st nb (b_block_size b) in
     ret (FIMeta d (length lens - d)%nat (Some indices))) b0) as ->.
  { unfold fi_build. rewrite Hca, Hs, Hcas. cbn [orb]. erewrite bind_ok by reflexivity. cbn iota. run_step.
    rewrite Hd0, Hd1, !andb_false_r, !orb_true_r, Hps, (ds_pages _ _ _ _ _ _ Hst). done. }
  unfold cfg_ok. rewrite orb_false_r.
  destruct (has_sinks cfg && negb (use_dedicated_xqa cfg)); [by eexists|].
  destruct (has_same_window_lefts cfg); [|by eexists]. destruct (has_same_all_params cfg); [done|by eexists].
Qed.

(** The state in which the patcher runs. *)
Definition at_patch : builder S :=
  set_kv (offsets 0 nb) (last_page_len (b_block_size b) <$> seq_lens st)
    (set_ids ids (bump_serial (set_bail None b))).

Lemma build_run cfg io o :
  _offload_orchestrator b = Some o → cfg_ok cfg = true →
  build cfg io st b =
  (let! indices := _patch_indices_for_staging io st (_copy_page_indices_kernel (block_table st) nb) in
   let! b := gets (λ b, b) in
   if bool_decide (is_Some (_patch_bail_reason b)) && pages_at_risk b then raise RuntimeError
   else ret (FIMeta d (length lens - d)%nat (Some indices))) at_patch.
Proof.
  intros Ho Hcfg. unfold build. do 2 run_step.
  erewrite bind_ok by (apply derive_run; [done|by eexists]). cbn beta.
  set (b1 := set_ids ids (bump_serial (set_bail None b))).
  pose proof (fi_build_run cfg io b1 eq_refl) as Hfi. rewrite Hcfg in Hfi.
  destruct (ds_decodes _ _ _ _ _ _ Hst) as [_ Hd].
  unfold bind at 1. rewrite Hfi. unfold _compute_flashinfer_kv_metadata, fi_compute_kv_metadata.
  unfold bind, modify, ret, gets, raise. cbv beta iota. change (set_kv _ _ b1) with at_patch.
  destruct (_patch_indices_for_staging io st _ at_patch) as [[out|e] b3]; [|reflexivity].
  rewrite (proj2 (Nat.ltb_lt _ _) Hd), andb_true_r. reflexivity.
Qed.

(** What the patcher does in that state. *)
Lemma patch_indices_run io o :
  _offload_orchestrator b = Some o → orch_inv np n o → true_freeing o = true →
  match _patch_indices_for_staging io st (_copy_page_indices_kernel (block_table st) nb) at_patch with
  | (Ok out, b1) => ∃ o1, _offload_orchestrator b1 = Some o1 ∧ orch_inv np n o1 ∧ true_freeing o1 = true ∧
      length out = length (_copy_page_indices_kernel (block_table st) nb) ∧
      (∀ (i : nat) stop, offsets 0 nb !! length ids = Some stop → stop ≤ Z.of_nat i →
         out !! i = _copy_page_indices_kernel (block_table st) nb !! i) ∧
      (is_Some (_patch_bail_reason b1) ∧ ¬ aligned (o_table o) ids nb ∨ pages_at_risk b1 = false ∧ io ≠ None ∨
       pages_at_risk b1 = false ∧ (∃ si sl e, _cached_sparse_idx b = Some si ∧ _cached_sparse_len b = Some sl ∧
         dim0 si = length ids ∧ collect_needed_block_refs ids si sl (o_page_size o) = Raise e) ∨
       _patch_bail_reason b1 = None ∧
       patched_rows (o_table o1) (staging_base_page_idx o) (Some 0) ids nb (block_table st) out)
  | (Raise e, b1) => pages_at_risk b1 = true ∧
      (io ≠ None ∨ ∃ si sl e, _cached_sparse_idx b = Some si ∧ _cached_sparse_len b = Some sl ∧
         dim0 si = length ids ∧ collect_needed_block_refs ids si sl (o_page_size o) = Raise e)
  end.
Proof.
  intros Ho Hinv Htf. destruct (ds_eager _ _ _ _ _ _ Hst) as (Hc & _).
  destruct (ds_real _ _ _ _ _ _ Hst) as (rid & rest & Hids & _).
  unfold _patch_indices_for_staging. rewrite Hc. change (_offload_orchestrator at_patch) with (_offload_orchestrator b).
  rewrite Ho. change (default [] (_cached_request_ids at_patch)) with ids. cbv zeta.
  rewrite bool_decide_eq_false_2 by by rewrite Hids.
  assert (num_reqs st <? length ids = false)%nat as ->.
  { apply Nat.ltb_ge. destruct (ds_ids _ _ _ _ _ _ Hst) as (q & _ & ->). rewrite length_take, (ds_reqs _ _ _ _ _ _ Hst).
    destruct (ds_decodes _ _ _ _ _ _ Hst) as [[? _ _] _]. lia. }
  pose proof (patch_attempt_run io ids nb (block_table st) at_patch o Ho Hinv Htf eq_refl (ds_rows _ _ _ _ _ _ Hst)) as Hp.
  destruct (patch_attempt io ids _ at_patch) as [[out|e] b1].
  - destruct Hp as (o1 & H1 & H2 & H3 & _ & H5 & H6 & H7). exists o1. split_and!; try done.
    destruct H6 as [?|(H6 & _ & H8)]; [by left|]. by do 3 right.
  - destruct Hp as (o1 & si & sl & H1 & H2 & H3 & H4 & H5 & H6 & H7).
    assert (io ≠ None ∨ ∃ si sl e, _cached_sparse_idx b = Some si ∧ _cached_sparse_len b = Some sl ∧
         dim0 si = length ids ∧ collect_needed_block_refs ids si sl (o_page_size o) = Raise e) as Hwhy.
    { destruct io as [k|]; [by left|right]. exists si, sl.
      destruct (collect_needed_block_refs ids si sl (o_page_size o)) as [needed|e'] eqn:En; [|by exists e'].
      destruct (prepare_total ids si sl o needed Hinv En) as (m & o2 & Hx). congruence. }
    destruct (pages_at_risk b1) eqn:Er; [done|]. exists o1. split_and!; try done.
    destruct Hwhy as [?|?]; [by right; left|by right; right; left].
Qed.
End Step.
End Safety.

(** ** The properties *)

(** C17: no decode row is handed to the kernel with a recycled page.  Take an eager
    step whose batch has decode rows, under true freeing, with an orchestrator
    that satisfies its invariant.  If [build] returns while blocks are resident on
    the CPU only, then in every decode row the request has as many tracked blocks
    as the row has pages, and the page index of block [j] is its staging page if
    it is staged, the null page 0 if it is CPU-only, and the page of the runner's
    block table if it is on the GPU; the prefill rows are as FlashInfer filled
    them.  With an accepted configuration [build] raises only while CPU-only
    blocks exist.  And it does return, with every row patched, if the rows are
    aligned, the cached selection is well-formed and no transfer fails. *)
Theorem build_hides_recycled_pages {S} `{LawfulScorer S} np n cfg io (b : builder S) st lens d ids nb o :
  decode_step b st lens d ids nb →
  _offload_orchestrator b = Some o → orch_inv np n o → true_freeing o = true →
  let indices := _copy_page_indices_kernel (block_table st) nb in
  match build cfg io st b with
  | (Ok meta, b') => ∃ o' out, _offload_orchestrator b' = Some o' ∧ orch_inv np n o' ∧
      m_num_decodes meta = d ∧ m_paged_kv_indices meta = Some out ∧ length out = length indices ∧
      (0 < num_cpu_blocks (o_table o') →
         patched_rows (o_table o') (staging_base_page_idx o) (Some 0) ids nb (block_table st) out) ∧
      (∀ (i : nat) stop, offsets 0 nb !! length ids = Some stop → stop ≤ Z.of_nat i → out !! i = indices !! i)
  | (Raise _, b') => cfg_ok cfg = true → pages_at_risk b' = true
  end ∧
  (cfg_ok cfg = true → io = None → aligned (o_table o) ids nb →
   (∀ si sl, _cached_sparse_idx b = Some si → _cached_sparse_len b = Some sl → dim0 si = length ids →
      is_ok (collect_needed_block_refs ids si sl (o_page_size o)) = true) →
   ∃ meta b' o' out, build cfg io st b = (Ok meta, b') ∧ _offload_orchestrator b' = Some o' ∧
     m_paged_kv_indices meta = Some out ∧
     patched_rows (o_table o') (staging_base_page_idx o) (Some 0) ids nb (block_table st) out).
Proof.
  intros Hst Ho Hinv Htf indices.
  destruct (cfg_ok cfg) eqn:Hcfg.
  2: { split; [|done]. pose proof (fi_build_run b st lens d ids nb Hst cfg io
         (set_ids ids (bump_serial (set_bail None b))) eq_refl) as Hfi. rewrite Hcfg in Hfi. destruct Hfi as [e Hfi].
       unfold build. do 2 run_step.
       erewrite bind_ok by (apply (derive_run b st lens d ids nb Hst); [done|by eexists]). cbn beta.
       by rewrite (bind_raise _ _ _ _ _ Hfi). }
  rewrite (build_run b st lens d ids nb Hst cfg io o Ho Hcfg).
  pose proof (patch_indices_run np n b st lens d ids nb Hst io o Ho Hinv Htf) as Hp. fold indices in Hp |- *.
  unfold bind at 1 3.
  destruct (_patch_indices_for_staging io st indices _) as [[out|e] b1].
  2: { split; [tauto|]. intros _ -> _ Hwf. destruct Hp as [_ [?|(si & sl & e' & H1 & H2 & H3 & H4)]]; [done|].
       specialize (Hwf si sl H1 H2 H3). by rewrite H4 in Hwf. }
  destruct Hp as (o1 & Ho1 & Hinv1 & Htf1 & Hlen & Hrest & Hcase). unfold bind, gets.
  destruct (bool_decide (is_Some (_patch_bail_reason b1)) && pages_at_risk b1) eqn:Eg.
  - unfold raise. apply andb_true_iff in Eg as [Eb%bool_decide_eq_true Er]. split; [done|].
    intros _ -> Hal Hwf. exfalso. destruct Hcase as [[_ ?]|[[? _]|[[? _]|[Hn _]]]]; try congruence.
    rewrite Hn in Eb. by destruct Eb.
  - unfold ret. split.
    + exists o1, out. split_and!; try done. intros Hcpu.
      assert (pages_at_risk b1 = true) as Hrisk.
      { unfold pages_at_risk. rewrite Ho1, Htf1. apply Z.ltb_lt. exact Hcpu. }
      rewrite Hrisk, andb_true_r in Eg. apply bool_decide_eq_false in Eg.
      destruct Hcase as [[? _]|[[? _]|[[? _]|[_ ?]]]]; try done; congruence.
    + intros _ -> Hal Hwf. do 2 eexists. exists o1, out. split; [done|]. split; [done|]. split; [done|].
      destruct Hcase as [[_ ?]|[[_ ?]|[[_ (si & sl & e' & H1 & H2 & H3 & H4)]|[_ ?]]]]; try done.
      specialize (Hwf si sl H1 H2 H3). by rewrite H4 in Hwf.
Qed.

(** *** Witness: request "r" decodes with block 0 on the CPU and block 1 on page 1,
    request "p" prefills behind it. *)
Definition demo_tf (o : orch LRUScorer) : orch LRUScorer :=
  Orch (o_fraction o) (o_pool o) (o_ctl o) (o_page_size o) (staging_base_page_idx o) (_request_blocks o)
    (_scored o) (_sparse_mode o) (_last_offload_step o) (_active_request_ids o) true
    (_lag_seen_cpu_version o).
Lemma demo_tf_inv np n o : orch_inv (H:=lru_scorer) np n o → orch_inv (H:=lru_scorer) np n (demo_tf o).
Proof. intros Ho. by apply (orch_inv_frame np n o). Qed.

Definition demo_builder (o : orch LRUScorer) (ids : list string) : builder LRUScorer :=
  Builder (Some o) (Some ids) None 0 0 None None None None None [] [] 2.
Definition demo_b : builder LRUScorer := demo_builder (demo_tf demo_o3) ["r"%string; "p"%string].
Definition demo_cfg : fi_config := FIConfig false false false true true.
Definition demo_step : step_in := StepIn false false [0; 1; 4] 2 4 3 [3; 3] [[0; 1; 0]; [1; 2; 0]] 0 true.

Lemma demo_step_ok : decode_step demo_b demo_step [1; 3] 1 ["r"%string] [2; 2].
Proof.
  split; try done.
  - intros q Hq. rewrite !elem_of_cons in Hq. destruct Hq as [->|[->|Hq%elem_of_nil]]; [cbn; lia|cbn; lia|done].
  - split; [|lia]. split; [cbn; lia| |].
    + intros [|i] k Hi; [|lia]. intros [= <-]. lia.
    + intros _. exists 3. done.
  - by exists ["r"%string; "p"%string].
  - by exists "r"%string, [].
  - split; [repeat constructor; by vm_compute|cbn; lia|repeat constructor; set_solver].
Qed.

Lemma build_hides_recycled_pages_witness :
  num_cpu_blocks (o_table demo_o3) = 1 ∧
  ∃ meta b' o' out, build (H:=lru_scorer) demo_cfg None demo_step demo_b = (Ok meta, b') ∧
    _offload_orchestrator b' = Some o' ∧ m_paged_kv_indices meta = Some out ∧
    patched_rows (o_table o') (staging_base_page_idx (demo_tf demo_o3)) (Some 0) ["r"%string] [2; 2]
      (block_table demo_step) out.
Proof.
  split; [by vm_compute|].
  destruct (build_hides_recycled_pages (H:=lru_scorer) 3 2 demo_cfg None demo_b demo_step [1; 3] 1 ["r"%string] [2; 2]
    (demo_tf demo_o3)) as [_ Hrun].
  - exact demo_step_ok.
  - done.
  - exact (demo_tf_inv 3 2 demo_o3 demo_o3_inv).
  - reflexivity.
  - destruct Hrun as (meta & b' & o' & out & H1 & H2 & H3 & H4); [done|done| |done|].
    + intros i rid k Hi Hk. destruct i as [|i]; [|done]. injection Hi as <-. injection Hk as <-. by vm_compute.
    + exists meta, b', o', out. exact (conj H1 (conj H2 (conj H3 H4))).
Defined.
