(* ===== verification/BuilderFaults.v ===== *)
(** * Steps in which a recycled page reaches the kernel

    Two complete runs of the scheduler connector and the metadata builder under
    true freeing, from a newly started system: what the builder's checks leave
    open beside what [build_hides_recycled_pages] of Builder.v shows them to
    cover. *)

From S2P Require Import Prelude PyData Float FreeQueue BlockHash BlockPool CacheAllocator Ownership Residency Scoring Pages.
From S2P Require Import OffloadManager StagingPool Controller Selection Orchestrator OrchestratorSpec.
From S2P Require Import Scheduler SchedulerSpec BatchOrder Builder.
From stdpp Require Import base gmap sets list strings.
From Stdlib Require Import ZArith Lia.
Open Scope Z_scope.

(** ** The system: five pages, of which 0 is the null page and 4 is for staging,
    two CPU slots, true freeing, a fraction of 7/8. *)
Definition five_pages : list page := [[[[1; 2]]]; [[[3; 4]]]; [[[5; 6]]]; [[[7; 8]]]; [[[9; 10]]]].
Definition five_om : offload LRUScorer :=
  match om_init lru_init table_init [five_pages] [None] [[demo_slab; demo_slab]] 1 "NHD" with
  | Ok m => m
  | Raise _ => Offload lru_init table_init [] [] 0 "" [] ∅
  end.
Definition five_o : orch LRUScorer := orch_init (f64_lit 1 1) (demo_sp 1 4 five_om) (Ctl 2 2 ∅ ∅) 2 4.
Definition five_free : pool := (reserve_staging_tail 1 (demo_pool 5)).2.
Definition five_s (tables : gmap string (list Z)) (gpu : pool) : sched LRUScorer :=
  Sched true five_o true gpu (Some tables) (demo_pool 4) (Ctl 2 2 ∅ ∅) 0 0 1 ∅ ∅ ∅ [] ∅ ∅ true (f64_lit 7 3) 0.

(** A scheduling step, and the worker's report of its store event. *)
Definition five_build (out : SchedulerOutput) (s : sched LRUScorer) : sched LRUScorer :=
  (build_connector_meta (H:=lru_scorer) demo_T demo_fused (λ _, []) None out s).2.
Definition five_report (k : Z) (s : sched LRUScorer) : sched LRUScorer := (update_connector_output [(k, 1)] s).2.

(** The references of a page. *)
Definition page_refs (s : sched LRUScorer) (g : Z) : option Z := fst <$> refs (s_gpu s) !! g.

(** ** A request in chunked prefill *)

(** "d" has its prompt computed on page 3; "p" has half of its prompt, on page 1,
    with page 2 for the rest. *)
Definition chunk_s0 : sched LRUScorer :=
  five_s (<["p"%string := [1; 2]]> {["d"%string := [3]]}) (get_new_blocks 3 five_free).2.
Definition chunk_s1 : sched LRUScorer :=
  five_report 0 (five_build (SOut [NewReq "p" [1; 2] 2 4; NewReq "d" [3] 2 2] [] [] [] ∅ ∅) chunk_s0).
(** "d" needs a second page. *)
Definition chunk_grant : result (list Z) * pool := get_new_blocks 1 (s_gpu chunk_s1).
Definition chunk_s2 : sched LRUScorer :=
  five_build (SOut [] ["d"%string; "p"%string] [2; 2] [Some [1]; None] ∅ (<["d"%string := 1]> {["p"%string := 2]}))
    (set_tables (Some (<["d"%string := [null_block; 1]]> (default ∅ (s_tables chunk_s1)))) (set_gpu chunk_grant.2 chunk_s1)).
(** One decode token of "d" and the other half of the prompt of "p". *)
Definition chunk_step : step_in := StepIn false false [0; 1; 3] 2 3 2 [3; 4] [[3; 1; 0]; [1; 2; 0]] 0 true.

(** C39: the rows of a chunked prefill are not covered.  The offload pass takes any
    complete block, also one of a request that is still being prefilled, and its
    page is freed when the store is done; but the index patch rewrites the decode
    rows only.  In this run block 0 of "p" is offloaded in the middle of its
    prefill, vLLM gives its page 1 to the decoding request "d", and the step that
    completes the prompt of "p" hands the kernel page 1 for both: [build] returns
    without an error, and "p" reads the keys of "d". *)
Theorem prefill_row_keeps_recycled_page :
  option_map residency (s_loc chunk_s1 (mkRef "p" 0)) = Some CPU ∧ "p"%string ∉ _prefill_completed chunk_s1 ∧
  page_refs chunk_s1 1 = Some 0 ∧ chunk_grant.1 = Ok [1] ∧
  ∃ meta, (build (H:=lru_scorer) demo_cfg None chunk_step
             (demo_builder (s_orch chunk_s2) ["d"%string; "p"%string])).1 = Ok meta ∧
    m_paged_kv_indices meta = Some [0; 1; 1; 2].
Proof.
  split; [by vm_compute|]. split; [apply (bool_decide_unpack _); by vm_compute|]. split; [by vm_compute|].
  split; [by vm_compute|]. eexists. split; by vm_compute.
Qed.

(** ** A batch whose offloaded blocks are all staged *)

(** "d" has three tokens on pages 1 and 2; block 0 is offloaded and page 1 freed. *)
Definition staged_s0 : sched LRUScorer := five_s {["d"%string := [1; 2]]} (get_new_blocks 2 five_free).2.
Definition staged_s1 : sched LRUScorer :=
  five_report 0 (five_build (SOut [NewReq "d" [1; 2] 3 3] [] [] [] ∅ ∅) staged_s0).
(** The runner's row has a page that the orchestrator does not track. *)
Definition staged_step : step_in := StepIn false false [0; 1] 1 1 1 [5] [[1; 2; 3]] 0 true.
Definition staged_b (sel : option tensor3) : builder LRUScorer :=
  Builder (Some (s_orch staged_s1)) (Some ["d"%string]) None 0 0 sel ((λ _, demo_len) <$> sel) None None None [] [] 2.

(** The guard of [build] counts CPU-only blocks, not offloaded ones.  Block 0
    of "d" is offloaded and its page 1 recycled; the row has three pages where two
    are tracked, so the patch bails out.  If nothing was fetched, [build] raises as
    intended.  If the block was fetched for the last selection it is staged, no
    block counts as CPU-resident, the bail is ignored and the unpatched row with
    the recycled page 1 goes to the kernel. *)
Theorem guard_ignores_staged_blocks :
  page_refs staged_s1 1 = Some 0 ∧
  (build (H:=lru_scorer) demo_cfg None staged_step (staged_b None)).1 = Raise RuntimeError ∧
  ∃ meta, let r := build (H:=lru_scorer) demo_cfg None staged_step (staged_b (Some demo_idx)) in
    r.1 = Ok meta ∧ m_paged_kv_indices meta = Some [1; 2; 3] ∧
    _patch_bail_reason r.2 = Some (row_alignment 0 "d" 2 3) ∧
    (o ← _offload_orchestrator r.2; residency <$> o_loc o (mkRef "d" 0)) = Some STAGING.
Proof.
  split; [by vm_compute|]. split; [by vm_compute|]. eexists. cbv zeta. split_and!; by vm_compute.
Qed.
