(* ===== verification/EncoderCache.v ===== *)
(** * The encoder cache and the scheduling of encoder inputs

    Models vllm/v1/core/encoder_cache_manager.py ([EncoderCacheManager],
    [EncoderDecoderCacheManager], [compute_mm_encoder_budget]), the ranges of
    multi-modal placeholders (vllm/multimodal/inputs.py, [PlaceholderRange], and
    [get_mm_features_in_window] of vllm/multimodal/utils.py), and the scheduler's
    use of the manager: [_try_schedule_encoder_inputs] and [_free_encoder_inputs]
    of vllm/v1/core/sched/scheduler.py.

    The manager counts encoder embeddings, the model runner stores them; what the
    runner holds follows from the inputs the scheduler sends it and from the
    hashes the manager reports as freed. *)

From S2P Require Import Prelude PyData.
From stdpp Require Import base gmap sets list strings sorting.
From Stdlib Require Import ZArith Lia.
Open Scope Z_scope.

(** ** Placeholders *)
Record PlaceholderRange := Range {
  offset : Z;
  p_length : Z;
  is_embed : option (list bool);
}.

(** [is_embed.cumsum(dim=0).tolist()] *)
Fixpoint cumsum (acc : Z) (l : list bool) : list Z :=
  match l with
  | [] => []
  | b :: l' => let acc' := acc + (if b then 1 else 0) in acc' :: cumsum acc' l'
  end.

Definition embeds_cumsum (p : PlaceholderRange) : option (list Z) := cumsum 0 <$> is_embed p.

Definition get_num_embeds (p : PlaceholderRange) : Z :=
  match embeds_cumsum p with
  | None => p_length p
  | Some c => default 0 (last c)
  end.

Definition get_embeds_indices_in_range (p : PlaceholderRange) (start_idx end_idx : Z) : result (Z * Z) :=
  match embeds_cumsum p with
  | None => Ok (start_idx, end_idx)
  | Some c =>
      result_bind (if 0 <? start_idx then py_index c (start_idx - 1) else Ok 0) (λ embeds_start_idx,
      result_bind (if 0 <? end_idx then py_index c (end_idx - 1) else Ok 0) (λ embeds_end_idx,
      Ok (embeds_start_idx, embeds_end_idx)))
  end.

(** [MultiModalFeatureSpec]: its identifier and [mm_position]. *)
Record feature := Feature {
  identifier : string;
  mm_position : PlaceholderRange;
}.

(** The parts of [Request] that the manager and [_free_encoder_inputs] read. *)
Record request := Req {
  request_id : string;
  mm_features : list feature;
  num_computed_tokens : Z;
  num_output_placeholders : Z;
}.

Definition get_num_encoder_embeds (r : request) (input_id : Z) : result Z :=
  if input_id <? zlen (mm_features r)
  then result_bind (py_index (mm_features r) input_id) (λ f, Ok (get_num_embeds (mm_position f)))
  else Raise AssertionError.

(** [bisect.bisect_left(l, x, lo, hi, key=key)] *)
Fixpoint bisect_left {A} (fuel : nat) (key : A → Z) (x : Z) (l : list A) (lo hi : nat) : nat :=
  match fuel with
  | O => lo
  | S fuel' =>
      if (lo <? hi)%nat then
        let mid := ((lo + hi) / 2)%nat in
        match l !! mid with
        | Some a => if key a <? x then bisect_left fuel' key x l (S mid) hi
                    else bisect_left fuel' key x l lo mid
        | None => lo
        end
      else lo
  end.

Definition get_mm_features_in_window (feats : list feature) (start stop : Z) : Z * Z :=
  let n := length feats in
  let lo := bisect_left (S n) (λ f, offset (mm_position f) + p_length (mm_position f)) (start + 1) feats 0 n in
  let hi := bisect_left (S n) (λ f, offset (mm_position f)) stop feats 0 n in
  (Z.of_nat lo, Z.of_nat hi).

(** ** The manager of decoder-only models *)
Record ec := EC {
  cache_size : Z;
  num_free_slots : Z;
  num_freeable_slots : Z;
  cached : gmap string (gset string);
  request_cached_ids : gmap string (gset Z);
  freeable : list (string * Z);
  freed : list string;
}.

Definition ec_init (size : Z) : ec := EC size size size ∅ ∅ [] [].

Definition add_input (rid : string) (i : Z) (m : gmap string (gset Z)) : gmap string (gset Z) :=
  <[rid := {[i]} ∪ default ∅ (m !! rid)]> m.

Definition reset : M ec unit :=
  modify (λ s, EC (cache_size s) (cache_size s) (cache_size s) ∅ ∅ [] []).

Definition check_and_update_cache (r : request) (input_id : Z) : M ec bool :=
  let! f := lift (py_index (mm_features r) input_id) in
  let mm_hash := identifier f in
  let! s := gets (λ s, s) in
  match cached s !! mm_hash with
  | None => ret false
  | Some refs =>
      (if bool_decide (refs = ∅) then
         match dget mm_hash (freeable s) with
         | None => raise KeyError
         | Some num_encoder_embeds => modify (λ s,
             EC (cache_size s) (num_free_slots s) (num_freeable_slots s - num_encoder_embeds) (cached s)
               (request_cached_ids s) (dpop mm_hash (freeable s)) (freed s))
         end
       else ret tt) >>
      modify (λ s, EC (cache_size s) (num_free_slots s) (num_freeable_slots s)
        (<[mm_hash := {[request_id r]} ∪ refs]> (cached s)) (add_input (request_id r) input_id (request_cached_ids s))
        (freeable s) (freed s)) >>
      ret true
  end.

(** The eviction loop; [q] is [freeable], whose first entry each turn removes. *)
Fixpoint evict_while (num_embeds : Z) (q : list (string * Z)) : M ec unit :=
  let! s := gets (λ s, s) in
  if num_free_slots s <? num_embeds then
    match q with
    | [] => raise KeyError
    | (mm_hash, num_free_embeds) :: q' =>
        modify (λ s, EC (cache_size s) (num_free_slots s) (num_freeable_slots s) (cached s)
          (request_cached_ids s) q' (freed s)) >>
        match cached s !! mm_hash with
        | None => raise KeyError
        | Some _ =>
            modify (λ s, EC (cache_size s) (num_free_slots s + num_free_embeds) (num_freeable_slots s)
              (delete mm_hash (cached s)) (request_cached_ids s) (freeable s) (freed s ++ [mm_hash])) >>
            evict_while num_embeds q'
        end
    end
  else ret tt.

Definition can_allocate (r : request) (input_id encoder_compute_budget num_embeds_to_schedule : Z) : M ec bool :=
  let! num_embeds := lift (get_num_encoder_embeds r input_id) in
  if encoder_compute_budget <? num_embeds then ret false
  else
    let num_embeds := num_embeds + num_embeds_to_schedule in
    let! s := gets (λ s, s) in
    if num_embeds <=? num_free_slots s then ret true
    else if num_freeable_slots s <? num_embeds then ret false
    else evict_while num_embeds (freeable s) >> ret true.

Definition allocate (r : request) (input_id : Z) : M ec unit :=
  let! f := lift (py_index (mm_features r) input_id) in
  let mm_hash := identifier f in
  modify (λ s, EC (cache_size s) (num_free_slots s) (num_freeable_slots s)
    (match cached s !! mm_hash with None => <[mm_hash := ∅]> (cached s) | Some _ => cached s end)
    (request_cached_ids s) (freeable s) (freed s)) >>
  let! num_encoder_embeds := lift (get_num_encoder_embeds r input_id) in
  let! s := gets (λ s, s) in
  ensure (num_encoder_embeds <=? num_free_slots s) AssertionError >>
  ensure (num_encoder_embeds <=? num_freeable_slots s) AssertionError >>
  modify (λ s, EC (cache_size s) (num_free_slots s - num_encoder_embeds)
    (num_freeable_slots s - num_encoder_embeds)
    (<[mm_hash := {[request_id r]} ∪ default ∅ (cached s !! mm_hash)]> (cached s))
    (add_input (request_id r) input_id (request_cached_ids s)) (freeable s) (freed s)).

Definition get_cached_input_ids (r : request) (s : ec) : gset Z :=
  default ∅ (request_cached_ids s !! request_id r).

(** [any(request.mm_features[other_id].identifier == mm_hash for other_id in ids)] *)
Fixpoint any_same (feats : list feature) (mm_hash : string) (ids : list Z) : result bool :=
  match ids with
  | [] => Ok false
  | i :: ids' => result_bind (py_index feats i) (λ f,
      if bool_decide (identifier f = mm_hash) then Ok true else any_same feats mm_hash ids')
  end.

Section SetOrder.
(** The iteration order of a set. *)
Context (set_order : gset Z → list Z).

Definition free_encoder_input (r : request) (input_id : Z) : M ec unit :=
  let req_id := request_id r in
  let! f := lift (py_index (mm_features r) input_id) in
  let mm_hash := identifier f in
  modify (λ s, EC (cache_size s) (num_free_slots s) (num_freeable_slots s) (cached s)
    (match request_cached_ids s !! req_id with
     | None => request_cached_ids s
     | Some ids =>
         let ids' := ids ∖ {[input_id]} in
         if bool_decide (ids' = ∅) then delete req_id (request_cached_ids s)
         else <[req_id := ids']> (request_cached_ids s)
     end) (freeable s) (freed s)) >>
  let! s := gets (λ s, s) in
  let refs := default ∅ (cached s !! mm_hash) in
  if bool_decide (refs = ∅) then ret tt
  else
    let! held := lift (any_same (mm_features r) mm_hash (set_order (default ∅ (request_cached_ids s !! req_id)))) in
    if held : bool then ret tt
    else
      let refs' := refs ∖ {[req_id]} in
      modify (λ s, EC (cache_size s) (num_free_slots s) (num_freeable_slots s) (<[mm_hash := refs']> (cached s))
        (request_cached_ids s) (freeable s) (freed s)) >>
      if bool_decide (refs' = ∅) then
        let! num_encoder_embeds := lift (get_num_encoder_embeds r input_id) in
        modify (λ s, EC (cache_size s) (num_free_slots s) (num_freeable_slots s + num_encoder_embeds) (cached s)
          (request_cached_ids s) (dset mm_hash num_encoder_embeds (freeable s)) (freed s))
      else ret tt.

Definition free (r : request) : M ec unit :=
  let! ids := gets (get_cached_input_ids r) in
  mfor (set_order ids) (free_encoder_input r).
End SetOrder.

Definition get_freed_mm_hashes : M ec (list string) :=
  let! s := gets (λ s, s) in
  modify (λ s, EC (cache_size s) (num_free_slots s) (num_freeable_slots s) (cached s)
    (request_cached_ids s) (freeable s) []) >>
  ret (filter (λ h, cached s !! h = None) (freed s)).

(** ** Budgets *)
Record SchedulerConfig := SConfig {
  disable_chunked_mm_input : bool;
  max_num_batched_tokens : Z;
  max_num_encoder_input_tokens : Z;
  encoder_cache_size : Z;
}.

Definition compute_mm_encoder_budget (cfg : SchedulerConfig) (mm_max_toks_per_item : list (string * Z))
    : result (Z * Z) :=
  match dvalues mm_max_toks_per_item with
  | [] => Ok (0, 0)
  | v :: vs =>
      let max_tokens_per_mm_item := foldl Z.max v vs in
      if disable_chunked_mm_input cfg && (max_num_batched_tokens cfg <? max_tokens_per_mm_item)
      then Raise ValueError
      else Ok (Z.max (max_num_encoder_input_tokens cfg) max_tokens_per_mm_item,
               Z.max (encoder_cache_size cfg) max_tokens_per_mm_item)
  end.

(** ** The manager of encoder-decoder models *)
Record ed := ED {
  ed_cache_size : Z;
  ed_num_free_slots : Z;
  allocated : list string;
  to_free : list string;
}.

Definition ed_init (size : Z) : ed := ED size size [] [].

Definition ed_reset : M ed unit := modify (λ s, ED (ed_cache_size s) (ed_cache_size s) [] []).

Definition ed_can_allocate (r : request) (input_id encoder_compute_budget num_embeds_to_schedule : Z) : M ed bool :=
  let! num_encoder_embeds := lift (get_num_encoder_embeds r input_id) in
  if encoder_compute_budget <? num_encoder_embeds then ret false
  else gets (λ s, num_encoder_embeds + num_embeds_to_schedule <=? ed_num_free_slots s).

Definition ed_allocate (r : request) (input_id : Z) : M ed unit :=
  let! num_encoder_embeds := lift (get_num_encoder_embeds r input_id) in
  modify (λ s, ED (ed_cache_size s) (ed_num_free_slots s - num_encoder_embeds) (allocated s) (to_free s)) >>
  let! f := lift (py_index (mm_features r) input_id) in
  modify (λ s, ED (ed_cache_size s) (ed_num_free_slots s) (allocated s ++ [identifier f]) (to_free s)).

Definition ed_free_encoder_input (r : request) (input_id : Z) : M ed unit :=
  let! num_encoder_embeds := lift (get_num_encoder_embeds r input_id) in
  modify (λ s, ED (ed_cache_size s) (ed_num_free_slots s + num_encoder_embeds) (allocated s) (to_free s)).

Definition ed_free (r : request) : M ed unit :=
  mfor (zrange 0 (zlen (mm_features r))) (ed_free_encoder_input r).

Definition ed_get_cached_input_ids (r : request) : gset Z := list_to_set (zrange 0 (zlen (mm_features r))).

Definition ed_get_freed_mm_hashes : M ed (list string) :=
  let! s := gets (λ s, s) in
  modify (λ s, ED (ed_cache_size s) (ed_num_free_slots s) [] (allocated s)) >>
  ret (to_free s).

(** ** What the scheduler calls: either manager *)
Class EncoderManager (S : Type) := {
  em_check : request → Z → M S bool;
  em_can_allocate : request → Z → Z → Z → M S bool;
  em_allocate : request → Z → M S unit;
  em_ids : request → S → gset Z;
  em_free_input : (gset Z → list Z) → request → Z → M S unit;
  em_free : (gset Z → list Z) → request → M S unit;
  em_freed : M S (list string);
  (** [is_encoder_decoder] of the models that use it *)
  em_encoder_decoder : bool;
}.

#[global] Instance ec_manager : EncoderManager ec := {
  em_check := check_and_update_cache;
  em_can_allocate := can_allocate;
  em_allocate := allocate;
  em_ids := get_cached_input_ids;
  em_free_input := free_encoder_input;
  em_free := free;
  em_freed := get_freed_mm_hashes;
  em_encoder_decoder := false;
}.

#[global] Instance ed_manager : EncoderManager ed := {
  em_check := λ _ _, ret false;
  em_can_allocate := ed_can_allocate;
  em_allocate := ed_allocate;
  em_ids := λ r _, ed_get_cached_input_ids r;
  em_free_input := λ _, ed_free_encoder_input;
  em_free := λ _, ed_free;
  em_freed := ed_get_freed_mm_hashes;
  em_encoder_decoder := true;
}.

(** The locals of [_try_schedule_encoder_inputs]. *)
Record locals := Locals {
  num_new_tokens : Z;
  compute_budget : Z;
  encoder_inputs_to_schedule : list Z;
  external_load_encoder_input : list Z;
  mm_hashes_to_schedule : gset string;
  num_embeds_to_schedule : Z;
}.

Section Schedule.
Context {S : Type} `{EncoderManager S}.
(** [ec_connector.has_cache_item], if there is a connector *)
Context (has_cache_item : option (string → bool)).
Context (no_chunking : bool).

(** One turn of the loop; [false] is [break]. *)
Definition encoder_input_step (r : request) (computed window_end shift : Z) (i : Z) (a : locals) : M S (locals * bool) :=
  let! f := lift (py_index (mm_features r) i) in
  let start_pos := offset (mm_position f) in
  let num_encoder_tokens := p_length (mm_position f) in
  let num_encoder_embeds := get_num_embeds (mm_position f) in
  let item := identifier f in
  if em_encoder_decoder && (0 <? computed) then
    ensure (start_pos =? 0) AssertionError >> ret (a, true)
  else
    let! skip := (if em_encoder_decoder then ret false
                  else if bool_decide (item ∈ mm_hashes_to_schedule a) then ret true
                  else em_check r i) in
    if skip : bool then ret (a, true)
    else if no_chunking && (computed <? start_pos)
            && (computed + num_new_tokens a <? start_pos + num_encoder_tokens)
    then ret (Locals (Z.max 0 (start_pos - (computed + shift))) (compute_budget a) (encoder_inputs_to_schedule a)
                (external_load_encoder_input a) (mm_hashes_to_schedule a) (num_embeds_to_schedule a), false)
    else
      let! fits := em_can_allocate r i (compute_budget a) (num_embeds_to_schedule a) in
      if negb fits then
        ret (Locals (if computed + shift <? start_pos then start_pos - (computed + shift) else 0)
               (compute_budget a) (encoder_inputs_to_schedule a) (external_load_encoder_input a)
               (mm_hashes_to_schedule a) (num_embeds_to_schedule a), false)
      else
        let start_idx_rel := Z.max 0 (computed - start_pos) in
        let end_idx_rel := Z.min num_encoder_tokens (window_end - start_pos) in
        let! range := lift (get_embeds_indices_in_range (mm_position f) start_idx_rel end_idx_rel) in
        if range.2 - range.1 =? 0 then ret (a, true)
        else if match has_cache_item with Some h => h item | None => false end then
          ret (Locals (num_new_tokens a) (compute_budget a) (encoder_inputs_to_schedule a)
                 (external_load_encoder_input a ++ [i]) ({[item]} ∪ mm_hashes_to_schedule a)
                 (num_embeds_to_schedule a + num_encoder_embeds), true)
        else
          ret (Locals (num_new_tokens a) (compute_budget a - num_encoder_embeds)
                 (encoder_inputs_to_schedule a ++ [i]) (external_load_encoder_input a)
                 ({[item]} ∪ mm_hashes_to_schedule a) (num_embeds_to_schedule a + num_encoder_embeds), true).

Fixpoint encoder_input_loop (r : request) (computed window_end shift : Z) (l : list Z) (a : locals) : M S locals :=
  match l with
  | [] => ret a
  | i :: l' =>
      let! x := encoder_input_step r computed window_end shift i a in
      if x.2 : bool then encoder_input_loop r computed window_end shift l' x.1 else ret x.1
  end.

(** Inputs to encode, tokens to compute, the budget left and the inputs to load. *)
Definition _try_schedule_encoder_inputs (r : request) (computed new_tokens budget shift : Z)
    : M S (list Z * Z * Z * list Z) :=
  if (new_tokens =? 0) || bool_decide (mm_features r = []) then ret ([], new_tokens, budget, [])
  else
    let window_end := computed + new_tokens + shift in
    let '(lo, hi) := get_mm_features_in_window (mm_features r) computed window_end in
    let lo := if em_encoder_decoder then 0 else lo in
    let! a := encoder_input_loop r computed window_end shift (zrange lo hi) (Locals new_tokens budget [] [] ∅ 0) in
    ret (encoder_inputs_to_schedule a, num_new_tokens a, compute_budget a, external_load_encoder_input a).

(** What [schedule] does with them once the request has its KV blocks. *)
Definition allocate_inputs (r : request) (inputs external : list Z) : M S unit :=
  mfor inputs (em_allocate r) >> mfor external (em_allocate r).

(** Drop the inputs whose tokens are computed. *)
Definition _free_encoder_inputs (set_order : gset Z → list Z) (num_prefill_lookahead : Z) (r : request) : M S unit :=
  let! ids := gets (em_ids r) in
  if bool_decide (ids = ∅) then ret tt
  else mfor (set_order ids) (λ input_id,
    let! f := lift (py_index (mm_features r) input_id) in
    let start_pos := offset (mm_position f) in
    let num_tokens := p_length (mm_position f) in
    if em_encoder_decoder && (0 <? num_computed_tokens r) then em_free_input set_order r input_id
    else if start_pos + num_tokens + num_prefill_lookahead <=? num_computed_tokens r - num_output_placeholders r
    then em_free_input set_order r input_id
    else ret tt).
End Schedule.
