(* ===== verification/EncoderCacheSpec.v ===== *)
(** * Correctness of the encoder cache

    The invariant of [EncoderCacheManager] and what it gives the scheduler and the
    model runner: the slot counts are exact, an item that a request holds is never
    evicted, the inputs a step needs are allocated without a failing assertion,
    and the runner's cache holds what the manager lists.  Last, the runs in which
    the scheduler breaks the managers' assumptions. *)

From S2P Require Import Prelude PyData EncoderCache.
From stdpp Require Import base gmap sets list strings sorting.
From Stdlib Require Import ZArith Lia.
Open Scope Z_scope.

(** ** The size of a set of entries *)
Section Weight.
Context (size : string → Z).

Definition weight {A} (m : gmap string A) : Z := map_fold (λ h _ acc, size h + acc) 0 m.

Lemma weight_insert_new {A} h (x : A) m : m !! h = None → weight (<[h := x]> m) = size h + weight m.
Proof. intros Hh. unfold weight. apply (map_fold_insert_L (λ h (_ : A) acc, size h + acc) 0 h x m); [intros; lia|done]. Qed.

Lemma weight_delete {A} h (x : A) m : m !! h = Some x → weight m = size h + weight (delete h m).
Proof. intros Hh. unfold weight. apply (map_fold_delete_L (λ h (_ : A) acc, size h + acc) 0 h x m); [intros; lia|done]. Qed.

Lemma weight_insert_old {A} h (x y : A) m : m !! h = Some y → weight (<[h := x]> m) = weight m.
Proof.
  intros Hh. rewrite <-insert_delete_eq, weight_insert_new by apply lookup_delete_eq. by rewrite (weight_delete h y m).
Qed.

Lemma weight_nonneg {A} (m : gmap string A) : (∀ h, is_Some (m !! h) → 0 ≤ size h) → 0 ≤ weight m.
Proof.
  intros Hs. unfold weight. apply (map_fold_weak_ind (λ acc m, (∀ h, is_Some (m !! h) → 0 ≤ size h) → 0 ≤ acc)); [done| |done].
  intros h x m' acc Hh IH Hm. specialize (Hm h) as Hh'. rewrite lookup_insert_eq in Hh'.
  assert (0 ≤ acc); [|by specialize (Hh' (ex_intro _ x eq_refl)); lia].
  apply IH. intros h' Hs'. apply Hm. destruct (decide (h' = h)) as [->|]; [by rewrite lookup_insert_eq|by rewrite lookup_insert_ne].
Qed.

Lemma weight_filter {A} (P : A → Prop) `{∀ x, Decision (P x)} (m : gmap string A) :
  weight m = weight (filter (λ e, P e.2) m) + weight (filter (λ e, ¬ P e.2) m).
Proof.
  induction m as [|h x m Hh IH] using map_ind; [done|]. rewrite weight_insert_new, IH by done.
  destruct (decide (P x)).
  - rewrite map_filter_insert_True by done. rewrite map_filter_insert_False, delete_id by (by auto).
    rewrite weight_insert_new by (apply map_lookup_filter_None; by left). lia.
  - rewrite (map_filter_insert_False (λ e, P e.2)), delete_id by done. rewrite map_filter_insert_True by done.
    rewrite weight_insert_new by (apply map_lookup_filter_None; by left). lia.
Qed.

(** The size of a map whose keys a dict lists. *)
Lemma weight_dict {A} (q : list (string * Z)) (m : gmap string A) :
  dict_ok q → (∀ h k, (h, k) ∈ q → k = size h) → (∀ h, is_Some (m !! h) ↔ h ∈ dkeys q) →
  weight m = foldr Z.add 0 q.*2.
Proof.
  revert m. induction q as [|[h k] q IH]; intros m Hd Hk Hm.
  - replace m with (∅ : gmap string A); [done|]. symmetry. apply map_empty. intros h. apply eq_None_not_Some.
    rewrite Hm. by intros ?%elem_of_nil.
  - unfold dict_ok, dkeys in *. rewrite fmap_cons in *. apply NoDup_cons in Hd as [Hn Hd]. cbn in *.
    destruct (proj2 (Hm h)) as [x Hx]; [by left|]. rewrite (weight_delete h x) by done.
    rewrite (IH (delete h m)); [|done|intros; apply Hk; by right|].
    + rewrite (Hk h k) by by left. done.
    + intros h'. destruct (decide (h' = h)) as [->|].
      * rewrite lookup_delete_eq. split; [by intros [? [=]]|done].
      * rewrite lookup_delete_ne, Hm by done. set_solver.
Qed.
End Weight.

Definition slots_of (q : list (string * Z)) : Z := foldr Z.add 0 q.*2.
Arguments slots_of : simpl never.

Lemma slots_of_app q q' : slots_of (q ++ q') = slots_of q + slots_of q'.
Proof. unfold slots_of. induction q as [|[h k] q IH]; cbn in *; [done|lia]. Qed.
Lemma slots_of_perm q q' : q ≡ₚ q' → slots_of q = slots_of q'.
Proof. induction 1; unfold slots_of in *; cbn in *; lia. Qed.
Lemma slots_of_dpop h k q : dget h q = Some k → slots_of q = k + slots_of (dpop h q).
Proof. intros Hk. by rewrite (slots_of_perm _ _ (dpop_Permutation _ _ _ Hk)). Qed.

(** ** The invariant *)
Section Invariant.
(** The features of each request, and the embeddings of each item. *)
Context (feats : string → list feature) (size : string → Z).

Definition req_ok (r : request) : Prop := mm_features r = feats (request_id r).

(** Items with the same hash have the same number of embeddings. *)
Definition sizes_ok : Prop :=
  (∀ h, 0 ≤ size h) ∧ ∀ rid f, f ∈ feats rid → get_num_embeds (mm_position f) = size (identifier f).

(** Input [i] of the request is the item [h]. *)
Definition input_is (rid : string) (i : Z) (h : string) : Prop :=
  0 ≤ i ∧ ∃ f, feats rid !! Z.to_nat i = Some f ∧ identifier f = h.

Record ec_inv (s : ec) : Prop := {
  ei_free : num_free_slots s + weight size (cached s) = cache_size s;
  ei_freeable : num_freeable_slots s = num_free_slots s + slots_of (freeable s);
  ei_nonneg : 0 ≤ num_free_slots s;
  ei_dict : dict_ok (freeable s);
  ei_unref : ∀ h, cached s !! h = Some ∅ ↔ h ∈ dkeys (freeable s);
  ei_sizes : ∀ h k, (h, k) ∈ freeable s → k = size h ∧ 0 ≤ k;
  ei_refs : ∀ rid h, rid ∈ default ∅ (cached s !! h) ↔
              ∃ i, i ∈ default ∅ (request_cached_ids s !! rid) ∧ input_is rid i h;
  ei_ids : ∀ rid i, i ∈ default ∅ (request_cached_ids s !! rid) → ∃ h, input_is rid i h;
  ei_some : ∀ rid, request_cached_ids s !! rid ≠ Some ∅;
}.

Lemma ec_init_inv n : 0 ≤ n → ec_inv (ec_init n).
Proof.
  intros Hn. split; cbn; try done; try lia.
  - unfold weight. rewrite map_fold_empty. lia.
  - unfold slots_of. cbn. lia.
  - constructor.
  - intros h. rewrite lookup_empty. split; [done|by intros ?%elem_of_nil].
  - by intros h k ?%elem_of_nil.
  - intros rid h. rewrite !lookup_empty. cbn. split; [set_solver|]. intros (i & Hi & _). set_solver.
Qed.

Context (Hsz : sizes_ok).

Lemma input_is_fun rid i h h' : input_is rid i h → input_is rid i h' → h = h'.
Proof. intros [_ (f & Hf & <-)] [_ (f' & Hf' & <-)]. congruence. Qed.

Lemma input_feature r i h :
  req_ok r → input_is (request_id r) i h →
  ∃ f, py_index (mm_features r) i = Ok f ∧ identifier f = h ∧
    get_num_encoder_embeds r i = Ok (size h) ∧ 0 ≤ size h.
Proof.
  intros Hr [Hi (f & Hf & Hh)]. exists f. rewrite <-Hr in Hf.
  assert (py_index (mm_features r) i = Ok f) as Hp.
  { unfold py_index. rewrite (proj2 (Z.ltb_ge i 0)) by lia. rewrite (proj2 (Z.ltb_ge i 0)) by lia. by rewrite Hf. }
  assert (f ∈ feats (request_id r)) as Hin.
  { rewrite <-Hr. apply list_elem_of_lookup. by exists (Z.to_nat i). }
  destruct Hsz as [H0 Hg]. specialize (Hg _ _ Hin). rewrite Hh in Hg. split_and!; try done.
  unfold get_num_encoder_embeds. apply lookup_lt_Some in Hf. rewrite (proj2 (Z.ltb_lt _ _)) by (unfold zlen; lia).
  rewrite Hp. cbn. by rewrite Hg.
Qed.

(** *** Freeable entries *)
Lemma freeable_get s h : ec_inv s → cached s !! h = Some ∅ → dget h (freeable s) = Some (size h) ∧ 0 ≤ size h.
Proof.
  intros Hs Hh. apply (ei_unref _ Hs) in Hh. apply dget_is_Some in Hh as [k Hk].
  destruct (ei_sizes _ Hs h k) as [-> ?]; [by apply dget_elem_of_1|done].
Qed.

Lemma slots_of_nonneg s : ec_inv s → 0 ≤ slots_of (freeable s).
Proof.
  intros Hs. pose proof (ei_sizes _ Hs) as Hk. unfold slots_of. induction (freeable s) as [|[h k] q IH]; [done|]. cbn.
  assert (0 ≤ foldr Z.add 0 q.*2) by (apply IH; intros; apply (Hk h0 k0); by right).
  destruct (Hk h k) as [_ ?]; [by left|lia].
Qed.

(** The reclaimable slots: all but those of referenced entries. *)
Lemma freeable_weight s :
  ec_inv s → num_freeable_slots s + weight size (filter (λ e, e.2 ≠ ∅) (cached s)) = cache_size s.
Proof.
  intros Hs. rewrite (ei_freeable _ Hs), <-(ei_free _ Hs), (weight_filter size (λ x, x = ∅) (cached s)).
  enough (weight size (filter (λ e : string * gset string, e.2 = ∅) (cached s)) = slots_of (freeable s)) by lia.
  apply weight_dict; [apply Hs|intros h k Hin; by apply (ei_sizes _ Hs)|].
  intros h. rewrite <-(ei_unref _ Hs). split.
  - intros [x [Hx He]%map_lookup_filter_Some]. cbn in He. congruence.
  - intros Hh. exists ∅. by apply map_lookup_filter_Some.
Qed.

(** *** Adding a reference *)
Lemma add_input_spec rid i m rid' j :
  j ∈ default ∅ (add_input rid i m !! rid') ↔ (rid' = rid ∧ j = i) ∨ j ∈ default ∅ (m !! rid').
Proof.
  unfold add_input. destruct (decide (rid' = rid)) as [->|].
  - rewrite lookup_insert_eq. cbn. set_solver.
  - rewrite lookup_insert_ne by done. naive_solver.
Qed.

Lemma add_input_some rid i m : (∀ rid', m !! rid' ≠ Some ∅) → ∀ rid', add_input rid i m !! rid' ≠ Some ∅.
Proof.
  intros Hm rid'. unfold add_input. destruct (decide (rid' = rid)) as [->|].
  - rewrite lookup_insert_eq. intros [= Hx]. set_solver.
  - by rewrite lookup_insert_ne.
Qed.

(** The references after [rid] was added to the entry [h] for input [i]. *)
Lemma refs_add (c : gmap string (gset string)) (ids : gmap string (gset Z)) rid i h refs :
  (∀ rid h, rid ∈ default ∅ (c !! h) ↔ ∃ i, i ∈ default ∅ (ids !! rid) ∧ input_is rid i h) →
  input_is rid i h → refs = default ∅ (c !! h) →
  ∀ rid' h', rid' ∈ default ∅ (<[h := {[rid]} ∪ refs]> c !! h') ↔
    ∃ j, j ∈ default ∅ (add_input rid i ids !! rid') ∧ input_is rid' j h'.
Proof.
  intros Hr Hi -> rid' h'. setoid_rewrite add_input_spec. destruct (decide (h' = h)) as [->|Hne].
  - rewrite lookup_insert_eq. cbn. rewrite elem_of_union, elem_of_singleton, Hr. naive_solver.
  - rewrite lookup_insert_ne by done. rewrite Hr. split; [naive_solver|].
    intros (j & [[-> ->]|Hj] & Hin); [|by exists j]. by destruct Hne; eapply input_is_fun.
Qed.

(** ** The operations *)
Lemma check_run r i h s :
  ec_inv s → req_ok r → input_is (request_id r) i h →
  ∃ s', check_and_update_cache r i s = (Ok (bool_decide (is_Some (cached s !! h))), s') ∧ ec_inv s' ∧
    num_free_slots s' = num_free_slots s ∧ dom (cached s') = dom (cached s) ∧ freed s' = freed s ∧
    (is_Some (cached s !! h) → request_id r ∈ default ∅ (cached s' !! h)) ∧
    (∀ rid h', rid ∈ default ∅ (cached s !! h') → rid ∈ default ∅ (cached s' !! h')) ∧
    cache_size s' = cache_size s.
Proof.
  intros Hs Hr Hi. destruct (input_feature r i h Hr Hi) as (f & Hf & Hh & _).
  unfold check_and_update_cache. unfold bind at 1, lift. rewrite Hf, Hh. run_step.
  destruct (cached s !! h) as [refs|] eqn:Ec.
  2: { exists s. rewrite bool_decide_eq_false_2 by (by intros [? [=]]). by split_and!; try done; intros [? [=]]. }
  rewrite (bool_decide_eq_true_2 (is_Some (Some refs))) by by eexists.
  set (k := if bool_decide (refs = ∅) then size h else 0).
  set (q := if bool_decide (refs = ∅) then dpop h (freeable s) else freeable s).
  set (s' := EC (cache_size s) (num_free_slots s) (num_freeable_slots s - k)
    (<[h := {[request_id r]} ∪ refs]> (cached s)) (add_input (request_id r) i (request_cached_ids s)) q (freed s)).
  exists s'. split.
  { unfold s', k, q. case_bool_decide as Hemp.
    - subst refs. destruct (freeable_get s h Hs Ec) as [-> _]. done.
    - unfold bind, ret, modify. cbn. rewrite Z.sub_0_r. done. }
  pose proof (refs_add _ _ _ _ _ refs (ei_refs _ Hs) Hi) as Hrefs. rewrite Ec in Hrefs. specialize (Hrefs eq_refl).
  assert (Hq : slots_of (freeable s) = k + slots_of q ∧ dict_ok q ∧ q ⊆ freeable s ∧
    ∀ h', h' ∈ dkeys q ↔ h' ∈ dkeys (freeable s) ∧ h' ≠ h).
  { unfold k, q. pose proof (ei_dict _ Hs) as Hd. case_bool_decide as Hemp.
    - subst refs. destruct (freeable_get s h Hs Ec) as [Hg _]. split_and!.
      + by rewrite (slots_of_dpop h (size h)).
      + by apply dict_ok_dpop.
      + intros x Hx. eapply elem_of_submseteq; [exact Hx|]. apply sublist_submseteq, dpop_sublist.
      + intros h'. rewrite <-!dget_is_Some, dget_dpop by done. case_decide; [|naive_solver].
        split; [by intros [? [=]]|naive_solver].
    - split_and!; try done. intros h'. split; [|tauto]. intros Hin. split; [done|]. intros ->.
      apply (ei_unref _ Hs) in Hin. congruence. }
  destruct Hq as (Hq1 & Hq2 & Hq3 & Hq4). clearbody k q. split; [|split_and!; try done].
  - split; unfold s'; cbn; try by apply Hs.
    + rewrite (weight_insert_old size h _ refs) by done. apply Hs.
    + rewrite (ei_freeable _ Hs). lia.
    + done.
    + intros h'. rewrite Hq4, <-(ei_unref _ Hs). destruct (decide (h' = h)) as [->|].
      * rewrite lookup_insert_eq. split; [intros [= Hx]; set_solver|tauto].
      * rewrite lookup_insert_ne by done. tauto.
    + intros h' k' Hin. by apply (ei_sizes _ Hs), Hq3.
    + exact Hrefs.
    + intros rid j [[-> ->]|Hj]%add_input_spec; [by exists h|by apply (ei_ids _ Hs)].
    + apply add_input_some, Hs.
  - unfold s'. cbn. rewrite dom_insert_L. apply elem_of_dom_2 in Ec. set_solver.
  - intros _. apply Hrefs. exists i. split; [|done]. apply add_input_spec. by left.
  - intros rid h' Hin. apply Hrefs. apply (ei_refs _ Hs) in Hin as (j & Hj & Hin). exists j.
    split; [|done]. apply add_input_spec. by right.
Qed.

(** *** Eviction *)

(** The oldest unreferenced entries [pre] were evicted. *)
Record evicted (pre : list (string * Z)) (s s' : ec) : Prop := {
  ev_queue : freeable s = pre ++ freeable s';
  ev_freed : freed s' = freed s ++ dkeys pre;
  ev_cached : ∀ h, cached s' !! h = if decide (h ∈ dkeys pre) then None else cached s !! h;
  ev_free : num_free_slots s' = num_free_slots s + slots_of pre;
  ev_static : request_cached_ids s' = request_cached_ids s ∧ cache_size s' = cache_size s ∧
              num_freeable_slots s' = num_freeable_slots s;
}.

Lemma evicted_nil s : evicted [] s s.
Proof. split; try done; unfold slots_of; cbn; [by rewrite app_nil_r|lia]. Qed.

Lemma evicted_cons h k q s pre s' :
  freeable s = (h, k) :: q →
  evicted pre (EC (cache_size s) (num_free_slots s + k) (num_freeable_slots s) (delete h (cached s))
                 (request_cached_ids s) q (freed s ++ [h])) s' →
  evicted ((h, k) :: pre) s s'.
Proof.
  intros Hq [H1 H2 H3 H4 H5]. cbn in *. split.
  - by rewrite Hq, H1.
  - rewrite H2, <-app_assoc. done.
  - intros h'. rewrite H3. unfold dkeys. rewrite fmap_cons. cbn. destruct (decide (h' = h)) as [->|Hne].
    + rewrite lookup_delete_eq. rewrite (decide_True (P := h ∈ h :: _)) by by left. by destruct (decide _).
    + rewrite lookup_delete_ne by done. do 2 case_decide; set_solver.
  - rewrite H4. unfold slots_of. cbn. lia.
  - done.
Qed.

(** Evicting the oldest unreferenced entry keeps the invariant. *)
Lemma evict_one_inv h k q s :
  ec_inv s → freeable s = (h, k) :: q →
  cached s !! h = Some ∅ ∧
  ec_inv (EC (cache_size s) (num_free_slots s + k) (num_freeable_slots s) (delete h (cached s))
            (request_cached_ids s) q (freed s ++ [h])).
Proof.
  intros Hs Hq. pose proof (ei_dict _ Hs) as Hd. rewrite Hq in Hd. unfold dict_ok, dkeys in Hd. rewrite fmap_cons in Hd.
  apply NoDup_cons in Hd as [Hn Hd]. cbn in Hn.
  assert (cached s !! h = Some ∅) as Hc by (apply (ei_unref _ Hs); rewrite Hq; by left). split; [done|].
  destruct (ei_sizes _ Hs h k) as [-> Hk]; [rewrite Hq; by left|].
  split; cbn; try by apply Hs.
  - rewrite <-(ei_free _ Hs), (weight_delete size h ∅ (cached s)) by done. lia.
  - rewrite (ei_freeable _ Hs), Hq. unfold slots_of. cbn. lia.
  - pose proof (ei_nonneg _ Hs). lia.
  - done.
  - intros h'. destruct (decide (h' = h)) as [->|Hne].
    + rewrite lookup_delete_eq. split; [done|]. by intros ?%Hn.
    + rewrite lookup_delete_ne by done. rewrite (ei_unref _ Hs), Hq. unfold dkeys. rewrite fmap_cons. cbn. set_solver.
  - intros h' k' Hin. apply (ei_sizes _ Hs). rewrite Hq. by right.
  - intros rid h'. rewrite <-(ei_refs _ Hs). destruct (decide (h' = h)) as [->|Hne].
    + rewrite lookup_delete_eq, Hc. done.
    + by rewrite lookup_delete_ne.
Qed.

Lemma evict_run num q s :
  ec_inv s → freeable s = q → num ≤ num_freeable_slots s →
  ∃ pre s', evict_while num q s = (Ok tt, s') ∧ ec_inv s' ∧ evicted pre s s' ∧ num ≤ num_free_slots s' ∧
    ∀ pre' x, pre = pre' ++ [x] → num_free_slots s + slots_of pre' < num.
Proof.
  revert s. induction q as [|[h k] q IH]; intros s Hs Hq Hle; cbn [evict_while]; run_step.
  - rewrite (ei_freeable _ Hs), Hq in Hle. unfold slots_of in Hle. cbn in Hle.
    rewrite (proj2 (Z.ltb_ge _ _)) by lia. exists [], s. split_and!; try done; [apply evicted_nil|lia|].
    by intros [|? ?] ? [=].
  - destruct (num_free_slots s <? num) eqn:El.
    2: { apply Z.ltb_ge in El. exists [], s. split_and!; try done; [apply evicted_nil|]. by intros [|? ?] ? [=]. }
    apply Z.ltb_lt in El. destruct (evict_one_inv h k q s Hs Hq) as [Hc Hinv]. run_step. rewrite Hc. run_step. cbn.
    destruct (IH _ Hinv eq_refl) as (pre & s' & Hrun & Hinv' & Hev & Hnum & Hmin); [done|].
    exists ((h, k) :: pre), s'. split_and!; try done; [by eapply evicted_cons|].
    intros [|y pre'] x; [intros [= ? ->]; unfold slots_of; cbn; lia|]. intros [= <- Hp].
    specialize (Hmin pre' x Hp). cbn in Hmin. unfold slots_of in *. cbn. lia.
Qed.

(** [can_allocate] says yes if the budget and the reclaimable slots suffice, and
    then enough slots are free. *)
Lemma can_allocate_run r i h budget num s :
  ec_inv s → req_ok r → input_is (request_id r) i h →
  let need := size h + num in
  ∃ pre s', can_allocate r i budget num s = (Ok (bool_decide (size h ≤ budget ∧ need ≤ num_freeable_slots s)), s') ∧
    ec_inv s' ∧ evicted pre s s' ∧
    (size h ≤ budget → need ≤ num_freeable_slots s → need ≤ num_free_slots s') ∧
    (pre ≠ [] → size h ≤ budget ∧ need ≤ num_freeable_slots s) ∧
    ∀ pre' x, pre = pre' ++ [x] → num_free_slots s + slots_of pre' < need.
Proof.
  intros Hs Hr Hi need. destruct (input_feature r i h Hr Hi) as (f & _ & _ & Hn & H0).
  assert (Hsame : ∀ b : bool, b = bool_decide (size h ≤ budget ∧ need ≤ num_freeable_slots s) →
    (size h ≤ budget → need ≤ num_freeable_slots s → need ≤ num_free_slots s) →
    ∃ pre s', (Ok b, s) = (Ok (bool_decide (size h ≤ budget ∧ need ≤ num_freeable_slots s)), s') ∧
      ec_inv s' ∧ evicted pre s s' ∧ (size h ≤ budget → need ≤ num_freeable_slots s → need ≤ num_free_slots s') ∧
      (pre ≠ [] → size h ≤ budget ∧ need ≤ num_freeable_slots s) ∧
      ∀ pre' x, pre = pre' ++ [x] → num_free_slots s + slots_of pre' < need).
  { intros b -> Hx. exists [], s. split_and!; try done; [apply evicted_nil|]. by intros [|? ?] ? [=]. }
  pose proof (slots_of_nonneg s Hs) as Ht. pose proof (ei_freeable _ Hs) as Hf.
  unfold can_allocate. unfold bind at 1, lift. rewrite Hn.
  destruct (budget <? size h) eqn:Eb; [apply Z.ltb_lt in Eb|apply Z.ltb_ge in Eb].
  { apply Hsame; [|lia]. rewrite bool_decide_eq_false_2 by lia. done. }
  run_step. fold need.
  destruct (need <=? num_free_slots s) eqn:E1; [apply Z.leb_le in E1|apply Z.leb_gt in E1].
  { apply Hsame; [|lia]. rewrite bool_decide_eq_true_2 by lia. done. }
  destruct (num_freeable_slots s <? need) eqn:E2; [apply Z.ltb_lt in E2|apply Z.ltb_ge in E2].
  { apply Hsame; [|lia]. rewrite bool_decide_eq_false_2 by lia. done. }
  destruct (evict_run need (freeable s) s Hs eq_refl E2) as (pre & s' & Hrun & Hinv & Hev & Hle & Hmin).
  exists pre, s'. erewrite bind_ok by exact Hrun. rewrite bool_decide_eq_true_2 by lia. by split_and!.
Qed.

(** *** Allocation *)
Lemma allocate_run r i h s :
  ec_inv s → req_ok r → input_is (request_id r) i h → cached s !! h = None → size h ≤ num_free_slots s →
  ∃ s', allocate r i s = (Ok tt, s') ∧ ec_inv s' ∧ num_free_slots s' = num_free_slots s - size h ∧
    cached s' = <[h := {[request_id r]}]> (cached s) ∧ freed s' = freed s ∧ cache_size s' = cache_size s.
Proof.
  intros Hs Hr Hi Hc Hle. destruct (input_feature r i h Hr Hi) as (f & Hf & Hh & Hn & H0).
  pose proof (slots_of_nonneg s Hs) as Ht. pose proof (ei_freeable _ Hs) as Hfr.
  unfold allocate. unfold bind at 1, lift. rewrite Hf, Hh. run_step. rewrite Hc.
  unfold bind at 1, lift. rewrite Hn. run_step.
  erewrite bind_ok by (apply ensure_true; cbn; lia). erewrite bind_ok by (apply ensure_true; cbn; lia).
  unfold modify. cbn. rewrite lookup_insert_eq. cbn. rewrite insert_insert_eq, union_empty_r_L.
  eexists. split; [done|]. split; [|by split_and!]. split; cbn; try by apply Hs.
  - rewrite weight_insert_new by done. pose proof (ei_free _ Hs). lia.
  - lia.
  - lia.
  - intros h'. rewrite <-(ei_unref _ Hs). destruct (decide (h' = h)) as [->|].
    + rewrite lookup_insert_eq, Hc. split; [intros [= Hx]; set_solver|done].
    + by rewrite lookup_insert_ne.
  - pose proof (refs_add _ _ _ _ _ ∅ (ei_refs _ Hs) Hi) as Hrefs. rewrite Hc, union_empty_r_L in Hrefs. by apply Hrefs.
  - intros rid j [[-> ->]|Hj]%add_input_spec; [by exists h|by apply (ei_ids _ Hs)].
  - apply add_input_some, Hs.
Qed.

(** *** Releasing *)
Definition drop_input (rid : string) (i : Z) (m : gmap string (gset Z)) : gmap string (gset Z) :=
  match m !! rid with
  | None => m
  | Some ids => let ids' := ids ∖ {[i]} in
      if bool_decide (ids' = ∅) then delete rid m else <[rid := ids']> m
  end.

Lemma drop_input_spec rid i m rid' j :
  j ∈ default ∅ (drop_input rid i m !! rid') ↔ j ∈ default ∅ (m !! rid') ∧ ¬ (rid' = rid ∧ j = i).
Proof.
  unfold drop_input. destruct (m !! rid) as [ids|] eqn:Em.
  - destruct (decide (rid' = rid)) as [->|Hne].
    + rewrite Em. cbn. case_bool_decide as He; [rewrite lookup_delete_eq|rewrite lookup_insert_eq]; cbn; set_solver.
    + case_bool_decide; [rewrite lookup_delete_ne by done|rewrite lookup_insert_ne by done]; naive_solver.
  - destruct (decide (rid' = rid)) as [->|Hne]; [rewrite Em; cbn; set_solver|naive_solver].
Qed.

Lemma drop_input_some rid i m : (∀ rid', m !! rid' ≠ Some ∅) → ∀ rid', drop_input rid i m !! rid' ≠ Some ∅.
Proof.
  intros Hm rid'. unfold drop_input. destruct (m !! rid) as [ids|] eqn:Em; [|done].
  destruct (decide (rid' = rid)) as [->|Hne].
  - case_bool_decide; [by rewrite lookup_delete_eq|]. rewrite lookup_insert_eq. congruence.
  - case_bool_decide; [by rewrite lookup_delete_ne|by rewrite lookup_insert_ne].
Qed.

(** Another input of the request is the same item. *)
Definition held rid h (ids : gset Z) : Prop := ∃ j, j ∈ ids ∧ input_is rid j h.

Lemma any_same_spec r h l :
  req_ok r → (∀ j, j ∈ l → ∃ h', input_is (request_id r) j h') →
  ∃ b, any_same (mm_features r) h l = Ok b ∧ (b = true ↔ ∃ j, j ∈ l ∧ input_is (request_id r) j h).
Proof.
  intros Hr. induction l as [|j l IH]; intros Hl; cbn [any_same].
  - exists false. split; [done|]. split; [done|]. intros (j & ?%elem_of_nil & _). done.
  - destruct (Hl j) as [h' Hj]; [by left|]. destruct (input_feature r j h' Hr Hj) as (f & -> & Hh & _). cbn.
    case_bool_decide as E.
    + exists true. split; [done|]. split; [|done]. intros _. exists j. split; [by left|]. by rewrite <-E, Hh.
    + destruct IH as (b & -> & Hb); [intros k Hk; apply Hl; by right|]. exists b. split; [done|].
      rewrite Hb. split; intros (k & Hk & Hin); [exists k; split; [by right|done]|].
      apply elem_of_cons in Hk as [->|Hk]; [|by exists k]. destruct E. rewrite Hh. by eapply input_is_fun.
Qed.

Section Release.
Context (set_order : gset Z → list Z) (Hord : ∀ X, set_order X ≡ₚ elements X).

Lemma elem_of_order X j : j ∈ set_order X ↔ j ∈ X.
Proof. rewrite Hord. apply elem_of_elements. Qed.

(** What releasing input [i] changes. *)
Record released rid i (s s' : ec) : Prop := {
  re_ids : request_cached_ids s' = drop_input rid i (request_cached_ids s);
  re_dom : dom (cached s') = dom (cached s);
  re_others : ∀ rid' h, rid' ≠ rid → rid' ∈ default ∅ (cached s' !! h) ↔ rid' ∈ default ∅ (cached s !! h);
  re_free : num_free_slots s' = num_free_slots s ∧ freed s' = freed s ∧ cache_size s' = cache_size s;
}.

(** The references after an input is dropped. *)
Lemma refs_drop (c c' : gmap string (gset string)) ids rid i h :
  (∀ rid h, rid ∈ default ∅ (c !! h) ↔ ∃ i, i ∈ default ∅ (ids !! rid) ∧ input_is rid i h) →
  input_is rid i h →
  (∀ rid' h', (rid' ≠ rid ∨ h' ≠ h) → rid' ∈ default ∅ (c' !! h') ↔ rid' ∈ default ∅ (c !! h')) →
  (rid ∈ default ∅ (c' !! h) ↔ held rid h (default ∅ (drop_input rid i ids !! rid))) →
  ∀ rid' h', rid' ∈ default ∅ (c' !! h') ↔
    ∃ j, j ∈ default ∅ (drop_input rid i ids !! rid') ∧ input_is rid' j h'.
Proof.
  intros Hr Hi Hsame Hh rid' h'.
  destruct (decide (rid' = rid ∧ h' = h)) as [[-> ->]|Hne]; [exact Hh|].
  rewrite Hsame by (destruct (decide (rid' = rid)); destruct (decide (h' = h)); tauto).
  rewrite Hr. setoid_rewrite drop_input_spec. split; [|naive_solver]. intros (j & Hj & Hin). exists j.
  split; [|done]. split; [done|]. intros [-> ->]. apply Hne. split; [done|]. by eapply input_is_fun.
Qed.

(** The state once [i] is forgotten; the entry of its item may lose the request. *)
Definition forgot (rid : string) (i : Z) (s : ec) (c : gmap string (gset string)) (k : Z) (q : list (string * Z)) : ec :=
  EC (cache_size s) (num_free_slots s) (num_freeable_slots s + k) c (drop_input rid i (request_cached_ids s)) q (freed s).

Lemma forgot_keep rid i h s :
  ec_inv s → input_is rid i h →
  held rid h (default ∅ (drop_input rid i (request_cached_ids s) !! rid)) ∨ default ∅ (cached s !! h) = ∅ →
  ec_inv (forgot rid i s (cached s) 0 (freeable s)) ∧ released rid i s (forgot rid i s (cached s) 0 (freeable s)).
Proof.
  intros Hs Hi Hk. split; [|by split]. split; unfold forgot; cbn; try apply Hs.
  - rewrite Z.add_0_r. apply Hs.
  - apply (refs_drop (cached s) (cached s) _ rid i h); [apply Hs|done|done|]. split.
    + intros Hin. destruct Hk as [?|Hk]; [done|]. rewrite Hk in Hin. set_solver.
    + intros (j & [Hj _]%drop_input_spec & Hin). apply (ei_refs _ Hs). by exists j.
  - intros rid' j [Hj _]%drop_input_spec. by apply (ei_ids _ Hs).
  - apply drop_input_some, Hs.
Qed.

Lemma forgot_last rid i h refs s :
  ec_inv s → input_is rid i h → 0 ≤ size h → cached s !! h = Some refs → refs ≠ ∅ →
  ¬ held rid h (default ∅ (drop_input rid i (request_cached_ids s) !! rid)) →
  let refs' := refs ∖ {[rid]} in
  let s' := forgot rid i s (<[h := refs']> (cached s)) (if bool_decide (refs' = ∅) then size h else 0)
    (freeable s ++ if bool_decide (refs' = ∅) then [(h, size h)] else []) in
  ec_inv s' ∧ released rid i s s'.
Proof.
  intros Hs Hi H0 Ec Hne Hnh refs' s'.
  assert (Hrel : ∀ rid' h', (rid' ≠ rid ∨ h' ≠ h) →
    rid' ∈ default ∅ (<[h := refs']> (cached s) !! h') ↔ rid' ∈ default ∅ (cached s !! h')).
  { intros rid' h' Hd. destruct (decide (h' = h)) as [->|]; [|by rewrite lookup_insert_ne].
    rewrite lookup_insert_eq, Ec. cbn. unfold refs'. set_solver. }
  assert (Hnf : h ∉ dkeys (freeable s)) by (rewrite <-(ei_unref _ Hs); congruence).
  split; [|split; [done| |intros rid' h' ?; apply Hrel; by left|done]].
  2: { cbn. rewrite dom_insert_L. apply elem_of_dom_2 in Ec. set_solver. }
  split; unfold s', forgot; cbn; try apply Hs.
  - rewrite (weight_insert_old size h _ refs) by done. apply Hs.
  - rewrite (ei_freeable _ Hs), slots_of_app. case_bool_decide; unfold slots_of; cbn; lia.
  - unfold dict_ok, dkeys. rewrite fmap_app. case_bool_decide; cbn; [|rewrite app_nil_r; apply Hs].
    apply NoDup_app. split; [apply Hs|]. split; [|apply NoDup_singleton]. intros h' Hin ->%list_elem_of_singleton. done.
  - intros h'. unfold dkeys. rewrite fmap_app, elem_of_app. fold (dkeys (freeable s)). rewrite <-(ei_unref _ Hs).
    destruct (decide (h' = h)) as [->|Hh]; [rewrite lookup_insert_eq, Ec|rewrite lookup_insert_ne by done].
    + case_bool_decide as E; cbn; [rewrite E, list_elem_of_singleton|rewrite elem_of_nil]; naive_solver congruence.
    + case_bool_decide; cbn; [rewrite list_elem_of_singleton|rewrite elem_of_nil]; tauto.
  - intros h' k [Hin|Hin]%elem_of_app; [by apply (ei_sizes _ Hs)|]. case_bool_decide; [|by apply elem_of_nil in Hin].
    apply list_elem_of_singleton in Hin. by injection Hin as -> ->.
  - apply (refs_drop (cached s) _ _ rid i h); [apply Hs|done|done|]. rewrite lookup_insert_eq. cbn. unfold refs'. set_solver.
  - intros rid' j [Hj _]%drop_input_spec. by apply (ei_ids _ Hs).
  - apply drop_input_some, Hs.
Qed.

Lemma free_input_run r i h s :
  ec_inv s → req_ok r → input_is (request_id r) i h →
  ∃ s', free_encoder_input set_order r i s = (Ok tt, s') ∧ ec_inv s' ∧ released (request_id r) i s s'.
Proof.
  intros Hs Hr Hi. destruct (input_feature r i h Hr Hi) as (f & Hf & Hh & Hn & H0).
  unfold free_encoder_input. unfold bind at 1, lift. rewrite Hf, Hh. run_step.
  fold (drop_input (request_id r) i (request_cached_ids s)).
  replace (EC _ _ _ _ _ _ _) with (forgot (request_id r) i s (cached s) 0 (freeable s)) by (unfold forgot; f_equal; lia).
  set (s0 := forgot _ _ _ _ _ _). run_step. change (cached s0) with (cached s).
  change (request_cached_ids s0) with (drop_input (request_id r) i (request_cached_ids s)).
  case_bool_decide as Hemp; [exists s0; split; [done|]; apply (forgot_keep _ _ h); auto|].
  destruct (any_same_spec r h (set_order (default ∅ (drop_input (request_id r) i (request_cached_ids s) !! request_id r))) Hr)
    as (b & Hb & Hbh).
  { intros j [Hj _]%elem_of_order%drop_input_spec. by apply (ei_ids _ Hs). }
  erewrite bind_ok by (unfold lift; by rewrite Hb). setoid_rewrite elem_of_order in Hbh.
  destruct b; [exists s0; split; [done|]; apply (forgot_keep _ _ h); auto; left; by apply Hbh|].
  destruct (cached s !! h) as [refs|] eqn:Ec; [|done]. cbn in Hemp. cbn [default].
  pose proof (forgot_last (request_id r) i h refs s Hs Hi H0 Ec Hemp) as Hl. cbv zeta in Hl.
  eexists. split; [|apply Hl; by intros ?%Hbh]. change (freeable s0) with (freeable s).
  run_step. cbn [default]. destruct (decide (refs ∖ {[request_id r]} = ∅)) as [E|E];
    [rewrite !(bool_decide_eq_true_2 _ E)|rewrite !(bool_decide_eq_false_2 _ E)].
  - unfold bind at 1, lift. rewrite Hn. unfold modify, forgot, s0. cbn -[dset]. rewrite dset_absent; [f_equal; f_equal; lia|].
    apply dget_None. rewrite <-(ei_unref _ Hs). congruence.
  - unfold ret, forgot, s0. cbn. by rewrite app_nil_r.
Qed.

(** Releasing the inputs of a list that pass a test. *)
Record released_list rid (l : list Z) (s s' : ec) : Prop := {
  rl_ids : ∀ rid' j, j ∈ default ∅ (request_cached_ids s' !! rid') ↔
             j ∈ default ∅ (request_cached_ids s !! rid') ∧ ¬ (rid' = rid ∧ j ∈ l);
  rl_dom : dom (cached s') = dom (cached s);
  rl_others : ∀ rid' h, rid' ≠ rid → rid' ∈ default ∅ (cached s' !! h) ↔ rid' ∈ default ∅ (cached s !! h);
  rl_free : num_free_slots s' = num_free_slots s ∧ freed s' = freed s ∧ cache_size s' = cache_size s;
}.

Lemma release_list_run r (p : Z → bool) (g : Z → M ec unit) l s :
  ec_inv s → req_ok r → (∀ j, j ∈ l → ∃ h, input_is (request_id r) j h) →
  (∀ j s, j ∈ l → g j s = (if p j then free_encoder_input set_order r j else ret tt) s) →
  ∃ s', mfor l g s = (Ok tt, s') ∧ ec_inv s' ∧ released_list (request_id r) (filter (λ j, p j = true) l) s s'.
Proof.
  intros Hs Hr. revert s Hs. induction l as [|j l IH]; intros s Hs Hl Hg.
  { exists s. split; [done|]. split; [done|]. split; try done. intros rid' k. rewrite filter_nil, elem_of_nil. tauto. }
  destruct (Hl j) as [h Hj]; [by left|].
  assert (∃ s1, g j s = (Ok tt, s1) ∧ ec_inv s1 ∧ released_list (request_id r) (filter (λ j, p j = true) [j]) s s1)
    as (s1 & Hrun & Hs1 & H1).
  { rewrite Hg by by left. rewrite filter_cons, filter_nil. destruct (p j).
    - destruct (free_input_run r j h s Hs Hr Hj) as (s1 & Hrun & Hs1 & [Ri Rd Ro Rf]). exists s1.
      split; [done|]. split; [done|]. split; try done. intros rid' k.
      rewrite Ri, drop_input_spec, decide_True, list_elem_of_singleton by done. done.
    - exists s. split; [done|]. split; [done|]. rewrite decide_False by done. split; try done.
      intros rid' k. rewrite elem_of_nil. tauto. }
  destruct (IH s1 Hs1) as (s2 & Hrun2 & Hs2 & H2); [intros k Hk; apply Hl; by right|intros k ? Hk; apply Hg; by right|].
  exists s2. split; [cbn [mfor]; by erewrite bind_ok by exact Hrun|]. split; [done|].
  destruct H1 as [A1 A2 A3 (A4 & A5 & A6)], H2 as [B1 B2 B3 (B4 & B5 & B6)]. split.
  - intros rid' k. rewrite B1, A1, !filter_cons, filter_nil. case_decide; rewrite ?list_elem_of_singleton, ?elem_of_cons, ?elem_of_nil; tauto.
  - congruence.
  - intros rid' h' Hne. rewrite B3, A3 by done. done.
  - split_and!; congruence.
Qed.

Lemma ec_free_run r s :
  ec_inv s → req_ok r →
  ∃ s', free set_order r s = (Ok tt, s') ∧ ec_inv s' ∧ request_cached_ids s' !! request_id r = None ∧
    (∀ h, request_id r ∉ default ∅ (cached s' !! h)) ∧
    released_list (request_id r) (set_order (get_cached_input_ids r s)) s s'.
Proof.
  intros Hs Hr. destruct (release_list_run r (λ _, true) (free_encoder_input set_order r) (set_order (get_cached_input_ids r s)) s)
    as (s' & Hrun & Hs' & Hl); try done.
  { intros j Hj%elem_of_order. by apply (ei_ids _ Hs). }
  rewrite filter_id in Hl by done.
  assert (∀ j, j ∉ default ∅ (request_cached_ids s' !! request_id r)) as Hno.
  { intros j [Hj Hn]%(rl_ids _ _ _ _ Hl). apply Hn. split; [done|]. by apply elem_of_order. }
  exists s'. unfold free. run_step. split_and!; try done.
  - destruct (request_cached_ids s' !! request_id r) as [X|] eqn:E; [|done]. destruct (ei_some _ Hs' (request_id r)).
    rewrite E. f_equal. cbn in Hno. apply set_eq. set_solver.
  - intros h (j & Hj & _)%(ei_refs _ Hs'). by apply (Hno j).
Qed.

(** ** All operations *)
Definition is_input (r : request) (i : Z) : Prop := req_ok r ∧ ∃ h, input_is (request_id r) i h.

(** The calls the scheduler makes; [allocate] is called for an item that is not
    cached and for which there is room. *)
Inductive ec_step (s : ec) : ec → Prop :=
  | st_check r i : is_input r i → ec_step s (check_and_update_cache r i s).2
  | st_can r i budget num : is_input r i → ec_step s (can_allocate r i budget num s).2
  | st_allocate r i h : req_ok r → input_is (request_id r) i h → cached s !! h = None → size h ≤ num_free_slots s →
      ec_step s (allocate r i s).2
  | st_free_input r i : is_input r i → ec_step s (free_encoder_input set_order r i s).2
  | st_free r : req_ok r → ec_step s (free set_order r s).2
  | st_freed : ec_step s (get_freed_mm_hashes s).2
  | st_reset : ec_step s (reset s).2.

Inductive ec_steps (s : ec) : ec → Prop :=
  | sts_refl : ec_steps s s
  | sts_step s1 s2 : ec_steps s s1 → ec_step s1 s2 → ec_steps s s2.

Lemma freed_inv s l : ec_inv s →
  ec_inv (EC (cache_size s) (num_free_slots s) (num_freeable_slots s) (cached s) (request_cached_ids s) (freeable s) l).
Proof. intros []. by split. Qed.

Lemma ec_step_inv s s' : ec_inv s → ec_step s s' → ec_inv s' ∧ cache_size s' = cache_size s.
Proof.
  intros Hs [r i [Hr [h Hi]]|r i budget num [Hr [h Hi]]|r i h Hr Hi Hc Hle|r i [Hr [h Hi]]|r Hr| |].
  - destruct (check_run r i h s Hs Hr Hi) as (s1 & -> & H1 & _ & _ & _ & _ & _ & ?). done.
  - destruct (can_allocate_run r i h budget num s Hs Hr Hi) as (pre & s1 & -> & H1 & [_ _ _ _ (_ & ? & _)] & _). done.
  - destruct (allocate_run r i h s Hs Hr Hi Hc Hle) as (s1 & -> & H1 & _ & _ & _ & ?). done.
  - destruct (free_input_run r i h s Hs Hr Hi) as (s1 & -> & H1 & [_ _ _ (_ & _ & ?)]). done.
  - destruct (ec_free_run r s Hs Hr) as (s1 & -> & H1 & _ & _ & [_ _ _ (_ & _ & ?)]). done.
  - split; [|done]. by apply freed_inv.
  - split; [|done]. apply (ec_init_inv (cache_size s)). rewrite <-(ei_free _ Hs).
    pose proof (ei_nonneg _ Hs). pose proof (weight_nonneg size (cached s)) as Hw. destruct Hsz as [H0 _].
    specialize (Hw (λ h _, H0 h)). lia.
Qed.

Lemma ec_steps_inv s s' : ec_inv s → ec_steps s s' → ec_inv s' ∧ cache_size s' = cache_size s.
Proof.
  intros Hs. induction 1 as [|s1 s2 _ [IH <-] Hst]; [done|]. by apply ec_step_inv.
Qed.
End Release.
End Invariant.

(** ** The properties of the manager *)

(** The encoder cache is consistent in every state the scheduler can bring it
    to.  The free slots are the cache size less the embeddings of all entries, the
    reclaimable slots the cache size less those of the referenced entries, and
    both lie between 0 and the cache size; an entry is in the eviction queue iff no
    request refers to it; and every input a request has recorded is cached under
    a reference of that request, so no eviction can take it away.  In such a state
    no call of the scheduler raises. *)
Theorem encoder_cache_consistent feats size set_order n s :
  sizes_ok feats size → (∀ X, set_order X ≡ₚ elements X) → 0 ≤ n →
  ec_steps feats size set_order (ec_init n) s →
  num_free_slots s = n - weight size (cached s) ∧
  num_freeable_slots s = n - weight size (filter (λ e, e.2 ≠ ∅) (cached s)) ∧
  0 ≤ num_free_slots s ≤ num_freeable_slots s ∧ num_freeable_slots s ≤ n ∧
  (∀ h, h ∈ dkeys (freeable s) ↔ cached s !! h = Some ∅) ∧
  (∀ rid i h, i ∈ default ∅ (request_cached_ids s !! rid) → input_is feats rid i h →
     rid ∈ default ∅ (cached s !! h)) ∧
  (∀ r i, is_input feats r i → is_ok (check_and_update_cache r i s).1 = true ∧
     (∀ budget num, is_ok (can_allocate r i budget num s).1 = true) ∧
     is_ok (free_encoder_input set_order r i s).1 = true ∧ is_ok (free set_order r s).1 = true).
Proof.
  intros Hsz Hord Hn Hst.
  destruct (ec_steps_inv feats size Hsz set_order Hord _ _ (ec_init_inv feats size n Hn) Hst) as [Hs Hc]. cbn in Hc.
  pose proof (ei_free _ _ _ Hs) as H1. pose proof (freeable_weight _ _ _ Hs) as H2. pose proof (slots_of_nonneg _ _ _ Hs) as H3.
  pose proof (ei_freeable _ _ _ Hs) as H4. pose proof (ei_nonneg _ _ _ Hs) as H5. rewrite Hc in H1, H2.
  pose proof (weight_nonneg size (filter (λ e, e.2 ≠ ∅) (cached s)) (λ h _, proj1 Hsz h)) as H6.
  split_and!; try lia.
  - intros h. symmetry. apply Hs.
  - intros rid i h Hi Hin. apply (ei_refs _ _ _ Hs). by exists i.
  - intros r i [Hr [h Hi]].
    destruct (check_run feats size Hsz r i h s Hs Hr Hi) as (? & -> & _).
    destruct (free_input_run feats size Hsz set_order Hord r i h s Hs Hr Hi) as (? & -> & _).
    destruct (ec_free_run feats size Hsz set_order Hord r s Hs Hr) as (? & -> & _). split_and!; try done.
    intros budget num. by destruct (can_allocate_run feats size Hsz r i h budget num s Hs Hr Hi) as (? & ? & -> & _).
Qed.

(** [can_allocate] evicts only what it must, oldest first.  In a consistent
    state it returns, and says yes exactly if the item is within the compute
    budget and, with what is already scheduled, within the reclaimable slots; then
    that many slots are free.  What it evicts is a prefix of the queue of
    unreferenced entries, the shortest one that makes enough room and nothing if
    the answer is no; the evicted hashes are recorded and no entry with a
    reference is touched. *)
Theorem can_allocate_evicts_oldest feats size r i h budget num s :
  sizes_ok feats size → ec_inv feats size s → req_ok feats r → input_is feats (request_id r) i h →
  ∃ yes pre s', can_allocate r i budget num s = (Ok yes, s') ∧ ec_inv feats size s' ∧
    (yes = true ↔ size h ≤ budget ∧ size h + num ≤ num_freeable_slots s) ∧
    (yes = true → size h + num ≤ num_free_slots s') ∧ (yes = false → s' = s) ∧
    freeable s = pre ++ freeable s' ∧ freed s' = freed s ++ dkeys pre ∧
    (∀ pre' x, pre = pre' ++ [x] → num_free_slots s + slots_of pre' < size h + num) ∧
    (∀ h' refs, cached s !! h' = Some refs → refs ≠ ∅ → cached s' !! h' = Some refs).
Proof.
  intros Hsz Hs Hr Hi. destruct (can_allocate_run feats size Hsz r i h budget num s Hs Hr Hi)
    as (pre & s' & Hrun & Hs' & [E1 E2 E3 E4 (E5 & E6 & E7)] & Hle & Hne & Hmin).
  do 3 eexists. split; [exact Hrun|]. split; [done|]. split; [by rewrite bool_decide_eq_true|].
  split; [rewrite bool_decide_eq_true; tauto|]. split.
  { rewrite bool_decide_eq_false. intros Hno. destruct pre as [|x pre]; [|by destruct Hno; apply Hne].
    destruct s, s'. unfold slots_of in E4. cbn in *. rewrite app_nil_r in E2. f_equal; try done; [lia|].
    apply map_eq. intros h'. by rewrite E3, decide_False by by apply not_elem_of_nil. }
  split_and!; try done. intros h' refs Hc Href. rewrite E3, decide_False; [done|].
  intros Hin. assert (h' ∈ dkeys (freeable s)) as Hin' by (rewrite E1; unfold dkeys in *; rewrite fmap_app, elem_of_app; by left).
  apply (ei_unref _ _ _ Hs) in Hin'. congruence.
Qed.

Lemma foldl_max_le v vs x : x ∈ v :: vs → x ≤ foldl Z.max v vs.
Proof.
  revert v x. induction vs as [|w vs IH]; intros v x Hx; cbn.
  - apply list_elem_of_singleton in Hx as ->. done.
  - apply elem_of_cons in Hx as [->|Hx]; [|apply elem_of_cons in Hx as [->|Hx]].
    + transitivity (Z.max v w); [lia|]. apply IH. by left.
    + transitivity (Z.max v w); [lia|]. apply IH. by left.
    + apply IH. by right.
Qed.

(** No item is too big to be scheduled.  With the budgets that
    [compute_mm_encoder_budget] derives, an item whose embeddings are within the
    maximum of its modality can be allocated, alone in a step, whenever no request
    refers to an entry: the cache can always be emptied far enough. *)
Theorem encoder_budget_fits_items feats size r i h s cfg toks compute cache m k :
  sizes_ok feats size → ec_inv feats size s → req_ok feats r → input_is feats (request_id r) i h →
  compute_mm_encoder_budget cfg toks = Ok (compute, cache) → (m, k) ∈ toks → size h ≤ k →
  cache_size s = cache → (∀ h refs, cached s !! h = Some refs → refs = ∅) →
  (can_allocate r i compute 0 s).1 = Ok true.
Proof.
  intros Hsz Hs Hr Hi Hb Hin Hk Hcs Hno.
  destruct (can_allocate_run feats size Hsz r i h compute 0 s Hs Hr Hi) as (pre & s' & -> & _). cbn. f_equal.
  apply bool_decide_eq_true.
  assert (k ≤ compute ∧ k ≤ cache) as [H1 H2].
  { unfold compute_mm_encoder_budget in Hb. unfold dvalues in Hb. pose proof (list_elem_of_fmap_2 snd _ _ Hin) as Hv. cbn in Hv.
    destruct (toks.*2) as [|v vs]; [by apply elem_of_nil in Hv|]. apply foldl_max_le in Hv. case_match; [done|].
    injection Hb as <- <-. lia. }
  pose proof (freeable_weight _ _ _ Hs) as Hf. replace (filter _ (cached s)) with (∅ : gmap string (gset string)) in Hf.
  - unfold weight in Hf. rewrite map_fold_empty in Hf. lia.
  - symmetry. apply map_empty. intros h'. apply map_lookup_filter_None. destruct (cached s !! h') as [x|] eqn:E; [|by left].
    right. intros y [= <-]. cbn. intros Hx. by apply Hx, (Hno h').
Qed.

(** *** Witnesses: request "a" has an image of two embeddings at positions 1 and 2,
    request "b" a masked one of two embeddings at positions 0 and 2. *)
Definition demo_feats (rid : string) : list feature :=
  if decide (rid = "a"%string) then [Feature "img" (Range 1 2 None)]
  else if decide (rid = "b"%string) then [Feature "pic" (Range 0 3 (Some [true; false; true]))]
  else [].
Definition demo_size (h : string) : Z :=
  if decide (h = "img"%string) then 2 else if decide (h = "pic"%string) then 2 else 0.
Definition demo_req (rid : string) (computed : Z) : request := Req rid (demo_feats rid) computed 0.
Definition demo_a : request := demo_req "a" 0.
Definition demo_b : request := demo_req "b" 0.

Lemma demo_sizes_ok : sizes_ok demo_feats demo_size.
Proof.
  split.
  - intros h. unfold demo_size. repeat case_decide; lia.
  - intros rid f. unfold demo_feats. repeat case_decide; [| |by intros ?%elem_of_nil].
    all: by intros ->%list_elem_of_singleton.
Qed.

Lemma demo_input_a : input_is demo_feats "a" 0 "img".
Proof. split; [lia|]. by eexists. Qed.
Lemma demo_input_b : input_is demo_feats "b" 0 "pic".
Proof. split; [lia|]. by eexists. Qed.

(** "a" has allocated its image in a cache of three slots and was released. *)
Definition demo_ec1 : ec := (allocate demo_a 0 (ec_init 3)).2.
Definition demo_ec2 : ec := (free elements demo_a demo_ec1).2.

Lemma demo_ec_steps : ec_steps demo_feats demo_size elements (ec_init 3) demo_ec2.
Proof.
  apply (sts_step _ _ _ _ demo_ec1); [|by apply st_free].
  apply (sts_step _ _ _ _ (ec_init 3)); [constructor|].
  by apply (st_allocate _ _ _ _ demo_a 0 "img"); [|apply demo_input_a| |].
Qed.

Lemma demo_ec2_inv : ec_inv demo_feats demo_size demo_ec2.
Proof.
  apply (ec_steps_inv demo_feats demo_size demo_sizes_ok elements (λ _, reflexivity _) (ec_init 3)); [by apply ec_init_inv|].
  exact demo_ec_steps.
Qed.

Lemma encoder_cache_consistent_witness :
  num_free_slots demo_ec2 = 1 ∧ num_freeable_slots demo_ec2 = 3 - weight demo_size (filter (λ e, e.2 ≠ ∅) (cached demo_ec2)).
Proof.
  destruct (encoder_cache_consistent demo_feats demo_size elements 3 demo_ec2 demo_sizes_ok (λ _, reflexivity _) ltac:(lia)
    demo_ec_steps) as (_ & Hf & _). split; [by vm_compute|exact Hf].
Defined.

Lemma can_allocate_evicts_oldest_witness :
  ∃ yes pre s', can_allocate demo_b 0 2 0 demo_ec2 = (Ok yes, s') ∧
    (yes = true ↔ demo_size "pic" ≤ 2 ∧ demo_size "pic" + 0 ≤ num_freeable_slots demo_ec2) ∧
    freeable demo_ec2 = pre ++ freeable s' ∧ freed s' = ["img"%string].
Proof.
  destruct (can_allocate_evicts_oldest demo_feats demo_size demo_b 0 "pic" 2 0 demo_ec2) as (yes & pre & s' & H1 & _ & H2 & _ & _ & H3 & _);
    [exact demo_sizes_ok|exact demo_ec2_inv|done|exact demo_input_b|].
  exists yes, pre, s'. split; [exact H1|]. split; [exact H2|]. split; [exact H3|].
  replace s' with (can_allocate demo_b 0 2 0 demo_ec2).2 by (by rewrite H1). by vm_compute.
Defined.

Lemma encoder_budget_fits_items_witness :
  compute_mm_encoder_budget (SConfig false 8 1 3) [("image"%string, 2)] = Ok (2, 3) ∧
  (can_allocate demo_b 0 2 0 demo_ec2).1 = Ok true.
Proof.
  split; [by vm_compute|].
  apply (encoder_budget_fits_items demo_feats demo_size demo_b 0 "pic" demo_ec2 (SConfig false 8 1 3) [("image"%string, 2)] 2 3
    "image" 2); [exact demo_sizes_ok|exact demo_ec2_inv|done|exact demo_input_b|by vm_compute|by left|by vm_compute|by vm_compute|].
  intros h refs Hh. assert (cached demo_ec2 = {["img"%string := ∅]}) as Hc by (by vm_compute).
  rewrite Hc in Hh. by apply lookup_singleton_Some in Hh as [_ <-].
Defined.
