(* ===== verification/EncoderSchedule.v ===== *)
(** * Scheduling encoder inputs

    What [_try_schedule_encoder_inputs] gives a step, the mirror of the manager in
    the model runner's encoder cache, and what the encoder-decoder manager makes of
    its slots.  The runner's part is
    [_process_encoder_cache_scheduler_output] and [_cache_encoder_output] of
    vllm/v1/worker/gpu_model_runner.py; the encoder itself is a parameter. *)

From S2P Require Import Prelude PyData EncoderCache EncoderCacheSpec.
From stdpp Require Import base gmap sets list strings sorting.
From Stdlib Require Import ZArith Lia.
Open Scope Z_scope.

(** ** Binary search *)

(** The keys do not decrease. *)
Definition keys_sorted {A} (key : A → Z) (l : list A) : Prop :=
  ∀ i j a b, (i ≤ j)%nat → l !! i = Some a → l !! j = Some b → key a ≤ key b.

Lemma bisect_left_spec {A} (key : A → Z) x l fuel lo hi :
  keys_sorted key l → (hi - lo < fuel)%nat → (lo ≤ hi ≤ length l)%nat →
  (∀ j a, (j < lo)%nat → l !! j = Some a → key a < x) → (∀ j a, (hi ≤ j)%nat → l !! j = Some a → x ≤ key a) →
  let k := bisect_left fuel key x l lo hi in
  (∀ j a, (j < k)%nat → l !! j = Some a → key a < x) ∧ (∀ j a, (k ≤ j)%nat → l !! j = Some a → x ≤ key a).
Proof.
  intros Hs. revert lo hi. induction fuel as [|fuel IH]; intros lo hi Hf Hle Hlo Hhi; [lia|]. cbn [bisect_left].
  destruct (lo <? hi)%nat eqn:El; [apply Nat.ltb_lt in El|apply Nat.ltb_ge in El].
  2: { split; [done|]. intros j a Hj. apply Hhi. lia. }
  set (mid := ((lo + hi) / 2)%nat).
  assert (lo ≤ mid < hi)%nat as Hmid.
  { unfold mid. pose proof (Nat.div_mod (lo + hi) 2). pose proof (Nat.mod_upper_bound (lo + hi) 2). lia. }
  clearbody mid. destruct (lookup_lt_is_Some_2 l mid) as [a Ha]; [lia|]. rewrite Ha.
  destruct (key a <? x) eqn:Ex; [apply Z.ltb_lt in Ex|apply Z.ltb_ge in Ex].
  - apply IH; [lia|lia| |done]. intros j b Hj Hb. pose proof (Hs j mid b a ltac:(lia) Hb Ha). lia.
  - apply IH; [lia|lia|done|]. intros j b Hj Hb. pose proof (Hs mid j a b Hj Ha Hb). lia.
Qed.

Lemma bisect_left_le {A} (key : A → Z) x l fuel lo hi :
  (lo ≤ hi)%nat → (bisect_left fuel key x l lo hi ≤ hi)%nat.
Proof.
  revert lo hi. induction fuel as [|fuel IH]; intros lo hi Hle; cbn [bisect_left]; [done|].
  destruct (lo <? hi)%nat eqn:El; [apply Nat.ltb_lt in El|done].
  assert (lo ≤ (lo + hi) / 2 < hi)%nat as Hmid.
  { pose proof (Nat.div_mod (lo + hi) 2). pose proof (Nat.mod_upper_bound (lo + hi) 2). lia. }
  destruct (l !! _); [|done]. destruct (_ <? _); [apply IH; lia|]. etransitivity; [apply IH|]; lia.
Qed.

(** ** Embeddings of a placeholder *)

(** Position [p] of the placeholder takes an embedding. *)
Definition embeds_at (p : PlaceholderRange) (k : Z) : Prop :=
  0 ≤ k < p_length p ∧ match is_embed p with None => True | Some m => m !! Z.to_nat k = Some true end.

Definition range_ok (p : PlaceholderRange) : Prop :=
  0 ≤ p_length p ∧ match is_embed p with None => True | Some m => zlen m = p_length p end.

Definition count (l : list bool) : Z := foldr (λ b : bool, Z.add (if b then 1 else 0)) 0 l.

Lemma cumsum_lookup acc l (k : nat) :
  (k < length l)%nat → cumsum acc l !! k = Some (acc + count (take (S k) l)).
Proof.
  revert acc k. induction l as [|b l IH]; intros acc k Hk; cbn [cumsum length] in *; [lia|].
  destruct k as [|k]; [unfold count; destruct b; cbn; rewrite take_0; f_equal; cbn; lia|]. cbn [lookup list_lookup]. rewrite IH by lia.
  f_equal. unfold count. cbn [take foldr]. lia.
Qed.

Lemma count_app l l' : count (l ++ l') = count l + count l'.
Proof. unfold count. induction l as [|b l IH]; cbn; [done|]. cbn in IH. lia. Qed.

Lemma count_nonneg l : 0 ≤ count l.
Proof. unfold count. induction l as [|[] l IH]; cbn in *; lia. Qed.

(** Between two bounds the mask counts the embeddings, so an embedding between
    them makes the range nonempty. *)
Lemma embeds_range_spec p a b :
  range_ok p → 0 ≤ a ≤ b → b ≤ p_length p →
  ∃ x y, get_embeds_indices_in_range p a b = Ok (x, y) ∧
    ((∃ k, a ≤ k < b ∧ embeds_at p k) → y - x ≠ 0).
Proof.
  intros [Hl Hm] Hab Hb. unfold get_embeds_indices_in_range, embeds_cumsum, embeds_at.
  destruct (is_embed p) as [m|] eqn:Em; cbn [fmap option_fmap option_map].
  2: { exists a, b. split; [done|]. intros (k & Hk & _). lia. }
  assert (∀ c, 0 ≤ c ≤ p_length p →
    (if 0 <? c then py_index (cumsum 0 m) (c - 1) else Ok 0) = Ok (count (take (Z.to_nat c) m))) as Hget.
  { intros c Hc. destruct (0 <? c) eqn:E; [apply Z.ltb_lt in E|apply Z.ltb_ge in E].
    - unfold py_index. rewrite (proj2 (Z.ltb_ge (c - 1) 0)) by lia. rewrite (proj2 (Z.ltb_ge (c - 1) 0)) by lia.
      rewrite cumsum_lookup by (unfold zlen in Hm; lia). rewrite Z.add_0_l. do 3 f_equal. lia.
    - replace c with 0 by lia. done. }
  rewrite Hget by lia. cbn [result_bind]. rewrite Hget by lia. cbn [result_bind]. do 2 eexists. split; [done|].
  intros (k & Hk & _ & Hkm).
  assert (Hsplit : take (Z.to_nat b) m = take (Z.to_nat a) m ++ take (Z.to_nat b - Z.to_nat a) (drop (Z.to_nat a) m)).
  { rewrite take_take_drop. f_equal. lia. }
  rewrite Hsplit, count_app.
  assert (Hk' : take (Z.to_nat b - Z.to_nat a) (drop (Z.to_nat a) m) !! (Z.to_nat k - Z.to_nat a)%nat = Some true).
  { rewrite lookup_take, lookup_drop by lia. rewrite <-Hkm. rewrite decide_True by lia. f_equal. lia. }
  apply list_elem_of_split_length in Hk' as (l1 & l2 & -> & _). rewrite count_app.
  pose proof (count_nonneg l1). pose proof (count_nonneg l2). unfold count in *. cbn. lia.
Qed.

(** ** Evictions and references *)
Lemma evicted_keeps feats size pre s s' h rid :
  ec_inv feats size s → evicted pre s s' → rid ∈ default ∅ (cached s !! h) → rid ∈ default ∅ (cached s' !! h).
Proof.
  intros Hs Hev Hin. rewrite (ev_cached _ _ _ Hev), decide_False; [done|]. intros Hp.
  assert (h ∈ dkeys (freeable s)) as Hk.
  { rewrite (ev_queue _ _ _ Hev). unfold dkeys in *. rewrite fmap_app, elem_of_app. by left. }
  apply (ei_unref _ _ _ Hs) in Hk. rewrite Hk in Hin. set_solver.
Qed.

Lemma evicted_none pre s s' h : evicted pre s s' → cached s !! h = None → cached s' !! h = None.
Proof. intros Hev Hn. rewrite (ev_cached _ _ _ Hev), Hn. by destruct (decide _). Qed.

Lemma evicted_more_free feats size pre s s' :
  ec_inv feats size s → evicted pre s s' → num_free_slots s ≤ num_free_slots s'.
Proof.
  intros Hs Hev. rewrite (ev_free _ _ _ Hev). unfold slots_of.
  assert (∀ x, x ∈ pre.*2 → 0 ≤ x) as Hpos.
  { intros x ([h k] & -> & Hx)%list_elem_of_fmap. apply (ei_sizes _ _ _ Hs h). rewrite (ev_queue _ _ _ Hev).
    by apply elem_of_app; left. }
  enough (0 ≤ foldr Z.add 0 pre.*2) by lia. clear -Hpos. induction (pre.*2) as [|x l IH]; cbn; [lia|].
  assert (0 ≤ foldr Z.add 0 l) by (apply IH; intros y Hy; apply Hpos; by right). specialize (Hpos x ltac:(by left)). lia.
Qed.

(** ** The loop *)

(** Placeholders are sorted and do not overlap. *)
Record feats_ok (l : list feature) : Prop := {
  fk_offset : keys_sorted (λ f, offset (mm_position f)) l;
  fk_end : keys_sorted (λ f, offset (mm_position f) + p_length (mm_position f)) l;
  fk_range : ∀ f, f ∈ l → range_ok (mm_position f);
}.

Section Try.
Context (feats : string → list feature) (size : string → Z) (Hsz : sizes_ok feats size).
Context (r : request) (Hr : req_ok feats r) (Hfs : feats_ok (mm_features r)).
Context (has_cache_item : option (string → bool)) (no_chunking : bool).
Context (computed new shift budget : Z) (Hnew : 0 < new) (Hshift : 0 ≤ shift).
Notation rid := (request_id r).
Notation window_end := (computed + new + shift).

Definition hash_of (j : Z) : string := default "" (identifier <$> mm_features r !! Z.to_nat j).
Definition booked_items (a : locals) : list Z := encoder_inputs_to_schedule a ++ external_load_encoder_input a.
Definition sizes (l : list Z) : Z := foldr Z.add 0 (size ∘ hash_of <$> l).

(** Token [p] of the request is an embedding of feature [j]. *)
Definition takes_embedding (j p : Z) : Prop :=
  ∃ f, 0 ≤ j ∧ mm_features r !! Z.to_nat j = Some f ∧ embeds_at (mm_position f) (p - offset (mm_position f)).

(** The item is referenced by the request or about to be allocated. *)
Definition covered (a : locals) (s : ec) (j : Z) : Prop :=
  hash_of j ∈ mm_hashes_to_schedule a ∨ rid ∈ default ∅ (cached s !! hash_of j).

Record booked (a : locals) (s : ec) : Prop := {
  bk_inv : ec_inv feats size s;
  bk_valid : ∀ j, j ∈ booked_items a → 0 ≤ j < zlen (mm_features r);
  bk_nodup : NoDup (hash_of <$> booked_items a);
  bk_hashes : mm_hashes_to_schedule a = list_to_set (hash_of <$> booked_items a);
  bk_new : ∀ h, h ∈ mm_hashes_to_schedule a → cached s !! h = None;
  bk_embeds : num_embeds_to_schedule a = sizes (booked_items a) ∧ num_embeds_to_schedule a ≤ num_free_slots s;
  bk_budget : compute_budget a = budget - sizes (encoder_inputs_to_schedule a) ∧ 0 ≤ compute_budget a;
}.

Lemma sizes_app l l' : sizes (l ++ l') = sizes l + sizes l'.
Proof. unfold sizes. rewrite fmap_app. induction (size ∘ hash_of <$> l); cbn; lia. Qed.

Lemma sizes_perm l l' : l ≡ₚ l' → sizes l = sizes l'.
Proof. unfold sizes. induction 1; cbn; lia. Qed.

Lemma valid_input j : 0 ≤ j < zlen (mm_features r) → input_is feats rid j (hash_of j).
Proof.
  intros Hj. split; [lia|]. rewrite <-Hr. unfold hash_of.
  destruct (lookup_lt_is_Some_2 (mm_features r) (Z.to_nat j)) as [f Hf]; [unfold zlen in Hj; lia|].
  exists f. by rewrite Hf.
Qed.

(** Booking one more item, to encode or to load. *)
Lemma booked_add a s s' i (load : bool) :
  booked a s → ec_inv feats size s' → 0 ≤ i < zlen (mm_features r) →
  hash_of i ∉ mm_hashes_to_schedule a → cached s' !! hash_of i = None →
  (∀ h, cached s !! h = None → cached s' !! h = None) →
  size (hash_of i) ≤ compute_budget a → size (hash_of i) + num_embeds_to_schedule a ≤ num_free_slots s' →
  booked (Locals (num_new_tokens a) (if load then compute_budget a else compute_budget a - size (hash_of i))
            (if load then encoder_inputs_to_schedule a else encoder_inputs_to_schedule a ++ [i])
            (if load then external_load_encoder_input a ++ [i] else external_load_encoder_input a)
            ({[hash_of i]} ∪ mm_hashes_to_schedule a) (num_embeds_to_schedule a + size (hash_of i))) s'.
Proof.
  intros [H1 H2 H3 H4 H5 [H6 H7] [H8 H9]] Hinv Hi Hnot Hn Hmono Hb Hle. set (a' := Locals _ _ _ _ _ _).
  assert (booked_items a' ≡ₚ i :: booked_items a) as Hp by (unfold booked_items, a'; destruct load; cbn; solve_Permutation).
  assert (sizes [i] = size (hash_of i)) as Hone by (unfold sizes; cbn; lia).
  split; try done.
  - intros j. rewrite Hp, elem_of_cons. intros [->|Hj]; [done|by apply H2].
  - rewrite Hp. cbn. apply NoDup_cons. split; [|done]. rewrite H4, elem_of_list_to_set in Hnot. done.
  - unfold a'. cbn. rewrite (list_to_set_perm_L _ (hash_of <$> i :: booked_items a)) by by apply fmap_Permutation.
    cbn. by rewrite H4.
  - unfold a'. cbn. intros h [->%elem_of_singleton|Hh]%elem_of_union; [done|by apply Hmono, H5].
  - rewrite (sizes_perm _ _ Hp). change (i :: booked_items a) with ([i] ++ booked_items a). rewrite sizes_app. cbn. lia.
  - unfold a'. destruct load; cbn [compute_budget encoder_inputs_to_schedule]; [done|]. rewrite sizes_app. lia.
Qed.

(** The state may move as long as items stay uncached and slots stay free. *)
Lemma booked_mono a s s' :
  booked a s → ec_inv feats size s' → (∀ h, cached s !! h = None → cached s' !! h = None) →
  num_free_slots s ≤ num_free_slots s' → booked a s'.
Proof. intros [H1 H2 H3 H4 H5 [H6 H7] H8] Hinv Hmono Hle. split; try done; [auto|lia]. Qed.

(** What one turn does: it goes on with the item covered, or it stops before the
    item's placeholder. *)
Definition turn_ok (i : Z) (f : feature) (a a' : locals) (s s' : ec) (go : bool) : Prop :=
  booked a' s' ∧ (∀ j, covered a s j → covered a' s' j) ∧
  if go then num_new_tokens a' = new ∧ ((∃ p, computed ≤ p < window_end ∧ takes_embedding i p) → covered a' s' i)
  else 0 ≤ num_new_tokens a' ≤ new ∧ (num_new_tokens a' = 0 ∨ computed + num_new_tokens a' ≤ offset (mm_position f)).

Section Turn.
Context i f a s (Hb : booked a s) (Hi : 0 ≤ i) (Hf : mm_features r !! Z.to_nat i = Some f).
Context (Hn : num_new_tokens a = new).
Context (Hlo : computed < offset (mm_position f) + p_length (mm_position f)) (Hhi : offset (mm_position f) < window_end).

Lemma turn_valid : 0 ≤ i < zlen (mm_features r) ∧ hash_of i = identifier f ∧
  py_index (mm_features r) i = Ok f ∧ get_num_embeds (mm_position f) = size (hash_of i).
Proof.
  pose proof (lookup_lt_Some _ _ _ Hf) as Hl. assert (hash_of i = identifier f) as Hh by (unfold hash_of; by rewrite Hf).
  assert (0 ≤ i < zlen (mm_features r)) as Hv by (unfold zlen; lia). split_and!; try done; try lia.
  - unfold py_index. rewrite (proj2 (Z.ltb_ge i 0)) by lia. rewrite (proj2 (Z.ltb_ge i 0)) by lia. by rewrite Hf.
  - rewrite Hh. apply (proj2 Hsz rid). rewrite <-Hr. apply list_elem_of_lookup. by exists (Z.to_nat i).
Qed.

(** The turn stops: the tokens end before the placeholder. *)
Lemma turn_stop s' n :
  booked a s' → (∀ j, covered a s j → covered a s' j) →
  n = 0 ∨ (0 ≤ n ∧ n = offset (mm_position f) - (computed + shift)) →
  turn_ok i f a (Locals n (compute_budget a) (encoder_inputs_to_schedule a) (external_load_encoder_input a)
                  (mm_hashes_to_schedule a) (num_embeds_to_schedule a)) s s' false.
Proof.
  intros [] Hc Hcase. split; [by split|]. split; [done|]. cbn. lia.
Qed.

(** The range of the item in the window, and the item booked if it is nonempty. *)
Lemma turn_alloc s1 s2 :
  booked a s1 → ec_inv feats size s2 → (∀ j, covered a s j → covered a s2 j) →
  (∀ h, cached s1 !! h = None → cached s2 !! h = None) → num_free_slots s1 ≤ num_free_slots s2 →
  hash_of i ∉ mm_hashes_to_schedule a → cached s1 !! hash_of i = None →
  size (hash_of i) ≤ compute_budget a → size (hash_of i) + num_embeds_to_schedule a ≤ num_free_slots s2 →
  ∃ x y, get_embeds_indices_in_range (mm_position f) (Z.max 0 (computed - offset (mm_position f)))
           (Z.min (p_length (mm_position f)) (window_end - offset (mm_position f))) = Ok (x, y) ∧
    (y - x = 0 → turn_ok i f a a s s2 true) ∧
    ∀ load : bool, turn_ok i f a
      (Locals (num_new_tokens a) (if load then compute_budget a else compute_budget a - size (hash_of i))
        (if load then encoder_inputs_to_schedule a else encoder_inputs_to_schedule a ++ [i])
        (if load then external_load_encoder_input a ++ [i] else external_load_encoder_input a)
        ({[hash_of i]} ∪ mm_hashes_to_schedule a) (num_embeds_to_schedule a + size (hash_of i))) s s2 true.
Proof.
  intros Hb1 Hinv Hcov Hmono Hfree Hnot Hnone Hbud Hroom. destruct turn_valid as (Hv & Hh & _).
  assert (range_ok (mm_position f)) as Hro by (apply (fk_range _ Hfs), list_elem_of_lookup; by exists (Z.to_nat i)).
  destruct (embeds_range_spec (mm_position f) (Z.max 0 (computed - offset (mm_position f)))
    (Z.min (p_length (mm_position f)) (window_end - offset (mm_position f))) Hro) as (x & y & Hg & Hex);
    [destruct Hro; lia|lia|].
  exists x, y. split; [done|]. split.
  - intros Hxy. split; [by apply (booked_mono a s1)|]. split; [done|]. split; [done|].
    intros (p & Hp & f' & _ & Hf' & He). rewrite Hf in Hf'. injection Hf' as <-. destruct Hex; [|done].
    exists (p - offset (mm_position f)). split; [|done]. destruct He as [He _]. lia.
  - intros load. split; [by apply (booked_add a s1); auto|]. split; [|split; [done|]].
    + intros j Hj. destruct (Hcov j Hj) as [Hin|Hin]; [|by right]. left. cbn. by apply elem_of_union_r.
    + intros _. left. cbn. set_solver.
Qed.

Lemma input_step_run :
  ∃ a' go s', encoder_input_step has_cache_item no_chunking r computed window_end shift i a s = (Ok (a', go), s') ∧
    turn_ok i f a a' s s' go.
Proof.
  destruct turn_valid as (Hv & Hh & Hp & Hg). pose proof (valid_input i Hv) as Hin.
  unfold encoder_input_step. unfold bind at 1, lift at 1. rewrite Hp. cbv zeta. rewrite <-Hh. cbn [em_encoder_decoder ec_manager andb].
  case_bool_decide as Hbook.
  { unfold bind, ret. exists a, true, s. split; [done|]. split; [done|]. split; [done|]. split; [done|]. intros _. by left. }
  destruct (check_run feats size Hsz r i (hash_of i) s (bk_inv _ _ Hb) Hr Hin)
    as (s1 & Hrun & Hs1 & Hfree1 & Hdom & _ & Hme & Hkeep & _).
  assert (Hnone : ∀ h, cached s1 !! h = None ↔ cached s !! h = None).
  { intros h. rewrite <-!not_elem_of_dom, Hdom. done. }
  assert (Hb1 : booked a s1) by (apply (booked_mono a s); [done|done|intros h; apply Hnone|lia]).
  assert (Hc1 : ∀ j, covered a s j → covered a s1 j) by (intros j [?|?]; [by left|right; auto]).
  unfold bind at 1. change (em_check r i s) with (check_and_update_cache r i s). rewrite Hrun.
  case_bool_decide as Hc.
  { exists a, true, s1. split; [done|]. split; [done|]. split; [done|]. split; [done|]. intros _. right. by apply Hme. }
  assert (cached s !! hash_of i = None) as Hnn by (by apply eq_None_not_Some).
  destruct (no_chunking && _ && _) eqn:Echunk.
  { do 3 eexists. split; [done|]. apply turn_stop; try done. lia. }
  destruct (can_allocate_run feats size Hsz r i (hash_of i) (compute_budget a) (num_embeds_to_schedule a) s1 Hs1 Hr Hin)
    as (pre & s2 & Hrun2 & Hs2 & Hev & Hroom & _).
  assert (Hc2 : ∀ j, covered a s j → covered a s2 j).
  { intros j Hj. destruct (Hc1 j Hj) as [?|?]; [by left|right]. by apply (evicted_keeps feats size pre s1 s2). }
  pose proof (evicted_more_free feats size pre s1 s2 Hs1 Hev) as Hfree2.
  unfold bind at 1. change (em_can_allocate r i) with (can_allocate r i). rewrite Hrun2.
  case_bool_decide as Hyes; cbn [negb].
  2: { do 3 eexists. split; [done|]. apply turn_stop; try done.
       - apply (booked_mono a s1); [done|done| |done]. intros h. by eapply evicted_none.
       - destruct (Z.ltb_spec (computed + shift) (offset (mm_position f))); [right; lia|by left]. }
  destruct (turn_alloc s1 s2) as (x & y & -> & Hempty & Hadd);
    [done|done|done|intros h; by apply (evicted_none pre)|done|done|by apply Hnone|tauto|apply Hroom; tauto|].
  unfold bind at 1, lift. cbn [fst snd]. destruct (y - x =? 0) eqn:Exy.
  { do 3 eexists. split; [done|]. apply Hempty. lia. }
  rewrite Hg. destruct (match has_cache_item with Some h => h (hash_of i) | None => false end).
  - do 3 eexists. split; [done|]. exact (Hadd true).
  - do 3 eexists. split; [done|]. exact (Hadd false).
Qed.
End Turn.

(** The inputs of the list lie in the window. *)
Definition in_window (j : Z) : Prop :=
  0 ≤ j ∧ ∃ f, mm_features r !! Z.to_nat j = Some f ∧
    computed < offset (mm_position f) + p_length (mm_position f) ∧ offset (mm_position f) < window_end.

(** The tokens are cut off before a placeholder, if at all. *)
Definition cut_off (n : Z) : Prop :=
  n = new ∨ n = 0 ∨ ∃ f, f ∈ mm_features r ∧ computed + n ≤ offset (mm_position f).

Lemma input_loop_run l a s :
  booked a s → num_new_tokens a = new → StronglySorted Z.lt l → (∀ j, j ∈ l → in_window j) →
  ∃ a' s', encoder_input_loop has_cache_item no_chunking r computed window_end shift l a s = (Ok a', s') ∧
    booked a' s' ∧ (∀ j, covered a s j → covered a' s' j) ∧ 0 ≤ num_new_tokens a' ≤ new ∧ cut_off (num_new_tokens a') ∧
    ∀ j p, j ∈ l → computed ≤ p < computed + num_new_tokens a' → takes_embedding j p → covered a' s' j.
Proof.
  revert a s. induction l as [|i l IH]; intros a s Hb Hn Hs Hl; cbn [encoder_input_loop].
  { exists a, s. split_and!; try done; try lia; [by left|]. by intros j p ?%elem_of_nil. }
  destruct (Hl i) as (Hi & f & Hf & Hlo & Hhi); [by left|]. apply StronglySorted_inv in Hs as [Hs Hlt].
  destruct (input_step_run i f a s Hb Hi Hf Hn Hlo Hhi) as (a1 & go & s1 & Hrun & Hb1 & Hc1 & Hgo).
  erewrite bind_ok by exact Hrun. cbn [fst snd]. destruct go.
  - destruct Hgo as [Hn1 Hcov]. destruct (IH a1 s1 Hb1 Hn1 Hs) as (a2 & s2 & -> & Hb2 & Hc2 & Hn2 & Hcut & Hall).
    { intros j Hj. apply Hl. by right. }
    exists a2, s2. split; [done|]. split; [done|]. split; [auto|]. split; [done|]. split; [done|].
    intros j p Hj Hp Hr'. apply elem_of_cons in Hj as [->|Hj]; [|by apply (Hall j p)].
    apply Hc2, Hcov. exists p. split; [lia|done].
  - exists a1, s1. split; [done|]. split; [done|]. split; [done|]. destruct Hgo as [Hn1 Hstop]. split; [done|].
    split; [destruct Hstop; [by right; left|right; right; exists f; split; [by eapply list_elem_of_lookup_2|done]]|].
    intros j p Hj Hp (f' & Hj0 & Hf' & [Hpos _] & _). exfalso. destruct Hstop as [Hstop|Hstop]; [lia|].
    assert (i ≤ j) as Hij by (apply elem_of_cons in Hj as [->|Hj]; [lia|]; rewrite Forall_forall in Hlt; specialize (Hlt j Hj); lia).
    pose proof (fk_offset _ Hfs (Z.to_nat i) (Z.to_nat j) f f' ltac:(lia) Hf Hf'). cbn in *. lia.
Qed.

(** ** Allocation after the loop *)
Lemma allocate_list_run l s :
  ec_inv feats size s → (∀ j, j ∈ l → 0 ≤ j < zlen (mm_features r)) → NoDup (hash_of <$> l) →
  (∀ j, j ∈ l → cached s !! hash_of j = None) → sizes l ≤ num_free_slots s →
  ∃ s', mfor l (allocate r) s = (Ok tt, s') ∧ ec_inv feats size s' ∧
    num_free_slots s' = num_free_slots s - sizes l ∧ freed s' = freed s ∧
    ∀ h, cached s' !! h = if decide (h ∈ hash_of <$> l) then Some {[rid]} else cached s !! h.
Proof.
  revert s. induction l as [|j l IH]; intros s Hs Hv Hnd Hnone Hle.
  { exists s. split; [done|]. split; [done|]. unfold sizes. cbn. split; [lia|]. split; [done|].
    intros h. by rewrite decide_False by apply not_elem_of_nil. }
  rewrite fmap_cons in Hnd. apply NoDup_cons in Hnd as [Hn Hnd].
  assert (sizes (j :: l) = size (hash_of j) + sizes l) as Hsum by done. rewrite Hsum in Hle |- *.
  assert (0 ≤ sizes l) as Hpos.
  { clear -Hsz. unfold sizes. induction l as [|k l IH]; cbn; [done|]. pose proof (proj1 Hsz (hash_of k)). lia. }
  destruct (allocate_run feats size Hsz r j (hash_of j) s Hs Hr) as (s1 & Hrun & Hs1 & Hf1 & Hc1 & Hfr1 & _);
    [by apply valid_input, Hv; left|by apply Hnone; left|lia|].
  destruct (IH s1 Hs1) as (s2 & Hrun2 & Hs2 & Hf2 & Hfr2 & Hc2); [by intros k Hk; apply Hv; right|done| |lia|].
  { intros k Hk. rewrite Hc1, lookup_insert_ne; [by apply Hnone; right|]. intros Heq. apply Hn. rewrite Heq.
    by apply list_elem_of_fmap_2. }
  exists s2. cbn [mfor]. erewrite bind_ok by exact Hrun. split; [done|]. split; [done|]. split; [lia|].
  split; [congruence|]. intros h. rewrite Hc2, Hc1, fmap_cons. destruct (decide (h = hash_of j)) as [->|Hne].
  - rewrite decide_False by done. rewrite lookup_insert_eq, decide_True by by left. done.
  - rewrite lookup_insert_ne by done. destruct (decide (h ∈ hash_of <$> l)) as [Hin|Hin].
    + rewrite decide_True by by right. done.
    + rewrite decide_False; [done|]. by intros [?|?]%elem_of_cons.
Qed.

Lemma allocate_booked a s :
  booked a s →
  ∃ s', allocate_inputs r (encoder_inputs_to_schedule a) (external_load_encoder_input a) s = (Ok tt, s') ∧
    ec_inv feats size s' ∧ ∀ j, covered a s j → rid ∈ default ∅ (cached s' !! hash_of j).
Proof.
  intros [H1 H2 H3 H4 H5 [H6 H7] H8].
  assert (Happ : ∀ (l l' : list Z) (g : Z → M ec unit) s, mfor (l ++ l') g s = (mfor l g >> mfor l' g) s).
  { clear. intros l l' g. induction l as [|x l IH]; intros s; [done|]. cbn. unfold bind. destruct (g x s) as [[[]|e] s1]; [|done].
    apply IH. }
  destruct (allocate_list_run (booked_items a) s) as (s' & Hrun & Hs' & _ & _ & Hc); try done.
  { intros j Hj. apply H5. rewrite H4. apply elem_of_list_to_set. by apply list_elem_of_fmap_2. }
  { lia. }
  exists s'. unfold booked_items in Hrun. rewrite Happ in Hrun. split; [exact Hrun|]. split; [done|].
  intros j Hj. rewrite Hc. destruct (decide _) as [Hin|Hin]; [by apply elem_of_singleton|].
  destruct Hj as [Hj|Hj]; [|done]. rewrite H4, elem_of_list_to_set in Hj. done.
Qed.
End Try.

(** ** The property of the loop *)

Lemma window_spec l start stop j f :
  feats_ok l → l !! j = Some f →
  let '(lo, hi) := get_mm_features_in_window l start stop in
  (lo ≤ Z.of_nat j ↔ start < offset (mm_position f) + p_length (mm_position f)) ∧
  (Z.of_nat j < hi ↔ offset (mm_position f) < stop).
Proof.
  intros [Ho He _] Hj. unfold get_mm_features_in_window. pose proof (lookup_lt_Some _ _ _ Hj) as Hlt.
  assert (Hgen : ∀ key x, keys_sorted key l →
    let k := bisect_left (S (length l)) key x l 0 (length l) in
    ((k ≤ j)%nat ↔ x ≤ key f) ∧ ((j < k)%nat ↔ key f < x)).
  { intros key x Hs k. destruct (bisect_left_spec key x l (S (length l)) 0 (length l) Hs) as [H1 H2];
      [lia|lia|intros; lia|intros ? ? ? ?%lookup_lt_Some; lia|]. fold k in H1, H2.
    clearbody k. destruct (Nat.lt_ge_cases j k) as [Hk|Hk]; [specialize (H1 j f Hk Hj); clear H2|specialize (H2 j f Hk Hj); clear H1]; lia. }
  destruct (Hgen _ (start + 1) He) as [H1 _]. destruct (Hgen _ stop Ho) as [_ H2].
  cbv beta in H1, H2. split; lia.
Qed.

(** The whole planning step: what is booked and what is covered. *)
Lemma try_schedule_run feats size r has_cache_item no_chunking computed new budget shift s :
  sizes_ok feats size → ec_inv feats size s → req_ok feats r → feats_ok (mm_features r) →
  0 ≤ new → 0 ≤ shift → 0 ≤ budget →
  ∃ a s1,
    _try_schedule_encoder_inputs has_cache_item no_chunking r computed new budget shift s
      = (Ok (encoder_inputs_to_schedule a, num_new_tokens a, compute_budget a, external_load_encoder_input a), s1) ∧
    booked feats size r budget a s1 ∧ 0 ≤ num_new_tokens a ≤ new ∧ cut_off r computed new (num_new_tokens a) ∧
    ∀ j p, computed ≤ p < computed + num_new_tokens a → takes_embedding r j p → covered r a s1 j.
Proof.
  intros Hsz Hs Hr Hfs Hnew Hshift Hbud. unfold _try_schedule_encoder_inputs.
  assert (Hstart : booked feats size r budget (Locals new budget [] [] ∅ 0) s).
  { split; cbn; try done; [by intros ? ?%elem_of_nil|constructor|unfold sizes; cbn; split; [done|apply Hs]|
      unfold sizes; cbn; lia]. }
  destruct ((new =? 0) || bool_decide (mm_features r = [])) eqn:E0.
  { exists (Locals new budget [] [] ∅ 0), s. split; [done|]. split; [done|]. cbn. split; [lia|]. split; [by left|].
    intros j p Hp (f & _ & Hf & _). apply orb_true_iff in E0 as [?|E0]; [lia|].
    apply bool_decide_eq_true in E0. by rewrite E0 in Hf. }
  apply orb_false_iff in E0 as [E0 _]. assert (0 < new) as Hpos by lia.
  pose proof (λ j f, window_spec (mm_features r) computed (computed + new + shift) j f Hfs) as Hwin.
  destruct (get_mm_features_in_window _ _ _) as [lo hi] eqn:Ew. cbn [em_encoder_decoder ec_manager].
  assert (0 ≤ lo ∧ hi ≤ zlen (mm_features r)) as [Hlo Hhi].
  { unfold get_mm_features_in_window in Ew. injection Ew as <- <-. split; [lia|].
    unfold zlen. apply inj_le, (bisect_left_le _ _ _ (S (length (mm_features r)))). lia. }
  destruct (input_loop_run feats size Hsz r Hr Hfs has_cache_item no_chunking computed new shift budget Hpos Hshift
    (zrange lo hi) (Locals new budget [] [] ∅ 0) s Hstart) as (a & s1 & Hrun & Hb & _ & Hn & Hcut & Hall).
  - done.
  - apply zrange_sorted.
  - intros j Hj%elem_of_zrange. split; [lia|].
    destruct (lookup_lt_is_Some_2 (mm_features r) (Z.to_nat j)) as [f Hf]; [unfold zlen in Hhi; lia|].
    exists f. split; [done|]. specialize (Hwin _ _ Hf). rewrite Z2Nat.id in Hwin by lia. split; apply Hwin; lia.
  - exists a, s1. split; [by rewrite (bind_ok _ _ _ _ _ Hrun)|]. split; [done|]. split; [lia|]. split; [done|].
    intros j p Hp Ht. apply (Hall j p); try done. destruct Ht as (f & Hj & Hf & He & _).
    specialize (Hwin _ _ Hf). rewrite Z2Nat.id in Hwin by lia. apply elem_of_zrange. split; apply Hwin; lia.
Qed.

(** C18: a step has the encoder outputs its tokens read.  In a consistent state and
    for a request with sorted placeholders, [_try_schedule_encoder_inputs] returns;
    it never raises the number of tokens nor overdraws the compute budget, whose
    rest is what the inputs to encode leave; the allocations that [schedule] then
    makes do not fail; and afterwards the item behind every embedding position
    among the tokens to compute is cached with a reference of this request.  This
    covers repeated items, masked placeholders, tokens cut off because an item
    does not fit, and items loaded by a connector. *)
Theorem encoder_inputs_available feats size r has_cache_item no_chunking computed new budget shift s :
  sizes_ok feats size → ec_inv feats size s → req_ok feats r → feats_ok (mm_features r) →
  0 ≤ new → 0 ≤ shift → 0 ≤ budget →
  ∃ inputs n budget' external s1 s2,
    _try_schedule_encoder_inputs has_cache_item no_chunking r computed new budget shift s
      = (Ok (inputs, n, budget', external), s1) ∧
    0 ≤ n ≤ new ∧ budget' = budget - sizes size r inputs ∧ 0 ≤ budget' ∧
    allocate_inputs r inputs external s1 = (Ok tt, s2) ∧ ec_inv feats size s2 ∧
    ∀ j p, computed ≤ p < computed + n → takes_embedding r j p →
      request_id r ∈ default ∅ (cached s2 !! hash_of r j).
Proof.
  intros Hsz Hs Hr Hfs Hnew Hshift Hbud.
  destruct (try_schedule_run feats size r has_cache_item no_chunking computed new budget shift s)
    as (a & s1 & Hrun & Hb & Hn & _ & Hall); try done.
  destruct (allocate_booked feats size Hsz r Hr budget a s1 Hb) as (s2 & Halloc & Hs2 & Hcov).
  exists (encoder_inputs_to_schedule a), (num_new_tokens a), (compute_budget a), (external_load_encoder_input a), s1, s2.
  split; [exact Hrun|]. split; [lia|]. destruct Hb as [_ _ _ _ _ _ [Hb1 Hb2]]. split; [done|]. split; [done|].
  split; [exact Halloc|]. split; [done|]. intros j p Hp Ht. apply Hcov, (Hall j p); done.
Qed.

(** ** The model runner's cache *)
Section Runner.
Context {V : Type} (encode : string → V).

(** [_process_encoder_cache_scheduler_output] *)
Definition _process_encoder_cache_scheduler_output (free_encoder_mm_hashes : list string) (c : gmap string V) : gmap string V :=
  foldl (λ c h, delete h c) c free_encoder_mm_hashes.

(** [_cache_encoder_output] *)
Definition _cache_encoder_output (c : gmap string V) (mm_hash : string) : gmap string V :=
  <[mm_hash := encode mm_hash]> c.

(** A step of the runner: the freed hashes go, the scheduled items are encoded. *)
Definition runner_step (free_encoder_mm_hashes scheduled : list string) (c : gmap string V) : gmap string V :=
  foldl _cache_encoder_output (_process_encoder_cache_scheduler_output free_encoder_mm_hashes c) scheduled.

Lemma process_lookup F (c : gmap string V) h :
  _process_encoder_cache_scheduler_output F c !! h = if decide (h ∈ F) then None else c !! h.
Proof.
  unfold _process_encoder_cache_scheduler_output. revert c. induction F as [|x F IH]; intros c; cbn [foldl].
  { by rewrite decide_False by apply not_elem_of_nil. }
  rewrite IH. destruct (decide (h = x)) as [->|Hne].
  - rewrite lookup_delete_eq. rewrite (decide_True (P := x ∈ x :: F)) by by left. by destruct (decide _).
  - rewrite lookup_delete_ne by done. destruct (decide (h ∈ F)) as [?|Hn].
    + by rewrite decide_True by by right.
    + rewrite decide_False; [done|]. by intros [?|?]%elem_of_cons.
Qed.

Lemma encode_lookup l (c : gmap string V) h :
  foldl _cache_encoder_output c l !! h = if decide (h ∈ l) then Some (encode h) else c !! h.
Proof.
  revert c. induction l as [|x l IH]; intros c; cbn [foldl].
  { by rewrite decide_False by apply not_elem_of_nil. }
  rewrite IH. unfold _cache_encoder_output. destruct (decide (h ∈ l)) as [Hin|Hin].
  - by rewrite decide_True by by right.
  - destruct (decide (h = x)) as [->|Hne].
    + rewrite lookup_insert_eq, decide_True by by left. done.
    + rewrite lookup_insert_ne, decide_False by (done || by intros [?|?]%elem_of_cons). done.
Qed.

End Runner.

(** *** A scheduling pass

    The manager and the items allocated so far, with their requests.  A request
    that has allocated an item in the pass is not released in it. *)
Section Pass.
Context (feats : string → list feature) (size : string → Z) (Hsz : sizes_ok feats size).
Context (set_order : gset Z → list Z) (Hord : ∀ X, set_order X ≡ₚ elements X).

Inductive pass_step : ec * list (string * string) → ec * list (string * string) → Prop :=
  | ps_check s l r i : is_input feats r i → pass_step (s, l) ((check_and_update_cache r i s).2, l)
  | ps_can s l r i budget num : is_input feats r i → pass_step (s, l) ((can_allocate r i budget num s).2, l)
  | ps_allocate s l r i h : req_ok feats r → input_is feats (request_id r) i h → cached s !! h = None →
      size h ≤ num_free_slots s → pass_step (s, l) ((allocate r i s).2, l ++ [(request_id r, h)])
  | ps_free_input s l r i : is_input feats r i → request_id r ∉ l.*1 →
      pass_step (s, l) ((free_encoder_input set_order r i s).2, l)
  | ps_free s l r : req_ok feats r → request_id r ∉ l.*1 → pass_step (s, l) ((free set_order r s).2, l).

Inductive pass : ec * list (string * string) → ec * list (string * string) → Prop :=
  | pa_nil x : pass x x
  | pa_step x y z : pass x y → pass_step y z → pass x z.

(** Along a pass that starts with the runner's entries [W]. *)
Record pass_inv (W : gset string) (s : ec) (l : list (string * string)) : Prop := {
  pi_inv : ec_inv feats size s;
  pi_known : dom (cached s) ⊆ W ∪ list_to_set l.*2;
  pi_lost : W ∪ list_to_set l.*2 ⊆ dom (cached s) ∪ list_to_set (freed s);
  pi_held : ∀ rid h, (rid, h) ∈ l → rid ∈ default ∅ (cached s !! h);
}.

Lemma pass_inv_frame W s s' l :
  pass_inv W s l → ec_inv feats size s' → dom (cached s') = dom (cached s) → freed s' = freed s →
  (∀ rid h, (rid, h) ∈ l → rid ∈ default ∅ (cached s !! h) → rid ∈ default ∅ (cached s' !! h)) →
  pass_inv W s' l.
Proof. intros [H1 H2 H3 H4] Hs Hd Hf Hk. split; [done|by rewrite Hd|by rewrite Hd, Hf|auto]. Qed.

Lemma pass_step_inv W s l s' l' : pass_inv W s l → pass_step (s, l) (s', l') → pass_inv W s' l'.
Proof.
  intros Hp Hst. inversion Hst as [? ? r i [Hr [h Hi]]|? ? r i budget num [Hr [h Hi]]|? ? r i h Hr Hi Hc Hle
    |? ? r i [Hr [h Hi]] Hn|? ? r Hr Hn]; subst; pose proof (pi_inv _ _ _ Hp) as Hs.
  - destruct (check_run feats size Hsz r i h s Hs Hr Hi) as (s1 & -> & H1 & _ & H3 & H4 & _ & H6 & _).
    apply (pass_inv_frame W s); auto.
  - destruct (can_allocate_run feats size Hsz r i h budget num s Hs Hr Hi) as (pre & s1 & -> & H1 & Hev & _).
    destruct Hp as [_ P2 P3 P4]. cbn [snd].
    assert (Hd : ∀ x, x ∈ dom (cached s1) ↔ x ∈ dom (cached s) ∧ x ∉ dkeys pre).
    { intros x. rewrite !elem_of_dom, (ev_cached _ _ _ Hev). destruct (decide _); [|tauto].
      split; [by intros [? [=]]|tauto]. }
    split; [done| | |].
    + intros x [Hx _]%Hd. by apply P2.
    + rewrite (ev_freed _ _ _ Hev). intros x Hx. specialize (P3 x Hx). rewrite elem_of_union, elem_of_list_to_set in P3.
      rewrite elem_of_union, elem_of_list_to_set, elem_of_app, Hd. destruct (decide (x ∈ dkeys pre)); tauto.
    + intros rid x Hin. by apply (evicted_keeps feats size pre s s1), P4.
  - destruct (allocate_run feats size Hsz r i h s Hs Hr Hi Hc Hle) as (s1 & -> & H1 & _ & H3 & H4 & _).
    destruct Hp as [_ P2 P3 P4]. cbn [snd].
    split; [done| | |]; rewrite ?fmap_app, ?list_to_set_app_L, ?H3, ?H4, ?dom_insert_L; [set_solver|set_solver|].
    intros rid x [Hin|Hin%list_elem_of_singleton]%elem_of_app.
    + specialize (P4 rid x Hin). rewrite lookup_insert_ne; [done|]. intros ->. rewrite Hc in P4. set_solver.
    + injection Hin as -> ->. rewrite lookup_insert_eq. set_solver.
  - destruct (free_input_run feats size Hsz set_order Hord r i h s Hs Hr Hi) as (s1 & -> & H1 & [_ H3 H4 (_ & H5 & _)]).
    apply (pass_inv_frame W s); auto. intros rid x Hin. apply H4. intros ->. apply Hn. by apply (list_elem_of_fmap_2 fst) in Hin.
  - destruct (ec_free_run feats size Hsz set_order Hord r s Hs Hr) as (s1 & -> & H1 & _ & _ & [_ H3 H4 (_ & H5 & _)]).
    apply (pass_inv_frame W s); auto. intros rid x Hin. apply H4. intros ->. apply Hn. by apply (list_elem_of_fmap_2 fst) in Hin.
Qed.

Lemma pass_run_inv W s l s' l' : pass_inv W s l → pass (s, l) (s', l') → pass_inv W s' l'.
Proof.
  intros Hp Hpass. remember (s, l) as x eqn:Ex. remember (s', l') as y eqn:Ey. revert s' l' Ey.
  induction Hpass as [x|x [s1 l1] z _ IH Hst]; intros s' l' Ey; subst.
  - by injection Ey as -> ->.
  - eapply pass_step_inv; [by apply IH|done].
Qed.
End Pass.

(** C19: the runner's encoder cache is the manager's.  If it holds exactly the
    manager's entries before a scheduling pass, and the pass allocates, hits,
    evicts and releases in any order but releases no request for which it has
    allocated an item, then once the runner has dropped the hashes reported as
    freed and encoded the allocated items, it again holds exactly the manager's
    entries, each with its encoding, although an item may have been evicted and
    allocated anew in between. *)
Theorem runner_cache_mirrors_manager {V} (encode : string → V) feats size set_order s l s' (c : gmap string V) :
  sizes_ok feats size → (∀ X, set_order X ≡ₚ elements X) → ec_inv feats size s → freed s = [] →
  (∀ h, c !! h = if decide (h ∈ dom (cached s)) then Some (encode h) else None) →
  pass feats size set_order (s, []) (s', l) →
  ∃ F s2, get_freed_mm_hashes s' = (Ok F, s2) ∧ ec_inv feats size s2 ∧ freed s2 = [] ∧
    ∀ h, runner_step encode F l.*2 c !! h = if decide (h ∈ dom (cached s2)) then Some (encode h) else None.
Proof.
  intros Hsz Hord Hs Hf Hc Hpass.
  destruct (pass_run_inv feats size Hsz set_order Hord (dom (cached s)) s [] s' l) as [P1 P2 P3 P4]; [|done|].
  { split; [done|set_solver|rewrite Hf; set_solver|by intros ? ? ?%elem_of_nil]. }
  do 2 eexists. split; [reflexivity|]. split; [by apply freed_inv|]. split; [done|]. intros h. cbn [cached].
  unfold runner_step. rewrite encode_lookup, process_lookup, Hc.
  assert (Hl : h ∈ l.*2 → h ∈ dom (cached s')).
  { intros ([rid x] & -> & Hin)%list_elem_of_fmap. specialize (P4 rid x Hin). cbn. apply elem_of_dom.
    destruct (cached s' !! x); [by eexists|set_solver]. }
  specialize (P2 h). specialize (P3 h). rewrite elem_of_union, elem_of_list_to_set in P2.
  rewrite !elem_of_union, !elem_of_list_to_set in P3.
  destruct (decide (h ∈ l.*2)) as [Hin|Hin]; [by rewrite decide_True by auto|].
  set (F := filter _ _). assert (Hfil : h ∈ F ↔ h ∉ dom (cached s') ∧ h ∈ freed s').
  { unfold F. rewrite list_elem_of_filter, not_elem_of_dom. done. }
  destruct (decide (h ∈ dom (cached s'))) as [Hd|Hd].
  - rewrite decide_False by tauto. rewrite decide_True by tauto. done.
  - destruct (decide (h ∈ F)) as [|Hn]; [done|]. rewrite decide_False; tauto.
Qed.

(** *** Witnesses *)
Lemma demo_feats_ok rid : feats_ok (demo_feats rid).
Proof.
  split.
  1-2: intros i j a b Hij Ha Hb; unfold demo_feats in *; repeat case_decide;
    destruct i as [|i], j as [|j]; try done; injection Ha as <-; by injection Hb as <-.
  intros f. unfold demo_feats. repeat case_decide; [| |by intros ?%elem_of_nil].
  all: intros ->%list_elem_of_singleton; by split.
Qed.

Lemma encoder_inputs_available_witness :
  ∃ inputs n budget' external s1 s2,
    _try_schedule_encoder_inputs None false demo_b 0 3 2 0 demo_ec2 = (Ok (inputs, n, budget', external), s1) ∧
    allocate_inputs demo_b inputs external s1 = (Ok tt, s2) ∧
    ∀ j p, 0 ≤ p < 0 + n → takes_embedding demo_b j p → "b"%string ∈ default ∅ (cached s2 !! hash_of demo_b j).
Proof.
  destruct (encoder_inputs_available demo_feats demo_size demo_b None false 0 3 2 0 demo_ec2)
    as (inputs & n & b' & ext & s1 & s2 & H1 & _ & _ & _ & H2 & _ & H3);
    [exact demo_sizes_ok|exact demo_ec2_inv|done|apply demo_feats_ok|lia|lia|lia|].
  exists inputs, n, b', ext, s1, s2. split; [exact H1|]. split; [exact H2|exact H3].
Defined.

(** The pass of "b": its item evicts that of "a". *)
Definition demo_ec3 : ec := (can_allocate demo_b 0 2 0 demo_ec2).2.
Definition demo_ec4 : ec := (allocate demo_b 0 demo_ec3).2.

Lemma runner_cache_mirrors_manager_witness :
  ∃ F s2, get_freed_mm_hashes demo_ec4 = (Ok F, s2) ∧
    ∀ h, runner_step (λ _, tt) F ["pic"%string] {["img"%string := tt]} !! h =
         if decide (h ∈ dom (cached s2)) then Some tt else None.
Proof.
  destruct (runner_cache_mirrors_manager (λ _, tt) demo_feats demo_size elements demo_ec2 [("b"%string, "pic"%string)] demo_ec4
    {["img"%string := tt]}) as (F & s2 & H1 & _ & _ & H2).
  - exact demo_sizes_ok.
  - done.
  - exact demo_ec2_inv.
  - by vm_compute.
  - intros h. assert (cached demo_ec2 = {["img"%string := ∅]}) as -> by (by vm_compute).
    rewrite dom_singleton_L. destruct (decide (h ∈ {["img"%string]})) as [->%elem_of_singleton|Hn].
    + by rewrite lookup_singleton_eq.
    + rewrite lookup_singleton_ne; [done|set_solver].
  - apply (pa_step _ _ _ _ (demo_ec3, [])).
    + apply (pa_step _ _ _ _ (demo_ec2, [])); [constructor|]. apply (ps_can _ _ _ demo_ec2 [] demo_b 0 2 0).
      split; [done|]. exists "pic"%string. exact demo_input_b.
    + apply (ps_allocate _ _ _ demo_ec3 [] demo_b 0 "pic"); [done|exact demo_input_b|by vm_compute|by vm_compute].
  - exists F, s2. split; [exact H1|exact H2].
Defined.

(** ** The encoder-decoder manager *)

(** An encoder-decoder request that has been computed, in a cache of two slots. *)
Definition ed_req : request := Req "a" [Feature "img" (Range 0 2 None)] 3 0.
Definition ed_s1 : ed := (ed_allocate ed_req 0 (ed_init 2)).2.
Definition ed_update (s : ed) : ed := (_free_encoder_inputs elements 0 ed_req s).2.

(** The encoder-decoder manager hands out slots it does not have.  Its
    [get_cached_input_ids] lists every input of the request whatever was freed
    before, so each decode step and the end of the request return the same slots
    again: after one item of two embeddings in a cache of two slots, two steps and
    the end of the request leave six free slots, and an item twice as large as the
    cache is accepted. *)
Theorem encoder_decoder_overcounts_slots :
  ed_num_free_slots ed_s1 = 0 ∧ ed_num_free_slots (ed_update ed_s1) = 2 ∧
  ed_num_free_slots (ed_update (ed_update ed_s1)) = 4 ∧
  let s := (ed_free ed_req (ed_update (ed_update ed_s1))).2 in
  ed_num_free_slots s = 6 ∧ ed_cache_size s = 2 ∧
  (ed_can_allocate (Req "b" [Feature "big" (Range 0 4 None)] 0 0) 0 4 0 s).1 = Ok true.
Proof. by vm_compute. Qed.
