(* ===== verification/Heap.v ===== *)
(** * Binary heaps

    Python's [heapq] on a list, as vLLM's priority queue of requests uses it:
    [heappush], [heappop] and [heapify] with their sifting loops.  The order is
    the [__lt__] of the elements, a strict total order. *)

From S2P Require Import Prelude PyData.
From stdpp Require Import base list sorting.
From Stdlib Require Import Lia.

(** [x.__lt__(y)] *)
Class PyOrder (A : Type) := py_lt : A → A → bool.

Class PyOrderLaws (A : Type) `{PyOrder A} : Prop := {
  py_lt_irrefl (x : A) : py_lt x x = false;
  py_lt_trans (x y z : A) : py_lt x y = true → py_lt y z = true → py_lt x z = true;
  py_lt_total (x y : A) : py_lt x y = false → py_lt y x = false → x = y;
}.

(** [not y < x] *)
Definition py_le {A} `{PyOrder A} (x y : A) : Prop := py_lt y x = false.

#[global] Instance py_le_dec {A} `{PyOrder A} : RelDecision (py_le (A := A)).
Proof. intros x y. unfold py_le. apply _. Defined.

Section Order.
Context {A : Type} `{HO : PyOrder A} {HL : PyOrderLaws A}.

#[global] Instance py_le_trans : Transitive (py_le (A := A)).
Proof.
  intros x y z Hxy Hyz. unfold py_le in *. destruct (py_lt z x) eqn:E; [|done].
  destruct (py_lt x y) eqn:E'.
  - by rewrite (py_lt_trans z x y) in Hyz.
  - rewrite (py_lt_total x y) in E by done. congruence.
Qed.

#[global] Instance py_le_total : Total (py_le (A := A)).
Proof.
  intros x y. unfold py_le. destruct (py_lt y x) eqn:E; [|by left]. right.
  destruct (py_lt x y) eqn:E'; [|done]. pose proof (py_lt_trans x y x E' E) as Hx. by rewrite py_lt_irrefl in Hx.
Qed.

#[global] Instance py_le_antisymm : AntiSymm (=) (py_le (A := A)).
Proof. intros x y H1 H2. by apply py_lt_total. Qed.

Lemma py_lt_le x y : py_lt x y = true → py_le x y.
Proof.
  intros Hxy. unfold py_le. destruct (py_lt y x) eqn:E; [|done].
  pose proof (py_lt_trans x y x Hxy E) as Hx. by rewrite py_lt_irrefl in Hx.
Qed.
End Order.

(** ** The algorithms *)
Section Heapq.
Context {A : Type} `{PyOrder A}.

Definition parent (pos : nat) : nat := (pos - 1) / 2.

(** The loop of [_siftdown]: [newitem] travels towards [startpos]. *)
Fixpoint siftdown_loop (fuel : nat) (heap : list A) (startpos pos : nat) (newitem : A) : result (list A) :=
  match fuel with
  | O => Raise RuntimeError
  | S fuel' =>
      if startpos <? pos then
        match heap !! parent pos with
        | None => Raise IndexError
        | Some p =>
            if py_lt newitem p then siftdown_loop fuel' (<[pos := p]> heap) startpos (parent pos) newitem
            else Ok (<[pos := newitem]> heap)
        end
      else Ok (<[pos := newitem]> heap)
  end.

Definition _siftdown (heap : list A) (startpos pos : nat) : result (list A) :=
  match heap !! pos with
  | None => Raise IndexError
  | Some newitem => siftdown_loop (S pos) heap startpos pos newitem
  end.

(** The smaller child of [pos], the left one only if it is smaller. *)
Definition smaller_child (heap : list A) (childpos : nat) : result (nat * A) :=
  match heap !! childpos with
  | None => Raise IndexError
  | Some c =>
      if childpos + 1 <? length heap then
        match heap !! (childpos + 1) with
        | None => Raise IndexError
        | Some r => Ok (if py_lt c r then (childpos, c) else (childpos + 1, r))
        end
      else Ok (childpos, c)
  end.

(** The loop of [_siftup]: the smaller child moves up until a leaf is reached. *)
Fixpoint siftup_loop (fuel : nat) (heap : list A) (pos : nat) : result (list A * nat) :=
  match fuel with
  | O => Raise RuntimeError
  | S fuel' =>
      if 2 * pos + 1 <? length heap then
        result_bind (smaller_child heap (2 * pos + 1)) (λ c,
        siftup_loop fuel' (<[pos := c.2]> heap) c.1)
      else Ok (heap, pos)
  end.

Definition _siftup (heap : list A) (pos : nat) : result (list A) :=
  match heap !! pos with
  | None => Raise IndexError
  | Some newitem =>
      result_bind (siftup_loop (S (length heap)) heap pos) (λ x,
      _siftdown (<[x.2 := newitem]> x.1) pos x.2)
  end.

Definition heappush (heap : list A) (item : A) : result (list A) :=
  _siftdown (heap ++ [item]) 0 (length heap).

Definition heappop (heap : list A) : result (A * list A) :=
  match py_pop heap with
  | None => Raise IndexError
  | Some (lastelt, heap') =>
      match heap' with
      | [] => Ok (lastelt, [])
      | returnitem :: _ => result_bind (_siftup (<[0 := lastelt]> heap') 0) (λ h, Ok (returnitem, h))
      end
  end.

Fixpoint heapify_from (k : nat) (heap : list A) : result (list A) :=
  match k with
  | O => Ok heap
  | S i => result_bind (_siftup heap i) (heapify_from i)
  end.

Definition heapify (heap : list A) : result (list A) := heapify_from (length heap / 2) heap.
End Heapq.

(** ** Correctness *)
Section Proofs.
Context {A : Type} `{HO : PyOrder A} {HL : PyOrderLaws A}.
Implicit Types (h l : list A) (x : A).

Lemma parent_lt i : 0 < i → parent i < i.
Proof. intros. unfold parent. pose proof (Nat.div_le_upper_bound (i - 1) 2 (i - 1)). lia. Qed.
Lemma parent_child i p : 0 < i → parent i = p ↔ i = 2 * p + 1 ∨ i = 2 * p + 2.
Proof.
  intros. unfold parent. pose proof (Nat.div_mod (i - 1) 2). pose proof (Nat.mod_upper_bound (i - 1) 2). lia.
Qed.

(** The order holds between [i] and its parent, if that is at or after [k]. *)
Definition edge (k : nat) l (i : nat) : Prop :=
  ∀ a b, 0 < i → k ≤ parent i → l !! parent i = Some a → l !! i = Some b → py_le a b.
Definition heap_from (k : nat) l : Prop := ∀ i, edge k l i.
Definition is_heap l : Prop := heap_from 0 l.

(** [pos] is [k] or below it. *)
Inductive below (k : nat) : nat → Prop :=
  | below_refl : below k k
  | below_child p : 0 < p → below k (parent p) → below k p.

Lemma below_le k p : below k p → k ≤ p.
Proof. induction 1 as [|p Hp _ IH]; [done|]. pose proof (parent_lt p Hp). lia. Qed.

Lemma below_parent k p : below k p → k < p → below k (parent p).
Proof. destruct 1; [lia|done]. Qed.

Lemma below_zero p : below 0 p.
Proof.
  induction (lt_wf p) as [p _ IH]. destruct p as [|p]; [constructor|]. apply below_child; [lia|].
  apply IH, parent_lt. lia.
Qed.

(** *** Moving an item within the list *)
Lemma insert_swap h i j a x :
  i ≠ j → i < length h → h !! j = Some a → <[j := x]> (<[i := a]> h) ≡ₚ <[i := x]> h.
Proof.
  intros Hij Hi Hj.
  assert (Hgen : ∀ (l : list A) (k : nat) (v w : A), l !! k = Some v → w :: l ≡ₚ v :: <[k := w]> l).
  { intros l k v w Hk. rewrite <-(take_drop_middle l k v Hk) at 1.
    rewrite insert_take_drop by by apply lookup_lt_Some in Hk. rewrite <-!Permutation_middle. apply perm_swap. }
  assert (∃ b, h !! i = Some b) as [b Hb] by by apply lookup_lt_is_Some_2.
  apply (Permutation_cons_inv (a := a)), (Permutation_cons_inv (a := b)). trans (x :: a :: h).
  - trans (b :: x :: <[i := a]> h); [apply perm_skip; symmetry; apply Hgen; by rewrite list_lookup_insert_ne|].
    rewrite perm_swap. apply perm_skip. symmetry. by apply Hgen.
  - trans (a :: x :: h); [apply perm_swap|]. trans (a :: b :: <[i := x]> h); [apply perm_skip; by apply Hgen|apply perm_swap].
Qed.

(** *** [_siftdown] *)

(** Only the edge above [pos] may be violated, and the children of [pos] are not
    below its parent. *)
Definition rising (k : nat) l (pos : nat) : Prop :=
  (∀ i, i ≠ pos → edge k l i) ∧
  (∀ i a b, 0 < i → parent i = pos → 0 < pos → k ≤ parent pos → l !! parent pos = Some a → l !! i = Some b → py_le a b).

Lemma rising_step k h pos x p :
  pos < length h → 0 < pos → k ≤ parent pos → h !! parent pos = Some p → py_lt x p = true →
  rising k (<[pos := x]> h) pos → rising k (<[parent pos := x]> (<[pos := p]> h)) (parent pos).
Proof.
  intros Hlen Hpos Hk Hp Hlt [Hedge Hch]. pose proof (parent_lt pos Hpos) as Hpl.
  pose proof (py_lt_le _ _ Hlt) as Hle.
  assert (Hold : ∀ i, i ≠ pos → <[pos := x]> h !! i = h !! i) by (intros; by rewrite list_lookup_insert_ne).
  assert (Hnew : ∀ i, i ≠ pos → i ≠ parent pos → <[parent pos := x]> (<[pos := p]> h) !! i = h !! i)
    by (intros; by rewrite !list_lookup_insert_ne).
  assert (Hnp : <[parent pos := x]> (<[pos := p]> h) !! pos = Some p)
    by (rewrite list_lookup_insert_ne, list_lookup_insert_eq by lia; done).
  assert (Hnx : <[parent pos := x]> (<[pos := p]> h) !! parent pos = Some x)
    by (rewrite list_lookup_insert_eq by (rewrite length_insert; lia); done).
  split.
  - intros i Hi a b H0 Hki Ha Hb. destruct (decide (i = pos)) as [->|Hip].
    + rewrite Hnx in Ha. rewrite Hnp in Hb. congruence.
    + rewrite Hnew in Hb by done. destruct (decide (parent i = pos)) as [Epos|Epos].
      * rewrite Epos, Hnp in Ha. injection Ha as <-. apply (Hch i p b); try done; by rewrite Hold by lia.
      * destruct (decide (parent i = parent pos)) as [Epar|Epar].
        -- rewrite Epar, Hnx in Ha. injection Ha as <-. trans p; [done|].
           apply (Hedge i Hip p b); try done; [rewrite Epar|]; by rewrite Hold by lia.
        -- rewrite Hnew in Ha by done. apply (Hedge i Hip a b); try done; by rewrite Hold.
  - intros i a b H0 Hpi Hpp Hkp Ha Hb. pose proof (parent_lt (parent pos) Hpp).
    rewrite Hnew in Ha by lia.
    assert (py_le a p) as Hap by (apply (Hedge (parent pos) ltac:(lia) a p); try done; by rewrite Hold by lia).
    destruct (decide (i = pos)) as [->|Hip]; [rewrite Hnp in Hb; by injection Hb as <-|].
    destruct (decide (i = parent pos)) as [->|Hi2]; [lia|]. rewrite Hnew in Hb by done. trans p; [done|].
    apply (Hedge i Hip p b); try done; [lia|rewrite Hpi|]; by rewrite Hold by lia.
Qed.

Lemma rising_done k l pos :
  rising k l pos → (∀ a b, 0 < pos → k ≤ parent pos → l !! parent pos = Some a → l !! pos = Some b → py_le a b) →
  heap_from k l.
Proof. intros [He _] Hp i. destruct (decide (i = pos)) as [->|Hi]; [|by apply He]. intros a b. apply Hp. Qed.

Lemma siftdown_loop_run fuel k h pos x :
  pos < fuel → pos < length h → below k pos → rising k (<[pos := x]> h) pos →
  ∃ h', siftdown_loop fuel h k pos x = Ok h' ∧ heap_from k h' ∧ h' ≡ₚ <[pos := x]> h.
Proof.
  revert h pos. induction fuel as [|fuel IH]; intros h pos Hf Hlen Hb Hr; [lia|]. cbn [siftdown_loop].
  destruct (Nat.ltb_spec k pos) as [Hk|Hk].
  - pose proof (parent_lt pos ltac:(lia)) as Hpl. pose proof (below_parent k pos Hb Hk) as Hb'.
    destruct (lookup_lt_is_Some_2 h (parent pos)) as [p Hp]; [lia|]. rewrite Hp.
    destruct (py_lt x p) eqn:E.
    + destruct (IH (<[pos := p]> h) (parent pos)) as (h' & Hrun & Hh & Hperm);
        [lia|rewrite length_insert; lia|done| |].
      { apply rising_step; try done; [lia|by apply below_le]. }
      exists h'. split; [done|]. split; [done|]. rewrite Hperm. apply insert_swap; [lia|done|done].
    + exists (<[pos := x]> h). split; [done|]. split; [|done]. apply (rising_done k _ pos Hr).
      intros a b _ _ Ha Hb2. rewrite list_lookup_insert_ne, Hp in Ha by lia. rewrite list_lookup_insert_eq in Hb2 by done.
      by injection Ha as <-; injection Hb2 as <-.
  - exists (<[pos := x]> h). split; [done|]. split; [|done]. apply (rising_done k _ pos Hr).
    intros a b H0 Hkp. pose proof (below_le _ _ Hb). pose proof (parent_lt pos H0). lia.
Qed.

Lemma siftdown_run k l pos :
  pos < length l → below k pos → rising k l pos →
  ∃ h', _siftdown l k pos = Ok h' ∧ heap_from k h' ∧ h' ≡ₚ l.
Proof.
  intros Hlen Hb Hr. unfold _siftdown. destruct (lookup_lt_is_Some_2 l pos Hlen) as [x Hx]. rewrite Hx.
  rewrite <-(list_insert_id l pos x Hx) in Hr.
  destruct (siftdown_loop_run (S pos) k l pos x) as (h' & Hrun & Hh & Hp); try done; [lia|].
  exists h'. split; [done|]. split; [done|]. by rewrite Hp, list_insert_id.
Qed.

(** *** [_siftup] *)

(** The item at [pos] is a hole: the edges around it do not count, but its
    children are not below its parent. *)
Definition sinking (k : nat) h (pos : nat) : Prop :=
  (∀ i, i ≠ pos → parent i ≠ pos → edge k h i) ∧
  (∀ i a b, 0 < i → parent i = pos → k < pos → h !! parent pos = Some a → h !! i = Some b → py_le a b).

Lemma smaller_child_spec h pos :
  2 * pos + 1 < length h →
  ∃ c v, smaller_child h (2 * pos + 1) = Ok (c, v) ∧ 0 < c ∧ parent c = pos ∧ c < length h ∧ h !! c = Some v ∧
    ∀ i b, 0 < i → parent i = pos → h !! i = Some b → py_le v b.
Proof.
  intros Hlen. unfold smaller_child. destruct (lookup_lt_is_Some_2 h _ Hlen) as [c Hc]. rewrite Hc.
  destruct (Nat.ltb_spec (2 * pos + 1 + 1) (length h)) as [Hr|Hr].
  - destruct (lookup_lt_is_Some_2 h _ Hr) as [r Hr']. rewrite Hr'. destruct (py_lt c r) eqn:E.
    + exists (2 * pos + 1), c. split_and!; try done; [lia|apply parent_child; lia|].
      intros i b H0 Hi%parent_child Hb; [|done]. destruct Hi as [->| ->].
      * rewrite Hc in Hb. by injection Hb as <-; unfold py_le; rewrite py_lt_irrefl.
      * replace (2 * pos + 2) with (2 * pos + 1 + 1) in Hb by lia. rewrite Hr' in Hb. injection Hb as <-. by apply py_lt_le.
    + exists (2 * pos + 1 + 1), r. split_and!; try done; [lia|apply parent_child; lia|].
      intros i b H0 Hi%parent_child Hb; [|done]. destruct Hi as [->| ->].
      * rewrite Hc in Hb. by injection Hb as <-.
      * replace (2 * pos + 2) with (2 * pos + 1 + 1) in Hb by lia. rewrite Hr' in Hb.
        injection Hb as <-. unfold py_le. by rewrite py_lt_irrefl.
  - exists (2 * pos + 1), c. split_and!; try done; [lia|apply parent_child; lia|].
    intros i b H0 Hi%parent_child Hb; [|done]. destruct Hi as [->| ->].
    + rewrite Hc in Hb. injection Hb as <-. unfold py_le. by rewrite py_lt_irrefl.
    + apply lookup_lt_Some in Hb. lia.
Qed.

Lemma sinking_step k h pos c v :
  pos < length h → k ≤ pos → 0 < c → parent c = pos → h !! c = Some v →
  (∀ i b, 0 < i → parent i = pos → h !! i = Some b → py_le v b) →
  sinking k h pos → sinking k (<[pos := v]> h) c.
Proof.
  intros Hlen Hk H0 Hc Hv Hmin [Hedge Hch]. pose proof (parent_lt c H0) as Hcl. rewrite Hc in Hcl.
  assert (Hold : ∀ i, i ≠ pos → <[pos := v]> h !! i = h !! i) by (intros; by rewrite list_lookup_insert_ne).
  assert (Hnew : <[pos := v]> h !! pos = Some v) by by rewrite list_lookup_insert_eq.
  split.
  - intros i Hi Hpi a b Hi0 Hki Ha Hb. destruct (decide (i = pos)) as [->|Hip].
    + pose proof (parent_lt pos Hi0). rewrite Hnew in Hb. injection Hb as <-. rewrite Hold in Ha by lia.
      apply (Hch c a v); try done. lia.
    + rewrite Hold in Hb by done. destruct (decide (parent i = pos)) as [Ep|Ep].
      * rewrite Ep, Hnew in Ha. injection Ha as <-. by apply (Hmin i b).
      * rewrite Hold in Ha by done. by apply (Hedge i Hip Ep a b).
  - intros i a b Hi0 Hpi Hkc Ha Hb. rewrite Hc, Hnew in Ha. injection Ha as <-.
    pose proof (parent_lt i Hi0). rewrite Hold in Hb by lia.
    apply (Hedge i ltac:(lia) ltac:(lia) v b); try done; [lia|by rewrite Hpi].
Qed.

Lemma siftup_loop_run fuel k h pos x :
  length h < fuel + pos → pos < length h → below k pos → sinking k h pos →
  ∃ h' p, siftup_loop fuel h pos = Ok (h', p) ∧ p < length h' ∧ below k p ∧ rising k (<[p := x]> h') p ∧
    <[p := x]> h' ≡ₚ <[pos := x]> h.
Proof.
  revert h pos. induction fuel as [|fuel IH]; intros h pos Hf Hlen Hb Hs; [lia|]. cbn [siftup_loop].
  destruct (Nat.ltb_spec (2 * pos + 1) (length h)) as [Hc|Hc].
  - destruct (smaller_child_spec h pos Hc) as (c & v & -> & H0 & Hp & Hcl & Hv & Hmin). cbn [result_bind fst snd].
    pose proof (parent_lt c H0) as Hlt. rewrite Hp in Hlt.
    destruct (IH (<[pos := v]> h) c) as (h' & p & Hrun & Hpl & Hbp & Hr & Hperm).
    + rewrite length_insert. lia.
    + by rewrite length_insert.
    + apply below_child; [done|]. by rewrite Hp.
    + by apply (sinking_step k h pos c v); [|apply below_le| | | | |].
    + exists h', p. split_and!; try done. rewrite Hperm. apply insert_swap; [lia|done|done].
  - exists h, pos. split_and!; try done. destruct Hs as [Hedge _].
    assert (Hno : ∀ i b, 0 < i → parent i = pos → <[pos := x]> h !! i = Some b → False).
    { intros i b H0 Hi%parent_child Hx; [|done]. apply lookup_lt_Some in Hx. rewrite length_insert in Hx. lia. }
    split.
    + intros i Hi a b H0 Hki Ha Hb'. destruct (decide (parent i = pos)) as [Ep|Ep]; [by destruct (Hno i b)|].
      rewrite list_lookup_insert_ne in Ha, Hb' by done. by apply (Hedge i Hi Ep a b).
    + intros i a b H0 Hpi _ _ _ Hb'. by destruct (Hno i b).
Qed.

Lemma siftup_run k h :
  k < length h → heap_from (S k) h → ∃ h', _siftup h k = Ok h' ∧ heap_from k h' ∧ h' ≡ₚ h.
Proof.
  intros Hk Hh. unfold _siftup. destruct (lookup_lt_is_Some_2 h k Hk) as [x Hx]. rewrite Hx.
  destruct (siftup_loop_run (S (length h)) k h k x) as (h1 & p & -> & Hp & Hb & Hr & Hperm).
  - lia.
  - done.
  - constructor.
  - split; [|lia]. intros i Hi Hpi a b H0 Hki. apply (Hh i a b H0). lia.
  - cbn [result_bind fst snd]. destruct (siftdown_run k (<[p := x]> h1) p) as (h' & Hrun & Hh' & Hp');
      [by rewrite length_insert|done|done|].
    exists h'. split; [done|]. split; [done|]. by rewrite Hp', Hperm, list_insert_id.
Qed.

(** ** The operations *)
Lemma heappush_run h x : is_heap h → ∃ h', heappush h x = Ok h' ∧ is_heap h' ∧ h' ≡ₚ x :: h.
Proof.
  intros Hh. unfold heappush. destruct (siftdown_run 0 (h ++ [x]) (length h)) as (h' & Hrun & Hh' & Hp).
  - rewrite length_app. cbn. lia.
  - apply below_zero.
  - assert (Hl : ∀ i, i ≠ length h → (h ++ [x]) !! i = h !! i).
    { intros i Hi. destruct (decide (i < length h)) as [?|Hge]; [by rewrite lookup_app_l|].
      rewrite (lookup_ge_None_2 h i), (lookup_ge_None_2 (h ++ [x]) i) by (rewrite ?length_app; cbn; lia). done. }
    split.
    + intros i Hi a b H0 Hk Ha Hb. rewrite Hl in Hb by done. pose proof (lookup_lt_Some _ _ _ Hb).
      pose proof (parent_lt i H0). rewrite Hl in Ha by lia. by apply (Hh i a b).
    + intros i a b H0 Hpi _ _ _ Hb. apply lookup_lt_Some in Hb. rewrite length_app in Hb. cbn in Hb.
      pose proof (parent_lt i H0). lia.
  - exists h'. split; [done|]. split; [done|]. rewrite Hp. symmetry. apply Permutation_cons_append.
Qed.

(** The first item of a heap is the least. *)
Lemma heap_min h x i y : is_heap h → h !! 0 = Some x → h !! i = Some y → py_le x y.
Proof.
  intros Hh Hx. revert y. induction (lt_wf i) as [i _ IH]. intros y Hy. destruct i as [|i].
  - rewrite Hx in Hy. injection Hy as <-. unfold py_le. by rewrite py_lt_irrefl.
  - pose proof (parent_lt (S i) ltac:(lia)) as Hlt. pose proof (lookup_lt_Some _ _ _ Hy).
    destruct (lookup_lt_is_Some_2 h (parent (S i))) as [z Hz]; [lia|]. trans z; [by apply (IH _ Hlt)|].
    apply (Hh (S i) z y); try done; lia.
Qed.

Lemma heappop_run h :
  is_heap h → h ≠ [] →
  ∃ x h', heappop h = Ok (x, h') ∧ is_heap h' ∧ h ≡ₚ x :: h' ∧ (∀ y, y ∈ h → py_le x y) ∧ head h = Some x.
Proof.
  intros Hh Hne. unfold heappop. destruct (py_pop h) as [[z l]|] eqn:Epop; [|by apply py_pop_None in Epop].
  apply py_pop_Some in Epop as ->.
  assert (Hmin : ∀ x, (l ++ [z]) !! 0 = Some x → ∀ y, y ∈ l ++ [z] → py_le x y).
  { intros x Hx y [i Hy]%list_elem_of_lookup. by eapply heap_min. }
  destruct l as [|x l].
  { exists z, []. split; [done|]. split; [intros ? ? ? ? ? ?; done|]. split; [done|]. split; [by apply Hmin|done]. }
  cbn [insert list_insert]. destruct (siftup_run 0 (z :: l)) as (h' & -> & Hh' & Hp); [cbn; lia| |].
  { intros i a b H0 Hk Ha Hb. pose proof (parent_lt i H0). pose proof (lookup_lt_Some _ _ _ Hb) as Hi.
    apply (Hh i a b); try done; [lia| |].
    - rewrite lookup_app_l by (cbn in *; lia). destruct (parent i); [lia|done].
    - rewrite lookup_app_l by (cbn in *; lia). by destruct i; [lia|]. }
  exists x, h'. split; [done|]. split; [done|]. split; [|split; [by apply Hmin|done]].
  rewrite Hp. cbn. apply perm_skip. symmetry. apply Permutation_cons_append.
Qed.

Lemma heapify_from_run k h :
  k ≤ length h → heap_from k h → ∃ h', heapify_from k h = Ok h' ∧ is_heap h' ∧ h' ≡ₚ h.
Proof.
  revert h. induction k as [|k IH]; intros h Hk Hh; cbn [heapify_from]; [by exists h|].
  destruct (siftup_run k h) as (h1 & -> & Hh1 & Hp1); [lia|done|]. cbn [result_bind].
  destruct (IH h1) as (h2 & Hrun & Hh2 & Hp2); [rewrite Hp1; lia|done|]. exists h2. split; [done|]. split; [done|].
  by rewrite Hp2.
Qed.

Lemma heapify_run h : ∃ h', heapify h = Ok h' ∧ is_heap h' ∧ h' ≡ₚ h.
Proof.
  apply heapify_from_run; [apply Nat.div_le_upper_bound; lia|].
  intros i a b H0 Hk _ Hb. apply lookup_lt_Some in Hb. exfalso.
  pose proof (Nat.div_mod (length h) 2). pose proof (Nat.mod_upper_bound (length h) 2).
  destruct (proj1 (parent_child i (parent i) H0) eq_refl); lia.
Qed.
End Proofs.
