(* ===== verification/RequestQueue.v ===== *)
(** * The queues of waiting requests

    Models vllm/v1/core/sched/request_queue.py: the first-come-first-served queue
    (a deque) and the priority queue (a heap), with the order of requests
    ([Request.__lt__] of vllm/v1/request.py), and the scheduler's choice between
    its two queues ([_enqueue_waiting_request] and
    [_select_waiting_queue_for_scheduling] of vllm/v1/core/sched/scheduler.py).
    Both queues implement one interface; its laws say in which order requests are
    served. *)

From S2P Require Import Prelude PyData Float Heap.
From stdpp Require Import base list strings sorting.
From Stdlib Require Import ZArith Lia.
Open Scope Z_scope.

(** ** Requests and their order *)
Record req := Req {
  priority : Z;
  arrival_time : f64;
  request_id : string;
  (** [id(self)]: the object's identity *)
  obj_id : Z;
}.

#[global] Instance req_eq_dec : EqDecision req.
Proof. solve_decision. Defined.

(** [Request.__lt__] *)
#[global] Instance Request_lt : PyOrder req := λ self other,
  if negb (priority self =? priority other) then priority self <? priority other
  else if negb (arrival_time self =? arrival_time other) then arrival_time self <? arrival_time other
  else if negb (String.eqb (request_id self) (request_id other)) then String.ltb (request_id self) (request_id other)
  else obj_id self <? obj_id other.

(** ** The interface *)
Class RequestQueue (Q : Type) := {
  new_queue : Q;
  add_request : req → M Q unit;
  pop_request : M Q req;
  peek_request : M Q req;
  prepend_request : req → M Q unit;
  prepend_requests : Q → M Q unit;
  remove_request : req → M Q unit;
  remove_requests : list req → M Q unit;
  (** [__iter__] *)
  iter_requests : Q → result (list req);
  (** [__bool__] *)
  has_requests : Q → bool;
}.

(** [list.remove]: the first occurrence, by identity. *)
Fixpoint list_remove (r : req) (l : list req) : result (list req) :=
  match l with
  | [] => Raise ValueError
  | x :: l' => if decide (x = r) then Ok l' else result_bind (list_remove r l') (λ l'', Ok (x :: l''))
  end.

(** *** First come, first served *)
Record FCFSRequestQueue := FCFS { deque : list req }.

#[global] Instance fcfs_queue : RequestQueue FCFSRequestQueue := {
  new_queue := FCFS [];
  add_request r := modify (λ q, FCFS (deque q ++ [r]));
  pop_request := λ q, match deque q with [] => (Raise IndexError, q) | r :: l => (Ok r, FCFS l) end;
  peek_request := λ q, match deque q with [] => (Raise IndexError, q) | r :: _ => (Ok r, q) end;
  prepend_request r := modify (λ q, FCFS (r :: deque q));
  (** [extendleft] puts each request to the left of the previous one *)
  prepend_requests other := modify (λ q, FCFS (foldl (λ l r, r :: l) (deque q) (deque other)));
  remove_request r := λ q,
    match list_remove r (deque q) with Ok l => (Ok tt, FCFS l) | Raise e => (Raise e, q) end;
  remove_requests rs := modify (λ q, FCFS (filter (λ r, r ∉ rs) (deque q)));
  iter_requests q := Ok (deque q);
  has_requests q := negb (bool_decide (deque q = []));
}.

(** *** By priority *)
Record PriorityRequestQueue := PQ { _heap : list req }.

(** A heap operation that replaces the heap. *)
Definition on_heap (f : list req → result (list req)) : M PriorityRequestQueue unit := λ q,
  match f (_heap q) with Ok h => (Ok tt, PQ h) | Raise e => (Raise e, q) end.

(** [while heap_copy: yield heapq.heappop(heap_copy)] *)
Fixpoint heap_drain (fuel : nat) (h : list req) : result (list req) :=
  match h, fuel with
  | [], _ => Ok []
  | _, O => Raise RuntimeError
  | _, S fuel' => result_bind (heappop h) (λ x, result_bind (heap_drain fuel' x.2) (λ l, Ok (x.1 :: l)))
  end.

Definition pq_add (r : req) : M PriorityRequestQueue unit := on_heap (λ h, heappush h r).

Definition pq_pop : M PriorityRequestQueue req := λ q,
  match _heap q with
  | [] => (Raise IndexError, q)
  | _ => match heappop (_heap q) with Ok (r, h) => (Ok r, PQ h) | Raise e => (Raise e, q) end
  end.

(** The heap of [self] is not that of [requests], whose copy is drained. *)
Definition pq_prepend_requests (requests : PriorityRequestQueue) : M PriorityRequestQueue unit :=
  let! l := lift (heap_drain (length (_heap requests)) (_heap requests)) in
  mfor l pq_add.

Definition pq_remove (r : req) : M PriorityRequestQueue unit :=
  on_heap (λ h, result_bind (list_remove r h) heapify).

Definition pq_remove_requests (rs : list req) : M PriorityRequestQueue unit :=
  on_heap (λ h, heapify (filter (λ r, r ∉ rs) h)).

#[global] Instance priority_queue : RequestQueue PriorityRequestQueue := {
  new_queue := PQ [];
  add_request := pq_add;
  pop_request := pq_pop;
  peek_request := λ q, match _heap q with [] => (Raise IndexError, q) | r :: _ => (Ok r, q) end;
  prepend_request := pq_add;
  prepend_requests := pq_prepend_requests;
  remove_request := pq_remove;
  remove_requests := pq_remove_requests;
  iter_requests q := heap_drain (length (_heap q)) (_heap q);
  has_requests q := negb (bool_decide (_heap q = []));
}.

(** ** The scheduler's two queues *)
Inductive status := WAITING | PREEMPTED | WAITING_FOR_STRUCTURED_OUTPUT_GRAMMAR | WAITING_FOR_REMOTE_KVS
  | WAITING_FOR_STREAMING_REQ | RUNNING | FINISHED_STOPPED | FINISHED_LENGTH_CAPPED | FINISHED_ABORTED
  | FINISHED_IGNORED | FINISHED_ERROR | FINISHED_REPETITION.

(** [RequestStatus.is_finished]: the statuses after PREEMPTED. *)
Definition is_finished (st : status) : bool :=
  match st with
  | FINISHED_STOPPED | FINISHED_LENGTH_CAPPED | FINISHED_ABORTED | FINISHED_IGNORED | FINISHED_ERROR
  | FINISHED_REPETITION => true
  | _ => false
  end.

Definition _is_blocked_waiting_status (st : status) : bool :=
  match st with
  | WAITING_FOR_STRUCTURED_OUTPUT_GRAMMAR | WAITING_FOR_REMOTE_KVS | WAITING_FOR_STREAMING_REQ => true
  | _ => false
  end.

Record queues (Q : Type) := Queues { waiting : Q; skipped_waiting : Q }.
Arguments Queues {Q}.
Arguments waiting {Q}.
Arguments skipped_waiting {Q}.

Section TwoQueues.
Context {Q : Type} `{RequestQueue Q}.

Definition _enqueue_waiting_request (st : status) (r : req) : M (queues Q) unit :=
  if _is_blocked_waiting_status st
  then zoom skipped_waiting (λ q s, Queues (waiting s) q) (add_request r)
  else zoom waiting (λ q s, Queues q (skipped_waiting s)) (add_request r).

(** Which queue, if any. *)
Inductive choice := from_waiting | from_skipped.

Definition _select_waiting_queue_for_scheduling (fcfs : bool) : M (queues Q) (option choice) :=
  let! s := gets (λ s, s) in
  let w := has_requests (waiting s) in
  let k := has_requests (skipped_waiting s) in
  if fcfs then ret (if k then Some from_skipped else if w then Some from_waiting else None)
  else if w && k then
    let! waiting_req := lift (peek_request (waiting s)).1 in
    let! skipped_req := lift (peek_request (skipped_waiting s)).1 in
    ret (Some (if py_lt waiting_req skipped_req then from_waiting else from_skipped))
  else ret (if w then Some from_waiting else if k then Some from_skipped else None).

Definition chosen (c : choice) (s : queues Q) : Q :=
  match c with from_waiting => waiting s | from_skipped => skipped_waiting s end.
End TwoQueues.

(** ** The order is total *)
Lemma ltb_spec_str s t : String.ltb s t = true ↔ String.leb s t = true ∧ s ≠ t.
Proof.
  unfold String.ltb, String.leb. destruct (String.compare s t) eqn:E; split; try (by intros []); try done.
  - intros [_ Hne]. by apply String.compare_eq_iff in E.
  - intros _. split; [done|]. intros ->. pose proof (String.compare_antisym t t) as Hx. by rewrite E in Hx.
Qed.

Lemma str_lt_trans s t u : String.ltb s t = true → String.ltb t u = true → String.ltb s u = true.
Proof.
  rewrite !ltb_spec_str. intros [H1 N1] [H2 N2].
  assert (String.le s u) as H3 by (trans t; unfold String.le; by apply Is_true_true).
  split; [by apply Is_true_true|]. intros ->. apply N1. apply (anti_symm String.le); by apply Is_true_true.
Qed.

Lemma str_lt_total s t : String.ltb s t = false → String.ltb t s = false → s = t.
Proof.
  intros H1 H2. destruct (decide (s = t)) as [|Hne]; [done|]. destruct (total String.le s t) as [Hl|Hl].
  - assert (String.ltb s t = true); [|congruence]. apply ltb_spec_str. split; [by apply Is_true_true|done].
  - assert (String.ltb t s = true); [|congruence]. apply ltb_spec_str. split; [by apply Is_true_true|done].
Qed.

Lemma str_lt_irrefl s : String.ltb s s = false.
Proof. destruct (String.ltb s s) eqn:E; [|done]. by apply ltb_spec_str in E as []. Qed.

#[global] Instance request_order : PyOrderLaws req.
Proof.
  split; unfold py_lt, Request_lt.
  - intros x. rewrite !Z.eqb_refl, String.eqb_refl. cbn. lia.
  - intros x y z.
    destruct (Z.eqb_spec (priority x) (priority y)) as [Ep|Ep], (Z.eqb_spec (priority y) (priority z)) as [Ep'|Ep'],
      (Z.eqb_spec (priority x) (priority z)); cbn; try lia.
    destruct (Z.eqb_spec (arrival_time x) (arrival_time y)), (Z.eqb_spec (arrival_time y) (arrival_time z)),
      (Z.eqb_spec (arrival_time x) (arrival_time z)); cbn; try lia.
    destruct (String.eqb_spec (request_id x) (request_id y)) as [Ex|Ex],
      (String.eqb_spec (request_id y) (request_id z)) as [Ey|Ey], (String.eqb_spec (request_id x) (request_id z)) as [Ez|Ez];
      cbn; try lia; try congruence.
    + intros Ha Hb. pose proof (str_lt_trans _ _ _ Ha Hb) as Hc. by rewrite Ez, str_lt_irrefl in Hc.
    + apply str_lt_trans.
  - intros x y.
    destruct (Z.eqb_spec (priority x) (priority y)), (Z.eqb_spec (priority y) (priority x)); cbn; try lia.
    destruct (Z.eqb_spec (arrival_time x) (arrival_time y)), (Z.eqb_spec (arrival_time y) (arrival_time x)); cbn; try lia.
    destruct (String.eqb_spec (request_id x) (request_id y)), (String.eqb_spec (request_id y) (request_id x)); cbn; try congruence.
    + intros H1 H2. destruct x, y; cbn in *. f_equal; try done. lia.
    + intros H1 H2. by pose proof (str_lt_total _ _ H1 H2).
Qed.

(** ** What the queues promise

    The requests of a queue in the order in which they are served. *)
Class QueueSpec (Q : Type) `{RequestQueue Q} := {
  queue_ok : Q → Prop;
  service : Q → list req;
  (** the place of an added, a prepended request and of prepended requests *)
  placed : req → list req → list req;
  prepended : req → list req → list req;
}.

Class QueueLaws (Q : Type) `{QueueSpec Q} : Prop := {
  law_new : queue_ok (new_queue (Q := Q)) ∧ service (new_queue (Q := Q)) = [];
  law_add r q : queue_ok q → ∃ q', add_request r q = (Ok tt, q') ∧ queue_ok q' ∧ service q' = placed r (service q);
  law_prepend r q : queue_ok q →
    ∃ q', prepend_request r q = (Ok tt, q') ∧ queue_ok q' ∧ service q' = prepended r (service q);
  law_pop q : queue_ok q →
    match service q with
    | [] => pop_request q = (Raise IndexError, q)
    | r :: l => ∃ q', pop_request q = (Ok r, q') ∧ queue_ok q' ∧ service q' = l
    end;
  law_peek q : queue_ok q →
    peek_request q = (match service q with [] => Raise IndexError | r :: _ => Ok r end, q);
  law_prepends q0 q : queue_ok q0 → queue_ok q → ∃ q', prepend_requests q0 q = (Ok tt, q') ∧ queue_ok q' ∧
    service q' = foldl (λ l r, prepended r l) (service q) (service q0);
  law_remove r q : queue_ok q → NoDup (service q) →
    if decide (r ∈ service q) then
      ∃ q', remove_request r q = (Ok tt, q') ∧ queue_ok q' ∧ service q' = filter (.≠ r) (service q)
    else remove_request r q = (Raise ValueError, q);
  law_removes rs q : queue_ok q →
    ∃ q', remove_requests rs q = (Ok tt, q') ∧ queue_ok q' ∧ service q' = filter (.∉ rs) (service q);
  law_iter q : queue_ok q → iter_requests q = Ok (service q) ∧ (has_requests q = true ↔ service q ≠ []);
  law_adds_one r l : placed r l ≡ₚ r :: l ∧ prepended r l ≡ₚ r :: l;
}.

Lemma list_remove_spec r l :
  NoDup l → list_remove r l = if decide (r ∈ l) then Ok (filter (.≠ r) l) else Raise ValueError.
Proof.
  induction l as [|x l IH]; intros Hnd.
  { rewrite decide_False by apply not_elem_of_nil. done. }
  apply NoDup_cons in Hnd as [Hx Hnd]. cbn [list_remove]. destruct (decide (x = r)) as [E|E].
  - subst x. rewrite decide_True by by left. rewrite filter_cons_False by auto.
    rewrite filter_id; [done|]. intros y Hy ->. done.
  - rewrite IH by done. rewrite filter_cons_True by done. destruct (decide (r ∈ l)).
    + by rewrite decide_True by by right.
    + rewrite decide_False; [done|]. by intros [?|?]%elem_of_cons.
Qed.

#[global] Instance fcfs_spec : QueueSpec FCFSRequestQueue := {
  queue_ok _ := True;
  service := deque;
  placed r l := l ++ [r];
  prepended r l := r :: l;
}.

#[global] Instance fcfs_laws : QueueLaws FCFSRequestQueue.
Proof.
  split; cbn.
  - done.
  - intros r q _. by eexists.
  - intros r q _. by eexists.
  - intros [[|r l]] _; cbn; [done|]. by eexists.
  - intros [[|r l]] _; done.
  - intros q0 q _ _. by eexists.
  - intros r q _ Hnd. rewrite list_remove_spec by done. case_decide; [by eexists|done].
  - intros rs q _. by eexists.
  - intros [l] _. cbn. split; [done|]. rewrite negb_true_iff, bool_decide_eq_false. done.
  - intros r l. split; [by rewrite Permutation_app_comm|done].
Qed.

(** *** The priority queue *)
Definition sorted_requests (l : list req) : list req := merge_sort py_le l.

Lemma sorted_unique l l' : StronglySorted py_le l' → l ≡ₚ l' → sorted_requests l = l'.
Proof.
  intros Hs Hp. apply (StronglySorted_unique py_le); [|done|].
  - apply (StronglySorted_merge_sort _).
  - rewrite <-Hp. apply merge_sort_Permutation.
Qed.

Lemma sorted_perm l l' : l ≡ₚ l' → sorted_requests l = sorted_requests l'.
Proof.
  intros Hp. apply sorted_unique; [apply (StronglySorted_merge_sort _)|]. rewrite Hp. symmetry. apply merge_sort_Permutation.
Qed.

Lemma sorted_cons x l : (∀ y, y ∈ l → py_le x y) → sorted_requests (x :: l) = x :: sorted_requests l.
Proof.
  intros Hx. apply sorted_unique; [|apply perm_skip; symmetry; apply merge_sort_Permutation].
  constructor; [apply (StronglySorted_merge_sort _)|]. apply Forall_forall. intros y Hy. apply Hx.
  by rewrite <-(merge_sort_Permutation py_le l).
Qed.

Lemma elem_of_sorted x l : x ∈ sorted_requests l ↔ x ∈ l.
Proof. unfold sorted_requests. by rewrite (merge_sort_Permutation py_le l). Qed.

Lemma sorted_filter (P : req → Prop) `{∀ x, Decision (P x)} l :
  sorted_requests (filter P l) = filter P (sorted_requests l).
Proof.
  apply sorted_unique.
  - pose proof (StronglySorted_merge_sort py_le l) as Hs. fold (sorted_requests l) in Hs.
    induction Hs as [|x k _ IH Hx]; [constructor|]. rewrite filter_cons. case_decide; [|done]. constructor; [done|].
    apply Forall_forall. intros y [_ Hy]%list_elem_of_filter. by apply (proj1 (Forall_forall _ _) Hx).
  - apply filter_Permutation. symmetry. apply merge_sort_Permutation.
Qed.

Lemma sorted_nil l : sorted_requests l = [] ↔ l = [].
Proof.
  split; [|by intros ->]. intros Hs. pose proof (merge_sort_Permutation py_le l) as Hp. fold (sorted_requests l) in Hp.
  rewrite Hs in Hp. by apply Permutation_nil_l in Hp.
Qed.

(** Draining a heap sorts it. *)
Lemma heap_drain_run fuel h : (length h ≤ fuel)%nat → is_heap h → heap_drain fuel h = Ok (sorted_requests h).
Proof.
  revert h. induction fuel as [|fuel IH]; intros h Hf Hh.
  { by destruct h; [|cbn in Hf; lia]. }
  destruct h as [|y h]; [done|]. cbn [heap_drain].
  destruct (heappop_run (y :: h) Hh) as (x & h' & -> & Hh' & Hp & Hmin & _); [done|]. cbn [result_bind fst snd].
  rewrite IH; [|apply Permutation_length in Hp; cbn in *; lia|done]. cbn [result_bind].
  rewrite (sorted_perm (y :: h) (x :: h')), sorted_cons; [done| |done].
  intros z Hz. apply Hmin. rewrite Hp. by right.
Qed.

#[global] Instance priority_spec : QueueSpec PriorityRequestQueue := {
  queue_ok q := is_heap (_heap q);
  service q := sorted_requests (_heap q);
  placed r l := sorted_requests (r :: l);
  prepended r l := sorted_requests (r :: l);
}.

Lemma sorted_idem r l : sorted_requests (r :: sorted_requests l) = sorted_requests (r :: l).
Proof. apply sorted_perm. apply perm_skip, merge_sort_Permutation. Qed.

Lemma pq_add_run r q :
  is_heap (_heap q) → ∃ q', pq_add r q = (Ok tt, q') ∧ is_heap (_heap q') ∧
    sorted_requests (_heap q') = sorted_requests (r :: sorted_requests (_heap q)).
Proof.
  intros Hq. unfold pq_add, on_heap. destruct (heappush_run (_heap q) r Hq) as (h & -> & Hh & Hp).
  exists (PQ h). split; [done|]. split; [done|]. cbn [_heap]. rewrite sorted_idem. by apply sorted_perm.
Qed.

Lemma pq_heapify_run (f : list req → result (list req)) q l :
  f (_heap q) = Ok l → ∃ h, on_heap (λ h, result_bind (f h) heapify) q = (Ok tt, PQ h) ∧ is_heap h ∧ h ≡ₚ l.
Proof.
  intros Hf. unfold on_heap. rewrite Hf. cbn [result_bind]. destruct (heapify_run l) as (h & -> & Hh & Hp). by exists h.
Qed.

#[global] Instance priority_laws : QueueLaws PriorityRequestQueue.
Proof.
  split; cbn [queue_ok service placed prepended priority_spec new_queue add_request prepend_request pop_request peek_request
    prepend_requests remove_request remove_requests iter_requests has_requests priority_queue].
  - split; [by intros i a b _ _ ?|done].
  - apply pq_add_run.
  - apply pq_add_run.
  - intros [h] Hh. cbn [_heap] in *. destruct h as [|y h]; [done|]. unfold pq_pop. cbn [_heap].
    destruct (heappop_run (y :: h) Hh) as (x & h' & -> & Hh' & Hp & Hmin & _); [done|].
    rewrite (sorted_perm (y :: h) (x :: h')), sorted_cons by (done || intros z Hz; apply Hmin; rewrite Hp; by right).
    by exists (PQ h').
  - intros [h] Hh. cbn [_heap] in *. destruct h as [|y h]; [done|].
    destruct (heappop_run (y :: h) Hh) as (x & h' & _ & _ & Hp & Hmin & [= ->]); [done|].
    rewrite sorted_cons; [done|]. intros z Hz. apply Hmin. by right.
  - intros q0 q Hq0 Hq. unfold pq_prepend_requests. rewrite heap_drain_run by done.
    unfold bind at 1, lift. generalize (sorted_requests (_heap q0)) as l. intros l. revert q Hq.
    induction l as [|r l IH]; intros q Hq; cbn [mfor foldl]; [by exists q|].
    destruct (pq_add_run r q Hq) as (q1 & Hrun & Hq1 & Hs). erewrite bind_ok by exact Hrun.
    destruct (IH q1 Hq1) as (q2 & -> & Hq2 & Hs2). exists q2. by rewrite Hs2, Hs.
  - intros r q Hq Hnd. rewrite (decide_ext _ (r ∈ _heap q)) by apply elem_of_sorted.
    unfold sorted_requests in Hnd. rewrite (merge_sort_Permutation py_le (_heap q)) in Hnd.
    pose proof (list_remove_spec r (_heap q) Hnd) as Hr. unfold pq_remove. case_decide.
    + destruct (pq_heapify_run (list_remove r) q _ Hr) as (h & -> & Hh & Hp). exists (PQ h). split; [done|]. split; [done|].
      rewrite <-sorted_filter. by apply sorted_perm.
    + unfold on_heap. by rewrite Hr.
  - intros rs q Hq. destruct (pq_heapify_run (λ h, Ok (filter (.∉ rs) h)) q _ eq_refl) as (h & Hrun & Hh & Hp).
    exists (PQ h). split; [exact Hrun|]. split; [done|]. rewrite <-sorted_filter. by apply sorted_perm.
  - intros q Hq. split; [by apply heap_drain_run|]. rewrite negb_true_iff, bool_decide_eq_false, sorted_nil. done.
  - intros r l. split; apply merge_sort_Permutation.
Qed.

(** ** Runs of queue operations *)
Inductive queue_op :=
  | Add (r : req)
  | Pop
  | Peek
  | Prepend (r : req)
  | PrependAll (l : list req)
  | Remove (r : req)
  | RemoveAll (rs : list req).

Section Runs.
Context {Q : Type} `{HL : QueueLaws Q}.

Definition queue_of (l : list req) : Q := (mfor l add_request new_queue).2.

(** The operation and what it returns. *)
Definition code_op (op : queue_op) : M Q (option req) :=
  match op with
  | Add r => add_request r >> ret None
  | Pop => let! r := pop_request in ret (Some r)
  | Peek => let! r := peek_request in ret (Some r)
  | Prepend r => prepend_request r >> ret None
  | PrependAll l => prepend_requests (queue_of l) >> ret None
  | Remove r => remove_request r >> ret None
  | RemoveAll rs => remove_requests rs >> ret None
  end.

(** The operation on the list of requests in service order. *)
Definition spec_op (op : queue_op) (l : list req) : result (option req) * list req :=
  match op with
  | Add r => (Ok None, placed r l)
  | Pop => match l with [] => (Raise IndexError, []) | r :: l' => (Ok (Some r), l') end
  | Peek => (match l with [] => Raise IndexError | r :: _ => Ok (Some r) end, l)
  | Prepend r => (Ok None, prepended r l)
  | PrependAll l0 => (Ok None, foldl (λ l r, prepended r l) l (foldl (λ l r, placed r l) [] l0))
  | Remove r => if decide (r ∈ l) then (Ok None, filter (.≠ r) l) else (Raise ValueError, l)
  | RemoveAll rs => (Ok None, filter (.∉ rs) l)
  end.

(** Run the operations one after the other; an exception leaves the caller running. *)
Fixpoint run_ops {St} (step : queue_op → St → result (option req) * St) (ops : list queue_op) (s : St)
    : list (result (option req)) * St :=
  match ops with
  | [] => ([], s)
  | op :: ops' =>
      let x := step op s in
      let y := run_ops step ops' x.2 in
      (x.1 :: y.1, y.2)
  end.

(** Each request is in the queue at most once while one is removed. *)
Fixpoint removals_ok (ops : list queue_op) (l : list req) : Prop :=
  match ops with
  | [] => True
  | op :: ops' => match op with Remove _ => NoDup l | _ => True end ∧ removals_ok ops' (spec_op op l).2
  end.

Lemma queue_of_run l : queue_ok (queue_of l) ∧ service (queue_of l) = foldl (λ l r, placed r l) [] l.
Proof.
  unfold queue_of. destruct law_new as [H1 H2]. revert H1 H2. generalize (new_queue (Q := Q)) as q. intros q.
  generalize (@nil req) as k. revert q. induction l as [|r l IH]; intros q k Hq Hk; cbn [mfor foldl]; [done|].
  destruct (law_add r q Hq) as (q1 & Hrun & Hq1 & Hs). erewrite bind_ok by exact Hrun.
  apply IH; [done|]. by rewrite Hs, Hk.
Qed.

Lemma code_op_run op q :
  queue_ok q → match op with Remove _ => NoDup (service q) | _ => True end →
  ∃ q', code_op op q = ((spec_op op (service q)).1, q') ∧ queue_ok q' ∧ service q' = (spec_op op (service q)).2.
Proof.
  intros Hq Hnd. destruct op as [r| | |r|l|r|rs]; cbn [code_op spec_op].
  - destruct (law_add r q Hq) as (q' & Hrun & Hq' & Hs). exists q'. by erewrite bind_ok by exact Hrun.
  - pose proof (law_pop q Hq) as Hp. destruct (service q) as [|r l] eqn:Es.
    + exists q. by rewrite (bind_raise _ _ _ _ _ Hp).
    + destruct Hp as (q' & Hrun & Hq' & Hs). exists q'. by erewrite bind_ok by exact Hrun.
  - exists q. pose proof (law_peek q Hq) as Hp. destruct (service q) as [|r l] eqn:Es.
    + by rewrite (bind_raise _ _ _ _ _ Hp).
    + by erewrite bind_ok by exact Hp.
  - destruct (law_prepend r q Hq) as (q' & Hrun & Hq' & Hs). exists q'. by erewrite bind_ok by exact Hrun.
  - destruct (queue_of_run l) as [H1 H2]. destruct (law_prepends (queue_of l) q H1 Hq) as (q' & Hrun & Hq' & Hs).
    exists q'. erewrite bind_ok by exact Hrun. by rewrite Hs, H2.
  - pose proof (law_remove r q Hq Hnd) as Hr. case_decide.
    + destruct Hr as (q' & Hrun & Hq' & Hs). exists q'. by erewrite bind_ok by exact Hrun.
    + exists q. by rewrite (bind_raise _ _ _ _ _ Hr).
  - destruct (law_removes rs q Hq) as (q' & Hrun & Hq' & Hs). exists q'. by erewrite bind_ok by exact Hrun.
Qed.

Lemma run_ops_run ops q :
  queue_ok q → removals_ok ops (service q) →
  let x := run_ops code_op ops q in let y := run_ops spec_op ops (service q) in
  x.1 = y.1 ∧ queue_ok x.2 ∧ service x.2 = y.2.
Proof.
  revert q. induction ops as [|op ops IH]; intros q Hq Hr; [done|]. destruct Hr as [Hnd Hr].
  destruct (code_op_run op q Hq Hnd) as (q' & Hrun & Hq' & Hs). cbn [run_ops]. rewrite Hrun. cbn [fst snd].
  rewrite <-Hs in Hr |- *. destruct (IH q' Hq' Hr) as (H1 & H2 & H3). cbn [fst snd]. by rewrite H1.
Qed.
End Runs.

(** ** The properties *)

(** C28: both request queues are refinements of a list in service order.  For the
    deque of the FCFS policy and for the heap of the priority policy, any sequence
    of operations on a new queue, in which [remove_request] is only called while
    no request is queued twice, returns, request for request and exception for
    exception, what it returns on a plain list: a pop or peek serves its head and
    raises [IndexError] on an empty queue, [remove_request] raises [ValueError] for
    an absent request.  In the FCFS list a request is added at the end and
    prepended at the front; the priority list is always the sorted one, so a pop
    serves the least of the waiting requests. *)
Theorem request_queue_refines_list {Q : Type} `{QueueLaws Q} (ops : list queue_op) :
  removals_ok ops [] →
  let '(outs, q) := run_ops code_op ops (new_queue (Q := Q)) in
  let '(outs', l) := run_ops spec_op ops [] in
  outs = outs' ∧ service q = l ∧ iter_requests q = Ok l ∧ (has_requests q = true ↔ l ≠ []).
Proof.
  intros Hr. destruct law_new as [E1 E2]. rewrite <-E2 in Hr. destruct (run_ops_run ops new_queue E1 Hr) as (E3 & E4 & E5).
  rewrite E2 in E3, E5. destruct (run_ops code_op ops new_queue) as [outs q], (run_ops spec_op ops []) as [outs' l]. cbn in *.
  subst l. split; [done|]. split; [done|]. by apply law_iter.
Qed.

(** The scheduler takes requests by priority from its two queues together.
    Under the priority policy [_select_waiting_queue_for_scheduling] returns none
    exactly if both queues are empty, and otherwise a queue whose next request is
    not after any request of either queue in the order of [Request.__lt__]; under
    FCFS the skipped requests go first. *)
Theorem select_queue_serves_least (s : queues PriorityRequestQueue) (t : queues FCFSRequestQueue) :
  is_heap (_heap (waiting s)) → is_heap (_heap (skipped_waiting s)) →
  (∃ c, _select_waiting_queue_for_scheduling false s = (Ok c, s) ∧
    match c with
    | None => _heap (waiting s) = [] ∧ _heap (skipped_waiting s) = []
    | Some c => ∃ r, peek_request (chosen c s) = (Ok r, chosen c s) ∧
        ∀ x, x ∈ _heap (waiting s) ∨ x ∈ _heap (skipped_waiting s) → py_le r x
    end) ∧
  _select_waiting_queue_for_scheduling true t =
    (Ok (if decide (deque (skipped_waiting t) = []) then
           if decide (deque (waiting t) = []) then None else Some from_waiting
         else Some from_skipped), t).
Proof.
  intros Hw Hk. split.
  2: { unfold _select_waiting_queue_for_scheduling. destruct t as [[[|? w]] [[|? k]]]; reflexivity. }
  assert (Hpeek : ∀ q : PriorityRequestQueue, is_heap (_heap q) →
    match _heap q with
    | [] => has_requests q = false
    | r :: _ => has_requests q = true ∧ peek_request q = (Ok r, q) ∧ ∀ x, x ∈ _heap q → py_le r x
    end).
  { intros [[|r h]] Hq; [done|]. cbn [_heap] in *. split; [done|]. split; [done|].
    intros x [i Hx]%list_elem_of_lookup. by apply (heap_min (r :: h) r i x). }
  destruct s as [w k]. cbn [waiting skipped_waiting] in *. pose proof (Hpeek w Hw) as H1. pose proof (Hpeek k Hk) as H2.
  unfold _select_waiting_queue_for_scheduling. run_step. cbn [waiting skipped_waiting].
  destruct (_heap w) as [|a w'] eqn:Ew, (_heap k) as [|b k'] eqn:Ek.
  - rewrite H1, H2. by exists None.
  - destruct H2 as (-> & Hp & Hmin). rewrite H1. exists (Some from_skipped). split; [done|]. exists b. split; [done|].
    intros x [?%elem_of_nil|Hx]; [done|by apply Hmin].
  - destruct H1 as (-> & Hp & Hmin). rewrite H2. exists (Some from_waiting). split; [done|]. exists a. split; [done|].
    intros x [Hx|?%elem_of_nil]; [by apply Hmin|done].
  - destruct H1 as (-> & Hp1 & Hm1), H2 as (-> & Hp2 & Hm2). cbn [andb]. rewrite Hp1, Hp2. unfold bind, lift. cbn [fst].
    eexists. split; [reflexivity|]. destruct (py_lt a b) eqn:E.
    + exists a. split; [done|]. intros x [Hx|Hx]; [by apply Hm1|]. trans b; [by apply py_lt_le|by apply Hm2].
    + exists b. split; [done|]. intros x [Hx|Hx]; [|by apply Hm2]. trans a; [done|by apply Hm1].
Qed.

(** *** Witnesses *)
Definition demo_r (p t : Z) (id : string) : req := Req p t id 0.
Definition demo_ops : list queue_op :=
  [Add (demo_r 2 5 "a"); Add (demo_r 1 9 "b"); Add (demo_r 1 7 "c"); Prepend (demo_r 0 8 "d"); Pop;
   Remove (demo_r 1 9 "b"); Remove (demo_r 1 9 "b"); PrependAll [demo_r 3 1 "e"; demo_r 1 6 "f"]; Pop; Pop; Pop; Pop; Pop].
(** The ids that the pops of a run return. *)
Definition demo_pops (outs : list (result (option req))) : list string :=
  omap (λ o, match o with Ok (Some r) => Some (request_id r) | _ => None end) outs.

Lemma request_queue_refines_list_witness :
  demo_pops (run_ops (spec_op (Q := PriorityRequestQueue)) demo_ops []).1 = ["d"; "f"; "c"; "a"; "e"]%string ∧
  (run_ops (code_op (Q := PriorityRequestQueue)) demo_ops new_queue).1 = (run_ops (spec_op (Q := PriorityRequestQueue)) demo_ops []).1 ∧
  (run_ops (code_op (Q := FCFSRequestQueue)) demo_ops new_queue).1 = (run_ops (spec_op (Q := FCFSRequestQueue)) demo_ops []).1.
Proof.
  split; [by vm_compute|].
  pose proof (request_queue_refines_list (Q := PriorityRequestQueue) demo_ops) as Hp.
  pose proof (request_queue_refines_list (Q := FCFSRequestQueue) demo_ops) as Hf.
  assert (removals_ok (Q := PriorityRequestQueue) demo_ops []) as H1 by (cbn; repeat split; apply (bool_decide_unpack _); by vm_compute).
  assert (removals_ok (Q := FCFSRequestQueue) demo_ops []) as H2 by (cbn; repeat split; apply (bool_decide_unpack _); by vm_compute).
  specialize (Hp H1). specialize (Hf H2).
  destruct (run_ops code_op demo_ops (new_queue (Q := PriorityRequestQueue))), (run_ops (spec_op (Q := PriorityRequestQueue)) demo_ops []).
  destruct (run_ops code_op demo_ops (new_queue (Q := FCFSRequestQueue))), (run_ops (spec_op (Q := FCFSRequestQueue)) demo_ops []).
  split; [apply Hp|apply Hf].
Defined.

Definition demo_queues : queues PriorityRequestQueue :=
  Queues (queue_of [demo_r 2 5 "a"; demo_r 1 9 "b"]) (queue_of [demo_r 1 7 "c"]).

Lemma select_queue_serves_least_witness :
  ∃ r, peek_request (skipped_waiting demo_queues) = (Ok r, skipped_waiting demo_queues) ∧
    (∀ x, x ∈ _heap (waiting demo_queues) ∨ x ∈ _heap (skipped_waiting demo_queues) → py_le r x).
Proof.
  destruct (select_queue_serves_least demo_queues (Queues (FCFS []) (FCFS []))) as [(c & Hc & Hs) _].
  - exact (proj1 (queue_of_run (Q := PriorityRequestQueue) [demo_r 2 5 "a"; demo_r 1 9 "b"])).
  - exact (proj1 (queue_of_run (Q := PriorityRequestQueue) [demo_r 1 7 "c"])).
  - replace c with (Some from_skipped) in Hs; [exact Hs|].
    assert (_select_waiting_queue_for_scheduling false demo_queues = (Ok (Some from_skipped), demo_queues)) as Hx by (by vm_compute).
    rewrite Hx in Hc. by injection Hc.
Defined.
