(* ===== verification/WorkerLoad.v ===== *)
(** * The worker connector's load path

    Models the rest of [OffloadPackageWorker] of
    offload_package/integration/worker_connector.py: [start_load_kv] with
    [_get_cached_sparse_pattern] and [_launch_cpu_to_staging_copy], the
    synchronisation of the block tables from the runner ([_try_sync_blocks],
    [_sync_blocks_from_runner]), [bind_connector_metadata] with the ids it
    hands to the Skylight builder, and the facade's [build_connector_meta]
    (connector.py).  [start_load_kv] fetches only when the Skylight builder is not
    armed with the orchestrator; the builder's own fetch is in Builder.v. *)

From S2P Require Import Prelude PyData Float Residency Scoring Pages OffloadManager StagingPool.
From S2P Require Import Controller Selection Orchestrator OrchestratorSpec Scheduler Worker.
From stdpp Require Import base gmap sets list strings.
From Stdlib Require Import ZArith Lia.
Open Scope Z_scope.

(** The runner's block tables and batch, once [execute_model_state] exists. *)
Record runner := Runner {
  (** [block_tables.block_tables[0].gpu] *)
  group_0_table : list (list Z);
  (** [num_blocks.np[0]], if it has two dimensions *)
  num_blocks_np : option (list Z);
  req_ids : list string;
}.

Record loader (S : Type) := Loader {
  l_worker : worker;
  l_orch : option (orch S);
  (** the Skylight builder class holds the orchestrator *)
  l_armed : bool;
  l_runner : option runner;
  (** [_sparse_pattern_cache], and the builder's [_cached_request_ids] *)
  l_pattern : option (tensor3 * tensor3);
  l_request_ids : option (list string);
  l_builder_ids : option (list string);
}.
Arguments Loader {S}.
Arguments l_worker {S}.
Arguments l_orch {S}.
Arguments l_armed {S}.
Arguments l_runner {S}.
Arguments l_pattern {S}.
Arguments l_request_ids {S}.
Arguments l_builder_ids {S}.

Section Load.
Context {S : Type} `{BlockScorer S} (T : torch_ops)
  (fused : list kv_layer → list Z → option (list (list (list f64)) * list (list (list f64)))).

Definition set_worker (w : worker) (l : loader S) : loader S :=
  Loader w (l_orch l) (l_armed l) (l_runner l) (l_pattern l) (l_request_ids l) (l_builder_ids l).
Definition set_l_orch (o : option (orch S)) (l : loader S) : loader S :=
  Loader (l_worker l) o (l_armed l) (l_runner l) (l_pattern l) (l_request_ids l) (l_builder_ids l).

Definition on_worker {A} (op : M worker A) : M (loader S) A := zoom l_worker set_worker op.

Definition on_l_orch {A} (dflt : A) (op : M (orch S) A) : M (loader S) A := λ l,
  match l_orch l with
  | None => (Ok dflt, l)
  | Some o => let '(r, o') := op o in (r, set_l_orch (Some o') l)
  end.

Definition bind_metadata (m : OffloadPackageMetadata) : M (loader S) unit :=
  on_worker (bind_connector_metadata m) >>
  when negb (bool_decide (request_ids m = [])) do modify (λ l,
    Loader (l_worker l) (l_orch l) (l_armed l) (l_runner l) (l_pattern l) (Some (request_ids m)) (Some (request_ids m))).

(** One request of the runner's batch. *)
Definition sync_row (r : runner) (e : Z * string) : M (loader S) unit :=
  let! num_blocks := lift (match num_blocks_np r with Some ns => py_index ns e.1 | None => Ok 0 end) in
  if num_blocks =? 0 then ret tt
  else
    let! row := lift (py_index (group_0_table r) e.1) in
    on_l_orch [] (sync_request_blocks T fused e.2 (py_take row num_blocks) 0) >> ret tt.

Definition _try_sync_blocks : M (loader S) unit :=
  let! l := gets (λ l, l) in
  match l_runner l, l_orch l with
  | Some r, Some _ => mfor (zip (zrange 0 (zlen (req_ids r))) (req_ids r)) (sync_row r)
  | _, _ => ret tt
  end.

(** Layer by layer: the CPU slot's K and V, permuted and concatenated, to the
    staging page. *)
Fixpoint copy_layers (cpu_slot page : Z) (layer todo : nat) : M (offload S) unit :=
  match todo with
  | O => ret tt
  | Datatypes.S todo' =>
      let! m := gets (λ m, m) in
      let! src := lift (py_index (cpu_cache m) (Z.of_nat layer)) in
      let! s := lift (py_index src cpu_slot) in
      let! g := lift (py_index (gpu_caches m) (Z.of_nat layer)) in
      let! new := lift (py_set_index (k_cache g) page (slab_to_page s)) in
      modify (λ m, with_gpu (<[layer := Layer new (v_cache g)]> (gpu_caches m)) m) >>
      copy_layers cpu_slot page (Datatypes.S layer) todo'
  end.

Definition _launch_cpu_to_staging_copy (cpu_slot staging_slot : Z) : M (orch S) unit :=
  let! o := gets (λ o, o) in
  on_manager (copy_layers cpu_slot (base (o_pool o) + staging_slot) 0 (length (gpu_caches (o_om o)))).

(** Copy a block of the staging map, if it has a CPU slot. *)
Definition fetch_entry (e : BlockRef * Z) : M (orch S) unit :=
  let! o := gets (λ o, o) in
  match o_loc o e.1 ≫= cpu_slot with
  | Some cs => _launch_cpu_to_staging_copy cs e.2
  | None => ret tt
  end.

(** The event of the step; [None] if nothing is loaded. *)
Definition load_event_of (l : loader S) : option Z :=
  (λ m, if load_event m =? -1 then 0 else load_event m) <$> w_meta (l_worker l).

(** The request ids: the cache's, or the metadata's. *)
Definition load_ids (l : loader S) : list string :=
  match l_request_ids l with
  | Some ((_ :: _) as ids) => ids
  | _ => default [] (request_ids <$> w_meta (l_worker l))
  end.

Definition record_load (k : Z) : M (loader S) unit :=
  on_worker (modify (λ w, with_load (_load_events w ++ [k]) (_load_hwm w) (_pending_load_event_indices w)
    (_completed_load_events w) w)).

Definition start_load_kv (io : option nat) : M (loader S) unit :=
  let! armed := gets l_armed in
  if armed : bool then ret tt
  else
    _try_sync_blocks >>
    let! l := gets (λ l, l) in
    match load_event_of l, l_orch l, l_pattern l, load_ids l with
    | Some k, Some _, Some (si, sl), (_ :: _) as ids =>
        let! staging_map := on_l_orch [] (prepare_staging io ids si sl) in
        on_l_orch tt (mfor staging_map fetch_entry) >>
        record_load k
    | _, _, _, _ => ret tt
    end.
End Load.

(** The facade: an exception of the scheduler's handler becomes empty metadata. *)
Definition connector_build_meta {S} `{BlockScorer S} (T : torch_ops) fused argsort_desc (io : option nat)
    (out : SchedulerOutput) : M (sched S) OffloadPackageMetadata :=
  catch (build_connector_meta T fused argsort_desc io out) (λ _, ret meta_init).

(** ** The copies are redundant *)
Section Redundant.
Context {S : Type} `{LawfulScorer S} (np n : Z).
Implicit Types o : orch S.

Lemma copy_layers_same cs page todo layer (m : offload S) :
  0 ≤ cs → 0 ≤ page → (layer + todo = length (gpu_caches m))%nat →
  (∀ k, (k < length (gpu_caches m))%nat → ∃ sl, slab_at (cpu_cache m) k (Z.to_nat cs) = Some sl ∧
     page_at (gpu_caches m) k (Z.to_nat page) = Some (slab_to_page sl)) →
  copy_layers cs page layer todo m = (Ok tt, m).
Proof.
  intros Hcs Hpg. revert layer. induction todo as [|todo IH]; intros layer Hl Hk; [done|]. cbn [copy_layers].
  assert (Hpy : ∀ {A} (l : list A) (i : Z) x, 0 ≤ i → l !! Z.to_nat i = Some x → py_index l i = Ok x).
  { intros A l i x Hi Hx. unfold py_index. rewrite (proj2 (Z.ltb_ge i 0)) by lia.
    rewrite (proj2 (Z.ltb_ge i 0)) by lia. by rewrite Hx. }
  destruct (Hk layer) as (sl & Hsl & Hp); [lia|]. unfold slab_at, page_at in Hsl, Hp.
  destruct (cpu_cache m !! layer) as [src|] eqn:Ec; [|done]. destruct (gpu_caches m !! layer) as [g|] eqn:Eg; [|done].
  cbn in Hsl, Hp. run_step.
  rewrite (bind_ok _ _ m src m) by (unfold lift; by rewrite (Hpy _ _ _ src) by (lia || by rewrite Nat2Z.id)).
  rewrite (bind_ok _ _ m sl m) by (unfold lift; by rewrite (Hpy _ _ _ sl)).
  rewrite (bind_ok _ _ m g m) by (unfold lift; by rewrite (Hpy _ _ _ g) by (lia || by rewrite Nat2Z.id)).
  rewrite (bind_ok _ _ m (k_cache g) m).
  2: { unfold lift, py_set_index. rewrite (proj2 (Z.ltb_ge page 0)) by lia. cbn.
       pose proof (lookup_lt_Some _ _ _ Hp) as Hlt. rewrite (proj2 (Z.ltb_ge page 0)) by lia.
       rewrite (proj2 (Z.leb_gt _ _)) by (unfold zlen; lia). cbn. by rewrite list_insert_id. }
  run_step. replace (Layer (k_cache g) (v_cache g)) with g by (by destruct g). rewrite list_insert_id by done.
  replace (with_gpu (gpu_caches m) m) with m by (by destruct m). apply IH; [lia|done].
Qed.

(** The entries of the map that are staged with the contents of their CPU copy. *)
Definition map_staged o (res : list (BlockRef * Z)) : Prop :=
  ∀ r s cs, (r, s) ∈ res → o_loc o r ≫= cpu_slot = Some cs → 0 ≤ cs ∧ 0 ≤ base (o_pool o) + s ∧
    ∀ k, (k < length (gpu_caches (o_om o)))%nat → ∃ sl, slab_at (cpu_cache (o_om o)) k (Z.to_nat cs) = Some sl ∧
      page_at (gpu_caches (o_om o)) k (Z.to_nat (base (o_pool o) + s)) = Some (slab_to_page sl).

Lemma fetch_same o res : map_staged o res → mfor res fetch_entry o = (Ok tt, o).
Proof.
  induction res as [|[r s] res IH]; intros Hm; [done|]. cbn [mfor]. unfold fetch_entry at 1. unfold bind at 1 2, gets. cbn [fst snd].
  destruct (o_loc o r ≫= cpu_slot) as [cs|] eqn:Ec.
  - destruct (Hm r s cs) as (H1 & H2 & H3); [by left|done|].
    unfold _launch_cpu_to_staging_copy, bind at 1, gets, on_manager, on_pool, on_om, zoom.
    change (om (o_pool o)) with (o_om o). rewrite copy_layers_same by done.
    replace (with_pool (with_om (o_om o) (o_pool o)) o) with o by (destruct o as [? []]; done).
    apply IH. intros r' s' cs' Hin. apply Hm. by right.
  - unfold ret. apply IH. intros r' s' cs' Hin. apply Hm. by right.
Qed.

(** The staging map is a dict. *)
Lemma classify_dict refs res fetch (p : staging S) res' fetch' p' :
  dict_ok res → classify refs res fetch p = (Ok (res', fetch'), p') → dict_ok res'.
Proof.
  revert res fetch p. induction refs as [|ref refs IH]; intros res fetch p Hd; cbn [classify].
  { by intros [= <- _ _]. }
  unfold bind at 1, gets. destruct (sp_loc p ref) as [[[] g [cs|] [s|] c]|]; try done;
    try (by apply IH); unfold bind, gets, lift, modify.
  all: try (destruct (on_om _ _) as [[[]|?] ?]; [by apply IH|done]).
  all: destruct (dmove_to_end ref (_lru p)); [|done]; by apply IH, dict_ok_dset.
Qed.

Lemma ensure_dict io refs (p : staging S) res sk p' :
  ensure_resident io refs p = (Ok (res, sk), p') → dict_ok res.
Proof.
  unfold ensure_resident. unfold bind at 1. destruct (classify _ _ _ p) as [[[res0 fetch]|e] p0] eqn:Ec; [|done].
  apply classify_dict in Ec; [|constructor]. case_bool_decide; [by intros [= <- _ _]|].
  unfold bind at 1. destruct (reserve _ _ _ _ p0) as [[[allocs skipped]|e] p1]; [|done].
  unfold bind at 1. destruct (catch _ _ p1) as [[[]|e] p2]; [|done].
  unfold bind at 1. destruct (mfor allocs _ p2) as [[[]|e] p3]; [|done].
  intros [= <- _ _]. revert res0 Ec. induction allocs as [|a allocs IH]; intros res0 Ec; [done|].
  apply IH. by apply dict_ok_dset.
Qed.

(** A recorded CPU slot exists. *)
Lemma cpu_slot_range o r l cs :
  orch_inv np n o → o_loc o r = Some l → cpu_slot l = Some cs → 0 ≤ cs < n.
Proof.
  intros Hinv Hl Hcs. pose proof (si_om _ _ _ (oi_sp _ _ _ Hinv)) as Hom.
  destruct (cpu_used_around (om_residency (om (o_pool o))) r (ts_ok _ _ _ _ Hom)) as (a & b & Hu & _); [by exists l|].
  apply elem_of_zrange. rewrite <-(ts_part _ _ _ _ Hom), Hu.
  change (loc_of (om_residency (om (o_pool o))) r) with (o_loc o r). rewrite Hl. cbn. rewrite Hcs. cbn. set_solver.
Qed.

(** What [prepare_staging] returns is staged with the right contents. *)
Lemma prepare_map_staged io ids si sl o res o1 :
  orch_inv np n o → prepare_staging io ids si sl o = (Ok res, o1) → map_staged o1 res.
Proof.
  intros Hinv. unfold prepare_staging. do 2 run_step.
  destruct (_ =? _); [intros [= <- _] r s cs ?%elem_of_nil; done|]. do 2 run_step.
  set (o0 := with_seen (cpu_version (o_table o)) o). assert (orch_inv np n o0) as Hinv0 by by apply (orch_inv_frame _ _ o).
  unfold bind at 1, lift. destruct (collect_needed_block_refs _ _ _ _) as [needed|]; [|done]. run_step.
  set (refs := filter (λ r, is_on_cpu o0 r = true) needed).
  assert (∀ r, r ∈ refs → is_on_cpu o0 r = true) as Hcpu by by intros r [? _]%list_elem_of_filter.
  destruct (stage_run np n io refs o0 Hinv0 Hcpu) as [_ Hen].
  unfold bind at 1. unfold on_pool, zoom in *. destruct (ensure_resident io refs (o_pool o0)) as [[[m sk]|e] p'] eqn:Er; [|done].
  intros [= <- <-]. change (o_pool (with_pool p' o0)) with p' in Hen. pose proof (ensure_dict _ _ _ _ _ _ Er) as Hd. intros r s cs Hin Hcs.
  apply dget_elem_of in Hin; [|done]. destruct (en_keys _ _ _ _ _ _ Hen r (ex_intro _ s Hin)) as [Hr Hnsk].
  destruct (cpu_refs_entry np n o0 r Hinv0 (Hcpu r Hr)) as (l0 & cs0 & Hl0 & Hres0 & Hc0 & He0).
  destruct (en_cpu _ _ _ _ _ _ Hen) as (E1 & _ & E2 & _ & _).
  destruct (en_staged _ _ _ _ _ _ Hen r cs0 Hr He0) as [[Hsk Hsame]|(_ & l & s' & Hl & Hs' & Hrange & Hloc & Hpages)].
  - done.
  - assert (s' = s) as -> by (rewrite Hin in Hs'; by injection Hs'). assert (Some l = Some l0) as [= ->] by (transitivity (o_loc o0 r); [symmetry; exact Hl|exact Hl0]).
    pose proof (Hloc : o_loc (with_pool p' o0) r = _) as Hloc'. rewrite Hloc', Hc0 in Hcs. cbn in Hcs. injection Hcs as <-.
    unfold o_om. cbn [o_pool with_pool].
    rewrite E1, E2. destruct (en_gpu _ _ _ _ _ _ Hen) as [Hshape _].
    assert (length (gpu_caches (om p')) = length (gpu_caches (om (o_pool o0)))) as Hlen.
    { apply (f_equal length) in Hshape. unfold gshape in Hshape. by rewrite !length_fmap in Hshape. }
    rewrite Hlen, Z.add_comm. split; [by apply (cpu_slot_range o0 r l0 cs0)|]. split; [|exact Hpages].
    destruct (eo_base _ _ _ (oi_env _ _ _ Hinv0)). lia.
Qed.
End Redundant.

(** ** Load events are recorded and forgotten *)

(** A call of the worker, [start_load_kv] included. *)
Inductive load_step {S} `{BlockScorer S} T fused (l : loader S) : loader S → Prop :=
  | ls_bind m : load_step T fused l (bind_metadata m l).2
  | ls_load io : load_step T fused l (start_load_kv T fused io l).2
  | ls_clear : load_step T fused l (on_worker clear_connector_metadata l).2
  | ls_save : load_step T fused l (on_worker wait_for_save l).2
  | ls_poll done_load done_store : load_step T fused l (on_worker (get_finished done_load done_store) l).2
  | ls_report : load_step T fused l (on_worker build_worker_meta l).2
  | ls_pattern pat ids : load_step T fused l
      (Loader (l_worker l) (l_orch l) (l_armed l) (l_runner l) pat ids (l_builder_ids l)).

Inductive load_steps {S} `{BlockScorer S} T fused (l : loader S) : loader S → Prop :=
  | lss_refl : load_steps T fused l l
  | lss_step l1 l2 : load_steps T fused l l1 → load_step T fused l1 l2 → load_steps T fused l l2.

(** Nothing is pending or completed on the load side. *)
Definition no_load_pending (w : worker) : Prop :=
  _pending_load_event_indices w = ∅ ∧ _completed_load_events w = ∅.

Definition load_side (w : worker) : list Z * Z * gset Z * gmap Z Z :=
  (_load_events w, _load_hwm w, _pending_load_event_indices w, _completed_load_events w).

(** Polling with nothing pending leaves the load side alone and returns nothing. *)
Lemma poll_no_load load_done store_done w :
  no_load_pending w → ∃ w', get_finished load_done store_done w = (Ok None, w') ∧ load_side w' = load_side w.
Proof.
  intros [Hp _]. unfold get_finished. run_step. rewrite bool_decide_eq_true_2 by done.
  unfold bind at 1, ret at 1. cbn beta iota. run_step.
  set (m := if bool_decide (_pending_store_event_indices w = ∅) then ret tt else _).
  assert (stable (λ w', load_side w' = load_side w) m) as Hst.
  { unfold m, _poll_events, finish_store.
    repeat stable_step ltac:(idtac). all: unfold load_side in *; cbn; congruence. }
  assert (∃ w', m w = (Ok tt, w')) as (w' & Hm).
  { unfold m. case_bool_decide; [by exists w|]. unfold _poll_events, bind at 1 2, gets, ret.
    destruct (poll_loop _ _ _) as [ev hwm]. unfold bind, modify. generalize (with_store ev hwm (_pending_store_event_indices w) (_completed_store_events w) w).
    generalize (finished_upto hwm (_pending_store_event_indices w)). intros js. induction js as [|j js IH]; intros w1; [by exists w1|].
    cbn [mfor]. unfold bind at 1, finish_store at 1, modify. apply IH. }
  exists w'. split; [by rewrite (bind_ok _ _ _ _ _ Hm), bool_decide_eq_true_2|].
  specialize (Hst w eq_refl). by rewrite Hm in Hst.
Qed.

Section NoLoad.
Context {S : Type} `{BlockScorer S} (T : torch_ops)
  (fused : list kv_layer → list Z → option (list (list (list f64)) * list (list (list f64)))).
Notation I := (λ l : loader S, no_load_pending (l_worker l)).

Lemma stable_on_worker {A} (op : M worker A) : stable no_load_pending op → stable I (on_worker op).
Proof.
  intros Hop l Hl. unfold on_worker, zoom. specialize (Hop (l_worker l) Hl). by destruct (op (l_worker l)).
Qed.

Lemma stable_on_l_orch {A} d (op : M (orch S) A) : stable I (on_l_orch d op).
Proof. intros l Hl. unfold on_l_orch. destruct (l_orch l) as [o|]; [|done]. by destruct (op o). Qed.

Lemma start_load_stable io : stable I (start_load_kv T fused io).
Proof.
  unfold start_load_kv, _try_sync_blocks, sync_row, record_load.
  repeat first [apply stable_on_l_orch | apply stable_on_worker | stable_step ltac:(idtac)]. done.
Qed.

Lemma load_step_stable (l l' : loader S) : I l → load_step T fused l l' → I l'.
Proof.
  intros Hl [m|io| | |d1 d2| |pat ids]; cbn [l_worker].
  - unfold bind_metadata. apply (stable_bind I); [|intros _|done].
    + apply stable_on_worker, stable_modify. by intros w Hw.
    + destruct (negb _); [|apply stable_ret]. apply stable_modify. by intros k Hk.
  - by apply start_load_stable.
  - apply stable_on_worker; [|done]. apply stable_modify. by intros w Hw.
  - apply stable_on_worker; [|done]. unfold wait_for_save. repeat stable_step ltac:(done).
  - apply stable_on_worker; [|done]. intros w Hw. destruct (poll_no_load d1 d2 w Hw) as (w' & -> & E).
    unfold load_side in E. injection E as _ _ E1 E2. unfold no_load_pending in *. cbn. by rewrite E1, E2.
  - apply stable_on_worker; [|done]. intros w [Hp Hc]. unfold build_worker_meta, bind, gets, modify, ret.
    by destruct (_ && _).
  - exact Hl.
Qed.

Lemma load_steps_stable (l l' : loader S) : I l → load_steps T fused l l' → I l'.
Proof. intros Hl. induction 1; [done|]. by eapply load_step_stable. Qed.
End NoLoad.

(** ** The properties *)

(** [start_load_kv] is [prepare_staging] followed by the record of an event.
    When the Skylight builder is not armed, the step has metadata and a selection
    is cached, the copies it launches for the staging map write every page with
    what it holds already: the orchestrator, GPU pages included, ends exactly as
    [prepare_staging] leaves it, and if that raises, so does [start_load_kv]. *)
Theorem start_load_only_prepares {S} `{LawfulScorer S} np n T fused io (l l1 : loader S) o si sl k ids :
  l_armed l = false → _try_sync_blocks T fused l = (Ok tt, l1) →
  l_orch l1 = Some o → orch_inv np n o → l_pattern l1 = Some (si, sl) → load_event_of l1 = Some k →
  load_ids l1 = ids → ids ≠ [] →
  start_load_kv T fused io l =
    (let '(r, o1) := prepare_staging io ids si sl o in
     match r with
     | Ok _ => record_load k (set_l_orch (Some o1) l1)
     | Raise e => (Raise e, set_l_orch (Some o1) l1)
     end).
Proof.
  intros Ha Hsync Ho Hinv Hpat Hk Hids Hne. unfold start_load_kv. run_step. rewrite Ha. run_step. run_step.
  rewrite Hk, Ho, Hpat, Hids. destruct ids as [|i ids]; [done|].
  unfold bind at 1, on_l_orch at 1. rewrite Ho.
  destruct (prepare_staging io (i :: ids) si sl o) as [[m|e] o1] eqn:Ep; [|done].
  pose proof (prepare_map_staged np n io (i :: ids) si sl o m o1 Hinv Ep) as Hm.
  unfold bind at 1, on_l_orch. cbn [l_orch set_l_orch]. rewrite (fetch_same o1 m Hm). done.
Qed.

(** Load events are recorded but never reported.  [start_load_kv] appends
    its event to [_load_events] without adding it to the pending indices, and
    polling looks at the events only if something is pending: whatever calls the
    worker gets, [get_finished] returns no request as received, completes no load
    event and removes none from the list, even when all of them have finished. *)
Theorem load_events_never_reported {S} `{BlockScorer S} T fused o (l l' : loader S) load_done store_done :
  l_worker l = worker_init o → load_steps T fused l l' →
  ∃ w, get_finished load_done store_done (l_worker l') = (Ok None, w) ∧
    _load_events w = _load_events (l_worker l') ∧ _completed_load_events w = ∅.
Proof.
  intros Hw Hst. assert (no_load_pending (l_worker l')) as Hn.
  { apply (load_steps_stable T fused l); [by rewrite Hw|done]. }
  destruct (poll_no_load load_done store_done (l_worker l') Hn) as (w & Hrun & E). exists w. split; [done|].
  destruct Hn as [_ Hc]. unfold load_side in E. injection E as E1 _ _ E2. split; congruence.
Qed.

(** *** Witnesses: the orchestrator of "r" with block 0 on the CPU, selected again. *)
Definition demo_loader : loader LRUScorer :=
  Loader (with_meta (Some (Meta (-1) [] [] 0 ["r"%string] ∅ ∅)) (worker_init true)) (Some demo_o3) false None
    (Some (demo_idx, demo_len)) None None.

Lemma start_load_only_prepares_witness :
  ∃ o1 m, prepare_staging (H:=lru_scorer) None ["r"%string] demo_idx demo_len demo_o3 = (Ok m, o1) ∧
    m = [(mkRef "r" 0, 0)] ∧
    start_load_kv (H:=lru_scorer) demo_T demo_fused None demo_loader = record_load 0 (set_l_orch (Some o1) demo_loader).
Proof.
  pose proof (start_load_only_prepares (H:=lru_scorer) 3 2 demo_T demo_fused None demo_loader demo_loader demo_o3
    demo_idx demo_len 0 ["r"%string] eq_refl eq_refl eq_refl demo_o3_inv eq_refl eq_refl eq_refl ltac:(done)) as Hs.
  destruct (prepare_staging (H:=lru_scorer) None ["r"%string] demo_idx demo_len demo_o3) as [r o1] eqn:Ep.
  assert (r = Ok [(mkRef "r" 0, 0)]) as Hr.
  { change r with (r, o1).1. rewrite <-Ep. by vm_compute. }
  rewrite Hr in Hs |- *. exists o1, [(mkRef "r" 0, 0)]. split; [reflexivity|]. split; [reflexivity|exact Hs].
Defined.

(** After two steps both events are still in the list. *)
Definition demo_l0 : loader LRUScorer :=
  Loader (worker_init true) (Some demo_o3) false None (Some (demo_idx, demo_len)) None None.
Definition demo_l1 : loader LRUScorer := (bind_metadata (Meta (-1) [] [] (-1) ["r"%string] ∅ ∅) demo_l0).2.
Definition demo_l2 : loader LRUScorer := (start_load_kv (H:=lru_scorer) demo_T demo_fused None demo_l1).2.
Definition demo_l3 : loader LRUScorer := (on_worker (get_finished (λ _, true) (λ _, true)) demo_l2).2.
Definition demo_l4 : loader LRUScorer := (start_load_kv (H:=lru_scorer) demo_T demo_fused None demo_l3).2.

Lemma load_events_never_reported_witness :
  ∃ w, get_finished (λ _, true) (λ _, true) (l_worker demo_l4) = (Ok None, w) ∧ _load_events w = [0; 0].
Proof.
  destruct (load_events_never_reported (H:=lru_scorer) demo_T demo_fused true demo_l0 demo_l4 (λ _, true) (λ _, true) eq_refl)
    as (w & H1 & H2 & _).
  - eapply lss_step; [|exact (ls_load demo_T demo_fused demo_l3 None)].
    eapply lss_step; [|exact (ls_poll demo_T demo_fused demo_l2 (λ _, true) (λ _, true))].
    eapply lss_step; [|exact (ls_load demo_T demo_fused demo_l1 None)].
    eapply lss_step; [constructor|exact (ls_bind demo_T demo_fused demo_l0 (Meta (-1) [] [] (-1) ["r"%string] ∅ ∅))].
  - exists w. split; [exact H1|]. rewrite H2. by vm_compute.
Defined.
