(* ===== verification/StopConditions.v ===== *)
(** * When a request stops

    vllm/v1/core/sched/utils.py: [check_stop], the detection of repeated token
    patterns, and [remove_all].  [check_sequence_repetition_correct] states what a
    repetition is without the indices of the code. *)

From S2P Require Import Prelude PyData RequestQueue.
From stdpp Require Import base gmap sets list strings.
From Stdlib Require Import ZArith Lia.
Open Scope Z_scope.

(** [RepetitionDetectionParams] *)
Record repetition := Repetition {
  max_pattern_size : Z;
  min_pattern_size : Z;
  min_count : Z;
}.

(** The parts of [SamplingParams] that decide when to stop. *)
Record sampling := Sampling {
  eos_token_id : option Z;
  stop_token_ids : list Z;
  min_tokens : Z;
  repetition_detection : option repetition;
}.

Inductive stop_reason := stop_token (t : Z) | repetition_detected.

(** [for x in l: if not f(x): return False], then [return True]. *)
Fixpoint all_true {A} (f : A → result bool) (l : list A) : result bool :=
  match l with
  | [] => Ok true
  | x :: l' => result_bind (f x) (λ b, if b : bool then all_true f l' else Ok false)
  end.

Definition _has_repeating_pattern (token_ids : list Z) (pattern_len repetition_min_count : Z) : result bool :=
  all_true (λ n,
    result_bind (py_index token_ids (- n)) (λ target_token,
      all_true (λ m,
        result_bind (py_index token_ids (- (pattern_len * m + n))) (λ t, Ok (bool_decide (t = target_token))))
        (zrange 1 repetition_min_count)))
    (zrange 1 (pattern_len + 1)).

(** The loop over the pattern lengths. *)
Fixpoint repetition_loop (token_ids : list Z) (count : Z) (lens : list Z) : result bool :=
  match lens with
  | [] => Ok false
  | pattern_len :: lens' =>
      if zlen token_ids <? pattern_len * count then Ok false
      else result_bind (_has_repeating_pattern token_ids pattern_len count) (λ b,
        if b : bool then Ok true else repetition_loop token_ids count lens')
  end.

Definition check_sequence_repetition (token_ids : list Z) (params : repetition) : result bool :=
  let min_size := if min_pattern_size params <=? 0 then 1 else min_pattern_size params in
  if (max_pattern_size params <=? 0) || (min_count params <? 2) || (max_pattern_size params <? min_size)
  then Ok false
  else repetition_loop token_ids (min_count params) (zrange min_size (max_pattern_size params + 1)).

(** [check_stop]: the new status and stop reason, if the request stops. [sp] is
    [None] for a pooling request. *)
Definition check_stop (sp : option sampling) (output_token_ids : list Z) (num_tokens max_tokens max_model_len : Z)
    : result (option (status * option stop_reason)) :=
  match sp with
  | None => Raise AssertionError
  | Some sp =>
      result_bind (py_index output_token_ids (-1)) (λ last_token_id,
        if bool_decide (Some last_token_id = eos_token_id sp) then Ok (Some (FINISHED_STOPPED, None))
        else if bool_decide (last_token_id ∈ stop_token_ids sp)
        then Ok (Some (FINISHED_STOPPED, Some (stop_token last_token_id)))
        else if (max_model_len <=? num_tokens) || (max_tokens <=? zlen output_token_ids)
        then Ok (Some (FINISHED_LENGTH_CAPPED, None))
        else if zlen output_token_ids <? min_tokens sp then Ok None
        else match repetition_detection sp with
             | None => Ok None
             | Some params =>
                 result_bind (check_sequence_repetition output_token_ids params) (λ b,
                   if b : bool then Ok (Some (FINISHED_REPETITION, Some repetition_detected)) else Ok None)
             end)
  end.

(** [remove_all]: one item is taken out in place, at its first occurrence; several
    by a comprehension. *)
Fixpoint remove_first (r : req) (l : list req) : list req :=
  match l with
  | [] => []
  | x :: l' => if decide (x = r) then l' else x :: remove_first r l'
  end.

Definition remove_all (l items : list req) : list req :=
  match items with
  | [] => l
  | [item] => remove_first item l
  | _ => filter (.∉ items) l
  end.

(** ** Repetitions *)

Fixpoint copies {A} (k : nat) (block : list A) : list A :=
  match k with O => [] | S k' => block ++ copies k' block end.

(** The list ends with [count] copies of a block of [len] tokens. *)
Definition ends_repeated (l : list Z) (len count : Z) : Prop :=
  ∃ pre block, zlen block = len ∧ l = pre ++ copies (Z.to_nat count) block.

Lemma all_true_spec {A} (f : A → result bool) (P : A → Prop) l :
  (∀ x, x ∈ l → ∃ b, f x = Ok b ∧ (b = true ↔ P x)) → ∃ b, all_true f l = Ok b ∧ (b = true ↔ ∀ x, x ∈ l → P x).
Proof.
  induction l as [|x l IH]; intros Hf; [exists true; split; [done|]; split; [by intros _ y ?%elem_of_nil|done]|].
  destruct (Hf x) as (b & Hb & HP); [by left|]. cbn [all_true]. rewrite Hb. cbn [result_bind].
  destruct IH as (b' & Hb' & HP'); [intros y Hy; apply Hf; by right|]. destruct b.
  - exists b'. split; [done|]. rewrite HP'. split; [|intros Hall y Hy; apply Hall; by right].
    intros Hall y [->|Hy]%elem_of_cons; [by apply HP|by apply Hall].
  - exists false. split; [done|]. split; [done|]. intros Hall. apply HP, Hall. by left.
Qed.

Lemma py_index_from_end (l : list Z) n : 1 ≤ n ≤ zlen l → py_index l (- n) = Ok (default 0 (l !! Z.to_nat (zlen l - n))).
Proof.
  intros Hn. unfold py_index. rewrite (proj2 (Z.ltb_lt (- n) 0)) by lia. cbv zeta.
  replace (- n + zlen l) with (zlen l - n) by lia. rewrite (proj2 (Z.ltb_ge (zlen l - n) 0)) by lia.
  destruct (l !! Z.to_nat (zlen l - n)) eqn:E; [done|]. apply lookup_ge_None in E. unfold zlen in *. lia.
Qed.

Lemma lookup_copies {A} (b : list A) k j : (j < k * length b)%nat → copies k b !! j = b !! (j mod length b)%nat.
Proof.
  revert j. induction k as [|k IH]; intros j Hj; [lia|]. cbn [copies].
  destruct (decide (j < length b)%nat) as [Hlt|Hge].
  - rewrite lookup_app_l by done. by rewrite Nat.mod_small.
  - rewrite lookup_app_r by lia. rewrite IH by nia.
    f_equal. replace j with ((j - length b) + 1 * length b)%nat at 2 by lia. by rewrite Nat.Div0.mod_add.
Qed.

Lemma length_copies {A} (b : list A) k : length (copies k b) = (k * length b)%nat.
Proof. induction k as [|k IH]; [done|]. cbn. by rewrite length_app, IH. Qed.

Lemma copies_end {A} (b : list A) k : copies k b ++ b = b ++ copies k b.
Proof. induction k as [|k IH]; cbn; [by rewrite app_nil_r|by rewrite <-app_assoc, IH]. Qed.

Lemma reverse_copies {A} (b : list A) k : reverse (copies k b) = copies k (reverse b).
Proof. induction k as [|k IH]; [done|]. cbn [copies]. by rewrite reverse_app, IH, copies_end. Qed.

(** A prefix of the reversed list that repeats, by positions. *)
Lemma starts_repeated (r : list Z) p k : (0 < p)%nat → (k * p ≤ length r)%nat →
  (∃ b post, length b = p ∧ r = copies k b ++ post) ↔
  ∀ i m, (i < p)%nat → (m < k)%nat → r !! (p * m + i)%nat = r !! i.
Proof.
  intros Hp Hk. split.
  - intros (b & post & Hb & ->) i m Hi Hm.
    rewrite !lookup_app_l by (rewrite length_copies, Hb; nia). rewrite !lookup_copies by nia.
    rewrite Hb. f_equal. rewrite Nat.add_comm, Nat.mul_comm. by rewrite Nat.Div0.mod_add.
  - intros Hall. destruct k as [|k']; [exists (replicate p 0), r; by rewrite length_replicate|]. set (k := S k') in *.
    assert (Hlen : length (take p r) = p) by (rewrite length_take; nia).
    exists (take p r), (drop (k * p) r). split; [done|].
    rewrite <-(take_drop (k * p) r) at 1. f_equal. apply list_eq. intros j.
    destruct (decide (j < k * p)%nat) as [Hj|Hj].
    + rewrite lookup_take_lt by done. rewrite lookup_copies by (by rewrite Hlen). rewrite Hlen.
      pose proof (Nat.mod_upper_bound j p) as Hmod. rewrite lookup_take_lt by lia.
      rewrite (Nat.div_mod_eq j p) at 1. apply Hall; [lia|]. apply Nat.Div0.div_lt_upper_bound. nia.
    + rewrite !lookup_ge_None_2; [done|rewrite length_copies, Hlen; lia|rewrite length_take; lia].
Qed.

Lemma ends_repeated_reverse l p k : (0 < p)%nat →
  ends_repeated l (Z.of_nat p) (Z.of_nat k) ↔ ∃ b post, length b = p ∧ reverse l = copies k b ++ post.
Proof.
  intros Hp. unfold ends_repeated. rewrite Nat2Z.id. split.
  - intros (pre & block & Hb & ->). exists (reverse block), (reverse pre). unfold zlen in Hb.
    by rewrite length_reverse, reverse_app, reverse_copies; split; [lia|].
  - intros (b & post & Hb & Hr). exists (reverse post), (reverse b). unfold zlen. rewrite length_reverse, Hb. split; [done|].
    rewrite <-(reverse_involutive l), Hr, reverse_app, reverse_copies. done.
Qed.

Lemma has_repeating_run l len count : 1 ≤ len → 2 ≤ count → len * count ≤ zlen l →
  ∃ b, _has_repeating_pattern l len count = Ok b ∧ (b = true ↔ ends_repeated l len count).
Proof.
  intros Hlen Hcount Hfit. unfold _has_repeating_pattern.
  assert (Hrev : ∀ n, 1 ≤ n ≤ zlen l → py_index l (- n) = Ok (default 0 (reverse l !! Z.to_nat (n - 1)))).
  { intros n Hn. rewrite py_index_from_end by done. unfold zlen in *. rewrite reverse_lookup by lia. do 3 f_equal. lia. }
  match goal with |- context [all_true ?f ?r] =>
    destruct (all_true_spec f (λ n, ∀ m, 1 ≤ m < count →
      reverse l !! Z.to_nat (len * m + n - 1) = reverse l !! Z.to_nat (n - 1)) r) as (b & Hb & HP) end.
  { intros n Hn%elem_of_zrange. rewrite Hrev by nia. cbn [result_bind].
    match goal with |- context [all_true ?f ?r] =>
      destruct (all_true_spec f (λ m, reverse l !! Z.to_nat (len * m + n - 1) = reverse l !! Z.to_nat (n - 1)) r) as (b & Hb & HP) end.
    { intros m Hm%elem_of_zrange. rewrite Hrev by nia. eexists. split; [done|]. rewrite bool_decide_eq_true.
      destruct (lookup_lt_is_Some_2 (reverse l) (Z.to_nat (len * m + n - 1))) as [x Hx]; [rewrite length_reverse; unfold zlen in *; nia|].
      destruct (lookup_lt_is_Some_2 (reverse l) (Z.to_nat (n - 1))) as [y Hy]; [rewrite length_reverse; unfold zlen in *; nia|].
      rewrite Hx, Hy. cbn. split; congruence. }
    exists b. split; [done|]. rewrite HP. split; intros Hall m Hm; apply Hall; by rewrite ?elem_of_zrange in *. }
  exists b. split; [done|]. rewrite HP.
  rewrite <-(Z2Nat.id len), <-(Z2Nat.id count), ends_repeated_reverse by lia.
  rewrite starts_repeated by (rewrite ?length_reverse; unfold zlen in *; nia). split.
  - intros Hall i m Hi Hm. destruct m as [|m]; [f_equal; lia|].
    specialize (Hall (Z.of_nat i + 1)). rewrite elem_of_zrange in Hall. specialize (Hall ltac:(lia) (Z.of_nat (S m)) ltac:(lia)).
    replace (Z.to_nat (Z.of_nat i + 1 - 1)) with i in Hall by lia. rewrite <-Hall. f_equal. nia.
  - intros Hall n Hn%elem_of_zrange m Hm.
    specialize (Hall (Z.to_nat (n - 1)) (Z.to_nat m) ltac:(lia) ltac:(lia)). rewrite <-Hall. f_equal. nia.
Qed.

Lemma ends_repeated_fits l len count : 0 ≤ count → ends_repeated l len count → len * count ≤ zlen l.
Proof.
  intros Hc (pre & block & Hb & ->). unfold zlen in *. rewrite length_app, length_copies. nia.
Qed.

Lemma repetition_loop_run l count lo hi : 1 ≤ lo → 2 ≤ count →
  ∃ b, repetition_loop l count (zrange lo hi) = Ok b ∧ (b = true ↔ ∃ len, lo ≤ len < hi ∧ ends_repeated l len count).
Proof.
  intros Hlo Hc. remember (Z.to_nat (hi - lo)) as n eqn:Hn. revert lo Hlo Hn. induction n as [|n IH]; intros lo Hlo Hn.
  { exists false. unfold zrange. rewrite <-Hn. split; [done|]. split; [done|]. intros (len & ? & _). lia. }
  rewrite zrange_cons by lia. cbn [repetition_loop]. destruct (Z.ltb_spec (zlen l) (lo * count)) as [Hshort|Hfit].
  { exists false. split; [done|]. split; [done|]. intros (len & Hlen & He). apply ends_repeated_fits in He; nia. }
  destruct (has_repeating_run l lo count) as (b & -> & HP); [done..|]. cbn [result_bind]. destruct b.
  - exists true. split; [done|]. split; [|done]. intros _. exists lo. split; [lia|by apply HP].
  - destruct (IH (lo + 1)) as (b' & Hb' & HP'); [lia..|]. exists b'. split; [done|]. rewrite HP'. split.
    + intros (len & ? & ?). exists len. split; [lia|done].
    + intros (len & Hlen & He). exists len. split; [|done]. destruct (decide (len = lo)) as [->|]; [|lia].
      by apply HP in He.
Qed.

(** What a repetition is, by concatenation. *)
Lemma check_repetition_run token_ids params :
  ∃ b, check_sequence_repetition token_ids params = Ok b ∧
    (b = true ↔ 2 ≤ min_count params ∧
       ∃ len, Z.max 1 (min_pattern_size params) ≤ len ≤ max_pattern_size params ∧ ends_repeated token_ids len (min_count params)).
Proof.
  unfold check_sequence_repetition. cbv zeta.
  replace (if min_pattern_size params <=? 0 then 1 else min_pattern_size params) with (Z.max 1 (min_pattern_size params))
    by (destruct (Z.leb_spec (min_pattern_size params) 0); lia).
  destruct (Z.leb_spec (max_pattern_size params) 0); cbn [orb].
  { exists false. split; [done|]. split; [done|]. intros (_ & len & ? & _). lia. }
  destruct (Z.ltb_spec (min_count params) 2); cbn [orb].
  { exists false. split; [done|]. split; [done|]. intros (? & _). lia. }
  destruct (Z.ltb_spec (max_pattern_size params) (Z.max 1 (min_pattern_size params))).
  { exists false. split; [done|]. split; [done|]. intros (_ & len & ? & _). lia. }
  destruct (repetition_loop_run token_ids (min_count params) (Z.max 1 (min_pattern_size params)) (max_pattern_size params + 1))
    as (b & Hb & HP); [lia..|].
  exists b. split; [done|]. rewrite HP. split.
  - intros (len & ? & ?). split; [done|]. exists len. split; [lia|done].
  - intros (_ & len & ? & ?). exists len. split; [lia|done].
Qed.

(** C15: repetition detection against a definition by concatenation.
    [check_sequence_repetition] never reads outside the tokens; it says yes exactly
    if the parameters are sensible (a positive maximal size, at least two copies)
    and the tokens end with [min_count] copies of one block whose length is at
    least [min_pattern_size] (at least 1) and at most [max_pattern_size].  In
    particular giving up at the first length that is too long loses nothing. *)
Theorem check_sequence_repetition_correct token_ids params :
  ∃ b, check_sequence_repetition token_ids params = Ok b ∧
    (b = true ↔ 2 ≤ min_count params ∧
       ∃ len, Z.max 1 (min_pattern_size params) ≤ len ≤ max_pattern_size params ∧ ends_repeated token_ids len (min_count params)).
Proof. apply check_repetition_run. Qed.

(** ** Stopping *)

(** What makes a request stop after its last token. *)
Definition must_stop (sp : sampling) (out : list Z) (num_tokens max_tokens max_model_len : Z) : Prop :=
  last out = eos_token_id sp ∨ (∃ t, last out = Some t ∧ t ∈ stop_token_ids sp) ∨
  max_model_len ≤ num_tokens ∨ max_tokens ≤ zlen out ∨
  (min_tokens sp ≤ zlen out ∧ ∃ params, repetition_detection sp = Some params ∧ 2 ≤ min_count params ∧
    ∃ len, Z.max 1 (min_pattern_size params) ≤ len ≤ max_pattern_size params ∧ ends_repeated out len (min_count params)).

Lemma check_stop_run sp out num_tokens max_tokens max_model_len : out ≠ [] →
  ∃ res, check_stop (Some sp) out num_tokens max_tokens max_model_len = Ok res ∧
    (is_Some res ↔ must_stop sp out num_tokens max_tokens max_model_len) ∧
    ∀ st why, res = Some (st, why) → is_finished st = true.
Proof.
  intros Hne. destruct (last out) as [t|] eqn:Hlast; [|by apply last_None in Hlast].
  assert (Hidx : py_index out (-1) = Ok t).
  { assert (1 ≤ zlen out) by (destruct out; [done|unfold zlen; cbn; lia]).
    change (-1) with (Z.opp 1). rewrite py_index_from_end by lia. rewrite last_lookup, <-Nat.sub_1_r in Hlast. unfold zlen in *.
    replace (Z.to_nat (Z.of_nat (length out) - 1)) with (length out - 1)%nat by lia. by rewrite Hlast. }
  unfold check_stop, must_stop. rewrite Hidx, Hlast. cbn [result_bind].
  case_bool_decide as Heos; [eexists; split; [done|]; split; [split; [by left|by eexists]|by intros ? ? [= <- _]]|].
  case_bool_decide as Hst.
  { eexists. split; [done|]. split; [split; [right; left; by eexists|by eexists]|by intros ? ? [= <- _]]. }
  destruct (Z.leb_spec max_model_len num_tokens); cbn [orb].
  { eexists. split; [done|]. split; [split; [by right; right; left|by eexists]|by intros ? ? [= <- _]]. }
  destruct (Z.leb_spec max_tokens (zlen out)).
  { eexists. split; [done|]. split; [split; [by right; right; right; left|by eexists]|by intros ? ? [= <- _]]. }
  assert (Hno : ∀ P : Prop, Some t = eos_token_id sp ∨ (∃ t', Some t = Some t' ∧ t' ∈ stop_token_ids sp) ∨
    max_model_len ≤ num_tokens ∨ max_tokens ≤ zlen out ∨ P → P).
  { intros P [?|[(? & [= <-] & ?)|[?|[?|?]]]]; try done; lia. }
  destruct (Z.ltb_spec (zlen out) (min_tokens sp)).
  { eexists. split; [done|]. split; [|done]. split; [by intros []|]. intros [? _]%Hno. lia. }
  destruct (repetition_detection sp) as [params|].
  2: { eexists. split; [done|]. split; [|done]. split; [by intros []|]. by intros (_ & ? & ? & _)%Hno. }
  destruct (check_repetition_run out params) as (b & -> & HP). cbn [result_bind]. destruct b.
  - eexists. split; [done|]. split; [|by intros ? ? [= <- _]]. split; [|by eexists]. intros _. do 4 right.
    split; [done|]. exists params. split; [done|]. by apply HP.
  - eexists. split; [done|]. split; [|done]. split; [by intros []|]. intros (_ & ? & [= <-] & Hrep)%Hno. by apply HP in Hrep.
Qed.

(** [remove_all] is a filter. *)
Lemma remove_all_filter l items : NoDup l → remove_all l items = filter (.∉ items) l.
Proof.
  intros Hl. destruct items as [|a [|b items]]; cbn [remove_all].
  - symmetry. apply filter_id. by intros x _ ?%elem_of_nil.
  - induction l as [|x l IH]; [done|]. apply NoDup_cons in Hl as [Hx Hl]. cbn [remove_first]. case_decide as Hd.
    + subst a. rewrite filter_cons_False by (intros Hn; apply Hn; by left). symmetry. apply filter_id.
      intros y Hy ->%list_elem_of_singleton. done.
    + rewrite filter_cons_True by (by intros ->%list_elem_of_singleton). by rewrite IH.
  - done.
Qed.
