(* ===== verification/RequestScheduler.v ===== *)
(** * The request scheduler

    Models [Scheduler.schedule] of vllm/v1/core/sched/scheduler.py: the pass over
    the running requests with preemption, the pass over the two waiting queues, the
    checks at the end and [_update_after_schedule].

    A request is an object that the queues, [self.running] and [self.requests]
    share.  Here [requests] maps the id to the object's fields, and the queues
    and [running] hold the key ([req]: id and rank), so a change through one name is
    seen through the others.  The KV-cache manager is the interface [KVCache]; the
    encoder cache is [EncoderManager] (EncoderCache.v), the queues are
    [RequestQueue] (RequestQueue.v).

    The connector is the one of this repository: its [get_num_new_matched_tokens]
    returns [(0, False)], so nothing is loaded from outside, no request waits for
    remote blocks and the branches for them are left out.  Mamba alignment, an
    external encoder cache, encoder-decoder models (the constructor refuses them with
    a connector), routed experts, zeroing, logging and statistics are not modelled. *)

From S2P Require Import Prelude PyData Float BlockHasher SingleTypeManager KVCacheManager.
From S2P Require Import EncoderCache RequestQueue Scheduler StopConditions.
From stdpp Require Import base gmap sets list strings.
From Stdlib Require Import ZArith Lia.
Open Scope Z_scope.

#[global] Instance status_eq_dec : EqDecision status.
Proof. solve_decision. Defined.

(** ** Requests *)

(** [structured_output_request.grammar]: not compiled yet, failed, ready. *)
Inductive grammar := GPending | GFailed | GReady.

(** What a step does not change. *)
Record fixed_part := Fixed {
  (** the object itself, as the queues hold it *)
  sr_key : req;
  (** tokens, prompt length and block hashes *)
  sr_request : BlockHasher.Request;
  sr_features : list feature;
  sr_max_tokens : Z;
  sr_lora : option Z;
  sr_grammar : grammar;
  (** [len(streaming_queue)] *)
  sr_streaming : Z;
  sr_skip_reading : bool;
  sr_next_decode : Z;
  (** [None] for a pooling request *)
  sr_sampling : option sampling;
}.

(** What it changes. *)
Record moving_part := Moving {
  r_status : status;
  r_spec_token_ids : list Z;
  r_computed : Z;
  r_placeholders : Z;
  r_in_flight : Z;
  r_stale : Z;
  r_drop_stale : bool;
  r_preemptions : Z;
  r_prefill_chunk : bool;
  r_last_sched_seq : Z;
}.

Record sreq := SR { fx : fixed_part; mv : moving_part }.

Definition sr_num_tokens (x : sreq) : Z := num_tokens (sr_request (fx x)).
Definition num_tokens_with_spec (x : sreq) : Z := sr_num_tokens x + zlen (r_spec_token_ids (mv x)).

Definition set_status (st : status) (m : moving_part) : moving_part :=
  Moving st (r_spec_token_ids m) (r_computed m) (r_placeholders m) (r_in_flight m) (r_stale m)
    (r_drop_stale m) (r_preemptions m) (r_prefill_chunk m) (r_last_sched_seq m).
Definition clear_spec (m : moving_part) : moving_part :=
  Moving (r_status m) [] (r_computed m) (r_placeholders m) (r_in_flight m) (r_stale m)
    (r_drop_stale m) (r_preemptions m) (r_prefill_chunk m) (r_last_sched_seq m).
Definition start_running (computed : Z) (m : moving_part) : moving_part :=
  Moving RUNNING (r_spec_token_ids m) computed (r_placeholders m) (r_in_flight m) (r_stale m)
    (r_drop_stale m) (r_preemptions m) (r_prefill_chunk m) (r_last_sched_seq m).

(** The request as the encoder cache and as the KV-cache manager read it. *)
Definition enc_view (x : sreq) : EncoderCache.request :=
  EncoderCache.Req (req_id (sr_request (fx x))) (sr_features (fx x)) (r_computed (mv x)) (r_placeholders (mv x)).
Definition kv_view (x : sreq) : SRequest :=
  SReq (sr_request (fx x)) 0 (r_computed (mv x)) (r_in_flight (mv x))
    (match r_status (mv x) with WAITING | PREEMPTED => true | _ => false end).

(** ** The KV-cache manager, as the scheduler calls it *)
Class KVCache (K : Type) := {
  (** [allocate_slots(request, num_new_tokens, num_new_computed_tokens,
      new_computed_blocks, num_lookahead_tokens, full_sequence_must_fit,
      has_scheduled_reqs)] *)
  kv_allocate : SRequest → Z → Z → option (list (list Z)) → Z → bool → bool → M K (option (list (list Z)));
  (** [get_computed_blocks] *)
  kv_lookup : K → BlockHasher.Request → bool → result (option (list (list Z)) * Z);
  kv_free : string → M K unit;
  kv_pop_for_free : string → M K (list Z);
  (** [remove_skipped_blocks(request_id, processed_computed_tokens, num_prompt_tokens)] *)
  kv_drop_skipped : string → Z → Z → M K unit;
  (** [block_pool.free_blocks] *)
  kv_release : list Z → M K unit;
  kv_take_copies : M K (list (Z * Z) * list Z);
  kv_take_new_ids : M K (list Z);
  (** [get_block_ids] *)
  kv_tables : K → string → list (list Z);
}.

#[global] Instance kv_manager (c : kvconf) : KVCache kv := {
  kv_allocate r new ncomp hits look full sched := allocate_slots c r new ncomp hits look 0 false full 0 sched;
  kv_lookup := get_computed_blocks c;
  kv_free := coord_free;
  kv_pop_for_free := coord_pop_blocks_for_free;
  kv_drop_skipped rid processed prompt := coord_remove_skipped_blocks rid processed (Some prompt);
  kv_release bs := on_kv_pool (BlockPool.free_blocks bs);
  kv_take_copies := take_kv_cache_block_copies;
  kv_take_new_ids := kv_take_new_block_ids;
  kv_tables := get_blocks;
}.

(** ** The scheduler *)
Inductive pause := UNPAUSED | PAUSED_NEW | PAUSED_ALL.

Record sconf := SConf {
  sc_max_scheduled : Z;
  sc_max_batched : Z;
  sc_max_running : Z;
  sc_draft_slots : Z;
  sc_long_prefill : Z;
  sc_max_model_len : Z;
  sc_sampled_per_step : Z;
  sc_lookahead : Z;
  sc_prefill_lookahead : Z;
  sc_num_spec : Z;
  sc_dynamic_sd : bool;
  sc_chunked : bool;
  sc_max_loras : option Z;
  sc_encoder_budget : Z;
  (** [policy == PRIORITY] *)
  sc_priority : bool;
  sc_reserve_full : bool;
  sc_kv_delivery : bool;
  sc_defer_free : bool;
  sc_no_mm_chunks : bool;
  sc_mm_encoder_only : bool;
  (** [use_v2_model_runner] *)
  sc_v2_runner : bool;
}.

(** Counters and sets beside the requests. *)
Record books := Books {
  finished_req_ids : gset string;
  reset_preempted_req_ids : gset string;
  _inflight_prefills : gset string;
  num_waiting_for_streaming_input : Z;
  grammar_compile_error_reqs : gset string;
  current_step : Z;
  sched_step_seq : Z;
  processed_step_seq : Z;
  deferred_frees : list (Z * list Z);
  prefill_capacity_bound : bool;
  _pause_state : pause;
}.

Record rsched (K E Q : Type) := RSched {
  requests : gmap string sreq;
  rqs : queues Q;
  running : list req;
  kvm : K;
  encm : E;
  bk : books;
}.
Arguments RSched {K E Q}.
Arguments requests {K E Q}.
Arguments rqs {K E Q}.
Arguments running {K E Q}.
Arguments kvm {K E Q}.
Arguments encm {K E Q}.
Arguments bk {K E Q}.

(** The locals of [schedule]. *)
Record pass := Pass {
  token_budget : Z;
  input_budget : Z;
  encoder_compute_budget : Z;
  scheduled_new_reqs : list req;
  scheduled_resumed_reqs : list req;
  scheduled_running_reqs : list req;
  preempted_reqs : list req;
  num_scheduled_tokens : list (string * Z);
  req_to_new_blocks : list (string * list (list Z));
  scheduled_spec_decode_tokens : list (string * list Z);
  scheduled_encoder_inputs : list (string * list Z);
  prefill_scheduled : bool;
  scheduled_loras : gset Z;
}.

(** Book-keeping. *)
Definition with_inflight (f : gset string → gset string) (b : books) : books :=
  Books (finished_req_ids b) (reset_preempted_req_ids b) (f (_inflight_prefills b))
    (num_waiting_for_streaming_input b) (grammar_compile_error_reqs b) (current_step b) (sched_step_seq b)
    (processed_step_seq b) (deferred_frees b) (prefill_capacity_bound b) (_pause_state b).
Definition with_preempted (rid : string) (b : books) : books :=
  Books (finished_req_ids b) ({[rid]} ∪ reset_preempted_req_ids b) (_inflight_prefills b)
    (num_waiting_for_streaming_input b) (grammar_compile_error_reqs b) (current_step b) (sched_step_seq b)
    (processed_step_seq b) (deferred_frees b) (prefill_capacity_bound b) (_pause_state b).
Definition with_grammar_error (rid : string) (b : books) : books :=
  Books (finished_req_ids b) (reset_preempted_req_ids b) (_inflight_prefills b)
    (num_waiting_for_streaming_input b) ({[rid]} ∪ grammar_compile_error_reqs b) (current_step b)
    (sched_step_seq b) (processed_step_seq b) (deferred_frees b) (prefill_capacity_bound b) (_pause_state b).
Definition with_deferred (f : list (Z * list Z) → list (Z * list Z)) (b : books) : books :=
  Books (finished_req_ids b) (reset_preempted_req_ids b) (_inflight_prefills b)
    (num_waiting_for_streaming_input b) (grammar_compile_error_reqs b) (current_step b) (sched_step_seq b)
    (processed_step_seq b) (f (deferred_frees b)) (prefill_capacity_bound b) (_pause_state b).
Definition with_steps (step seq processed : Z) (b : books) : books :=
  Books (finished_req_ids b) (reset_preempted_req_ids b) (_inflight_prefills b)
    (num_waiting_for_streaming_input b) (grammar_compile_error_reqs b) step seq processed (deferred_frees b)
    (prefill_capacity_bound b) (_pause_state b).
Definition with_bound (bound : bool) (b : books) : books :=
  Books (finished_req_ids b) (reset_preempted_req_ids b) (_inflight_prefills b)
    (num_waiting_for_streaming_input b) (grammar_compile_error_reqs b) (current_step b) (sched_step_seq b)
    (processed_step_seq b) (deferred_frees b) bound (_pause_state b).
Definition with_finished (rid : string) (b : books) : books :=
  Books ({[rid]} ∪ finished_req_ids b) (reset_preempted_req_ids b) (_inflight_prefills b)
    (num_waiting_for_streaming_input b) (grammar_compile_error_reqs b) (current_step b) (sched_step_seq b)
    (processed_step_seq b) (deferred_frees b) (prefill_capacity_bound b) (_pause_state b).
Definition add_streaming (n : Z) (b : books) : books :=
  Books (finished_req_ids b) (reset_preempted_req_ids b) (_inflight_prefills b)
    (num_waiting_for_streaming_input b + n) (grammar_compile_error_reqs b) (current_step b) (sched_step_seq b)
    (processed_step_seq b) (deferred_frees b) (prefill_capacity_bound b) (_pause_state b).
Definition clear_grammar_errors (b : books) : books :=
  Books (finished_req_ids b) (reset_preempted_req_ids b) (_inflight_prefills b)
    (num_waiting_for_streaming_input b) ∅ (current_step b) (sched_step_seq b)
    (processed_step_seq b) (deferred_frees b) (prefill_capacity_bound b) (_pause_state b).
Definition clear_sets (b : books) : books :=
  Books ∅ ∅ (_inflight_prefills b) (num_waiting_for_streaming_input b) (grammar_compile_error_reqs b)
    (current_step b) (sched_step_seq b) (processed_step_seq b) (deferred_frees b) (prefill_capacity_bound b)
    (_pause_state b).

(** One request leaves the step's plan: what [schedule] undoes for a victim that
    was already scheduled. *)
Definition drop_scheduled (r : req) (restored embeds draft : Z) (p : pass) : pass :=
  let rid := request_id r in
  Pass (token_budget p + restored) (input_budget p + (restored + draft)) (encoder_compute_budget p + embeds)
    (scheduled_new_reqs p) (scheduled_resumed_reqs p) (filter (.≠ r) (scheduled_running_reqs p)) (preempted_reqs p)
    (dpop rid (num_scheduled_tokens p)) (dpop rid (req_to_new_blocks p))
    (dpop rid (scheduled_spec_decode_tokens p)) (dpop rid (scheduled_encoder_inputs p))
    (prefill_scheduled p) (scheduled_loras p).
Definition add_preempted (r : req) (p : pass) : pass :=
  Pass (token_budget p) (input_budget p) (encoder_compute_budget p) (scheduled_new_reqs p)
    (scheduled_resumed_reqs p) (scheduled_running_reqs p) (preempted_reqs p ++ [r]) (num_scheduled_tokens p)
    (req_to_new_blocks p) (scheduled_spec_decode_tokens p) (scheduled_encoder_inputs p) (prefill_scheduled p)
    (scheduled_loras p).
(** One request enters it. *)
Definition add_scheduled (rid : string) (n draft encoder_budget : Z) (blocks : list (list Z))
    (spec : option (list Z)) (inputs : list Z) (p : pass) : pass :=
  Pass (token_budget p - n) (input_budget p - (n + draft)) encoder_budget (scheduled_new_reqs p)
    (scheduled_resumed_reqs p) (scheduled_running_reqs p) (preempted_reqs p)
    (dset rid n (num_scheduled_tokens p)) (dset rid blocks (req_to_new_blocks p))
    (match spec with Some l => dset rid l (scheduled_spec_decode_tokens p) | None => scheduled_spec_decode_tokens p end)
    (if bool_decide (inputs = []) then scheduled_encoder_inputs p else dset rid inputs (scheduled_encoder_inputs p))
    (prefill_scheduled p) (scheduled_loras p).
Definition as_running (r : req) (prefill : bool) (p : pass) : pass :=
  Pass (token_budget p) (input_budget p) (encoder_compute_budget p) (scheduled_new_reqs p)
    (scheduled_resumed_reqs p) (scheduled_running_reqs p ++ [r]) (preempted_reqs p) (num_scheduled_tokens p)
    (req_to_new_blocks p) (scheduled_spec_decode_tokens p) (scheduled_encoder_inputs p)
    (prefill_scheduled p || prefill) (scheduled_loras p).
Definition as_admitted (r : req) (resumed : bool) (p : pass) : pass :=
  Pass (token_budget p) (input_budget p) (encoder_compute_budget p)
    (if resumed then scheduled_new_reqs p else scheduled_new_reqs p ++ [r])
    (if resumed then scheduled_resumed_reqs p ++ [r] else scheduled_resumed_reqs p)
    (scheduled_running_reqs p) (preempted_reqs p) (num_scheduled_tokens p) (req_to_new_blocks p)
    (scheduled_spec_decode_tokens p) (scheduled_encoder_inputs p) (prefill_scheduled p) (scheduled_loras p).
Definition with_lora (l : option Z) (p : pass) : pass :=
  Pass (token_budget p) (input_budget p) (encoder_compute_budget p) (scheduled_new_reqs p)
    (scheduled_resumed_reqs p) (scheduled_running_reqs p) (preempted_reqs p) (num_scheduled_tokens p)
    (req_to_new_blocks p) (scheduled_spec_decode_tokens p) (scheduled_encoder_inputs p) (prefill_scheduled p)
    (match l with Some i => {[i]} ∪ scheduled_loras p | None => scheduled_loras p end).

(** [max(self.running, key=lambda r: (r.priority, r.arrival_time))]: the first of
    the largest. *)
Definition ranks_below (r r' : req) : bool :=
  (priority r <? priority r') || ((priority r =? priority r') && (arrival_time r <? arrival_time r')).
Fixpoint max_from (best : req) (l : list req) : req :=
  match l with
  | [] => best
  | x :: l' => max_from (if ranks_below best x then x else best) l'
  end.

(** [list.index] *)
Fixpoint index_of (r : req) (l : list req) : option nat :=
  match l with
  | [] => None
  | x :: l' => if decide (x = r) then Some O else Datatypes.S <$> index_of r l'
  end.

Section Schedule.
Context {K E Q : Type} `{KVCache K} `{EncoderManager E} `{RequestQueue Q}.
Context (c : sconf).
(** The iteration order of a set. *)
Context (set_order : gset Z → list Z).
Notation st := (rsched K E Q).

Definition set_requests (m : gmap string sreq) (s : st) : st := RSched m (rqs s) (running s) (kvm s) (encm s) (bk s).
Definition set_rqs (q : queues Q) (s : st) : st := RSched (requests s) q (running s) (kvm s) (encm s) (bk s).
Definition set_running (l : list req) (s : st) : st := RSched (requests s) (rqs s) l (kvm s) (encm s) (bk s).
Definition set_kvm (k : K) (s : st) : st := RSched (requests s) (rqs s) (running s) k (encm s) (bk s).
Definition set_encm (e : E) (s : st) : st := RSched (requests s) (rqs s) (running s) (kvm s) e (bk s).
Definition set_bk (b : books) (s : st) : st := RSched (requests s) (rqs s) (running s) (kvm s) (encm s) b.

Definition on_kv {A} (m : M K A) : M st A := zoom kvm set_kvm m.
Definition on_enc {A} (m : M E A) : M st A := zoom encm set_encm m.
Definition on_rqs {A} (m : M (queues Q) A) : M st A := zoom rqs set_rqs m.
Definition on_bk (f : books → books) : M st unit := modify (λ s, set_bk (f (bk s)) s).
Definition on_waiting {A} (m : M Q A) : M (queues Q) A := zoom waiting (λ q s, Queues q (skipped_waiting s)) m.
Definition on_skipped {A} (m : M Q A) : M (queues Q) A := zoom skipped_waiting (λ q s, Queues (waiting s) q) m.
Definition on_choice {A} (ch : RequestQueue.choice) (m : M Q A) : M st A :=
  on_rqs (match ch with from_waiting => on_waiting m | from_skipped => on_skipped m end).

(** The object behind a key, and a change of it. *)
Definition the (r : req) : M st sreq :=
  let! m := gets requests in
  match m !! request_id r with Some x => ret x | None => raise KeyError end.
Definition put (r : req) (f : moving_part → moving_part) : M st unit :=
  modify (λ s, set_requests (alter (λ x, SR (fx x) (f (mv x))) (request_id r) (requests s)) s).

(** ** Releasing blocks *)
Definition _free_request_blocks (r : req) : M st unit :=
  let! x := the r in
  let! b := gets bk in
  let rid := req_id (sr_request (fx x)) in
  if negb (sc_defer_free c) || (r_last_sched_seq (mv x) <=? processed_step_seq b) then on_kv (kv_free rid)
  else
    let! blocks := on_kv (kv_pop_for_free rid) in
    when negb (bool_decide (blocks = [])) do
      on_bk (with_deferred (λ l, l ++ [(sched_step_seq b, blocks)])).

Definition _free_cow_retained_blocks (blocks : list Z) (fence_seq : Z) : M st unit :=
  let! b := gets bk in
  if negb (sc_defer_free c) || (fence_seq <=? processed_step_seq b) then on_kv (kv_release blocks)
  else on_bk (with_deferred (λ l, l ++ [(fence_seq, reverse blocks)])).

(** The loop over [deferred_frees]; [l] is the queue, whose first entry each turn
    removes. *)
Fixpoint drain_loop (l : list (Z * list Z)) : M st unit :=
  match l with
  | [] => ret tt
  | (fence, blocks) :: l' =>
      let! b := gets bk in
      if processed_step_seq b <? fence then ret tt
      else
        on_bk (with_deferred (λ _, l')) >>
        on_kv (kv_release (reverse blocks)) >>
        drain_loop l'
  end.

Definition _drain_deferred_frees : M st unit :=
  let! b := gets bk in
  drain_loop (deferred_frees b).

(** ** Preemption *)
Definition preempt (drop_stale_output : bool) (m : moving_part) : moving_part :=
  Moving PREEMPTED [] 0 0 (r_in_flight m) (r_in_flight m)
    (drop_stale_output || (r_drop_stale m && (0 <? r_stale m))) (r_preemptions m + 1)
    (r_prefill_chunk m) (r_last_sched_seq m).

Definition _preempt_request (r : req) (drop_stale_output : bool) : M st unit :=
  let! x := the r in
  ensure (bool_decide (r_status (mv x) = RUNNING)) AssertionError >>
  _free_request_blocks r >>
  on_enc (em_free set_order (enc_view x)) >>
  on_bk (with_inflight (λ i, i ∖ {[request_id r]})) >>
  put r (preempt drop_stale_output) >>
  on_rqs (on_waiting (prepend_request r)) >>
  on_bk (with_preempted (request_id r)).

(** The embeddings of a victim's inputs. *)
Fixpoint sum_embeds (x : EncoderCache.request) (l : list Z) : result Z :=
  match l with
  | [] => Ok 0
  | i :: l' => result_bind (get_num_encoder_embeds x i) (λ n, result_bind (sum_embeds x l') (λ k, Ok (n + k)))
  end.

Definition dpop_key {V} (rid : string) (d : list (string * V)) : result V :=
  match dget rid d with Some v => Ok v | None => Raise KeyError end.

(** Take a victim that the step had scheduled out of the plan. *)
Definition unschedule (r : req) (p : pass) : M st pass :=
  if bool_decide (r ∈ scheduled_running_reqs p) then
    let rid := request_id r in
    let! restored := lift (dpop_key rid (num_scheduled_tokens p)) in
    let! _ := lift (dpop_key rid (req_to_new_blocks p)) in
    let! x := the r in
    let! embeds := lift (sum_embeds (enc_view x) (default [] (dget rid (scheduled_encoder_inputs p)))) in
    ret (drop_scheduled r restored embeds (sc_draft_slots c) p)
  else ret p.

(** The victim, removed from [running], and the cursor. *)
Definition take_victim (i : nat) (p : pass) : M st (req * nat * pass) :=
  let! l := gets running in
  if sc_priority c then
    match l with
    | [] => raise ValueError
    | x :: l' =>
        let victim := max_from x l' in
        match index_of victim l with
        | None => raise ValueError
        | Some k =>
            modify (set_running (delete k l)) >>
            let! p' := unschedule victim p in
            ret (victim, if (k <? i)%nat then (i - 1)%nat else i, p')
        end
    end
  else
    match last l with
    | None => raise IndexError
    | Some victim => modify (set_running (take (length l - 1) l)) >> ret (victim, i, p)
    end.

(** [while True]: allocate, or preempt and try again. *)
Fixpoint allocate_loop (fuel : nat) (r : req) (n : Z) (i : nat) (p : pass)
    : M st (option (list (list Z)) * nat * pass) :=
  let! x := the r in
  let! blocks := on_kv (kv_allocate (kv_view x) n 0 None (sc_lookahead c) false true) in
  match blocks with
  | Some bs => ret (Some bs, i, p)
  | None =>
      let! v := take_victim i p in
      let '(victim, i', p') := v in
      _preempt_request victim (sc_kv_delivery c) >>
      let p'' := add_preempted victim p' in
      if decide (victim = r) then ret (None, i', p'')
      else match fuel with
           | O => raise RuntimeError
           | Datatypes.S fuel' => allocate_loop fuel' r n i' p''
           end
  end.

(** ** The running requests *)
Definition _reserve_prefill_lookahead (x : sreq) (computed n : Z) : Z :=
  let remaining := sr_num_tokens x - computed - n in
  Z.max (if (0 <? remaining) && (remaining <? sc_prefill_lookahead c)
         then n - (sc_prefill_lookahead c - remaining) else n) 0.

(** Requests that this step leaves alone. *)
Definition passes_over (step : Z) (defer_prefills : bool) (x : sreq) : bool :=
  let m := mv x in
  ((0 <? r_placeholders m) &&
     (num_prompt_tokens (sr_request (fx x)) + sr_max_tokens (fx x) <=? r_computed m + 2 - r_placeholders m))
  || (step <? sr_next_decode (fx x))
  || (defer_prefills && r_prefill_chunk m).

Definition cap_long_prefill (n : Z) : Z :=
  if (0 <? sc_long_prefill c) && (sc_long_prefill c <? n) then sc_long_prefill c else n.

Definition running_tokens (p : pass) (x : sreq) : Z :=
  let m := mv x in
  let n := cap_long_prefill (num_tokens_with_spec x + r_placeholders m - r_computed m) in
  let n := Z.min n (Z.min (token_budget p) (input_budget p - sc_draft_slots c)) in
  Z.min n (sc_max_model_len c - r_computed m - sc_sampled_per_step c).

(** [_try_schedule_encoder_inputs], if the request has inputs. *)
Definition plan_encoder (x : sreq) (computed n : Z) (p : pass) : M st (list Z * Z * Z * list Z) :=
  if bool_decide (sr_features (fx x) = []) then ret ([], n, encoder_compute_budget p, [])
  else on_enc (_try_schedule_encoder_inputs None (sc_no_mm_chunks c) (enc_view x) computed n
                 (encoder_compute_budget p) (sc_prefill_lookahead c)).

(** The draft tokens that fit. *)
Definition spec_scheduled (x : sreq) (n : Z) : option (list Z) :=
  let m := mv x in
  let k := n + r_computed m - sr_num_tokens x - r_placeholders m in
  if bool_decide (r_spec_token_ids m = []) || (k <=? 0) then None
  else Some (py_take (r_spec_token_ids m) k).

Fixpoint running_loop (fuel : nat) (defer_prefills : bool) (i : nat) (p : pass) : M st pass :=
  let! s := gets (λ s, s) in
  match running s !! i with
  | None => ret p
  | Some r =>
    if (token_budget p <=? 0) || (input_budget p <=? sc_draft_slots c) then ret p
    else match fuel with
    | O => raise RuntimeError
    | Datatypes.S fuel' =>
      let! x := the r in
      if passes_over (current_step (bk s)) defer_prefills x then running_loop fuel' defer_prefills (Datatypes.S i) p
      else
        let! plan := plan_encoder x (r_computed (mv x)) (running_tokens p x) p in
        let '(inputs, n, encoder_budget, external) := plan in
        let n := _reserve_prefill_lookahead x (r_computed (mv x)) n in
        if n =? 0 then running_loop fuel' defer_prefills (Datatypes.S i) p
        else
          let! got := allocate_loop (length (running s)) r n i p in
          let '(blocks, i', p') := got in
          match blocks with
          | None => ret p'
          | Some bs =>
              (when negb (bool_decide (r_spec_token_ids (mv x) = [])) do put r clear_spec) >>
              (when negb (bool_decide (inputs = [])) || negb (bool_decide (external = []))
               do on_enc (allocate_inputs (enc_view x) inputs external)) >>
              running_loop fuel' defer_prefills (Datatypes.S i')
                (as_running r (r_prefill_chunk (mv x))
                   (add_scheduled (request_id r) n (sc_draft_slots c)
                      (if bool_decide (inputs = []) then encoder_compute_budget p' else encoder_budget)
                      bs (spec_scheduled x n) inputs p'))
          end
    end
  end.

(** ** The waiting requests *)

(** [_try_promote_blocked_waiting_request]; [finished_recving_kv_req_ids] stays
    empty. *)
Definition _try_promote_blocked_waiting_request (r : req) (x : sreq) : M st bool :=
  match r_status (mv x) with
  | WAITING_FOR_REMOTE_KVS => ret false
  | WAITING_FOR_STRUCTURED_OUTPUT_GRAMMAR =>
      match sr_grammar (fx x) with
      | GPending => ret false
      | GFailed => on_bk (with_grammar_error (request_id r)) >> ret false
      | GReady => put r (set_status WAITING) >> ret true
      end
  | WAITING_FOR_STREAMING_REQ => ensure (sr_streaming (fx x) =? 0) AssertionError >> ret false
  | _ => raise AssertionError
  end.

(** [request_queue.pop_request(); step_skipped_waiting.prepend_request(request)] *)
Definition skip_request (ch : RequestQueue.choice) (r : req) (skipped : Q) : M st Q :=
  let! _ := on_choice ch pop_request in
  let '(res, q) := prepend_request r skipped in
  let! _ := lift res in
  ret q.

(** The LoRA of the request would be one too many. *)
Definition too_many_loras (x : sreq) (p : pass) : bool :=
  match sc_max_loras c, sr_lora (fx x) with
  | Some mx, Some l => bool_decide (Z.of_nat (size (scheduled_loras p)) = mx) && negb (bool_decide (l ∈ scheduled_loras p))
  | _, _ => false
  end.

(** Is the request of the turn skipped? *)
Definition skips (r : req) (p : pass) : M st bool :=
  let! x := the r in
  let! blocked := (if _is_blocked_waiting_status (r_status (mv x))
                   then let! ok := _try_promote_blocked_waiting_request r x in ret (negb ok) else ret false) in
  ret (blocked || ((0 <? r_stale (mv x)) && negb (r_drop_stale (mv x))) || too_many_loras x p).

(** The prefix-cache hit of a request that has computed nothing: blocks, hit
    tokens, tokens computed. *)
Definition local_hit (x : sreq) : M st (option (list (list Z)) * Z * Z) :=
  if r_computed (mv x) =? 0 then
    let! s := gets (λ s, s) in
    let! hit := lift (kv_lookup (kvm s) (sr_request (fx x)) (sr_skip_reading (fx x))) in
    ensure (hit.2 <=? sr_num_tokens x) AssertionError >>
    ret (hit.1, hit.2, hit.2)
  else ret (None, 0, r_computed (mv x)).

(** How many tokens to schedule, and whether as a padded decode; [None] is
    [break]. *)
Definition waiting_tokens (p : pass) (x : sreq) (computed : Z) : option (Z * bool) :=
  let budget := Z.min (token_budget p) (input_budget p - sc_draft_slots c) in
  let n := sr_num_tokens x - computed in
  let padded := 1 + sc_num_spec c in
  let pad := (0 <? sc_num_spec c) && negb (sc_dynamic_sd c) && (0 <? sc_sampled_per_step c) && (n =? 1)
             && negb (bool_decide (scheduled_running_reqs p = [])) && negb (prefill_scheduled p)
             && (computed + padded + sc_sampled_per_step c <=? sc_max_model_len c) in
  if pad && (budget <? padded) then None
  else
    let n := cap_long_prefill (if pad then padded else n) in
    if negb (sc_chunked c) && (budget <? n) then None
    else Some (Z.min n budget, pad).

(** The turn of one request, whose blocks are allocated. *)
Definition admit_request (ch : RequestQueue.choice) (n computed encoder_budget : Z) (pad : bool)
    (inputs external : list Z) (p : pass) : M st pass :=
  let! r := on_choice ch pop_request in
  let rid := request_id r in
  modify (λ s, set_running (running s ++ [r]) s) >>
  let! x := the r in
  let! resumed := (match r_status (mv x) with
                   | WAITING => ret false
                   | PREEMPTED => ret true
                   | _ => raise RuntimeError
                   end) in
  let! k := gets kvm in
  put r (start_running computed) >>
  (when pad do ensure (n =? 1 + sc_num_spec c) AssertionError) >>
  (when computed + n <? sr_num_tokens x do on_bk (with_inflight (λ i, {[rid]} ∪ i))) >>
  (when negb (bool_decide (inputs = [])) || negb (bool_decide (external = []))
   do on_enc (allocate_inputs (enc_view x) inputs external)) >>
  ret (with_lora (_ ← sc_max_loras c; sr_lora (fx x))
        (as_admitted r resumed
          (add_scheduled rid n (sc_draft_slots c)
             (if bool_decide (inputs = []) then encoder_compute_budget p else encoder_budget) (kv_tables k rid)
             (if pad then Some (replicate (Z.to_nat (sc_num_spec c)) (-1)) else None) inputs p))).

(** The turn of a request that is not skipped; [None] is [break]. *)
Definition candidate_turn (defer_prefills : bool) (ch : RequestQueue.choice) (r : req) (skipped : Q) (p : pass)
    : M st (option (Q * pass)) :=
  let! x := the r in
  let! hit := local_hit x in
  let '(hits, num_new_local, computed) := hit in
  if defer_prefills && (computed <? sr_num_tokens x - 1) then ret None
  else
    match waiting_tokens p x computed with
    | None => ret None
    | Some (n, pad) =>
        ensure (0 <? n) AssertionError >>
        let! plan := plan_encoder x computed n p in
        let '(inputs, n, encoder_budget, external) := plan in
        let n := _reserve_prefill_lookahead x computed n in
        if n =? 0 then ret None
        else
          let! busy := gets (λ s, negb (bool_decide (running s = []))) in
          let! blocks := on_kv (kv_allocate (kv_view x) n num_new_local hits (sc_lookahead c)
                                  (sc_reserve_full c) busy) in
          match blocks with
          | None =>
              (when negb (bool_decide (sr_features (fx x) = []))
               do on_enc (em_free set_order (enc_view x))) >>
              ret None
          | Some _ => let! p' := admit_request ch n computed encoder_budget pad inputs external p in
                      ret (Some (skipped, p'))
          end
    end.

Definition waiting_turn (defer_prefills : bool) (ch : RequestQueue.choice) (r : req) (skipped : Q) (p : pass)
    : M st (option (Q * pass)) :=
  let! skip := skips r p in
  if skip : bool then let! q := skip_request ch r skipped in ret (Some (q, p))
  else candidate_turn defer_prefills ch r skipped p.

Fixpoint waiting_loop (fuel : nat) (defer_prefills : bool) (skipped : Q) (p : pass) : M st (Q * pass) :=
  let! s := gets (λ s, s) in
  if negb (has_requests (waiting (rqs s)) || has_requests (skipped_waiting (rqs s)))
     || (token_budget p <=? 0) || (input_budget p <=? sc_draft_slots c)
     || (sc_max_running c <=? zlen (running s) + num_waiting_for_streaming_input (bk s))
  then ret (skipped, p)
  else match fuel with
       | O => raise RuntimeError
       | Datatypes.S fuel' =>
           let! sel := on_rqs (_select_waiting_queue_for_scheduling (negb (sc_priority c))) in
           match sel with
           | None => raise AssertionError
           | Some ch =>
               let! r := on_choice ch peek_request in
               let! turn := waiting_turn defer_prefills ch r skipped p in
               match turn with
               | None => ret (skipped, p)
               | Some (skipped', p') => waiting_loop fuel' defer_prefills skipped' p'
               end
           end
       end.

(** ** The whole step *)
Definition sum_scheduled (p : pass) : Z := foldr Z.add 0 (num_scheduled_tokens p).*2.

Definition check_constraints (p : pass) : M st unit :=
  let! s := gets (λ s, s) in
  ensure (sum_scheduled p <=? sc_max_scheduled c) AssertionError >>
  ensure (0 <=? token_budget p) AssertionError >>
  ensure (0 <=? input_budget p) AssertionError >>
  ensure (zlen (running s) <=? sc_max_running c) AssertionError >>
  ensure (zlen (scheduled_new_reqs p) + zlen (scheduled_resumed_reqs p) + zlen (scheduled_running_reqs p)
          <=? zlen (running s)) AssertionError.

(** [get_block_ids(allow_none=True)], of which the connector reads group 0. *)
Definition group_0 (blocks : list (list Z)) : option (list Z) :=
  if forallb (λ g : list Z, bool_decide (g = [])) blocks then None else Some (default [] (head blocks)).

(** A planned request, with its new blocks. *)
Definition data_of (p : pass) (r : req) : M st (sreq * list (list Z)) :=
  let! blocks := lift (dpop_key (request_id r) (req_to_new_blocks p)) in
  let! x := the r in
  ret (x, blocks).

(** [SchedulerOutput], as the connector reads it.  The V2 model runner gets the
    resumed requests as new ones. *)
Definition make_output (p : pass) : M st SchedulerOutput :=
  let new_reqs := if sc_v2_runner c then scheduled_new_reqs p ++ scheduled_resumed_reqs p else scheduled_new_reqs p in
  let resumed_reqs := if sc_v2_runner c then [] else scheduled_resumed_reqs p in
  let cached_reqs := scheduled_running_reqs p ++ resumed_reqs in
  let! news := mmap (λ r, let! d := data_of p r in
    ret (NewReq (request_id r) (default [] (head d.2)) (r_computed (mv d.1)) (num_prompt_tokens (sr_request (fx d.1)))))
    new_reqs in
  let! cached := mmap (data_of p) cached_reqs in
  ret (SOut news (request_id <$> cached_reqs) ((λ d, r_computed (mv d.1)) <$> cached) ((λ d, group_0 d.2) <$> cached)
         (list_to_set (request_id <$> resumed_reqs)) (list_to_map (num_scheduled_tokens p))).

(** One request of [_update_after_schedule]. *)
Definition advance (n seq : Z) (x : sreq) : sreq :=
  let m := mv x in
  let computed := r_computed m + n in
  SR (fx x) (Moving (r_status m) (r_spec_token_ids m) computed (r_placeholders m) (r_in_flight m + n) (r_stale m)
    (r_drop_stale m) (r_preemptions m) (computed <? sr_num_tokens x + r_placeholders m)
    (if sc_defer_free c then seq else r_last_sched_seq m)).

Definition advance_request (e : string * Z) : M st unit :=
  let! s := gets (λ s, s) in
  match requests s !! e.1 with
  | None => raise KeyError
  | Some x =>
      let x' := advance e.2 (sched_step_seq (bk s)) x in
      modify (set_requests (<[e.1 := x']> (requests s))) >>
      when negb (r_prefill_chunk (mv x')) do on_bk (with_inflight (λ i, i ∖ {[e.1]}))
  end.

Definition _update_after_schedule (num_scheduled : list (string * Z)) : M st unit :=
  mfor num_scheduled advance_request >> on_bk clear_sets.

Definition start_pass (s : st) : pass :=
  Pass (match _pause_state (bk s) with PAUSED_ALL => 0 | _ => sc_max_scheduled c end) (sc_max_batched c)
    (sc_encoder_budget c) [] [] [] [] [] [] [] [] false ∅.

(** The LoRAs of the running requests that were scheduled. *)
Definition running_loras (s : st) (p : pass) : gset Z :=
  list_to_set (omap (λ r, x ← requests s !! request_id r; sr_lora (fx x) ≫= λ l, if 0 <? l then Some l else None)
                 (scheduled_running_reqs p)).
Definition set_loras (l : gset Z) (p : pass) : pass :=
  Pass (token_budget p) (input_budget p) (encoder_compute_budget p) (scheduled_new_reqs p)
    (scheduled_resumed_reqs p) (scheduled_running_reqs p) (preempted_reqs p) (num_scheduled_tokens p)
    (req_to_new_blocks p) (scheduled_spec_decode_tokens p) (scheduled_encoder_inputs p) (prefill_scheduled p) l.

Definition record_loras (p : pass) : M st pass :=
  match sc_max_loras c with
  | None => ret p
  | Some mx =>
      let! s := gets (λ s, s) in
      ensure (Z.of_nat (size (running_loras s p)) <=? mx) AssertionError >>
      ret (set_loras (running_loras s p) p)
  end.

(** The pass over the waiting queues. *)
Definition schedule_waiting (defer_prefills : bool) (p : pass) : M st pass :=
  let! s := gets (λ s, s) in
  if bool_decide (preempted_reqs p = []) && match _pause_state (bk s) with UNPAUSED => true | _ => false end then
    let! waiting_ids := lift (iter_requests (waiting (rqs s))) in
    let! skipped_ids := lift (iter_requests (skipped_waiting (rqs s))) in
    let! x := waiting_loop (length waiting_ids + length skipped_ids) defer_prefills new_queue p in
    (when has_requests x.1 do on_rqs (on_skipped (prepend_requests x.1))) >>
    (when negb defer_prefills do
       let! s' := gets (λ s, s) in on_bk (with_bound (has_requests (waiting (rqs s'))))) >>
    ret x.2
  else ret p.

(** The plan, without what follows the checks. *)
Definition plan_step (throttle_prefills : bool) : M st pass :=
  on_bk (λ b, with_steps (current_step b + 1) (sched_step_seq b) (processed_step_seq b) b) >>
  let! s := gets (λ s, s) in
  let decoding := existsb (λ r, match requests s !! request_id r with
                                | Some x => negb (r_prefill_chunk (mv x)) | None => false end) (running s) in
  let defer_prefills := (throttle_prefills && negb (prefill_capacity_bound (bk s))) && decoding in
  let! p := running_loop (length (running s)) defer_prefills 0 (start_pass s) in
  let! p := record_loras p in
  schedule_waiting defer_prefills p.

Definition schedule (throttle_prefills : bool) : M st (pass * SchedulerOutput * list string) :=
  let! p := plan_step throttle_prefills in
  check_constraints p >>
  let! out := make_output p in
  let! copies := on_kv kv_take_copies in
  let! b := gets bk in
  (when negb (bool_decide (copies.1 = [])) do _free_cow_retained_blocks copies.2 (sched_step_seq b + 1)) >>
  let! freed := on_enc em_freed in
  let! _ := on_kv kv_take_new_ids in
  (when sc_defer_free c && (0 <? sum_scheduled p) do
     on_bk (λ b, with_steps (current_step b) (sched_step_seq b + 1) (processed_step_seq b) b)) >>
  _update_after_schedule (num_scheduled_tokens p) >>
  ret (p, out, freed).
End Schedule.
