(* ===== verification/RequestUpdate.v ===== *)
(** * The scheduler between two steps

    The rest of vllm/v1/core/sched/scheduler.py that changes requests:
    [add_request], [finish_requests], [update_from_output],
    [update_draft_token_ids], and the loop around them, [EngineCore.step] of
    vllm/v1/engine/core.py.  The state is that of RequestScheduler.v.

    The block hasher of the requests, the model runner and the structured-output
    manager are arguments: what they answer is read from their outputs.  Streaming
    sessions (resumable requests), loads from the connector, routed experts,
    log probabilities, events and statistics are not modelled; the outputs of all
    clients are one list. *)

From S2P Require Import Prelude PyData Float BlockHash BlockHasher SingleTypeManager KVCacheManager.
From S2P Require Import EncoderCache RequestQueue Scheduler StopConditions RequestScheduler.
From stdpp Require Import base gmap sets list strings.
From Stdlib Require Import ZArith Lia.
Open Scope Z_scope.

(** ** What the engine gets and gives *)

(** [FinishReason], and [_FINISHED_REASON_MAP] *)
Inductive finish_reason := STOP | LENGTH | ABORT | ERROR | REPETITION.

Definition get_finished_reason (st : status) : option finish_reason :=
  match st with
  | FINISHED_STOPPED => Some STOP
  | FINISHED_LENGTH_CAPPED => Some LENGTH
  | FINISHED_ABORTED => Some ABORT
  | FINISHED_IGNORED => Some LENGTH
  | FINISHED_ERROR => Some ERROR
  | WAITING_FOR_STREAMING_REQ => Some STOP
  | FINISHED_REPETITION => Some REPETITION
  | _ => None
  end.

Record ModelRunnerOutput := MROut {
  req_id_to_index : gmap string Z;
  sampled_token_ids : list (list Z);
  (** per row: is there a pooler output *)
  pooler_output : list bool;
}.

Record EngineCoreOutput := ECOut {
  eo_request_id : string;
  eo_new_token_ids : list Z;
  eo_finish_reason : option finish_reason;
  eo_stop_reason : option stop_reason;
  eo_pooled : bool;
}.

(** What the loop of [update_from_output] collects. *)
Record updates := Updates {
  stopped_running_reqs : list req;
  stopped_preempted_reqs : list req;
  outputs : list EngineCoreOutput;
}.

Section Update.
Context {K E Q : Type} `{KVCache K} `{EncoderManager E} `{RequestQueue Q}.
Context (c : sconf).
(** The iteration orders of sets. *)
Context (set_order : gset Z → list Z) (id_order : gset string → list string).
(** [Request._block_hasher] *)
Context (block_hasher : option (BlockHasher.Request → result (list bytes))).
Notation st := (rsched K E Q).

(** ** Requests *)
Definition with_request (f : BlockHasher.Request → BlockHasher.Request) (x : sreq) : sreq :=
  let a := fx x in
  SR (Fixed (sr_key a) (f (sr_request a)) (sr_features a) (sr_max_tokens a) (sr_lora a) (sr_grammar a) (sr_streaming a)
        (sr_skip_reading a) (sr_next_decode a) (sr_sampling a)) (mv x).

(** [Request.append_output_token_ids] *)
Definition append_output_token_ids (t : Z) (x : BlockHasher.Request) : result BlockHasher.Request :=
  let x' := with_tokens (all_token_ids x ++ [t]) x in
  match block_hasher with
  | None => Ok x'
  | Some h => result_bind (h x') (λ hs, Ok (with_hashes (block_hashes x' ++ hs) x'))
  end.

(** [Request._output_token_ids] *)
Definition output_token_ids (x : BlockHasher.Request) : list Z :=
  drop (Z.to_nat (num_prompt_tokens x)) (all_token_ids x).

Definition put_request (r : req) (x' : BlockHasher.Request) : M st unit :=
  modify (λ s, set_requests (alter (with_request (λ _, x')) (request_id r) (requests s)) s).

(** [_update_request_with_output]: the tokens that are kept, and the reason if the
    request stops. *)
Fixpoint _update_request_with_output (r : req) (new_token_ids : list Z) : M st (list Z * option (option stop_reason)) :=
  match new_token_ids with
  | [] => ret ([], None)
  | t :: rest =>
      let! x := the r in
      let! x' := lift (append_output_token_ids t (sr_request (fx x))) in
      put_request r x' >>
      let! stop := lift (check_stop (sr_sampling (fx x)) (output_token_ids x') (num_tokens x')
                           (sr_max_tokens (fx x)) (sc_max_model_len c)) in
      match stop with
      | Some (status, why) => put r (set_status status) >> ret ([t], Some why)
      | None => let! more := _update_request_with_output r rest in ret (t :: more.1, more.2)
      end
  end.

(** ** Requests that end *)

(** [_free_request], with [_connector_finished] and [_free_blocks]; the connector
    of the repository answers [(False, None)] to [request_finished]. *)
Definition _free_request (r : req) (delay_free_blocks : bool) : M st unit :=
  let! x := the r in
  ensure (is_finished (r_status (mv x))) AssertionError >>
  on_bk (with_inflight (λ i, i ∖ {[request_id r]})) >>
  on_kv (kv_drop_skipped (request_id r) (Z.max 0 (r_computed (mv x) - r_in_flight (mv x)))
           (num_prompt_tokens (sr_request (fx x)))) >>
  on_enc (em_free set_order (enc_view x)) >>
  on_bk (with_finished (request_id r)) >>
  when negb delay_free_blocks do
    (_free_request_blocks c r >> modify (λ s, set_requests (delete (request_id r) (requests s)) s)).

(** The first loop of [finish_requests]: the requests that are not finished yet,
    the running ones and the others. *)
Fixpoint collect_requests (request_ids : list string) : M st (list req * list req * list req) :=
  match request_ids with
  | [] => ret ([], [], [])
  | rid :: rest =>
      let! m := gets requests in
      match m !! rid with
      | None => collect_requests rest
      | Some x =>
          if is_finished (r_status (mv x)) then collect_requests rest
          else
            let r := sr_key (fx x) in
            (when bool_decide (r_status (mv x) = WAITING_FOR_STREAMING_REQ) do on_bk (add_streaming (-1))) >>
            let! more := collect_requests rest in
            let '(valid, to_run, to_wait) := more in
            ret (if decide (r_status (mv x) = RUNNING) then (r :: valid, r :: to_run, to_wait)
                 else (r :: valid, to_run, r :: to_wait))
      end
  end.

(** A turn of the second loop. *)
Definition finish_one (finished_status : status) (r : req) : M st unit :=
  let! x := the r in
  let delay := bool_decide (r_status (mv x) = WAITING_FOR_REMOTE_KVS) in
  put r (set_status finished_status) >>
  _free_request r delay.

Definition finish_requests (request_ids : list string) (finished_status : status) : M st (list req) :=
  ensure (is_finished finished_status) AssertionError >>
  let! found := collect_requests request_ids in
  let '(valid, to_run, to_wait) := found in
  (when negb (bool_decide (to_run = [])) do modify (λ s, set_running (remove_all (running s) to_run) s)) >>
  (when negb (bool_decide (to_wait = [])) do
     (on_rqs (on_waiting (remove_requests to_wait)) >> on_rqs (on_skipped (remove_requests to_wait)))) >>
  mfor valid (finish_one finished_status) >>
  ret valid.

(** ** New requests *)
Definition add_request (r : req) (x : sreq) : M st unit :=
  let! m := gets requests in
  match m !! request_id r with
  | Some _ => raise AssertionError
  | None =>
      on_rqs (_enqueue_waiting_request (r_status (mv x)) r) >>
      modify (λ s, set_requests (<[request_id r := x]> (requests s)) s)
  end.

(** ** The output of a step *)

(** The step's tokens are no longer in flight. *)
Definition drain (n : Z) (m : moving_part) : moving_part :=
  Moving (r_status m) (r_spec_token_ids m) (r_computed m) (r_placeholders m) (r_in_flight m - n)
    (if 0 <? r_stale m then r_stale m - n else r_stale m)
    (r_drop_stale m) (r_preemptions m) (r_prefill_chunk m) (r_last_sched_seq m).

(** Rejected draft tokens are not computed. *)
Definition reject_drafts (rejected : Z) (m : moving_part) : moving_part :=
  Moving (r_status m) (r_spec_token_ids m) (if 0 <? r_computed m then r_computed m - rejected else r_computed m)
    (if 0 <? r_placeholders m then r_placeholders m - rejected else r_placeholders m) (r_in_flight m) (r_stale m)
    (r_drop_stale m) (r_preemptions m) (r_prefill_chunk m) (r_last_sched_seq m).

(** How many of the scheduled draft tokens were rejected, if that is known. *)
Definition rejected_drafts (scheduled : option (list Z)) (generated : list Z) : option Z :=
  let scheduled := default [] scheduled in
  if bool_decide (scheduled = []) || (bool_decide (generated = []) && negb (sc_sampled_per_step c =? 0)) then None
  else Some (zlen scheduled - Z.max (zlen generated - sc_sampled_per_step c) 0).

(** Does the request stop, and with which tokens? *)
Definition stop_request (r : req) (x : sreq) (generated : list Z) (pooled : bool)
    : M st (list Z * option (option stop_reason)) :=
  if negb (bool_decide (generated = [])) then _update_request_with_output r generated
  else if bool_decide (sr_sampling (fx x) = None) && pooled
  then put r (set_status FINISHED_STOPPED) >> ret ([], Some None)
  else if sc_mm_encoder_only c && (num_prompt_tokens (sr_request (fx x)) <=? r_computed (mv x))
  then put r (set_status FINISHED_STOPPED) >> ret ([], Some None)
  else ret ([], None).

Section Output.
Context (mro : ModelRunnerOutput) (scheduled_spec_decode_tokens : list (string * list Z)).
(** [should_advance(request) and not grammar.accept_tokens(...)]: the grammar of the
    request refuses the tokens. *)
Context (grammar_rejects : string → list Z → bool).

(** The tail of a turn: what is sent, and the request that stopped. *)
Definition emit (r : req) (x : sreq) (was : status) (new_token_ids : list Z) (stopped : option (option stop_reason))
    (pooled : bool) (u : updates) : M st updates :=
  let out finish := ECOut (request_id r) new_token_ids finish (match stopped with Some why => why | None => None end) pooled in
  match stopped with
  | None =>
      ret (if negb (bool_decide (new_token_ids = [])) || pooled
           then Updates (stopped_running_reqs u) (stopped_preempted_reqs u) (outputs u ++ [out None]) else u)
  | Some _ =>
      _free_request r false >>
      let outs := outputs u ++ [out (get_finished_reason (r_status (mv x)))] in
      ret (if decide (was = RUNNING) then Updates (stopped_running_reqs u ++ [r]) (stopped_preempted_reqs u) outs
           else Updates (stopped_running_reqs u) (stopped_preempted_reqs u ++ [r]) outs)
  end.

(** One request of the step. *)
Definition update_one (u : updates) (e : string * Z) : M st updates :=
  let '(rid, n) := e in
  ensure (0 <? n) AssertionError >>
  let! m := gets requests in
  match m !! rid with
  | None => ret u
  | Some x0 =>
      let r := sr_key (fx x0) in
      let stale := 0 <? r_stale (mv x0) in
      put r (drain n) >>
      ensure (negb stale || (0 <=? r_stale (mv x0) - n)) AssertionError >>
      if is_finished (r_status (mv x0)) || (stale && r_drop_stale (mv x0)) then ret u
      else
        let! row := (match req_id_to_index mro !! rid with Some i => ret i | None => raise KeyError end) in
        let! generated := (if bool_decide (sampled_token_ids mro = []) then ret []
                           else lift (py_index (sampled_token_ids mro) row)) in
        (match rejected_drafts (dget rid scheduled_spec_decode_tokens) generated with
         | Some k => when negb stale do put r (reject_drafts k)
         | None => ret tt
         end) >>
        let! x := the r in
        (when negb (bool_decide (sr_features (fx x) = []))
         do on_enc (_free_encoder_inputs set_order (sc_prefill_lookahead c) (enc_view x))) >>
        let! pooled := (if bool_decide (pooler_output mro = []) then ret false else lift (py_index (pooler_output mro) row)) in
        let! res := stop_request r x generated pooled in
        let '(new_token_ids, stopped) := res in
        let bad := negb (bool_decide (new_token_ids = [])) && grammar_rejects rid new_token_ids in
        (when bad do put r (set_status FINISHED_ERROR)) >>
        let! x := the r in
        emit r x (r_status (mv x0)) new_token_ids
          (if bad then Some (match stopped with Some why => why | None => None end) else stopped) pooled u
  end.

Fixpoint update_loop (u : updates) (l : list (string * Z)) : M st updates :=
  match l with
  | [] => ret u
  | e :: l' => let! u' := update_one u e in update_loop u' l'
  end.

(** Requests whose grammar does not compile end with an error. *)
Definition finish_errors : M st (list EngineCoreOutput) :=
  let! b := gets bk in
  let errors := grammar_compile_error_reqs b in
  on_bk clear_grammar_errors >>
  if bool_decide (errors = ∅) then ret []
  else
    let! error_reqs := finish_requests (id_order errors) FINISHED_ERROR in
    ret ((λ r, ECOut (request_id r) [] (get_finished_reason FINISHED_ERROR) None false) <$> error_reqs).

Definition update_from_output (num_scheduled_tokens : list (string * Z)) : M st (list EngineCoreOutput) :=
  (when sc_defer_free c && (0 <? foldr Z.add 0 num_scheduled_tokens.*2) do
     (on_bk (λ b, with_steps (current_step b) (sched_step_seq b) (processed_step_seq b + 1) b) >> _drain_deferred_frees)) >>
  let! u := update_loop (Updates [] [] []) num_scheduled_tokens in
  (when negb (bool_decide (stopped_running_reqs u = [])) do
     modify (λ s, set_running (remove_all (running s) (stopped_running_reqs u)) s)) >>
  (when negb (bool_decide (stopped_preempted_reqs u = [])) do
     (on_rqs (on_waiting (remove_requests (stopped_preempted_reqs u))) >>
      on_rqs (on_skipped (remove_requests (stopped_preempted_reqs u))))) >>
  let! errors := finish_errors in
  ret (outputs u ++ errors).
End Output.

(** ** Draft tokens *)
Definition set_spec (l : list Z) (m : moving_part) : moving_part :=
  Moving (r_status m) l (r_computed m) (r_placeholders m) (r_in_flight m) (r_stale m)
    (r_drop_stale m) (r_preemptions m) (r_prefill_chunk m) (r_last_sched_seq m).

(** [validate rid tokens]: the tokens that the grammar of the request, if it is to
    advance, accepts. *)
Definition update_draft_one (validate : string → list Z → list Z) (e : string * list Z) : M st unit :=
  let! m := gets requests in
  match m !! e.1 with
  | None => ret tt
  | Some x =>
      if is_finished (r_status (mv x)) then ret tt
      else put (sr_key (fx x)) (if r_prefill_chunk (mv x) then clear_spec else set_spec (validate e.1 e.2))
  end.

Definition update_draft_token_ids (validate : string → list Z → list Z) (drafts : list (string * list Z)) : M st unit :=
  mfor drafts (update_draft_one validate).

(** ** The engine loop *)
Definition get_num_unfinished_requests (s : st) : result Z :=
  match _pause_state (bk s) with
  | PAUSED_ALL => Ok 0
  | PAUSED_NEW => Ok (zlen (running s))
  | UNPAUSED =>
      result_bind (iter_requests (waiting (rqs s))) (λ w,
      result_bind (iter_requests (skipped_waiting (rqs s))) (λ k,
        Ok (zlen w + zlen k - num_waiting_for_streaming_input (bk s) + zlen (running s))))
  end.

(** [Scheduler.has_requests]; the connector has no pending pushes. *)
Definition has_requests (s : st) : result bool :=
  result_bind (get_num_unfinished_requests s) (λ unfinished,
  result_bind (iter_requests (waiting (rqs s))) (λ w,
  result_bind (iter_requests (skipped_waiting (rqs s))) (λ k,
    Ok ((0 <? unfinished) || negb (bool_decide (finished_req_ids (bk s) = ∅))
        || (zlen w + zlen k + zlen (running s) <? Z.of_nat (size (requests s))))))).

(** What happens outside the scheduler in one step: the model run on the plan, the
    aborts that arrive meanwhile, the drafts. *)
Record environment := Env {
  ev_throttle : bool;
  ev_model : pass → ModelRunnerOutput;
  ev_grammar : string → list Z → bool;
  ev_aborts : list string;
  ev_drafts : list (string * list Z);
  ev_validate : string → list Z → list Z;
}.

Definition abort_requests (ids : list string) : M st (list req) :=
  finish_requests (id_order (list_to_set ids)) FINISHED_ABORTED.

(** [EngineCore.step] and [post_step]. *)
Definition step (v : environment) : M st (list EngineCoreOutput) :=
  let! busy := (λ s, (has_requests s, s)) in
  if negb busy then ret []
  else
    let! res := schedule c set_order (ev_throttle v) in
    let p := res.1.1 in
    (when negb (bool_decide (ev_aborts v = [])) do (abort_requests (ev_aborts v) >> ret tt)) >>
    let! outs := update_from_output (ev_model v p) (RequestScheduler.scheduled_spec_decode_tokens p) (ev_grammar v)
                   (num_scheduled_tokens p) in
    (when 0 <? sum_scheduled p do update_draft_token_ids (ev_validate v) (ev_drafts v)) >>
    ret outs.
End Update.
