(* ===== verification/SchedulerInterfaces.v ===== *)
(** * What the scheduler relies on

    The interfaces between the request scheduler (RequestScheduler.v) and the
    managers it calls: what the KV-cache manager and the encoder cache promise, as
    classes of laws, and the condition on the configuration.  The laws of the
    queues are [QueueLaws] of RequestQueue.v. *)

From S2P Require Import Prelude PyData Float BlockHasher SingleTypeManager KVCacheManager.
From S2P Require Import EncoderCache RequestQueue RequestScheduler.
From stdpp Require Import base gmap sets list strings.
From Stdlib Require Import ZArith Lia.
Open Scope Z_scope.

(** The KV-cache manager.  [out] lists the blocks that were handed to the scheduler
    for a later release. *)
Class KVSpec (K : Type) `{KVCache K} := {
  kv_good : list Z → K → Prop;
  (** the request's tables hold its first [n] tokens *)
  kv_ready : K → string → Z → Prop;
  (** the request holds nothing *)
  kv_idle : K → string → Prop;
  (** an answer of [get_computed_blocks] *)
  kv_hit : K → string → option (list (list Z)) → Z → Prop;
  kv_limit : Z;
}.

(** The requests in [P] keep what they have. *)
Definition kv_preserves {K} `{KVSpec K} (P : string → Prop) (k k' : K) : Prop :=
  ∀ rid, P rid → (∀ n, kv_ready k rid n → kv_ready k' rid n) ∧ (kv_idle k rid → kv_idle k' rid).

Class KVLaws (K : Type) `{KVSpec K} : Prop := {
  law_perm out out' (k : K) : out ≡ₚ out' → kv_good out k → kv_good out' k;
  law_lookup out (k : K) r skip :
    kv_good out k → kv_idle k (req_id r) → 0 < num_tokens r →
    ∃ hits n, kv_lookup k r skip = Ok (hits, n) ∧ 0 ≤ n < num_tokens r ∧ kv_hit k (req_id r) hits n;
  law_allocate out (k : K) x n ncomp hits look full sched :
    let rid := req_id (SingleTypeManager.request x) in
    let computed := SingleTypeManager.num_computed_tokens x in
    kv_good out k →
    (computed = 0 ∧ kv_idle k rid ∧ kv_hit k rid hits ncomp) ∨ (kv_ready k rid computed ∧ hits = None ∧ ncomp = 0) →
    0 ≤ computed → 0 ≤ ncomp → 0 < n → 0 ≤ look → computed + ncomp + n ≤ kv_limit (K := K) →
    0 ≤ num_prompt_tokens (SingleTypeManager.request x) →
    ∃ res k', kv_allocate x n ncomp hits look full sched k = (Ok res, k') ∧ kv_good out k' ∧
      kv_preserves (.≠ rid) k k' ∧
      match res with
      | Some _ => kv_ready k' rid (computed + ncomp + n)
      | None => (kv_idle k rid → kv_idle k' rid) ∧ (kv_ready k rid computed → kv_ready k' rid computed)
      end;
  law_free out (k : K) rid : kv_good out k →
    ∃ k', kv_free rid k = (Ok tt, k') ∧ kv_good out k' ∧ kv_preserves (.≠ rid) k k' ∧ kv_idle k' rid;
  law_pop_for_free out (k : K) rid : kv_good out k →
    ∃ bs k', kv_pop_for_free rid k = (Ok bs, k') ∧ kv_good (out ++ bs) k' ∧ kv_preserves (.≠ rid) k k' ∧ kv_idle k' rid;
  law_drop_skipped out (k : K) rid processed prompt : kv_good out k → kv_idle k rid ∨ (∃ n, kv_ready k rid n) → 0 ≤ prompt →
    ∃ k', kv_drop_skipped rid processed prompt k = (Ok tt, k') ∧ kv_good out k' ∧ kv_preserves (.≠ rid) k k';
  law_shorter out (k : K) rid n n' : kv_good out k → kv_ready k rid n → 0 ≤ n' ≤ n → kv_ready k rid n';
  law_release out out' bs (k : K) : kv_good out k → out ≡ₚ bs ++ out' →
    ∃ k', kv_release bs k = (Ok tt, k') ∧ kv_good out' k' ∧ kv_preserves (λ _, True) k k';
  law_copies out (k : K) : kv_good out k →
    ∃ copies given k', kv_take_copies k = (Ok (copies, given), k') ∧ kv_good (out ++ given) k' ∧
      (copies = [] → given = []) ∧ kv_preserves (λ _, True) k k';
  law_new_ids out (k : K) : kv_good out k →
    ∃ ids k', kv_take_new_ids k = (Ok ids, k') ∧ kv_good out k' ∧ kv_preserves (λ _, True) k k';
}.

(** The encoder cache. *)
Class EncoderSpec (E : Type) `{EncoderManager E} := {
  enc_good : E → Prop;
  (** the features of a request *)
  enc_req : string → list feature → Prop;
  (** the inputs to encode and to load have their slots *)
  enc_planned : E → EncoderCache.request → list Z → list Z → Prop;
}.

Class EncoderLaws (E : Type) `{EncoderSpec E} (set_order : gset Z → list Z) : Prop := {
  law_plan (e : E) r no_chunks computed n budget shift :
    enc_good e → enc_req (EncoderCache.request_id r) (EncoderCache.mm_features r) → 0 ≤ n → 0 ≤ shift → 0 ≤ budget →
    ∃ inputs n' budget' external e',
      _try_schedule_encoder_inputs None no_chunks r computed n budget shift e
        = (Ok (inputs, n', budget', external), e') ∧
      enc_good e' ∧ 0 ≤ n' ≤ n ∧ 0 ≤ budget' ∧ enc_planned e' r inputs external ∧
      (* the tokens are cut off before a placeholder, if at all *)
      (n' = n ∨ n' = 0 ∨ ∃ f, f ∈ EncoderCache.mm_features r ∧ computed + n' ≤ offset (mm_position f)) ∧
      ∀ i, i ∈ inputs → 0 ≤ i < zlen (EncoderCache.mm_features r);
  law_alloc_inputs (e : E) r inputs external : enc_good e → enc_planned e r inputs external →
    ∃ e', allocate_inputs r inputs external e = (Ok tt, e') ∧ enc_good e';
  law_enc_free (e : E) r :
    enc_good e → enc_req (EncoderCache.request_id r) (EncoderCache.mm_features r) →
    ∃ e', em_free set_order r e = (Ok tt, e') ∧ enc_good e' ∧
      ∀ r' inputs external, enc_planned e r' inputs external → enc_planned e' r' inputs external;
  law_free_inputs (e : E) r lookahead :
    enc_good e → enc_req (EncoderCache.request_id r) (EncoderCache.mm_features r) →
    ∃ e', _free_encoder_inputs set_order lookahead r e = (Ok tt, e') ∧ enc_good e';
  law_freed (e : E) : enc_good e → ∃ l e', em_freed e = (Ok l, e') ∧ enc_good e';
  law_embeds r i : enc_req (EncoderCache.request_id r) (EncoderCache.mm_features r) →
    0 ≤ i < zlen (EncoderCache.mm_features r) → ∃ n, get_num_encoder_embeds r i = Ok n ∧ 0 ≤ n;
}.

(** A sensible configuration. *)
Record conf_ok (limit : Z) (c : sconf) : Prop := {
  cf_scheduled : 0 ≤ sc_max_scheduled c;
  cf_batched : 0 ≤ sc_max_batched c;
  cf_draft : 0 ≤ sc_draft_slots c;
  cf_sampled : 0 ≤ sc_sampled_per_step c;
  cf_look : 0 ≤ sc_lookahead c;
  cf_prefill : 0 ≤ sc_prefill_lookahead c;
  cf_encoder : 0 ≤ sc_encoder_budget c;
  cf_limit : sc_max_model_len c ≤ limit;
  (** padded decodes are not cut off *)
  cf_pad : sc_long_prefill c ≤ 0 ∨ sc_num_spec c < sc_long_prefill c;
}.
