(* ===== verification/RequestSchedulerSpec.v ===== *)
(** * What a scheduling step guarantees

    [schedule] (RequestScheduler.v) against what the KV-cache manager, the encoder
    cache and the queues promise: the interfaces [KVLaws] and [EncoderLaws] of
    SchedulerInterfaces.v and [QueueLaws] of RequestQueue.v.
    RequestSchedulerProps.v discharges them for the managers of the repository.

    The invariant [inv] is kept by every turn of both passes; [schedule_run] sums up
    a whole step. *)

From S2P Require Import Prelude PyData Float BlockHasher SingleTypeManager KVCacheManager.
From S2P Require Import EncoderCache Heap RequestQueue RequestScheduler SchedulerInterfaces.
From stdpp Require Import base gmap sets list strings.
From Stdlib Require Import ZArith Lia.
Open Scope Z_scope.

(** ** Lists *)
Lemma index_of_spec r l : r ∈ l → ∃ k, index_of r l = Some k ∧ l !! k = Some r.
Proof.
  induction l as [|x l IH]; [by intros ?%elem_of_nil|]. intros Hr. cbn [index_of].
  destruct (decide (x = r)) as [->|Hne]; [by exists O|]. apply elem_of_cons in Hr as [?|Hr]; [done|].
  destruct (IH Hr) as (k & -> & Hk). by exists (Datatypes.S k).
Qed.

Lemma max_from_spec b l : max_from b l ∈ b :: l ∧ ∀ x, x ∈ b :: l → ranks_below (max_from b l) x = false.
Proof.
  assert (Hirr : ∀ x, ranks_below x x = false) by (intros x; unfold ranks_below; lia).
  assert (Htr : ∀ x y z, ranks_below y x = false → ranks_below z y = false → ranks_below z x = false)
    by (intros x y z; unfold ranks_below; lia).
  revert b. induction l as [|x l IH]; intros b; cbn [max_from].
  { split; [by left|]. intros y ->%list_elem_of_singleton. apply Hirr. }
  destruct (IH (if ranks_below b x then x else b)) as [Hin Hmax]. split.
  - apply elem_of_cons in Hin as [->|Hin]; [destruct (ranks_below b x); [by right; left|by left]|by right; right].
  - intros y Hy. pose proof (Hmax (if ranks_below b x then x else b) ltac:(by left)) as H0.
    apply elem_of_cons in Hy as [->|[->|Hy]%elem_of_cons].
    + destruct (ranks_below b x) eqn:E; [|done]. eapply Htr; [|exact H0]. unfold ranks_below in *. lia.
    + destruct (ranks_below b x) eqn:E; [done|]. eapply Htr; [exact E|done].
    + apply Hmax. by right.
Qed.

Lemma sum_app (l l' : list Z) : foldr Z.add 0 (l ++ l') = foldr Z.add 0 l + foldr Z.add 0 l'.
Proof. induction l; cbn; lia. Qed.
Lemma sum_perm (l l' : list Z) : l ≡ₚ l' → foldr Z.add 0 l = foldr Z.add 0 l'.
Proof. induction 1; cbn; lia. Qed.

(** ** The invariant *)
Section Step.
Context {K E Q : Type} `{KVLaws K} `{EncoderLaws E set_order} `{QueueLaws Q}.
Context (c : sconf) (Hconf : conf_ok (kv_limit (K := K)) c).
Notation st := (rsched K E Q).
Implicit Types (s : st) (p : pass) (r : req) (x : sreq).

Definition handed s : list Z := mjoin (deferred_frees (bk s)).*2.
Definition planned_reqs p : list req := scheduled_running_reqs p ++ scheduled_new_reqs p ++ scheduled_resumed_reqs p.
Definition granted p (rid : string) : Z := default 0 (dget rid (num_scheduled_tokens p)).

(** What holds of every request, whatever its state. *)
Record req_fine r x : Prop := {
  rf_key : sr_key (fx x) = r;
  rf_id : req_id (sr_request (fx x)) = request_id r;
  rf_tokens : 0 < sr_num_tokens x ≤ sc_max_model_len c;
  rf_prompt : 0 ≤ num_prompt_tokens (sr_request (fx x));
  rf_features : enc_req (request_id r) (sr_features (fx x));
  rf_placed : ∀ f, f ∈ sr_features (fx x) → offset (mm_position f) < sr_num_tokens x;
}.

(** A running request. *)
Record run_ok (k : K) p r x : Prop := {
  ro_status : r_status (mv x) = RUNNING;
  ro_computed : 0 ≤ r_computed (mv x);
  ro_max : r_computed (mv x) + granted p (request_id r) ≤ sc_max_model_len c;
  ro_ready : kv_ready k (request_id r) (r_computed (mv x) + granted p (request_id r));
  ro_open : dget (request_id r) (num_scheduled_tokens p) = None →
    r_computed (mv x) ≤ num_tokens_with_spec x + r_placeholders (mv x) ∧
    r_computed (mv x) + sc_sampled_per_step c ≤ sc_max_model_len c;
  (** the draft tokens of the plan are the tokens beyond the request's own *)
  ro_spec : ∀ n, dget (request_id r) (num_scheduled_tokens p) = Some n →
    zlen (default [] (dget (request_id r) (scheduled_spec_decode_tokens p)))
      = Z.max 0 (r_computed (mv x) + n - sr_num_tokens x - r_placeholders (mv x));
}.

(** A waiting request. *)
Record wait_ok (k : K) r x : Prop := {
  wo_status : r_status (mv x) ≠ RUNNING;
  wo_unfinished : is_finished (r_status (mv x)) = false;
  wo_placeholders : r_placeholders (mv x) = 0;
  wo_computed : 0 ≤ r_computed (mv x);
  wo_idle : r_computed (mv x) = 0 → kv_idle k (request_id r);
  wo_ready : 0 < r_computed (mv x) → kv_ready k (request_id r) (r_computed (mv x));
  wo_stream : r_status (mv x) = WAITING_FOR_STREAMING_REQ → sr_streaming (fx x) = 0;
  wo_todo : r_status (mv x) ≠ WAITING_FOR_STREAMING_REQ → r_computed (mv x) < sr_num_tokens x;
}.

(** Nothing of the request is in flight. *)
Record calm x : Prop := {
  ca_placeholders : r_placeholders (mv x) = 0;
  ca_in_flight : r_in_flight (mv x) = 0;
  ca_stale : r_stale (mv x) = 0;
  ca_computed : r_computed (mv x) ≤ sr_num_tokens x;
  ca_status : r_status (mv x) ≠ WAITING_FOR_REMOTE_KVS ∧ r_status (mv x) ≠ WAITING_FOR_STREAMING_REQ;
}.

Definition features_of (m : gmap string sreq) (rid : string) : option (list feature) :=
  (λ x, sr_features (fx x)) <$> m !! rid.

(** The plan. *)
Record pass_ok (T I : Z) (m : gmap string sreq) p : Prop := {
  po_dict : dict_ok (num_scheduled_tokens p);
  po_keys : dkeys (num_scheduled_tokens p) ≡ₚ request_id <$> planned_reqs p;
  po_blocks : dkeys (req_to_new_blocks p) = dkeys (num_scheduled_tokens p);
  po_pos : ∀ rid n, dget rid (num_scheduled_tokens p) = Some n → 0 < n;
  po_tokens : token_budget p + sum_scheduled p = T ∧ 0 ≤ token_budget p;
  po_inputs : input_budget p + sum_scheduled p + sc_draft_slots c * zlen (num_scheduled_tokens p) = I ∧
    0 ≤ input_budget p;
  po_enc : 0 ≤ encoder_compute_budget p;
  po_spec : dict_ok (scheduled_spec_decode_tokens p) ∧
    ∀ rid, dget rid (num_scheduled_tokens p) = None → dget rid (scheduled_spec_decode_tokens p) = None;
  po_valid : ∀ rid l fs, (rid, l) ∈ scheduled_encoder_inputs p → features_of m rid = Some fs →
    ∀ i, i ∈ l → 0 ≤ i < zlen fs;
}.

Context (all : list req) (Hall : NoDup (request_id <$> all)).
Context (T I : Z).
(** What no step changes. *)
Context (F : req → option fixed_part).
(** The requests that run at the start of the step, and their computed tokens. *)
Context (R0 : list req) (C : req → Z).
(** If it holds, every output has been processed when the step starts. *)
Context (quiet : Prop).

(** [extra] are the requests set aside in the step. *)
Record inv (extra : list req) s p : Prop := {
  iv_queues : queue_ok (waiting (rqs s)) ∧ queue_ok (skipped_waiting (rqs s));
  iv_perm : running s ++ service (waiting (rqs s)) ++ service (skipped_waiting (rqs s)) ++ extra ≡ₚ all;
  iv_known : ∀ r, r ∈ all → ∃ x, requests s !! request_id r = Some x ∧ req_fine r x;
  iv_fixed : ∀ r, r ∈ all → fx <$> requests s !! request_id r = F r;
  iv_base : ∀ r x, r ∈ running s → r ∈ R0 → requests s !! request_id r = Some x → r_computed (mv x) = C r;
  iv_run : ∀ r x, r ∈ running s → requests s !! request_id r = Some x → run_ok (kvm s) p r x;
  iv_wait : ∀ r x, r ∈ all → r ∉ running s → requests s !! request_id r = Some x → wait_ok (kvm s) r x;
  iv_kv : kv_good (handed s) (kvm s);
  iv_enc : enc_good (encm s);
  iv_pass : pass_ok T I (requests s) p;
  iv_sub : ∀ r, r ∈ planned_reqs p → r ∈ running s;
  iv_max : zlen (running s) ≤ sc_max_running c;
  iv_stream : 0 ≤ num_waiting_for_streaming_input (bk s);
  iv_dom : ∀ rid, is_Some (requests s !! rid) → rid ∈ request_id <$> all;
  iv_others : ∀ rid, rid ∉ request_id <$> all → kv_idle (kvm s) rid;
  iv_calm : quiet → ∀ r x, r ∈ all → requests s !! request_id r = Some x → calm x;
}.

Lemma all_inj r r' : r ∈ all → r' ∈ all → request_id r = request_id r' → r = r'.
Proof.
  intros Hr Hr' Heq. apply list_elem_of_lookup in Hr as [i Hi], Hr' as [j Hj].
  assert (i = j) as ->; [|congruence].
  eapply (NoDup_lookup (request_id <$> all) i j (request_id r) Hall);
    rewrite list_lookup_fmap, ?Hi, ?Hj; cbn; congruence.
Qed.

Lemma running_all extra s p r : inv extra s p → r ∈ running s → r ∈ all.
Proof. intros Hi Hr. rewrite <-(iv_perm _ _ _ Hi). by apply elem_of_app; left. Qed.

Lemma running_nodup extra s p : inv extra s p → NoDup (running s).
Proof.
  intros Hi. apply (NoDup_fmap_1 request_id). pose proof Hall as Hn. rewrite <-(iv_perm _ _ _ Hi), fmap_app in Hn.
  by apply NoDup_app in Hn as [? _].
Qed.

Lemma running_known extra s p r : inv extra s p → r ∈ running s →
  ∃ x, requests s !! request_id r = Some x ∧ req_fine r x ∧ run_ok (kvm s) p r x.
Proof.
  intros Hi Hr. destruct (iv_known _ _ _ Hi r) as (x & Hx & Hf); [by eapply running_all|].
  exists x. split; [done|]. split; [done|]. by apply (iv_run _ _ _ Hi).
Qed.

Lemma the_run r s x : requests s !! request_id r = Some x → the r s = (Ok x, s).
Proof. intros Hx. unfold the. run_step. by rewrite Hx. Qed.

(** *** One victim *)

(** What preempting a request does not touch among the counters. *)
Definition same_mode (b b' : books) : Prop :=
  current_step b' = current_step b ∧ _pause_state b' = _pause_state b ∧ sched_step_seq b' = sched_step_seq b ∧
  processed_step_seq b' = processed_step_seq b ∧ prefill_capacity_bound b' = prefill_capacity_bound b ∧
  num_waiting_for_streaming_input b' = num_waiting_for_streaming_input b.

#[global] Instance same_mode_po : PreOrder same_mode.
Proof. split; [done|]. intros b1 b2 b3. unfold same_mode. intuition congruence. Qed.

Lemma free_request_blocks_run r x s :
  requests s !! request_id r = Some x → req_id (sr_request (fx x)) = request_id r → kv_good (handed s) (kvm s) →
  ∃ k' d', _free_request_blocks c r s = (Ok tt, set_bk (with_deferred (λ _, d') (bk s)) (set_kvm k' s)) ∧
    kv_good (mjoin d'.*2) k' ∧ kv_preserves (.≠ request_id r) (kvm s) k' ∧ kv_idle k' (request_id r).
Proof.
  intros Hx Hid Hg. unfold _free_request_blocks. erewrite bind_ok by by apply the_run. run_step. rewrite Hid.
  assert (Hs : ∀ k, set_bk (with_deferred (λ _, deferred_frees (bk s)) (bk s)) (set_kvm k s) = set_kvm k s)
    by (intros k; by destruct s as [? ? ? ? ? []]).
  destruct (_ || _).
  - destruct (law_free _ _ (request_id r) Hg) as (k' & Hrun & Hg' & Hk & Hi).
    exists k', (deferred_frees (bk s)). rewrite Hs. unfold on_kv. by rewrite (zoom_ok _ _ _ _ _ _ Hrun).
  - destruct (law_pop_for_free _ _ (request_id r) Hg) as (bs & k' & Hrun & Hg' & Hk & Hi). unfold on_kv. run_step.
    destruct (bool_decide_reflect (bs = [])) as [->|Hne]; cbn [negb].
    + exists k', (deferred_frees (bk s)). rewrite Hs. rewrite app_nil_r in Hg'. done.
    + exists k', (deferred_frees (bk s) ++ [(sched_step_seq (bk s), bs)]). split; [done|].
      rewrite fmap_app, join_app. cbn. by rewrite app_nil_r.
Qed.

Record victim_gone r s s' : Prop := {
  ev_running : running s' = running s;
  ev_skipped : skipped_waiting (rqs s') = skipped_waiting (rqs s);
  ev_waiting : queue_ok (waiting (rqs s')) ∧ service (waiting (rqs s')) = prepended r (service (waiting (rqs s)));
  ev_requests : ∃ drop, requests s' = alter (λ x, SR (fx x) (preempt drop (mv x))) (request_id r) (requests s);
  ev_good : kv_good (handed s') (kvm s');
  ev_keeps : kv_preserves (.≠ request_id r) (kvm s) (kvm s');
  ev_idle : kv_idle (kvm s') (request_id r);
  ev_enc : enc_good (encm s');
  ev_planned : ∀ v inputs external, enc_planned (encm s) v inputs external → enc_planned (encm s') v inputs external;
  ev_mode : same_mode (bk s) (bk s');
}.

Lemma preempt_run r x d s :
  requests s !! request_id r = Some x → req_fine r x → r_status (mv x) = RUNNING →
  kv_good (handed s) (kvm s) → enc_good (encm s) → queue_ok (waiting (rqs s)) →
  ∃ s', _preempt_request c set_order r d s = (Ok tt, s') ∧ victim_gone r s s'.
Proof.
  intros Hx Hf Hst Hg He Hq. pose proof (rf_id _ _ Hf) as Hid. unfold _preempt_request.
  erewrite bind_ok by by apply the_run.
  erewrite bind_ok by (apply ensure_true; by rewrite Hst).
  destruct (free_request_blocks_run r x s Hx Hid Hg) as (k' & d' & Hrun & Hg' & Hk & Hi).
  erewrite bind_ok by exact Hrun.
  destruct (law_enc_free (encm s) (enc_view x)) as (e' & Hfree & He' & Hp); [done|cbn; rewrite Hid; apply Hf|].
  unfold on_enc. erewrite bind_ok by (apply zoom_ok; exact Hfree).
  unfold on_bk at 1. run_step. unfold put at 1. run_step.
  destruct (law_prepend r (waiting (rqs s)) Hq) as (q' & Hpre & Hq' & Hs).
  unfold on_rqs, on_waiting. erewrite bind_ok by (apply zoom_ok, zoom_ok; exact Hpre).
  eexists. split; [reflexivity|]. split; try done. by exists d.
Qed.

(** *** The victim leaves the plan *)
Lemma planned_key extra s p r : inv extra s p → r ∈ all → r ∉ planned_reqs p →
  dget (request_id r) (num_scheduled_tokens p) = None.
Proof.
  intros Hi Hr Hn. apply dget_None. rewrite (po_keys _ _ _ _ (iv_pass _ _ _ Hi)).
  intros (r' & Heq & Hr')%list_elem_of_fmap. apply Hn.
  rewrite (all_inj r r') by (done || eapply running_all, iv_sub; done). done.
Qed.

Lemma sum_embeds_run v l :
  enc_req (EncoderCache.request_id v) (EncoderCache.mm_features v) →
  (∀ i, i ∈ l → 0 ≤ i < zlen (EncoderCache.mm_features v)) → ∃ n, sum_embeds v l = Ok n ∧ 0 ≤ n.
Proof.
  intros Hv. induction l as [|i l IH]; intros Hl; cbn [sum_embeds]; [by exists 0|].
  destruct (law_embeds v i Hv) as (n & -> & Hn); [apply Hl; by left|].
  destruct IH as (k & -> & Hk); [intros j Hj; apply Hl; by right|]. exists (n + k). split; [done|lia].
Qed.

Record unscheduled (m : gmap string sreq) r p p' : Prop := {
  un_pass : pass_ok T I m p';
  un_planned : ∀ r', r' ∈ planned_reqs p' ↔ r' ∈ planned_reqs p ∧ r' ≠ r;
  un_rest : ∀ rid, rid ≠ request_id r → dget rid (num_scheduled_tokens p') = dget rid (num_scheduled_tokens p);
  un_spec : ∀ rid, rid ≠ request_id r →
    dget rid (scheduled_spec_decode_tokens p') = dget rid (scheduled_spec_decode_tokens p);
  un_gone : dget (request_id r) (num_scheduled_tokens p') = None;
  un_preempted : preempted_reqs p' = preempted_reqs p;
  un_admitted : scheduled_new_reqs p' = scheduled_new_reqs p ∧ scheduled_resumed_reqs p' = scheduled_resumed_reqs p;
  un_running : scheduled_running_reqs p' = filter (.≠ r) (scheduled_running_reqs p);
  un_grows : token_budget p ≤ token_budget p' ∧ input_budget p ≤ input_budget p';
}.

Lemma planned_nodup m p : pass_ok T I m p → NoDup (planned_reqs p).
Proof.
  intros Hp. apply (NoDup_fmap_1 request_id). rewrite <-(po_keys _ _ _ _ Hp). apply (po_dict _ _ _ _ Hp).
Qed.

Lemma dkeys_dpop {V W} k (d : list (string * V)) (d' : list (string * W)) :
  dkeys d = dkeys d' → dkeys (dpop k d) = dkeys (dpop k d').
Proof.
  revert d'. induction d as [|[k1 v1] d IH]; intros [|[k2 v2] d']; cbn; try done. intros [= -> Hd].
  case_decide; [done|]. cbn. f_equal. by apply IH.
Qed.

Lemma drop_planned r p : r ∈ scheduled_running_reqs p → NoDup (planned_reqs p) → ∀ a b c0,
  planned_reqs p ≡ₚ r :: planned_reqs (drop_scheduled r a b c0 p) ∧ r ∉ planned_reqs (drop_scheduled r a b c0 p).
Proof.
  intros Hin Hnd a b c0. unfold planned_reqs in *. cbn.
  apply list_elem_of_split in Hin as (l1 & l2 & Hl). rewrite Hl in *. rewrite <-app_assoc in Hnd. cbn in Hnd.
  pose proof Hnd as Hnd'. rewrite <-Permutation_middle in Hnd'. apply NoDup_cons in Hnd' as [Hr Hnd'].
  assert (Hf : filter (.≠ r) (l1 ++ r :: l2) = l1 ++ l2).
  { rewrite filter_app, filter_cons_False by auto. rewrite !filter_id; [done| |]; intros y Hy ->; apply Hr; set_solver. }
  rewrite Hf. split; [|set_solver]. by rewrite <-Permutation_middle.
Qed.

Lemma drop_pass_ok m r a b p :
  pass_ok T I m p → r ∈ scheduled_running_reqs p → dget (request_id r) (num_scheduled_tokens p) = Some a → 0 ≤ b →
  unscheduled m r p (drop_scheduled r a b (sc_draft_slots c) p).
Proof.
  intros Hp Hin Ha Hb. destruct Hp. pose proof (dpop_Permutation _ _ _ Ha) as Hperm.
  destruct (drop_planned r p Hin) with (a := a) (b := b) (c0 := sc_draft_slots c) as [Hpl Hgone]; [by eapply planned_nodup|].
  assert (Hsum : sum_scheduled p = a + sum_scheduled (drop_scheduled r a b (sc_draft_slots c) p)).
  { unfold sum_scheduled. cbn. rewrite (sum_perm _ _ (fmap_Permutation snd _ _ Hperm)). done. }
  assert (Hlen : zlen (num_scheduled_tokens p) = 1 + zlen (dpop (request_id r) (num_scheduled_tokens p))).
  { unfold zlen. rewrite (Permutation_length Hperm). cbn. lia. }
  pose proof (po_pos0 _ _ Ha) as Hpos. pose proof (cf_draft _ _ Hconf) as Hdraft. split; try done.
  - split; unfold sum_scheduled in *; cbn -[planned_reqs zlen foldr fmap] in *.
    + by apply dict_ok_dpop.
    + pose proof po_keys0 as Hk. rewrite Hpl in Hk. unfold dkeys in Hk.
      rewrite (fmap_Permutation fst _ _ Hperm) in Hk. by apply Permutation.Permutation_cons_inv in Hk.
    + by apply dkeys_dpop.
    + intros rid n. rewrite dget_dpop by done. case_decide; [done|]. apply po_pos0.
    + lia.
    + nia.
    + lia.
    + destruct po_spec0 as [Hd Hs]. split; [by apply dict_ok_dpop|]. intros rid. rewrite !dget_dpop by done.
      case_decide; [done|]. apply Hs.
    + intros rid l fs Hl. apply po_valid0. by eapply elem_of_sublist, dpop_sublist.
  - intros r'. rewrite Hpl. rewrite elem_of_cons. split.
    + intros Hr'. split; [by right|]. by intros ->.
    + by intros [[->|?] ?].
  - intros rid Hne. cbn. by apply dget_dpop_ne.
  - intros rid Hne. cbn. by apply dget_dpop_ne.
  - cbn. by apply dget_dpop_eq.
  - cbn. lia.
Qed.

(** The cursor of the first pass: what is planned precedes it. *)
Record cursor (i : nat) s p : Prop := {
  cu_admitted : scheduled_new_reqs p = [] ∧ scheduled_resumed_reqs p = [];
  cu_seen : ∀ r, r ∈ scheduled_running_reqs p → r ∈ take i (running s);
}.

Lemma cursor_planned i s p r : cursor i s p → r ∈ planned_reqs p ↔ r ∈ scheduled_running_reqs p.
Proof. intros [[E1 E2] _]. unfold planned_reqs. rewrite E1, E2. by rewrite !app_nil_r. Qed.

Lemma unscheduled_absent extra s p r i : inv extra s p → cursor i s p → r ∈ all → r ∉ scheduled_running_reqs p →
  unscheduled (requests s) r p p.
Proof.
  intros Hi Hcu Hr Hn. assert (r ∉ planned_reqs p) as Hn' by by rewrite cursor_planned.
  split; try done.
  - apply (iv_pass _ _ _ Hi).
  - intros r'. split; [|by intros []]. intros Hr'. split; [done|]. by intros ->.
  - by eapply planned_key.
  - symmetry. apply filter_id. by intros y Hy ->.
Qed.

Lemma unschedule_run extra s s1 p r x i :
  inv extra s p → cursor i s p → r ∈ all → requests s1 = requests s →
  requests s !! request_id r = Some x → req_fine r x →
  ∃ p', unschedule c r p s1 = (Ok p', s1) ∧ unscheduled (requests s) r p p'.
Proof.
  intros Hi Hcu Hr Hs1 Hx Hf. unfold unschedule. case_bool_decide as Hin.
  2: { exists p. split; [done|]. by eapply unscheduled_absent. }
  pose proof (iv_pass _ _ _ Hi) as Hp.
  assert (Hkey : request_id r ∈ dkeys (num_scheduled_tokens p)).
  { rewrite (po_keys _ _ _ _ Hp). apply list_elem_of_fmap_2. by eapply cursor_planned. }
  pose proof Hkey as Hkey2. rewrite <-(po_blocks _ _ _ _ Hp) in Hkey2.
  apply dget_is_Some in Hkey as [a Ha], Hkey2 as [bs Hbs]. unfold dpop_key. rewrite Ha, Hbs.
  unfold lift, bind. cbn [fst snd]. rewrite (the_run r s1 x) by by rewrite Hs1.
  destruct (sum_embeds_run (enc_view x) (default [] (dget (request_id r) (scheduled_encoder_inputs p)))) as (b & -> & Hb).
  - cbn. rewrite (rf_id _ _ Hf). apply Hf.
  - cbn. destruct (dget (request_id r) (scheduled_encoder_inputs p)) as [l|] eqn:El; cbn; [|by intros j ?%elem_of_nil].
    intros j Hj. eapply (po_valid _ _ _ _ Hp); [by apply dget_elem_of_1| |done]. unfold features_of. by rewrite Hx.
  - cbn. eexists. split; [done|]. by apply drop_pass_ok.
Qed.

(** Which request is the victim. *)
Definition victim_rule (l : list req) (k : nat) r : Prop :=
  l !! k = Some r ∧
  if sc_priority c then ∀ r', r' ∈ l → ranks_below r r' = false else k = (length l - 1)%nat.

Definition cursor_after (k i : nat) : nat := if (k <? i)%nat then (i - 1)%nat else i.

Lemma take_delete_cursor {A} (l : list A) k i a v :
  NoDup l → l !! k = Some v → a ∈ take i l → a ≠ v → a ∈ take (cursor_after k i) (delete k l).
Proof.
  intros Hnd Hk Ha Hne. unfold cursor_after. apply list_elem_of_lookup in Ha as [j Hj].
  apply lookup_take_Some in Hj as [Hj Hji]. assert (j ≠ k) by congruence.
  apply list_elem_of_lookup. destruct (Nat.ltb_spec k i).
  - destruct (decide (j < k)%nat).
    + exists j. rewrite lookup_take_lt by lia. by rewrite list_lookup_delete_lt.
    + exists (j - 1)%nat. rewrite lookup_take_lt by lia. rewrite list_lookup_delete_ge by lia. rewrite <-Hj. f_equal. lia.
  - exists j. rewrite lookup_take_lt by lia. by rewrite list_lookup_delete_lt by lia.
Qed.

Lemma delete_at_cursor {A} (l : list A) k i a v :
  l !! i = Some a → l !! k = Some v → a ≠ v → delete k l !! cursor_after k i = Some a.
Proof.
  intros Hi Hk Hne. assert (i ≠ k) by congruence. unfold cursor_after. destruct (Nat.ltb_spec k i).
  - rewrite list_lookup_delete_ge by lia. rewrite <-Hi. f_equal. lia.
  - by rewrite list_lookup_delete_lt by lia.
Qed.

Lemma take_victim_run extra s p i r :
  inv extra s p → cursor i s p → running s !! i = Some r →
  ∃ k v p', take_victim c i p s = (Ok (v, cursor_after k i, p'), set_running (delete k (running s)) s) ∧
    victim_rule (running s) k v ∧ unscheduled (requests s) v p p'.
Proof.
  intros Hi Hcu Hr. unfold take_victim. run_step. unfold victim_rule. destruct (sc_priority c).
  - destruct (running s) as [|y l] eqn:El; [done|].
    destruct (max_from_spec y l) as [Hin Hmax]. destruct (index_of_spec _ _ Hin) as (k & -> & Hk).
    assert (Hv : max_from y l ∈ running s) by by rewrite El.
    destruct (running_known _ _ _ _ Hi Hv) as (x & Hx & Hf & _).
    run_step. destruct (unschedule_run extra s (set_running (delete k (y :: l)) s) p (max_from y l) x i) as (p' & Hrun & Hu);
      try done; [by eapply running_all|].
    erewrite bind_ok by exact Hrun. exists k, (max_from y l), p'. done.
  - destruct (last (running s)) as [v|] eqn:Elast.
    2: { apply last_None in Elast. by rewrite Elast in Hr. }
    rewrite last_lookup in Elast. rewrite <-Nat.sub_1_r in Elast.
    pose proof (lookup_lt_Some _ _ _ Hr) as Hlt.
    exists (length (running s) - 1)%nat, v, p. split; [|split; [done|]].
    + run_step. unfold cursor_after. destruct (Nat.ltb_spec (length (running s) - 1) i); [lia|]. unfold ret. do 2 f_equal.
      unfold set_running. f_equal. rewrite delete_take_drop, drop_ge, app_nil_r by lia. done.
    + eapply unscheduled_absent; [done|done|eapply running_all; [done|]; by eapply list_elem_of_lookup_2|].
      intros Hs. apply (cu_seen _ _ _ Hcu) in Hs. apply list_elem_of_lookup in Hs as [j [Hj Hji]%lookup_take_Some].
      assert (j = (length (running s) - 1)%nat); [|lia]. eapply NoDup_lookup; [by eapply running_nodup|done|done].
Qed.

(** *** The victim waits *)
Lemma req_fine_fx r x x' : fx x' = fx x → req_fine r x → req_fine r x'.
Proof. intros E1 []. split; unfold sr_num_tokens in *; by rewrite E1. Qed.

Lemma run_ok_keep (k k' : K) p p' r x :
  (∀ n, kv_ready k (request_id r) n → kv_ready k' (request_id r) n) →
  dget (request_id r) (num_scheduled_tokens p') = dget (request_id r) (num_scheduled_tokens p) →
  dget (request_id r) (scheduled_spec_decode_tokens p') = dget (request_id r) (scheduled_spec_decode_tokens p) →
  run_ok k p r x → run_ok k' p' r x.
Proof. intros Hk Hd Hs []. split; unfold granted in *; rewrite ?Hd, ?Hs; auto. Qed.

Lemma wait_ok_keep (k k' : K) (P : string → Prop) r x :
  kv_preserves P k k' → P (request_id r) → wait_ok k r x → wait_ok k' r x.
Proof. intros Hk HP []. destruct (Hk _ HP). split; auto. Qed.

Lemma pass_ok_features (m m' : gmap string sreq) p :
  (∀ rid, features_of m' rid = features_of m rid) → pass_ok T I m p → pass_ok T I m' p.
Proof. intros Hf []. split; auto. intros rid l fs. rewrite Hf. eauto. Qed.

Lemma features_of_alter (m : gmap string sreq) (f : moving_part → moving_part) rid rid' :
  features_of (alter (λ x, SR (fx x) (f (mv x))) rid m) rid' = features_of m rid'.
Proof. unfold features_of. destruct (decide (rid = rid')) as [->|]; simplify_map_eq; [|done]. by destruct (m !! rid'). Qed.

Lemma fixed_alter (m : gmap string sreq) (f : moving_part → moving_part) rid rid' :
  fx <$> alter (λ x, SR (fx x) (f (mv x))) rid m !! rid' = fx <$> m !! rid'.
Proof. destruct (decide (rid = rid')) as [->|]; simplify_map_eq; [|done]. by destruct (m !! rid'). Qed.

Lemma pass_ok_preempted m r p : pass_ok T I m p → pass_ok T I m (add_preempted r p).
Proof. by intros []. Qed.

Lemma fine_alter (m : gmap string sreq) (f : moving_part → moving_part) rid r x :
  m !! request_id r = Some x → req_fine r x →
  ∃ x', alter (λ x, SR (fx x) (f (mv x))) rid m !! request_id r = Some x' ∧ req_fine r x'.
Proof.
  intros Hx Hf. destruct (decide (rid = request_id r)) as [->|]; simplify_map_eq; [|eauto].
  eexists. split; [done|]. by apply (req_fine_fx r x).
Qed.

Lemma perm_shift (l l' w w' z : list req) v : l ≡ₚ v :: l' → w' ≡ₚ v :: w → l' ++ w' ++ z ≡ₚ l ++ w ++ z.
Proof. intros -> ->. cbn. by rewrite <-Permutation_middle. Qed.

Lemma perm_delete (l : list req) k v : NoDup l → l !! k = Some v → ∀ r', r' ∈ delete k l ↔ r' ∈ l ∧ r' ≠ v.
Proof.
  intros Hnd Hk r'. pose proof (delete_Permutation l k v Hk) as Hp. pose proof Hnd as Hnd'. rewrite Hp in Hnd'.
  apply NoDup_cons in Hnd' as [Hv _]. rewrite Hp at 2. rewrite elem_of_cons. split; [|tauto].
  intros Hr. split; [by right|]. by intros ->.
Qed.

Lemma evicted_inv extra s s' p p' i k v :
  inv extra s p → cursor i s p → running s !! k = Some v → unscheduled (requests s) v p p' →
  victim_gone v (set_running (delete k (running s)) s) s' →
  inv extra s' (add_preempted v p').
Proof.
  intros Hi Hcu Hk [] [].  cbn -[planned_reqs] in *.
  assert (Hv : v ∈ running s) by by eapply list_elem_of_lookup_2.
  pose proof (perm_delete _ _ _ (running_nodup _ _ _ Hi) Hk) as Hdel.
  pose proof (running_all _ _ _ _ Hi Hv) as Hva.
  assert (Hne : ∀ r', r' ∈ all → r' ≠ v → request_id r' ≠ request_id v) by (intros r' Hr' Hn Heq; by apply Hn, all_inj).
  destruct ev_requests0 as [d Hreqs]. destruct Hi. split.
  - split; [apply ev_waiting0|]. rewrite ev_skipped0. apply iv_queues0.
  - rewrite ev_running0, ev_skipped0, (proj2 ev_waiting0), <-iv_perm0.
    eapply perm_shift; [by apply delete_Permutation|apply law_adds_one].
  - intros r' Hr'. rewrite Hreqs. destruct (iv_known0 r' Hr') as (x & Hx & Hf). by eapply fine_alter.
  - intros r' Hr'. rewrite Hreqs, fixed_alter. by apply iv_fixed0.
  - intros r' x. rewrite ev_running0, Hdel, Hreqs. intros [Hr' Hn] Hr0.
    rewrite lookup_alter_ne; [by apply iv_base0|]. symmetry. apply Hne; [rewrite <-iv_perm0; set_solver|done].
  - intros r' x. rewrite ev_running0, Hdel, Hreqs. intros [Hr' Hn].
    assert (Hid : request_id r' ≠ request_id v) by (apply Hne; [rewrite <-iv_perm0; set_solver|done]).
    rewrite lookup_alter_ne by done. intros Hx. eapply run_ok_keep; [by apply ev_keeps0|by apply un_rest0|by apply un_spec0|by apply iv_run0].
  - intros r' x Hr'. rewrite ev_running0, Hdel, Hreqs. intros Hn. destruct (decide (r' = v)) as [->|Hn'].
    + destruct (iv_known0 v Hva) as (x0 & Hx0 & Hf0). rewrite lookup_alter_eq, Hx0. intros [= <-].
      split; cbn; try done; try lia. intros _. pose proof (rf_tokens _ _ Hf0). unfold sr_num_tokens in *. cbn. lia.
    + rewrite lookup_alter_ne by (symmetry; by apply Hne). intros Hx.
      eapply wait_ok_keep; [by apply ev_keeps0|by apply Hne|]. apply iv_wait0; [done|tauto|done].
  - done.
  - done.
  - apply pass_ok_preempted. rewrite Hreqs. eapply pass_ok_features; [|done]. intros rid. apply features_of_alter.
  - intros r'. change (planned_reqs (add_preempted v p')) with (planned_reqs p'). rewrite un_planned0, ev_running0, Hdel.
    intros [Hr' ?]. split; [by apply iv_sub0|done].
  - rewrite ev_running0. assert (length (delete k (running s)) ≤ length (running s))%nat; [|unfold zlen in *; lia].
    rewrite (Permutation_length (delete_Permutation _ _ _ Hk)). cbn. lia.
  - destruct ev_mode0 as (? & ? & ? & ? & ? & Hw). rewrite Hw. done.
  - intros rid. rewrite Hreqs. destruct (decide (rid = request_id v)) as [->|Hn]; [|rewrite lookup_alter_ne by done; by apply iv_dom0].
    intros _. by apply list_elem_of_fmap_2.
  - intros rid Hn. apply ev_keeps0; [|by apply iv_others0]. intros ->. apply Hn. by apply list_elem_of_fmap_2.
  - intros Hq r' x Hr'. rewrite Hreqs. destruct (decide (r' = v)) as [->|Hn'].
    + destruct (iv_known0 v Hva) as (x0 & Hx0 & Hf0). rewrite lookup_alter_eq, Hx0. intros [= <-].
      destruct (iv_calm0 Hq v x0 Hva Hx0). split; try done. cbn. pose proof (rf_tokens _ _ Hf0). unfold sr_num_tokens in *. cbn. lia.
    + rewrite lookup_alter_ne by (symmetry; by apply Hne). by apply iv_calm0.
Qed.

Lemma evict_victim_run extra s p i r d :
  inv extra s p → cursor i s p → running s !! i = Some r →
  ∃ k v p' s1 s', take_victim c i p s = (Ok (v, cursor_after k i, p'), s1) ∧
    _preempt_request c set_order v d s1 = (Ok tt, s') ∧
    victim_rule (running s) k v ∧ victim_gone v (set_running (delete k (running s)) s) s' ∧
    unscheduled (requests s) v p p' ∧
    inv extra s' (add_preempted v p') ∧ cursor (cursor_after k i) s' (add_preempted v p').
Proof.
  intros Hi Hcu Hr. destruct (take_victim_run _ _ _ _ _ Hi Hcu Hr) as (k & v & p' & Hrun & Hrule & Hu).
  pose proof (proj1 Hrule) as Hk. assert (Hv : v ∈ running s) by by eapply list_elem_of_lookup_2.
  destruct (running_known _ _ _ _ Hi Hv) as (x & Hx & Hf & Hro).
  destruct (preempt_run v x d (set_running (delete k (running s)) s)) as (s' & Hpre & Hev); cbn.
  - done.
  - done.
  - apply Hro.
  - apply (iv_kv _ _ _ Hi).
  - apply (iv_enc _ _ _ Hi).
  - apply (iv_queues _ _ _ Hi).
  - exists k, v, p', (set_running (delete k (running s)) s), s'. split; [done|]. split; [done|]. split; [done|].
    split; [done|]. split; [done|]. split; [by eapply evicted_inv|].
    split; [cbn; rewrite (proj1 (un_admitted _ _ _ _ Hu)), (proj2 (un_admitted _ _ _ _ Hu)); apply Hcu|].
    intros r'. cbn. rewrite (un_running _ _ _ _ Hu), (ev_running _ _ _ Hev). cbn.
    intros [Hne Hr']%list_elem_of_filter. apply take_delete_cursor with v; try done; [by eapply running_nodup|].
    by apply Hcu.
Qed.

(** *** Allocating with preemption *)

(** The victims [vs] of a part of the first pass. *)
Record evictions (vs : list req) s0 p0 s p : Prop := {
  es_preempted : preempted_reqs p = preempted_reqs p0 ++ vs;
  es_waiting : service (waiting (rqs s)) = foldl (λ l r, prepended r l) (service (waiting (rqs s0))) vs;
  es_skipped : skipped_waiting (rqs s) = skipped_waiting (rqs s0);
  es_running : running s0 ≡ₚ running s ++ vs;
  es_order : running s `sublist_of` running s0;
  es_rule : if sc_priority c then ∀ v r, v ∈ vs → r ∈ running s → ranks_below v r = false
            else running s0 = running s ++ reverse vs;
  es_mode : same_mode (bk s0) (bk s);
}.

Lemma evictions_nil s p p' s' :
  preempted_reqs p' = preempted_reqs p → rqs s' = rqs s → running s' = running s → same_mode (bk s) (bk s') →
  evictions [] s p s' p'.
Proof.
  intros E1 E2 E3 E4. split; rewrite ?E1, ?E2, ?E3, ?app_nil_r; try done.
  destruct (sc_priority c); [by intros ? ? ?%elem_of_nil|done].
Qed.

Lemma evictions_trans vs vs' s0 p0 s1 p1 s2 p2 :
  evictions vs s0 p0 s1 p1 → evictions vs' s1 p1 s2 p2 → evictions (vs ++ vs') s0 p0 s2 p2.
Proof.
  intros [] []. split.
  - by rewrite es_preempted1, es_preempted0, app_assoc.
  - by rewrite es_waiting1, es_waiting0, foldl_app.
  - congruence.
  - rewrite es_running0, es_running1. by rewrite <-app_assoc, (Permutation_app_comm vs vs').
  - by trans (running s1).
  - destruct (sc_priority c).
    + intros v r [Hv|Hv]%elem_of_app Hr; [|by apply es_rule1]. apply es_rule0; [done|]. by eapply elem_of_sublist.
    + by rewrite es_rule0, es_rule1, reverse_app, app_assoc.
  - by trans (bk s1).
Qed.

Lemma evictions_one s p s' p' k v :
  victim_rule (running s) k v → victim_gone v (set_running (delete k (running s)) s) s' → preempted_reqs p' = preempted_reqs p →
  evictions [v] s p s' (add_preempted v p').
Proof.
  intros [Hk Hrule] [] Hp. cbn in *. split; cbn; rewrite ?ev_running0; try done.
  - by rewrite Hp.
  - apply ev_waiting0.
  - rewrite (delete_Permutation _ _ _ Hk) at 1. by rewrite Permutation_app_comm.
  - apply sublist_delete.
  - destruct (sc_priority c).
    + intros ? r ->%list_elem_of_singleton Hr. apply Hrule. by eapply elem_of_sublist, sublist_delete.
    + subst k. cbn. rewrite delete_take_drop. pose proof (take_drop_middle _ _ _ Hk) as Hm.
      pose proof (lookup_lt_Some _ _ _ Hk). rewrite drop_ge in Hm |- * by lia. by rewrite app_nil_r.
Qed.

Lemma inv_set_kvm extra s p k' r x :
  inv extra s p → r ∈ running s → requests s !! request_id r = Some x →
  kv_good (handed s) k' → kv_preserves (.≠ request_id r) (kvm s) k' →
  kv_ready k' (request_id r) (r_computed (mv x) + granted p (request_id r)) →
  inv extra (set_kvm k' s) p.
Proof.
  intros Hi Hr Hx Hg Hk Hrd. pose proof (running_all _ _ _ _ Hi Hr) as Hra. pose proof Hi as []. split; try done; cbn.
  - intros r' x' Hr' Hx'. destruct (decide (r' = r)) as [->|Hne].
    + assert (x' = x) as -> by congruence. destruct (iv_run0 r x); [done..|]. by split.
    + eapply run_ok_keep; [|done|done|by apply iv_run0]. apply Hk. intros Heq. apply Hne.
      apply all_inj; [by eapply running_all|done|done].
  - intros r' x' Hr' Hn Hx'. eapply wait_ok_keep; [done| |by apply iv_wait0]. intros Heq. apply Hn.
    by rewrite (all_inj r' r).
  - intros rid Hn. apply Hk; [|by apply iv_others0]. intros ->. apply Hn. by apply list_elem_of_fmap_2.
Qed.

(** The request got its blocks after the victims were gone. *)
Lemma allocate_loop_run fuel extra s p i r x n :
  (length (running s) ≤ fuel)%nat → inv extra s p → cursor i s p → running s !! i = Some r →
  r ∉ planned_reqs p → requests s !! request_id r = Some x → 0 < n → r_computed (mv x) + n ≤ sc_max_model_len c →
  ∃ vs blocks i' p' s1 k', allocate_loop c set_order fuel r n i p s = (Ok (blocks, i', p'), set_kvm k' s1) ∧
    evictions vs s p s1 p' ∧ inv extra s1 p' ∧ cursor i' s1 p' ∧
    (∀ v ins ext, enc_planned (encm s) v ins ext → enc_planned (encm s1) v ins ext) ∧
    token_budget p ≤ token_budget p' ∧ input_budget p ≤ input_budget p' ∧
    (length (running s1) - i' ≤ length (running s) - i)%nat ∧
    match blocks with
    | None => k' = kvm s1
    | Some _ => running s1 !! i' = Some r ∧ r ∉ planned_reqs p' ∧ requests s1 !! request_id r = Some x ∧
        kv_good (handed s1) k' ∧ kv_preserves (.≠ request_id r) (kvm s1) k' ∧
        kv_ready k' (request_id r) (r_computed (mv x) + n)
    end.
Proof.
  revert s p i. induction fuel as [|fuel IH]; intros s p i Hfuel Hi Hcu Hr Hnp Hx Hn Hmax.
  { apply lookup_lt_Some in Hr. lia. }
  assert (Hrun : r ∈ running s) by by eapply list_elem_of_lookup_2.
  destruct (running_known _ _ _ _ Hi Hrun) as (x0 & Hx0 & Hf & Hro).
  assert (x0 = x) as -> by congruence. clear Hx0. pose proof (rf_id _ _ Hf) as Hid.
  assert (Hgr : granted p (request_id r) = 0).
  { unfold granted. by rewrite (planned_key extra s p r Hi (running_all _ _ _ _ Hi Hrun) Hnp). }
  pose proof (ro_ready _ _ _ _ Hro) as Hready. rewrite Hgr, Z.add_0_r in Hready.
  cbn [allocate_loop]. erewrite bind_ok by by apply the_run.
  destruct (law_allocate (handed s) (kvm s) (kv_view x) n 0 None (sc_lookahead c) false true) as (res & k' & Hal & Hg & Hk & Hres);
    cbn; rewrite ?Hid; try done; try lia.
  - apply (iv_kv _ _ _ Hi).
  - by right.
  - apply Hro.
  - apply Hconf.
  - pose proof (cf_limit _ _ Hconf). lia.
  - apply Hf.
  - cbn in Hk, Hres. rewrite Hid in *. unfold on_kv. erewrite bind_ok by (apply zoom_ok; exact Hal).
    destruct res as [bs|].
    { exists [], (Some bs), i, p, s, k'. split; [done|]. split; [by apply evictions_nil|]. rewrite Z.add_0_r in Hres.
      split_and!; try done; lia. }
    assert (Hi' : inv extra (set_kvm k' s) p).
    { eapply inv_set_kvm; try done. rewrite Hgr, Z.add_0_r. by apply Hres. }
    destruct (evict_victim_run extra (set_kvm k' s) p i r (sc_kv_delivery c) Hi') as
      (k & v & p' & s1 & s' & Htake & Hpre & Hrule & Hev & Hu & Hi2 & Hcu2); [by destruct Hcu|done|].
    erewrite bind_ok by exact Htake. cbn beta iota. erewrite bind_ok by exact Hpre.
    pose proof (evictions_one _ _ _ _ _ _ Hrule Hev (un_preempted _ _ _ _ Hu)) as Hone.
    assert (Hone' : evictions [v] s p s' (add_preempted v p')) by by destruct Hone.
    assert (Hlen : (length (running s') - cursor_after k i ≤ length (running s) - i)%nat ∧
      length (running s) = Datatypes.S (length (running s'))).
    { rewrite (ev_running _ _ _ Hev). pose proof (Permutation_length (delete_Permutation _ _ _ (proj1 Hrule))) as Hd.
      pose proof (lookup_lt_Some _ _ _ Hr). cbn in Hd |- *. unfold cursor_after. destruct (Nat.ltb_spec k i); lia. }
    case_decide as Hv.
    + subst v. exists [r], None, (cursor_after k i), (add_preempted r p'), s', (kvm s'). split; [by destruct s'|].
      split; [done|]. split; [done|]. split; [done|]. split; [apply Hev|]. cbn. pose proof (un_grows _ _ _ _ Hu). split; [lia|]. split; [lia|]. split; [lia|done].
    + destruct (IH s' (add_preempted v p') (cursor_after k i)) as (vs & blocks & i' & p2 & s2 & k2 & Hrun2 & Hes & Hi3 & Hcu3 & Hp3 & Ht & Hin & Hlen2 & Hb);
        try done.
      * lia.
      * rewrite (ev_running _ _ _ Hev). by apply delete_at_cursor with v; [|apply Hrule|].
      * change (planned_reqs (add_preempted v p')) with (planned_reqs p'). rewrite (un_planned _ _ _ _ Hu). tauto.
      * destruct (ev_requests _ _ _ Hev) as [d ->]. cbn. rewrite lookup_alter_ne; [done|].
        intros Heq. apply Hv. apply all_inj; [|exact (running_all _ _ _ _ Hi Hrun)|done].
        eapply (running_all _ _ _ _ Hi). by eapply list_elem_of_lookup_2, Hrule.
      * exists ([v] ++ vs), blocks, i', p2, s2, k2. split; [done|]. split; [by eapply evictions_trans|].
        split; [done|]. split; [done|]. split; [intros ? ? ? ?; apply Hp3; by apply Hev|].
        cbn in Ht, Hin. pose proof (un_grows _ _ _ _ Hu). split; [lia|]. split; [lia|]. split; [lia|done].
Qed.

(** *** A request enters the plan *)
Record plans r n k (inputs : list Z) p p' : Prop := {
  pl_tokens : token_budget p' = token_budget p - n ∧ n ≤ token_budget p;
  pl_inputs : input_budget p' = input_budget p - (n + sc_draft_slots c) ∧ n ≤ input_budget p - sc_draft_slots c;
  pl_encoder : 0 ≤ encoder_compute_budget p';
  pl_granted : num_scheduled_tokens p' = dset (request_id r) n (num_scheduled_tokens p);
  pl_blocks : ∃ bs, req_to_new_blocks p' = dset (request_id r) bs (req_to_new_blocks p);
  pl_enc_inputs : scheduled_encoder_inputs p' = scheduled_encoder_inputs p ∨
    scheduled_encoder_inputs p' = dset (request_id r) inputs (scheduled_encoder_inputs p);
  pl_spec : ∃ drafts, scheduled_spec_decode_tokens p' =
    match drafts with Some l => dset (request_id r) l (scheduled_spec_decode_tokens p) | None => scheduled_spec_decode_tokens p end ∧
    zlen (default [] drafts) = k;
  pl_planned : planned_reqs p' ≡ₚ r :: planned_reqs p;
  pl_pos : 0 < n;
}.

Lemma elem_of_dset {V} k k' (v v' : V) (d : list (string * V)) : (k', v') ∈ dset k v d → (k', v') = (k, v) ∨ (k', v') ∈ d.
Proof.
  induction d as [|[k1 v1] d IH]; cbn; [rewrite list_elem_of_singleton; tauto|].
  case_decide; rewrite !elem_of_cons; naive_solver.
Qed.

Lemma plans_pass_ok m m' r n k inputs p p' :
  pass_ok T I m p → plans r n k inputs p p' → dget (request_id r) (num_scheduled_tokens p) = None →
  (∀ rid, features_of m' rid = features_of m rid) →
  (∀ fs i, features_of m (request_id r) = Some fs → i ∈ inputs → 0 ≤ i < zlen fs) →
  pass_ok T I m' p'.
Proof.
  intros Hp Hq Hnone Hm Hv. apply (pass_ok_features m m' p' Hm). destruct Hp, Hq.
  destruct pl_tokens0 as [Ht ?], pl_inputs0 as [Hin ?], pl_blocks0 as [bs Hbs].
  pose proof (cf_draft _ _ Hconf) as Hdraft.
  assert (Hsum : sum_scheduled p' = sum_scheduled p + n).
  { unfold sum_scheduled. rewrite pl_granted0, dset_absent by done. rewrite fmap_app, sum_app. cbn. lia. }
  assert (Hlen : zlen (num_scheduled_tokens p') = zlen (num_scheduled_tokens p) + 1).
  { rewrite pl_granted0, dset_absent by done. unfold zlen. rewrite length_app. cbn. lia. }
  split.
  - rewrite pl_granted0. by apply dict_ok_dset.
  - rewrite pl_planned0, pl_granted0, dset_absent by done. unfold dkeys in *. rewrite fmap_app, po_keys0. cbn.
    by rewrite Permutation_app_comm.
  - rewrite Hbs, pl_granted0, !dset_absent; [|done|].
    + unfold dkeys in *. by rewrite !fmap_app, po_blocks0.
    + apply dget_None. rewrite po_blocks0. by apply dget_None.
  - intros rid j. rewrite pl_granted0, dget_dset. case_decide; [by intros [= <-]|apply po_pos0].
  - lia.
  - nia.
  - done.
  - destruct po_spec0 as [Hd Hs], pl_spec0 as (drafts & Heq & _). rewrite Heq. split.
    + destruct drafts; [by apply dict_ok_dset|done].
    + intros rid. rewrite pl_granted0, dget_dset. case_decide; [done|]. intros Hrid.
      destruct drafts; [rewrite dget_dset_ne by done|]; by apply Hs.
  - intros rid l fs Hl. destruct pl_enc_inputs0 as [Heq|Heq]; rewrite Heq in Hl; [by apply po_valid0|].
    apply elem_of_dset in Hl as [[= -> ->]|Hl]; [|by apply po_valid0]. intros Hfs i. by apply Hv.
Qed.

(** The request got its tokens and its blocks.  It runs already, or it comes from a
    queue. *)
Lemma plans_inv extra s s' p p' r x x' n k inputs :
  inv extra s p → r ∈ all → r ∉ planned_reqs p → requests s !! request_id r = Some x → plans r n k inputs p p' →
  k = Z.max 0 (r_computed (mv x') + n - sr_num_tokens x - r_placeholders (mv x')) → (calm x → calm x') →
  (∀ i, i ∈ inputs → 0 ≤ i < zlen (sr_features (fx x))) →
  queue_ok (waiting (rqs s')) ∧ queue_ok (skipped_waiting (rqs s')) →
  running s' ++ service (waiting (rqs s')) ++ service (skipped_waiting (rqs s')) ++ extra ≡ₚ all →
  zlen (running s') ≤ sc_max_running c →
  (∀ r', r' ∈ running s' ↔ r' ∈ running s ∨ r' = r) →
  handed s' = handed s → num_waiting_for_streaming_input (bk s') = num_waiting_for_streaming_input (bk s) →
  enc_good (encm s') →
  kv_good (handed s) (kvm s') → kv_preserves (.≠ request_id r) (kvm s) (kvm s') →
  kv_ready (kvm s') (request_id r) (r_computed (mv x') + n) →
  requests s' = <[request_id r := x']> (requests s) → fx x' = fx x → r_status (mv x') = RUNNING →
  0 ≤ r_computed (mv x') → r_computed (mv x') + n ≤ sc_max_model_len c → (r ∈ R0 → r_computed (mv x') = C r) →
  inv extra s' p'.
Proof.
  intros Hi Hra Hnp Hx Hpl Hkeq Hcalm Hv Hqs Hperm Hlen Hrun Hha Hbk Henc Hg Hk Hrd Hreqs Hfx Hst Hcomp Hmax HC.
  assert (Hne : ∀ r', r' ∈ all → r' ≠ r → request_id r' ≠ request_id r) by (intros r' Hr' Hn Heq; by apply Hn, all_inj).
  pose proof (planned_key _ _ _ _ Hi Hra Hnp) as Hnone.
  destruct (iv_known _ _ _ Hi r Hra) as (x0 & Hx0 & Hf). assert (x0 = x) as -> by congruence. clear Hx0.
  assert (Hgr : granted p' (request_id r) = n) by (unfold granted; by rewrite (pl_granted _ _ _ _ _ _ Hpl), dget_dset_eq).
  assert (Hdrafts : zlen (default [] (dget (request_id r) (scheduled_spec_decode_tokens p'))) = k).
  { destruct (pl_spec _ _ _ _ _ _ Hpl) as ([l|] & -> & <-); [by rewrite dget_dset_eq|].
    by rewrite (proj2 (po_spec _ _ _ _ (iv_pass _ _ _ Hi))). }
  assert (Hrun' : run_ok (kvm s') p' r x').
  { split; rewrite ?Hgr; try done; rewrite (pl_granted _ _ _ _ _ _ Hpl), dget_dset_eq; [done|].
    intros ? [= <-]. rewrite Hdrafts, Hkeq. unfold sr_num_tokens. by rewrite Hfx. }
  assert (Hother : ∀ r', r' ∈ all → r' ≠ r → requests s' !! request_id r' = requests s !! request_id r').
  { intros r' Hr' Hn. rewrite Hreqs, lookup_insert_ne; [done|]. symmetry. by apply Hne. }
  assert (Hme : requests s' !! request_id r = Some x') by (by rewrite Hreqs, lookup_insert_eq).
  pose proof Hi as []. split; rewrite ?Hha, ?Hbk; try done.
  - intros r' Hr'. destruct (decide (r' = r)) as [->|Hn]; [|rewrite Hother by done; by apply iv_known0].
    exists x'. split; [done|]. by apply (req_fine_fx r x).
  - intros r' Hr'. rewrite <-iv_fixed0 by done. destruct (decide (r' = r)) as [->|Hn]; [|by rewrite Hother].
    by rewrite Hme, Hx; cbn; rewrite Hfx.
  - intros r' y [Hr'| ->]%Hrun Hr0 Hy; [|rewrite Hme in Hy; injection Hy as <-; by apply HC].
    destruct (decide (r' = r)) as [->|Hn]; [rewrite Hme in Hy; injection Hy as <-; by apply HC|].
    rewrite Hother in Hy by (done || by eapply running_all). by apply (iv_base0 r' y).
  - intros r' y [Hr'| ->]%Hrun Hy.
    + destruct (decide (r' = r)) as [->|Hn].
      { rewrite Hme in Hy. by injection Hy as <-. }
      pose proof (running_all _ _ _ _ Hi Hr') as Hr'a. rewrite Hother in Hy by done.
      assert (request_id r ≠ request_id r') as Hid by (intros Heq; by apply (Hne r')).
      eapply run_ok_keep; [by apply Hk, Hne| | |by apply iv_run0].
      * by rewrite (pl_granted _ _ _ _ _ _ Hpl), dget_dset_ne.
      * destruct (pl_spec _ _ _ _ _ _ Hpl) as ([l|] & -> & _); [by rewrite dget_dset_ne|done].
    + rewrite Hme in Hy. by injection Hy as <-.
  - intros r' y Hr' Hn Hy. assert (Hn' : r' ≠ r) by (intros ->; apply Hn, Hrun; by right).
    rewrite Hother in Hy by done. eapply wait_ok_keep; [done|by apply Hne|apply iv_wait0; try done].
    intros Hr''. apply Hn, Hrun. by left.
  - eapply plans_pass_ok; try done.
    + intros rid. rewrite Hreqs. unfold features_of. destruct (decide (rid = request_id r)) as [->|Hn]; simplify_map_eq; [|done].
      by rewrite ?Hx, Hfx.
    + unfold features_of. rewrite Hx. intros fs i [= <-]. apply Hv.
  - intros r'. rewrite (pl_planned _ _ _ _ _ _ Hpl), elem_of_cons, Hrun. intros [->|Hr']; [by right|left; by apply iv_sub0].
  - intros rid. rewrite Hreqs, lookup_insert_is_Some. intros [<-|[_ ?]]; [by apply list_elem_of_fmap_2|by apply iv_dom0].
  - intros rid Hn. apply Hk; [|by apply iv_others0]. intros ->. apply Hn. by apply list_elem_of_fmap_2.
  - intros Hq r' y Hr' Hy. destruct (decide (r' = r)) as [->|Hn].
    + rewrite Hme in Hy. injection Hy as <-. by apply Hcalm, (iv_calm0 Hq r).
    + rewrite Hother in Hy by done. by apply (iv_calm0 Hq r').
Qed.

Lemma inv_set_encm extra s p e : inv extra s p → enc_good e → inv extra (set_encm e s) p.
Proof. by intros [] ?. Qed.

Lemma plan_encoder_run s p r x computed n :
  enc_good (encm s) → req_fine r x → 0 ≤ n → 0 ≤ encoder_compute_budget p →
  ∃ inputs n' budget external e', plan_encoder c x computed n p s = (Ok (inputs, n', budget, external), set_encm e' s) ∧
    enc_good e' ∧ 0 ≤ n' ≤ n ∧ 0 ≤ budget ∧
    ((inputs = [] ∧ external = []) ∨ enc_planned e' (enc_view x) inputs external) ∧
    (n' = n ∨ n' = 0 ∨ computed + n' < sr_num_tokens x) ∧
    ∀ i, i ∈ inputs → 0 ≤ i < zlen (sr_features (fx x)).
Proof.
  intros He Hf Hn Hb. unfold plan_encoder. case_bool_decide.
  { exists [], n, (encoder_compute_budget p), [], (encm s). split; [by destruct s|]. split_and!; try done; [by left|by left|].
    by intros i ?%elem_of_nil. }
  destruct (law_plan (encm s) (enc_view x) (sc_no_mm_chunks c) computed n (encoder_compute_budget p) (sc_prefill_lookahead c))
    as (ins & n' & b' & ext & e' & Hrun & He' & Hn' & Hb' & Hpl & Hcut & Hv); try done.
  - cbn. rewrite (rf_id _ _ Hf). apply Hf.
  - apply Hconf.
  - exists ins, n', b', ext, e'. split; [unfold on_enc; by apply zoom_ok|]. split_and!; try done; try lia; [by right|].
    destruct Hcut as [?|[?|(f & Hfin & Hoff)]]; [by left|by right; left|]. right; right.
    pose proof (rf_placed _ _ Hf f Hfin). lia.
Qed.

Lemma alloc_inputs_run s x inputs external :
  enc_good (encm s) → (inputs = [] ∧ external = []) ∨ enc_planned (encm s) (enc_view x) inputs external →
  ∃ e', (when negb (bool_decide (inputs = [])) || negb (bool_decide (external = []))
         do on_enc (allocate_inputs (enc_view x) inputs external)) s = (Ok tt, set_encm e' s) ∧ enc_good e'.
Proof.
  intros He [[-> ->]|Hp]; [exists (encm s); split; [by destruct s|done]|].
  destruct (_ || _); [|exists (encm s); split; [by destruct s|done]].
  destruct (law_alloc_inputs _ _ _ _ He Hp) as (e' & Hrun & He'). exists e'. split; [|done]. unfold on_enc. by apply zoom_ok.
Qed.

(** *** The first pass *)
Lemma reserve_bounds x computed n : 0 ≤ n → 0 ≤ _reserve_prefill_lookahead c x computed n ≤ n.
Proof. intros Hn. unfold _reserve_prefill_lookahead. destruct (_ && _) eqn:Ec; lia. Qed.

Lemma running_tokens_bounds k p r x :
  run_ok k p r x → dget (request_id r) (num_scheduled_tokens p) = None →
  0 < token_budget p → sc_draft_slots c < input_budget p →
  let n := running_tokens c p x in
  0 ≤ n ≤ token_budget p ∧ n ≤ input_budget p - sc_draft_slots c ∧
  r_computed (mv x) + n + sc_sampled_per_step c ≤ sc_max_model_len c ∧
  r_computed (mv x) + n ≤ num_tokens_with_spec x + r_placeholders (mv x).
Proof.
  intros Hr Hnone Ht Hi. destruct (ro_open _ _ _ _ Hr Hnone). unfold running_tokens, cap_long_prefill.
  destruct (_ && _) eqn:Ec; lia.
Qed.

Lemma put_run r x f s : requests s !! request_id r = Some x →
  put r f s = (Ok tt, set_requests (<[request_id r := SR (fx x) (f (mv x))]> (requests s)) s).
Proof.
  intros Hx. unfold put, modify. do 2 f_equal. apply map_eq. intros rid.
  destruct (decide (rid = request_id r)) as [->|]; simplify_map_eq; done.
Qed.

Lemma clear_spec_run r x s : requests s !! request_id r = Some x → ∃ x',
  (when negb (bool_decide (r_spec_token_ids (mv x) = [])) do put r clear_spec) s
    = (Ok tt, set_requests (<[request_id r := x']> (requests s)) s) ∧
  fx x' = fx x ∧ r_status (mv x') = r_status (mv x) ∧ r_computed (mv x') = r_computed (mv x) ∧
  r_placeholders (mv x') = r_placeholders (mv x) ∧ (calm x → calm x').
Proof.
  intros Hx. case_bool_decide as E1; cbn.
  - exists x. split; [|done]. unfold ret. do 2 f_equal. rewrite insert_id by done. by destruct s.
  - rewrite (put_run r x) by done. eexists. split; [done|]. split_and!; try done. by intros [].
Qed.

(** The drafts that fit are the tokens beyond the request's own. *)
Lemma spec_scheduled_len x n : r_computed (mv x) + n ≤ num_tokens_with_spec x + r_placeholders (mv x) →
  zlen (default [] (spec_scheduled x n)) = Z.max 0 (r_computed (mv x) + n - sr_num_tokens x - r_placeholders (mv x)).
Proof.
  unfold num_tokens_with_spec, spec_scheduled, py_take, zlen. intros Hn. case_bool_decide as He; cbn [orb].
  { rewrite He in Hn. cbn in *. lia. }
  destruct (Z.leb_spec (n + r_computed (mv x) - sr_num_tokens x - r_placeholders (mv x)) 0); cbn; [lia|].
  rewrite (proj2 (Z.ltb_ge _ 0)) by lia. rewrite length_take. lia.
Qed.

Lemma elem_of_take_le {A} (l : list A) i j a : a ∈ take i l → (i ≤ j)%nat → a ∈ take j l.
Proof.
  intros [k [Hk ?]%lookup_take_Some]%list_elem_of_lookup Hij. apply list_elem_of_lookup. exists k.
  by rewrite lookup_take_lt by lia.
Qed.

(** What follows a successful allocation. *)
Lemma enter_plan_run extra s p i r x k' n ins ext eb bs :
  inv extra s p → cursor i s p → running s !! i = Some r → r ∉ planned_reqs p → requests s !! request_id r = Some x →
  r_status (mv x) = RUNNING → 0 ≤ r_computed (mv x) → 0 < n ≤ token_budget p → n ≤ input_budget p - sc_draft_slots c →
  r_computed (mv x) + n ≤ sc_max_model_len c → r_computed (mv x) + n ≤ num_tokens_with_spec x + r_placeholders (mv x) →
  0 ≤ eb → (∀ j, j ∈ ins → 0 ≤ j < zlen (sr_features (fx x))) →
  (ins = [] ∧ ext = []) ∨ enc_planned (encm s) (enc_view x) ins ext →
  kv_good (handed s) k' → kv_preserves (.≠ request_id r) (kvm s) k' → kv_ready k' (request_id r) (r_computed (mv x) + n) →
  let p' := as_running r (r_prefill_chunk (mv x))
              (add_scheduled (request_id r) n (sc_draft_slots c)
                 (if bool_decide (ins = []) then encoder_compute_budget p else eb) bs (spec_scheduled x n) ins p) in
  ∃ s', (∀ A (k : M st A), ((when negb (bool_decide (r_spec_token_ids (mv x) = [])) do put r clear_spec) >>
      (when negb (bool_decide (ins = [])) || negb (bool_decide (ext = []))
       do on_enc (allocate_inputs (enc_view x) ins ext)) >> k) (set_kvm k' s) = k s') ∧
    inv extra s' p' ∧ cursor (Datatypes.S i) s' p' ∧ rqs s' = rqs s ∧ running s' = running s ∧ bk s' = bk s.
Proof.
  intros Hi Hcu Hr Hnp Hx Hst Hc0 Hn Hnin Hmax Hdrafts%spec_scheduled_len Heb Hvalid Hslots Hg Hk Hrd p'.
  destruct (clear_spec_run r x (set_kvm k' s)) as (x' & Hclear & Hfx & Hst' & Hcomp & Hph & Hcalm); [done|].
  destruct (alloc_inputs_run (set_requests (<[request_id r:=x']> (requests s)) (set_kvm k' s)) x ins ext) as (e2 & Hai & He2);
    [apply Hi|done|].
  eexists. split; [intros A k; erewrite bind_ok by exact Hclear; by erewrite bind_ok by exact Hai|].
  assert (Hr' : r ∈ running s) by by eapply list_elem_of_lookup_2.
  split; [|split; [|done]].
  - eapply (plans_inv extra s _ p p' r x x' n (Z.max 0 (r_computed (mv x) + n - sr_num_tokens x - r_placeholders (mv x))) ins);
      try done; rewrite ?Hcomp; try lia;
      [by eapply running_all| |apply Hi|apply Hi|apply Hi| |done|by rewrite Hst'|intros Hr0; by apply (iv_base _ _ _ Hi)].
    2: { cbn. intros r'. split; [by left|]. by intros [?| ->]. }
    split; unfold p'; cbn; try done; try lia.
    + case_bool_decide; [apply Hi|done].
    + by eexists.
    + case_bool_decide; [by left|by right].
    + by eexists.
    + unfold planned_reqs. cbn. rewrite <-app_assoc. cbn. by rewrite <-Permutation_middle.
  - split; [apply Hcu|]. cbn. intros r' [Hs%(cu_seen _ _ _ Hcu)| ->%list_elem_of_singleton]%elem_of_app.
    + eapply elem_of_take_le; [done|lia].
    + apply list_elem_of_lookup. exists i. rewrite lookup_take_lt by lia. done.
Qed.

Lemma running_loop_run fuel extra dp s p i :
  (length (running s) - i ≤ fuel)%nat → inv extra s p → cursor i s p →
  ∃ vs p' s' i', running_loop c set_order fuel dp i p s = (Ok p', s') ∧ evictions vs s p s' p' ∧
    inv extra s' p' ∧ cursor i' s' p'.
Proof.
  revert s p i. induction fuel as [|fuel IH]; intros s p i Hfuel Hi Hcu.
  { exists [], p, s, i. split; [|split; [by apply evictions_nil|done]]. unfold running_loop. run_step.
    rewrite lookup_ge_None_2 by lia. done. }
  cbn [running_loop]. run_step. destruct (running s !! i) as [r|] eqn:Hr.
  2: { exists [], p, s, i. split; [done|]. split; [by apply evictions_nil|done]. }
  destruct (_ || _) eqn:Hstop; [exists [], p, s, i; split; [done|]; split; [by apply evictions_nil|done]|].
  assert (Hrun : r ∈ running s) by by eapply list_elem_of_lookup_2.
  destruct (running_known _ _ _ _ Hi Hrun) as (x & Hx & Hf & Hro).
  assert (Hnp : r ∉ planned_reqs p).
  { rewrite (cursor_planned _ _ _ _ Hcu). intros Hs. apply (cu_seen _ _ _ Hcu) in Hs.
    apply list_elem_of_lookup in Hs as [j [Hj Hji]%lookup_take_Some].
    assert (j = i); [|lia]. eapply NoDup_lookup; [by eapply running_nodup|done|done]. }
  pose proof (planned_key _ _ _ _ Hi (running_all _ _ _ _ Hi Hrun) Hnp) as Hnone.
  pose proof (lookup_lt_Some _ _ _ Hr) as Hlt.
  assert (Hnext : ∀ s' : st, running s' = running s → cursor (Datatypes.S i) s' p).
  { intros s' Hs'. split; [apply Hcu|]. intros r' Hr'%(cu_seen _ _ _ Hcu). rewrite Hs'.
    eapply elem_of_take_le; [done|lia]. }
  erewrite bind_ok by by apply the_run.
  destruct (passes_over _ _ _); [apply IH; [lia|done|by apply Hnext]|].
  destruct (running_tokens_bounds _ _ _ _ Hro Hnone) as (Hn0 & Hnin & Hnmax & Hntok); [lia|lia|].
  destruct (plan_encoder_run s p r x (r_computed (mv x)) (running_tokens c p x)) as
    (ins & n' & eb & ext & e' & Hplan & He' & Hn' & Heb & Hslots & _ & Hvalid); [apply Hi|done|lia|apply Hi|].
  erewrite bind_ok by exact Hplan. cbn beta iota.
  pose proof (cf_sampled _ _ Hconf) as Hsampled.
  set (n := _reserve_prefill_lookahead c x (r_computed (mv x)) n').
  assert (Hn : 0 ≤ n ≤ n') by (apply reserve_bounds; lia).
  pose proof (inv_set_encm _ _ _ e' Hi He') as Hi1.
  destruct (Z.eqb_spec n 0) as [Hz|Hnz]; [|].
  { destruct (IH (set_encm e' s) p (Datatypes.S i)) as (vs & p' & s' & i' & Hrun' & Hes & Hi' & Hcu'); [cbn; lia|done|by apply Hnext|].
    exists vs, p', s', i'. split; [done|]. split; [by destruct Hes|done]. }
  destruct (allocate_loop_run (length (running s)) extra (set_encm e' s) p i r x n) as
    (vs & blocks & i' & p' & s1 & k' & Hal & Hes & Hi2 & Hcu2 & Hkeep & Htok & Hinp & Hlen & Hb); try done; try lia; [by destruct Hcu|].
  erewrite bind_ok by exact Hal. cbn beta iota. cbn in Hlen.
  assert (Hes' : evictions vs s p s1 p') by by destruct Hes.
  destruct blocks as [bs|].
  2: { exists vs, p', s1, i'. split; [subst k'; by destruct s1|done]. }
  destruct Hb as (Hr1 & Hnp1 & Hx1 & Hg1 & Hk1 & Hrd1).
  destruct (enter_plan_run extra s1 p' i' r x k' n ins ext eb bs) as (s2 & Hgo & Hi3 & Hcu3 & E1 & E2 & E3);
    try done; try lia; [apply Hro|apply Hro|destruct Hslots; [by left|right; by apply Hkeep]|].
  rewrite Hgo. match goal with |- context [running_loop c set_order fuel dp (Datatypes.S i') ?a s2] => set (p2 := a) end.
  pose proof (lookup_lt_Some _ _ _ Hr1) as Hlt1.
  destruct (IH s2 p2 (Datatypes.S i')) as (vs' & p3 & s3 & i3 & Hrun3 & Hes3 & Hi4 & Hcu4); [rewrite E2; lia|done|done|].
  exists (vs ++ vs'), p3, s3, i3. split; [done|]. split; [|done].
  eapply evictions_trans; [done|]. change vs' with ([] ++ vs'). eapply evictions_trans; [|done].
  apply evictions_nil; [done|done|done|]. by rewrite E3.
Qed.

(** *** The waiting queues *)
Definition with_choice (ch : RequestQueue.choice) (q : Q) (qs : queues Q) : queues Q :=
  match ch with from_waiting => Queues q (skipped_waiting qs) | from_skipped => Queues (waiting qs) q end.

Lemma on_choice_run {A} ch (m : M Q A) s (a : A) q' :
  m (chosen ch (rqs s)) = (Ok a, q') → on_choice ch m s = (Ok a, set_rqs (with_choice ch q' (rqs s)) s).
Proof.
  intros Hm. unfold on_choice, on_rqs. destruct ch; apply zoom_ok; [unfold on_waiting|unfold on_skipped]; by apply zoom_ok.
Qed.

Lemma select_queue_run fcfs (qs : queues Q) :
  queue_ok (waiting qs) → queue_ok (skipped_waiting qs) →
  has_requests (waiting qs) || has_requests (skipped_waiting qs) = true →
  ∃ ch, _select_waiting_queue_for_scheduling fcfs qs = (Ok (Some ch), qs) ∧ service (chosen ch qs) ≠ [].
Proof.
  intros Hw Hk Hsome. pose proof (proj2 (law_iter _ Hw)) as Hw'. pose proof (proj2 (law_iter _ Hk)) as Hk'.
  unfold _select_waiting_queue_for_scheduling. run_step. rewrite !law_peek by done.
  destruct (has_requests (waiting qs)) eqn:Ew, (has_requests (skipped_waiting qs)) eqn:Ek; try done;
    pose proof Hw' as [Hw1 _]; pose proof Hk' as [Hk1 _]; destruct fcfs; cbn [andb].
  - exists from_skipped. split; [done|]. by apply Hk1.
  - destruct (service (waiting qs)) as [|a l] eqn:E1; [by destruct Hw1|].
    destruct (service (skipped_waiting qs)) as [|b l'] eqn:E2; [by destruct Hk1|]. unfold bind, lift. cbn.
    destruct (py_lt a b); [exists from_waiting|exists from_skipped]; (split; [done|]); cbn; rewrite ?E1, ?E2; done.
  - exists from_waiting. split; [done|]. by apply Hw1.
  - exists from_waiting. split; [done|]. by apply Hw1.
  - exists from_skipped. split; [done|]. by apply Hk1.
  - exists from_skipped. split; [done|]. by apply Hk1.
Qed.

Definition total_waiting s : nat := length (service (waiting (rqs s))) + length (service (skipped_waiting (rqs s))).

(** The head of the chosen queue is taken. *)
Lemma pop_run ch s r l :
  queue_ok (waiting (rqs s)) → queue_ok (skipped_waiting (rqs s)) → service (chosen ch (rqs s)) = r :: l →
  ∃ qs, on_choice ch pop_request s = (Ok r, set_rqs qs s) ∧ queue_ok (waiting qs) ∧ queue_ok (skipped_waiting qs) ∧
    service (waiting (rqs s)) ++ service (skipped_waiting (rqs s)) ≡ₚ r :: service (waiting qs) ++ service (skipped_waiting qs).
Proof.
  intros Hw Hk Hs. assert (Hq : queue_ok (chosen ch (rqs s))) by by destruct ch.
  pose proof (law_pop _ Hq) as Hp. rewrite Hs in Hp. destruct Hp as (q' & Hrun & Hq' & Hs').
  exists (with_choice ch q' (rqs s)). split; [by apply on_choice_run|].
  destruct ch; cbn in *; rewrite Hs, Hs'; split_and!; try done. by rewrite Permutation_middle.
Qed.

(** A waiting request changed. *)
Lemma inv_waiting extra s s' p r x x' :
  inv extra s p → r ∈ all → r ∉ running s → requests s !! request_id r = Some x →
  requests s' = <[request_id r := x']> (requests s) → fx x' = fx x → wait_ok (kvm s') r x' →
  (calm x → calm x') → rqs s' = rqs s → running s' = running s → enc_good (encm s') →
  kv_good (handed s') (kvm s') → kv_preserves (.≠ request_id r) (kvm s) (kvm s') →
  num_waiting_for_streaming_input (bk s') = num_waiting_for_streaming_input (bk s) →
  inv extra s' p.
Proof.
  intros Hi Hra Hnr Hx Hreqs Hfx Hwo Hcalm Hrqs Hrun Henc Hg Hk Hbk.
  assert (Hne : ∀ r', r' ∈ all → r' ≠ r → request_id r' ≠ request_id r) by (intros r' Hr' Hn Heq; by apply Hn, all_inj).
  assert (Hother : ∀ r', r' ∈ all → r' ≠ r → requests s' !! request_id r' = requests s !! request_id r').
  { intros r' Hr' Hn. rewrite Hreqs, lookup_insert_ne; [done|]. symmetry. by apply Hne. }
  assert (Hme : requests s' !! request_id r = Some x') by (by rewrite Hreqs, lookup_insert_eq).
  pose proof Hi as []. split; rewrite ?Hrqs, ?Hrun, ?Hbk; try done.
  - intros r' Hr'. destruct (decide (r' = r)) as [->|Hn]; [|rewrite Hother by done; by apply iv_known0].
    destruct (iv_known0 r Hra) as (x0 & Hx0 & Hf). exists x'. split; [done|]. apply (req_fine_fx r x); congruence.
  - intros r' Hr'. rewrite <-iv_fixed0 by done. destruct (decide (r' = r)) as [->|Hn]; [|by rewrite Hother].
    by rewrite Hme, Hx; cbn; rewrite Hfx.
  - intros r' y Hr' Hr0 Hy. assert (Hn : r' ≠ r) by (by intros ->). pose proof (running_all _ _ _ _ Hi Hr').
    rewrite Hother in Hy by done. by apply (iv_base0 r' y).
  - intros r' y Hr' Hy. assert (Hn : r' ≠ r) by (by intros ->). pose proof (running_all _ _ _ _ Hi Hr').
    rewrite Hother in Hy by done. eapply run_ok_keep; [by apply Hk, Hne|done|done|by apply iv_run0].
  - intros r' y Hr' Hn Hy. destruct (decide (r' = r)) as [->|Hne']; [by rewrite Hme in Hy; injection Hy as <-|].
    rewrite Hother in Hy by done. eapply wait_ok_keep; [done|by apply Hne|by apply iv_wait0].
  - eapply pass_ok_features; [|done]. intros rid. rewrite Hreqs. unfold features_of.
    destruct (decide (rid = request_id r)) as [->|Hn]; simplify_map_eq; [|done]. by rewrite ?Hx, Hfx.
  - intros rid. rewrite Hreqs, lookup_insert_is_Some. intros [<-|[_ ?]]; [by apply list_elem_of_fmap_2|by apply iv_dom0].
  - intros rid Hn. apply Hk; [|by apply iv_others0]. intros ->. apply Hn. by apply list_elem_of_fmap_2.
  - intros Hq r' y Hr' Hy. destruct (decide (r' = r)) as [->|Hn].
    + rewrite Hme in Hy. injection Hy as <-. by apply Hcalm, (iv_calm0 Hq r).
    + rewrite Hother in Hy by done. by apply (iv_calm0 Hq r').
Qed.

(** Only the queues changed. *)
Lemma inv_queues extra extra' s p qs :
  inv extra s p → queue_ok (waiting qs) → queue_ok (skipped_waiting qs) →
  service (waiting qs) ++ service (skipped_waiting qs) ++ extra'
    ≡ₚ service (waiting (rqs s)) ++ service (skipped_waiting (rqs s)) ++ extra →
  inv extra' (set_rqs qs s) p.
Proof. intros [] Hw Hk Hp. split; try done. cbn. by rewrite Hp. Qed.

(** *** Is the request skipped? *)
Lemma skips_run s p r x :
  requests s !! request_id r = Some x → wait_ok (kvm s) r x →
  ∃ b s' x', skips c r p s = (Ok b, s') ∧ requests s' = <[request_id r := x']> (requests s) ∧ fx x' = fx x ∧
    wait_ok (kvm s) r x' ∧ (calm x → calm x') ∧ (b = false → r_status (mv x') = WAITING ∨ r_status (mv x') = PREEMPTED) ∧
    rqs s' = rqs s ∧ running s' = running s ∧ kvm s' = kvm s ∧ encm s' = encm s ∧ deferred_frees (bk s') = deferred_frees (bk s) ∧
    same_mode (bk s) (bk s').
Proof.
  intros Hx [Hst Hfin Hph Hc Hidle Hready Hstream Htodo]. unfold skips. erewrite bind_ok by by apply the_run.
  assert (Hsame : <[request_id r := x]> (requests s) = requests s) by by apply insert_id.
  unfold _try_promote_blocked_waiting_request.
  destruct (r_status (mv x)) eqn:Es; cbn [_is_blocked_waiting_status]; try done; try by rewrite Es in Hfin.
  - unfold bind, ret. do 3 eexists. split; [done|]. rewrite Hsame. split_and!; try done; [split; rewrite ?Es; done|]. by left.
  - unfold bind, ret. do 3 eexists. split; [done|]. rewrite Hsame. split_and!; try done; [split; rewrite ?Es; done|]. by right.
  - destruct (sr_grammar (fx x)).
    + unfold bind, ret. do 3 eexists. split; [done|]. rewrite Hsame. split_and!; try done. split; rewrite ?Es; done.
    + unfold bind, ret, on_bk, modify. do 3 eexists. split; [done|]. cbn. rewrite Hsame. split_and!; try done. split; rewrite ?Es; done.
    + unfold bind, ret. rewrite (put_run r x) by done. do 3 eexists. split; [done|]. cbn.
      split_and!; try done; [|by intros []|by left]. split; cbn; try done. intros _. by apply Htodo.
  - unfold bind, ret. do 3 eexists. split; [done|]. rewrite Hsame. split_and!; try done. split; rewrite ?Es; done.
  - unfold bind, ret. rewrite (ensure_true _ AssertionError s) by (rewrite Hstream by done; done).
    do 3 eexists. split; [done|]. rewrite Hsame. split_and!; try done. split; rewrite ?Es; done.
Qed.

(** *** A request is admitted *)
Lemma local_hit_run s r x :
  requests s !! request_id r = Some x → req_fine r x → wait_ok (kvm s) r x → kv_good (handed s) (kvm s) →
  r_status (mv x) = WAITING ∨ r_status (mv x) = PREEMPTED →
  ∃ hits n computed, local_hit x s = (Ok (hits, n, computed), s) ∧ 0 ≤ n ∧ computed = r_computed (mv x) + n ∧
    computed < sr_num_tokens x ∧
    (r_computed (mv x) = 0 ∧ kv_idle (kvm s) (request_id r) ∧ kv_hit (kvm s) (request_id r) hits n ∨
     kv_ready (kvm s) (request_id r) (r_computed (mv x)) ∧ hits = None ∧ n = 0).
Proof.
  intros Hx Hf [_ _ _ Hc Hidle Hready _ Htodo] Hg Hst. pose proof (rf_id _ _ Hf) as Hid. unfold local_hit.
  assert (r_computed (mv x) < sr_num_tokens x) as Hlt by (apply Htodo; destruct Hst as [-> | ->]; done).
  destruct (Z.eqb_spec (r_computed (mv x)) 0) as [Hz|Hnz].
  - run_step. destruct (law_lookup (handed s) (kvm s) (sr_request (fx x)) (sr_skip_reading (fx x)) Hg) as (hits & n & Hl & Hn & Hh).
    { rewrite Hid. by apply Hidle. } { apply Hf. }
    unfold bind at 1, lift. rewrite Hl. unfold sr_num_tokens in *. rewrite Hid in Hh.
    erewrite bind_ok by (apply ensure_true; cbn; lia). exists hits, n, n. cbn. split; [done|]. split; [lia|]. split; [lia|].
    split; [lia|]. left. auto.
  - exists None, 0, (r_computed (mv x)). split; [done|]. split_and!; try done; [lia|]. right. split; [apply Hready; lia|done].
Qed.

Lemma waiting_tokens_bounds p x computed n pad :
  waiting_tokens c p x computed = Some (n, pad) → computed < sr_num_tokens x → sr_num_tokens x ≤ sc_max_model_len c →
  0 < token_budget p → sc_draft_slots c < input_budget p →
  0 < n ≤ token_budget p ∧ n ≤ input_budget p - sc_draft_slots c ∧ computed + n ≤ sc_max_model_len c ∧
  (pad = true → n = 1 + sc_num_spec c ∧ computed + 1 = sr_num_tokens x ∧ 0 < sc_num_spec c) ∧
  (pad = false → computed + n ≤ sr_num_tokens x).
Proof.
  intros Hw Hlt Hmax Ht Hi. pose proof (cf_pad _ _ Hconf) as Hpad. pose proof (cf_sampled _ _ Hconf) as Hsam.
  unfold waiting_tokens in Hw. match goal with H : context [if ?b && (_ <? _) then None else _] |- _ => set (q := b) in H end.
  destruct (q && _) eqn:E1; [done|].
  destruct (negb _ && _) eqn:E2; [done|]. injection Hw as <- <-. unfold cap_long_prefill in *.
  assert (q = true → sr_num_tokens x - computed = 1 ∧ 0 < sc_num_spec c ∧
    computed + (1 + sc_num_spec c) + sc_sampled_per_step c ≤ sc_max_model_len c) as Hq.
  { unfold q. rewrite !andb_true_iff. lia. }
  clearbody q. destruct q; [specialize (Hq eq_refl)|clear Hq]; destruct ((0 <? sc_long_prefill c) && _) eqn:Ec; split_and!; lia.
Qed.

Lemma pad_kept computed n n' x : 0 ≤ n' → n' ≠ 0 → (n' = n ∨ n' = 0 ∨ computed + n' < sr_num_tokens x) →
  computed + 1 = sr_num_tokens x → n = 1 + sc_num_spec c → 0 < sc_num_spec c →
  _reserve_prefill_lookahead c x computed n' = 1 + sc_num_spec c.
Proof. intros. assert (n' = n) by lia. unfold _reserve_prefill_lookahead. destruct (_ && _) eqn:Ec; lia. Qed.

Lemma pad_zero computed x : computed + 1 = sr_num_tokens x → 0 ≤ sc_prefill_lookahead c → _reserve_prefill_lookahead c x computed 0 = 0.
Proof. intros. unfold _reserve_prefill_lookahead. destruct (_ && _) eqn:Ec; lia. Qed.

Lemma when_ensure (b e : bool) ex s : (b = true → e = true) → (when b do ensure e ex) s = (Ok tt, s).
Proof. destruct b; [|done]. intros ->; done. Qed.

Lemma when_inflight (b : bool) f s : ∃ b', (when b do on_bk (with_inflight f)) s = (Ok tt, set_bk b' s) ∧
  deferred_frees b' = deferred_frees (bk s) ∧ same_mode (bk s) b'.
Proof. destruct b; [by eexists|]. exists (bk s). by destruct s. Qed.

Lemma admit_run extra ch s p r l x k' n computed eb pad ins ext :
  inv extra s p → service (chosen ch (rqs s)) = r :: l → r ∉ running s → r ∉ R0 → requests s !! request_id r = Some x →
  r_status (mv x) = WAITING ∨ r_status (mv x) = PREEMPTED →
  zlen (running s) < sc_max_running c → 0 ≤ computed → computed + n ≤ sc_max_model_len c → 0 < n ≤ token_budget p →
  n ≤ input_budget p - sc_draft_slots c → 0 ≤ eb →
  (pad = true → n = 1 + sc_num_spec c ∧ computed + 1 = sr_num_tokens x ∧ 0 < sc_num_spec c) →
  (pad = false → computed + n ≤ sr_num_tokens x) → r_placeholders (mv x) = 0 →
  (∀ i, i ∈ ins → 0 ≤ i < zlen (sr_features (fx x))) →
  (ins = [] ∧ ext = []) ∨ enc_planned (encm s) (enc_view x) ins ext →
  kv_good (handed s) k' → kv_preserves (.≠ request_id r) (kvm s) k' → kv_ready k' (request_id r) (computed + n) →
  ∃ p' s', admit_request c ch n computed eb pad ins ext p (set_kvm k' s) = (Ok p', s') ∧
    inv extra s' p' ∧ running s' = running s ++ [r] ∧ (total_waiting s' + 1 = total_waiting s)%nat ∧
    preempted_reqs p' = preempted_reqs p.
Proof.
  intros Hi Hhead Hnr Hnew Hx Hst Hroom Hc0 Hmax Hn Hnin Heb Hpad Hnopad Hph Hvalid Hslots Hg Hk Hrd.
  destruct (iv_queues _ _ _ Hi) as [Hw Hs].
  destruct (pop_run ch (set_kvm k' s) r l Hw Hs Hhead) as (qs & Hpop & Hqw & Hqs & Hperm). cbn in Hperm.
  assert (Hra : r ∈ all).
  { rewrite <-(iv_perm _ _ _ Hi). rewrite (app_assoc (service _)), Hperm. set_solver. }
  assert (Hnp : r ∉ planned_reqs p) by (intros Hp; by apply Hnr, (iv_sub _ _ _ Hi)).
  unfold admit_request. erewrite bind_ok by exact Hpop. run_step.
  erewrite bind_ok by (apply the_run; exact Hx).
  set (resumed := match r_status (mv x) with PREEMPTED => true | _ => false end).
  erewrite (bind_ok _ _ _ resumed) by (unfold resumed; destruct Hst as [-> | ->]; reflexivity).
  run_step. erewrite bind_ok by (apply put_run; exact Hx).
  erewrite bind_ok by (apply when_ensure; intros Hp; rewrite (proj1 (Hpad Hp)); lia).
  match goal with |- context [bind (when ?b do on_bk _) _ ?s0] =>
    destruct (when_inflight b (λ i, {[request_id r]} ∪ i) s0) as (b' & Hb & Hbd & Hbm) end.
  erewrite bind_ok by exact Hb. cbn in Hbd, Hbm.
  match goal with |- context [bind (when _ do on_enc _) _ ?s0] => destruct (alloc_inputs_run s0 x ins ext) as (e2 & Hai & He2) end;
    [apply Hi|done|].
  erewrite bind_ok by exact Hai. eexists _, _. split; [reflexivity|]. split; [|split; [done|split; [|done]]].
  2: { unfold total_waiting. cbn. rewrite <-!length_app, Hperm. cbn. lia. }
  assert (Hbs : num_waiting_for_streaming_input b' = num_waiting_for_streaming_input (bk s)) by apply Hbm.
  assert (Hh : handed (set_bk b' s) = handed s) by (unfold handed; cbn; by rewrite Hbd).
  eapply (plans_inv extra s _ p _ r x (SR (fx x) (start_running computed (mv x))) n (if pad then sc_num_spec c else 0) ins); try done; cbn; try done; try lia.
  - split; cbn; try done; try lia.
    + case_bool_decide; [apply Hi|done].
    + by eexists.
    + case_bool_decide; [by left|by right].
    + eexists. split; [done|]. destruct pad; [|done]. destruct (Hpad eq_refl) as (? & ? & ?). unfold zlen. cbn.
      rewrite length_replicate. lia.
    + unfold planned_reqs. cbn. destruct resumed; solve_Permutation.
  - destruct pad; [destruct (Hpad eq_refl) as (? & ? & ?)|specialize (Hnopad eq_refl)]; lia.
  - intros []. split; try done. change (computed ≤ sr_num_tokens x).
    destruct pad; [destruct (Hpad eq_refl) as (? & ? & ?)|specialize (Hnopad eq_refl)]; lia.
  - rewrite <-(iv_perm _ _ _ Hi), (app_assoc (service _)), (app_assoc (service (waiting (rqs s)))), Hperm.
    by rewrite <-app_assoc.
  - rewrite zlen_app. cbn. unfold zlen at 2. cbn. lia.
  - intros r'. rewrite elem_of_app, list_elem_of_singleton. done.
Qed.

(** *** The second pass *)
Lemma head_waits extra ch s p r l : inv extra s p → service (chosen ch (rqs s)) = r :: l → r ∈ all ∧ r ∉ running s.
Proof.
  intros Hi Hh. pose proof (iv_perm _ _ _ Hi) as Hp.
  assert (Hin : r ∈ service (waiting (rqs s)) ++ service (skipped_waiting (rqs s)) ++ extra).
  { destruct ch; cbn in Hh; rewrite Hh; set_solver. }
  split; [rewrite <-Hp; set_solver|]. pose proof (NoDup_fmap_1 _ _ Hall) as Hnd. rewrite <-Hp in Hnd.
  apply NoDup_app in Hnd as (_ & Hdis & _). intros Hr. by apply (Hdis r).
Qed.

Lemma skip_request_run ch s p skipped r l :
  inv (service skipped) s p → queue_ok skipped → service (chosen ch (rqs s)) = r :: l →
  ∃ q s', skip_request ch r skipped s = (Ok q, s') ∧ queue_ok q ∧ inv (service q) s' p ∧
    (total_waiting s' + 1 = total_waiting s)%nat ∧ running s' = running s.
Proof.
  intros Hi Hq Hh. destruct (iv_queues _ _ _ Hi) as [Hw Hs].
  destruct (pop_run ch s r l Hw Hs Hh) as (qs & Hpop & Hqw & Hqs & Hperm).
  destruct (law_prepend r skipped Hq) as (q' & Hpre & Hq' & Hserv).
  unfold skip_request. erewrite bind_ok by exact Hpop. rewrite Hpre. unfold bind, lift. exists q', (set_rqs qs s).
  split; [done|]. split; [done|]. split; [|split; [|done]].
  - apply (inv_queues (service skipped)); try done. rewrite Hserv, (proj2 (law_adds_one r _)), !(app_assoc (service _)), Hperm.
    cbn. by rewrite <-Permutation_middle.
  - unfold total_waiting. cbn. rewrite <-!length_app, Hperm. cbn. lia.
Qed.

(** What a turn leaves. *)
Definition turn_done s p (res : option (Q * pass)) skipped s' : Prop :=
  running s `prefix_of` running s' ∧
  match res with
  | None => inv (service skipped) s' p
  | Some (skipped', p') => queue_ok skipped' ∧ inv (service skipped') s' p' ∧
      (total_waiting s' + 1 = total_waiting s)%nat ∧ preempted_reqs p' = preempted_reqs p
  end.

Lemma candidate_turn_run dp ch s p skipped r l x :
  inv (service skipped) s p → queue_ok skipped → service (chosen ch (rqs s)) = r :: l →
  requests s !! request_id r = Some x → r_status (mv x) = WAITING ∨ r_status (mv x) = PREEMPTED →
  zlen (running s) < sc_max_running c → 0 < token_budget p → sc_draft_slots c < input_budget p →
  (∀ r', r' ∈ R0 → r' ∈ running s) →
  ∃ res s', candidate_turn c set_order dp ch r skipped p s = (Ok res, s') ∧ turn_done s p res skipped s'.
Proof.
  intros Hi Hq Hh Hx Hst Hroom Ht Hin HR0. destruct (head_waits _ _ _ _ _ _ Hi Hh) as [Hra Hnr].
  destruct (iv_known _ _ _ Hi r Hra) as (x0 & Hx0 & Hf). assert (x0 = x) as -> by congruence. clear Hx0.
  pose proof (iv_wait _ _ _ Hi r x Hra Hnr Hx) as Hwo. pose proof (rf_id _ _ Hf) as Hid.
  assert (Hstop : turn_done s p None skipped s) by (split; done).
  unfold candidate_turn. erewrite bind_ok by by apply the_run.
  destruct (local_hit_run s r x Hx Hf Hwo (iv_kv _ _ _ Hi) Hst) as (hits & nl & computed & Hrun & Hnl & Hcomp & Hlt & Hkv).
  erewrite bind_ok by exact Hrun. cbn beta iota.
  destruct (_ && _); [by eexists _, _|].
  destruct (waiting_tokens c p x computed) as [[n pad]|] eqn:Ew; [|by eexists _, _].
  pose proof (wo_computed _ _ _ Hwo) as Hc0.
  destruct (waiting_tokens_bounds p x computed n pad Ew Hlt) as (Hn & Hnin & Hmax & Hpad & Hnopad); [apply Hf|done|done|].
  erewrite bind_ok by (apply ensure_true; lia).
  destruct (plan_encoder_run s p r x computed n) as (ins & n' & eb & ext & e' & Hplan & He' & Hn' & Heb & Hslots & Hcut & Hvalid);
    [apply Hi|done|lia|apply Hi|].
  erewrite bind_ok by exact Hplan. cbn beta iota zeta.
  pose proof (inv_set_encm _ _ _ e' Hi He') as Hi1.
  pose proof (reserve_bounds x computed n' (proj1 Hn')) as Hres.
  set (n1 := _reserve_prefill_lookahead c x computed n') in *.
  destruct (Z.eqb_spec n1 0) as [Hz|Hnz]; [by eexists _, _|]. run_step.
  destruct (law_allocate (handed s) (kvm s) (kv_view x) n1 nl hits (sc_lookahead c) (sc_reserve_full c)
    (negb (bool_decide (running (set_encm e' s) = [])))) as (res & k' & Hal & Hg & Hk & Hkr);
    cbn; rewrite ?Hid; try done; try lia; [apply Hi|apply Hconf| |apply Hf|].
  { pose proof (cf_limit _ _ Hconf). lia. }
  cbn in Hk, Hkr. rewrite Hid in Hk, Hkr. unfold on_kv. erewrite bind_ok by (apply zoom_ok; exact Hal).
  destruct res as [bs|].
  - assert (Hpad' : pad = true → n1 = 1 + sc_num_spec c ∧ computed + 1 = sr_num_tokens x ∧ 0 < sc_num_spec c).
    { intros Hp. destruct (Hpad Hp) as (Hn1 & Hn2 & Hn3). split; [|done]. destruct (decide (n' = 0)) as [->|Hnz'].
      - exfalso. apply Hnz. by apply pad_zero, Hconf.
      - apply pad_kept with n; try done; lia. }
    destruct (admit_run (service skipped) ch (set_encm e' s) p r l x k' n1 computed eb pad ins ext)
      as (p' & s' & Hadm & Hi' & Hrun' & Htot & Hpre); try done; try lia.
    { intros Hr0. by apply Hnr, HR0. }
    { intros Hp. specialize (Hnopad Hp). lia. }
    { apply Hwo. }
    { by replace (computed + n1) with (r_computed (mv x) + nl + n1) by lia. }
    erewrite bind_ok by exact Hadm. eexists _, _. split; [done|]. split; [|done]. rewrite Hrun'. by eexists.
  - assert (Hi2 : inv (service skipped) (set_kvm k' (set_encm e' s)) p).
    { apply (inv_waiting (service skipped) (set_encm e' s) _ p r x x); try done; [by symmetry; apply insert_id|].
      destruct Hwo. destruct Hkr as [Hk1 Hk2]. split; auto. }
    destruct (bool_decide (sr_features (fx x) = [])); cbn [negb].
    { unfold bind, ret. eexists _, _. split; [done|]. split; done. }
    destruct (law_enc_free e' (enc_view x)) as (e2 & Hfree & He2 & _); [done|cbn; rewrite Hid; apply Hf|].
    unfold on_enc. erewrite bind_ok by (apply zoom_ok; exact Hfree). eexists _, _. split; [done|]. split; [done|].
    by apply (inv_set_encm _ _ _ e2) in Hi2.
Qed.

Lemma waiting_turn_run dp ch s p skipped r l :
  inv (service skipped) s p → queue_ok skipped → service (chosen ch (rqs s)) = r :: l →
  zlen (running s) < sc_max_running c → 0 < token_budget p → sc_draft_slots c < input_budget p →
  (∀ r', r' ∈ R0 → r' ∈ running s) →
  ∃ res s', waiting_turn c set_order dp ch r skipped p s = (Ok res, s') ∧ turn_done s p res skipped s'.
Proof.
  intros Hi Hq Hh Hroom Ht Hin HR0. destruct (head_waits _ _ _ _ _ _ Hi Hh) as [Hra Hnr].
  destruct (iv_known _ _ _ Hi r Hra) as (x & Hx & Hf).
  destruct (skips_run s p r x Hx (iv_wait _ _ _ Hi r x Hra Hnr Hx)) as
    (b & s1 & x1 & Hrun & Hreqs & Hfx & Hwo & Hcalm & Hst & Hrqs & Hrun1 & Hkvm & Hencm & Hdef & Hmode).
  assert (Hi1 : inv (service skipped) s1 p).
  { eapply (inv_waiting _ s s1 p r x x1); try done; rewrite ?Hkvm, ?Hencm; try done.
    - apply Hi.
    - unfold handed. rewrite Hdef. apply Hi.
    - apply Hmode. }
  unfold waiting_turn. erewrite bind_ok by exact Hrun. unfold turn_done. rewrite <-Hrun1 in *.
  assert (Htot : total_waiting s1 = total_waiting s) by (unfold total_waiting; by rewrite Hrqs). rewrite <-Htot.
  rewrite <-Hrqs in Hh. destruct b.
  - destruct (skip_request_run ch s1 p skipped r l Hi1 Hq Hh) as (q & s2 & Hskip & Hq2 & Hi2 & Htot2 & Hrun2).
    erewrite bind_ok by exact Hskip. eexists _, _. split; [done|]. split; [by rewrite Hrun2|done].
  - apply (candidate_turn_run dp ch s1 p skipped r l x1); try done; [by rewrite Hreqs, lookup_insert_eq|by apply Hst].
Qed.

Lemma waiting_loop_run fuel dp s p skipped :
  (total_waiting s ≤ fuel)%nat → inv (service skipped) s p → queue_ok skipped → (∀ r', r' ∈ R0 → r' ∈ running s) →
  ∃ q p' s', waiting_loop c set_order fuel dp skipped p s = (Ok (q, p'), s') ∧ queue_ok q ∧ inv (service q) s' p' ∧
    preempted_reqs p' = preempted_reqs p ∧ running s `prefix_of` running s'.
Proof.
  revert s p skipped. induction fuel as [|fuel IH]; intros s p skipped Hf Hi Hq HR0; cbn [waiting_loop]; run_step;
    destruct (iv_queues _ _ _ Hi) as [Hw Hk].
  { assert (service (waiting (rqs s)) = [] ∧ service (skipped_waiting (rqs s)) = []) as [E1 E2].
    { unfold total_waiting in Hf. split; apply length_zero_iff_nil; lia. }
    pose proof (proj2 (law_iter _ Hw)) as H1'. pose proof (proj2 (law_iter _ Hk)) as H2'.
    destruct (has_requests (waiting (rqs s))); [by apply H1' in E1|]. destruct (has_requests (skipped_waiting (rqs s))); [by apply H2' in E2|].
    by exists skipped, p, s. }
  destruct (_ || _) eqn:Estop; [by exists skipped, p, s|]. rewrite !orb_false_iff, negb_false_iff in Estop.
  destruct Estop as (((Hsome & Ht) & Hin) & Hroom).
  destruct (select_queue_run (negb (sc_priority c)) (rqs s) Hw Hk Hsome) as (ch & Hsel & Hne).
  unfold on_rqs at 1. erewrite bind_ok by (apply zoom_ok; exact Hsel). replace (set_rqs (rqs s) s) with s by by destruct s.
  destruct (service (chosen ch (rqs s))) as [|r l] eqn:Es; [done|].
  assert (Hpeek : on_choice ch peek_request s = (Ok r, s)).
  { assert (queue_ok (chosen ch (rqs s))) as Hc by by destruct ch. pose proof (law_peek _ Hc) as Hp. rewrite Es in Hp.
    rewrite (on_choice_run _ _ _ _ _ Hp). by destruct ch, s as [? [] ? ? ? ?]. }
  erewrite bind_ok by exact Hpeek. pose proof (iv_stream _ _ _ Hi).
  destruct (waiting_turn_run dp ch s p skipped r l Hi Hq Es) as (res & s1 & Hturn & Hpre & Hdone); [lia|lia|lia|done|].
  erewrite bind_ok by exact Hturn. destruct res as [[q1 p1]|]; [|by exists skipped, p, s1].
  destruct Hdone as (Hq1 & Hi1 & Htot & Hp1).
  destruct (IH s1 p1 q1) as (q & p' & s' & Hloop & Hq' & Hi' & Hp' & Hpre'); [lia|done|done| |].
  { intros r' Hr'. destruct Hpre as [l' ->]. apply elem_of_app. left. by apply HR0. }
  exists q, p', s'. split_and!; try done; [congruence|]. by trans (running s1).
Qed.

Lemma prepends_perm (l l0 : list req) : foldl (λ l r, prepended r l) l0 l ≡ₚ l ++ l0.
Proof.
  revert l0. induction l as [|r l IH]; intros l0; cbn; [done|]. rewrite IH, (proj2 (law_adds_one r l0)).
  by rewrite <-Permutation_middle.
Qed.

Lemma schedule_waiting_run dp s p :
  inv [] s p → (preempted_reqs p = [] → ∀ r', r' ∈ R0 → r' ∈ running s) →
  ∃ p' s', schedule_waiting c set_order dp p s = (Ok p', s') ∧ inv [] s' p' ∧ preempted_reqs p' = preempted_reqs p ∧
    running s `prefix_of` running s' ∧ (preempted_reqs p ≠ [] → p' = p ∧ s' = s).
Proof.
  intros Hi HR0. unfold schedule_waiting. run_step. case_bool_decide as Hpe; cbn [andb]; [|by exists p, s].
  destruct (match _pause_state (bk s) with UNPAUSED => true | _ => false end); [|by exists p, s].
  destruct (iv_queues _ _ _ Hi) as [Hw Hk]. rewrite (proj1 (law_iter _ Hw)), (proj1 (law_iter _ Hk)).
  unfold bind at 1, lift at 1. unfold bind at 1, lift at 1. destruct law_new as [Hn1 Hn2].
  destruct (waiting_loop_run (length (service (waiting (rqs s))) + length (service (skipped_waiting (rqs s)))) dp s p new_queue)
    as (q & p' & s1 & Hrun & Hq & Hi1 & Hp1 & Hpre); [done|by rewrite Hn2|done|by apply HR0|].
  erewrite bind_ok by exact Hrun. cbn [fst snd].
  assert (∃ s2, (when has_requests q do on_rqs (on_skipped (prepend_requests q))) s1 = (Ok tt, s2) ∧ inv [] s2 p' ∧
    running s2 = running s1) as (s2 & Hback & Hi2 & Hr2).
  { pose proof (proj2 (law_iter _ Hq)) as Hh. destruct (has_requests q).
    - destruct (iv_queues _ _ _ Hi1) as [Hw1 Hk1]. destruct (law_prepends q _ Hq Hk1) as (q' & Hpp & Hq' & Hs').
      eexists. split; [unfold on_rqs, on_skipped; apply zoom_ok, zoom_ok; exact Hpp|]. split; [|done].
      apply (inv_queues (service q) []); try done. cbn. rewrite Hs', prepends_perm, app_nil_r.
      by rewrite (Permutation_app_comm (service q)).
    - exists s1. split; [done|]. split; [|done].
      destruct (service q) as [|a l]; [done|]. assert (false = true) by (by apply Hh). done. }
  erewrite bind_ok by exact Hback.
  assert (∃ b, (when negb dp do let! s' := gets (λ s, s) in on_bk (with_bound (has_requests (waiting (rqs s'))))) s2
    = (Ok tt, set_bk b s2) ∧ deferred_frees b = deferred_frees (bk s2) ∧
    num_waiting_for_streaming_input b = num_waiting_for_streaming_input (bk s2)) as (b & Hb & Hdef & Hstr).
  { destruct dp; [exists (bk s2); by destruct s2|]. by eexists. }
  erewrite bind_ok by exact Hb. exists p', (set_bk b s2). split; [done|]. split_and!; try done.
  - destruct Hi2. split; try done; cbn; [|by rewrite Hstr]. unfold handed. cbn. by rewrite Hdef.
  - cbn. by rewrite Hr2.
Qed.

(** *** LoRAs *)
Definition lora_of (f : option fixed_part) : option Z := f ≫= sr_lora.

(** The LoRAs of the requests of [l]. *)
Definition loras_fit (l : list req) : Prop :=
  ∀ mx, sc_max_loras c = Some mx → Z.of_nat (size (list_to_set (C := gset Z) (omap (λ r, lora_of (F r)) l))) ≤ mx.

Lemma record_loras_run l s p :
  inv [] s p → loras_fit l → (∀ r, r ∈ running s → r ∈ l) → ∃ p', record_loras c p s = (Ok p', s) ∧ inv [] s p' ∧
    preempted_reqs p' = preempted_reqs p.
Proof.
  intros Hi Hfit Hl. unfold record_loras. destruct (sc_max_loras c) as [mx|] eqn:Emx; [|by exists p].
  run_step. specialize (Hfit mx Emx).
  assert (running_loras s p ⊆ list_to_set (omap (λ r, lora_of (F r)) l)) as Hsub.
  { intros i. unfold running_loras. rewrite !elem_of_list_to_set, !list_elem_of_omap. intros (r & Hr & Hx).
    assert (Hrun : r ∈ running s) by (apply (iv_sub _ _ _ Hi); unfold planned_reqs; set_solver).
    exists r. split; [by apply Hl|].
    rewrite <-(iv_fixed _ _ _ Hi) by by eapply running_all. destruct (requests s !! request_id r) as [x|]; [|done].
    cbn in *. destruct (sr_lora (fx x)); [|done]. cbn in *. by destruct (0 <? _). }
  apply subseteq_size in Hsub. erewrite bind_ok by (apply ensure_true; lia).
  eexists. split; [done|]. split; [|done]. destruct Hi. split; try done; [|by destruct iv_pass0].
  intros r x Hr Hx. by destruct (iv_run0 r x Hr Hx).
Qed.

(** *** A whole step *)

(** The scheduler between two steps. *)
Record settled s : Prop := {
  se_queues : queue_ok (waiting (rqs s)) ∧ queue_ok (skipped_waiting (rqs s));
  se_perm : running s ++ service (waiting (rqs s)) ++ service (skipped_waiting (rqs s)) ≡ₚ all;
  se_known : ∀ r, r ∈ all → ∃ x, requests s !! request_id r = Some x ∧ req_fine r x;
  se_run : ∀ r x, r ∈ running s → requests s !! request_id r = Some x →
    r_status (mv x) = RUNNING ∧ 0 ≤ r_computed (mv x) ≤ sc_max_model_len c ∧
    kv_ready (kvm s) (request_id r) (r_computed (mv x));
  se_wait : ∀ r x, r ∈ all → r ∉ running s → requests s !! request_id r = Some x → wait_ok (kvm s) r x;
  se_kv : kv_good (handed s) (kvm s);
  se_enc : enc_good (encm s);
  se_max : zlen (running s) ≤ sc_max_running c;
  se_stream : 0 ≤ num_waiting_for_streaming_input (bk s);
  se_dom : ∀ rid, is_Some (requests s !! rid) → rid ∈ request_id <$> all;
  se_others : ∀ rid, rid ∉ request_id <$> all → kv_idle (kvm s) rid;
}.

(** No running request is ahead of its tokens or at the end of its positions. *)
Definition opened s : Prop := ∀ r x, r ∈ running s → requests s !! request_id r = Some x →
  r_computed (mv x) ≤ num_tokens_with_spec x + r_placeholders (mv x) ∧
  r_computed (mv x) + sc_sampled_per_step c ≤ sc_max_model_len c.

Lemma start_inv s b :
  settled s → opened s → (∀ r, r ∈ all → fx <$> requests s !! request_id r = F r) →
  (∀ r x, r ∈ running s → requests s !! request_id r = Some x → C r = r_computed (mv x)) →
  T = token_budget (start_pass c s) → I = sc_max_batched c →
  (quiet → ∀ r x, r ∈ all → requests s !! request_id r = Some x → calm x) →
  deferred_frees b = deferred_frees (bk s) → num_waiting_for_streaming_input b = num_waiting_for_streaming_input (bk s) →
  inv [] (set_bk b s) (start_pass c s).
Proof.
  intros [] Ho HF HC HT HI Hcalm Hd Hb. split; cbn; rewrite ?app_nil_r, ?Hb; try done.
  - intros r x Hr _ Hx. symmetry. by apply HC.
  - intros r x Hr Hx. destruct (se_run0 r x Hr Hx) as (? & ? & ?).
    split; try done; unfold granted; cbn; rewrite ?Z.add_0_r; try lia; try done. intros _. by apply (Ho r).
  - unfold handed. cbn. by rewrite Hd.
  - split; cbn; try done.
    + constructor.
    + unfold sum_scheduled. cbn. pose proof (cf_scheduled _ _ Hconf). split; [subst T; cbn; lia|destruct (_pause_state _); lia].
    + unfold sum_scheduled. cbn. pose proof (cf_batched _ _ Hconf). split; [subst I; unfold zlen; cbn; lia|lia].
    + apply Hconf.
    + split; [constructor|done].
    + by intros ? ? ? ?%elem_of_nil.
  - by intros r ?%elem_of_nil.
Qed.

Lemma inv_rest extra s s' p :
  inv extra s p → requests s' = requests s → rqs s' = rqs s → running s' = running s →
  num_waiting_for_streaming_input (bk s') = num_waiting_for_streaming_input (bk s) →
  kv_good (handed s') (kvm s') → kv_preserves (λ _, True) (kvm s) (kvm s') → enc_good (encm s') → inv extra s' p.
Proof.
  intros [] E1 E2 E3 E4 Hg Hk He. split; rewrite ?E1, ?E2, ?E3, ?E4; try done.
  - intros r x Hr Hx. eapply run_ok_keep; [by apply Hk|done|done|by apply iv_run0].
  - intros r x Hr Hn Hx. by eapply wait_ok_keep; [done| |by apply iv_wait0].
  - intros rid Hn. by apply Hk, iv_others0.
Qed.

Lemma planned_room s p : inv [] s p →
  zlen (scheduled_new_reqs p) + zlen (scheduled_resumed_reqs p) + zlen (scheduled_running_reqs p) ≤ zlen (running s).
Proof.
  intros Hi. assert (length (planned_reqs p) ≤ length (running s))%nat as Hl.
  { apply submseteq_length, NoDup_submseteq; [by eapply planned_nodup, iv_pass|]. apply (iv_sub _ _ _ Hi). }
  unfold planned_reqs in Hl. rewrite !length_app in Hl. unfold zlen. lia.
Qed.

Lemma checks_run s p : inv [] s p → T ≤ sc_max_scheduled c → check_constraints c p s = (Ok tt, s).
Proof.
  intros Hi HT. pose proof (planned_room _ _ Hi) as Hroom. pose proof (iv_pass _ _ _ Hi) as [? ? ? ? [? ?] [? ?] ? ?].
  pose proof (iv_max _ _ _ Hi). unfold check_constraints. run_step.
  do 4 erewrite bind_ok by (apply ensure_true; lia). apply ensure_true. lia.
Qed.

Lemma cow_run s bs fence :
  kv_good (handed s ++ bs) (kvm s) →
  ∃ s', _free_cow_retained_blocks c bs fence s = (Ok tt, s') ∧ requests s' = requests s ∧ rqs s' = rqs s ∧
    running s' = running s ∧ encm s' = encm s ∧ same_mode (bk s) (bk s') ∧ kv_good (handed s') (kvm s') ∧
    kv_preserves (λ _, True) (kvm s) (kvm s').
Proof.
  intros Hg. unfold _free_cow_retained_blocks. run_step. destruct (_ || _).
  - destruct (law_release _ (handed s) bs _ Hg) as (k' & Hrun & Hg' & Hk); [by rewrite Permutation_app_comm|].
    unfold on_kv. eexists. split; [by apply zoom_ok|]. done.
  - eexists. split; [done|]. split_and!; try done. unfold handed. cbn.
    eapply law_perm; [|exact Hg]. rewrite fmap_app, join_app. cbn. rewrite app_nil_r. by rewrite reverse_Permutation.
Qed.

(** The output has the data of each planned request. *)
Lemma mmap_total {St A B} (f : A → M St B) (l : list A) (t : St) : (∀ a, a ∈ l → ∃ y, f a t = (Ok y, t)) → ∃ ys, mmap f l t = (Ok ys, t).
Proof.
  induction l as [|a l IH]; intros Hl; [by exists []|]. destruct (Hl a) as [y Hy]; [by left|].
  destruct IH as [ys Hys]; [intros z Hz; apply Hl; by right|].
  exists (y :: ys). cbn [mmap]. by do 2 erewrite bind_ok by done.
Qed.

Lemma data_of_run extra s p r : inv extra s p → r ∈ planned_reqs p → ∃ d, data_of p r s = (Ok d, s).
Proof.
  intros Hi Hr. pose proof (iv_pass _ _ _ Hi) as Hp. unfold data_of, dpop_key.
  destruct (dget (request_id r) (req_to_new_blocks p)) as [bs|] eqn:Ed.
  - destruct (running_known _ _ _ _ Hi (iv_sub _ _ _ Hi r Hr)) as (x & Hx & _).
    erewrite bind_ok by done. erewrite bind_ok by by apply the_run. by eexists.
  - apply dget_None in Ed. destruct Ed. rewrite (po_blocks _ _ _ _ Hp), (po_keys _ _ _ _ Hp). by apply list_elem_of_fmap_2.
Qed.

Lemma make_output_run extra s p : inv extra s p → ∃ out, make_output c p s = (Ok out, s).
Proof.
  intros Hi. assert (Hd : ∀ r, r ∈ planned_reqs p → ∃ d, data_of p r s = (Ok d, s)) by (intros r; by eapply data_of_run).
  unfold planned_reqs in Hd. unfold make_output. set (resumed := if sc_v2_runner c then [] else _).
  match goal with |- context [mmap ?f ?l] => destruct (mmap_total f l s) as [news Hnews] end.
  { intros r Hr. destruct (Hd r) as [d Hrun]; [destruct (sc_v2_runner c); set_solver|].
    erewrite bind_ok by exact Hrun. by eexists. }
  erewrite bind_ok by exact Hnews.
  destruct (mmap_total (data_of p) (scheduled_running_reqs p ++ resumed) s) as [cached Hcached].
  { intros r Hr. apply Hd. unfold resumed in Hr. destruct (sc_v2_runner c); set_solver. }
  erewrite bind_ok by exact Hcached. by eexists.
Qed.

(** Each scheduled request moves on. *)
Lemma advance_run l s :
  NoDup l.*1 → (∀ e, e ∈ l → is_Some (requests s !! e.1)) →
  ∃ s', mfor l (advance_request c) s = (Ok tt, s') ∧ rqs s' = rqs s ∧ running s' = running s ∧ kvm s' = kvm s ∧
    encm s' = encm s ∧ deferred_frees (bk s') = deferred_frees (bk s) ∧ same_mode (bk s) (bk s') ∧
    ∀ rid, requests s' !! rid =
      match dget rid l with Some n => advance c n (sched_step_seq (bk s)) <$> requests s !! rid | None => requests s !! rid end.
Proof.
  revert s. induction l as [|[rid n] l IH]; intros s Hnd Hl; [by exists s|]. cbn in Hnd. apply NoDup_cons in Hnd as [Hrid Hnd].
  destruct (Hl (rid, n)) as [x Hx]; [by left|]. cbn in Hx. cbn [mfor].
  assert (∃ s1, advance_request c (rid, n) s = (Ok tt, s1) ∧ rqs s1 = rqs s ∧ running s1 = running s ∧ kvm s1 = kvm s ∧
    encm s1 = encm s ∧ deferred_frees (bk s1) = deferred_frees (bk s) ∧ same_mode (bk s) (bk s1) ∧
    requests s1 = <[rid := advance c n (sched_step_seq (bk s)) x]> (requests s)) as (s1 & Hrun & E1 & E2 & E3 & E4 & E5 & E6 & E7).
  { unfold advance_request. run_step. cbn [fst snd]. rewrite Hx. run_step. destruct (negb _); by eexists. }
  erewrite bind_ok by exact Hrun.
  destruct (IH s1 Hnd) as (s2 & -> & G1 & G2 & G3 & G4 & G5 & G6 & G7).
  { intros e He. rewrite E7. destruct (decide (e.1 = rid)) as [->|]; simplify_map_eq; [done|]. apply Hl. by right. }
  exists s2. split_and!; try congruence; [by trans (bk s1)|].
  intros rid'. rewrite G7. cbn. replace (sched_step_seq (bk s1)) with (sched_step_seq (bk s)) by (symmetry; apply E6). rewrite E7.
  case_decide; simplify_map_eq; [|done]. destruct (dget rid l) eqn:Ed; [by apply dget_Some_key in Ed|done].
Qed.

(** How the step treats the running requests. *)
Record order_kept s p s' : Prop := {
  ok_none : preempted_reqs p = [] → running s `prefix_of` running s';
  ok_some : preempted_reqs p ≠ [] →
    scheduled_new_reqs p = [] ∧ scheduled_resumed_reqs p = [] ∧
    service (waiting (rqs s')) = foldl (λ l r, prepended r l) (service (waiting (rqs s))) (preempted_reqs p) ∧
    skipped_waiting (rqs s') = skipped_waiting (rqs s) ∧
    running s ≡ₚ running s' ++ preempted_reqs p ∧ running s' `sublist_of` running s ∧
    if sc_priority c then ∀ v r, v ∈ preempted_reqs p → r ∈ running s' → ranks_below v r = false
    else running s = running s' ++ reverse (preempted_reqs p);
}.

Lemma order_kept_ext s p s1 s2 : order_kept s p s1 → rqs s2 = rqs s1 → running s2 = running s1 → order_kept s p s2.
Proof. intros [] E1 E2. by split; rewrite ?E1, ?E2. Qed.

Lemma sublist_perm_eq {A} (l k : list A) : l `sublist_of` k → k ≡ₚ l → l = k.
Proof.
  intros Hs Hp%Permutation_length. induction Hs as [|a l k Hs IH|a l k Hs IH]; [done| |]; cbn in Hp.
  - f_equal. apply IH. lia.
  - apply sublist_length in Hs. lia.
Qed.

Lemma plan_step_run throttle s :
  settled s → opened s → (∀ r, r ∈ all → fx <$> requests s !! request_id r = F r) → loras_fit (running s) →
  R0 = running s → (∀ r x, r ∈ running s → requests s !! request_id r = Some x → C r = r_computed (mv x)) →
  T = token_budget (start_pass c s) → I = sc_max_batched c →
  (quiet → ∀ r x, r ∈ all → requests s !! request_id r = Some x → calm x) →
  ∃ p s', plan_step c set_order throttle s = (Ok p, s') ∧ inv [] s' p ∧ order_kept s p s'.
Proof.
  intros Hs Ho HF Hfit HR HC HT HI Hcalm. unfold plan_step, on_bk. run_step. run_step.
  match goal with |- context [set_bk ?b0 s] => set (b := b0) end.
  assert (Hi : inv [] (set_bk b s) (start_pass c s)) by by apply start_inv.
  match goal with |- context [running_loop c set_order _ ?d 0] => set (dp := d) end.
  change (start_pass c (set_bk b s)) with (start_pass c s).
  destruct (running_loop_run (length (running s)) [] dp (set_bk b s) (start_pass c s) 0) as (vs & p1 & s1 & i1 & Hrun & Hes & Hi1 & Hcu);
    [cbn; lia|done|by split; [|intros r ?%elem_of_nil]|].
  erewrite bind_ok by exact Hrun.
  destruct (record_loras_run (running s) s1 p1 Hi1 Hfit) as (p2 & Hl & Hi2 & Hp2).
  { intros r Hr. eapply elem_of_sublist; [done|]. apply (es_order _ _ _ _ _ Hes). }
  erewrite bind_ok by exact Hl.
  assert (Hstay : preempted_reqs p2 = [] → ∀ r', r' ∈ R0 → r' ∈ running s1).
  { intros Hnone r' Hr'. pose proof (es_preempted _ _ _ _ _ Hes) as Hp1. cbn in Hp1. pose proof (es_running _ _ _ _ _ Hes) as Hperm.
    rewrite Hp2, Hp1 in Hnone. rewrite HR in Hr'. cbn in Hperm. by rewrite Hperm, Hnone, app_nil_r in Hr'. }
  destruct (schedule_waiting_run dp s1 p2 Hi2 Hstay) as (p3 & s3 & Hw & Hi3 & Hp3 & Hpre & Hsame).
  exists p3, s3. split; [done|]. split; [done|].
  pose proof (es_preempted _ _ _ _ _ Hes) as Hvs. cbn in Hvs.
  assert (Hadm : scheduled_new_reqs p2 = [] ∧ scheduled_resumed_reqs p2 = []).
  { revert Hl. unfold record_loras. destruct (sc_max_loras c).
    - run_step. unfold bind. destruct (ensure _ _ _) as [[]]; [|done]. intros [= <- _]. apply Hcu.
    - intros [= <-]. apply Hcu. }
  split.
  - intros Hnone. assert (vs = []) as -> by congruence. destruct Hes. cbn in *. rewrite app_nil_r in es_running0.
    replace (running s) with (running s1); [done|]. by apply sublist_perm_eq.
  - intros Hsome. rewrite Hp3 in Hsome. destruct (Hsame Hsome) as [-> ->].
    rewrite Hp2, Hvs. destruct Hes. cbn in *. split; [apply Hadm|]. split; [apply Hadm|]. done.
Qed.

(** The step ends with the requests advanced. *)
Lemma finish_step s s1 p :
  inv [] s1 p → rqs s = rqs s1 → running s = running s1 → kvm s = kvm s1 → encm s = encm s1 →
  deferred_frees (bk s) = deferred_frees (bk s1) →
  num_waiting_for_streaming_input (bk s) = num_waiting_for_streaming_input (bk s1) → (∃ seq, ∀ rid, requests s !! rid =
    match dget rid (num_scheduled_tokens p) with Some n => advance c n seq <$> requests s1 !! rid | None => requests s1 !! rid end) →
  settled s ∧ (∀ r, r ∈ all → fx <$> requests s !! request_id r = F r) ∧
  ∀ r x, r ∈ running s → r ∈ R0 → requests s !! request_id r = Some x → r_computed (mv x) = C r + granted p (request_id r).
Proof.
  intros Hi E1 E2 E3 E4 E5 E6 (seq & E7). pose proof Hi as [].
  assert (Hcase : ∀ r x', r ∈ all → requests s !! request_id r = Some x' → ∃ x, requests s1 !! request_id r = Some x ∧
    fx x' = fx x ∧ r_status (mv x') = r_status (mv x) ∧ r_computed (mv x') = r_computed (mv x) + granted p (request_id r) ∧
    (r ∉ running s1 → x' = x)).
  { intros r x' Hr. rewrite E7. unfold granted. destruct (dget (request_id r) _) as [n|] eqn:Ed.
    - destruct (requests s1 !! request_id r) as [x|]; [|done]. intros [= <-]. exists x. split_and!; try done.
      intros Hn. rewrite (planned_key _ _ _ _ Hi Hr) in Ed; [done|]. intros Hp. by apply Hn, iv_sub0.
    - intros Hx. exists x'. split_and!; try done. cbn. lia. }
  assert (Hknown : ∀ r, r ∈ all → ∃ x', requests s !! request_id r = Some x' ∧ req_fine r x').
  { intros r Hr. destruct (iv_known0 r Hr) as (x & Hx & Hf). rewrite E7, Hx.
    destruct (dget _ _); cbn; eexists; (split; [done|]); [by apply (req_fine_fx r x)|done]. }
  split.
  - split; rewrite ?E1, ?E2, ?E3, ?E4, ?E6; try done.
    + by rewrite app_nil_r in iv_perm0.
    + intros r x' Hr Hx'. destruct (Hcase r x') as (x & Hx & Hfx & Hst & Hc & _); [by eapply running_all|done|].
      destruct (iv_run0 r x Hr Hx). rewrite Hst, Hc. split; [done|]. split; [|done].
      assert (0 ≤ granted p (request_id r)); [|lia]. unfold granted. destruct (dget _ _) as [n|] eqn:Ed; [|done].
      apply (po_pos _ _ _ _ iv_pass0) in Ed. cbn. lia.
    + intros r x' Hr Hn Hx'. destruct (Hcase r x' Hr Hx') as (x & Hx & _ & _ & _ & Hsame).
      rewrite (Hsame Hn). by apply iv_wait0.
    + unfold handed. by rewrite E5.
    + intros rid Hrid. apply iv_dom0. rewrite E7 in Hrid. destruct (dget _ _); [by rewrite fmap_is_Some in Hrid|done].
  - split.
    + intros r Hr. destruct (Hknown r Hr) as (x' & Hx' & _). destruct (Hcase r x' Hr Hx') as (x & Hx & Hfx & _).
      rewrite <-iv_fixed0 by done. by rewrite Hx, Hx'; cbn; rewrite Hfx.
    + intros r x' Hr Hr0 Hx'. rewrite E2 in Hr. destruct (Hcase r x') as (x & Hx & _ & _ & Hc & _); [by eapply running_all|done|].
      rewrite Hc. f_equal. by apply iv_base0.
Qed.

Lemma schedule_run throttle s :
  settled s → opened s → (∀ r, r ∈ all → fx <$> requests s !! request_id r = F r) → loras_fit (running s) →
  R0 = running s → (∀ r x, r ∈ running s → requests s !! request_id r = Some x → C r = r_computed (mv x)) →
  T = token_budget (start_pass c s) → I = sc_max_batched c →
  (quiet → ∀ r x, r ∈ all → requests s !! request_id r = Some x → calm x) →
  ∃ p out freed s1 s', schedule c set_order throttle s = (Ok (p, out, freed), s') ∧ inv [] s1 p ∧ settled s' ∧
    (∀ r, r ∈ all → fx <$> requests s' !! request_id r = F r) ∧ order_kept s p s' ∧ running s' = running s1 ∧
    (∀ r x, r ∈ running s' → r ∈ R0 → requests s' !! request_id r = Some x → r_computed (mv x) = C r + granted p (request_id r)) ∧
    ∃ seq, ∀ rid, requests s' !! rid =
      match dget rid (num_scheduled_tokens p) with Some n => advance c n seq <$> requests s1 !! rid | None => requests s1 !! rid end.
Proof.
  intros Hs Ho HF Hfit HR HC HT HI Hcalm. unfold schedule.
  destruct (plan_step_run throttle s Hs Ho HF Hfit HR HC HT HI Hcalm) as (p & s1 & Hplan & Hi & Hok).
  erewrite bind_ok by exact Hplan. assert (T ≤ sc_max_scheduled c) as HT'.
  { rewrite HT. cbn. pose proof (cf_scheduled _ _ Hconf). destruct (_pause_state _); lia. }
  erewrite bind_ok by (by apply checks_run).
  destruct (make_output_run [] s1 p Hi) as [out Hout]. erewrite bind_ok by exact Hout.
  destruct (law_copies _ _ (iv_kv _ _ _ Hi)) as (copies & given & k1 & Hcop & Hg1 & Hgiven & Hk1).
  unfold on_kv at 1. erewrite bind_ok by (apply zoom_ok; exact Hcop). run_step. cbn [fst snd].
  assert (∃ s2, (when negb (bool_decide (copies = [])) do _free_cow_retained_blocks c given (sched_step_seq (bk s1) + 1))
    (set_kvm k1 s1) = (Ok tt, s2) ∧ requests s2 = requests s1 ∧ rqs s2 = rqs s1 ∧ running s2 = running s1 ∧
    encm s2 = encm s1 ∧ same_mode (bk s1) (bk s2) ∧ kv_good (handed s2) (kvm s2) ∧ kv_preserves (λ _, True) (kvm s1) (kvm s2))
    as (s2 & Hcow & A1 & A2 & A3 & A4 & A5 & A6 & A7).
  { case_bool_decide as Hno; cbn [negb].
    - exists (set_kvm k1 s1). split; [done|]. rewrite (Hgiven Hno), app_nil_r in Hg1. done.
    - destruct (cow_run (set_kvm k1 s1) given (sched_step_seq (bk s1) + 1) Hg1) as (s2 & Hrun & ? & ? & ? & ? & ? & ? & Hk2).
      exists s2. split_and!; try done. intros rid _. destruct (Hk1 rid), (Hk2 rid); try done. split; auto. }
  erewrite bind_ok by exact Hcow.
  destruct (law_freed (encm s2)) as (freed & e' & Hfreed & He'); [rewrite A4; apply Hi|].
  unfold on_enc. erewrite bind_ok by (apply zoom_ok; exact Hfreed).
  destruct (law_new_ids (handed s2) (kvm s2) A6) as (ids & k3 & Hids & Hg3 & Hk3).
  unfold on_kv. erewrite bind_ok by (apply zoom_ok; exact Hids).
  match goal with |- context [(bind (when ?b0 do on_bk ?f) _) ?s0] =>
    assert (∃ b', (when b0 do on_bk f) s0 = (Ok tt, set_bk b' s0) ∧ deferred_frees b' = deferred_frees (bk s2) ∧
      num_waiting_for_streaming_input b' = num_waiting_for_streaming_input (bk s2)) as (b' & Hseq & B1 & B2)
      by (destruct b0; [by eexists|exists (bk s2); by destruct s2]) end.
  erewrite bind_ok by exact Hseq.
  match type of Hseq with _ = (_, ?s0) => set (s4 := s0) in * end.
  assert (Hi4 : inv [] s4 p).
  { apply (inv_rest [] s1); try done; cbn.
    - rewrite B2. apply A5.
    - unfold handed in *. cbn. by rewrite B1.
    - intros rid _. destruct (A7 rid), (Hk3 rid); try done. split; auto. }
  destruct (advance_run (num_scheduled_tokens p) s4) as (s5 & Hadv & C1 & C2 & C3 & C4 & C5 & C6 & C7).
  { apply (po_dict _ _ _ _ (iv_pass _ _ _ Hi)). }
  { intros [rid n] He. apply (list_elem_of_fmap_2 fst) in He. fold (dkeys (num_scheduled_tokens p)) in He.
    rewrite (po_keys _ _ _ _ (iv_pass _ _ _ Hi4)) in He. apply list_elem_of_fmap in He as (r & Heq & Hr). cbn in *. subst rid.
    destruct (running_known _ _ _ _ Hi4 (iv_sub _ _ _ Hi4 r Hr)) as (x & Hx & _). by exists x. }
  set (s6 := set_bk (clear_sets (bk s5)) s5).
  assert (Hup : _update_after_schedule c (num_scheduled_tokens p) s4 = (Ok tt, s6)).
  { unfold _update_after_schedule. by erewrite bind_ok by exact Hadv. }
  erewrite bind_ok by exact Hup.
  destruct (finish_step s6 s4 p Hi4) as (Hset & HF' & HC'); try done; [apply C6|by eexists|].
  eexists p, _, freed, s4, s6. split; [done|]. split; [exact Hi4|]. split; [exact Hset|]. split; [exact HF'|].
  split; [|split; [exact C2|split; [exact HC'|by eexists]]].
  apply (order_kept_ext s p s1); [done|cbn; by rewrite C1|cbn; by rewrite C2].
Qed.
End Step.
