(* ===== verification/RequestUpdateSpec.v ===== *)
(** * What happens to requests between two steps

    [update_from_output], [finish_requests], [add_request] and
    [update_draft_token_ids] (RequestUpdate.v) against the interfaces of
    SchedulerInterfaces.v, for synchronous scheduling: the output of a step is
    processed before the next step.

    [sync_ok] is the invariant: [l] are the steps' tokens that are still in flight,
    with the draft tokens [drafts]; [run] and the queues hold the requests [all].  A
    request whose fields are being changed, or that is about to be freed, is
    checked out into [zs]. *)

From S2P Require Import Prelude PyData Float BlockHash BlockHasher SingleTypeManager KVCacheManager.
From S2P Require Import EncoderCache Heap RequestQueue StopConditions RequestScheduler SchedulerInterfaces.
From S2P Require Import RequestSchedulerSpec RequestUpdate.
From stdpp Require Import base gmap sets list strings.
From Stdlib Require Import ZArith Lia.
Open Scope Z_scope.

Notation request_id := RequestQueue.request_id.

(** ** Lists of requests *)
Lemma filter_none {A} `{EqDecision A} (l : list A) : filter (.∉ ([] : list A)) l = l.
Proof. apply filter_id. by intros x _ ?%elem_of_nil. Qed.

Lemma filter_split (X l : list req) : l ≡ₚ filter (.∉ X) l ++ filter (.∈ X) l.
Proof.
  induction l as [|r l IH]; [done|]. destruct (decide (r ∈ X)) as [Hr|Hr].
  - rewrite (filter_cons_False (.∉ X)) by auto. rewrite (filter_cons_True (.∈ X)) by done.
    by rewrite <-Permutation_middle, <-IH.
  - rewrite (filter_cons_True (.∉ X)) by done. rewrite (filter_cons_False (.∈ X)) by done. cbn. by rewrite <-IH.
Qed.

Lemma filter_out (P : req → Prop) `{∀ a : req, Decision (P a)} l : (∀ r, r ∈ l → ¬ P r) → filter P l = [].
Proof.
  induction l as [|r l IH]; intros Hl; [done|]. rewrite filter_cons_False by (apply Hl; by left).
  apply IH. intros y Hy. apply Hl. by right.
Qed.

Lemma filter_twice (X Y l : list req) : filter (.∉ Y) (filter (.∉ X) l) = filter (.∉ X ++ Y) l.
Proof.
  induction l as [|r l IH]; [done|]. destruct (decide (r ∈ X)) as [Hx|Hx].
  - rewrite (filter_cons_False (.∉ X)) by auto. rewrite (filter_cons_False (.∉ X ++ Y)) by set_solver. done.
  - rewrite (filter_cons_True (.∉ X)) by done. destruct (decide (r ∈ Y)) as [Hy|Hy].
    + rewrite (filter_cons_False (.∉ Y)) by auto. rewrite (filter_cons_False (.∉ X ++ Y)) by set_solver. done.
    + rewrite (filter_cons_True (.∉ Y)) by done. rewrite (filter_cons_True (.∉ X ++ Y)) by set_solver. by rewrite IH.
Qed.

Lemma filter_ext_in (X Y l : list req) : (∀ r, r ∈ l → r ∈ X ↔ r ∈ Y) → filter (.∉ X) l = filter (.∉ Y) l.
Proof.
  induction l as [|r l IH]; intros Hl; [done|]. assert (Hr : r ∈ X ↔ r ∈ Y) by (apply Hl; by left).
  assert (IH' : filter (.∉ X) l = filter (.∉ Y) l) by (apply IH; intros y Hy; apply Hl; by right).
  destruct (decide (r ∈ X)) as [Hx|Hx].
  - rewrite (filter_cons_False (.∉ X)) by auto. rewrite (filter_cons_False (.∉ Y)) by tauto. done.
  - rewrite (filter_cons_True (.∉ X)) by done. rewrite (filter_cons_True (.∉ Y)) by tauto. by rewrite IH'.
Qed.

Lemma filter_keep (X l : list req) : (∀ r, r ∈ l → r ∉ X) → filter (.∉ X) l = l.
Proof. intros Hl. by apply filter_id. Qed.

Lemma key_inj (l : list req) r r' : NoDup (request_id <$> l) → r ∈ l → r' ∈ l → request_id r = request_id r' → r = r'.
Proof. intros Hn. by apply all_inj. Qed.

Section Sync.
Context {K E Q : Type} `{KVLaws K} `{EncoderLaws E set_order} `{QueueLaws Q}.
Context (c : sconf) (Hconf : conf_ok (kv_limit (K := K)) c) (Hone : sc_sampled_per_step c = 1).
(** The LoRA adapters in use. *)
Context (adapters : gset Z).
Notation st := (rsched K E Q).
Implicit Types (s : st) (r : req) (x : sreq).

(** What holds of a request from [add_request] on. *)
Record entry_ok r x : Prop := {
  en_fine : req_fine c r x;
  en_prompt : num_prompt_tokens (sr_request (fx x)) ≤ sr_num_tokens x;
  en_room : sr_num_tokens x < sc_max_model_len c;
  en_lora : ∀ i, sr_lora (fx x) = Some i → i ∈ adapters;
}.

(** A running request, with the tokens and drafts it has in flight. *)
Record run_state (k : K) (flight : option Z) (drafts : list Z) r x : Prop := {
  rs_status : r_status (mv x) = RUNNING;
  rs_computed : 0 ≤ r_computed (mv x) ≤ sc_max_model_len c;
  rs_ready : kv_ready k (request_id r) (r_computed (mv x));
  rs_placeholders : r_placeholders (mv x) = 0;
  rs_stale : r_stale (mv x) = 0;
  rs_flight : match flight with
              | Some n => r_in_flight (mv x) = n ∧ zlen drafts = Z.max 0 (r_computed (mv x) - sr_num_tokens x)
              | None => r_in_flight (mv x) = 0 ∧ r_computed (mv x) ≤ sr_num_tokens x
              end;
}.

Definition held (k : K) (rid : string) : Prop := kv_idle k rid ∨ ∃ n, kv_ready k rid n.

(** A request that is checked out. *)
Record out_ok (k : K) r x : Prop := {
  oo_key : sr_key (fx x) = r;
  oo_id : req_id (sr_request (fx x)) = request_id r;
  oo_features : enc_req (request_id r) (sr_features (fx x));
  oo_prompt : 0 ≤ num_prompt_tokens (sr_request (fx x));
  oo_held : held k (request_id r);
}.

Record sync_ok (l : list (string * Z)) (drafts : list (string * list Z)) (run zs all : list req) s : Prop := {
  sy_nodup : NoDup (request_id <$> all ++ zs);
  sy_queues : queue_ok (waiting (rqs s)) ∧ queue_ok (skipped_waiting (rqs s));
  sy_perm : run ++ service (waiting (rqs s)) ++ service (skipped_waiting (rqs s)) ≡ₚ all;
  sy_known : ∀ r, r ∈ all → ∃ x, requests s !! request_id r = Some x ∧ entry_ok r x;
  sy_run : ∀ r x, r ∈ run → requests s !! request_id r = Some x →
    run_state (kvm s) (dget (request_id r) l) (default [] (dget (request_id r) drafts)) r x;
  sy_wait : ∀ r x, r ∈ all → r ∉ run → requests s !! request_id r = Some x →
    wait_ok (kvm s) r x ∧ calm x ∧ dget (request_id r) l = None;
  sy_zombies : ∀ r, r ∈ zs → ∃ x, requests s !! request_id r = Some x ∧ out_ok (kvm s) r x;
  sy_kv : kv_good (handed s) (kvm s);
  sy_enc : enc_good (encm s);
  sy_max : zlen run ≤ sc_max_running c;
  sy_stream : 0 ≤ num_waiting_for_streaming_input (bk s);
  sy_dom : ∀ rid, is_Some (requests s !! rid) → rid ∈ request_id <$> all ++ zs;
  sy_others : ∀ rid, rid ∉ request_id <$> all ++ zs → kv_idle (kvm s) rid;
}.

(** A key of the list that is not checked out. *)
Lemma other_key l drafts run zs all s r r' :
  sync_ok l drafts run zs all s → r ∈ all ++ zs → r' ∈ all ++ zs → r ≠ r' → request_id r ≠ request_id r'.
Proof. intros Hs Hr Hr' Hne Heq. by apply Hne, (key_inj (all ++ zs)); [apply Hs| | |]. Qed.

Lemma run_in_all l drafts run zs all s r : sync_ok l drafts run zs all s → r ∈ run → r ∈ all.
Proof. intros Hs Hr. rewrite <-(sy_perm _ _ _ _ _ _ Hs). by apply elem_of_app; left. Qed.

Lemma run_nodup l drafts run zs all s : sync_ok l drafts run zs all s → NoDup run.
Proof.
  intros Hs. pose proof (sy_nodup _ _ _ _ _ _ Hs) as Hn. apply NoDup_fmap_1 in Hn. apply NoDup_app in Hn as [Hn _].
  rewrite <-(sy_perm _ _ _ _ _ _ Hs) in Hn. by apply NoDup_app in Hn as [? _].
Qed.

(** A request of [all] has its entry, which is held. *)
Lemma entry_held l drafts run zs all s r :
  sync_ok l drafts run zs all s → r ∈ all → ∃ x, requests s !! request_id r = Some x ∧ entry_ok r x ∧ held (kvm s) (request_id r).
Proof.
  intros Hs Hr. destruct (sy_known _ _ _ _ _ _ Hs r Hr) as (x & Hx & He). exists x. split; [done|]. split; [done|].
  destruct (decide (r ∈ run)) as [Hrun|Hrun].
  - right. eexists. by apply (rs_ready _ _ _ _ _ (sy_run _ _ _ _ _ _ Hs r x Hrun Hx)).
  - destruct (sy_wait _ _ _ _ _ _ Hs r x Hr Hrun Hx) as (Hw & _).
    destruct (decide (r_computed (mv x) = 0)); [left; by apply Hw|]. right. eexists. apply Hw. pose proof (wo_computed _ _ _ Hw). lia.
Qed.

Lemma entry_out k r x : entry_ok r x → held k (request_id r) → out_ok k r x.
Proof. intros [[] ? ? ?] Hk. by split. Qed.

(** *** Checking requests out *)
Lemma check_out (X : list req) qs l l' drafts run zs zs' all s :
  sync_ok l drafts run zs all s → (∀ r, r ∈ X → r ∈ all) →
  queue_ok (waiting qs) → queue_ok (skipped_waiting qs) →
  service (waiting qs) = filter (.∉ X) (service (waiting (rqs s))) →
  service (skipped_waiting qs) = filter (.∉ X) (service (skipped_waiting (rqs s))) →
  zs' ≡ₚ filter (.∈ X) all ++ zs →
  (∀ r, r ∈ all → r ∉ X → dget (request_id r) l' = dget (request_id r) l) →
  sync_ok l' drafts (filter (.∉ X) run) zs' (filter (.∉ X) all) (set_rqs qs s).
Proof.
  intros Hs HX Hw Hk Ew Ek Hz Hl. assert (Hids : request_id <$> filter (.∉ X) all ++ zs' ≡ₚ request_id <$> all ++ zs).
  { apply fmap_Permutation. rewrite Hz, app_assoc. by rewrite <-(filter_split X all). }
  pose proof Hs as []. split; cbn -[fmap]; try done.
  - by rewrite Hids.
  - rewrite Ew, Ek, <-!filter_app. by rewrite sy_perm0.
  - intros r [_ Hr]%list_elem_of_filter. by apply sy_known0.
  - intros r x [Hn Hr]%list_elem_of_filter Hx. rewrite Hl; [by apply sy_run0|by eapply run_in_all|done].
  - intros r x [Hn Hr]%list_elem_of_filter Hnr Hx. rewrite Hl by done. apply sy_wait0; [done| |done].
    intros Hr'. apply Hnr. by apply list_elem_of_filter.
  - intros r Hr. rewrite Hz in Hr. apply elem_of_app in Hr as [[_ Hr]%list_elem_of_filter|Hr]; [|by apply sy_zombies0].
    destruct (entry_held _ _ _ _ _ _ _ Hs Hr) as (x & Hx & He & Hh). exists x. split; [done|]. by apply entry_out.
  - assert (length (filter (.∉ X) run) ≤ length run)%nat by apply length_filter. unfold zlen in *. lia.
  - intros rid. rewrite Hids. apply sy_dom0.
  - intros rid. rewrite Hids. apply sy_others0.
Qed.

(** One running request; the queues do not hold it. *)
Lemma check_out_one l l' drafts run all s r :
  sync_ok l drafts run [] all s → r ∈ run → (∀ rid, rid ≠ request_id r → dget rid l' = dget rid l) →
  sync_ok l' drafts (filter (.∉ [r]) run) [r] (filter (.∉ [r]) all) s.
Proof.
  intros Hs Hr Hl. pose proof (run_in_all _ _ _ _ _ _ _ Hs Hr) as Hra.
  pose proof (sy_nodup _ _ _ _ _ _ Hs) as Hnd. rewrite app_nil_r in Hnd. pose proof (NoDup_fmap_1 _ _ Hnd) as Hall.
  assert (Hq : ∀ r', r' ∈ service (waiting (rqs s)) ++ service (skipped_waiting (rqs s)) → r' ∉ [r]).
  { intros r' Hr' ->%list_elem_of_singleton. rewrite <-(sy_perm _ _ _ _ _ _ Hs) in Hall. apply NoDup_app in Hall as (_ & Hd & _).
    by apply (Hd r). }
  replace s with (set_rqs (rqs s) s) by by destruct s.
  apply (check_out [r] (rqs s) l l' drafts run [] [r] all s); try done.
  - by intros r' ->%list_elem_of_singleton.
  - apply Hs.
  - apply Hs.
  - symmetry. apply filter_id. intros. apply Hq. set_solver.
  - symmetry. apply filter_id. intros. apply Hq. set_solver.
  - rewrite app_nil_r. apply list_elem_of_split in Hra as (l1 & l2 & ->). apply NoDup_app in Hall as (_ & Hd & Hn).
    apply NoDup_cons in Hn as [Hn _]. rewrite filter_app, filter_cons_True by (by left).
    rewrite !filter_out; [done| |].
    + intros y Hy ->%list_elem_of_singleton. done.
    + intros y Hy ->%list_elem_of_singleton. apply (Hd r); [done|by left].
  - intros r' Hr' Hn. apply Hl. intros Heq. apply Hn, list_elem_of_singleton. by apply (key_inj all).
Qed.

(** *** A checked-out request *)

(** Its entry changes. *)
Lemma touch l drafts run zs all s s' r x' :
  sync_ok l drafts run zs all s → r ∈ zs → requests s' = <[request_id r := x']> (requests s) → out_ok (kvm s) r x' →
  kvm s' = kvm s → rqs s' = rqs s → enc_good (encm s') → deferred_frees (bk s') = deferred_frees (bk s) →
  num_waiting_for_streaming_input (bk s') = num_waiting_for_streaming_input (bk s) → sync_ok l drafts run zs all s'.
Proof.
  intros Hs Hr Hreqs Ho Hk Hq He Hd Hw. pose proof Hs as [].
  assert (Hother : ∀ r', r' ∈ all → requests s' !! request_id r' = requests s !! request_id r').
  { intros r' Hr'. rewrite Hreqs, lookup_insert_ne; [done|]. eapply other_key; [done|set_solver..|]. intros ->.
    rewrite fmap_app in sy_nodup0. apply NoDup_app in sy_nodup0 as (_ & Hdis & _).
    by apply (Hdis (request_id r')); apply list_elem_of_fmap_2. }
  split; rewrite ?Hk, ?Hq, ?Hw; try done.
  - intros r' Hr'. rewrite Hother by done. by apply sy_known0.
  - intros r' x Hr'. rewrite Hother by by eapply run_in_all. by apply sy_run0.
  - intros r' x Hr' Hn. rewrite Hother by done. by apply sy_wait0.
  - intros r' Hr'. rewrite Hreqs. destruct (decide (r' = r)) as [->|Hne].
    + exists x'. by rewrite lookup_insert_eq.
    + rewrite lookup_insert_ne; [by apply sy_zombies0|]. eapply other_key; [done|set_solver..|done].
  - unfold handed. by rewrite Hd.
  - intros rid. rewrite Hreqs, lookup_insert_is_Some. intros [<-|[_ ?]]; [|by apply sy_dom0].
    apply list_elem_of_fmap_2. set_solver.
Qed.

(** It runs on. *)
Lemma check_in l0 l drafts run all s0 s r x' :
  sync_ok l0 drafts run [] all s0 → r ∈ run → rqs s = rqs s0 →
  sync_ok l drafts (filter (.∉ [r]) run) [r] (filter (.∉ [r]) all) s →
  requests s !! request_id r = Some x' → entry_ok r x' →
  run_state (kvm s) (dget (request_id r) l) (default [] (dget (request_id r) drafts)) r x' →
  sync_ok l drafts run [] all s.
Proof.
  intros H0' Hr Hq Hs Hx He Hrun. pose proof (run_in_all _ _ _ _ _ _ _ H0' Hr) as Hra.
  assert (Hids : request_id <$> all ++ [] ≡ₚ request_id <$> filter (.∉ [r]) all ++ [r]).
  { rewrite app_nil_r. apply fmap_Permutation. rewrite (filter_split [r] all) at 1. f_equiv.
    pose proof (sy_nodup _ _ _ _ _ _ H0') as Hnd. rewrite app_nil_r in Hnd. apply NoDup_fmap_1 in Hnd.
    apply NoDup_Permutation; [by apply NoDup_filter|apply NoDup_singleton|]. intros y. rewrite list_elem_of_filter.
    rewrite list_elem_of_singleton. split; [by intros [? _]|]. by intros ->. }
  assert (Hin : ∀ r', r' ∈ all → r' ≠ r → r' ∈ filter (.∉ [r]) all).
  { intros r' Hr' Hne. apply list_elem_of_filter. split; [by intros ->%list_elem_of_singleton|done]. }
  assert (Hin' : ∀ r', r' ∈ run → r' ≠ r → r' ∈ filter (.∉ [r]) run).
  { intros r' Hr' Hne. apply list_elem_of_filter. split; [by intros ->%list_elem_of_singleton|done]. }
  destruct Hs. split; rewrite ?Hq; try done.
  - rewrite Hids. done.
  - apply H0'.
  - apply H0'.
  - intros r' Hr'. destruct (decide (r' = r)) as [->|Hne]; [by exists x'|]. by apply sy_known0, Hin.
  - intros r' x Hr' Hx'. destruct (decide (r' = r)) as [->|Hne]; [|by apply sy_run0; [apply Hin'|]].
    rewrite Hx in Hx'. by injection Hx' as <-.
  - intros r' x Hr' Hn Hx'. assert (r' ≠ r) by (by intros ->). apply sy_wait0; [by apply Hin| |done].
    intros Hf. apply Hn. by apply list_elem_of_filter in Hf as [_ ?].
  - by intros r' ?%elem_of_nil.
  - apply H0'.
  - intros rid. rewrite Hids. apply sy_dom0.
  - intros rid. rewrite Hids. apply sy_others0.
Qed.

(** It is freed. *)
Record freed_of r s s' : Prop := {
  fr_requests : requests s' = delete (request_id r) (requests s);
  fr_rqs : rqs s' = rqs s;
  fr_running : running s' = running s;
  fr_good : kv_good (handed s') (kvm s');
  fr_keeps : kv_preserves (.≠ request_id r) (kvm s) (kvm s');
  fr_idle : kv_idle (kvm s') (request_id r);
  fr_enc : enc_good (encm s');
  fr_mode : same_mode (bk s) (bk s');
}.

Lemma free_request_run r x s :
  requests s !! request_id r = Some x → is_finished (r_status (mv x)) = true → out_ok (kvm s) r x →
  kv_good (handed s) (kvm s) → enc_good (encm s) →
  ∃ s', _free_request c set_order r false s = (Ok tt, s') ∧ freed_of r s s'.
Proof.
  intros Hx Hst [Hkey Hid Hf Hp Hh] Hg He. unfold _free_request. erewrite bind_ok by by apply the_run.
  erewrite bind_ok by (by apply ensure_true). unfold on_bk at 1. run_step.
  destruct (law_drop_skipped (handed s) (kvm s) (request_id r) (Z.max 0 (r_computed (mv x) - r_in_flight (mv x)))
    (num_prompt_tokens (sr_request (fx x))) Hg Hh Hp) as (k1 & Hdrop & Hg1 & Hk1).
  unfold on_kv at 1. erewrite bind_ok by (apply zoom_ok; exact Hdrop).
  destruct (law_enc_free (encm s) (enc_view x) He) as (e' & Hfree & He' & _); [cbn; by rewrite Hid|].
  unfold on_enc. erewrite bind_ok by (apply zoom_ok; exact Hfree). unfold on_bk at 1. run_step. cbn [negb].
  match goal with |- context [(_ >> _) ?s0] => set (s2 := s0) end.
  destruct (free_request_blocks_run c r x s2 Hx Hid Hg1) as (k2 & d2 & Hrun & Hg2 & Hk2 & Hi2).
  erewrite bind_ok by exact Hrun. eexists. split; [reflexivity|]. split; cbn; try done.
  intros rid Hne. destruct (Hk1 rid Hne), (Hk2 rid Hne). split; auto.
Qed.

Lemma reap l drafts run zs all s s' r :
  sync_ok l drafts run (r :: zs) all s → freed_of r s s' → sync_ok l drafts run zs all s'.
Proof.
  intros Hs []. pose proof Hs as [].
  assert (Hne : ∀ r', r' ∈ all ++ zs → request_id r' ≠ request_id r).
  { intros r' Hr' Heq. rewrite <-Permutation_middle in sy_nodup0. cbn in sy_nodup0. apply NoDup_cons in sy_nodup0 as [Hn _].
    apply Hn. rewrite <-Heq. by apply list_elem_of_fmap_2. }
  assert (Hlook : ∀ r', r' ∈ all ++ zs → requests s' !! request_id r' = requests s !! request_id r').
  { intros r' Hr'. rewrite fr_requests0, lookup_delete_ne; [done|]. symmetry. by apply Hne. }
  assert (Hids : ∀ rid, rid ∈ request_id <$> all ++ r :: zs ↔ rid = request_id r ∨ rid ∈ request_id <$> all ++ zs).
  { intros rid. rewrite <-Permutation_middle. cbn. by rewrite elem_of_cons. }
  split; rewrite ?fr_rqs0; try done.
  - rewrite <-Permutation_middle in sy_nodup0. cbn in sy_nodup0. by apply NoDup_cons in sy_nodup0 as [_ ?].
  - intros r' Hr'. rewrite Hlook by set_solver. by apply sy_known0.
  - intros r' x Hr'. pose proof (run_in_all _ _ _ _ _ _ _ Hs Hr'). rewrite Hlook by set_solver. intros Hx.
    destruct (sy_run0 r' x Hr' Hx). split; try done. apply fr_keeps0; [|done]. apply Hne. set_solver.
  - intros r' x Hr' Hn. rewrite Hlook by set_solver. intros Hx. destruct (sy_wait0 r' x Hr' Hn Hx) as (Hw & ? & ?).
    split; [|done]. eapply wait_ok_keep; [done| |done]. apply Hne. set_solver.
  - intros r' Hr'. rewrite Hlook by set_solver. destruct (sy_zombies0 r') as (x & Hx & []); [by right|].
    exists x. split; [done|]. split; try done. assert (request_id r' ≠ request_id r) as Hn by (apply Hne; set_solver).
    destruct (fr_keeps0 _ Hn) as [Hk1 Hk2]. destruct oo_held0 as [?|[n ?]]; [left; auto|right; exists n; auto].
  - destruct fr_mode0 as (_ & _ & _ & _ & _ & Hw). by rewrite Hw.
  - intros rid [x Hx]. rewrite fr_requests0 in Hx. apply lookup_delete_Some in Hx as [Hn Hx].
    destruct (proj1 (Hids rid)) as [->|?]; [by apply sy_dom0|done|done].
  - intros rid Hn. destruct (decide (rid = request_id r)) as [->|Hne']; [done|].
    apply fr_keeps0; [done|]. apply sy_others0. rewrite Hids. by intros [?|?].
Qed.

(** *** Tokens are appended *)
Context (block_hasher : option (BlockHasher.Request → result (list bytes))).
Context (Hhash : ∀ h y, block_hasher = Some h → ∃ hs, h y = Ok hs).

(** Only the tokens and their hashes grew. *)
Record appended (ts : list Z) (a a' : fixed_part) : Prop := {
  ap_tokens : all_token_ids (sr_request a') = all_token_ids (sr_request a) ++ ts;
  ap_id : req_id (sr_request a') = req_id (sr_request a);
  ap_prompt : num_prompt_tokens (sr_request a') = num_prompt_tokens (sr_request a);
  ap_key : sr_key a' = sr_key a;
  ap_features : sr_features a' = sr_features a;
  ap_lora : sr_lora a' = sr_lora a;
  ap_max : sr_max_tokens a' = sr_max_tokens a;
  ap_sampling : sr_sampling a' = sr_sampling a;
}.

Lemma appended_nil a : appended [] a a.
Proof. split; try done. by rewrite app_nil_r. Qed.

Lemma appended_trans ts ts' a a' a'' : appended ts a a' → appended ts' a' a'' → appended (ts ++ ts') a a''.
Proof. intros [] []. split; [|congruence..]. by rewrite ap_tokens1, ap_tokens0, app_assoc. Qed.

Lemma appended_count ts x x' : appended ts (fx x) (fx x') → sr_num_tokens x' = sr_num_tokens x + zlen ts.
Proof. intros []. unfold sr_num_tokens, num_tokens. by rewrite ap_tokens0, zlen_app. Qed.

Lemma append_one_run t x : ∃ y, append_output_token_ids block_hasher t (sr_request (fx x)) = Ok y ∧
  appended [t] (fx x) (fx (with_request (λ _, y) x)) ∧ mv (with_request (λ _, y) x) = mv x.
Proof.
  unfold append_output_token_ids. destruct block_hasher as [h|] eqn:Eh.
  - destruct (Hhash h (with_tokens (all_token_ids (sr_request (fx x)) ++ [t]) (sr_request (fx x))) eq_refl) as [hs ->].
    eexists. split; [done|]. by split.
  - eexists. split; [done|]. by split.
Qed.

(** The request would stop after these new tokens. *)
Definition stops_at (sp : sampling) x (ts : list Z) : Prop :=
  must_stop sp (drop (Z.to_nat (num_prompt_tokens (sr_request (fx x)))) (all_token_ids (sr_request (fx x)) ++ ts))
    (sr_num_tokens x + zlen ts) (sr_max_tokens (fx x)) (sc_max_model_len c).

Lemma stops_at_app sp x x' ts ts' : appended ts (fx x) (fx x') → stops_at sp x (ts ++ ts') ↔ stops_at sp x' ts'.
Proof.
  intros Ha. pose proof (appended_count _ _ _ Ha) as Hn. destruct Ha. unfold stops_at.
  by rewrite ap_tokens0, ap_prompt0, ap_max0, Hn, zlen_app, app_assoc, Z.add_assoc.
Qed.

(** The tokens up to the first stop. *)
Record kept_until_stop sp x (g kept : list Z) (stopped : bool) : Prop := {
  ks_prefix : kept `prefix_of` g;
  ks_all : stopped = false → kept = g;
  ks_stop : stopped = true → kept ≠ [] ∧ stops_at sp x kept;
  ks_before : ∀ ts, ts `prefix_of` kept → ts ≠ [] → ts ≠ kept ∨ stopped = false → ¬ stops_at sp x ts;
}.

Lemma kept_cons sp x x' t g kept stopped :
  appended [t] (fx x) (fx x') → ¬ stops_at sp x [t] → kept_until_stop sp x' g kept stopped →
  kept_until_stop sp x (t :: g) (t :: kept) stopped.
Proof.
  intros Ha Hno []. split.
  - by apply prefix_cons.
  - intros Hf. by rewrite ks_all0.
  - intros Ht. destruct (ks_stop0 Ht) as [_ Hs]. split; [done|]. by apply (stops_at_app sp x x' [t] kept Ha).
  - intros ts Hp Hne Hor. destruct ts as [|t' ts]; [done|]. apply prefix_cons_inv_1 in Hp as Heq. subst t'.
    apply prefix_cons_inv_2 in Hp. destruct ts as [|t2 ts]; [done|].
    change (t :: t2 :: ts) with ([t] ++ t2 :: ts). rewrite (stops_at_app sp x x' [t] _ Ha). apply ks_before0; [done|done|].
    destruct Hor as [Hor|]; [left|by right]. congruence.
Qed.

Lemma deliver_run r x s sp g :
  requests s !! request_id r = Some x → sr_sampling (fx x) = Some sp →
  0 ≤ num_prompt_tokens (sr_request (fx x)) ≤ sr_num_tokens x →
  ∃ kept stop x', _update_request_with_output c block_hasher r g s
      = (Ok (kept, stop), set_requests (<[request_id r := x']> (requests s)) s) ∧
    appended kept (fx x) (fx x') ∧
    kept_until_stop sp x g kept (match stop with Some _ => true | None => false end) ∧
    match stop with
    | None => mv x' = mv x
    | Some _ => ∃ status, is_finished status = true ∧ mv x' = set_status status (mv x)
    end.
Proof.
  revert s x. induction g as [|t g IH]; intros s x Hx Hsp Hp.
  { exists [], None, x. split; [cbn; rewrite insert_id by done; by destruct s|].
    split; [apply appended_nil|]. split; [|done]. split; try done. by intros ts ->%prefix_nil_inv. }
  cbn [_update_request_with_output]. erewrite bind_ok by by apply the_run.
  destruct (append_one_run t x) as (x1r & Happ & Ha & Hmv). rewrite Happ. unfold bind at 1, lift at 1.
  set (x1 := with_request (λ _, x1r) x) in *.
  assert (Hput : put_request r x1r s = (Ok tt, set_requests (<[request_id r := x1]> (requests s)) s)).
  { unfold put_request, modify. do 2 f_equal. apply map_eq. intros rid.
    destruct (decide (rid = request_id r)) as [->|]; simplify_map_eq; done. }
  erewrite bind_ok by exact Hput.
  change x1r with (sr_request (fx x1)). pose proof (appended_count _ _ _ Ha) as Hn1.
  assert (Hne : output_token_ids (sr_request (fx x1)) ≠ []).
  { unfold output_token_ids. rewrite (ap_prompt _ _ _ Ha), (ap_tokens _ _ _ Ha). intros Hnil%(f_equal length).
    rewrite length_drop, length_app in Hnil. cbn in Hnil. unfold sr_num_tokens, num_tokens, zlen in Hp. lia. }
  destruct (check_stop_run sp _ (num_tokens (sr_request (fx x1))) (sr_max_tokens (fx x)) (sc_max_model_len c) Hne)
    as (res & Hcs & Hstop & Hfin).
  assert (Hiff : is_Some res ↔ stops_at sp x [t]).
  { rewrite Hstop. unfold stops_at, output_token_ids. change (num_tokens (sr_request (fx x1))) with (sr_num_tokens x1).
    by rewrite Hn1, (ap_prompt _ _ _ Ha), (ap_tokens _ _ _ Ha). }
  unfold bind at 1, lift at 1. rewrite Hsp, Hcs. destruct res as [[status why]|].
  - set (s1 := set_requests (<[request_id r:=x1]> (requests s)) s).
    assert (Hx1 : requests s1 !! request_id r = Some x1) by (cbn; by rewrite lookup_insert_eq).
    rewrite (bind_ok _ _ _ _ _ (put_run r x1 (set_status status) s1 Hx1)).
    exists [t], (Some why), (SR (fx x1) (set_status status (mv x1))). split.
    { unfold ret, s1, set_requests. cbn. by rewrite insert_insert_eq. }
    split; [exact Ha|]. split; [|exists status; split; [by eapply Hfin|by rewrite Hmv]].
    split; try done.
    + exists g. done.
    + intros _. split; [done|]. apply Hiff. by eexists.
    + intros ts Hpre Hts [Hneq|]; [|done]. destruct ts as [|t' ts]; [done|].
      apply prefix_cons_inv_1 in Hpre as Heq. subst t'. apply prefix_cons_inv_2, prefix_nil_inv in Hpre. by subst ts.
  - set (s1 := set_requests (<[request_id r:=x1]> (requests s)) s).
    destruct (IH s1 x1) as (kept & stop & x2 & Hrun & Ha2 & Hk & Hm).
    { cbn. by rewrite lookup_insert_eq. }
    { by rewrite (ap_sampling _ _ _ Ha). }
    { rewrite (ap_prompt _ _ _ Ha), Hn1. unfold zlen. cbn. lia. }
    erewrite bind_ok by exact Hrun. cbn [fst snd]. exists (t :: kept), stop, x2. split.
    { unfold ret, s1, set_requests. cbn. by rewrite insert_insert_eq. }
    split; [by apply (appended_trans [t] kept _ _ _ Ha)|]. split; [|by rewrite Hmv in Hm].
    eapply kept_cons; [exact Ha| |exact Hk]. intros Hs. apply Hiff in Hs as [? ?]. done.
Qed.

Lemma stop_request_run r x s g b :
  requests s !! request_id r = Some x → 0 ≤ num_prompt_tokens (sr_request (fx x)) ≤ sr_num_tokens x →
  (sr_sampling (fx x) = None → g = []) →
  ∃ kept stop x', stop_request c block_hasher r x g b s = (Ok (kept, stop), set_requests (<[request_id r := x']> (requests s)) s) ∧
    appended kept (fx x) (fx x') ∧
    match stop with
    | None => kept = g ∧ mv x' = mv x ∧ (g ≠ [] → sr_num_tokens x' < sc_max_model_len c)
    | Some _ => ∃ status, is_finished status = true ∧ mv x' = set_status status (mv x)
    end.
Proof.
  intros Hx Hp Hg. assert (Hsame : set_requests (<[request_id r := x]> (requests s)) s = s).
  { rewrite insert_id by done. by destruct s. }
  unfold stop_request. case_bool_decide as Hne; cbn [negb].
  - subst g. assert (Hpool : ∃ (kept : list Z) (stop : option (option stop_reason)) x', (put r (set_status FINISHED_STOPPED) >> ret ([], Some None)) s
      = (Ok (kept, stop), set_requests (<[request_id r := x']> (requests s)) s) ∧ appended kept (fx x) (fx x') ∧
      match stop with
      | None => kept = [] ∧ mv x' = mv x ∧ (@nil Z ≠ [] → sr_num_tokens x' < sc_max_model_len c)
      | Some _ => ∃ status, is_finished status = true ∧ mv x' = set_status status (mv x)
      end).
    { rewrite (bind_ok _ _ _ _ _ (put_run r x (set_status FINISHED_STOPPED) s Hx)).
      eexists [], (Some None), _. split; [reflexivity|]. split; [apply appended_nil|]. by exists FINISHED_STOPPED. }
    destruct (_ && b); [done|]. destruct (_ && _); [done|].
    exists [], None, x. rewrite Hsame. split; [done|]. split; [apply appended_nil|done].
  - destruct (sr_sampling (fx x)) as [sp|] eqn:Esp; [|by specialize (Hg eq_refl)].
    destruct (deliver_run r x s sp g Hx Esp Hp) as (kept & stop & x' & Hrun & Ha & Hk & Hm).
    exists kept, stop, x'. split; [done|]. split; [done|]. destruct stop as [why|]; [done|].
    pose proof (ks_all _ _ _ _ _ Hk eq_refl) as ->. split; [done|]. split; [done|]. intros _.
    rewrite (appended_count _ _ _ Ha). destruct (Z.lt_ge_cases (sr_num_tokens x + zlen g) (sc_max_model_len c)); [done|].
    exfalso. apply (ks_before _ _ _ _ _ Hk g); [done|done|by right|]. right; right; by left.
Qed.

(** Rejected drafts are taken back. *)
Lemma reject_run r x s (d : option (list Z)) g :
  requests s !! request_id r = Some x → 0 < sr_num_tokens x →
  zlen (default [] d) = Z.max 0 (r_computed (mv x) - sr_num_tokens x) →
  (r_computed (mv x) < sr_num_tokens x → g = []) → zlen g ≤ 1 + zlen (default [] d) → (g = [] → default [] d = []) →
  ∃ x', (match rejected_drafts c d g with Some k => when negb false do put r (reject_drafts k) | None => ret tt end) s
      = (Ok tt, set_requests (<[request_id r := x']> (requests s)) s) ∧
    fx x' = fx x ∧ r_status (mv x') = r_status (mv x) ∧ r_in_flight (mv x') = r_in_flight (mv x) ∧
    r_stale (mv x') = r_stale (mv x) ∧ (r_placeholders (mv x) = 0 → r_placeholders (mv x') = 0) ∧
    r_spec_token_ids (mv x') = r_spec_token_ids (mv x) ∧ r_computed (mv x') ≤ r_computed (mv x) ∧
    (g = [] → r_computed (mv x') = r_computed (mv x) ∧ r_computed (mv x) ≤ sr_num_tokens x) ∧
    (g ≠ [] → r_computed (mv x') = sr_num_tokens x + zlen g - 1).
Proof.
  intros Hx Hpos Hd Hpre Hle Hno. assert (Hsame : set_requests (<[request_id r := x]> (requests s)) s = s).
  { rewrite insert_id by done. by destruct s. }
  unfold rejected_drafts. cbv zeta. rewrite Hone. cbn [Z.eqb negb].
  case_bool_decide as Ed; cbn [orb].
  { exists x. rewrite Hsame. split; [done|]. rewrite Ed in *. split_and!; try done; [|unfold zlen in Hle |- *; cbn in *].
    - intros _. split; [done|]. unfold zlen in Hd. cbn in Hd. lia.
    - intros Hg. assert (length g ≠ 0%nat) by (by destruct g). destruct (Z.lt_ge_cases (r_computed (mv x)) (sr_num_tokens x)) as [Hlt|].
      + by specialize (Hpre Hlt).
      + unfold zlen in Hd. cbn in Hd. lia. }
  case_bool_decide as Eg; cbn [andb]; [by specialize (Hno Eg)|].
  rewrite (put_run r x) by done. eexists. split; [reflexivity|]. cbn.
  assert (length g ≠ 0%nat) by (by destruct g). assert (zlen (default [] d) ≠ 0) by (unfold zlen; by destruct (default [] d)).
  assert (1 ≤ zlen g) by (unfold zlen; lia).
  split_and!; try done.
  - by intros ->.
  - destruct (Z.ltb_spec 0 (r_computed (mv x))); lia.
  - intros _. destruct (Z.ltb_spec 0 (r_computed (mv x))); lia.
Qed.

(** *** One request of an output *)
Context (mro : ModelRunnerOutput) (grammar_rejects : string → list Z → bool).

(** The row of a list that may be left out. *)
Definition row_is {A} (l : list A) (missing : A) (row : Z) (v : A) : Prop :=
  if bool_decide (l = []) then v = missing else py_index l row = Ok v.

(** What the model runner answers for a request: no tokens for a prefill that goes
    on, otherwise at most one more than the drafts, and some if there are drafts; no
    tokens for a pooling request. *)
Definition runner_ok (m : gmap string sreq) (drafts : list (string * list Z)) (rid : string) : Prop :=
  ∀ x, m !! rid = Some x → ∃ row g b,
    req_id_to_index mro !! rid = Some row ∧ row_is (sampled_token_ids mro) [] row g ∧ row_is (pooler_output mro) false row b ∧
    (r_computed (mv x) < sr_num_tokens x → g = []) ∧
    zlen g ≤ 1 + zlen (default [] (dget rid drafts)) ∧ (g = [] → default [] (dget rid drafts) = []) ∧
    (sr_sampling (fx x) = None → g = []).

Record one_updated rid l drafts run all s u s' u' (gone : list req) (outs : list EngineCoreOutput) : Prop := {
  ou_updates : u' = Updates (stopped_running_reqs u ++ gone) (stopped_preempted_reqs u) (outputs u ++ outs);
  ou_sync : sync_ok l drafts (filter (.∉ gone) run) [] (filter (.∉ gone) all) s';
  ou_rqs : rqs s' = rqs s;
  ou_running : running s' = running s;
  ou_mode : same_mode (bk s) (bk s');
  ou_others : ∀ rid', rid' ≠ rid → requests s' !! rid' = requests s !! rid';
  ou_gone : NoDup gone ∧ ∀ r, r ∈ gone → r ∈ run ∧ request_id r = rid;
  ou_outs : ∀ o, o ∈ outs → eo_request_id o = rid ∧ (is_Some (eo_finish_reason o) ↔ gone ≠ []);
  ou_told : gone ≠ [] → outs ≠ [];
  ou_tokens : gone = [] → ∀ x, requests s !! rid = Some x → ∃ x', requests s' !! rid = Some x' ∧
    appended (mjoin (eo_new_token_ids <$> outs)) (fx x) (fx x');
}.

Lemma entry_ok_appended r x x' ts : appended ts (fx x) (fx x') → sr_num_tokens x' < sc_max_model_len c → entry_ok r x → entry_ok r x'.
Proof.
  intros Ha Hlt [[] ? ? ?]. pose proof (appended_count _ _ _ Ha) as Hn. pose proof (zlen_nonneg ts). destruct Ha.
  split; [split|..]; rewrite ?ap_key0, ?ap_id0, ?ap_prompt0, ?ap_features0, ?ap_lora0; try done; try lia.
  intros f Hf. specialize (rf_placed f Hf). lia.
Qed.

Lemma out_ok_appended k r x x' ts : appended ts (fx x) (fx x') → out_ok k r x → out_ok k r x'.
Proof. intros [] []. split; rewrite ?ap_key0, ?ap_id0, ?ap_prompt0, ?ap_features0; done. Qed.

Lemma finished_reason_some st : is_finished st = true → is_Some (get_finished_reason st).
Proof. destruct st; cbn; intros [=]; eexists; reflexivity. Qed.

(** The end of the turn: the request is freed, or runs on. *)
Lemma emit_run l0 l drafts run all s0 s r x was kept stopped b u :
  sync_ok l0 drafts run [] all s0 → r ∈ run → rqs s = rqs s0 →
  sync_ok l drafts (filter (.∉ [r]) run) [r] (filter (.∉ [r]) all) s →
  requests s !! request_id r = Some x → was = RUNNING →
  match stopped with
  | Some _ => is_finished (r_status (mv x)) = true
  | None => entry_ok r x ∧ run_state (kvm s) (dget (request_id r) l) (default [] (dget (request_id r) drafts)) r x
  end →
  ∃ s' gone outs, let u' := Updates (stopped_running_reqs u ++ gone) (stopped_preempted_reqs u) (outputs u ++ outs) in
    emit c set_order r x was kept stopped b u s = (Ok u', s') ∧
    sync_ok l drafts (filter (.∉ gone) run) [] (filter (.∉ gone) all) s' ∧
    rqs s' = rqs s ∧ running s' = running s ∧ same_mode (bk s) (bk s') ∧
    (∀ rid', rid' ≠ request_id r → requests s' !! rid' = requests s !! rid') ∧
    (gone = [] ∧ requests s' !! request_id r = Some x ∧ mjoin (eo_new_token_ids <$> outs) = kept ∧
       (∀ o, o ∈ outs → eo_request_id o = request_id r ∧ eo_finish_reason o = None) ∨
     gone = [r] ∧ outs ≠ [] ∧ ∀ o, o ∈ outs → eo_request_id o = request_id r ∧ is_Some (eo_finish_reason o)).
Proof.
  intros Hs0 Hr Hq Hs Hx -> Hcase. unfold emit. destruct stopped as [why|].
  - destruct (sy_zombies _ _ _ _ _ _ Hs r) as (x' & Hx' & Ho); [by left|]. assert (x' = x) as -> by congruence.
    destruct (free_request_run r x s Hx Hcase Ho) as (s' & Hrun & Hf); [apply Hs|apply Hs|].
    rewrite (bind_ok _ _ _ _ _ Hrun). eexists s', [r], _. split; [reflexivity|].
    split; [by eapply reap|]. split; [apply Hf|]. split; [apply Hf|]. split; [apply Hf|]. split.
    + intros rid' Hne. rewrite (fr_requests _ _ _ Hf). by rewrite lookup_delete_ne.
    + right. split; [done|]. split; [done|]. intros o ->%list_elem_of_singleton. split; [done|]. by apply finished_reason_some.
  - destruct Hcase as [He Hst].
    assert (Hin : sync_ok l drafts run [] all s) by by eapply (check_in l0 l drafts run all s0 s r x).
    destruct (negb _ || b) eqn:Eo.
    + eexists s, [], _. split; [unfold ret; rewrite app_nil_r; reflexivity|]. rewrite !filter_none. split_and!; try done.
      left. split; [done|]. split; [done|]. cbn. rewrite app_nil_r. split; [done|]. by intros o ->%list_elem_of_singleton.
    + exists s, [], []. cbn. rewrite !app_nil_r. split; [by destruct u|]. rewrite !filter_none. split_and!; try done.
      left. split; [done|]. split; [done|]. apply orb_false_iff in Eo as [Ek _]. case_bool_decide; [|done].
      subst kept. split; [done|]. by intros o ?%elem_of_nil.
Qed.

Lemma sync_weaken l l' drafts run all s :
  sync_ok l drafts run [] all s → (∀ r, r ∈ all → dget (request_id r) l' = dget (request_id r) l) →
  sync_ok l' drafts run [] all s.
Proof.
  intros Hs Hl. pose proof (check_out [] (rqs s) l l' drafts run [] [] all s Hs) as Hc.
  rewrite !filter_none in Hc. replace (set_rqs (rqs s) s) with s in Hc by by destruct s. apply Hc; try apply Hs; try done.
  - by intros r ?%elem_of_nil.
  - rewrite filter_out; [done|]. by intros r _ ?%elem_of_nil.
  - intros r Hr _. by apply Hl.
Qed.

Lemma lift_row {A} (l : list A) missing row v s : row_is l missing row v →
  (if bool_decide (l = []) then ret missing else lift (py_index l row)) s = (Ok v, s).
Proof. unfold row_is. case_bool_decide; [by intros ->|]. by intros ->. Qed.

Lemma free_inputs_step x s : enc_good (encm s) → enc_req (req_id (sr_request (fx x))) (sr_features (fx x)) →
  ∃ e', (when negb (bool_decide (sr_features (fx x) = []))
         do on_enc (_free_encoder_inputs set_order (sc_prefill_lookahead c) (enc_view x))) s = (Ok tt, set_encm e' s) ∧ enc_good e'.
Proof.
  intros He Hr. case_bool_decide; cbn [negb]; [exists (encm s); split; [by destruct s|done]|].
  destruct (law_free_inputs (encm s) (enc_view x) (sc_prefill_lookahead c) He) as (e' & Hrun & He'); [done|].
  exists e'. split; [|done]. unfold on_enc. by apply zoom_ok.
Qed.

Lemma update_one_run rid n l drafts run all s u :
  sync_ok ((rid, n) :: l) drafts run [] all s → NoDup ((rid, n) :: l).*1 → 0 < n → runner_ok (requests s) drafts rid →
  ∃ s' u' gone outs, update_one c set_order block_hasher mro drafts grammar_rejects u (rid, n) s = (Ok u', s') ∧
    one_updated rid l drafts run all s u s' u' gone outs.
Proof.
  intros Hs Hnd Hn Hrunner. cbn in Hnd. apply NoDup_cons in Hnd as [Hrid Hnd].
  assert (Hl : ∀ rid', rid' ≠ rid → dget rid' l = dget rid' ((rid, n) :: l)).
  { intros rid' Hne. cbn. by rewrite decide_False. }
  unfold update_one. erewrite bind_ok by (apply ensure_true; lia). run_step.
  destruct (requests s !! rid) as [x0|] eqn:Hx0.
  2: { exists s, u, [], []. split; [done|]. split; rewrite ?filter_none; try done.
    - by destruct u; cbn; rewrite !app_nil_r.
    - eapply sync_weaken; [done|]. intros r Hr. apply Hl. intros Heq. destruct (sy_known _ _ _ _ _ _ Hs r Hr) as (? & Hx & _).
      congruence.
    - split; [constructor|by intros r ?%elem_of_nil].
    - by intros o ?%elem_of_nil.
    - intros _ x Hx. congruence. }
  assert (∃ r, r ∈ all ∧ request_id r = rid) as (r & Hra & <-).
  { assert (rid ∈ request_id <$> all ++ []) as Hin by by apply (sy_dom _ _ _ _ _ _ Hs).
    rewrite app_nil_r in Hin. apply list_elem_of_fmap in Hin as (r & -> & ?). by exists r. }
  destruct (sy_known _ _ _ _ _ _ Hs r Hra) as (x & Hx & He). assert (x = x0) as -> by congruence. clear Hx.
  assert (Hr : r ∈ run).
  { destruct (decide (r ∈ run)) as [|Hno]; [done|]. destruct (sy_wait _ _ _ _ _ _ Hs r x0 Hra Hno Hx0) as (_ & _ & Hd).
    cbn in Hd. by rewrite decide_True in Hd. }
  pose proof (sy_run _ _ _ _ _ _ Hs r x0 Hr Hx0) as [Hst Hc Hrd Hph Hstale Hfl].
  cbn [dget] in Hfl. rewrite decide_True in Hfl by done. destruct Hfl as [Hfly Hdr].
  destruct (Hrunner x0 Hx0) as (row & g & b & Hrow & Hg & Hb & Hpre & Hle & Hnodraft & Hpool).
  pose proof (rf_key _ _ _ (en_fine _ _ He)) as Hkey. rewrite Hkey. rewrite Hstale. cbn [Z.ltb negb orb].
  assert (Hout : sync_ok l drafts (filter (.∉ [r]) run) [r] (filter (.∉ [r]) all) s) by by apply check_out_one with ((request_id r, n) :: l).
  assert (Ho0 : out_ok (kvm s) r x0) by (apply entry_out; [done|right; by eexists]).
  (* drained *)
  rewrite (bind_ok _ _ _ _ _ (put_run r x0 (drain n) s Hx0)).
  set (x1 := SR (fx x0) (drain n (mv x0))). set (s1 := set_requests (<[request_id r := x1]> (requests s)) s).
  change (0 <? 0) with false. cbn [negb orb andb]. erewrite bind_ok by (by apply ensure_true). rewrite Hst. cbn [is_finished orb].
  assert (Hx1 : requests s1 !! request_id r = Some x1) by (cbn; by rewrite lookup_insert_eq).
  rewrite Hrow. unfold bind at 1, ret at 1. rewrite (bind_ok _ _ _ _ _ (lift_row _ _ _ _ s1 Hg)).
  (* drafts *)
  destruct (reject_run r x1 s1 (dget (request_id r) drafts) g Hx1) as
    (x2 & Hrej & Hfx2 & Hst2 & Hif2 & Hstale2 & Hph2 & Hspec2 & Hc2 & Hg0 & Hg1); [apply (rf_tokens _ _ _ (en_fine _ _ He))|done..|].
  rewrite (bind_ok _ _ _ _ _ Hrej). set (s2 := set_requests (<[request_id r := x2]> (requests s1)) s1).
  assert (Hx2 : requests s2 !! request_id r = Some x2) by (cbn; by rewrite lookup_insert_eq).
  rewrite (bind_ok _ _ _ _ _ (the_run r s2 x2 Hx2)).
  (* encoder inputs *)
  destruct (free_inputs_step x2 s2) as (e' & Henc & He'); [apply Hs|rewrite Hfx2; cbn; rewrite (oo_id _ _ _ Ho0); apply Ho0|].
  rewrite (bind_ok _ _ _ _ _ Henc). set (s3 := set_encm e' s2).
  rewrite (bind_ok _ _ _ _ _ (lift_row _ _ _ _ s3 Hb)).
  (* tokens *)
  assert (Hp2 : 0 ≤ num_prompt_tokens (sr_request (fx x2)) ≤ sr_num_tokens x2).
  { unfold sr_num_tokens. rewrite Hfx2. split; [apply Ho0|apply He]. }
  destruct (stop_request_run r x2 s3 g b Hx2 Hp2) as (kept & stop & x3 & Hstop & Ha & Hcase); [by rewrite Hfx2|].
  rewrite (bind_ok _ _ _ _ _ Hstop). cbn beta iota. set (s4 := set_requests (<[request_id r := x3]> (requests s3)) s3).
  assert (Hx3 : requests s4 !! request_id r = Some x3) by (cbn; by rewrite lookup_insert_eq).
  set (bad := negb (bool_decide (kept = [])) && grammar_rejects (request_id r) kept).
  set (x4 := if bad then SR (fx x3) (set_status FINISHED_ERROR (mv x3)) else x3).
  set (s5 := set_requests (<[request_id r := x4]> (requests s4)) s4).
  assert (Hbad : (when bad do put r (set_status FINISHED_ERROR)) s4 = (Ok tt, s5)).
  { unfold s5, x4. destruct bad; [by apply put_run|]. rewrite insert_id by done. by destruct s4. }
  rewrite (bind_ok _ _ _ _ _ Hbad). assert (Hx5 : requests s5 !! request_id r = Some x4) by (cbn; by rewrite lookup_insert_eq).
  rewrite (bind_ok _ _ _ _ _ (the_run r s5 x4 Hx5)).
  assert (Ha4 : appended kept (fx x0) (fx x4)).
  { rewrite Hfx2 in Ha. unfold x4. destruct bad; exact Ha. }
  assert (Hreqs : requests s5 = <[request_id r := x4]> (requests s)).
  { unfold s5, s4, s3, s2, s1. cbn. by rewrite !insert_insert_eq. }
  assert (Hout5 : sync_ok l drafts (filter (.∉ [r]) run) [r] (filter (.∉ [r]) all) s5).
  { apply (touch l drafts _ _ _ s s5 r x4); try done; [by left|]. by eapply out_ok_appended. }
  match goal with |- context [emit _ _ _ _ _ _ ?so _ _ s5] =>
    destruct (emit_run ((request_id r, n) :: l) l drafts run all s s5 r x4 RUNNING kept so b u Hs Hr eq_refl Hout5 Hx5 eq_refl)
      as (s' & gone & outs & Hemit & Hsync & Hq & Hrunning & Hmode & Hoth & Hend) end.
  { unfold x4. destruct bad; [done|]. destruct stop as [why|].
    - destruct Hcase as (status & Hfin & ->). done.
    - destruct Hcase as (-> & Hmv & Hlt). assert (Hn3 := appended_count _ _ _ Ha).
      assert (Hn2 : sr_num_tokens x2 = sr_num_tokens x0) by (unfold sr_num_tokens; by rewrite Hfx2).
      assert (Hroom : sr_num_tokens x3 < sc_max_model_len c).
      { destruct (decide (g = [])) as [->|Hne]; [|by apply Hlt]. rewrite Hn3, Hn2. unfold zlen. cbn. pose proof (en_room _ _ He). lia. }
      split; [rewrite Hfx2 in Ha; by apply (entry_ok_appended r x0 x3 g)|].
      cbn in Hg0, Hg1, Hc2, Hif2, Hstale2, Hph2, Hst2.
      assert (r_computed (mv x2) ≤ sr_num_tokens x3 ∧ 0 ≤ r_computed (mv x2)) as [Hle3 Hpos3].
      { unfold sr_num_tokens in Hg0, Hg1. cbn in Hg0, Hg1. fold (sr_num_tokens x0) in Hg0, Hg1.
        destruct (decide (g = [])) as [->|Hne].
        - destruct (Hg0 eq_refl) as [-> ?]. rewrite Hn3, Hn2. unfold zlen. cbn. lia.
        - rewrite (Hg1 Hne), Hn3, Hn2. assert (length g ≠ 0%nat) by (by destruct g). unfold zlen.
          pose proof (rf_tokens _ _ _ (en_fine _ _ He)). lia. }
      split; rewrite ?Hmv.
      + by rewrite Hst2.
      + lia.
      + eapply law_shorter; [apply Hs|exact Hrd|lia].
      + by apply Hph2.
      + by rewrite Hstale2, Hstale.
      + assert (dget (request_id r) l = None) as -> by (by apply dget_None). split; [rewrite Hif2; lia|].
        lia. }
  rewrite Hemit. exists s', (Updates (stopped_running_reqs u ++ gone) (stopped_preempted_reqs u) (outputs u ++ outs)), gone, outs.
  split; [done|]. split; try done.
  - intros rid' Hne. rewrite Hoth by done. rewrite Hreqs. by rewrite lookup_insert_ne.
  - destruct Hend as [(-> & _)|(-> & _)]; [split; [constructor|by intros ? ?%elem_of_nil]|].
    split; [apply NoDup_singleton|]. by intros ? ->%list_elem_of_singleton.
  - destruct Hend as [(-> & _ & _ & Hall)|(-> & _ & Hall)]; intros o Ho; destruct (Hall o Ho) as [? Hf]; (split; [done|]).
    + rewrite Hf. split; [by intros []|done].
    + split; [done|by intros _].
  - destruct Hend as [(-> & _)|(-> & ? & _)]; done.
  - intros Hnone x Hx. destruct Hend as [(_ & Hx' & Htok & _)|(-> & _)]; [|done]. exists x4. split; [done|].
    rewrite Htok. by assert (x = x0) as -> by congruence.
Qed.

(** *** The whole output *)

(** The tokens that the outputs deliver to a request, and whether they end it. *)
Definition delivered (outs : list EngineCoreOutput) (rid : string) : list Z :=
  mjoin (eo_new_token_ids <$> filter (λ o, eo_request_id o = rid) outs).
Definition ended (outs : list EngineCoreOutput) (rid : string) : Prop :=
  ∃ o, o ∈ outs ∧ eo_request_id o = rid ∧ is_Some (eo_finish_reason o).

Lemma delivered_app outs outs' rid : delivered (outs ++ outs') rid = delivered outs rid ++ delivered outs' rid.
Proof. unfold delivered. by rewrite filter_app, fmap_app, join_app. Qed.
Lemma delivered_all outs rid : (∀ o, o ∈ outs → eo_request_id o = rid) → delivered outs rid = mjoin (eo_new_token_ids <$> outs).
Proof. intros Ho. unfold delivered. by rewrite filter_id. Qed.
Lemma delivered_none outs rid : (∀ o, o ∈ outs → eo_request_id o ≠ rid) → delivered outs rid = [].
Proof.
  intros Ho. unfold delivered. induction outs as [|o outs IH]; [done|]. rewrite filter_cons_False by (apply Ho; by left).
  apply IH. intros o' Ho'. apply Ho. by right.
Qed.

(** What the outputs say of the requests, and what became of them. *)
Record told (all gone : list req) (outs : list EngineCoreOutput) s s' : Prop := {
  to_tokens : ∀ r x, r ∈ all → r ∉ gone → requests s !! request_id r = Some x →
    ∃ x', requests s' !! request_id r = Some x' ∧ appended (delivered outs (request_id r)) (fx x) (fx x');
  to_ends : ∀ r, r ∈ all → (r ∈ gone ↔ ended outs (request_id r));
}.

Record loop_done (l : list (string * Z)) drafts run all s s' (gone : list req) (outs : list EngineCoreOutput) : Prop := {
  ld_sync : sync_ok [] drafts (filter (.∉ gone) run) [] (filter (.∉ gone) all) s';
  ld_rqs : rqs s' = rqs s;
  ld_running : running s' = running s;
  ld_mode : same_mode (bk s) (bk s');
  ld_gone : NoDup gone ∧ ∀ r, r ∈ gone → r ∈ run;
  ld_told : told all gone outs s s';
  ld_ids : ∀ o, o ∈ outs → eo_request_id o ∈ l.*1;
}.

Lemma update_loop_run l drafts run all s u :
  sync_ok l drafts run [] all s → NoDup l.*1 → (∀ rid (n : Z), (rid, n) ∈ l → 0 < n ∧ runner_ok (requests s) drafts rid) →
  ∃ s' gone outs, update_loop c set_order block_hasher mro drafts grammar_rejects u l s
      = (Ok (Updates (stopped_running_reqs u ++ gone) (stopped_preempted_reqs u) (outputs u ++ outs)), s') ∧
    loop_done l drafts run all s s' gone outs.
Proof.
  revert run all s u. induction l as [|[rid n] l IH]; intros run all s u Hs Hnd Hl.
  { exists s, [], []. split; [cbn; rewrite !app_nil_r; by destruct u|]. split; rewrite ?filter_none; try done.
    - split; [constructor|by intros r ?%elem_of_nil].
    - split; [|intros r _; split; [by intros ?%elem_of_nil|by intros (o & ?%elem_of_nil & _)]].
      intros r x _ _ Hx. exists x. split; [done|apply appended_nil].
    - by intros o ?%elem_of_nil. }
  destruct (Hl rid n) as [Hn Hrun]; [by left|].
  destruct (update_one_run rid n l drafts run all s u Hs Hnd Hn Hrun) as (s1 & u1 & g1 & o1 & Hone1 & Hou). destruct Hou.
  cbn in Hnd. apply NoDup_cons in Hnd as [Hrid Hnd].
  destruct (IH (filter (.∉ g1) run) (filter (.∉ g1) all) s1 u1 ou_sync0 Hnd) as (s2 & g2 & o2 & Hloop & Hld).
  { intros rid' n' Hin. destruct (Hl rid' n') as [Hn' Hrun']; [by right|]. split; [done|].
    unfold runner_ok. rewrite ou_others0; [done|]. intros ->. apply Hrid. by apply (list_elem_of_fmap_2 fst _ (rid, n')). }
  cbn [update_loop]. erewrite bind_ok by exact Hone1. exists s2, (g1 ++ g2), (o1 ++ o2). split.
  { rewrite Hloop, ou_updates0. cbn. by rewrite !app_assoc. }
  destruct Hld. rewrite !filter_twice in ld_sync0. destruct ou_gone0 as [Hg1 Hg1'], ld_gone0 as [Hg2 Hg2'].
  assert (Hids : ∀ o, o ∈ o2 → eo_request_id o ≠ rid) by (intros o Ho Heq; apply Hrid; rewrite <-Heq; by apply ld_ids0).
  assert (Hids1 : ∀ o, o ∈ o1 → eo_request_id o = rid) by (intros o Ho; by apply ou_outs0).
  assert (Hin2 : ∀ r, r ∈ g2 → r ∈ run ∧ r ∉ g1) by (intros r Hr; apply Hg2' in Hr; apply list_elem_of_filter in Hr; tauto).
  split; try done; try congruence.
  - by trans (bk s1).
  - split; [apply NoDup_app; split_and!; [done| |done]|].
    + intros r Hr Hr'. by apply Hin2 in Hr' as [_ ?].
    + intros r [Hr|Hr]%elem_of_app; [by apply Hg1'|by apply Hin2].
  - destruct ld_told0. split.
    + intros r x Hr Hn' Hx. rewrite delivered_app. apply not_elem_of_app in Hn' as [Hn1 Hn2].
      assert (Hr1 : r ∈ filter (.∉ g1) all) by by apply list_elem_of_filter.
      destruct (decide (request_id r = rid)) as [Heq|Hne].
      * assert (g1 = []) as ->.
        { destruct g1 as [|r' g1]; [done|]. destruct (Hg1' r') as [Hr'run Hr'id]; [by left|]. exfalso. apply Hn1.
          pose proof (sy_nodup _ _ _ _ _ _ Hs) as Hnd'. rewrite app_nil_r in Hnd'.
          rewrite (key_inj all r r'); [by left|done|done|by eapply run_in_all|congruence]. }
        destruct (ou_tokens0 eq_refl x) as (x1 & Hx1 & Ha1); [by rewrite <-Heq|]. rewrite <-Heq in Hx1.
        destruct (to_tokens0 r x1 Hr1 Hn2 Hx1) as (x2 & Hx2 & Ha2). exists x2. split; [done|].
        rewrite Heq in *. rewrite (delivered_all o1) by done. by eapply appended_trans.
      * rewrite (delivered_none o1) by (intros o Ho Heq; apply Hne; by rewrite <-Heq, (Hids1 o Ho)). cbn [app].
        apply to_tokens0; [done|done|by rewrite ou_others0].
    + intros r Hr. rewrite elem_of_app. unfold ended. split.
      * intros [Hr1|Hr2].
        -- destruct o1 as [|o o1]; [by destruct (ou_told0); [intros ->; by apply elem_of_nil in Hr1|]|].
           exists o. split; [by left|]. destruct (ou_outs0 o) as [Hoid Hof]; [by left|]. split; [by rewrite Hoid, (proj2 (Hg1' r Hr1))|].
           apply Hof. intros ->. by apply elem_of_nil in Hr1.
        -- destruct (Hin2 r Hr2) as [_ Hno]. destruct (proj1 (to_ends0 r ltac:(by apply list_elem_of_filter)) Hr2) as (o & Ho & ?).
           exists o. split; [|done]. set_solver.
      * intros (o & [Ho|Ho]%elem_of_app & Hoid & Hof).
        -- left. destruct (ou_outs0 o Ho) as [Hrid' Hof']. apply Hof' in Hof. destruct g1 as [|r' g1]; [done|].
           destruct (Hg1' r') as [Hr'run Hr'id]; [by left|]. pose proof (sy_nodup _ _ _ _ _ _ Hs) as Hnd'. rewrite app_nil_r in Hnd'.
           rewrite (key_inj all r r'); [by left|done|done|by eapply run_in_all|congruence].
        -- destruct (decide (r ∈ g1)) as [|Hno]; [by left|]. right. apply to_ends0; [by apply list_elem_of_filter|]. by exists o.
  - intros o [Ho|Ho]%elem_of_app; cbn; [rewrite (Hids1 o Ho); by left|right; by apply ld_ids0].
Qed.

(** *** Requests that end from outside *)
Lemma sync_running l drafts run zs all s rs : sync_ok l drafts run zs all s → sync_ok l drafts run zs all (set_running rs s).
Proof. by intros []. Qed.

Lemma finish_loop_run fs valid l drafts run all s :
  is_finished fs = true → sync_ok l drafts run valid all s →
  (∀ r x, r ∈ valid → requests s !! request_id r = Some x → r_status (mv x) ≠ WAITING_FOR_REMOTE_KVS) →
  ∃ s', mfor valid (finish_one c set_order fs) s = (Ok tt, s') ∧ sync_ok l drafts run [] all s' ∧
    rqs s' = rqs s ∧ running s' = running s ∧ same_mode (bk s) (bk s') ∧
    ∀ rid, rid ∉ request_id <$> valid → requests s' !! rid = requests s !! rid.
Proof.
  intros Hfs. revert s. induction valid as [|r valid IH]; intros s Hs Hremote; [by exists s|].
  destruct (sy_zombies _ _ _ _ _ _ Hs r) as (x & Hx & Ho); [by left|].
  set (x1 := SR (fx x) (set_status fs (mv x))). set (s1 := set_requests (<[request_id r := x1]> (requests s)) s).
  assert (Hs1 : sync_ok l drafts run (r :: valid) all s1).
  { apply (touch l drafts run _ all s s1 r x1); try done; [by left| |apply Hs]. destruct Ho. by split. }
  destruct (free_request_run r x1 s1) as (s2 & Hfree & Hf); try done; [cbn; by rewrite lookup_insert_eq|by destruct Ho|apply Hs1|apply Hs1|].
  assert (Hone1 : finish_one c set_order fs r s = (Ok tt, s2)).
  { unfold finish_one. rewrite (bind_ok _ _ _ _ _ (the_run r s x Hx)). cbn beta zeta.
    rewrite (bind_ok _ _ _ _ _ (put_run r x (set_status fs) s Hx)).
    rewrite bool_decide_eq_false_2; [done|]. apply (Hremote r); [by left|done]. }
  rewrite (mfor_cons _ _ _ _ _ Hone1).
  assert (Hnd := sy_nodup _ _ _ _ _ _ Hs).
  destruct (IH s2) as (s' & Hrun & Hs' & E1 & E2 & E3 & E4); [by eapply reap| |].
  { intros r' x' Hr' Hx'. rewrite (fr_requests _ _ _ Hf) in Hx'. apply lookup_delete_Some in Hx' as [Hne Hx'].
    cbn in Hx'. rewrite lookup_insert_ne in Hx' by done. apply (Hremote r'); [by right|done]. }
  exists s'. split; [done|]. split; [done|]. split; [by rewrite E1, (fr_rqs _ _ _ Hf)|].
  split; [by rewrite E2, (fr_running _ _ _ Hf)|]. split; [trans (bk s2); [apply Hf|done]|].
  intros rid Hn. cbn in Hn. apply not_elem_of_cons in Hn as [Hne Hn]. rewrite E4 by done. rewrite (fr_requests _ _ _ Hf).
  cbn. by rewrite lookup_delete_ne, lookup_insert_ne by done.
Qed.

(** The requests with the ids of a list. *)
Definition named (m : gmap string sreq) (ids : list string) : list req := omap (λ rid, (λ x, sr_key (fx x)) <$> m !! rid) ids.

Lemma elem_of_named l drafts run all s ids r :
  sync_ok l drafts run [] all s → r ∈ named (requests s) ids ↔ r ∈ all ∧ request_id r ∈ ids.
Proof.
  intros Hs. unfold named. rewrite list_elem_of_omap. split.
  - intros (rid & Hrid & Hx). destruct (requests s !! rid) as [x|] eqn:Ex; [|done]. injection Hx as <-.
    pose proof (sy_dom _ _ _ _ _ _ Hs rid (mk_is_Some _ _ Ex)) as Hd. rewrite app_nil_r in Hd.
    apply list_elem_of_fmap in Hd as (r' & -> & Hr'). destruct (sy_known _ _ _ _ _ _ Hs r' Hr') as (x' & Hx' & He).
    assert (x' = x) as -> by congruence. by rewrite (rf_key _ _ _ (en_fine _ _ He)).
  - intros [Hr Hid]. destruct (sy_known _ _ _ _ _ _ Hs r Hr) as (x & Hx & He). exists (request_id r). split; [done|].
    rewrite Hx. cbn. by rewrite (rf_key _ _ _ (en_fine _ _ He)).
Qed.

Lemma named_nodup l drafts run all s ids : sync_ok l drafts run [] all s → NoDup ids → NoDup (named (requests s) ids).
Proof.
  intros Hs. induction ids as [|rid ids IH]; intros Hn; [constructor|]. apply NoDup_cons in Hn as [Hrid Hn]. unfold named. cbn.
  destruct (requests s !! rid) as [x|] eqn:Ex; cbn; [|by apply IH]. apply NoDup_cons. split; [|by apply IH].
  intros Hin. fold (named (requests s) ids) in Hin. apply (elem_of_named _ _ _ _ _ _ _ Hs) in Hin as [Hall Hid].
  apply Hrid. assert (request_id (sr_key (fx x)) = rid) as <-; [|done].
  assert (Hx1 : sr_key (fx x) ∈ named (requests s) [rid]) by (unfold named; cbn; rewrite Ex; by left).
  apply (elem_of_named _ _ _ _ _ _ _ Hs) in Hx1 as [_ Hid']. by apply list_elem_of_singleton in Hid'.
Qed.

Lemma collect_run l drafts run all s ids :
  sync_ok l drafts run [] all s →
  collect_requests ids s = (Ok (named (requests s) ids, filter (.∈ run) (named (requests s) ids), filter (.∉ run) (named (requests s) ids)), s).
Proof.
  intros Hs. induction ids as [|rid ids IH]; [done|]. cbn [collect_requests]. run_step. unfold named. cbn [omap list_omap].
  destruct (requests s !! rid) as [x|] eqn:Ex; cbn [fmap option_fmap option_map]; [|exact IH].
  assert (Hr : sr_key (fx x) ∈ named (requests s) [rid]) by (unfold named; cbn; rewrite Ex; by left).
  apply (elem_of_named _ _ _ _ _ _ _ Hs) in Hr as [Hr Hid]. apply list_elem_of_singleton in Hid.
  set (r := sr_key (fx x)) in *. rewrite <-Hid in Ex.
  fold (named (requests s) ids). destruct (decide (r ∈ run)) as [Hrun|Hrun].
  - pose proof (rs_status _ _ _ _ _ (sy_run _ _ _ _ _ _ Hs r x Hrun Ex)) as Hst. rewrite Hst. cbn [is_finished].
    rewrite bool_decide_eq_false_2 by done. unfold bind at 1, ret at 1. rewrite (bind_ok _ _ _ _ _ IH). cbn beta iota.
    rewrite decide_True by done. rewrite (filter_cons_True (.∈ run)) by done. rewrite (filter_cons_False (.∉ run)) by auto. done.
  - destruct (sy_wait _ _ _ _ _ _ Hs r x Hr Hrun Ex) as (Hw & Hc & _). rewrite (wo_unfinished _ _ _ _ Hw) || rewrite (wo_unfinished _ _ _ Hw).
    rewrite bool_decide_eq_false_2 by apply Hc. unfold bind at 1, ret at 1. rewrite (bind_ok _ _ _ _ _ IH). cbn beta iota.
    rewrite decide_False by apply Hw. rewrite (filter_cons_False (.∈ run)) by auto. rewrite (filter_cons_True (.∉ run)) by done. done.
Qed.

(** Requests leave the queues. *)
Lemma remove_queues_run (X : list req) s :
  queue_ok (waiting (rqs s)) → queue_ok (skipped_waiting (rqs s)) →
  ∃ qs, (when negb (bool_decide (X = [])) do
           (on_rqs (on_waiting (remove_requests X)) >> on_rqs (on_skipped (remove_requests X)))) s = (Ok tt, set_rqs qs s) ∧
    queue_ok (waiting qs) ∧ queue_ok (skipped_waiting qs) ∧
    service (waiting qs) = filter (.∉ X) (service (waiting (rqs s))) ∧
    service (skipped_waiting qs) = filter (.∉ X) (service (skipped_waiting (rqs s))).
Proof.
  intros Hw Hk. case_bool_decide as HX; cbn [negb].
  - subst X. exists (rqs s). rewrite !filter_none. split; [by destruct s|done].
  - destruct (law_removes X _ Hw) as (w & Hrw & Hw' & Ew). destruct (law_removes X _ Hk) as (k & Hrk & Hk' & Ek).
    unfold on_rqs, on_waiting, on_skipped. erewrite bind_ok by (apply zoom_ok, zoom_ok; exact Hrw).
    exists (Queues w k). split; [|done]. by erewrite zoom_ok by (apply zoom_ok; exact Hrk).
Qed.

(** Running requests leave the list. *)
Lemma remove_running_run (X : list req) s : NoDup (running s) →
  (when negb (bool_decide (X = [])) do modify (λ s, set_running (remove_all (running s) X) s)) s
    = (Ok tt, set_running (filter (.∉ X) (running s)) s).
Proof.
  intros Hn. case_bool_decide as HX; cbn [negb].
  - subst X. rewrite filter_none. by destruct s.
  - unfold modify. by rewrite remove_all_filter.
Qed.

Lemma queues_not_run l drafts run zs all s r :
  sync_ok l drafts run zs all s → r ∈ service (waiting (rqs s)) ++ service (skipped_waiting (rqs s)) → r ∉ run.
Proof.
  intros Hs Hr Hrun. pose proof (sy_nodup _ _ _ _ _ _ Hs) as Hn. rewrite fmap_app in Hn. apply NoDup_app in Hn as [Hn _].
  apply NoDup_fmap_1 in Hn. rewrite <-(sy_perm _ _ _ _ _ _ Hs) in Hn. apply NoDup_app in Hn as (_ & Hd & _). by apply (Hd r).
Qed.

(** [finish_requests] ends the unfinished requests among the ids, wherever they are:
    all they hold is released, and the others stay. *)
Lemma finish_requests_run fs ids l drafts all s :
  is_finished fs = true → sync_ok l drafts (running s) [] all s → NoDup ids →
  ∃ s', finish_requests c set_order ids fs s = (Ok (named (requests s) ids), s') ∧
    sync_ok l drafts (running s') [] (filter (.∉ named (requests s) ids) all) s' ∧
    running s' = filter (.∉ named (requests s) ids) (running s) ∧ same_mode (bk s) (bk s') ∧
    ∀ rid, rid ∉ request_id <$> named (requests s) ids → requests s' !! rid = requests s !! rid.
Proof.
  clear Hhash. intros Hfs Hs Hids. set (valid := named (requests s) ids). unfold finish_requests.
  erewrite bind_ok by (by apply ensure_true). rewrite (bind_ok _ _ _ _ _ (collect_run _ _ _ _ s ids Hs)). cbn beta iota.
  fold valid. rewrite (bind_ok _ _ _ _ _ (remove_running_run _ s (run_nodup _ _ _ _ _ _ Hs))).
  rewrite (filter_ext_in _ valid (running s)) by (intros r Hr; rewrite list_elem_of_filter; tauto).
  set (s1 := set_running (filter (.∉ valid) (running s)) s).
  destruct (remove_queues_run (filter (.∉ running s) valid) s1) as (qs & Hrun & Hw & Hk & Ew & Ek); [apply Hs|apply Hs|].
  rewrite (bind_ok _ _ _ _ _ Hrun). cbn in Ew, Ek.
  rewrite (filter_ext_in _ valid) in Ew, Ek by
    (intros r Hr; assert (r ∉ running s) by (eapply queues_not_run; [done|set_solver]); rewrite list_elem_of_filter; tauto).
  assert (Hin : ∀ r, r ∈ valid → r ∈ all) by (intros r Hr; by apply (elem_of_named _ _ _ _ _ _ _ Hs) in Hr as [? _]).
  assert (Hout : sync_ok l drafts (filter (.∉ valid) (running s)) valid (filter (.∉ valid) all) (set_rqs qs s1)).
  { apply (check_out valid qs l l drafts (running s) [] valid all s1); try done; [by apply sync_running|].
    rewrite app_nil_r. apply NoDup_Permutation; [by eapply named_nodup|apply NoDup_filter|].
    - pose proof (sy_nodup _ _ _ _ _ _ Hs) as Hn. rewrite app_nil_r in Hn. by apply NoDup_fmap_1 in Hn.
    - intros r. rewrite list_elem_of_filter. split; [|by intros [? _]]. auto. }
  destruct (finish_loop_run fs valid l drafts _ _ _ Hfs Hout) as (s' & Hloop & Hs' & E1 & E2 & E3 & E4).
  { cbn. intros r x Hr Hx. destruct (decide (r ∈ running s)) as [Hrr|Hrr].
    - by rewrite (rs_status _ _ _ _ _ (sy_run _ _ _ _ _ _ Hs r x Hrr Hx)).
    - destruct (sy_wait _ _ _ _ _ _ Hs r x (Hin r Hr) Hrr Hx) as (_ & Hcalm & _). apply Hcalm. }
  rewrite (bind_ok _ _ _ _ _ Hloop). exists s'. split; [done|]. cbn in E2. rewrite E2. done.
Qed.

(** *** What is not about requests *)
Lemma sync_rest l drafts run zs all s s' :
  sync_ok l drafts run zs all s → requests s' = requests s → rqs s' = rqs s → enc_good (encm s') →
  num_waiting_for_streaming_input (bk s') = num_waiting_for_streaming_input (bk s) →
  kv_good (handed s') (kvm s') → kv_preserves (λ _, True) (kvm s) (kvm s') → sync_ok l drafts run zs all s'.
Proof.
  intros [] Er Eq He Ew Hg Hk. split; rewrite ?Er, ?Eq, ?Ew; try done.
  - intros r x Hr Hx. destruct (sy_run0 r x Hr Hx). split; try done. by apply Hk.
  - intros r x Hr Hn Hx. destruct (sy_wait0 r x Hr Hn Hx) as (Hw & ? & ?). split; [|done]. by eapply (wait_ok_keep _ _ (λ _, True)).
  - intros r Hr. destruct (sy_zombies0 r Hr) as (x & Hx & []). exists x. split; [done|]. split; try done.
    destruct oo_held0 as [?|[n ?]]; [left|right; exists n]; by apply Hk.
  - intros rid Hn. apply Hk; [done|]. by apply sy_others0.
Qed.

Lemma sync_drafts drafts drafts' run zs all s : sync_ok [] drafts run zs all s → sync_ok [] drafts' run zs all s.
Proof. intros []. split; try done. intros r x Hr Hx. by destruct (sy_run0 r x Hr Hx). Qed.

Lemma drain_loop_run ds s : deferred_frees (bk s) = ds → kv_good (handed s) (kvm s) →
  ∃ s', drain_loop ds s = (Ok tt, s') ∧ requests s' = requests s ∧ rqs s' = rqs s ∧ running s' = running s ∧
    encm s' = encm s ∧ same_mode (bk s) (bk s') ∧ kv_good (handed s') (kvm s') ∧ kv_preserves (λ _, True) (kvm s) (kvm s').
Proof.
  revert s. induction ds as [|[fence bs] ds IH]; intros s Hd Hg; [by exists s|]. cbn [drain_loop]. run_step.
  destruct (_ <? _); [by exists s|]. unfold on_bk at 1. run_step.
  match goal with |- context [bind _ _ ?s0] => set (s1 := s0) end.
  destruct (law_release _ (handed s1) (reverse bs) _ Hg) as (k & Hrun & Hg' & Hk).
  { unfold handed. rewrite Hd. cbn. by rewrite reverse_Permutation. }
  unfold on_kv at 1. erewrite bind_ok by (apply zoom_ok; exact Hrun).
  destruct (IH (set_kvm k s1)) as (s' & Hloop & E1 & E2 & E3 & E4 & E5 & E6 & E7); [done|done|].
  exists s'. split; [exact Hloop|]. split_and!; try done. intros rid _. destruct (Hk rid), (E7 rid); try done. split; auto.
Qed.

(** The blocks whose step is over are released. *)
Lemma settle_frees_run (b : bool) l drafts all s :
  sync_ok l drafts (running s) [] all s →
  ∃ s', (when b do (on_bk (λ b : books, with_steps (current_step b) (sched_step_seq b) (processed_step_seq b + 1) b) >>
                    _drain_deferred_frees)) s = (Ok tt, s') ∧
    sync_ok l drafts (running s') [] all s' ∧ requests s' = requests s ∧ running s' = running s.
Proof.
  intros Hs. destruct b; [|by exists s]. unfold on_bk, _drain_deferred_frees. run_step. run_step.
  match goal with |- context [drain_loop _ ?s0] => set (s1 := s0) end.
  destruct (drain_loop_run (deferred_frees (bk s1)) s1) as (s' & Hrun & E1 & E2 & E3 & E4 & E5 & E6 & E7); [done|apply Hs|].
  exists s'. split; [exact Hrun|]. rewrite E3. split; [|done].
  apply (sync_rest _ _ _ _ _ s); try done; [rewrite E4; apply Hs|apply E5].
Qed.

(** Requests whose grammar failed. *)
Context (id_order : gset string → list string) (Hids : ∀ X, id_order X ≡ₚ elements X).

Lemma id_order_nodup X : NoDup (id_order X).
Proof. rewrite Hids. apply NoDup_elements. Qed.

Lemma finish_errors_run l drafts all s :
  sync_ok l drafts (running s) [] all s →
  ∃ s' gone, finish_errors c set_order id_order s
      = (Ok ((λ r, ECOut (request_id r) [] (get_finished_reason FINISHED_ERROR) None false) <$> gone), s') ∧
    sync_ok l drafts (running s') [] (filter (.∉ gone) all) s' ∧ running s' = filter (.∉ gone) (running s) ∧
    NoDup gone ∧ (∀ r, r ∈ gone → r ∈ all) ∧
    ∀ rid, rid ∉ request_id <$> gone → requests s' !! rid = requests s !! rid.
Proof.
  intros Hs. unfold finish_errors, on_bk. run_step. run_step.
  set (s1 := set_bk (clear_grammar_errors (bk s)) s).
  assert (Hs1 : sync_ok l drafts (running s1) [] all s1) by (apply (sync_rest _ _ _ _ _ s); try done; apply Hs).
  case_bool_decide as He.
  - exists s1, []. rewrite !filter_none. split_and!; try done; [constructor|by intros r ?%elem_of_nil].
  - destruct (finish_requests_run FINISHED_ERROR (id_order (grammar_compile_error_reqs (bk s))) l drafts all s1)
      as (s' & Hrun & Hs' & Hr & _ & Ho); [done|done|apply id_order_nodup|].
    rewrite (bind_ok _ _ _ _ _ Hrun). eexists s', _. split; [reflexivity|]. split; [done|]. split; [done|].
    split; [eapply named_nodup; [done|apply id_order_nodup]|]. split; [|done].
    intros r Hin. by apply (elem_of_named _ _ _ _ _ _ _ Hs1) in Hin as [? _].
Qed.

Lemma told_more all g1 g2 o1 s s1 s2 :
  NoDup (request_id <$> all) → told all g1 o1 s s1 → (∀ r, r ∈ g2 → r ∈ all ∧ r ∉ g1) → (∀ r, r ∈ g1 → r ∈ all) →
  (∀ rid, rid ∉ request_id <$> g2 → requests s2 !! rid = requests s1 !! rid) →
  told all (g1 ++ g2) (o1 ++ ((λ r, ECOut (request_id r) [] (get_finished_reason FINISHED_ERROR) None false) <$> g2)) s s2.
Proof.
  intros Hn [Ht He] Hg2 Hg1 Hs.
  assert (Hd : ∀ rid, delivered ((λ r, ECOut (request_id r) [] (get_finished_reason FINISHED_ERROR) None false) <$> g2) rid = []).
  { intros rid. unfold delivered. clear. induction g2 as [|r g2 IH]; [done|]. rewrite fmap_cons, filter_cons.
    case_decide; [|done]. exact IH. }
  split.
  - intros r x Hr [Hno1 Hno2]%not_elem_of_app Hx. rewrite delivered_app, Hd, app_nil_r, Hs; [by apply Ht|].
    intros (r' & Heq & Hr')%list_elem_of_fmap. apply Hno2. rewrite (key_inj all r r'); try done. by apply Hg2.
  - intros r Hr. rewrite elem_of_app, (He r Hr). unfold ended. split.
    + intros [(o & Ho & ?)|Hin]; [exists o; split; [set_solver|done]|].
      eexists. split; [apply elem_of_app; right; by apply list_elem_of_fmap_2|]. split; [done|by eexists].
    + intros (o & [Ho|Ho]%elem_of_app & Hid & Hfin); [left; by exists o|]. right.
      apply list_elem_of_fmap in Ho as (r' & -> & Hr'). cbn in Hid. by rewrite <-(key_inj all r' r); [|done|apply Hg2|..].
Qed.

Lemma update_from_output_run l drafts all s :
  sync_ok l drafts (running s) [] all s → NoDup l.*1 → (∀ rid (n : Z), (rid, n) ∈ l → 0 < n ∧ runner_ok (requests s) drafts rid) →
  ∃ s' gone outs, update_from_output c set_order id_order block_hasher mro drafts grammar_rejects l s = (Ok outs, s') ∧
    sync_ok [] [] (running s') [] (filter (.∉ gone) all) s' ∧ running s' = filter (.∉ gone) (running s) ∧
    NoDup gone ∧ (∀ r, r ∈ gone → r ∈ all) ∧ told all gone outs s s' ∧
    ∀ o, o ∈ outs → eo_request_id o ∈ l.*1 ∨ eo_request_id o ∈ request_id <$> gone.
Proof.
  intros Hs Hnd Hl. unfold update_from_output.
  destruct (settle_frees_run (sc_defer_free c && (0 <? foldr Z.add 0 l.*2)) l drafts all s Hs) as (s1 & Hset & Hs1 & Er1 & Erun1).
  rewrite (bind_ok _ _ _ _ _ Hset).
  destruct (update_loop_run l drafts (running s1) all s1 (Updates [] [] []) Hs1 Hnd) as (s2 & g1 & o1 & Hloop & []).
  { intros rid n Hin. destruct (Hl rid n Hin) as [? Hro]. split; [done|]. unfold runner_ok. by rewrite Er1. }
  rewrite (bind_ok _ _ _ _ _ Hloop). cbn [stopped_running_reqs stopped_preempted_reqs outputs app]. destruct ld_gone0 as [Hg1 Hg1'].
  rewrite (bind_ok _ _ _ _ _ (remove_running_run g1 s2 ltac:(rewrite ld_running0; by eapply run_nodup))).
  rewrite bool_decide_eq_true_2 by done. cbn [negb]. unfold bind at 1, ret at 1.
  rewrite ld_running0. set (s3 := set_running (filter (.∉ g1) (running s1)) s2).
  destruct (finish_errors_run [] drafts (filter (.∉ g1) all) s3) as (s' & g2 & Hrun & Hs' & Er & Hg2 & Hg2' & Ho).
  { by apply sync_running. }
  rewrite (bind_ok _ _ _ _ _ Hrun). cbn in Er. rewrite filter_twice in Er, Hs'.
  assert (Hg1a : ∀ r, r ∈ g1 → r ∈ all) by (intros r Hr; eapply run_in_all; [done|by apply Hg1']).
  assert (Hg2a : ∀ r, r ∈ g2 → r ∈ all ∧ r ∉ g1) by (intros r Hr; apply Hg2', list_elem_of_filter in Hr; tauto).
  eexists s', (g1 ++ g2), _. split; [reflexivity|]. split; [by eapply sync_drafts|]. split; [by rewrite Er, Erun1|].
  split; [apply NoDup_app; split_and!; [done| |done]; intros r Hr Hr'; by apply (Hg2a r)|].
  split; [intros r [?|?]%elem_of_app; [auto|by apply Hg2a]|].
  pose proof (sy_nodup _ _ _ _ _ _ Hs) as Hn. rewrite app_nil_r in Hn.
  split.
  - eapply told_more; [done| |done|done|exact Ho]. destruct ld_told0 as [Ht He]. split; [|done]. by rewrite <-Er1.
  - intros o [Hin|Hin]%elem_of_app; [left; auto|]. apply list_elem_of_fmap in Hin as (r & -> & Hr). right. cbn.
    rewrite fmap_app. apply elem_of_app. right. by apply list_elem_of_fmap_2.
Qed.
End Sync.
