(* ===== verification/SchedulerInstances.v ===== *)
(** * The managers behind the scheduler's interfaces

    The KV-cache manager of KVCacheManager.v without prefix caching and the
    encoder cache of EncoderCache.v satisfy [KVLaws] and [EncoderLaws]
    (SchedulerInterfaces.v), so the theorems on the scheduler hold for them. *)

From S2P Require Import Prelude PyData Ownership BlockPool CacheAllocator BlockHasher PrefixCache SingleTypeManager KVCacheManager KVCacheManagerSpec.
From S2P Require Import EncoderCache EncoderCacheSpec EncoderSchedule RequestQueue RequestScheduler SchedulerInterfaces.
From stdpp Require Import base gmap sets list strings.
From Stdlib Require Import ZArith Lia.
Open Scope Z_scope.

(** ** The encoder cache *)
Section Encoder.
Context (feats : string → list feature) (size : string → Z) (Hsz : sizes_ok feats size).
Context (set_order : gset Z → list Z) (Hord : ∀ X, set_order X ≡ₚ elements X).

Definition encoder_spec : EncoderSpec ec := {|
  enc_good := ec_inv feats size;
  enc_req rid fs := fs = feats rid ∧ feats_ok fs;
  enc_planned e r inputs external := req_ok feats r ∧ ∃ budget a, booked feats size r budget a e ∧
    inputs = encoder_inputs_to_schedule a ∧ external = external_load_encoder_input a;
|}.


Lemma get_num_embeds_run r i :
  req_ok feats r → 0 ≤ i < zlen (mm_features r) → ∃ n, get_num_encoder_embeds r i = Ok n ∧ 0 ≤ n.
Proof.
  intros Hr Hi. unfold get_num_encoder_embeds. rewrite (proj2 (Z.ltb_lt _ _)) by lia.
  destruct (lookup_lt_is_Some_2 (mm_features r) (Z.to_nat i)) as [f Hf]; [unfold zlen in Hi; lia|].
  exists (get_num_embeds (mm_position f)). unfold py_index. rewrite !(proj2 (Z.ltb_ge i 0)) by lia. rewrite Hf. split; [done|].
  rewrite (proj2 Hsz (EncoderCache.request_id r) f); [apply Hsz|]. rewrite <-Hr. by eapply list_elem_of_lookup_2.
Qed.

Lemma free_inputs_run lookahead r e :
  ec_inv feats size e → req_ok feats r → ∃ e', _free_encoder_inputs set_order lookahead r e = (Ok tt, e') ∧ ec_inv feats size e'.
Proof.
  intros He Hr. unfold _free_encoder_inputs. cbn [em_ids em_encoder_decoder em_free_input ec_manager]. run_step.
  case_bool_decide; [by exists e|]. cbn [andb].
  set (passed i := match py_index (mm_features r) i with
    | Ok f => offset (mm_position f) + p_length (mm_position f) + lookahead <=? num_computed_tokens r - num_output_placeholders r
    | Raise _ => false end).
  assert (Hids : ∀ i, i ∈ set_order (get_cached_input_ids r e) → ∃ h, input_is feats (EncoderCache.request_id r) i h).
  { intros i Hi. rewrite Hord in Hi. apply elem_of_elements in Hi. by apply (ei_ids _ _ _ He). }
  match goal with |- context [mfor _ ?g] =>
    destruct (release_list_run feats size Hsz set_order Hord r passed g (set_order (get_cached_input_ids r e)) e He Hr Hids)
      as (e' & Hrun & He' & _) end; [|by exists e'].
  intros i s Hi. destruct (Hids i Hi) as [h Hh]. destruct (input_feature feats size Hsz r i h Hr Hh) as (f & Hf & _).
  unfold passed. rewrite Hf. unfold bind, lift. by destruct (_ <=? _).
Qed.

Lemma encoder_laws : EncoderLaws (H0 := encoder_spec) ec set_order.
Proof.
  split; cbn -[em_free em_freed allocate_inputs _try_schedule_encoder_inputs].
  - intros e r no_chunks computed n budget shift He [Hr Hfs] Hn Hshift Hbud.
    destruct (try_schedule_run feats size r None no_chunks computed n budget shift e Hsz He Hr Hfs Hn Hshift Hbud)
      as (a & e' & Hrun & Hb & Hna & Hcut & _).
    do 5 eexists. split; [exact Hrun|]. split; [apply Hb|]. split; [done|].
    split; [apply (bk_budget _ _ _ _ _ _ Hb)|]. split; [|split; [exact Hcut|]].
    { split; [done|]. by exists budget, a. }
    intros i Hi. apply (bk_valid _ _ _ _ _ _ Hb). unfold booked_items. set_solver.
  - intros e r inputs external He (Hr & budget & a & Hb & -> & ->).
    destruct (allocate_booked feats size Hsz r Hr budget a e Hb) as (e' & Hrun & He' & _). by exists e'.
  - intros e r He [Hr _]. destruct (ec_free_run feats size Hsz set_order Hord r e He Hr) as (e' & Hrun & He' & _ & _ & Hrl).
    exists e'. split; [done|]. split; [done|]. intros r' inputs external (Hr' & budget & a & Hb & -> & ->). split; [done|].
    exists budget, a. split; [|done]. apply (booked_mono feats size r' budget a e); try done.
    + intros h. rewrite <-!not_elem_of_dom. by rewrite (rl_dom _ _ _ _ Hrl).
    + rewrite (proj1 (rl_free _ _ _ _ Hrl)). lia.
  - intros e r lookahead He [Hr _]. by apply free_inputs_run.
  - intros e He. eexists _, _. split; [reflexivity|]. by apply freed_inv.
  - intros r i [Hr _]. by apply get_num_embeds_run.
Qed.
End Encoder.

(** ** The KV-cache manager without prefix caching *)

(** A group whose window or chunk has a length. *)
Definition group_ok (c : mconf) : Prop :=
  0 < block_size c ∧
  match kind c with
  | FullAttention | RSWA _ => True
  | SlidingWindow w extra => 1 ≤ w ∧ 0 ≤ extra
  | ChunkedLocal ch => 0 < ch
  end.

Lemma num_skipped_le c n : group_ok c → 0 ≤ n → num_skipped c n ≤ cdiv n (block_size c).
Proof.
  intros [Hb Hk] Hn. unfold num_skipped.
  assert (get_num_skipped_tokens c n ≤ n) as Hle.
  { unfold get_num_skipped_tokens. destruct (kind c); [lia| |lia|]; try lia.
    pose proof (Z.mul_div_le n attention_chunk_size). nia. }
  apply (Z.div_le_mono _ _ (block_size c)) in Hle; [|lia]. etransitivity; [exact Hle|].
  assert (n ≤ cdiv n (block_size c) * block_size c) as Hc by by apply cdiv_le.
  apply Z.div_le_upper_bound; lia.
Qed.

(** Managers with the same tables for the requests in [P]. *)
Definition same_for (P : string → Prop) (m m' : manager) : Prop :=
  conf m' = conf m ∧ ∀ rid, P rid → tbl m' rid = tbl m rid ∧ _partial_hit_reqs m' !! rid = _partial_hit_reqs m !! rid.

Lemma only_same rid m m' : only_request rid m m' → same_for (.≠ rid) m m'.
Proof. intros []. split; [done|]. intros r Hr. unfold tbl. by rewrite or_tables, or_partial. Qed.

Section KV.
Context (c : kvconf) (Hoff : kv_enable_caching c = false) (Hwater : 0 ≤ watermark_blocks c).

Definition all_managers (k : kv) (P : manager → Prop) : Prop := ∀ i m, single_type_managers k !! i = Some m → P m.

Definition table_holds (rid : string) (n : Z) (m : manager) : Prop :=
  _partial_hit_reqs m !! rid = None ∧ cdiv n (block_size (conf m)) ≤ zlen (tbl m rid).
Definition table_empty (rid : string) (m : manager) : Prop :=
  _partial_hit_reqs m !! rid = None ∧ tbl m rid = [].

Definition kv_spec : KVSpec kv (H := kv_manager c) := {|
  kv_good out k := (∃ l, kv_acct (λ b, occ b out) k l) ∧ all_managers k (λ m, group_ok (conf m));
  kv_ready k rid n := all_managers k (table_holds rid n);
  kv_idle k rid := all_managers k (table_empty rid);
  kv_hit k rid hits n := hits = None ∧ n = 0;
  kv_limit := max_model_len c;
|}.

(** The managers moved one by one. *)
Definition moved (R : manager → manager → Prop) (k k' : kv) : Prop :=
  length (single_type_managers k') = length (single_type_managers k) ∧
  ∀ i m, single_type_managers k !! i = Some m → ∃ m', single_type_managers k' !! i = Some m' ∧ R m m'.

Lemma moved_back R k k' i m' : moved R k k' → single_type_managers k' !! i = Some m' →
  ∃ m, single_type_managers k !! i = Some m ∧ R m m'.
Proof.
  intros [Hl Hm] Hi. apply lookup_lt_Some in Hi as Hlt. rewrite Hl in Hlt.
  destruct (lookup_lt_is_Some_2 _ _ Hlt) as [m Hk]. destruct (Hm i m Hk) as (m2 & Hi2 & HR). exists m. split; [done|]. congruence.
Qed.

Lemma moved_all R k k' (P P' : manager → Prop) :
  moved R k k' → (∀ m m', R m m' → P m → P' m') → all_managers k P → all_managers k' P'.
Proof. intros Hm HR HP i m' Hi. destruct (moved_back _ _ _ _ _ Hm Hi) as (m & Hk & HRm). eapply HR; [done|]. by eapply HP. Qed.

Lemma moved_mono (R R' : manager → manager → Prop) k k' : (∀ m m', R m m' → R' m m') → moved R k k' → moved R' k k'.
Proof. intros HR [Hl Hm]. split; [done|]. intros i m Hi. destruct (Hm i m Hi) as (m' & ? & ?). exists m'. auto. Qed.

Lemma moved_preserves (P : string → Prop) k k' : moved (same_for P) k k' → kv_preserves (H0 := kv_spec) P k k'.
Proof.
  intros Hm rid HP. split; [intros n|]; cbn; apply (moved_all _ _ _ _ _ Hm);
    intros m m' [Hc Hs]; destruct (Hs rid HP) as [Ht Hp]; unfold table_holds, table_empty; by rewrite ?Hc, Ht, Hp.
Qed.

Lemma moved_groups (P : string → Prop) k k' : moved (same_for P) k k' → all_managers k (λ m, group_ok (conf m)) →
  all_managers k' (λ m, group_ok (conf m)).
Proof. intros Hm. apply (moved_all _ _ _ _ _ Hm). by intros m m' [-> _]. Qed.

(** A loop of steps that leave the pool alone. *)
Lemma each_pure {A} (f : M SingleTypeManager.st A) (g : manager → A) (h : manager → manager) (s : kv) :
  (∀ p m, f (p, m) = (Ok (g m), (p, h m))) →
  each (λ _, f) s = (Ok (g <$> single_type_managers s), KV (kv_pool s) (h <$> single_type_managers s)).
Proof.
  intros Hf. unfold each. generalize 0%nat as i. induction (single_type_managers s) as [|m ms IH]; intros i; [done|].
  cbn [for_managers]. rewrite Hf. specialize (IH (S i)). destruct (for_managers _ (S i) _ _) as [r [p' ms']].
  injection IH as -> -> ->. done.
Qed.

Lemma moved_map (R : manager → manager → Prop) h (s : kv) p :
  (∀ m, R m (h m)) → moved R s (KV p (h <$> single_type_managers s)).
Proof.
  intros HR. split; cbn; [by rewrite length_fmap|]. intros i m Hi. exists (h m). by rewrite list_lookup_fmap, Hi.
Qed.

(** No call adds or removes a manager. *)
Definition groups (n : nat) (k : kv) : Prop := length (single_type_managers k) = n.

Lemma each_groups {A} (f : nat → M SingleTypeManager.st A) n : stable (groups n) (each f).
Proof.
  intros k <-. unfold each, groups. generalize 0%nat as i. generalize (kv_pool k) as p.
  induction (single_type_managers k) as [|m ms IH]; intros p i; [done|]. cbn [for_managers].
  destruct (f i (p, m)) as [[a|e] [p1 m1]]; [|done]. specialize (IH p1 (S i)).
  destruct (for_managers f (S i) p1 ms) as [[xs|e] [p2 ms2]]; cbn in *; lia.
Qed.

Lemma allocate_slots_groups x n ncomp hits look external delay full reserved sched m :
  stable (groups m) (allocate_slots c x n ncomp hits look external delay full reserved sched).
Proof.
  unfold allocate_slots, coord_remove_skipped_blocks, allocate_new_computed_blocks, coord_allocate_new_blocks, coord_cache_blocks.
  repeat first [apply each_groups|stable_step idtac].
Qed.

(** An allocation for a request whose tables hold its computed tokens. *)
Lemma kv_allocate_run out (k : kv) x n look full sched :
  let rid := req_id (SingleTypeManager.request x) in
  let computed := SingleTypeManager.num_computed_tokens x in
  (∃ l, kv_acct (λ b, occ b out) k l) → all_managers k (λ m, group_ok (conf m)) →
  all_managers k (λ m, _partial_hit_reqs m !! rid = None ∧
    (computed = 0 ∨ cdiv computed (block_size (conf m)) ≤ zlen (tbl m rid))) → 0 ≤ computed → 0 < n → 0 ≤ look →
  computed + n ≤ max_model_len c → 0 ≤ num_prompt_tokens (SingleTypeManager.request x) →
  ∃ res k', allocate_slots c x n 0 None look 0 false full 0 sched k = (Ok res, k') ∧ (∃ l, kv_acct (λ b, occ b out) k' l) ∧
    moved (only_request rid) k k' ∧
    match res with
    | Some _ => all_managers k' (table_holds rid (computed + n))
    | None => moved (λ m m', conf m' = conf m ∧ zlen (tbl m' rid) = zlen (tbl m rid) ∧
                (_partial_hit_reqs m !! rid = None → _partial_hit_reqs m' !! rid = None)) k k'
    end.
Proof.
  intros rid computed [l Ha] Hgr Hhold Hc0 Hn Hlook Hmax Hprompt.
  assert (Hrefl : moved (only_request rid) k k) by (split; [done|]; intros i m Hi; by exists m).
  assert (Hlen : ∀ r k', allocate_slots c x n 0 None look 0 false full 0 sched k = (r, k') →
    length (single_type_managers k') = length (single_type_managers k)).
  { intros r k' Hr. pose proof (allocate_slots_groups x n 0 None look 0 false full 0 sched _ k eq_refl) as Hs.
    by rewrite Hr in Hs. }
  assert (Hok : call_ok c x n 0 None look 0 0 k).
  { split; try done; try lia.
    - intros i m Hi. by apply (Hgr i).
    - cbn. by rewrite length_replicate.
    - right. split; [|by left]. intros i m Hi. destruct (Hhold i m Hi) as [Hp Ht].
      unfold total_tokens, local_tokens. rewrite !Z.add_0_r. split; [split; [done|right]|].
      + pose proof (num_skipped_le (conf m) _ (Hgr i m Hi) Hc0) as Hs. destruct Ht as [Hz|Ht]; [|by etransitivity].
        fold computed. rewrite Hz in Hs |- *. pose proof (zlen_nonneg (tbl m (req_id (SingleTypeManager.request x)))).
        assert (cdiv 0 (block_size (conf m)) = 0) as H0 by (apply cdiv_unique; [apply (Hgr i m Hi)|pose proof (proj1 (Hgr i m Hi)); lia]).
        lia.
      + unfold hit_at, hits_in. cbn. rewrite lookup_replicate_2; [done|]. by eapply lookup_lt_Some. }
  destruct (full_fits_dec c x n 0 None look 0 full 0 sched k Hok) as [Hfit|Hno].
  2: { destruct (allocate_slots_start c x n 0 None look 0 false full 0 sched k Hok) as [Hnone _].
       exists None, k. split; [by apply Hnone|]. split; [by exists l|]. split; [done|].
       split; [done|]. intros i m Hi. by exists m. }
  destruct (allocate_slots_run c x n 0 None look 0 false full 0 sched (λ b, occ b out) k l (λ b, occ_nonneg b out) Ha Hok Hfit)
    as (s1 & l1 & nb & Hskip & Ha1 & Hl1 & HN1 & Hcount & Hnone & Hsome & Hs1).
  destruct (decide (nb + headroom c x sched ≤ zlen l1 - 0)) as [Hle|Hgt].
  - destruct (Hsome Hle) as (new & s2 & l2 & Hcall & Ha2 & _ & Hall). exists (Some new), s2.
    assert (Hrun : allocate_slots c x n 0 None look 0 false full 0 sched k = (Ok (Some new), s2)).
    { rewrite Hcall. unfold commit. by rewrite Hoff. }
    assert (Hmv : moved (λ m m', only_request rid m m' ∧
      cdiv (slots_needed c x n 0 look 0) (block_size (conf m)) ≤ zlen (tbl m' rid) ∧ _partial_hit_reqs m' !! rid = None) k s2).
    { split; [by eapply Hlen|]. intros i m Hi. destruct (Hall i m Hi) as (m' & ? & ? & ? & ?). by exists m'. }
    split; [done|]. split; [by exists l2|]. split; [eapply moved_mono; [|exact Hmv]; by intros m m' []|].
    intros i m' Hi. destruct (moved_back _ _ _ _ _ Hmv Hi) as (m & Hk & Ho & Hz & Hp). split; [done|].
    rewrite (or_conf _ _ _ Ho). etransitivity; [|exact Hz]. apply cdiv_mono; [by apply (Hgr i)|].
    unfold slots_needed, total_tokens, local_tokens. fold computed. lia.
  - exists None, s1. assert (Hrun : allocate_slots c x n 0 None look 0 false full 0 sched k = (Ok None, s1)) by (apply Hnone; lia).
    split; [done|]. split; [by exists l1|].
    split; (split; [by eapply Hlen|]); intros i m Hi; destruct (Hs1 i m Hi) as (m1 & Hi1 & Ho & Hz & Hp); exists m1; [done|].
    split; [done|]. split; [apply Ho|]. split; [exact Hz|done].
Qed.

(** A loop that hands references out and leaves the pool alone. *)
Lemma each_hands_out {A} (f : M SingleTypeManager.st A) (g : manager → A) (h : manager → manager) (given : A → list Z) P out k :
  (∀ p m, f (p, m) = (Ok (g m), (p, h m))) →
  (∀ p m, ∃ a m', f (p, m) = (Ok a, (p, m')) ∧ (∀ b, mrefs m b = mrefs m' b + occ b (given a)) ∧ (partial_ok m → partial_ok m')) →
  (∀ m, same_for P m (h m)) → kv_good (KVSpec := kv_spec) out k →
  ∃ k', each (λ _, f) k = (Ok (g <$> single_type_managers k), k') ∧
    kv_good (KVSpec := kv_spec) (out ++ mjoin (given ∘ g <$> single_type_managers k)) k' ∧
    kv_preserves (H0 := kv_spec) P k k' ∧ k' = KV (kv_pool k) (h <$> single_type_managers k).
Proof.
  intros Hf Hg Hs [[l Ha] Hgr]. pose proof (each_pure f g h k Hf) as Hpure.
  destruct (each_give f given Hg _ k l Ha) as (xs & k' & Hrun & _ & Ha'). rewrite Hpure in Hrun. injection Hrun as <- <-.
  eexists. split; [done|].
  assert (Hm : moved (same_for P) k (KV (kv_pool k) (h <$> single_type_managers k))) by by apply moved_map.
  split; [split; [|by eapply moved_groups]|split; [by apply moved_preserves|done]].
  exists l. eapply kv_acct_ext; [|exact Ha']. intros b. cbn. by rewrite occ_app, <-list_fmap_compose.
Qed.

Lemma new_ids_gives p m :
  ∃ a m', take_new_block_ids (p, m) = (Ok a, (p, m')) ∧ (∀ b, mrefs m b = mrefs m' b + occ b ((λ _, []) a)) ∧
    (partial_ok m → partial_ok m').
Proof.
  exists (new_block_ids m), (with_new_ids (λ _, []) m). split; [done|]. split; [|done].
  intros b. change (occ b _) with 0 at 1. unfold mrefs, total_occ. cbn. lia.
Qed.

Lemma kv_laws : KVLaws (H := kv_manager c) (H0 := kv_spec) kv.
Proof.
  split; cbn -[kv_good kv_preserves].
  - intros out out' k Hp [[l Ha] Hg]. split; [|done]. exists l. eapply kv_acct_ext; [|exact Ha]. intros b. cbn. by apply occ_perm.
  - intros out k r skip _ _ Hr. exists None, 0. unfold get_computed_blocks. rewrite Hoff. cbn. split; [done|]. split; [lia|done].
  - intros out k x n ncomp hits look full sched [Hacct Hg] Hkind Hc0 Hn0 Hn Hlook Hmax Hprompt.
    assert (hits = None ∧ ncomp = 0) as [-> ->] by (destruct Hkind as [(_ & _ & ? & ?)|(_ & ? & ?)]; done).
    destruct (kv_allocate_run out k x n look full sched Hacct Hg) as (res & k' & Hrun & Hacct' & Hm & Hres); try done; try lia.
    { intros i m Hi. destruct Hkind as [(Hz & Hidle & _)|(Hready & _)].
      - destruct (Hidle i m Hi). split; [done|]. by left.
      - destruct (Hready i m Hi). split; [done|]. by right. }
    assert (Hm' : moved (same_for (.≠ req_id (SingleTypeManager.request x))) k k')
      by (eapply moved_mono; [|exact Hm]; apply only_same).
    exists res, k'. split; [done|]. split; [split; [done|by eapply moved_groups]|]. split; [by apply moved_preserves|].
    destruct res as [bs|]; [by rewrite Z.add_0_r|]. split.
    + apply (moved_all _ _ _ _ _ Hres). intros m m' (_ & Hz & Hp) [Hp0 Ht]. split; [by apply Hp|].
      apply zlen_zero. rewrite Hz. by apply zlen_zero.
    + apply (moved_all _ _ _ _ _ Hres). intros m m' (Hcf & Hz & Hp) [Hp0 Ht]. split; [by apply Hp|]. by rewrite Hcf, Hz.
  - intros out k rid [[l Ha] Hg].
    destruct (free_loop_kv (λ b, occ b out) rid k l (λ b, occ_nonneg b out) Ha) as (k' & l' & Hrun & Ha' & _ & _ & Hlen & Hall).
    assert (Hm : moved (λ m m', only_request rid m m' ∧ req_to_blocks m' !! rid = None ∧ _partial_hit_reqs m' !! rid = None) k k')
      by done.
    assert (Hm' : moved (same_for (.≠ rid)) k k') by (eapply moved_mono; [|exact Hm]; intros m m' [Ho _]; by apply only_same).
    exists k'. split; [done|]. split; [split; [by exists l'|by eapply moved_groups]|]. split; [by apply moved_preserves|].
    intros i m' Hi. destruct (moved_back _ _ _ _ _ Hm Hi) as (m & _ & _ & Ht & Hp). split; [done|]. unfold tbl. by rewrite Ht.
  - intros out k rid Hgood.
    destruct (each_hands_out (pop_blocks_for_free rid) (λ m, tbl m rid)
      (λ m, with_partial (delete rid) (with_cached (delete rid) (with_tables (delete rid) m))) (λ x, x) (.≠ rid) out k)
      as (k' & Hrun & Hgood' & Hk & Heq); [done|apply pop_gives| |done|].
    { intros m. split; [done|]. intros r Hr. unfold tbl. cbn -[delete]. by rewrite !lookup_delete_ne. }
    eexists _, k'. unfold coord_pop_blocks_for_free. rewrite (bind_ok _ _ _ _ _ Hrun). split; [done|]. split; [exact Hgood'|].
    split; [done|]. intros i m' Hi. subst k'. cbn in Hi. rewrite list_lookup_fmap in Hi.
    destruct (single_type_managers k !! i) as [m|]; [|done]. injection Hi as <-. unfold table_empty, tbl. cbn -[delete].
    by rewrite !lookup_delete_eq.
  - intros out k rid processed prompt [[l Ha] Hg] Hheld Hprompt.
    destruct (skip_each (λ b, occ b out) rid processed prompt k l (λ b, occ_nonneg b out) Ha)
      as (k' & l' & Hrun & Ha' & _ & _ & Hlen & Hall).
    { intros i m Hi. split; [|split; [by apply (Hg i)|done]].
      destruct Hheld as [Hidle|[n Hready]]; [by destruct (Hidle i m Hi)|by destruct (Hready i m Hi)]. }
    assert (Hm : moved (same_for (.≠ rid)) k k').
    { split; [done|]. intros i m Hi. destruct (Hall i m Hi) as (m' & Hi' & Ho & _). exists m'. split; [done|]. by apply only_same. }
    exists k'. split; [done|]. split; [split; [by exists l'|by eapply moved_groups]|by apply moved_preserves].
  - intros out k rid n n' [_ Hg] Hready Hle i m Hi. destruct (Hready i m Hi) as [Hp Ht]. split; [done|].
    etransitivity; [|exact Ht]. apply cdiv_mono; [by apply (Hg i)|lia].
  - intros out out' bs k [[l Ha] Hg] Hp.
    destruct (kv_release_run k out bs out' l Ha Hp) as (k' & l' & Hrun & Ha' & _).
    exists k'. split; [done|].
    assert (single_type_managers k' = single_type_managers k) as Hsame.
    { unfold on_kv_pool, zoom in Hrun. destruct (free_blocks bs (kv_pool k)) as [? ?]. by injection Hrun as _ <-. }
    assert (Hm : moved (same_for (λ _, True)) k k').
    { split; rewrite Hsame; [done|]. intros i m Hi. exists m. split; [done|]. by split. }
    split; [split; [by exists l'|by eapply moved_groups]|by apply moved_preserves].
  - intros out k Hgood.
    destruct (each_hands_out take_pending_cow_copies _pending_cow_copies (with_cow (λ _, [])) endpoints (λ _, True) out k)
      as (k' & Hrun & Hgood' & Hk & _); [done|apply take_cow_gives|done|done|].
    eexists _, _, k'. unfold take_kv_cache_block_copies. rewrite (bind_ok _ _ _ _ _ Hrun). split; [done|].
    rewrite list_fmap_compose, <-endpoints_join in Hgood'. split; [exact Hgood'|]. split; [by intros ->|done].
  - intros out k Hgood.
    destruct (each_hands_out take_new_block_ids new_block_ids (with_new_ids (λ _, [])) (λ _, []) (λ _, True) out k)
      as (k' & Hrun & Hgood' & Hk & _); [done|apply new_ids_gives|done|done|].
    eexists _, k'. unfold kv_take_new_block_ids. rewrite (bind_ok _ _ _ _ _ Hrun). split; [done|].
    split; [|done]. replace (mjoin _) with (@nil Z) in Hgood'; [by rewrite app_nil_r in Hgood'|].
    generalize (single_type_managers k) as ms. clear. induction ms as [|m ms IH]; [done|exact IH].
Qed.
End KV.
