(* ===== verification/RequestSchedulerProps.v ===== *)
(** * What a scheduling step guarantees: the properties

    The theorems on [schedule] (RequestScheduler.v), from [schedule_run] of
    RequestSchedulerSpec.v, for any managers and queues that keep the laws; and
    their instances at concrete runs of the KV-cache manager without prefix
    caching, the encoder cache and both request queues. *)

From S2P Require Import Prelude PyData Float FreeQueue BlockHasher BlockPool SingleTypeManager KVCacheManager KVCacheManagerSpec.
From S2P Require Import EncoderCache EncoderCacheSpec RequestQueue Scheduler StopConditions RequestScheduler SchedulerInterfaces.
From S2P Require Import RequestSchedulerSpec SchedulerInstances.
From stdpp Require Import base gmap sets list strings.
From Stdlib Require Import ZArith Lia.
Open Scope Z_scope.

Section Properties.
Context {K E Q : Type} `{KVLaws K} `{EncoderLaws E set_order} `{QueueLaws Q}.
Implicit Types (s : rsched K E Q) (c : sconf).

(** What a step does not change of a request, and its computed tokens. *)
Definition fixed_of s (r : req) : option fixed_part := fx <$> requests s !! RequestQueue.request_id r.
Definition computed_of s (r : req) : Z := default 0 ((λ x, r_computed (mv x)) <$> requests s !! RequestQueue.request_id r).

(** The tokens a step may schedule. *)
Definition step_limit c s : Z := match _pause_state (bk s) with PAUSED_ALL => 0 | _ => sc_max_scheduled c end.

(** A step can start. *)
Record may_step c (all : list req) s : Prop := {
  ms_conf : conf_ok (kv_limit (K := K)) c;
  ms_ids : NoDup (RequestQueue.request_id <$> all);
  ms_settled : settled c all s;
  ms_opened : opened c s;
  ms_loras : loras_fit c (fixed_of s) (running s);
}.

Lemma schedule_spec c all throttle s : may_step c all s →
  ∃ p out freed s1 s', schedule c set_order throttle s = (Ok (p, out, freed), s') ∧
    inv c all (step_limit c s) (sc_max_batched c) (fixed_of s) (running s) (computed_of s) False [] s1 p ∧ settled c all s' ∧
    (∀ r, r ∈ all → fixed_of s' r = fixed_of s r) ∧ order_kept c s p s' ∧ running s' = running s1 ∧
    (∀ r, r ∈ running s' → r ∈ running s → computed_of s' r = computed_of s r + granted p (RequestQueue.request_id r)).
Proof.
  intros [Hc Hn Hs Ho Hl].
  destruct (schedule_run c Hc all Hn (step_limit c s) (sc_max_batched c) (fixed_of s) (running s) (computed_of s) False throttle s)
    as (p & out & freed & s1 & s' & Hrun & Hi & Hs' & HF & Hok & Hr & HC & _); try done.
  { intros r x _ Hx. unfold computed_of. by rewrite Hx. }
  exists p, out, freed, s1, s'. split_and!; try done. intros r Hr' Hr0.
  destruct (se_known _ _ _ Hs' r) as (x & Hx & _); [rewrite <-(se_perm _ _ _ Hs'); set_solver|].
  unfold computed_of at 1. rewrite Hx. by apply (HC r x).
Qed.

(** C8: a scheduling step that may start ([may_step]) stays within its limits. It
    may start with a sensible configuration (limits and lookaheads that are not
    negative, a KV-cache manager made for at least the scheduler's maximal model
    length, and padded decodes that are not cut off: no long-prefill threshold, or
    one above the number of speculative tokens), distinct request ids, settled
    managers and queues, no more running requests than allowed, and no more adapters
    among the running requests than LoRA slots, all of which the synchronous engine
    establishes ([engine_never_fails]); [padded_decode_cut_off] and
    [lora_limit_exceeded] show assertions that fail otherwise. Then [schedule]
    returns: none of its assertions fails and no loop runs on. Every scheduled
    request gets at least one token and is running afterwards; the requests with
    tokens are exactly the new, the resumed and the continued ones of the plan, each
    once; the tokens together do not exceed [max_num_scheduled_tokens] (none if
    everything is paused), and with the draft slots of each request not
    [max_num_batched_tokens]; at most [max_num_running_reqs] requests run, and no
    running request is computed beyond the model length. *)
Theorem schedule_within_limits c all throttle s : may_step c all s →
  ∃ p out freed s', schedule c set_order throttle s = (Ok (p, out, freed), s') ∧
    dkeys (num_scheduled_tokens p) ≡ₚ RequestQueue.request_id <$> planned_reqs p ∧ dict_ok (num_scheduled_tokens p) ∧
    (∀ rid n, dget rid (num_scheduled_tokens p) = Some n → 0 < n) ∧
    sum_scheduled p ≤ step_limit c s ∧
    sum_scheduled p + sc_draft_slots c * zlen (num_scheduled_tokens p) ≤ sc_max_batched c ∧
    (∀ r, r ∈ planned_reqs p → r ∈ running s') ∧ zlen (running s') ≤ sc_max_running c ∧
    ∀ r, r ∈ running s' → 0 ≤ computed_of s' r ≤ sc_max_model_len c.
Proof.
  intros Hs. destruct (schedule_spec c all throttle s Hs) as (p & out & freed & s1 & s' & Hrun & Hi & Hs' & _ & _ & Hr & _).
  exists p, out, freed, s'. split; [done|]. destruct (iv_pass _ _ _ _ _ _ _ _ _ _ _ Hi) as [? ? ? ? [? ?] [? ?] ? ? ?].
  split_and!; try done; try lia; [rewrite Hr; apply (iv_sub _ _ _ _ _ _ _ _ _ _ _ Hi)|apply Hs'|].
  intros r Hr'. destruct (se_known _ _ _ Hs' r) as (x & Hx & _); [rewrite <-(se_perm _ _ _ Hs'); set_solver|].
  unfold computed_of. rewrite Hx. by apply (se_run _ _ _ Hs' r x).
Qed.

(** C9: a step that may start ([may_step]: a sensible configuration and the state
    the synchronous engine keeps) loses no request and leaves the scheduler
    consistent.  Afterwards the running list and the two waiting queues hold
    together exactly the requests they held before; a running request has status
    RUNNING and its tables hold its computed tokens, a waiting one has not, and
    holds nothing if it has computed nothing; the accounts of the KV-cache manager
    and of the encoder cache still balance, with the blocks whose release is
    deferred counted.  Prompt, features and the other fixed fields of the requests
    are untouched, and a request that keeps running moves on by exactly the tokens
    it was given. *)
Theorem schedule_keeps_requests c all throttle s : may_step c all s →
  ∃ p out freed s', schedule c set_order throttle s = (Ok (p, out, freed), s') ∧ settled c all s' ∧
    running s' ++ service (waiting (rqs s')) ++ service (skipped_waiting (rqs s'))
      ≡ₚ running s ++ service (waiting (rqs s)) ++ service (skipped_waiting (rqs s)) ∧
    (∀ r, r ∈ all → fixed_of s' r = fixed_of s r) ∧
    ∀ r, r ∈ running s → r ∈ running s' →
      computed_of s' r = computed_of s r + granted p (RequestQueue.request_id r).
Proof.
  intros Hs. destruct (schedule_spec c all throttle s Hs) as (p & out & freed & s1 & s' & Hrun & _ & Hs' & HF & _ & _ & HC).
  exists p, out, freed, s'. split; [done|]. split; [done|].
  split; [by rewrite (se_perm _ _ _ Hs'), (se_perm _ _ _ (ms_settled _ _ _ Hs))|]. split; [done|]. auto.
Qed.

(** C10: who is preempted in a step that may start ([may_step]), and where the
    victims go.  If nobody is preempted, the running requests keep their places and
    the admitted ones come after them.  Otherwise the step admits nobody; the
    running list loses exactly the victims, in the order it had; they are prepended
    to the waiting queue one by one.  Under FCFS the victims are the last running
    requests, the last one first, so the earliest of them ends up first in the
    queue; under the priority policy no victim ranks below (in priority, then
    arrival time) a request that keeps running. *)
Theorem preemption_order c all throttle s : may_step c all s →
  ∃ p out freed s', schedule c set_order throttle s = (Ok (p, out, freed), s') ∧
    (preempted_reqs p = [] → running s `prefix_of` running s') ∧
    (preempted_reqs p ≠ [] →
      scheduled_new_reqs p = [] ∧ scheduled_resumed_reqs p = [] ∧ running s ≡ₚ running s' ++ preempted_reqs p ∧
      running s' `sublist_of` running s ∧ skipped_waiting (rqs s') = skipped_waiting (rqs s) ∧
      service (waiting (rqs s')) = foldl (λ l r, prepended r l) (service (waiting (rqs s))) (preempted_reqs p) ∧
      if sc_priority c then ∀ v r, v ∈ preempted_reqs p → r ∈ running s' → ranks_below v r = false
      else running s = running s' ++ reverse (preempted_reqs p)).
Proof.
  intros Hs. destruct (schedule_spec c all throttle s Hs) as (p & out & freed & s1 & s' & Hrun & _ & _ & _ & [Hnone Hsome] & _).
  exists p, out, freed, s'. split; [done|]. split; [done|]. intros Hne.
  destruct (Hsome Hne) as (? & ? & ? & ? & ? & ? & ?). done.
Qed.
End Properties.

(** *** Witnesses

    Two requests of twelve tokens, in chunks of four, and a cache of four blocks of
    four tokens: the third step has no block left for the first request. *)
Definition step_kvconf : kvconf := KVConf 16 false 0 None 0 false None.
#[local] Instance step_kv_manager : KVCache kv := kv_manager step_kvconf.
Definition step_groups : list mconf := [MConf FullAttention 4 false 0 4 false false None].
Definition step_conf (prio : bool) : sconf :=
  SConf 8 8 4 0 4 16 1 0 0 0 false true None 0 prio false false false false false false.
Definition step_key (t : Z) (id : string) : RequestQueue.req := RequestQueue.Req 0 t id 0.
Definition step_request (r : RequestQueue.req) : sreq :=
  SR (Fixed r (BlockHasher.Req (RequestQueue.request_id r) (zrange 0 12) 12 [] None None None []) [] 100 None
        GReady 0 false 0 (Some (Sampling None [] 0 None)))
     (Moving WAITING [] 0 0 0 0 false 0 false 0).
Definition step_kv : kv :=
  match pool_init 5 false 4 with Ok p => KV p (new_manager <$> step_groups) | Raise _ => KVCacheManagerSpec.demo_kv end.
Definition step_all : list RequestQueue.req := [step_key 1 "a"; step_key 2 "b"].
(** The laws of the managers at this instance. *)
Definition step_encoder : EncoderSpec ec := encoder_spec (λ _, []) (λ _, 0).
#[local] Instance step_kv_spec : KVSpec kv := kv_spec step_kvconf.
#[local] Instance step_encoder_spec : EncoderSpec ec := step_encoder.
#[local] Instance step_kv_laws : KVLaws kv.
Proof. by apply (kv_laws step_kvconf). Qed.

Lemma step_sizes_ok : sizes_ok (λ _, []) (λ _, 0).
Proof. split; [done|]. by intros ? ? ?%elem_of_nil. Qed.

#[local] Instance step_encoder_laws : EncoderLaws ec elements.
Proof. by apply encoder_laws; [apply step_sizes_ok|]. Qed.

Lemma step_conf_ok prio : conf_ok (kv_limit (K := kv)) (step_conf prio).
Proof. split; cbn; try lia; done. Qed.

Lemma step_kv_good : kv_good [] step_kv.
Proof.
  split.
  - pose proof (kv_init 5 false 4 step_groups) as Hinit. assert (∃ p, pool_init 5 false 4 = Ok p) as [p Hp] by (eexists; by vm_compute).
    assert (step_kv = KV p (new_manager <$> step_groups)) as -> by (unfold step_kv; by rewrite Hp).
    destruct (kv_reachable_inv _ _ _ _ _ (Hinit p Hp)) as [_ Hl]. exact Hl.
  - intros i m Hm. assert (m ∈ single_type_managers step_kv) as Hin by by eapply list_elem_of_lookup_2.
    assert (m = new_manager (MConf FullAttention 4 false 0 4 false false None)) as -> by (vm_compute in Hin; set_solver).
    split; [cbn; lia|done].
Qed.

Lemma step_kv_idle rid : kv_idle step_kv rid.
Proof.
  intros i m Hm. assert (m ∈ single_type_managers step_kv) as Hin by by eapply list_elem_of_lookup_2.
  assert (m = new_manager (MConf FullAttention 4 false 0 4 false false None)) as -> by (vm_compute in Hin; set_solver). done.
Qed.

Section StepDemo.
Context {Q : Type} `{QueueLaws Q}.

Definition step_state : rsched kv ec Q :=
  RSched {["a" := step_request (step_key 1 "a"); "b" := step_request (step_key 2 "b")]} (Queues (queue_of step_all) new_queue) []
    step_kv (ec_init 0) (Books ∅ ∅ ∅ 0 ∅ 0 0 0 [] false UNPAUSED).
Definition step_run (prio : bool) (s : rsched kv ec Q) : result (pass * SchedulerOutput * list string) * rsched kv ec Q :=
  schedule (step_conf prio) elements false s.

Lemma step_settled prio : settled (step_conf prio) step_all (step_state : rsched kv ec Q).
Proof.
  destruct (law_new (Q := Q)) as [Hn1 Hn2]. destruct (queue_of_run (Q := Q) step_all) as [Hq1 Hq2].
  assert (Hkeys : ∀ r, r ∈ step_all → requests (step_state : rsched kv ec Q) !! RequestQueue.request_id r = Some (step_request r)).
  { intros r [-> | [-> | ?%elem_of_nil]%elem_of_cons]%elem_of_cons; done. }
  split; try done.
  - cbn -[queue_of step_all]. rewrite Hn2, Hq2, app_nil_r. cbn [foldl step_all].
    by rewrite !(proj1 (law_adds_one _ _)), Permutation_swap.
  - intros r Hr. eexists. split; [by apply Hkeys|]. split; try done; cbn; [|by intros f ?%elem_of_nil].
    split; [done|]. split; [by intros [] ? ? ? ? ?|by intros [] ? ? ? ? ?|by intros f ?%elem_of_nil].
  - intros r x Hr. by apply elem_of_nil in Hr.
  - intros r x Hr _. rewrite (Hkeys r Hr). intros [= <-]. split; try done; cbn; try lia. intros _. apply step_kv_idle.
  - apply step_kv_good.
  - by apply ec_init_inv.
  - intros rid [x Hx]. cbn -[fmap] in Hx. apply lookup_insert_Some in Hx as [[<- _]|[_ [<- _]%lookup_singleton_Some]];
      [by left|by right; left].
  - intros rid _. apply step_kv_idle.
Qed.

(** [opened], decided. *)
Definition opened_b (c : sconf) (s : rsched kv ec Q) : bool :=
  forallb (λ r, match requests s !! RequestQueue.request_id r with
                | Some x => (r_computed (mv x) <=? num_tokens_with_spec x + r_placeholders (mv x))
                            && (r_computed (mv x) + sc_sampled_per_step c <=? sc_max_model_len c)
                | None => true
                end) (running s).

Lemma opened_b_true c (s : rsched kv ec Q) : opened_b c s = true → opened c s.
Proof.
  unfold opened_b. rewrite forallb_forall. intros Hall r x Hr Hx. apply list_elem_of_In in Hr. specialize (Hall r Hr).
  rewrite Hx in Hall. lia.
Qed.

(** The state after some steps. *)
Fixpoint step_after (prio : bool) (n : nat) : rsched kv ec Q :=
  match n with O => step_state | Datatypes.S n' => (step_run prio (step_after prio n')).2 end.

Lemma step_may prio n :
  forallb (λ k, opened_b (step_conf prio) (step_after prio k)) (seq 0 (Datatypes.S n)) = true →
  may_step (step_conf prio) step_all (step_after prio n).
Proof.
  intros Hall. assert (Hids : NoDup (RequestQueue.request_id <$> step_all)) by (apply (bool_decide_unpack _); by vm_compute).
  assert (∀ k, (k ≤ n)%nat → opened (step_conf prio) (step_after prio k)) as Hopen.
  { intros k Hk. apply opened_b_true. rewrite forallb_forall in Hall. apply Hall, in_seq. lia. }
  assert (∀ k, (k ≤ n)%nat → settled (step_conf prio) step_all (step_after prio k)) as Hset.
  { induction k as [|k IH]; intros Hk; [apply step_settled|].
    destruct (schedule_spec (step_conf prio) step_all false (step_after prio k)) as (p & out & freed & s1 & s' & Hrun & _ & Hs' & _).
    { split; [apply step_conf_ok|done|apply IH; lia|apply Hopen; lia|by intros mx [=]]. }
    cbn [step_after]. unfold step_run. by rewrite Hrun. }
  split; [apply step_conf_ok|done|by apply Hset|by apply Hopen|by intros mx [=]].
Qed.
End StepDemo.

Lemma schedule_within_limits_witness :
  ∃ p out freed s', step_run (Q := FCFSRequestQueue) false (step_after false 0) = (Ok (p, out, freed), s') ∧
    num_scheduled_tokens p = [("a", 4); ("b", 4)]%string ∧ sum_scheduled p ≤ 8 ∧ zlen (running s') ≤ 4.
Proof.
  destruct (schedule_within_limits (step_conf false) step_all false (step_after (Q := FCFSRequestQueue) false 0))
    as (p & out & freed & s' & Hrun & _ & _ & _ & Hsum & _ & _ & Hlen & _); [by apply step_may; vm_compute|].
  exists p, out, freed, s'. split; [exact Hrun|]. split; [|by split].
  assert ((match (step_run (Q := FCFSRequestQueue) false (step_after false 0)).1 with Ok (p, _, _) => num_scheduled_tokens p | _ => [] end)
    = [("a", 4); ("b", 4)]%string) as Hv by by vm_compute.
  unfold step_run in Hv. by rewrite Hrun in Hv.
Defined.

Lemma schedule_keeps_requests_witness :
  ∃ p out freed s', step_run (Q := PriorityRequestQueue) true (step_after true 1) = (Ok (p, out, freed), s') ∧
    settled (step_conf true) step_all s' ∧
    (∀ r, r ∈ running (step_after (Q := PriorityRequestQueue) true 1) → r ∈ running s' →
      computed_of s' r = computed_of (step_after true 1) r + granted p (RequestQueue.request_id r)) ∧
    running s' = step_all ∧ computed_of s' (step_key 2 "b") = 8.
Proof.
  destruct (schedule_keeps_requests (step_conf true) step_all false (step_after (Q := PriorityRequestQueue) true 1))
    as (p & out & freed & s' & Hrun & Hs' & _ & _ & HC); [by apply step_may; vm_compute|].
  exists p, out, freed, s'. split; [exact Hrun|]. split; [done|]. split; [done|].
  assert (let s := (step_run (Q := PriorityRequestQueue) true (step_after true 1)).2 in
    running s = step_all ∧ computed_of s (step_key 2 "b") = 8) as Hv by (split; by vm_compute).
  unfold step_run in Hv. rewrite Hrun in Hv. exact Hv.
Defined.

Lemma preemption_order_witness :
  ∃ p out freed s', step_run (Q := FCFSRequestQueue) false (step_after false 2) = (Ok (p, out, freed), s') ∧
    preempted_reqs p = [step_key 2 "b"] ∧ running (step_after (Q := FCFSRequestQueue) false 2) = running s' ++ [step_key 2 "b"] ∧
    service (waiting (rqs s')) = [step_key 2 "b"].
Proof.
  destruct (preemption_order (step_conf false) step_all false (step_after (Q := FCFSRequestQueue) false 2))
    as (p & out & freed & s' & Hrun & _ & Hsome); [by apply step_may; vm_compute|].
  assert ((match (step_run (Q := FCFSRequestQueue) false (step_after false 2)).1 with Ok (p, _, _) => preempted_reqs p | _ => [] end)
    = [step_key 2 "b"]) as Hv by by vm_compute.
  unfold step_run in Hv. rewrite Hrun in Hv. cbn [fst] in Hv. exists p, out, freed, s'. split; [exact Hrun|]. split; [done|].
  rewrite Hv in Hsome. destruct Hsome as (_ & _ & _ & _ & _ & Hw & Hr); [done|]. split; [exact Hr|]. rewrite Hw. by vm_compute.
Defined.
