(* ===== verification/AsyncScheduler.v ===== *)
(** * Asynchronous scheduling

    vllm/v1/core/sched/async_scheduler.py: the two methods of [AsyncScheduler] that
    override those of [Scheduler] (RequestScheduler.v, RequestUpdate.v).  A step is
    scheduled before the output of the one before it has come back, so the tokens
    that are under way are counted as placeholders.

    [turns] are the ways in which a step, an output, a preemption and a resumption
    can interleave for one request; [async_counters_consistent] says that the
    counters stay right in all of them.  Micro-batches of pipeline parallelism
    ([next_decode_eligible_step]) are not modelled. *)

From S2P Require Import Prelude PyData Float BlockHash BlockHasher SingleTypeManager KVCacheManager.
From S2P Require Import EncoderCache RequestQueue StopConditions RequestScheduler.
From S2P Require Import RequestSchedulerSpec RequestUpdate RequestUpdateSpec.
From stdpp Require Import base gmap sets list strings.
From Stdlib Require Import ZArith Lia.
Open Scope Z_scope.

Section Async.
Context {K E Q : Type}.
Context (c : sconf) (block_hasher : option (BlockHasher.Request → result (list bytes))).
(** [kv_cache_manager.cache_blocks] *)
Context (cache_blocks : BlockHasher.Request → Z → M K unit).
Context (use_structured_output : string → bool).
Notation st := (rsched K E Q).
Implicit Types (s : st) (r : req) (x : sreq).

(** ** The overrides *)
Definition add_placeholders (n : Z) (spec : list Z) (m : moving_part) : moving_part :=
  Moving (r_status m) spec (r_computed m) (r_placeholders m + n) (r_in_flight m) (r_stale m)
    (r_drop_stale m) (r_preemptions m) (r_prefill_chunk m) (r_last_sched_seq m).

(** A turn of the loop in [_update_after_schedule]; the result is
    [pending_structured_output_tokens]. *)
Definition expect_output (placeholders : list Z) (spec_decode_tokens : list (string * list Z)) (pending : bool) (rid : string)
    : M st bool :=
  let! m := gets requests in
  match m !! rid with
  | None => raise KeyError
  | Some x =>
      if r_prefill_chunk (mv x) then ret pending
      else
        put (sr_key (fx x)) (add_placeholders (sc_sampled_per_step c + zlen (default [] (dget rid spec_decode_tokens))) placeholders) >>
        ret (pending || (use_structured_output rid && (0 <? r_placeholders (mv x))))
  end.

Fixpoint expect_outputs (placeholders : list Z) (spec_decode_tokens : list (string * list Z)) (pending : bool) (rids : list string)
    : M st bool :=
  match rids with
  | [] => ret pending
  | rid :: rids' =>
      let! pending' := expect_output placeholders spec_decode_tokens pending rid in
      expect_outputs placeholders spec_decode_tokens pending' rids'
  end.

Definition async_update_after_schedule (num_spec_tokens_to_schedule : Z) (p : pass) : M st bool :=
  _update_after_schedule c (num_scheduled_tokens p) >>
  expect_outputs (replicate (Z.to_nat num_spec_tokens_to_schedule) (-1)) (RequestScheduler.scheduled_spec_decode_tokens p) false
    (dkeys (num_scheduled_tokens p)).

Definition take_placeholders (n : Z) (m : moving_part) : moving_part :=
  Moving (r_status m) (r_spec_token_ids m) (r_computed m) (r_placeholders m - n) (r_in_flight m) (r_stale m)
    (r_drop_stale m) (r_preemptions m) (r_prefill_chunk m) (r_last_sched_seq m).

Definition async_update_request_with_output (r : req) (new_token_ids : list Z) (is_stale : bool)
    : M st (list Z * option (option stop_reason)) :=
  let! x := the r in
  let! res := _update_request_with_output c block_hasher r new_token_ids in
  (when negb is_stale do
     (put r (take_placeholders (zlen res.1)) >>
      let! y := the r in ensure (0 <=? r_placeholders (mv y)) AssertionError)) >>
  (when bool_decide (r_status (mv x) = RUNNING) do
     let! y := the r in on_kv (cache_blocks (sr_request (fx y)) (r_computed (mv y) - r_placeholders (mv y)))) >>
  ret res.

(** ** One request among its steps *)

(** The counters in a scheduling step that gives the request [n] tokens, with the
    draft tokens of the plan. *)
Definition give (r : req) (n : Z) (placeholders drafts : list Z) : M st unit :=
  put r clear_spec >> advance_request c (request_id r, n) >>
  expect_output placeholders [(request_id r, drafts)] false (request_id r) >> ret tt.

(** The counters when the output of such a step comes back, as in a turn of
    [update_from_output]. *)
Definition deliver (r : req) (n : Z) (drafts generated : list Z) : M st (list Z * option (option stop_reason)) :=
  let! x := the r in
  let stale := 0 <? r_stale (mv x) in
  put r (drain n) >>
  ensure (negb stale || (0 <=? r_stale (mv x) - n)) AssertionError >>
  if stale && r_drop_stale (mv x) then ret ([], None)
  else
    (match rejected_drafts c (Some drafts) generated with
     | Some k => when negb stale do put r (reject_drafts k)
     | None => ret tt
     end) >>
    if bool_decide (generated = []) then ret ([], None) else async_update_request_with_output r generated stale.

(** A step whose output has not come back. *)
Record flight := Flight {
  fl_tokens : Z;
  fl_drafts : list Z;
  fl_samples : bool;
  fl_stale : bool;
}.

Inductive turn :=
  | Give (n : Z) (placeholders drafts : list Z)
  | Deliver (generated : list Z)
  | Evict (drop_stale_output : bool)
  | Resume (computed : Z).

Definition is_chunk (r : req) (s : st) : bool :=
  match requests s !! request_id r with Some x => r_prefill_chunk (mv x) | None => false end.

(** A turn, with the tokens that it delivers. *)
Definition take_turn (r : req) (t : turn) (s : st) (fs : list flight) : result (list Z * st * list flight) :=
  match t with
  | Give n placeholders drafts =>
      match give r n placeholders drafts s with
      | (Ok _, s') => Ok ([], s', fs ++ [Flight n drafts (negb (is_chunk r s')) false])
      | (Raise e, _) => Raise e
      end
  | Deliver generated =>
      match fs with
      | [] => Raise IndexError
      | f :: fs' =>
          match deliver r (fl_tokens f) (fl_drafts f) generated s with
          | (Ok res, s') => Ok (res.1, s', fs')
          | (Raise e, _) => Raise e
          end
      end
  | Evict drop =>
      match put r (preempt drop) s with
      | (Ok _, s') => Ok ([], s', (λ f, Flight (fl_tokens f) (fl_drafts f) (fl_samples f) true) <$> fs)
      | (Raise e, _) => Raise e
      end
  | Resume computed =>
      match put r (start_running computed) s with
      | (Ok _, s') => Ok ([], s', fs)
      | (Raise e, _) => Raise e
      end
  end.

Fixpoint take_turns (r : req) (ts : list turn) (s : st) (fs : list flight) : result (list Z * st * list flight) :=
  match ts with
  | [] => Ok ([], s, fs)
  | t :: ts' =>
      match take_turn r t s fs with
      | Raise e => Raise e
      | Ok (out, s1, fs1) =>
          match take_turns r ts' s1 fs1 with
          | Raise e => Raise e
          | Ok (more, s2, fs2) => Ok (out ++ more, s2, fs2)
          end
      end
  end.

(** ** The counters *)

(** The turn may come next. *)
Definition may_turn (r : req) (t : turn) (s : st) (fs : list flight) : Prop :=
  ∃ x, requests s !! request_id r = Some x ∧
    match t with
    | Give n _ drafts => r_status (mv x) = RUNNING ∧ 0 < n ∧
        zlen drafts = Z.max 0 (r_computed (mv x) + n - sr_num_tokens x - r_placeholders (mv x))
    | Deliver g => (r_status (mv x) = RUNNING ∨ r_status (mv x) = PREEMPTED) ∧ ∃ f fs', fs = f :: fs' ∧
        if fl_samples f then 1 ≤ zlen g ≤ 1 + zlen (fl_drafts f) else g = []
    | Evict _ => r_status (mv x) = RUNNING
    | Resume computed => r_status (mv x) = PREEMPTED ∧ 0 ≤ computed < sr_num_tokens x ∧
        (r_stale (mv x) = 0 ∨ r_drop_stale (mv x) = true)
    end.

Fixpoint legal_turns (r : req) (ts : list turn) (s : st) (fs : list flight) : Prop :=
  match ts with
  | [] => True
  | t :: ts' => may_turn r t s fs ∧
      match take_turn r t s fs with Ok (_, s1, fs1) => legal_turns r ts' s1 fs1 | Raise _ => True end
  end.

Definition in_flight (fs : list flight) : Z := foldr Z.add 0 (fl_tokens <$> fs).
Definition stale_tokens (fs : list flight) : Z := foldr Z.add 0 ((λ f, if fl_stale f then fl_tokens f else 0) <$> fs).
(** The tokens that the outputs under way can bring. *)
Definition expected (fs : list flight) : Z :=
  foldr Z.add 0 ((λ f, if fl_samples f && negb (fl_stale f) then 1 + zlen (fl_drafts f) else 0) <$> fs).

Fixpoint stale_first (fs : list flight) : Prop :=
  match fs with
  | [] => True
  | f :: fs' => (fl_stale f = false → ∀ g, g ∈ fs' → fl_stale g = false) ∧ stale_first fs'
  end.

Lemma sum_snoc {A} (h : A → Z) (l : list A) a : foldr Z.add 0 (h <$> l ++ [a]) = foldr Z.add 0 (h <$> l) + h a.
Proof. rewrite fmap_app, sum_app. cbn. lia. Qed.

Lemma sum_zero {A} (h : A → Z) (l : list A) : (∀ a, a ∈ l → h a = 0) → foldr Z.add 0 (h <$> l) = 0.
Proof.
  induction l as [|a l IH]; intros Hl; [done|]. cbn. rewrite IH by (intros b Hb; apply Hl; by right). rewrite Hl by (by left). lia.
Qed.

Lemma sum_nonneg {A} (h : A → Z) (l : list A) : (∀ a, a ∈ l → 0 ≤ h a) → 0 ≤ foldr Z.add 0 (h <$> l).
Proof.
  induction l as [|a l IH]; intros Hl; [done|]. cbn. assert (0 ≤ h a) by (apply Hl; by left).
  assert (0 ≤ foldr Z.add 0 (h <$> l)) by (apply IH; intros b Hb; apply Hl; by right). lia.
Qed.

Lemma stale_first_snoc fs f : stale_first fs → fl_stale f = false → stale_first (fs ++ [f]).
Proof.
  intros Hs Hf. induction fs as [|g fs IH]; cbn; [split; [by intros _ ? ?%elem_of_nil|done]|]. destruct Hs as [Hg Hs].
  split; [|by apply IH]. intros Hgf y [Hy|Hy%list_elem_of_singleton]%elem_of_app; [by apply Hg|by subst y].
Qed.

Lemma stale_first_stale fs : (∀ f, f ∈ fs → fl_stale f = true) → stale_first fs.
Proof.
  induction fs as [|f fs IH]; intros Hf; [done|]. split; [|apply IH; intros g Hg; apply Hf; by right].
  rewrite Hf by (by left). done.
Qed.

(** The request is known, and can sample. *)
Record known r x : Prop := {
  kn_key : sr_key (fx x) = r;
  kn_sampling : ∃ sp, sr_sampling (fx x) = Some sp;
  kn_prompt : 0 ≤ num_prompt_tokens (sr_request (fx x)) ≤ sr_num_tokens x;
  kn_tokens : 0 < sr_num_tokens x;
}.

Record counts x (fs : list flight) : Prop := {
  co_pos : ∀ f, f ∈ fs → 0 < fl_tokens f;
  co_order : stale_first fs;
  co_in_flight : r_in_flight (mv x) = in_flight fs;
  co_stale : r_stale (mv x) = stale_tokens fs;
  co_placeholders : r_status (mv x) = RUNNING ∨ r_status (mv x) = PREEMPTED → r_placeholders (mv x) = expected fs;
  co_running : r_status (mv x) = RUNNING →
    r_computed (mv x) - r_placeholders (mv x) < sr_num_tokens x ∧
    (0 < r_placeholders (mv x) → r_computed (mv x) + 1 = sr_num_tokens x + r_placeholders (mv x)) ∧
    (r_stale (mv x) = 0 ∨ r_drop_stale (mv x) = true);
  co_preempted : r_status (mv x) = PREEMPTED → ∀ f, f ∈ fs → fl_stale f = true;
}.

Lemma counts_bounds x fs : counts x fs → 0 ≤ expected fs ∧ 0 ≤ stale_tokens fs.
Proof.
  intros [Hp _ _ _ _ _ _]. split; apply sum_nonneg; intros f Hf.
  - destruct (_ && _); [|done]. pose proof (zlen_nonneg (fl_drafts f)). lia.
  - destruct (fl_stale f); [|done]. specialize (Hp f Hf). lia.
Qed.

Context (Hone : sc_sampled_per_step c = 1).

(** What a step does to the counters. *)
Lemma give_run r n ph drafts s x :
  requests s !! request_id r = Some x → sr_key (fx x) = r →
  ∃ s' x', give r n ph drafts s = (Ok tt, s') ∧ requests s' !! request_id r = Some x' ∧ fx x' = fx x ∧
    r_status (mv x') = r_status (mv x) ∧ r_computed (mv x') = r_computed (mv x) + n ∧
    r_in_flight (mv x') = r_in_flight (mv x) + n ∧ r_stale (mv x') = r_stale (mv x) ∧
    r_drop_stale (mv x') = r_drop_stale (mv x) ∧
    r_prefill_chunk (mv x') = (r_computed (mv x) + n <? sr_num_tokens x + r_placeholders (mv x)) ∧
    r_placeholders (mv x') = (if r_prefill_chunk (mv x') then r_placeholders (mv x)
                              else r_placeholders (mv x) + (1 + zlen drafts)).
Proof.
  intros Hx Hkey. unfold give. rewrite (bind_ok _ _ _ _ _ (put_run r x clear_spec s Hx)).
  set (x1 := SR (fx x) (clear_spec (mv x))). set (s1 := set_requests (<[request_id r := x1]> (requests s)) s).
  assert (Hx1 : requests s1 !! request_id r = Some x1) by (cbn; by rewrite lookup_insert_eq).
  set (x2 := advance c n (sched_step_seq (bk s1)) x1).
  assert (∃ s2, advance_request c (request_id r, n) s1 = (Ok tt, s2) ∧ requests s2 !! request_id r = Some x2) as (s2 & Hadv & Hx2).
  { unfold advance_request. run_step. cbn [fst snd]. rewrite Hx1. fold x2. run_step.
    destruct (negb _); (eexists; split; [reflexivity|]); cbn; by rewrite lookup_insert_eq. }
  rewrite (bind_ok _ _ _ _ _ Hadv).
  assert (∃ b s' x', expect_output ph [(request_id r, drafts)] false (request_id r) s2 = (Ok b, s') ∧
    requests s' !! request_id r = Some x' ∧
    x' = if r_prefill_chunk (mv x2) then x2 else SR (fx x2) (add_placeholders (1 + zlen drafts) ph (mv x2))) as
    (b & s' & x' & Hexp & Hx' & Heq).
  { unfold expect_output. run_step. rewrite Hx2. destruct (r_prefill_chunk (mv x2)); [by exists false, s2, x2|].
    change (sr_key (fx x2)) with (sr_key (fx x)). rewrite Hkey. rewrite (bind_ok _ _ _ _ _ (put_run r x2 _ s2 Hx2)).
    eexists _, _, _. split; [reflexivity|]. split; [cbn; by rewrite lookup_insert_eq|].
    cbn [dget default]. rewrite decide_True by done. by rewrite Hone. }
  rewrite (bind_ok _ _ _ _ _ Hexp). exists s', x'. split; [done|]. split; [done|].
  assert (r_prefill_chunk (mv x') = r_prefill_chunk (mv x2)) as Hch by (rewrite Heq; by destruct (r_prefill_chunk (mv x2)) eqn:Ech).
  rewrite Hch. subst x'. by destruct (r_prefill_chunk (mv x2)) eqn:Ech; split_and!.
Qed.

Lemma give_counts r n ph drafts s x fs :
  requests s !! request_id r = Some x → known r x → counts x fs → r_status (mv x) = RUNNING → 0 < n →
  zlen drafts = Z.max 0 (r_computed (mv x) + n - sr_num_tokens x - r_placeholders (mv x)) →
  ∃ s' x', give r n ph drafts s = (Ok tt, s') ∧ requests s' !! request_id r = Some x' ∧ fx x' = fx x ∧
    counts x' (fs ++ [Flight n drafts (negb (is_chunk r s')) false]).
Proof.
  intros Hx Hk Hc Hst Hn Hd. pose proof (counts_bounds _ _ Hc) as [He _]. destruct Hc.
  destruct (give_run r n ph drafts s x Hx (kn_key _ _ Hk)) as (s' & x' & Hrun & Hx' & Hfx & E1 & E2 & E3 & E4 & E5 & E6 & E7).
  exists s', x'. split; [done|]. split; [done|]. split; [done|].
  assert (Hnum : sr_num_tokens x' = sr_num_tokens x) by (unfold sr_num_tokens; by rewrite Hfx).
  assert (is_chunk r s' = r_prefill_chunk (mv x')) as Hchunk by (unfold is_chunk; by rewrite Hx'). rewrite Hchunk.
  specialize (co_placeholders0 (or_introl Hst)). destruct (co_running0 Hst) as (Hr1 & Hr2 & Hr3).
  assert (Hexp : r_placeholders (mv x') = expected (fs ++ [Flight n drafts (negb (r_prefill_chunk (mv x'))) false])).
  { unfold expected. rewrite sum_snoc. cbn. fold (expected fs). rewrite E7, <-co_placeholders0.
    destruct (r_prefill_chunk (mv x')); cbn; lia. }
  split.
  - intros f [Hf|Hf%list_elem_of_singleton]%elem_of_app; [by apply co_pos0|by subst f].
  - by apply stale_first_snoc.
  - rewrite E3, co_in_flight0. unfold in_flight. rewrite sum_snoc. done.
  - rewrite E4, co_stale0. unfold stale_tokens. rewrite sum_snoc. cbn. lia.
  - done.
  - intros _. rewrite Hnum, E2, E4, E5. rewrite E7. destruct (r_prefill_chunk (mv x')); split_and!; try done; lia.
  - intros Hp. congruence.
Qed.

(** Rejected drafts. *)
Lemma reject_counts r x s drafts g (stale : bool) :
  requests s !! request_id r = Some x → (drafts = [] → zlen g = 1) → g ≠ [] →
  (stale = false → 0 < r_computed (mv x) ∧ 0 < r_placeholders (mv x)) →
  let j := if stale then 0 else zlen drafts - (zlen g - 1) in
  ∃ s' x', (match rejected_drafts c (Some drafts) g with Some k => when negb stale do put r (reject_drafts k) | None => ret tt end) s
      = (Ok tt, s') ∧ requests s' !! request_id r = Some x' ∧ fx x' = fx x ∧ r_status (mv x') = r_status (mv x) ∧
    r_computed (mv x') = r_computed (mv x) - j ∧ r_placeholders (mv x') = r_placeholders (mv x) - j ∧
    r_in_flight (mv x') = r_in_flight (mv x) ∧ r_stale (mv x') = r_stale (mv x) ∧ r_drop_stale (mv x') = r_drop_stale (mv x).
Proof.
  intros Hx Hd Hg Hpos j. assert (1 ≤ zlen g) by (destruct g; [done|unfold zlen; cbn; lia]).
  unfold rejected_drafts. cbv zeta. cbn [default]. rewrite Hone. cbn [Z.eqb negb]. rewrite (bool_decide_eq_false_2 (g = [])) by done.
  cbn [andb orb]. rewrite orb_false_r. case_bool_decide as Ed.
  { exists s, x. split; [done|]. split; [done|]. assert (j = 0) as ->.
    { unfold j. change (drafts = []) in Ed. rewrite (Hd Ed), Ed. by destruct stale. }
    rewrite !Z.sub_0_r. by split_and!. }
  destruct stale; cbn [negb].
  { exists s, x. unfold j. rewrite !Z.sub_0_r. by split_and!. }
  destruct (Hpos eq_refl) as [Hc Hp]. rewrite (put_run r x) by done. eexists _, _. split; [reflexivity|].
  split; [cbn; by rewrite lookup_insert_eq|]. cbn. rewrite !(proj2 (Z.ltb_lt _ _)) by done.
  split_and!; try done; unfold j; lia.
Qed.

(** The block hasher answers, and blocks are cached up to tokens that are known. *)
Context (Hhash : ∀ h y, block_hasher = Some h → ∃ hs, h y = Ok hs).
Context (Hcache : ∀ y n k, 0 ≤ n < num_tokens y → ∃ k', cache_blocks y n k = (Ok tt, k')).

Lemma known_appended r x x' ts : appended ts (fx x) (fx x') → known r x → known r x'.
Proof.
  intros Ha [Hk [sp Hs] Hp Hn]. pose proof (appended_count _ _ _ Ha) as Hc. pose proof (zlen_nonneg ts). destruct Ha.
  split; rewrite ?ap_key, ?ap_prompt, ?Hc; [done|exists sp; congruence|lia|lia].
Qed.

(** The counters and the tokens after an update. *)
Record updated (stale : bool) (g kept : list Z) x x' : Prop := {
  up_appended : appended kept (fx x) (fx x');
  up_kept : 1 ≤ zlen kept ≤ zlen g;
  up_computed : r_computed (mv x') = r_computed (mv x);
  up_in_flight : r_in_flight (mv x') = r_in_flight (mv x);
  up_stale : r_stale (mv x') = r_stale (mv x) ∧ r_drop_stale (mv x') = r_drop_stale (mv x);
  up_placeholders : r_placeholders (mv x') = r_placeholders (mv x) - (if stale then 0 else zlen kept);
  up_status : is_finished (r_status (mv x')) = true ∨ r_status (mv x') = r_status (mv x) ∧ kept = g;
}.

Lemma sync_update_run r x s g : requests s !! request_id r = Some x → known r x → g ≠ [] →
  ∃ kept stop s' x', _update_request_with_output c block_hasher r g s = (Ok (kept, stop), s') ∧
    requests s' !! request_id r = Some x' ∧ updated true g kept x x'.
Proof.
  intros Hx [_ [sp Hsp] Hp _] Hg. destruct (deliver_run c block_hasher Hhash r x s sp g Hx Hsp Hp) as (kept & stop & x' & Hrun & Ha & [] & Hm).
  eexists kept, stop, _, x'. split; [exact Hrun|]. split; [cbn; by rewrite lookup_insert_eq|].
  assert (Hne : kept ≠ []) by (destruct stop; [by apply ks_stop|by rewrite ks_all]).
  assert (1 ≤ zlen kept ≤ zlen g).
  { split; [destruct kept; [done|unfold zlen; cbn; lia]|]. apply prefix_length in ks_prefix. unfold zlen. lia. }
  destruct stop as [why|].
  - destruct Hm as (status & Hfin & Hmv). split; rewrite ?Hmv; try done; [cbn; lia|by left].
  - rewrite (ks_all eq_refl) in *. split; rewrite ?Hm; try done; [lia|by right].
Qed.

Lemma async_update_run r x s g stale :
  requests s !! request_id r = Some x → known r x → g ≠ [] → (stale = false → zlen g ≤ r_placeholders (mv x)) →
  (r_status (mv x) = RUNNING → stale = false ∧ r_computed (mv x) + 1 = sr_num_tokens x + r_placeholders (mv x)) →
  ∃ kept stop s' x', async_update_request_with_output r g stale s = (Ok (kept, stop), s') ∧
    requests s' !! request_id r = Some x' ∧ updated stale g kept x x'.
Proof.
  intros Hx Hk Hg Hph Hrun. unfold async_update_request_with_output. rewrite (bind_ok _ _ _ _ _ (the_run r s x Hx)).
  destruct (sync_update_run r x s g Hx Hk Hg) as (kept & stop & s1 & x1 & Hup & Hx1 & []).
  rewrite (bind_ok _ _ _ _ _ Hup). cbn [fst snd].
  set (x2 := if stale then x1 else SR (fx x1) (take_placeholders (zlen kept) (mv x1))).
  assert (∃ s2, (when negb stale do (put r (take_placeholders (zlen kept)) >>
      let! y := the r in ensure (0 <=? r_placeholders (mv y)) AssertionError)) s1 = (Ok tt, s2) ∧
    requests s2 !! request_id r = Some x2) as (s2 & Hput & Hx2).
  { unfold x2. destruct stale; cbn [negb]; [by exists s1|]. rewrite (bind_ok _ _ _ _ _ (put_run r x1 _ s1 Hx1)).
    match goal with |- context [bind (the r) _ ?s0] => set (s2 := s0) end.
    assert (Hx2 : requests s2 !! request_id r = Some (SR (fx x1) (take_placeholders (zlen kept) (mv x1)))) by (cbn; by rewrite lookup_insert_eq).
    rewrite (bind_ok _ _ _ _ _ (the_run r s2 _ Hx2)). exists s2. split; [|done]. apply ensure_true. cbn.
    specialize (Hph eq_refl). rewrite up_placeholders0. lia. }
  rewrite (bind_ok _ _ _ _ _ Hput).
  assert (Hfx2 : fx x2 = fx x1) by (unfold x2; by destruct stale).
  assert (Hup2 : updated stale g kept x x2).
  { unfold x2. destruct stale; [by split|]. split; try done. cbn. rewrite up_placeholders0. lia. }
  assert (∃ s3, (when bool_decide (r_status (mv x) = RUNNING) do
      let! y := the r in on_kv (cache_blocks (sr_request (fx y)) (r_computed (mv y) - r_placeholders (mv y)))) s2 = (Ok tt, s3) ∧
    requests s3 = requests s2) as (s3 & Hcached & E3).
  { case_bool_decide as Hst; [|by exists s2]. destruct (Hrun Hst) as [-> Hinv]. rewrite (bind_ok _ _ _ _ _ (the_run r s2 _ Hx2)).
    pose proof (appended_count _ _ _ (up_appended _ _ _ _ _ Hup2)) as Hn. pose proof (kn_tokens _ _ Hk).
    destruct (Hcache (sr_request (fx x2)) (r_computed (mv x2) - r_placeholders (mv x2)) (kvm s2)) as [k' Hcr].
    { rewrite (up_computed _ _ _ _ _ Hup2), (up_placeholders _ _ _ _ _ Hup2). unfold sr_num_tokens in *. rewrite Hn. lia. }
    exists (set_kvm k' s2). split; [unfold on_kv; by apply zoom_ok|done]. }
  rewrite (bind_ok _ _ _ _ _ Hcached). exists kept, stop, s3, x2. split; [done|]. split; [by rewrite E3|done].
Qed.

Lemma stale_tokens_cons f fs : stale_tokens (f :: fs) = (if fl_stale f then fl_tokens f else 0) + stale_tokens fs.
Proof. done. Qed.
Lemma expected_cons f fs :
  expected (f :: fs) = (if fl_samples f && negb (fl_stale f) then 1 + zlen (fl_drafts f) else 0) + expected fs.
Proof. done. Qed.

(** The head of the flights tells whether the output is stale. *)
Lemma counts_head x f fs : counts x (f :: fs) → (0 <? r_stale (mv x)) = fl_stale f.
Proof.
  intros Hc. destruct Hc as [Hp [Ho _] _ Hs _ _ _]. rewrite Hs, stale_tokens_cons. assert (0 < fl_tokens f) by (apply Hp; by left).
  destruct (fl_stale f).
  - assert (0 ≤ stale_tokens fs); [|lia]. apply sum_nonneg. intros g Hg. destruct (fl_stale g); [|done].
    specialize (Hp g (list_elem_of_further _ _ _ Hg)). lia.
  - unfold stale_tokens. rewrite sum_zero; [lia|]. intros g Hg. by rewrite (Ho eq_refl g Hg).
Qed.

(** The output is taken off the flights. *)
Lemma drained_counts x f fs m :
  counts x (f :: fs) → m = drain (fl_tokens f) (mv x) →
  r_in_flight m = in_flight fs ∧ r_stale m = stale_tokens fs ∧ (∀ g, g ∈ fs → 0 < fl_tokens g) ∧ stale_first fs ∧
  (r_status (mv x) = PREEMPTED → ∀ g, g ∈ fs → fl_stale g = true).
Proof.
  intros Hc ->. pose proof (counts_head _ _ _ Hc) as Hh. destruct Hc as [Hp [Ho Hord] Hi Hs _ _ Hpre]. cbn. split_and!.
  - rewrite Hi. unfold in_flight. cbn. lia.
  - rewrite Hh, Hs, stale_tokens_cons. destruct (fl_stale f); lia.
  - intros g Hg. apply Hp. by right.
  - done.
  - intros Hst g Hg. apply (Hpre Hst). by right.
Qed.

Lemma deliver_counts r f fs g s x :
  requests s !! request_id r = Some x → known r x → counts x (f :: fs) →
  r_status (mv x) = RUNNING ∨ r_status (mv x) = PREEMPTED →
  (if fl_samples f then 1 ≤ zlen g ≤ 1 + zlen (fl_drafts f) else g = []) →
  ∃ res s' x', deliver r (fl_tokens f) (fl_drafts f) g s = (Ok res, s') ∧ requests s' !! request_id r = Some x' ∧ known r x' ∧
    all_token_ids (sr_request (fx x')) = all_token_ids (sr_request (fx x)) ++ res.1 ∧ counts x' fs.
Proof.
  intros Hx Hk Hc Hst Hg. pose proof (counts_bounds _ _ Hc) as [Hexp0 _]. pose proof (counts_head _ _ _ Hc) as Hh.
  unfold deliver. rewrite (bind_ok _ _ _ _ _ (the_run r s x Hx)). cbv zeta. rewrite Hh.
  rewrite (bind_ok _ _ _ _ _ (put_run r x (drain (fl_tokens f)) s Hx)).
  set (x1 := SR (fx x) (drain (fl_tokens f) (mv x))). set (s1 := set_requests (<[request_id r := x1]> (requests s)) s).
  assert (Hx1 : requests s1 !! request_id r = Some x1) by (cbn; by rewrite lookup_insert_eq).
  destruct (drained_counts x f fs _ Hc eq_refl) as (Di & Ds & Dp & Do & Dpre).
  assert (Hens : negb (fl_stale f) || (0 <=? r_stale (mv x) - fl_tokens f) = true).
  { destruct (fl_stale f) eqn:Ef; [|done]. cbn [negb orb]. cbn in Ds. rewrite Hh in Ds.
    assert (0 ≤ stale_tokens fs); [|lia]. apply sum_nonneg. intros y Hy. destruct (fl_stale y); [|done]. specialize (Dp y Hy). lia. }
  rewrite (bind_ok _ _ _ _ _ (ensure_true _ _ _ Hens)).
  assert (Hnum1 : sr_num_tokens x1 = sr_num_tokens x) by done.
  pose proof (co_placeholders _ _ Hc Hst) as Hph. rewrite expected_cons in Hph.
  assert (Hexp : 0 ≤ expected fs).
  { apply sum_nonneg. intros y _. cbn beta. pose proof (zlen_nonneg (fl_drafts y)). destruct (fl_samples y && negb (fl_stale y)); lia. }
  assert (Hk1 : known r x1) by by destruct Hk.
  (* the counters if no token comes *)
  assert (Hquiet : r_placeholders (mv x) = expected fs → counts x1 fs).
  { intros Heq. destruct Hc. split; try done.
    - intros Hr. cbn. rewrite Hnum1. destruct (co_running0 Hr) as (? & ? & Hs). split_and!; try done.
      destruct Hs as [Hs|Hs]; [left|by right]. rewrite Hs. done. }
  destruct (fl_stale f && r_drop_stale (mv x)) eqn:Edrop.
  { apply andb_true_iff in Edrop as [Ef _]. rewrite Ef, andb_false_r in Hph.
    exists ([], None), s1, x1. split; [done|]. split; [done|]. split; [done|]. split; [by rewrite app_nil_r|]. apply Hquiet. lia. }
  destruct (decide (g = [])) as [->|Hne].
  { assert (fl_samples f = false) as Es by (destruct (fl_samples f); [unfold zlen in Hg; cbn in Hg; lia|done]).
    rewrite Es in Hph. cbn in Hph. unfold rejected_drafts. cbv zeta. rewrite Hone. cbn [Z.eqb negb].
    rewrite !(bool_decide_eq_true_2 (@nil Z = [])) by done. cbn [andb]. rewrite orb_true_r.
    exists ([], None), s1, x1. split; [done|].
    split; [done|]. split; [done|]. split; [by rewrite app_nil_r|]. apply Hquiet. lia. }
  assert (Es : fl_samples f = true) by (destruct (fl_samples f); [done|by destruct Hne]). rewrite Es in *. cbn in Hph.
  (* a stale output comes only to a preempted request *)
  assert (Hstale : fl_stale f = false → r_status (mv x) = RUNNING).
  { intros Ef. destruct Hst as [|Hst]; [done|]. pose proof (co_preempted _ _ Hc Hst f ltac:(by left)). congruence. }
  assert (Hrun : r_status (mv x) = RUNNING → fl_stale f = false).
  { intros Hr. destruct (co_running _ _ Hc Hr) as (_ & _ & [Hs|Hs]); [rewrite Hs in Hh; by rewrite <-Hh|].
    rewrite Hs, andb_true_r in Edrop. done. }
  assert (Hbig : fl_stale f = false → r_computed (mv x) + 1 = sr_num_tokens x + r_placeholders (mv x) ∧ 0 < r_placeholders (mv x)).
  { intros Ef. destruct (co_running _ _ Hc (Hstale Ef)) as (_ & Hinv & _). rewrite Ef in Hph. cbn in Hph.
    pose proof (zlen_nonneg (fl_drafts f)). split; [apply Hinv; lia|lia]. }
  destruct (reject_counts r x1 s1 (fl_drafts f) g (fl_stale f) Hx1) as
    (s2 & x2 & Hrej & Hx2 & Hfx2 & E1 & E2 & E3 & E4 & E5 & E6); [intros Hd; rewrite Hd in Hg; unfold zlen in Hg |- *; cbn in Hg; lia|done| |].
  { intros Ef. destruct (Hbig Ef). pose proof (kn_tokens _ _ Hk). cbn. lia. }
  rewrite (bind_ok _ _ _ _ _ Hrej). rewrite (bool_decide_eq_false_2 (g = [])) by done.
  assert (Hnum2 : sr_num_tokens x2 = sr_num_tokens x) by (unfold sr_num_tokens; by rewrite Hfx2).
  destruct (async_update_run r x2 s2 g (fl_stale f) Hx2) as (kept & stop & s3 & x3 & Hup & Hx3 & Hu).
  { destruct Hk as [? ? ? ?]. split; unfold sr_num_tokens in *; rewrite ?Hfx2; done. }
  { done. }
  { intros Ef. rewrite E3, Ef. cbn. rewrite Ef in Hph. cbn in Hph. lia. }
  { rewrite E1, E2, E3, Hnum2. cbn. intros Hr. specialize (Hrun Hr). destruct (Hbig Hrun). split; [done|]. rewrite Hrun. lia. }
  exists (kept, stop), s3, x3. split; [exact Hup|]. split; [done|]. pose proof (appended_count _ _ _ (up_appended _ _ _ _ _ Hu)) as Hn3.
  split; [eapply known_appended; [apply Hu|]; destruct Hk; split; unfold sr_num_tokens in *; rewrite ?Hfx2; done|].
  split; [rewrite (ap_tokens _ _ _ (up_appended _ _ _ _ _ Hu)), Hfx2; done|].
  destruct Hu as [_ Hkept U1 U2 [U3 U4] U5 U6]. cbn in E1, E2, E3, E4, E5, E6, Di, Ds. rewrite E5 in U3. rewrite E4 in U2.
  assert (Hfin : is_finished (r_status (mv x3)) = true → r_status (mv x3) ≠ RUNNING ∧ r_status (mv x3) ≠ PREEMPTED)
    by (by destruct (r_status (mv x3))).
  assert (Hph3 : r_status (mv x3) = RUNNING ∨ r_status (mv x3) = PREEMPTED → r_placeholders (mv x3) = expected fs).
  { intros Hor. destruct U6 as [Hf|[_ ->]]; [apply Hfin in Hf; tauto|]. rewrite U5, E3. destruct (fl_stale f); cbn in Hph; lia. }
  split; try done.
  - by rewrite U2.
  - by rewrite U3.
  - intros Hr3. destruct U6 as [Hf|[Hsame ->]]; [apply Hfin in Hf; tauto|]. rewrite E1 in Hsame. rewrite Hsame in Hr3.
    pose proof (Hrun Hr3) as Ef. destruct (Hbig Ef). rewrite Ef in *. rewrite U1, U5, E2, E3, Hn3, Hnum2.
    split; [lia|]. split; [lia|]. left. rewrite U3, Ds. unfold stale_tokens.
    apply sum_zero. intros y Hy. destruct (co_order _ _ Hc) as [Hfresh _]. by rewrite (Hfresh Ef y Hy).
  - intros Hp3. destruct U6 as [Hf|[Hsame _]]; [apply Hfin in Hf; tauto|]. apply Dpre. congruence.
Qed.

Definition tracked r (tokens : list Z) s (fs : list flight) : Prop :=
  ∃ x, requests s !! request_id r = Some x ∧ known r x ∧ all_token_ids (sr_request (fx x)) = tokens ∧ counts x fs.

Lemma take_turn_run r t tokens s fs : tracked r tokens s fs → may_turn r t s fs →
  ∃ out s' fs', take_turn r t s fs = Ok (out, s', fs') ∧ tracked r (tokens ++ out) s' fs'.
Proof.
  intros (x & Hx & Hk & Htok & Hc) (x0 & Hx0 & Hmay). assert (x0 = x) as -> by congruence. clear Hx0.
  assert (Hknown : ∀ y, fx y = fx x → known r y).
  { intros y Hy. destruct Hk. split; unfold sr_num_tokens in *; rewrite ?Hy; done. }
  destruct t as [n ph drafts|g|drop|computed]; cbn [take_turn].
  - destruct Hmay as (Hst & Hn & Hd). destruct (give_counts r n ph drafts s x fs Hx Hk Hc Hst Hn Hd) as (s' & x' & Hrun & Hx' & Hfx & Hc').
    rewrite Hrun. eexists _, _, _. split; [reflexivity|]. exists x'. split; [done|]. split; [by apply Hknown|].
    split; [by rewrite Hfx, app_nil_r|done].
  - destruct Hmay as (Hst & f & fs' & -> & Hg).
    destruct (deliver_counts r f fs' g s x Hx Hk Hc Hst Hg) as (res & s' & x' & Hrun & Hx' & Hk' & Htok' & Hc').
    rewrite Hrun. eexists _, _, _. split; [reflexivity|]. exists x'. split; [done|]. split; [done|]. split; [by rewrite Htok', Htok|done].
  - rewrite (put_run r x) by done. eexists _, _, _. split; [reflexivity|].
    eexists. split; [cbn; by rewrite lookup_insert_eq|]. split; [by apply Hknown|]. split; [by rewrite app_nil_r|].
    assert (Hall : ∀ f, f ∈ (λ f, Flight (fl_tokens f) (fl_drafts f) (fl_samples f) true) <$> fs → fl_stale f = true)
      by (intros f (f' & -> & _)%list_elem_of_fmap; done).
    assert (Hsum : foldr Z.add 0 (fl_tokens <$> ((λ f, Flight (fl_tokens f) (fl_drafts f) (fl_samples f) true) <$> fs)) = in_flight fs).
    { unfold in_flight. by rewrite <-list_fmap_compose. }
    destruct Hc. split; cbn; try done.
    + intros f (f' & -> & Hf)%list_elem_of_fmap. exact (co_pos0 f' Hf).
    + by apply stale_first_stale.
    + unfold in_flight at 1. by rewrite Hsum.
    + unfold stale_tokens. by rewrite <-list_fmap_compose.
    + intros _. unfold expected. rewrite sum_zero; [done|]. intros f Hf. by rewrite (Hall f Hf), andb_false_r.
  - destruct Hmay as (Hst & Hcomp & Hdrop). rewrite (put_run r x) by done. eexists _, _, _. split; [reflexivity|].
    eexists. split; [cbn; by rewrite lookup_insert_eq|]. split; [by apply Hknown|]. split; [by rewrite app_nil_r|].
    destruct Hc. specialize (co_placeholders0 (or_intror Hst)). assert (Hz : expected fs = 0).
    { unfold expected. apply sum_zero. intros f Hf. by rewrite (co_preempted0 Hst f Hf), andb_false_r. }
    split; cbn; try done. intros _. rewrite co_placeholders0, Hz. change (sr_num_tokens _) with (sr_num_tokens x). split_and!; [lia|lia|done].
Qed.

Lemma take_turns_run r ts tokens s fs : tracked r tokens s fs → legal_turns r ts s fs →
  ∃ out s' fs', take_turns r ts s fs = Ok (out, s', fs') ∧ tracked r (tokens ++ out) s' fs'.
Proof.
  revert tokens s fs. induction ts as [|t ts IH]; intros tokens s fs Ht.
  { intros _. exists [], s, fs. split; [done|]. by rewrite app_nil_r. }
  intros [Hmay Hl]. destruct (take_turn_run r t tokens s fs Ht Hmay) as (out & s1 & fs1 & Hrun & Ht1). rewrite Hrun in Hl.
  destruct (IH _ _ _ Ht1 Hl) as (more & s2 & fs2 & Hrun2 & Ht2). cbn [take_turns]. rewrite Hrun, Hrun2.
  exists (out ++ more), s2, fs2. split; [done|]. by rewrite app_assoc.
Qed.

(** C11: asynchronous scheduling keeps its counters right.  Take one sampled token
    per step, a block hasher that answers and a cache that registers the known
    tokens of a request without failing, and a running request with nothing in
    flight.  However the steps that give it tokens, the outputs that come back in
    order (with at most as many tokens as the step allowed), preemptions and
    resumptions interleave, no assertion fails ([num_stale_output_tokens] and
    [num_output_placeholders] never drop below zero), and blocks are only cached up
    to tokens that are known.  In every reachable state the tokens in flight and the
    stale ones are those of the outputs under way; the placeholders of a request that
    has not ended are exactly the tokens, sampled and drafted, that the outputs under
    way can still bring it, so there are none when nothing is under way; the computed
    tokens, less the placeholders, stay below the tokens of the request, and equal all
    but the last of them while an output is expected; and its tokens are the ones it had
    followed by the delivered ones. *)
Theorem async_counters_consistent r ts s x :
  requests s !! request_id r = Some x → known r x → r_status (mv x) = RUNNING →
  r_placeholders (mv x) = 0 → r_in_flight (mv x) = 0 → r_stale (mv x) = 0 → r_computed (mv x) < sr_num_tokens x →
  legal_turns r ts s [] →
  ∃ out s' fs x', take_turns r ts s [] = Ok (out, s', fs) ∧ requests s' !! request_id r = Some x' ∧
    all_token_ids (sr_request (fx x')) = all_token_ids (sr_request (fx x)) ++ out ∧
    r_in_flight (mv x') = in_flight fs ∧ r_stale (mv x') = stale_tokens fs ∧
    (is_finished (r_status (mv x')) = false → r_status (mv x') = RUNNING ∨ r_status (mv x') = PREEMPTED →
      r_placeholders (mv x') = expected fs) ∧
    (r_status (mv x') = RUNNING → r_computed (mv x') - expected fs < sr_num_tokens x' ∧
      (0 < expected fs → r_computed (mv x') - expected fs = sr_num_tokens x' - 1)).
Proof.
  intros Hx Hk Hst Hp Hi Hs Hc Hl.
  destruct (take_turns_run r ts (all_token_ids (sr_request (fx x))) s []) as (out & s' & fs & Hrun & x' & Hx' & _ & Htok & []); [|done|].
  { exists x. split; [done|]. split; [done|]. split; [done|]. split; try done.
    - by intros f ?%elem_of_nil.
    - intros _. rewrite Hp, Hs. split_and!; [lia|lia|by left].
    - by intros _ f ?%elem_of_nil. }
  exists out, s', fs, x'. split; [done|]. split; [done|]. split; [done|]. split; [done|]. split; [done|]. split; [auto|].
  intros Hr. destruct (co_running0 Hr) as (H1 & H2 & _). rewrite <-(co_placeholders0 (or_introl Hr)). split; [done|]. intros Hpos. specialize (H2 Hpos). lia.
Qed.
End Async.

(** *** Witness

    The second step is given before the first output is back; then the request is
    preempted with that output under way, takes it, and starts over. *)
Definition async_conf : sconf := SConf 8 8 4 0 0 64 1 0 0 1 false true None 0 false false false false false false false.
Definition async_key : req := RequestQueue.Req 0 1 "a" 0.
Definition async_request : sreq :=
  SR (Fixed async_key (BlockHasher.Req "a" (zrange 0 4) 4 [] None None None []) [] 100 None
        GReady 0 false 0 (Some (Sampling None [] 0 None)))
     (Moving RUNNING [] 0 0 0 0 false 0 false 0).
Definition async_state : rsched unit unit unit :=
  RSched {["a" := async_request]} (Queues tt tt) [] tt tt (Books ∅ ∅ ∅ 0 ∅ 0 0 0 [] false UNPAUSED).
(** Fails for tokens that are not known. *)
Definition strict_cache (y : BlockHasher.Request) (n : Z) : M unit unit := ensure ((0 <=? n) && (n <? num_tokens y)) AssertionError.
Definition async_turns : list turn :=
  [Give 4 [-1] []; Give 2 [-1] [5]; Deliver [7]; Evict false; Deliver [8; 9]; Resume 0; Give 7 [-1] []; Deliver [10]].

Definition may_turn_b (r : req) (t : turn) (s : rsched unit unit unit) (fs : list flight) : bool :=
  match requests s !! request_id r with
  | None => false
  | Some x =>
      match t with
      | Give n _ drafts => bool_decide (r_status (mv x) = RUNNING) && (0 <? n)
          && (zlen drafts =? Z.max 0 (r_computed (mv x) + n - sr_num_tokens x - r_placeholders (mv x)))
      | Deliver g => (bool_decide (r_status (mv x) = RUNNING) || bool_decide (r_status (mv x) = PREEMPTED)) &&
          match fs with
          | [] => false
          | f :: _ => if fl_samples f then (1 <=? zlen g) && (zlen g <=? 1 + zlen (fl_drafts f)) else bool_decide (g = [])
          end
      | Evict _ => bool_decide (r_status (mv x) = RUNNING)
      | Resume k => bool_decide (r_status (mv x) = PREEMPTED) && (0 <=? k) && (k <? sr_num_tokens x)
          && ((r_stale (mv x) =? 0) || r_drop_stale (mv x))
      end
  end.

Lemma may_turn_b_true r t s fs : may_turn_b r t s fs = true → may_turn r t s fs.
Proof.
  unfold may_turn_b, may_turn. destruct (requests s !! request_id r) as [x|]; [|done]. intros Hb. exists x. split; [done|].
  destruct t as [n ph drafts|g|drop|k].
  - rewrite !andb_true_iff, bool_decide_eq_true in Hb. split_and!; [tauto|lia|lia].
  - rewrite andb_true_iff, orb_true_iff, !bool_decide_eq_true in Hb. destruct Hb as [Hst Hf]. split; [done|].
    destruct fs as [|f fs]; [done|]. exists f, fs. split; [done|]. destruct (fl_samples f); [lia|by apply bool_decide_eq_true in Hf].
  - by apply bool_decide_eq_true in Hb.
  - rewrite !andb_true_iff, orb_true_iff, bool_decide_eq_true in Hb. destruct Hb as [[[Hst ?] ?] [?|?]]; split_and!; try done; try lia. by right.
Qed.

Definition async_take := take_turn (K := unit) (E := unit) (Q := unit) async_conf None strict_cache (λ _, false) async_key.

Fixpoint legal_turns_b (ts : list turn) (s : rsched unit unit unit) (fs : list flight) : bool :=
  match ts with
  | [] => true
  | t :: ts' => may_turn_b async_key t s fs &&
      match async_take t s fs with Ok (_, s1, fs1) => legal_turns_b ts' s1 fs1 | Raise _ => true end
  end.

Lemma legal_turns_b_true ts s fs : legal_turns_b ts s fs = true → legal_turns async_conf None strict_cache (λ _, false) async_key ts s fs.
Proof.
  revert s fs. induction ts as [|t ts IH]; intros s fs Hb; [done|]. cbn [legal_turns_b] in Hb. apply andb_true_iff in Hb as [Hmay Hl].
  split; [by apply may_turn_b_true|]. unfold async_take in Hl. destruct (take_turn _ _ _ _ _ _ _ _) as [[[out s1] fs1]|]; [|done]. by apply IH.
Qed.

Lemma async_known : known async_key async_request.
Proof. split; [done|by eexists|split; by vm_compute|by vm_compute]. Qed.

Lemma async_legal : legal_turns async_conf None strict_cache (λ _, false) async_key async_turns async_state [].
Proof. apply legal_turns_b_true. by vm_compute. Qed.

Lemma strict_cache_known y n k : 0 ≤ n < num_tokens y → ∃ k', strict_cache y n k = (Ok tt, k').
Proof. intros Hn. exists k. unfold strict_cache. apply ensure_true. lia. Qed.

Lemma no_hasher (h : BlockHasher.Request → result (list bytes)) (y : BlockHasher.Request) : None = Some h → ∃ hs, h y = Ok hs.
Proof. done. Qed.

Lemma async_counters_consistent_witness :
  ∃ s' x', take_turns async_conf None strict_cache (λ _, false) async_key async_turns async_state [] = Ok ([7; 8; 9; 10], s', []) ∧
    requests s' !! "a"%string = Some x' ∧ r_placeholders (mv x') = 0 ∧
    all_token_ids (sr_request (fx x')) = [0; 1; 2; 3; 7; 8; 9; 10].
Proof.
  destruct (async_counters_consistent (E := unit) (Q := unit) async_conf None strict_cache (λ _, false) eq_refl no_hasher strict_cache_known
    async_key async_turns async_state async_request eq_refl async_known eq_refl eq_refl eq_refl eq_refl eq_refl async_legal)
    as (out & s' & fs & x' & Hrun & Hx' & Htok & _ & _ & Hph & _).
  assert (match take_turns async_conf None strict_cache (λ _, false) async_key async_turns async_state [] with
          | Ok (out, s, fs) => (out, fs, (λ x, r_status (mv x)) <$> requests s !! "a"%string)
          | Raise _ => ([], [], None)
          end = ([7; 8; 9; 10], [], Some RUNNING)) as Hv by by vm_compute.
  rewrite Hrun in Hv. change (request_id async_key) with "a"%string in Hx'. rewrite Hx' in Hv. injection Hv as -> -> Hst.
  exists s', x'. split; [done|]. split; [done|].
  split; [rewrite Hph; [done|by rewrite Hst|by left]|]. rewrite Htok. by vm_compute.
Defined.
