(* ===== verification/EngineLoop.v ===== *)
(** * The engine loop

    [EngineCore.step] (RequestUpdate.v) and what happens between two steps: requests
    come, are aborted, and scheduling is paused.  [events_run] closes the loop: what
    a step needs ([may_step] of RequestSchedulerProps.v) is what the events before
    it leave.

    The event sequence is the one of the synchronous engine ([step], not
    [step_with_batch_queue]): the output of a step is processed before the next. *)

From S2P Require Import Prelude PyData Float BlockHash BlockHasher SingleTypeManager KVCacheManager.
From S2P Require Import EncoderCache Heap RequestQueue StopConditions RequestScheduler SchedulerInterfaces.
From S2P Require Import RequestSchedulerSpec RequestUpdate RequestUpdateSpec RequestSchedulerProps.
From stdpp Require Import base gmap sets list strings.
From Stdlib Require Import ZArith Lia.
Open Scope Z_scope.

(** What the engine is told. *)
Inductive event :=
  | Arrive (r : req) (x : sreq)
  | Abort (ids : list string)
  | Pause (p : pause)
  | Step (v : environment).

Section Events.
Context {K E Q : Type} `{KVCache K} `{EncoderManager E} `{RequestQueue Q}.
Context (c : sconf) (set_order : gset Z → list Z) (id_order : gset string → list string).
Context (block_hasher : option (BlockHasher.Request → result (list bytes))).
Notation st := (rsched K E Q).

(** [Scheduler.set_pause_state] *)
Definition set_pause_state (p : pause) (b : books) : books :=
  Books (finished_req_ids b) (reset_preempted_req_ids b) (_inflight_prefills b)
    (num_waiting_for_streaming_input b) (grammar_compile_error_reqs b) (current_step b) (sched_step_seq b)
    (processed_step_seq b) (deferred_frees b) (prefill_capacity_bound b) p.

Definition perform (e : event) : M st (list EngineCoreOutput) :=
  match e with
  | Arrive r x => RequestUpdate.add_request r x >> ret []
  | Abort ids => RequestUpdate.abort_requests c set_order id_order ids >> ret []
  | Pause p => on_bk (set_pause_state p) >> ret []
  | Step v => RequestUpdate.step c set_order id_order block_hasher v
  end.

Fixpoint perform_all (es : list event) : M st (list EngineCoreOutput) :=
  match es with
  | [] => ret []
  | e :: es' => let! outs := perform e in let! more := perform_all es' in ret (outs ++ more)
  end.
End Events.

Section Engine.
Context {K E Q : Type} `{KVLaws K} `{EncoderLaws E set_order} `{QueueLaws Q}.
Context (c : sconf) (Hconf : conf_ok (kv_limit (K := K)) c) (Hone : sc_sampled_per_step c = 1).
Context (adapters : gset Z) (Hadapt : ∀ mx, sc_max_loras c = Some mx → Z.of_nat (size adapters) ≤ mx).
Context (block_hasher : option (BlockHasher.Request → result (list bytes))).
Context (Hhash : ∀ h y, block_hasher = Some h → ∃ hs, h y = Ok hs).
Context (id_order : gset string → list string) (Hids : ∀ X, id_order X ≡ₚ elements X).
Notation st := (rsched K E Q).
Implicit Types (s : st) (r : req) (x : sreq).

(** The state between two steps; [all] are the requests. *)
Definition synced (all : list req) s : Prop := sync_ok c adapters [] [] (running s) [] all s.

Lemma synced_nodup all s : synced all s → NoDup (request_id <$> all).
Proof. intros Hs. pose proof (sy_nodup _ _ _ _ _ _ _ _ Hs) as Hn. by rewrite app_nil_r in Hn. Qed.

Lemma entry_ok_fx r x x' : fx x' = fx x → entry_ok c adapters r x → entry_ok c adapters r x'.
Proof.
  intros Hfx [Hf Hp Hr Hl]. unfold sr_num_tokens in *.
  split; unfold sr_num_tokens; rewrite ?Hfx; try done. by apply (req_fine_fx c r x).
Qed.

(** *** A step of the scheduler *)
Lemma synced_calm all s r x : synced all s → r ∈ all → requests s !! request_id r = Some x → calm x.
Proof.
  intros Hs Hr Hx. destruct (decide (r ∈ running s)) as [Hrun|Hrun].
  - destruct (sy_run _ _ _ _ _ _ _ _ Hs r x Hrun Hx) as [Hst ? ? ? ? [? ?]]. split; try done. by rewrite Hst.
  - by destruct (sy_wait _ _ _ _ _ _ _ _ Hs r x Hr Hrun Hx) as (_ & ? & _).
Qed.

Lemma synced_may_step all s : synced all s → may_step c all s.
Proof.
  intros Hs. pose proof Hs as []. split; [done|by eapply synced_nodup| | |].
  - split; try done.
    + intros r Hr. destruct (sy_known r Hr) as (x & Hx & []). by exists x.
    + intros r x Hr Hx. by destruct (sy_run r x Hr Hx).
    + intros r x Hr Hn Hx. by destruct (sy_wait r x Hr Hn Hx).
    + intros rid Hrid. specialize (sy_dom rid Hrid). by rewrite app_nil_r in sy_dom.
    + intros rid Hrid. apply sy_others. by rewrite app_nil_r.
  - intros r x Hr Hx. pose proof (run_in_all _ _ _ _ _ _ _ _ _ Hs Hr) as Hra.
    destruct (sy_known r Hra) as (x0 & Hx0 & He). assert (x0 = x) as -> by congruence.
    destruct (sy_run r x Hr Hx) as [? ? ? ? ? [? ?]]. pose proof (en_room _ _ _ _ He). unfold num_tokens_with_spec.
    pose proof (zlen_nonneg (r_spec_token_ids (mv x))). rewrite Hone. lia.
  - intros mx Hmx. etransitivity; [|by apply Hadapt]. apply inj_le, subseteq_size. intros i Hi.
    apply elem_of_list_to_set, list_elem_of_omap in Hi as (r & Hr & Hi).
    destruct (sy_known r) as (x & Hx & He); [by eapply run_in_all|]. unfold fixed_of in Hi. rewrite Hx in Hi.
    by apply (en_lora _ _ _ _ He).
Qed.

Lemma schedule_sync throttle all s : synced all s →
  ∃ p out freed s', schedule c set_order throttle s = (Ok (p, out, freed), s') ∧
    sync_ok c adapters (num_scheduled_tokens p) (RequestScheduler.scheduled_spec_decode_tokens p) (running s') [] all s' ∧
    NoDup (num_scheduled_tokens p).*1 ∧
    (∀ rid (n : Z), (rid, n) ∈ num_scheduled_tokens p → 0 < n ∧ rid ∈ request_id <$> all) ∧
    ∀ r, r ∈ all → fixed_of s' r = fixed_of s r.
Proof.
  intros Hs. destruct (synced_may_step _ _ Hs) as [_ Hn Hset Ho Hl].
  destruct (schedule_run c Hconf all Hn (step_limit c s) (sc_max_batched c) (fixed_of s) (running s) (computed_of s) True throttle s)
    as (p & out & freed & s1 & s' & Hrun & Hi & Hs' & HF & _ & Hr & HC & seq & Hreq); try done.
  { intros r x _ Hx. unfold computed_of. by rewrite Hx. }
  { intros _ r x. by apply synced_calm. }
  exists p, out, freed, s'. split; [done|]. pose proof (iv_pass _ _ _ _ _ _ _ _ _ _ _ Hi) as Hp.
  assert (Hback : ∀ r x', r ∈ all → requests s' !! request_id r = Some x' → ∃ x, requests s1 !! request_id r = Some x ∧
    calm x ∧ fx x' = fx x ∧
    match dget (request_id r) (num_scheduled_tokens p) with Some n => x' = advance c n seq x | None => x' = x end).
  { intros r x' Hra. rewrite Hreq. destruct (dget _ _).
    - destruct (requests s1 !! request_id r) as [x|] eqn:Hx; [|done]. intros [= <-]. exists x. split; [done|].
      split; [by apply (iv_calm _ _ _ _ _ _ _ _ _ _ _ Hi I r)|done].
    - intros Hx. exists x'. split; [done|]. split; [by apply (iv_calm _ _ _ _ _ _ _ _ _ _ _ Hi I r)|done]. }
  split; [|split; [apply (po_dict _ _ _ _ _ Hp)|split; [|exact HF]]].
  - destruct Hs'. split; rewrite ?app_nil_r; try done.
    + intros r Hra. destruct (se_known r Hra) as (x' & Hx' & _). exists x'. split; [done|].
      destruct (sy_known _ _ _ _ _ _ _ _ Hs r Hra) as (x & Hx & He). apply (entry_ok_fx r x); [|done].
      specialize (HF r Hra). unfold fixed_of in HF. rewrite Hx, Hx' in HF. by injection HF.
    + intros r x' Hrr Hx'. assert (Hra : r ∈ all) by (rewrite <-se_perm; by apply elem_of_app; left).
      destruct (se_run r x' Hrr Hx') as (Hst & Hc & Hrd). destruct (Hback r x' Hra Hx') as (x & Hx & [Hcp Hcf Hcs Hcc _] & Hfx & Hx'eq).
      rewrite Hr in Hrr. destruct (iv_run _ _ _ _ _ _ _ _ _ _ _ Hi r x Hrr Hx) as [_ _ _ _ _ Hspec].
      destruct (dget (request_id r) (num_scheduled_tokens p)) as [n|] eqn:Ed; subst x'.
      * split; try done. cbn. split; [lia|]. rewrite (Hspec n eq_refl), Hcp. unfold sr_num_tokens. cbn. f_equal. lia.
      * by split.
    + intros r x' Hra Hnr Hx'. split; [by apply se_wait|]. destruct (Hback r x' Hra Hx') as (x & Hx & Hcalm & Hfx & Hx'eq).
      rewrite Hr in Hnr. pose proof (planned_key c all Hn _ _ _ _ _ _ _ _ _ r Hi Hra) as Hnone.
      rewrite Hnone in Hx'eq |- *; [by subst x'|intros Hpl; by apply Hnr, (iv_sub _ _ _ _ _ _ _ _ _ _ _ Hi)..].
    + by intros r ?%elem_of_nil.
  - intros rid n Hin. assert (Hk : rid ∈ dkeys (num_scheduled_tokens p)) by (unfold dkeys; by apply (list_elem_of_fmap_2 fst _ (rid, n))).
    split; [eapply (po_pos _ _ _ _ _ Hp), dget_elem_of; [apply Hp|done]|].
    rewrite (po_keys _ _ _ _ _ Hp) in Hk. apply list_elem_of_fmap in Hk as (r & -> & Hpl). apply list_elem_of_fmap_2.
    eapply (running_all c all); [exact Hi|]. by apply (iv_sub _ _ _ _ _ _ _ _ _ _ _ Hi).
Qed.

(** *** A new request *)

(** [Request.__init__] *)
Record fresh_request r x : Prop := {
  fq_entry : entry_ok c adapters r x;
  fq_status : r_status (mv x) = WAITING ∨ r_status (mv x) = WAITING_FOR_STRUCTURED_OUTPUT_GRAMMAR;
  fq_moving : r_computed (mv x) = 0 ∧ r_placeholders (mv x) = 0 ∧ r_in_flight (mv x) = 0 ∧ r_stale (mv x) = 0;
}.

Lemma enqueue_run (sta : status) r s : queue_ok (waiting (rqs s)) → queue_ok (skipped_waiting (rqs s)) →
  ∃ qs, on_rqs (_enqueue_waiting_request sta r) s = (Ok tt, set_rqs qs s) ∧
    queue_ok (waiting qs) ∧ queue_ok (skipped_waiting qs) ∧
    service (waiting qs) ++ service (skipped_waiting qs)
      ≡ₚ r :: service (waiting (rqs s)) ++ service (skipped_waiting (rqs s)).
Proof.
  intros Hw Hk. unfold _enqueue_waiting_request, on_rqs. destruct (_is_blocked_waiting_status sta).
  - destruct (law_add r _ Hk) as (q & Hrun & Hq & Es). exists (Queues (waiting (rqs s)) q).
    split; [by erewrite zoom_ok by (apply zoom_ok; exact Hrun)|]. split_and!; try done. cbn. by rewrite Es, (proj1 (law_adds_one _ _)), Permutation_middle.
  - destruct (law_add r _ Hw) as (q & Hrun & Hq & Es). exists (Queues q (skipped_waiting (rqs s))).
    split; [by erewrite zoom_ok by (apply zoom_ok; exact Hrun)|]. split_and!; try done. cbn. by rewrite Es, (proj1 (law_adds_one _ _)).
Qed.

Lemma add_request_run all r x s :
  synced all s → requests s !! request_id r = None → fresh_request r x →
  ∃ s', RequestUpdate.add_request r x s = (Ok tt, s') ∧ synced (r :: all) s' ∧
    requests s' = <[request_id r := x]> (requests s).
Proof.
  intros Hs Hnone [He Hst (Hc & Hp & Hf & Hz)]. unfold RequestUpdate.add_request. run_step. rewrite Hnone.
  destruct (enqueue_run (r_status (mv x)) r s) as (qs & Hrun & Hw & Hk & Hperm); [apply Hs|apply Hs|].
  rewrite (bind_ok _ _ _ _ _ Hrun). eexists. split; [reflexivity|]. split; [|done].
  assert (Hnew : request_id r ∉ request_id <$> all).
  { intros (r' & Heq & Hr')%list_elem_of_fmap. destruct (sy_known _ _ _ _ _ _ _ _ Hs r' Hr') as (x' & Hx' & _). congruence. }
  assert (Hold : ∀ r', r' ∈ all → <[request_id r:=x]> (requests s) !! request_id r' = requests s !! request_id r').
  { intros r' Hr'. rewrite lookup_insert_ne; [done|]. intros Heq. apply Hnew. rewrite Heq. by apply list_elem_of_fmap_2. }
  pose proof Hs as []. rewrite app_nil_r in *. split; cbn -[fmap]; rewrite ?app_nil_r; try done.
  - cbn. by apply NoDup_cons.
  - rewrite Hperm, <-sy_perm. symmetry. apply Permutation_middle.
  - intros r' [->|Hr']%elem_of_cons; [exists x; by rewrite lookup_insert_eq|]. rewrite Hold by done. by apply sy_known.
  - intros r' y Hr' Hy. rewrite Hold in Hy by (by eapply run_in_all). by apply sy_run.
  - intros r' y [->|Hr']%elem_of_cons Hnr Hy.
    + rewrite lookup_insert_eq in Hy. injection Hy as <-. pose proof (rf_tokens _ _ _ (en_fine _ _ _ _ He)) as Htok.
      split; [|split; [split; rewrite ?Hc; try done; [lia|split; by destruct Hst as [-> | ->]]|done]].
      split; rewrite ?Hc; try done; try lia; try (by destruct Hst as [-> | ->]). intros _. by apply sy_others.
    + rewrite Hold in Hy by done. by apply sy_wait.
  - by intros r' ?%elem_of_nil.
  - intros rid. rewrite lookup_insert_is_Some. cbn. intros [<-|[_ ?]]; [by left|right; by apply sy_dom].
  - intros rid Hn. cbn in Hn. apply sy_others. set_solver.
Qed.

(** *** Draft tokens *)
Lemma draft_one_run validate e all s : synced all s →
  ∃ s', update_draft_one validate e s = (Ok tt, s') ∧ synced all s' ∧ ∀ rid, fx <$> requests s' !! rid = fx <$> requests s !! rid.
Proof.
  intros Hs. unfold update_draft_one. run_step. destruct (requests s !! e.1) as [x|] eqn:Hx; [|by exists s].
  destruct (is_finished _); [by exists s|].
  assert (∃ r, r ∈ all ∧ request_id r = e.1) as (r & Hr & Hid).
  { assert (e.1 ∈ request_id <$> all ++ []) as Hin by (by apply (sy_dom _ _ _ _ _ _ _ _ Hs)).
    rewrite app_nil_r in Hin. apply list_elem_of_fmap in Hin as (r & -> & ?). by exists r. }
  rewrite <-Hid in Hx. destruct (sy_known _ _ _ _ _ _ _ _ Hs r Hr) as (x0 & Hx0 & He). assert (x0 = x) as -> by congruence.
  rewrite (rf_key _ _ _ (en_fine _ _ _ _ He)). clear Hx0.
  set (f := if r_prefill_chunk (mv x) then clear_spec else set_spec (validate e.1 e.2)).
  rewrite (put_run r x f s Hx). eexists. split; [reflexivity|].
  set (x' := SR (fx x) (f (mv x))).
  assert (Hsame : r_status (f (mv x)) = r_status (mv x) ∧ r_computed (f (mv x)) = r_computed (mv x) ∧
    r_placeholders (f (mv x)) = r_placeholders (mv x) ∧ r_stale (f (mv x)) = r_stale (mv x) ∧
    r_in_flight (f (mv x)) = r_in_flight (mv x)) by (unfold f; by destruct (r_prefill_chunk _)).
  destruct Hsame as (E1 & E2 & E3 & E4 & E5).
  assert (Hlook : ∀ r' y, <[request_id r:=x']> (requests s) !! request_id r' = Some y → r' ∈ all →
    r' = r ∧ y = x' ∨ requests s !! request_id r' = Some y).
  { intros r' y Hy Hr'. destruct (decide (request_id r' = request_id r)) as [Heq|Hne]; [left|right].
    - rewrite Heq, lookup_insert_eq in Hy. injection Hy as <-. split; [|done].
      by apply (key_inj all); [by eapply synced_nodup|..].
    - by rewrite lookup_insert_ne in Hy by done. }
  split.
  - pose proof Hs as []. split; try done.
    + intros r' Hr'. destruct (sy_known r' Hr') as (y & Hy & Hey). cbn.
      destruct (decide (request_id r' = request_id r)) as [Heq|Hne]; [|exists y; by rewrite lookup_insert_ne].
      assert (r' = r) as -> by (by apply (key_inj all); [by eapply synced_nodup|..]).
      exists x'. rewrite lookup_insert_eq. split; [done|]. by apply (entry_ok_fx r x).
    + cbn. intros r' y Hr' Hy. destruct (Hlook r' y Hy) as [[-> ->]|Hy']; [by eapply run_in_all| |by apply sy_run].
      destruct (sy_run r x Hr' Hx). split; unfold x'; cbn; rewrite ?E1, ?E2, ?E3, ?E4, ?E5; done.
    + cbn. intros r' y Hr' Hn Hy. destruct (Hlook r' y Hy Hr') as [[-> ->]|Hy']; [|by apply sy_wait].
      destruct (sy_wait r x Hr Hn Hx) as ([] & [] & ?).
      split; [split|split; [split|done]]; unfold x'; cbn; rewrite ?E1, ?E2, ?E3, ?E4, ?E5; done.
    + by intros r' ?%elem_of_nil.
    + cbn. intros rid. rewrite lookup_insert_is_Some. intros [<-|[_ ?]]; [|by apply sy_dom].
      rewrite app_nil_r. by apply list_elem_of_fmap_2.
  - intros rid. cbn. destruct (decide (rid = request_id r)) as [->|Hne].
    + by rewrite lookup_insert_eq, Hx.
    + by rewrite lookup_insert_ne.
Qed.

Lemma drafts_run validate drafts all s : synced all s →
  ∃ s', update_draft_token_ids validate drafts s = (Ok tt, s') ∧ synced all s' ∧
    ∀ rid, fx <$> requests s' !! rid = fx <$> requests s !! rid.
Proof.
  unfold update_draft_token_ids. revert s. induction drafts as [|e drafts IH]; intros s Hs; [by exists s|].
  destruct (draft_one_run validate e all s Hs) as (s1 & Hrun & Hs1 & E1). rewrite (mfor_cons _ _ _ _ _ Hrun).
  destruct (IH s1 Hs1) as (s' & Hrun' & Hs' & E2). exists s'. split; [done|]. split; [done|]. intros rid. by rewrite E2.
Qed.

(** *** A step of the engine *)
Lemma has_requests_run all s : synced all s → ∃ b, RequestUpdate.has_requests s = Ok b.
Proof.
  intros Hs. destruct (sy_queues _ _ _ _ _ _ _ _ Hs) as [Hw Hk].
  destruct (law_iter _ Hw) as [Ew _], (law_iter _ Hk) as [Ek _].
  unfold RequestUpdate.has_requests, get_num_unfinished_requests. rewrite Ew, Ek. destruct (_pause_state _); cbn; by eexists.
Qed.

Lemma abort_run ids l drafts all s :
  sync_ok c adapters l drafts (running s) [] all s →
  ∃ s' (gone : list req), (when negb (bool_decide (ids = [])) do (RequestUpdate.abort_requests c set_order id_order ids >> ret tt)) s = (Ok tt, s') ∧
    sync_ok c adapters l drafts (running s') [] (filter (.∉ gone) all) s' ∧
    (∀ r, r ∈ gone ↔ r ∈ all ∧ request_id r ∈ ids) ∧
    ∀ rid, rid ∉ request_id <$> gone → requests s' !! rid = requests s !! rid.
Proof.
  intros Hs. case_bool_decide as Hne; cbn [negb].
  - exists s, []. rewrite filter_none. split; [done|]. split; [done|]. split; [|done]. subst ids. intros r.
    split; [by intros ?%elem_of_nil|by intros [_ ?%elem_of_nil]].
  - unfold RequestUpdate.abort_requests.
    destruct (finish_requests_run c Hconf Hone adapters FINISHED_ABORTED (id_order (list_to_set ids)) l drafts all s) as
      (s' & Hrun & Hs' & _ & _ & Ho); [done|done|by apply id_order_nodup|].
    exists s', (named (requests s) (id_order (list_to_set ids))).
    split; [by rewrite (bind_ok _ _ _ _ _ Hrun)|]. split; [done|]. split; [|done]. intros r.
    rewrite (elem_of_named _ _ _ _ _ _ _ _ _ Hs), Hids, elem_of_elements, elem_of_list_to_set. done.
Qed.

(** The model runner answers for what was scheduled. *)
Definition legal_step (v : environment) s : Prop :=
  ∀ p out freed s1, schedule c set_order (ev_throttle v) s = (Ok (p, out, freed), s1) →
    ∀ rid (n : Z), (rid, n) ∈ num_scheduled_tokens p →
      runner_ok (ev_model v p) (requests s1) (RequestScheduler.scheduled_spec_decode_tokens p) rid.

(** A step: [gone] are the requests that are no longer there, and [outs] is told. *)
Record step_done (aborts : list string) (all gone : list req) (outs : list EngineCoreOutput) s s' : Prop := {
  sd_synced : synced (filter (.∉ gone) all) s';
  sd_kept : ∀ r x, r ∈ all → r ∉ gone → requests s !! request_id r = Some x →
    ∃ x', requests s' !! request_id r = Some x' ∧ appended (delivered outs (request_id r)) (fx x) (fx x');
  sd_gone : ∀ r, r ∈ gone → r ∈ all ∧ (ended outs (request_id r) ∨ request_id r ∈ aborts);
  sd_ended : ∀ r, r ∈ all → r ∉ gone → ¬ ended outs (request_id r) ∧ request_id r ∉ aborts;
  sd_ids : ∀ o, o ∈ outs → eo_request_id o ∈ request_id <$> all;
}.

Lemma step_done_idle all s s' : synced all s' → (∀ r, r ∈ all → fixed_of s' r = fixed_of s r) → step_done [] all [] [] s s'.
Proof.
  intros Hs Hfx. split; rewrite ?filter_none; try done.
  - intros r x Hr _ Hx. specialize (Hfx r Hr). unfold fixed_of in Hfx. rewrite Hx in Hfx.
    destruct (requests s' !! request_id r) as [x'|]; [|done]. injection Hfx as Hfx. exists x'. split; [done|].
    rewrite Hfx. apply appended_nil.
  - by intros r ?%elem_of_nil.
  - intros r _ _. split; [by intros (o & ?%elem_of_nil & _)|by intros ?%elem_of_nil].
  - by intros o ?%elem_of_nil.
Qed.

Lemma step_run v all s : synced all s → legal_step v s →
  ∃ s' gone outs aborts, RequestUpdate.step c set_order id_order block_hasher v s = (Ok outs, s') ∧
    (aborts = [] ∨ aborts = ev_aborts v) ∧ step_done aborts all gone outs s s'.
Proof.
  intros Hs Hlegal. unfold RequestUpdate.step. destruct (has_requests_run all s Hs) as [busy Hbusy].
  rewrite (bind_ok _ _ _ busy s) by (by rewrite Hbusy).
  destruct busy; cbn [negb].
  2: { exists s, [], [], []. split; [done|]. split; [by left|]. by apply step_done_idle. }
  destruct (schedule_sync (ev_throttle v) all s Hs) as (p & out & freed & s1 & Hsch & Hs1 & Hnd & Hpos & HF).
  rewrite (bind_ok _ _ _ _ _ Hsch). cbn [fst snd]. specialize (Hlegal _ _ _ _ Hsch).
  destruct (abort_run (ev_aborts v) _ _ all s1 Hs1) as (s2 & g1 & Hab & Hs2 & Hg1 & Ho2).
  rewrite (bind_ok _ _ _ _ _ Hab).
  assert (Hids1 : ∀ r, r ∈ all → request_id r ∈ request_id <$> g1 → r ∈ g1).
  { intros r Hr (r' & Heq & Hr')%list_elem_of_fmap. rewrite (key_inj all r r'); try done; [by eapply synced_nodup|by apply Hg1]. }
  assert (Hrunner : ∀ rid (n : Z), (rid, n) ∈ num_scheduled_tokens p →
    0 < n ∧ runner_ok (ev_model v p) (requests s2) (RequestScheduler.scheduled_spec_decode_tokens p) rid).
  { intros rid n Hin. split; [by apply (Hpos rid)|]. intros x Hx. apply (Hlegal rid n Hin). rewrite <-Ho2; [done|].
    intros (r & -> & Hr)%list_elem_of_fmap.
    assert (request_id r ∈ request_id <$> filter (.∉ g1) all ++ []) as Hd by (by apply (sy_dom _ _ _ _ _ _ _ _ Hs2)).
    rewrite app_nil_r in Hd. apply list_elem_of_fmap in Hd as (r' & Heq & [Hn Hr']%list_elem_of_filter).
    apply Hn, Hids1; [done|]. rewrite <-Heq. by apply list_elem_of_fmap_2. }
  destruct (update_from_output_run c Hconf Hone adapters block_hasher Hhash (ev_model v p) (ev_grammar v) id_order Hids
    (num_scheduled_tokens p) (RequestScheduler.scheduled_spec_decode_tokens p) (filter (.∉ g1) all) s2 Hs2 Hnd Hrunner)
    as (s3 & g2 & outs & Hup & Hs3 & _ & _ & Hg2 & [Htok Hend] & Houts).
  rewrite (bind_ok _ _ _ _ _ Hup). rewrite filter_twice in Hs3. fold (synced (filter (.∉ g1 ++ g2) all) s3) in Hs3.
  assert (∃ s4, (when 0 <? sum_scheduled p do update_draft_token_ids (ev_validate v) (ev_drafts v)) s3 = (Ok tt, s4) ∧
    synced (filter (.∉ g1 ++ g2) all) s4 ∧ ∀ rid, fx <$> requests s4 !! rid = fx <$> requests s3 !! rid) as (s4 & Hdr & Hs4 & Hfx4).
  { destruct (0 <? sum_scheduled p); [by apply drafts_run|by exists s3]. }
  rewrite (bind_ok _ _ _ _ _ Hdr). exists s4, (g1 ++ g2), outs, (ev_aborts v). split; [done|]. split; [by right|].
  assert (Hg2' : ∀ r, r ∈ g2 → r ∈ all ∧ r ∉ g1) by (intros r Hr; apply Hg2, list_elem_of_filter in Hr; tauto).
  split; [done|..].
  - intros r x Hr [Hn1 Hn2]%not_elem_of_app Hx.
    destruct (sy_known _ _ _ _ _ _ _ _ Hs1 r Hr) as (x1 & Hx1 & _).
    assert (fx x1 = fx x) as Hfx1.
    { specialize (HF r Hr). unfold fixed_of in HF. rewrite Hx, Hx1 in HF. by injection HF. }
    destruct (Htok r x1) as (x3 & Hx3 & Ha); [by apply list_elem_of_filter|done|rewrite Ho2; [done|by intros ?%Hids1]|].
    specialize (Hfx4 (request_id r)). rewrite Hx3 in Hfx4. destruct (requests s4 !! request_id r) as [x4|]; [|done].
    injection Hfx4 as Hfx4. exists x4. split; [done|]. by rewrite Hfx4, <-Hfx1.
  - intros r [Hr|Hr]%elem_of_app; [split; [|right]; by apply Hg1|]. split; [by apply Hg2'|]. left. apply Hend; [|done].
    apply list_elem_of_filter. by destruct (Hg2' r Hr).
  - intros r Hr [Hn1 Hn2]%not_elem_of_app. split.
    + intros He. apply Hn2, Hend; [by apply list_elem_of_filter|done].
    + intros Hin. by apply Hn1, Hg1.
  - intros o Ho. destruct (Houts o Ho) as [Hin|(r & -> & Hr)%list_elem_of_fmap].
    + apply list_elem_of_fmap in Hin as ([rid n] & -> & Hin). by apply (Hpos rid n).
    + apply list_elem_of_fmap_2. by apply Hg2'.
Qed.

(** *** Sequences of events *)

(** The event may happen. *)
Definition legal (e : event) s : Prop :=
  match e with
  | Arrive r x => requests s !! request_id r = None ∧ fresh_request r x
  | Step v => legal_step v s
  | _ => True
  end.

Notation perform := (perform c set_order id_order block_hasher).
Notation perform_all := (perform_all c set_order id_order block_hasher).

Fixpoint legal_run (es : list event) s : Prop :=
  match es with
  | [] => True
  | e :: es' => legal e s ∧ legal_run es' (perform e s).2
  end.

Definition added (es : list event) : list (req * sreq) := omap (λ e, match e with Arrive r x => Some (r, x) | _ => None end) es.
Definition aborted (es : list event) : list string :=
  mjoin ((λ e, match e with Abort ids => ids | Step v => ev_aborts v | _ => [] end) <$> es).

Lemma perform_run e all s : synced all s → legal e s → added [e] = [] →
  ∃ s' gone outs aborts, perform e s = (Ok outs, s') ∧ (∀ rid, rid ∈ aborts → rid ∈ aborted [e]) ∧
    step_done aborts all gone outs s s'.
Proof.
  intros Hs Hl Hno. destruct e as [r x|ids|p|v]; cbn in Hno; [done|..]; cbn [EngineLoop.perform].
  - unfold RequestUpdate.abort_requests.
    destruct (finish_requests_run c Hconf Hone adapters FINISHED_ABORTED (id_order (list_to_set ids)) [] [] all s) as
      (s' & Hrun & Hs' & _ & _ & Ho); [done|done|by apply id_order_nodup|].
    rewrite (bind_ok _ _ _ _ _ Hrun). set (gone := named (requests s) (id_order (list_to_set ids))) in *.
    assert (Hg : ∀ r, r ∈ gone ↔ r ∈ all ∧ request_id r ∈ ids).
    { intros r. unfold gone. rewrite (elem_of_named _ _ _ _ _ _ _ _ _ Hs), Hids, elem_of_elements, elem_of_list_to_set. done. }
    exists s', gone, [], ids. split; [done|]. split; [intros rid; cbn; by rewrite app_nil_r|]. split; [done|..].
    + intros r x Hr Hn Hx. exists x. split; [|apply appended_nil]. rewrite Ho; [done|].
      intros (r' & Heq & Hr')%list_elem_of_fmap. apply Hn. rewrite (key_inj all r r'); try done; [by eapply synced_nodup|by apply Hg].
    + intros r [? ?]%Hg. split; [done|by right].
    + intros r Hr Hn. split; [by intros (o & ?%elem_of_nil & _)|]. intros Hin. by apply Hn, Hg.
    + by intros o ?%elem_of_nil.
  - unfold on_bk, modify. exists (set_bk (set_pause_state p (bk s)) s), [], [], []. split; [done|].
    split; [by intros rid ?%elem_of_nil|]. apply step_done_idle; [|done].
    apply (sync_rest _ _ _ _ _ _ _ s); try done; apply Hs.
  - destruct (step_run v all s Hs Hl) as (s' & gone & outs & aborts & Hrun & Hab & Hd).
    exists s', gone, outs, aborts. split; [done|]. split; [|done]. intros rid Hin. cbn. rewrite app_nil_r.
    by destruct Hab as [-> | ->]; [apply elem_of_nil in Hin|].
Qed.

(** The engine at its start. *)
Record started s : Prop := {
  st_requests : requests s = ∅;
  st_queues : queue_ok (waiting (rqs s)) ∧ queue_ok (skipped_waiting (rqs s));
  st_empty : running s = [] ∧ service (waiting (rqs s)) = [] ∧ service (skipped_waiting (rqs s)) = [];
  st_kv : kv_good (handed s) (kvm s);
  st_idle : ∀ rid, kv_idle (kvm s) rid;
  st_enc : enc_good (encm s);
  st_stream : 0 ≤ num_waiting_for_streaming_input (bk s);
}.

Lemma started_synced s : started s → 0 ≤ sc_max_running c → synced [] s.
Proof.
  intros [Er Hq (E1 & E2 & E3)] Hmax. unfold synced. rewrite E1.
  split; rewrite ?E2, ?E3; try done; try (by intros ? ?%elem_of_nil); try (by intros ? ? ?%elem_of_nil).
  - constructor.
  - intros rid. rewrite Er, lookup_empty. by intros [? [=]].
Qed.

Lemma events_run es all s : synced all s → legal_run es s →
  ∃ outs s' all', perform_all es s = (Ok outs, s') ∧ synced all' s'.
Proof.
  revert all s. induction es as [|e es IH]; intros all s Hs; [intros _; by exists [], s, all|]. intros [He Hes].
  assert (∃ outs s' all', perform e s = (Ok outs, s') ∧ synced all' s') as (outs & s1 & all1 & Hrun & Hs1).
  { destruct (decide (added [e] = [])) as [Hno|Hadd].
    - destruct (perform_run e all s Hs He Hno) as (s' & gone & outs & aborts & ? & _ & []). by eexists _, _, _.
    - destruct e as [r x|ids|p|v]; [|done..]. destruct He as [Hnone Hfresh].
      destruct (add_request_run all r x s Hs Hnone Hfresh) as (s' & Hrun & Hs' & _).
      exists [], s', (r :: all). split; [|done]. unfold EngineLoop.perform. by rewrite (bind_ok _ _ _ _ _ Hrun). }
  rewrite Hrun in Hes. destruct (IH all1 s1 Hs1 Hes) as (more & s' & all' & Hrest & Hs'). cbn [EngineLoop.perform_all].
  rewrite (bind_ok _ _ _ _ _ Hrun), (bind_ok _ _ _ _ _ Hrest). by eexists _, _, _.
Qed.

(** What the outputs account for. *)
Record accounts (adds : list (req * sreq)) (aborts : list string) (outs : list EngineCoreOutput) (all : list req) s : Prop := {
  ac_known : ∀ r, r ∈ all → ∃ x, (r, x) ∈ adds;
  ac_open : ∀ r x, (r, x) ∈ adds → r ∈ all → ¬ ended outs (request_id r) ∧
    ∃ x', requests s !! request_id r = Some x' ∧ appended (delivered outs (request_id r)) (fx x) (fx x');
  ac_gone : ∀ r x, (r, x) ∈ adds → r ∉ all → ended outs (request_id r) ∨ request_id r ∈ aborts;
  ac_ids : ∀ o, o ∈ outs → ∃ r x, (r, x) ∈ adds ∧ request_id r = eo_request_id o;
}.

Lemma ended_app outs outs' rid : ended (outs ++ outs') rid ↔ ended outs rid ∨ ended outs' rid.
Proof. unfold ended. setoid_rewrite elem_of_app. naive_solver. Qed.

Lemma accounts_step adds aborts outs all s ab ab' gone outs' s' :
  accounts adds aborts outs all s → step_done ab all gone outs' s s' → (∀ rid, rid ∈ ab → rid ∈ ab') →
  accounts adds (aborts ++ ab') (outs ++ outs') (filter (.∉ gone) all) s'.
Proof.
  intros [Hknown Hopen Hgone Hout] [Hs Hkept Hg Hend Hids'] Hab. split.
  - intros r [_ Hr]%list_elem_of_filter. by apply Hknown.
  - intros r x Hx [Hn Hr]%list_elem_of_filter. destruct (Hopen r x Hx Hr) as (Hne & x1 & Hx1 & Ha1).
    destruct (Hend r Hr Hn) as [Hne' _]. destruct (Hkept r x1 Hr Hn Hx1) as (x2 & Hx2 & Ha2).
    rewrite ended_app, delivered_app. split; [by intros [?|?]|]. exists x2. split; [done|]. by eapply appended_trans.
  - intros r x Hx Hn. rewrite ended_app, elem_of_app. destruct (decide (r ∈ all)) as [Hr|Hr].
    + assert (Hgr : r ∈ gone) by (destruct (decide (r ∈ gone)); [done|]; by destruct Hn; apply list_elem_of_filter).
      destruct (Hg r Hgr) as [_ [?|?]]; auto.
    + destruct (Hgone r x Hx Hr); auto.
  - intros o [Ho|Ho]%elem_of_app; [by apply Hout|]. apply Hids' in Ho. apply list_elem_of_fmap in Ho as (r & -> & Hr).
    destruct (Hknown r Hr) as [x Hx]. by exists r, x.
Qed.

Lemma accounts_add adds aborts outs all s r x s' :
  accounts adds aborts outs all s → request_id r ∉ (λ a, request_id a.1) <$> adds →
  requests s' = <[request_id r := x]> (requests s) → accounts (adds ++ [(r, x)]) aborts outs (r :: all) s'.
Proof.
  intros [Hknown Hopen Hgone Hout] Hnew Hreq.
  assert (Hne : ∀ r' x', (r', x') ∈ adds → request_id r' ≠ request_id r).
  { intros r' x' Hin Heq. apply Hnew. rewrite <-Heq. by apply (list_elem_of_fmap_2 (λ a, request_id a.1) _ (r', x')). }
  assert (Hsilent : ∀ o, o ∈ outs → eo_request_id o ≠ request_id r).
  { intros o Ho. destruct (Hout o Ho) as (r' & x' & Hin & <-). by apply (Hne r' x'). }
  split.
  - intros r' [->|Hr']%elem_of_cons; [exists x; set_solver|]. destruct (Hknown r' Hr') as [x' ?]. exists x'. set_solver.
  - intros r' x' [Hin|[= -> ->]%list_elem_of_singleton]%elem_of_app Hr'.
    + assert (r' ∈ all) as Hra by (apply elem_of_cons in Hr' as [->|?]; [by destruct (Hne r x' Hin)|done]).
      rewrite Hreq, lookup_insert_ne by (by apply not_eq_sym, (Hne r' x')). by apply Hopen.
    + split; [intros (o & Ho & Hid & _); by apply (Hsilent o)|]. exists x. rewrite Hreq, lookup_insert_eq. split; [done|].
      rewrite delivered_none by done. apply appended_nil.
  - intros r' x' [Hin|[= -> ->]%list_elem_of_singleton]%elem_of_app Hr'; [apply (Hgone r' x' Hin); set_solver|set_solver].
  - intros o Ho. destruct (Hout o Ho) as (r' & x' & ? & ?). exists r', x'. split; [set_solver|done].
Qed.

Lemma accounts_run es adds aborts outs all s :
  synced all s → accounts adds aborts outs all s → legal_run es s →
  NoDup ((λ a, request_id a.1) <$> adds ++ added es) →
  ∃ more s' all', perform_all es s = (Ok more, s') ∧ synced all' s' ∧
    accounts (adds ++ added es) (aborts ++ aborted es) (outs ++ more) all' s'.
Proof.
  revert adds aborts outs all s. induction es as [|e es IH]; intros adds aborts outs all s Hs Ha Hl Hnd.
  { exists [], s, all. cbn. by rewrite !app_nil_r. }
  destruct Hl as [He Hes]. cbn [EngineLoop.perform_all].
  assert (Hab : aborted (e :: es) = aborted [e] ++ aborted es) by (unfold aborted; cbn; by rewrite app_nil_r).
  destruct (decide (added [e] = [])) as [Hno|Hadd].
  - destruct (perform_run e all s Hs He Hno) as (s1 & gone & o1 & ab & Hrun & Hsub & Hd). rewrite Hrun in Hes.
    assert (Hadded : added (e :: es) = added es) by (by destruct e). rewrite Hadded in *.
    destruct (IH adds (aborts ++ aborted [e]) (outs ++ o1) (filter (.∉ gone) all) s1) as (more & s' & all' & Hrest & Hs' & Ha').
    { apply Hd. } { by eapply accounts_step. } { done. } { done. }
    rewrite (bind_ok _ _ _ _ _ Hrun), (bind_ok _ _ _ _ _ Hrest). eexists _, s', all'. split; [reflexivity|]. split; [done|].
    by rewrite Hab, !app_assoc.
  - destruct e as [r x|ids|p|v]; [|done..]. destruct He as [Hnone Hfresh].
    destruct (add_request_run all r x s Hs Hnone Hfresh) as (s1 & Hrun1 & Hs1 & Hreq).
    assert (Hrun : perform (Arrive r x) s = (Ok [], s1)) by (unfold EngineLoop.perform; by rewrite (bind_ok _ _ _ _ _ Hrun1)).
    rewrite Hrun in Hes. change (added (Arrive r x :: es)) with ([(r, x)] ++ added es) in *. rewrite app_assoc in *.
    destruct (IH (adds ++ [(r, x)]) aborts outs (r :: all) s1) as (more & s' & all' & Hrest & Hs' & Ha'); try done.
    { apply (accounts_add adds aborts outs all s); try done. rewrite !fmap_app in Hnd. apply NoDup_app in Hnd as [Hnd _].
      apply NoDup_app in Hnd as (_ & Hd & _). intros Hin. apply (Hd _ Hin). by left. }
    rewrite (bind_ok _ _ _ _ _ Hrun), (bind_ok _ _ _ _ _ Hrest). eexists _, s', all'. split; [reflexivity|]. done.
Qed.
End Engine.
