(* ===== verification/EngineLoopProps.v ===== *)
(** * The engine loop: the properties

    The theorems on the scheduler between two steps (RequestUpdate.v) and on the
    loop (EngineLoop.v), from the lemmas of RequestUpdateSpec.v and EngineLoop.v, and
    their instances at runs of the engine with the KV-cache manager without prefix
    caching, the encoder cache and the first-come queue. *)

From S2P Require Import Prelude PyData Float BlockHash BlockHasher BlockPool SingleTypeManager KVCacheManager.
From S2P Require Import EncoderCache EncoderCacheSpec RequestQueue StopConditions RequestScheduler SchedulerInterfaces.
From S2P Require Import RequestSchedulerSpec RequestUpdate RequestUpdateSpec SchedulerInstances RequestSchedulerProps EngineLoop.
From stdpp Require Import base gmap sets list strings.
From Stdlib Require Import ZArith Lia.
Open Scope Z_scope.

Section Properties.
Context {K E Q : Type} `{KVLaws K} `{EncoderLaws E set_order} `{QueueLaws Q}.
Implicit Types (s : rsched K E Q) (c : sconf).

(** What the loop relies on: the configuration of the synchronous engine without
    asynchronous scheduling, as many LoRA slots as there are adapters, a block hasher
    that answers. *)
Record engine_ok c (adapters : gset Z) (block_hasher : option (BlockHasher.Request → result (list bytes)))
    (id_order : gset string → list string) : Prop := {
  eg_conf : conf_ok (kv_limit (K := K)) c;
  eg_one : sc_sampled_per_step c = 1;
  eg_running : 0 ≤ sc_max_running c;
  eg_loras : ∀ mx, sc_max_loras c = Some mx → Z.of_nat (size adapters) ≤ mx;
  eg_hash : ∀ h y, block_hasher = Some h → ∃ hs, h y = Ok hs;
  eg_order : ∀ X, id_order X ≡ₚ elements X;
}.

(** C6: in the configurations of [engine_ok] the engine never fails, with any
    KV-cache manager, encoder cache and queues that keep the laws of
    SchedulerInterfaces.v. [engine_ok] asks for limits, lookaheads and draft slots
    that are not negative, a KV-cache manager made for at least the scheduler's
    maximal model length, padded decodes that are not cut off (no long-prefill
    threshold, or one above the number of speculative tokens), one sampled token per
    step (no asynchronous scheduling), no fewer LoRA slots than adapters in use, and
    a block hasher that answers; [lora_limit_exceeded] and [padded_decode_cut_off]
    show that an assertion does fail otherwise. From the engine's start, any
    sequence of new requests, aborts, pauses and steps then runs without an
    exception, provided that every new request is well formed, uses one of the
    adapters and has an id that is not in use, and that in each step the model
    runner has an answer for each scheduled request, with at most one token more
    than its drafts, at least one if it has drafts, and none while its prefill goes
    on or if it is a pooling request: every assertion of [schedule],
    [update_from_output], [finish_requests] and [add_request] holds, no dictionary
    lacks a key and no queue or block is missed. Afterwards the invariant holds, so
    that the next step can start ([may_step], which is what the properties of a
    single step ask for). *)
Theorem engine_never_fails c adapters block_hasher id_order es s :
  engine_ok c adapters block_hasher id_order → started s → legal_run (set_order := set_order) c adapters block_hasher id_order es s →
  ∃ outs s' all, perform_all c set_order id_order block_hasher es s = (Ok outs, s') ∧
    synced c adapters all s' ∧ may_step c all s'.
Proof.
  intros [Hc Hsp1 Hr Ha Hh Ho] Hs Hl.
  destruct (events_run c Hc Hsp1 adapters Ha block_hasher Hh id_order Ho es [] s) as (outs & s' & all & Hrun & Hs'); [|done|].
  { by apply started_synced. }
  exists outs, s', all. split; [done|]. split; [done|]. by eapply synced_may_step.
Qed.

(** C7: the engine loses no request and no token. In the configurations of
    [engine_ok] (sensible limits, one sampled token per step, a LoRA slot for each
    adapter), after any legal sequence of events (well-formed requests, a model
    runner that answers with at most one token more than the drafts) with distinct
    request ids: a request that is still there has had no final output, and its
    tokens are the ones it came with followed by exactly the tokens that the outputs
    delivered for it, in order, whatever preemptions, rejected drafts or pauses lay
    between; every other request has had its final output or was aborted; and no
    output is for an unknown id. *)
Theorem engine_accounts_for_tokens c adapters block_hasher id_order es s :
  engine_ok c adapters block_hasher id_order → started s → legal_run (set_order := set_order) c adapters block_hasher id_order es s →
  NoDup ((λ a, request_id a.1) <$> added es) →
  ∃ outs s' all, perform_all c set_order id_order block_hasher es s = (Ok outs, s') ∧
    running s' ++ service (waiting (rqs s')) ++ service (skipped_waiting (rqs s')) ≡ₚ all ∧
    (∀ r, r ∈ all → ∃ x, (r, x) ∈ added es) ∧
    (∀ r x, (r, x) ∈ added es → r ∈ all → ¬ ended outs (request_id r) ∧
      ∃ x', requests s' !! request_id r = Some x' ∧
        all_token_ids (sr_request (fx x')) = all_token_ids (sr_request (fx x)) ++ delivered outs (request_id r)) ∧
    (∀ r x, (r, x) ∈ added es → r ∉ all → ended outs (request_id r) ∨ request_id r ∈ aborted es) ∧
    ∀ o, o ∈ outs → eo_request_id o ∈ (λ a, request_id a.1) <$> added es.
Proof.
  intros [Hc Hsp1 Hr Ha Hh Ho] Hs Hl Hnd.
  destruct (accounts_run c Hc Hsp1 adapters Ha block_hasher Hh id_order Ho es [] [] [] [] s) as (outs & s' & all & Hrun & Hs' & [Hk Hopen Hgone Hids]);
    try done; [by apply started_synced| |].
  { split; try (by intros ? ?%elem_of_nil); by intros ? ? ?%elem_of_nil. }
  exists outs, s', all. split; [done|]. split; [apply Hs'|]. split; [done|]. split; [|split; [done|]].
  - intros r x Hx Hin. destruct (Hopen r x Hx Hin) as (Hne & x' & Hx' & Hap). split; [done|]. exists x'. split; [done|]. apply Hap.
  - intros o Hin. destruct (Hids o Hin) as (r & x & Hx & <-). by apply (list_elem_of_fmap_2 (λ a, request_id a.1) _ (r, x)).
Qed.

(** C13: ending requests from outside. Between two steps of the synchronous engine
    with a sensible configuration, in any state of its invariant, [finish_requests]
    with a final status ends exactly the requests that are named, each once, whether
    they run or wait; it cannot fail. They are gone from the dictionary and the
    queues and hold nothing in the KV cache any more; every other request is as it
    was, the running ones in their order, and the invariant holds. The ids are
    distinct, as those of the set that the code makes of them. *)
Theorem finish_requests_releases c adapters fs ids all s :
  conf_ok (kv_limit (K := K)) c → sc_sampled_per_step c = 1 → synced c adapters all s → is_finished fs = true → NoDup ids →
  ∃ gone s', finish_requests c set_order ids fs s = (Ok gone, s') ∧ NoDup gone ∧
    (∀ r, r ∈ gone ↔ r ∈ all ∧ request_id r ∈ ids) ∧ synced c adapters (filter (.∉ gone) all) s' ∧
    running s' = filter (.∉ gone) (running s) ∧
    (∀ r, r ∈ gone → requests s' !! request_id r = None ∧ kv_idle (kvm s') (request_id r)) ∧
    ∀ rid, rid ∉ request_id <$> gone → requests s' !! rid = requests s !! rid.
Proof.
  intros Hc Hsp1 Hs Hfs Hids.
  destruct (finish_requests_run c Hc Hsp1 adapters fs ids [] [] all s Hfs Hs Hids) as (s' & Hrun & Hs' & Er & _ & Ho).
  pose proof (elem_of_named c adapters [] [] (running s) all s ids) as Hin.
  exists (named (requests s) ids), s'. split; [done|]. split; [by eapply named_nodup|]. split; [intros r; by apply Hin|].
  split; [done|]. split; [done|]. split; [|done]. intros r Hr.
  assert (Hid : request_id r ∉ request_id <$> filter (.∉ named (requests s) ids) all ++ []).
  { rewrite app_nil_r. intros (r' & Heq & [Hn Hr']%list_elem_of_filter)%list_elem_of_fmap. apply Hn.
    rewrite (key_inj all r' r); [done|by eapply synced_nodup|done|by apply (Hin r Hs)|done]. }
  split; [|by apply (sy_others _ _ _ _ _ _ _ _ Hs')].
  destruct (requests s' !! request_id r) as [x|] eqn:Hx; [|done]. exfalso. apply Hid, (sy_dom _ _ _ _ _ _ _ _ Hs'). by eexists.
Qed.

(** C12: the engine's requests stay well formed. In the configurations of
    [engine_ok], after any legal sequence of events every entry of [requests] is
    filed under its own id, has not ended, and stands in exactly one place: in
    [running] if and only if its status is RUNNING, otherwise in one of the two
    queues; its prompt is part of its tokens, which leave room for one more; and
    nothing is in flight for it: no tokens, no placeholders, no stale output, and no
    computed tokens beyond the known ones. *)
Theorem engine_requests_well_formed c adapters block_hasher id_order es s :
  engine_ok c adapters block_hasher id_order → started s → legal_run (set_order := set_order) c adapters block_hasher id_order es s →
  ∃ outs s', perform_all c set_order id_order block_hasher es s = (Ok outs, s') ∧
    NoDup (request_id <$> running s' ++ service (waiting (rqs s')) ++ service (skipped_waiting (rqs s'))) ∧
    ∀ rid x, requests s' !! rid = Some x →
      request_id (sr_key (fx x)) = rid ∧ req_id (sr_request (fx x)) = rid ∧ is_finished (r_status (mv x)) = false ∧
      (sr_key (fx x) ∈ running s' ↔ r_status (mv x) = RUNNING) ∧
      (r_status (mv x) ≠ RUNNING → sr_key (fx x) ∈ service (waiting (rqs s')) ++ service (skipped_waiting (rqs s'))) ∧
      0 ≤ num_prompt_tokens (sr_request (fx x)) ≤ sr_num_tokens x ∧ sr_num_tokens x < sc_max_model_len c ∧
      0 ≤ r_computed (mv x) ≤ sr_num_tokens x ∧
      r_in_flight (mv x) = 0 ∧ r_placeholders (mv x) = 0 ∧ r_stale (mv x) = 0.
Proof.
  intros [Hc Hn1 Hr Ha Hh Ho] Hs Hl.
  destruct (events_run c Hc Hn1 adapters Ha block_hasher Hh id_order Ho es [] s) as (outs & s' & all & Hrun & Hs'); [|done|].
  { by apply started_synced. }
  exists outs, s'. split; [done|]. split; [rewrite (sy_perm _ _ _ _ _ _ _ _ Hs'); by eapply synced_nodup|].
  intros rid x Hx. pose proof (sy_dom _ _ _ _ _ _ _ _ Hs' rid (mk_is_Some _ _ Hx)) as Hd. rewrite app_nil_r in Hd.
  apply list_elem_of_fmap in Hd as (r & -> & Hra). destruct (sy_known _ _ _ _ _ _ _ _ Hs' r Hra) as (x0 & Hx0 & [[] Hp Hroom _]).
  assert (x0 = x) as -> by congruence. destruct (synced_calm c adapters all s' r x Hs' Hra Hx) as [? ? ? Hcomp ?].
  rewrite rf_key. split; [done|]. split; [done|].
  destruct (decide (r ∈ running s')) as [Hin|Hout].
  - destruct (sy_run _ _ _ _ _ _ _ _ Hs' r x Hin Hx) as [Hst ? _ _ _ _]. rewrite Hst. split_and!; try done; lia.
  - destruct (sy_wait _ _ _ _ _ _ _ _ Hs' r x Hra Hout Hx) as ([Hst Hfin _ Hc0 _ _ _ _] & _).
    split_and!; try done; try lia. intros _. rewrite <-(sy_perm _ _ _ _ _ _ _ _ Hs') in Hra.
    by apply elem_of_app in Hra as [?|?].
Qed.
End Properties.

(** C14: which of the sampled tokens a request keeps.  [_update_request_with_output]
    appends the tokens one by one and stops at the first one after which the
    request must stop (end-of-sequence or stop token, length limits, a repetition):
    the kept tokens are a prefix of the sampled ones; they are all of them, with no
    stop after any of them, if the request goes on; otherwise the request must stop
    after exactly them, after no shorter non-empty part, and its status is a
    finished one. *)
Theorem tokens_kept_until_stop {K E Q} c block_hasher r x (s : rsched K E Q) sp g :
  (∀ h y, block_hasher = Some h → ∃ hs, h y = Ok hs) →
  requests s !! request_id r = Some x → sr_sampling (fx x) = Some sp →
  0 ≤ num_prompt_tokens (sr_request (fx x)) ≤ sr_num_tokens x →
  let out ts := drop (Z.to_nat (num_prompt_tokens (sr_request (fx x)))) (all_token_ids (sr_request (fx x)) ++ ts) in
  let stops ts := must_stop sp (out ts) (sr_num_tokens x + zlen ts) (sr_max_tokens (fx x)) (sc_max_model_len c) in
  ∃ kept stop x', _update_request_with_output c block_hasher r g s
      = (Ok (kept, stop), set_requests (<[request_id r := x']> (requests s)) s) ∧
    all_token_ids (sr_request (fx x')) = all_token_ids (sr_request (fx x)) ++ kept ∧
    (∃ rest, g = kept ++ rest) ∧
    match stop with
    | None => kept = g ∧ mv x' = mv x ∧ ∀ ts, ts `prefix_of` g → ts ≠ [] → ¬ stops ts
    | Some _ => kept ≠ [] ∧ stops kept ∧ (∀ ts, ts `prefix_of` kept → ts ≠ [] → ts ≠ kept → ¬ stops ts) ∧
        ∃ status, is_finished status = true ∧ mv x' = set_status status (mv x)
    end.
Proof.
  intros Hh Hx Hsp Hp out stops. destruct (deliver_run c block_hasher Hh r x s sp g Hx Hsp Hp) as (kept & stop & x' & Hrun & Ha & [] & Hm).
  exists kept, stop, x'. split; [done|]. split; [apply Ha|]. split; [destruct ks_prefix as [rest ->]; by exists rest|].
  destruct stop as [why|].
  - destruct (ks_stop eq_refl) as [Hne Hst]. split; [done|]. split; [done|]. split; [|done].
    intros ts Hpre Hts Hneq. apply ks_before; [done|done|by left].
  - rewrite (ks_all eq_refl) in *. split; [done|]. split; [done|]. intros ts Hpre Hts. apply ks_before; [done|done|by right].
Qed.

(** *** Witnesses

    The cache of RequestSchedulerProps.v.  Request "a" is done after two tokens; "b" gets
    a draft token, which is rejected; "c" is aborted while it waits. *)
#[local] Existing Instance step_kv_manager.
#[local] Existing Instance step_kv_spec.
#[local] Existing Instance step_encoder_spec.
#[local] Existing Instance step_kv_laws.
#[local] Existing Instance step_encoder_laws.
Notation loop_st := (rsched kv ec FCFSRequestQueue).

Definition loop_conf : sconf := step_conf false.
Definition loop_key (id : string) : req := step_key 1 id.
Definition loop_request (r : req) (n mx : Z) : sreq :=
  SR (Fixed r (BlockHasher.Req (request_id r) (zrange 0 n) n [] None None None []) [] mx None
        GReady 0 false 0 (Some (Sampling None [] 0 None)))
     (Moving WAITING [] 0 0 0 0 false 0 false 0).
Definition loop_start : loop_st := RSched ∅ (Queues new_queue new_queue) [] step_kv (ec_init 0) (Books ∅ ∅ ∅ 0 ∅ 0 0 0 [] false UNPAUSED).
Definition loop_step (tokens : list (list Z)) (aborts : list string) (drafts : list (string * list Z)) : event :=
  Step (Env false (λ _, MROut {["a" := 0; "b" := 1; "c" := 2]} tokens []) (λ _ _, false) aborts drafts (λ _ l, l)).
Definition loop_adds : list event :=
  [Arrive (loop_key "a") (loop_request (loop_key "a") 4 2); Arrive (loop_key "b") (loop_request (loop_key "b") 6 5);
   Arrive (loop_key "c") (loop_request (loop_key "c") 3 5)].
Definition loop_events : list event :=
  loop_adds ++ [loop_step [[7]; []] [] []; loop_step [[8]; [9]] ["c"%string] [("b"%string, [5])]; loop_step [[]; [10]] [] []].

Lemma loop_started : started loop_start.
Proof.
  split; try done; [apply step_kv_good|intros rid; apply step_kv_idle|by apply ec_init_inv].
Qed.

Lemma loop_engine_ok : engine_ok loop_conf ∅ None elements.
Proof. split; try done. apply step_conf_ok. Qed.

Lemma loop_fresh r n mx : 0 < n < 16 → fresh_request loop_conf ∅ r (loop_request r n mx).
Proof.
  intros Hn. assert (Hlen : sr_num_tokens (loop_request r n mx) = n).
  { unfold sr_num_tokens, num_tokens. cbn -[zrange]. rewrite zrange_length. lia. }
  split; [|by left|done]. split; rewrite ?Hlen; cbn; try lia; [|done]. split; rewrite ?Hlen; try done; cbn; try lia; [|by intros f ?%elem_of_nil].
  split; [done|]. split; [by intros [] ? ? ? ? ?|by intros [] ? ? ? ? ?|by intros f ?%elem_of_nil].
Qed.

(** [legal_run], decided. *)
Definition row_of {A} (l : list A) (missing : A) (row : Z) : result A :=
  if bool_decide (l = []) then Ok missing else py_index l row.

Definition runner_b (mro : ModelRunnerOutput) (m : gmap string sreq) (drafts : list (string * list Z)) (rid : string) : bool :=
  match m !! rid, req_id_to_index mro !! rid with
  | Some x, Some row =>
      match row_of (sampled_token_ids mro) [] row, row_of (pooler_output mro) false row with
      | Ok g, Ok _ =>
          implb (r_computed (mv x) <? sr_num_tokens x) (bool_decide (g = []))
          && (zlen g <=? 1 + zlen (default [] (dget rid drafts)))
          && implb (bool_decide (g = [])) (bool_decide (default [] (dget rid drafts) = []))
          && bool_decide (sr_sampling (fx x) = None → g = [])
      | _, _ => false
      end
  | None, _ => true
  | _, None => false
  end.

Lemma runner_b_true mro m drafts rid : runner_b mro m drafts rid = true → runner_ok mro m drafts rid.
Proof.
  unfold runner_b. intros Hb x Hx. rewrite Hx in Hb. destruct (req_id_to_index mro !! rid) as [row|]; [|done].
  destruct (row_of (sampled_token_ids mro) [] row) as [g|] eqn:Eg; [|done].
  destruct (row_of (pooler_output mro) false row) as [b|] eqn:Eb; [|done].
  assert (Hrow : ∀ A (l : list A) missing v, row_of l missing row = Ok v → row_is l missing row v).
  { intros A l missing v. unfold row_of, row_is. destruct (bool_decide (l = [])); [by intros [= ->]|done]. }
  rewrite !andb_true_iff, !implb_true_iff, !bool_decide_eq_true in Hb. destruct Hb as (((Hpre & Hle) & Hno) & Hs).
  exists row, g, b. split; [done|]. split; [by apply Hrow|]. split; [by apply Hrow|].
  split; [intros ?; apply Hpre; lia|]. split; [lia|]. done.
Qed.

Definition loop_perform : event → M loop_st (list EngineCoreOutput) := perform loop_conf elements elements None.
Definition loop_run : list event → M loop_st (list EngineCoreOutput) := perform_all loop_conf elements elements None.

Fixpoint legal_b (es : list event) (s : loop_st) : bool :=
  match es with
  | [] => true
  | e :: es' =>
      match e with
      | Arrive r _ => bool_decide (requests s !! request_id r = None)
      | Step v =>
          match schedule loop_conf elements (ev_throttle v) s with
          | (Ok (p, _, _), s1) =>
              forallb (λ a, runner_b (ev_model v p) (requests s1) (RequestScheduler.scheduled_spec_decode_tokens p) a.1)
                (num_scheduled_tokens p)
          | _ => true
          end
      | _ => true
      end && legal_b es' (loop_perform e s).2
  end.

Lemma legal_b_true es s : (∀ r x, Arrive r x ∈ es → fresh_request loop_conf ∅ r x) → legal_b es s = true →
  legal_run (set_order := elements) loop_conf ∅ None elements es s.
Proof.
  revert s. induction es as [|e es IH]; intros s Hf Hb; [done|]. cbn [legal_b] in Hb. apply andb_true_iff in Hb as [He Hes].
  split; [|apply IH; [|exact Hes]; intros r x Hin; apply Hf; by right].
  destruct e as [r x|ids|p|v]; try done.
  - apply bool_decide_eq_true in He. split; [done|]. apply Hf. by left.
  - intros p out freed s1 Hrun rid n Hin. rewrite Hrun, forallb_forall in He. apply runner_b_true, (He (rid, n)). by apply list_elem_of_In.
Qed.

Lemma loop_arrivals r x : Arrive r x ∈ loop_events → fresh_request loop_conf ∅ r x.
Proof.
  intros Hin. repeat (apply elem_of_cons in Hin as [Hin|Hin]; [first [injection Hin as -> ->; by apply loop_fresh|discriminate]|]).
  by apply elem_of_nil in Hin.
Qed.

Lemma loop_legal : legal_run (set_order := elements) loop_conf ∅ None elements loop_events loop_start.
Proof. apply legal_b_true; [apply loop_arrivals|by vm_compute]. Qed.

Lemma engine_never_fails_witness :
  ∃ outs s' all, loop_run loop_events loop_start = (Ok outs, s') ∧ synced loop_conf ∅ all s' ∧ may_step loop_conf all s' ∧
    length outs = 4%nat.
Proof.
  destruct (engine_never_fails loop_conf ∅ None elements loop_events loop_start loop_engine_ok loop_started loop_legal)
    as (outs & s' & all & Hrun & Hs' & Hm).
  exists outs, s', all. split; [exact Hrun|]. split; [done|]. split; [done|].
  assert (match (loop_run loop_events loop_start).1 with Ok l => length l | _ => 0%nat end = 4%nat) as Hv by by vm_compute.
  unfold loop_run in Hv. by rewrite Hrun in Hv.
Defined.

Lemma engine_requests_well_formed_witness :
  ∃ outs s', loop_run loop_events loop_start = (Ok outs, s') ∧
    (∀ x, requests s' !! "b"%string = Some x → loop_key "b" ∈ running s' → sr_key (fx x) = loop_key "b" → r_status (mv x) = RUNNING) ∧
    running s' = [loop_key "b"].
Proof.
  destruct (engine_requests_well_formed loop_conf ∅ None elements loop_events loop_start loop_engine_ok loop_started loop_legal)
    as (outs & s' & Hrun & _ & Hall).
  exists outs, s'. split; [exact Hrun|]. split.
  - intros x Hx Hin Hkey. destruct (Hall "b"%string x Hx) as (_ & _ & _ & Hiff & _). apply Hiff. by rewrite Hkey.
  - assert (running (loop_run loop_events loop_start).2 = [loop_key "b"]) as Hv by by vm_compute.
    unfold loop_run in Hv. by rewrite Hrun in Hv.
Defined.

Lemma loop_ids : NoDup ((λ a, request_id a.1) <$> added loop_events).
Proof.
  change ((λ a, request_id a.1) <$> added loop_events) with ["a"; "b"; "c"]%string.
  apply (bool_decide_unpack _). by vm_compute.
Qed.

Lemma engine_accounts_for_tokens_witness :
  ∃ outs s' x', loop_run loop_events loop_start = (Ok outs, s') ∧ delivered outs "b" = [9; 10] ∧
    requests s' !! "b"%string = Some x' ∧ all_token_ids (sr_request (fx x')) = zrange 0 6 ++ [9; 10].
Proof.
  destruct (engine_accounts_for_tokens loop_conf ∅ None elements loop_events loop_start loop_engine_ok loop_started loop_legal)
    as (outs & s' & all & Hrun & Hperm & _ & Hopen & _); [exact loop_ids|].
  assert (match loop_run loop_events loop_start with
          | (Ok l, s) => (delivered l "b", running s)
          | (Raise _, s) => ([], running s)
          end = ([9; 10], [loop_key "b"])) as Hv by by vm_compute.
  unfold loop_run in Hv. rewrite Hrun in Hv. injection Hv as Hd Hr.
  destruct (Hopen (loop_key "b") (loop_request (loop_key "b") 6 5)) as (_ & x' & Hx' & Htok).
  - right; left.
  - rewrite <-Hperm, Hr. by left.
  - exists outs, s', x'. split; [exact Hrun|]. split; [done|]. split; [done|]. rewrite Htok. cbn [request_id loop_key step_key]. by rewrite Hd.
Defined.

(** After the first step. *)
Definition loop_first : loop_st := (loop_run (loop_adds ++ [loop_step [[7]; []] [] []]) loop_start).2.

Lemma loop_first_synced : ∃ all, synced loop_conf ∅ all loop_first.
Proof.
  destruct (events_run loop_conf (step_conf_ok false) eq_refl ∅ (eg_loras _ _ _ _ loop_engine_ok) None (eg_hash _ _ _ _ loop_engine_ok)
    elements (eg_order _ _ _ _ loop_engine_ok) (loop_adds ++ [loop_step [[7]; []] [] []]) [] loop_start) as (outs & s' & all & Hrun & Hs').
  - by apply started_synced; [apply loop_started|].
  - apply legal_b_true; [|by vm_compute]. intros r x Hin. apply loop_arrivals. unfold loop_events. set_solver.
  - exists all. unfold loop_first, loop_run. by rewrite Hrun.
Qed.

Lemma finish_requests_releases_witness :
  ∃ gone s', finish_requests loop_conf elements ["b"; "x"]%string FINISHED_ABORTED loop_first = (Ok gone, s') ∧
    running loop_first = [loop_key "a"; loop_key "b"] ∧ running s' = [loop_key "a"] ∧ requests s' !! "b"%string = None.
Proof.
  destruct loop_first_synced as [all Hs].
  destruct (finish_requests_releases loop_conf ∅ FINISHED_ABORTED ["b"; "x"]%string all loop_first (step_conf_ok false) eq_refl Hs eq_refl)
    as (gone & s' & Hrun & _ & Hin & _ & _ & Hgone & _); [by apply (bool_decide_unpack _); vm_compute|].
  assert (running loop_first = [loop_key "a"; loop_key "b"]) as Hr by by vm_compute.
  exists gone, s'. split; [exact Hrun|]. split; [done|]. split.
  - assert (running (finish_requests loop_conf elements ["b"; "x"]%string FINISHED_ABORTED loop_first).2 = [loop_key "a"]) as Hv by by vm_compute.
    by rewrite Hrun in Hv.
  - apply (Hgone (loop_key "b")), Hin. split; [|by left]. rewrite <-(sy_perm _ _ _ _ _ _ _ _ Hs), Hr. by right; left.
Defined.

Definition kept_state : rsched unit unit unit :=
  RSched {["a" := loop_request (loop_key "a") 4 2]} (Queues tt tt) [] tt tt (Books ∅ ∅ ∅ 0 ∅ 0 0 0 [] false UNPAUSED).

Lemma tokens_kept_until_stop_witness :
  ∃ why s', _update_request_with_output loop_conf None (loop_key "a") [7; 8; 9] kept_state = (Ok ([7; 8], Some why), s').
Proof.
  destruct (tokens_kept_until_stop loop_conf None (loop_key "a") (loop_request (loop_key "a") 4 2) kept_state (Sampling None [] 0 None) [7; 8; 9])
    as (kept & stop & x' & Hrun & _); [done|done|done|by vm_compute|].
  assert ((_update_request_with_output loop_conf None (loop_key "a") [7; 8; 9] kept_state).1 = Ok ([7; 8], Some None)) as Hv by by vm_compute.
  rewrite Hrun in Hv. injection Hv as -> ->. eexists _, _. exact Hrun.
Defined.

(** *** Too many adapters

    [engine_never_fails] asks for as many LoRA slots as there are adapters.  With
    fewer, [schedule] can fail: a running request that a throttled step passes over
    is not counted, its slot goes to a one-token request with another adapter, and
    the next step, which schedules both, breaks the assertion on [max_loras]. *)
Definition lora_conf : sconf := SConf 8 8 4 0 4 16 1 0 0 0 false true (Some 1) 0 false false false false false false false.
Definition lora_request (r : req) (n : Z) (lora : option Z) : sreq :=
  SR (Fixed r (BlockHasher.Req (request_id r) (zrange 0 n) n [] None None None []) [] 9 lora
        GReady 0 false 0 (Some (Sampling None [] 0 None)))
     (Moving WAITING [] 0 0 0 0 false 0 false 0).
Definition throttled_step (tokens : list (list Z)) : event :=
  Step (Env true (λ _, MROut {["a" := 0; "b" := 1; "c" := 2]} tokens []) (λ _ _, false) [] [] (λ _ l, l)).
Definition lora_events : list event :=
  [Arrive (loop_key "a") (lora_request (loop_key "a") 2 None); Arrive (loop_key "b") (lora_request (loop_key "b") 8 (Some 1));
   loop_step [[7]; []] [] []; Arrive (loop_key "c") (lora_request (loop_key "c") 1 (Some 2));
   throttled_step [[8]; []; [9]]; loop_step [[7]; [7]; [7]] [] []].

Example lora_limit_exceeded :
  (perform_all lora_conf elements elements None (take 5 lora_events) loop_start).1
    = Ok [ECOut "a" [7] None None false; ECOut "a" [8] None None false; ECOut "c" [9] None None false] ∧
  (perform_all lora_conf elements elements None lora_events loop_start).1 = Raise AssertionError.
Proof. split; by vm_compute. Qed.

(** *** A padded decode that is cut off

    [conf_ok] asks that [long_prefill_token_threshold] is off or larger than the
    number of draft tokens.  Otherwise [schedule] can fail: the padding of a
    one-token request is cut off at the threshold, against the assertion that
    follows. *)
Definition padded_conf : sconf := SConf 8 8 4 0 2 16 1 0 0 3 false true None 0 false false false false false false false.
Definition padded_events : list event :=
  [Arrive (loop_key "a") (lora_request (loop_key "a") 2 None); loop_step [[7]; []] [] [];
   Arrive (loop_key "c") (lora_request (loop_key "c") 1 None); loop_step [[8]; []; [9]] [] []].

Example padded_decode_cut_off :
  (perform_all padded_conf elements elements None (take 3 padded_events) loop_start).1 = Ok [ECOut "a" [7] None None false] ∧
  (perform_all padded_conf elements elements None padded_events loop_start).1 = Raise AssertionError.
Proof. split; by vm_compute. Qed.
