(* ===== verification/EncoderRunner.v ===== *)
(** * The encoder cache of the model runner in a running engine

    What the model runner does with the encoder inputs of a step
    ([_batch_mm_inputs_from_scheduler], [_execute_mm_encoder] and
    [_gather_mm_embeddings] of vllm/v1/worker/gpu_model_runner.py), driven by the
    plans of the scheduler (RequestScheduler.v) in the engine loop (EngineLoop.v):
    gathering succeeds if the items are cached, and a run of the engine in which
    the scheduler and the runner disagree about what is cached.  The encoder is a
    parameter; a cached output is the list of its rows.  Left out: the
    position ids of pruned inputs ([is_multimodal_pruning_enabled]), and the
    modality tags. *)

From S2P Require Import Prelude PyData Float BlockHash BlockHasher BlockPool SingleTypeManager KVCacheManager KVCacheManagerSpec.
From S2P Require Import EncoderCache EncoderCacheSpec EncoderSchedule Heap RequestQueue Scheduler StopConditions RequestScheduler.
From S2P Require Import SchedulerInterfaces RequestSchedulerSpec RequestUpdate SchedulerInstances RequestSchedulerProps EngineLoop.
From stdpp Require Import base gmap sets list strings.
From Stdlib Require Import ZArith Lia.
Open Scope Z_scope.

(** ** A step of the runner *)
Section Runner.
Context {V : Type}.
(** The encoder, and whether an item's input is there ([mm_feature.data]). *)
Context (encode : string → list V) (has_data : feature → bool).
Notation cache := (gmap string (list V)).
Implicit Types c : cache.

(** The items of one request: [mm_features[i]] for the scheduled ids. *)
Fixpoint batch_request (feats : list feature) (ids : list Z) : result (list string) :=
  match ids with
  | [] => Ok []
  | i :: ids' =>
      result_bind (py_index feats i) (λ f,
      result_bind (batch_request feats ids') (λ hs,
      Ok (if has_data f then identifier f :: hs else hs)))
  end.

(** [self.requests], as far as it is read: the features of each request. *)
Fixpoint _batch_mm_inputs_from_scheduler (requests : gmap string (list feature)) (scheduled : list (string * list Z))
    : result (list string) :=
  match scheduled with
  | [] => Ok []
  | (rid, ids) :: scheduled' =>
      match requests !! rid with
      | None => Raise KeyError
      | Some feats =>
          result_bind (batch_request feats ids) (λ hs,
          result_bind (_batch_mm_inputs_from_scheduler requests scheduled') (λ hs',
          Ok (hs ++ hs')))
      end
  end.

Definition _execute_mm_encoder (requests : gmap string (list feature)) (scheduled : list (string * list Z)) c
    : result cache :=
  result_bind (_batch_mm_inputs_from_scheduler requests scheduled) (λ hs,
  Ok (foldl (_cache_encoder_output encode) c hs)).

(** [l[a:b]] for [0 <= a] *)
Definition rows {A} (l : list A) (a b : Z) : list A := take (Z.to_nat (b - a)) (drop (Z.to_nat a) l).

(** [mask[a:a+len(bits)] |= bits] *)
Definition or_mask (mask : list bool) (a : Z) (bits : list bool) : list bool :=
  imap (λ i b, b || (Z.leb a (Z.of_nat i) && default false (bits !! Z.to_nat (Z.of_nat i - a)))) mask.

(** The embeddings gathered so far, and [is_mm_embed]. *)
Definition gathered : Type := list (list V) * list bool.

(** A feature of a request whose tokens start at [req_start_idx] in the batch. *)
Definition gather_feature c (num_computed shift num_scheduled req_start_idx : Z) (f : feature) (acc : gathered) : result gathered :=
  let computed := num_computed + shift in
  let pos := mm_position f in
  let start_idx := Z.max (computed - offset pos) 0 in
  let end_idx := Z.min (computed - offset pos + num_scheduled) (p_length pos) in
  if negb (start_idx <? end_idx) then Raise AssertionError
  else
    result_bind (get_embeds_indices_in_range pos start_idx end_idx) (λ e,
    if e.1 =? e.2 then Ok acc
    else
      match c !! identifier f with
      | None => if num_computed + num_scheduled <=? offset pos then Ok acc else Raise RuntimeError
      | Some out =>
          let at_ := req_start_idx + offset pos - computed + start_idx in
          Ok (match is_embed pos with
              | Some m => (acc.1 ++ [rows out e.1 e.2], or_mask acc.2 at_ (rows m start_idx end_idx))
              | None => (acc.1 ++ [rows out start_idx end_idx],
                         or_mask acc.2 at_ (replicate (Z.to_nat (end_idx - start_idx)) true))
              end)
      end).

(** [for i in range(lo, hi)] *)
Fixpoint gather_loop c (num_computed shift num_scheduled req_start_idx : Z) (fs : list feature) (acc : gathered) : result gathered :=
  match fs with
  | [] => Ok acc
  | f :: fs' =>
      result_bind (gather_feature c num_computed shift num_scheduled req_start_idx f acc)
        (gather_loop c num_computed shift num_scheduled req_start_idx fs')
  end.

(** A row of the input batch: a request, its computed tokens before the step and
    its tokens of the step. *)
Record batch_row := Row { row_req : string; row_computed : Z; row_scheduled : Z }.

Fixpoint gather_rows (requests : gmap string (list feature)) c (shift req_start_idx : Z) (batch : list batch_row) (acc : gathered)
    : result gathered :=
  match batch with
  | [] => Ok acc
  | b :: batch' =>
      match requests !! row_req b with
      | None => Raise KeyError
      | Some feats =>
          let computed := row_computed b + shift in
          let '(lo, hi) := get_mm_features_in_window feats computed (computed + row_scheduled b) in
          result_bind (gather_loop c (row_computed b) shift (row_scheduled b) req_start_idx (rows feats lo hi) acc)
            (gather_rows requests c shift (req_start_idx + row_scheduled b) batch')
      end
  end.

Definition _gather_mm_embeddings (requests : gmap string (list feature)) c (shift total : Z) (batch : list batch_row) : result gathered :=
  gather_rows requests c shift 0 batch ([], replicate (Z.to_nat total) false).

(** *** Gathering succeeds if the items are cached *)

(** Every item that one of the scheduled tokens takes an embedding from is cached. *)
Definition row_cached (requests : gmap string (list feature)) c (shift : Z) (b : batch_row) : Prop :=
  ∃ feats, requests !! row_req b = Some feats ∧ feats_ok feats ∧ 0 ≤ row_computed b + shift ∧ 0 ≤ row_scheduled b ∧
    ∀ f p, f ∈ feats → row_computed b + shift ≤ p < row_computed b + shift + row_scheduled b →
      embeds_at (mm_position f) (p - offset (mm_position f)) → is_Some (c !! identifier f).
End Runner.

(** A step of the runner on a plan: the freed items go, the scheduled ones are
    encoded, the embeddings of the batch are gathered. *)
Definition execute_mm {V} (encode : string → list V) (has_data : feature → bool) (requests : gmap string (list feature))
    (batch : list batch_row) (freed : list string) (inputs : list (string * list Z)) (total : Z) (c : gmap string (list V))
    : result (gathered * gmap string (list V)) :=
  result_bind (_execute_mm_encoder encode has_data requests inputs (_process_encoder_cache_scheduler_output freed c)) (λ c',
  result_bind (_gather_mm_embeddings requests c' 0 total batch) (λ g, Ok (g, c'))).

(** *** Gathering succeeds if the items are cached *)

(** A range with embeddings has a position that takes one. *)
Lemma embeds_range_some p a b x y :
  range_ok p → 0 ≤ a < b → b ≤ p_length p → get_embeds_indices_in_range p a b = Ok (x, y) → x ≠ y →
  ∃ k, a ≤ k < b ∧ embeds_at p k.
Proof.
  intros [Hl Hm] Hab Hb Hr Hne. unfold get_embeds_indices_in_range, embeds_cumsum, embeds_at in *.
  destruct (is_embed p) as [m|]; cbn [fmap option_fmap option_map] in *; [|exists a; split; [lia|split; [lia|done]]].
  assert (∀ c v, 0 ≤ c ≤ p_length p → (if 0 <? c then py_index (cumsum 0 m) (c - 1) else Ok 0) = Ok v → v = count (take (Z.to_nat c) m)) as Hget.
  { intros c v Hc. destruct (0 <? c) eqn:E; [apply Z.ltb_lt in E|apply Z.ltb_ge in E].
    - unfold py_index. rewrite (proj2 (Z.ltb_ge (c - 1) 0)) by lia. rewrite (proj2 (Z.ltb_ge (c - 1) 0)) by lia.
      rewrite cumsum_lookup by (unfold zlen in Hm; lia). rewrite Z.add_0_l. intros [= <-]. do 2 f_equal. lia.
    - replace c with 0 by lia. by intros [= <-]. }
  destruct (if 0 <? a then _ else _) as [x'|] eqn:Ex; [|done]. cbn [result_bind] in Hr.
  destruct (if 0 <? b then _ else _) as [y'|] eqn:Ey; [|done]. cbn [result_bind] in Hr. injection Hr as -> ->.
  apply Hget in Ex; [|lia]. apply Hget in Ey; [|lia].
  replace (take (Z.to_nat b) m) with (take (Z.to_nat a) m ++ take (Z.to_nat b - Z.to_nat a) (drop (Z.to_nat a) m)) in Ey
    by (rewrite take_take_drop; f_equal; lia).
  rewrite count_app in Ey. set (l := take _ (drop _ m)) in *.
  assert (∃ i, l !! i = Some true) as (i & Hi).
  { assert (count l ≠ 0) as Hc by lia. clear -Hc. induction l as [|[] l IH]; [done|by exists 0%nat|].
    destruct IH as [i Hi]; [exact Hc|by exists (S i)]. }
  exists (a + Z.of_nat i). unfold l in Hi. apply lookup_take_Some in Hi as [Hi Hlt]. rewrite lookup_drop in Hi.
  split; [lia|]. split; [lia|]. rewrite <-Hi. f_equal. lia.
Qed.

Section Gather.
Context {V : Type} (requests : gmap string (list feature)) (c : gmap string (list V)).

Lemma gather_feature_ok computed shift n at_ f acc :
  range_ok (mm_position f) → 0 < p_length (mm_position f) → 0 < n →
  offset (mm_position f) < computed + shift + n → computed + shift < offset (mm_position f) + p_length (mm_position f) →
  (∀ p, computed + shift ≤ p < computed + shift + n → embeds_at (mm_position f) (p - offset (mm_position f)) → is_Some (c !! identifier f)) →
  ∃ acc', gather_feature c computed shift n at_ f acc = Ok acc'.
Proof.
  intros Hr Hl Hn Hlo Hhi Hc. unfold gather_feature. set (pos := mm_position f) in *.
  set (a := Z.max (computed + shift - offset pos) 0). set (b := Z.min _ (p_length pos)).
  assert (0 ≤ a < b ∧ b ≤ p_length pos) as [Hab Hb] by lia. rewrite (proj2 (Z.ltb_lt a b)) by lia. cbn [negb].
  destruct (embeds_range_spec pos a b Hr) as (x & y & He & _); [lia|lia|]. rewrite He. cbn [result_bind fst snd].
  destruct (x =? y) eqn:Exy; [by eexists|]. apply Z.eqb_neq in Exy.
  destruct (embeds_range_some pos a b x y Hr Hab Hb He Exy) as (k & Hk & Hemb).
  destruct (Hc (k + offset pos)) as [out ->]; [lia|by replace (k + offset pos - offset pos) with k by lia|]. by eexists.
Qed.

(** If the tokens of every row find their items cached, gathering returns. *)
Theorem gather_finds_cached_items shift total batch :
  (∀ b, b ∈ batch → 0 < row_scheduled b ∧ row_cached requests c shift b ∧
     ∀ feats f, requests !! row_req b = Some feats → f ∈ feats → 0 < p_length (mm_position f)) →
  ∃ g, _gather_mm_embeddings requests c shift total batch = Ok g.
Proof.
  intros Hall. enough (∀ at_ acc, ∃ g, gather_rows requests c shift at_ batch acc = Ok g) as Hg by apply Hg.
  revert Hall. induction batch as [|b batch IH]; intros Hb at_ acc; cbn [gather_rows]; [by eexists|].
  destruct (Hb b) as (Hn & (feats & Hf & Hok & Hpos & _ & Hc) & Hlen); [by left|]. rewrite Hf.
  destruct (get_mm_features_in_window _ _ _) as [lo hi] eqn:Ew.
  assert (∀ f, f ∈ rows feats lo hi → f ∈ feats ∧ offset (mm_position f) < row_computed b + shift + row_scheduled b ∧
    row_computed b + shift < offset (mm_position f) + p_length (mm_position f)) as Hin.
  { intros f (i & Hi)%list_elem_of_lookup. unfold rows in Hi. apply lookup_take_Some in Hi as [Hi Hlt]. rewrite lookup_drop in Hi.
    pose proof (window_spec feats (row_computed b + shift) (row_computed b + shift + row_scheduled b) _ f Hok Hi) as Hw.
    rewrite Ew in Hw. split; [by eapply list_elem_of_lookup_2|].
    assert (0 ≤ lo) by (unfold get_mm_features_in_window in Ew; injection Ew; lia). lia. }
  assert (∃ acc', gather_loop c (row_computed b) shift (row_scheduled b) at_ (rows feats lo hi) acc = Ok acc') as [acc' ->].
  { revert acc. induction (rows feats lo hi) as [|f fs IHf]; intros acc; cbn [gather_loop]; [by eexists|].
    destruct (Hin f) as (Hff & H1 & H2); [by left|].
    destruct (gather_feature_ok (row_computed b) shift (row_scheduled b) at_ f acc) as [acc1 ->]; try done.
    - by apply Hok.
    - by apply (Hlen feats).
    - intros p Hp. by apply Hc.
    - apply IHf. intros g Hg. apply Hin. by right. }
  cbn [result_bind]. apply IH. intros b' Hb'. apply Hb. by right.
Qed.
End Gather.

(** ** The runner in the engine loop

    The cache of RequestSchedulerProps.v, with an encoder cache of four rows.  "p"
    has twelve tokens, three of the last four from an image; "q" comes one step
    later, and has the better priority. *)
#[local] Existing Instance step_kv_manager.
Notation enc_st := (rsched kv ec PriorityRequestQueue).

(** The rows of the batch: what [_update_states] takes from the output. *)
Definition plan_rows (p : pass) (out : SchedulerOutput) : list batch_row :=
  let row rid computed := Row rid computed (default 0 (dget rid (RequestScheduler.num_scheduled_tokens p))) in
  ((λ r, row (nr_id r) (nr_computed r)) <$> Scheduler.scheduled_new_reqs out) ++
  ((λ e, row e.1 e.2) <$> zip (cached_req_ids out) (cached_num_computed out)).

(** What a step planned, and what came of it in the runner: the embeddings it
    gathered, or the exception. *)
Record logged := Log {
  lg_tokens : list (string * Z);
  lg_encoder_inputs : list (string * list Z);
  lg_preempted : list string;
  lg_freed : list string;
  lg_embeddings : result (list (list Z));
}.

(** Every encoder output is the rows 0, 1, ... *)
Definition demo_encode (h : string) : list Z := zrange 0 3.

(** The engine with the runner's encoder cache, up to the first exception. *)
Fixpoint run_with_runner (c : sconf) (es : list event) (s : enc_st) (cache : gmap string (list Z)) : list logged :=
  match es with
  | [] => []
  | e :: es' =>
      let s' := (perform c elements elements None e s).2 in
      match e with
      | Step v =>
          match (schedule c elements (ev_throttle v) s).1 with
          | Raise _ => []
          | Ok (p, out, freed) =>
              let r := execute_mm demo_encode (λ _, true) ((λ x, sr_features (fx x)) <$> requests s)
                         (plan_rows p out) freed (scheduled_encoder_inputs p) (sum_scheduled p) cache in
              Log (RequestScheduler.num_scheduled_tokens p) (scheduled_encoder_inputs p)
                (RequestQueue.request_id <$> preempted_reqs p) freed (result_bind r (λ x, Ok x.1.1))
              :: match r with Ok (_, cache') => run_with_runner c es' s' cache' | Raise _ => [] end
          end
      | _ => run_with_runner c es' s' cache
      end
  end.

Definition enc_conf : sconf := SConf 8 8 4 0 4 16 1 0 0 0 false true None 4 true false false false false false false.
Definition enc_kv (pages : Z) : kv :=
  match pool_init pages false 4 with Ok p => KV p (new_manager <$> step_groups) | Raise _ => step_kv end.
Definition enc_start (pages : Z) : enc_st :=
  RSched ∅ (Queues new_queue new_queue) [] (enc_kv pages) (ec_init 4) (Books ∅ ∅ ∅ 0 ∅ 0 0 0 [] false UNPAUSED).
Definition enc_key (prio t : Z) (id : string) : RequestQueue.req := RequestQueue.Req prio t id 0.
Definition enc_request (r : RequestQueue.req) (fs : list feature) : sreq :=
  SR (Fixed r (BlockHasher.Req (RequestQueue.request_id r) (zrange 0 12) 12 [] None None None []) fs 1 None
        GReady 0 false 0 (Some (Sampling None [] 0 None)))
     (Moving WAITING [] 0 0 0 0 false 0 false 0).
Definition image : list feature := [EncoderCache.Feature "img" (Range 8 3 None)].
Definition enc_step (tokens : list (list Z)) : event :=
  Step (Env false (λ _, MROut {["p" := 0; "q" := 1]} tokens []) (λ _ _, false) [] [] (λ _ l, l)).
(** "p" arrives, a step, "q" arrives, and steps that sample the given tokens for
    "p" and for "q". *)
Definition enc_events (tokens : list (list (list Z))) : list event :=
  [Arrive (enc_key 1 1 "p") (enc_request (enc_key 1 1 "p") image); enc_step [[]; []];
   Arrive (enc_key 0 2 "q") (enc_request (enc_key 0 2 "q") [])] ++ (enc_step <$> tokens).
(** Four usable pages. *)
Definition short_run : list event := enc_events [[[]; []]; [[]; []]; [[]; [7]]; [[]; []]; [[7]; []]].
(** Eight usable pages. *)
Definition long_run : list event := enc_events [[[]; []]; [[7]; []]; [[]; [7]]].
Definition short_states (n : nat) : result (list EngineCoreOutput) * enc_st :=
  perform_all enc_conf elements elements None (take n short_run) (enc_start 5).

(** C40: an item whose request is preempted in the pass that scheduled it is never
    encoded, and the runner fails on it. Under the priority policy, with four usable
    pages: the third step gives "p" its last four tokens and schedules its image;
    then "q" finds no free page, and "p" is preempted, although the step has
    scheduled it. Its encoder input is taken out of the plan, so the runner encodes
    nothing, but the manager keeps the item, unreferenced. When "p" has been resumed
    and reaches these tokens again, the manager takes the item for cached: the plan
    has no encoder input, no hash was ever reported as freed, and
    [_gather_mm_embeddings] raises [RuntimeError] ("Encoder cache miss"). With eight
    usable pages nobody is preempted, the image is encoded and gathered. *)
Theorem preempted_item_never_encoded :
  run_with_runner enc_conf short_run (enc_start 5) ∅ =
    [Log [("p", 4)] [] [] [] (Ok []); Log [("p", 4); ("q", 4)] [] [] [] (Ok []);
     Log [("q", 4)] [] ["p"] [] (Ok []); Log [("q", 4); ("p", 4)] [] [] [] (Ok []);
     Log [("p", 4)] [] [] [] (Ok []); Log [("p", 4)] [] [] [] (Raise RuntimeError)]%string ∧
  (cached (encm (short_states 4).2) !! "img"%string = None ∧ cached (encm (short_states 5).2) !! "img"%string = Some ∅ ∧
   (short_states 7).1 = Ok [ECOut "q" [7] (Some LENGTH) None false]) ∧
  run_with_runner enc_conf long_run (enc_start 9) ∅ =
    [Log [("p", 4)] [] [] [] (Ok []); Log [("p", 4); ("q", 4)] [] [] [] (Ok []);
     Log [("p", 4); ("q", 4)] [("p", [0])] [] [] (Ok [[0; 1; 2]]); Log [("q", 4)] [] [] [] (Ok [])]%string.
Proof. split; [by vm_compute|]. split; [split_and!; by vm_compute|by vm_compute]. Qed.
